(* ===== verification/_CoqProject ===== *)
-Q . S2P
Prelude.v
Bytes.v
Identity.v
Codec.v
Control.v
ControlCodec.v
ControlCodecFacts.v
DataCodec.v
DataCodecFacts.v
ChannelMap.v
Mux.v
MuxFacts.v
MuxFairness.v
Handshake.v
HandshakeFacts.v
HandshakeProps.v
Protocol.v
ProtocolFacts.v
Liveness.v
Resume.v
Session.v
SessionFacts.v
SessionProps.v
Security.v
Selection.v
ResumeFacts.v
Reconnect.v
ReconnectFacts.v
TransportBase.v
Realtime.v
RealtimeFacts.v
RealtimeProps.v
RealtimeWire.v
Transport.v
TransportFacts.v
Trust.v
TrustFacts.v
Ceremony.v
PairingLimits.v
PairingFacts.v
NtpBinding.v
Fragment.v
FragmentFacts.v
FragmentProps.v
FragmentRoundtrip.v
Reliable.v
ReliableFacts.v
Pool.v
PoolFacts.v
Discovery.v
DiscoveryFacts.v
Keyring.v
KeyringFacts.v
Framed.v
FramedFacts.v
FramedProps.v
Step.v
NtpProtocol.v
NtpControl.v
NtpControlFacts.v
NtpSession.v
NtpPublisher.v
NtpSubscriber.v
NtpSessionFacts.v
NtpPublisherFacts.v
NtpSubscriberFacts.v
NtpAgreement.v
NtpExample.v
StreamTransports.v
Quic.v
QuicReceive.v
QuicPoll.v
QuicLink.v
ListenerFacts.v
QuicTransfer.v
QuicResults.v
AppEndpoint.v
AppEndpointFacts.v
Mdns.v
TransportSuite.v
