(* ===== verification/Prelude.v ===== *)
(** * MutsukiLink: a verification library for the connection runtime

    MutsukiLink lets two endpoints find each other, authenticate, agree on
    application protocols and exchange bounded, prioritised messages.  The
    crate [mutsuki-link-core] holds its pure state machines and codecs;
    [mutsuki-link-pairing] establishes and stores trust; [ntp-mutsuki-link]
    binds the NanaTracking protocol to it; the other crates attach operating
    system transports.  This library models the program's own logic as it is
    written and proves what makes it correct.

    ** How the parts interact

    Discovery offers untrusted candidates ([Discovery], [Mdns]); an
    application publishes where it listens with a lease ([AppEndpoint]).  Two
    peers pair once ([Ceremony], [Trust], [Keyring]).  To connect, an owner
    selects a transport ([Selection]), connects or accepts over it
    ([StreamTransports], [Quic]), runs the handshake ([Handshake], on the
    control codec), checks the transport's evidence ([Security]) and has a
    [Session], which keeps a channel table ([ChannelMap]), a multiplexer
    ([Mux]), the negotiated protocols ([Protocol]) and an event bus, and opens
    channels through all of them atomically.  Frames leave the multiplexer by
    weighted fair scheduling, in the compact data codec ([DataCodec]).
    [Liveness] says when the peer is silent, [Reconnect] when to try again and
    [Resume] what to replay; a [Pool] keeps one connection for each peer with
    both controllers.  A transport ([Transport]) is the in-memory one, a framed
    bridge ([Framed]) over the stream of TCP or of a local socket, or a QUIC
    connection: two bridges over two streams, and the queue of real-time
    datagrams ([Realtime]) over quinn's datagrams.  The NTP binding authorises
    a session ([NtpBinding]); its publisher and subscriber agree on a session
    by control messages ([NtpControl], [NtpPublisher], [NtpSubscriber]) and
    send results as fragments ([Fragment]) or, without datagrams, over the
    ordered transport ([Reliable]).  [QuicTransfer] and [QuicResults] put the
    parts together: fragments of results in the real-time queue of one QUIC
    connection, and the reassembler behind another.  [TransportSuite] is the
    program's own suite: handshake, session and channels over any transport.

    ** Files and sources

    A file [X] holds data and operations, [XFacts] and [XProps] the theorems;
    a short part has both in one file.  Definitions keep the names of the
    source; where two parts use one name, a prefix tells them apart ([mux_],
    [latest_], [pairing_], [quic_], [p_] and [s_] of publisher and subscriber).

    - [Prelude], [Bytes], [Codec]: machine integers, results and their monad,
      maps iterated in key order, bytes, big-endian integers, UTF-8, and the
      class [Codec] that states what a writer and a reader promise each other.
    - [Step]: the monad of a method that changes its receiver, may fail and
      may panic, with its weakest preconditions [step_wp] and its invariants
      [step_keeps].
    - [Identity]: [identity.rs], [error.rs], the version window of [lib.rs].
    - [Control], [ControlCodec], [ControlCodecFacts]: [control.rs], the typed
      control plane and its wire form.
    - [DataCodec], [DataCodecFacts]: [data.rs].
    - [ChannelMap]: [SessionChannelMap] of [control.rs].
    - [Mux], [MuxFacts], [MuxFairness]: [mux.rs].
    - [Handshake], [HandshakeFacts], [HandshakeProps]: [handshake.rs].
    - [Protocol], [ProtocolFacts]: [protocol.rs].
    - [Liveness]: [liveness.rs].
    - [Resume], [ResumeFacts]: [resume.rs].
    - [Session], [SessionFacts], [SessionProps]: [session.rs].
    - [Security]: [security.rs]; [Selection]: [selection.rs].
    - [Reconnect], [ReconnectFacts]: [reconnect.rs], [budget.rs].
    - [TransportBase], [Transport], [TransportFacts]: [transport.rs].
    - [Realtime], [RealtimeFacts], [RealtimeProps], [RealtimeWire]:
      [realtime.rs].
    - [Framed], [FramedFacts], [FramedProps]: [mutsuki-link-io]; the tasks'
      turns, the calls and the failures of the stream are the actions of a run.
    - [StreamTransports], [ListenerFacts]: [mutsuki-link-tcp],
      [mutsuki-link-local], and the listeners of all transports.
    - [Quic], [QuicReceive], [QuicPoll], [QuicLink]: [mutsuki-link-quic]: its
      operations, the window of received datagrams, the real-time queue, the
      two streams; [QuicTransfer] and [QuicResults] compose two connections.
    - [AppEndpoint], [AppEndpointFacts]: [app_endpoint.rs].
    - [Trust], [TrustFacts]: [trust.rs], [file_store.rs].
    - [Keyring], [KeyringFacts]: [keyring_store.rs].
    - [Ceremony], [PairingLimits], [PairingFacts]: [ceremony.rs],
      [rate_limit.rs].
    - [Pool], [PoolFacts]: [mutsuki-link-runtime].
    - [Discovery], [DiscoveryFacts], [Mdns]: [mutsuki-link-discovery].
    - [NtpBinding]: [auth.rs] and the shared declarations of [lib.rs] of
      [ntp-mutsuki-link].
    - [NtpProtocol], [NtpControl], [NtpControlFacts]: what is asked of
      [nana_tracking_protocol], and [control.rs].
    - [NtpSession], [NtpPublisher], [NtpSubscriber] and their [Facts],
      [NtpAgreement]: clocks, the publisher and the subscriber of [lib.rs],
      and the two together; [NtpExample] runs them.
    - [Fragment], [FragmentFacts], [FragmentProps], [FragmentRoundtrip]:
      [fragment.rs].
    - [Reliable], [ReliableFacts]: [reliable.rs].
    - [TransportSuite]: [mutsuki-link-transport-testkit].

    ** How the code is modelled

    An unsigned integer is an [N] with the source's saturating, checked or
    wrapping operation written out; [usize] has 64 bits.  A byte is
    [Byte.byte], [[u8; n]] a vector, a [String] its UTF-8 bytes, a [BTreeMap] a
    [gmap] iterated in key order, a [Vec] or [VecDeque] a list.  A method on
    [&mut self] returns the new state with its [Result]; where it returns an
    error after a partial change, so does the model.  A panic is [None].
    [Instant]s and unix times are arguments; a sum past the last [Instant]
    panics ([instant_add]).  An [async] function is a [Step] whose awaited calls
    answer as a parameter says, in [Quic] possibly never; tasks that run beside
    it are the actions of a run, or a list of what they did during a call.  What
    a method does under one lock is one step: a receive of the in-memory
    transport takes two, and the other end may act in between.

    Code that is not under [src/] is a parameter: SHA-256 is the class
    [Sha256], signing the record [PairingCrypto], the verifier of resume tokens
    and the owner's identity verifier are arguments, the outcome of each file
    system call, the length of a file and what it parses to are arguments, how
    long a written file is the class [SerdeFile], the credential service
    answers as a list of outcomes says and [serde_json] writes its index as the
    class [SerdeStrings] does.  The crate [nana_tracking_protocol] is the
    classes [NanaTracking] and those of [NtpProtocol], quinn is
    [QuinnConnection] and what [Quic] adds for endpoints, mdns_sd a class of
    [Mdns]; each is over a world [W] that every call may change and answer
    from.  Where a theorem uses what such a crate documents, a hypothesis names
    it and a witness has an instance.  Transports are the classes [Connection]
    and [RealtimeConnection]; the in-memory transport, the framed connection
    and the QUIC connection are instances.

    ** What the theorems show

    - Wire formats: the control, data, real-time, control-stream, fragment,
      NTP control and latest-only formats decode what was encoded, and the
      control, data and real-time decoders accept nothing else.
    - Handshake: two honest machines agree, neither is established without the
      identity decision of its owner and the peer's proof, terminal states are
      terminal, and negotiation picks what both offered.
    - Multiplexer: its bookkeeping is an invariant, admission is atomic,
      draining is complete and in order, and scheduling is weighted fair with a
      bound on how long a channel waits.
    - Protocols and sessions: registries are consistent, both sides negotiate
      the same, channel openings are atomic and keep three tables in agreement,
      lifecycles only move forward, and the event bus accounts for each event.
    - Recovery: the heartbeat reports what the silence means and sends a probe
      exactly when one is due, reconnection is bounded, and a replay plan decides
      each request once, as its declaration says.
    - Transports: evidence is accepted exactly when it is sound, fallback never
      weakens silently, the in-memory transport refines a bounded FIFO for
      each lane, a listener never exceeds its budget, and what the transport
      suite asserts follows from carrying messages; framed connections do.
    - Framed bridge: whatever the interleaving and the failures, each lane is a
      prefix of what was accepted, in order; a half-close flushes everything.
    - Real time: the queue is bounded, counts every datagram once and never
      hands out what is stale or superseded.
    - QUIC: a poll ends and hands over what was pending, alive and fits; the
      queue of received datagrams is a window that loses the oldest exactly when
      it is full; accepting takes exactly a control and a data stream, gives each
      to its bridge, and waits only for the peer; each lane is received in order.
      From end to end, received datagrams are ones that were sent, and results
      of a flow of their own that were fragmented, lost, repeated and reassembled
      are, byte for byte, ones that were published.
    - Trust and pairing: the store is well formed and reopening its file gives it
      back unless the file has outgrown its limit, trust is withdrawn for good,
      honest sides pair, nobody is recorded without both confirmations, and
      pairing attempts are limited.  Over a credential service that keeps records
      under their identities, a rotation to a new identity never leaves two
      active ones, whichever of its calls fail.
    - Pool, discovery and endpoints: every connection is held by one session or
      aborted, only live candidates are announced, within bounds, what mDNS
      reports comes from the daemon's answers, and a lease is published whole
      or not at all.
    - NTP: only a trusted peer with the role's permissions is authorised; the
      publisher and the subscriber of one connection agree on the session, over
      any connection with the interface [ControlLanes]; the publisher's stream is fresh and in order, the subscriber delivers what is
      fresh and of its session, the clock estimate is within its uncertainty;
      fragments are put together soundly and completely, and flushing the
      latest-only lane terminates in order.

    Where the code does not do what it means to, or a document says otherwise,
    a lemma shows it on a concrete input: the in-memory transport may report the
    end before the last message ([receive_end_races]), a valid deadline makes
    the publisher panic ([deadline_panics]), and a store may outgrow what can be
    opened ([written_store_refused]) or lose its file on Windows
    ([windows_rename_loses]).

    ** Fuel and bounds

    Loops are structural where the source iterates over a collection.  The
    selection loop of the multiplexer has one more than the length of its ready
    list as fuel, each turn but the last taking an entry off the list
    ([next_outbound_correct]).  The flush of the latest-only lane needs one
    more than the number of frames that wait ([flush_terminates]), and
    [chunks] the length of its list, each chunk being non-empty.  A poll of the
    real-time queue of QUIC sends at most 64 datagrams and drops the disposable
    ones once, so 66 turns are enough ([poll_fuel], [quic_poll_sound]).  The
    transport suite drains a session with one turn more than it has frames, and
    receives in a number of polls that stands for its deadline.

    ** Not modelled

    The facade crate, which re-exports the others; the tests; the examples and
    benchmarks, which measure the library or show its use.  Of the modelled
    files: buffer capacities ([storage_snapshot] of the multiplexer and
    [buffer_growths] of the latest-only lane), [Display] texts, derived traits,
    accessors that return a field, and the assembly of quinn's, tokio's and
    rustls' configuration values, beyond the fields that the theorems use.
    Sockets, tasks' scheduling, TLS, QUIC itself, mDNS, JSON and the system
    credential store are the work of other crates and stay parameters. *)

From stdpp Require Export prelude gmap list sorting vector strings.
From Stdlib Require Export Lia.

Local Open Scope N_scope.

(** ** Machine integers

    Unsigned machine integers are values of [N]; [usize] is 64 bits wide.
    Truncated subtraction on [N] is exactly [saturating_sub]; the other
    overflow behaviours are written with the bound of the type. *)

Abbreviation u8_max := 255%N.
Abbreviation u16_max := 65535%N.
Abbreviation u32_max := 4294967295%N.
Abbreviation u64_max := 18446744073709551615%N.
Abbreviation usize_max := 18446744073709551615%N.
Abbreviation u128_max := 340282366920938463463374607431768211455%N.

(** [x.saturating_add(y)] and [x.saturating_mul(y)] at a type whose largest
    value is [top]. *)
Definition sat_add (top x y : N) : N := N.min top (x + y).
Definition sat_mul (top x y : N) : N := N.min top (x * y).

(** [x.checked_add(y)]. *)
Definition checked_add (top x y : N) : option N :=
  if decide (x + y <= top) then Some (x + y) else None.
(** [Instant + Duration] panics past the last instant: on Unix, one of [i64]
    seconds and a fraction. *)
Definition INSTANT_MAX : N := 2 ^ 63 * 1000000000 - 1.
Definition instant_add (instant duration : N) : option N := checked_add INSTANT_MAX instant duration.

(** [x.div_ceil(y)] and [x.abs_diff(y)]. *)
Definition div_ceil (x y : N) : N := (x + y - 1) / y.
Definition abs_diff (x y : N) : N := (x - y) + (y - x).

(** [l.len()] as a [usize]. *)
Abbreviation len l := (N.of_nat (length l)).

(** [m.len()] of a map or a set. *)
Abbreviation card m := (N.of_nat (size m)).

(** ** Fallible code *)

(** [Result<A, E>], with the error type first so that it is a monad. *)
Inductive result (E A : Type) : Type :=
| Ok (a : A)
| Err (e : E).
Arguments Ok {E A} _.
Arguments Err {E A} _.

#[export] Instance result_ret {E} : MRet (result E) := @Ok E.
#[export] Instance result_bind {E} : MBind (result E) := fun A B f m =>
  match m with Ok a => f a | Err e => Err e end.
#[export] Instance result_fmap {E} : FMap (result E) := fun A B f m =>
  match m with Ok a => Ok (f a) | Err e => Err e end.

#[export] Instance result_eq_dec {E A} `{EqDecision E} `{EqDecision A} :
  EqDecision (result E A).
Proof. solve_decision. Defined.

(** [o.ok_or(e)]. *)
Definition ok_or {E A} (e : E) (o : option A) : result E A :=
  match o with Some a => Ok a | None => Err e end.

(** [r.map_err(f)]. *)
Definition map_err {E E' A} (f : E -> E') (r : result E A) : result E' A :=
  match r with Ok a => Ok a | Err e => Err (f e) end.

(** [if c { return Err(e) }]. *)
Definition reject_if {E} (c : bool) (e : E) : result E () :=
  if c then Err e else Ok ().
Notation "'reject' c 'with' e ; k" :=
  (mbind (fun _ : () => k) (reject_if c e))
  (at level 100, c at level 200, e at level 200, k at level 200,
   format "'reject'  c  'with'  e ;  '/' k").

Definition is_ok {E A} (r : result E A) : Prop := exists a, r = Ok a.

Section result_lemmas.
Context {E A B : Type}.
Implicit Types (m : result E A) (f : A -> result E B).

Lemma result_bind_ok f m b :
  m ≫= f = Ok b <-> exists a, m = Ok a /\ f a = Ok b.
Proof. destruct m; cbn; naive_solver. Qed.

Lemma reject_if_ok (c : bool) (e : E) : reject_if c e = Ok () <-> c = false.
Proof. by destruct c. Qed.

Lemma reject_pass (c : bool) (e : E) m : c = false -> (reject c with e; m) = m.
Proof. by intros ->. Qed.

Lemma reject_hit (c : bool) (e : E) m : c = true -> (reject c with e; m) = Err e.
Proof. by intros ->. Qed.

Lemma ok_or_ok (e : E) (o : option A) a : ok_or e o = Ok a <-> o = Some a.
Proof. destruct o; naive_solver. Qed.

Lemma map_err_ok {E'} (g : E -> E') m a : map_err g m = Ok a <-> m = Ok a.
Proof. destruct m; naive_solver. Qed.
End result_lemmas.

(** Monadic traversal of a list, in order, stopping at the first error. *)
Fixpoint mapM_result {E A B} (f : A -> result E B) (l : list A) : result E (list B) :=
  match l with
  | [] => Ok []
  | x :: l => y ← f x; ys ← mapM_result f l; Ok (y :: ys)
  end.

(** ** Tactics *)

(** Take apart a successful run of monadic code. *)
Ltac inv_ok :=
  repeat match goal with
  | H : Ok _ = Ok _ |- _ => injection H as H; try subst
  | H : Ok _ = Err _ |- _ => discriminate H
  | H : Err _ = Ok _ |- _ => discriminate H
  | H : Err _ = Err _ |- _ => injection H as H; try subst
  | H : mbind _ _ = Ok _ |- _ =>
      let a := fresh "a" in let H1 := fresh H in
      apply result_bind_ok in H as (a & H1 & H)
  | H : reject_if _ _ = Ok _ |- _ =>
      let a := fresh "u" in
      match type of H with _ = Ok ?u => destruct u end; apply reject_if_ok in H
  | H : ok_or _ _ = Ok _ |- _ => apply ok_or_ok in H
  | H : map_err _ _ = Ok _ |- _ => apply map_err_ok in H
  | H : match ?p with pair _ _ => _ end = Ok _ |- _ =>
      let x := fresh "x" in let y := fresh "y" in destruct p as [x y]
  | u : () |- _ => destruct u
  end.

(** Split every conditional and match the hypotheses or the goal branch on. *)
Ltac break_if :=
  match goal with
  | |- context [if decide ?P then _ else _] => destruct (decide P)
  | H : context [if decide ?P then _ else _] |- _ => destruct (decide P)
  | |- context [if ?b then _ else _] => let E := fresh "Hb" in destruct b eqn:E
  | H : context [if ?b then _ else _] |- _ => let E := fresh "Hb" in destruct b eqn:E
  end.
Ltac break_match :=
  match goal with
  | |- context [match ?x with _ => _ end] => let E := fresh "Hm" in destruct x eqn:E
  | H : context [match ?x with _ => _ end] |- _ => let E := fresh "Hm" in destruct x eqn:E
  end.

(** Boolean guards as propositions. *)
Ltac guards :=
  repeat match goal with
  | H : bool_decide _ = true |- _ => apply bool_decide_eq_true in H
  | H : bool_decide _ = false |- _ => apply bool_decide_eq_false in H
  | H : _ && _ = true |- _ => apply andb_true_iff in H as [? H]
  | H : _ || _ = false |- _ => apply orb_false_iff in H as [? H]
  | H : negb _ = true |- _ => apply negb_true_iff in H
  | H : negb _ = false |- _ => apply negb_false_iff in H
  | H : (_ =? _) = true |- _ => apply N.eqb_eq in H
  | H : (_ =? _) = false |- _ => apply N.eqb_neq in H
  | H : (_ <=? _) = true |- _ => apply N.leb_le in H
  | H : (_ <=? _) = false |- _ => apply N.leb_gt in H
  | H : (_ <? _) = true |- _ => apply N.ltb_lt in H
  | H : (_ <? _) = false |- _ => apply N.ltb_ge in H
  end.

(** Decide the arithmetic tests of the goal; the impossible branches go. *)
Ltac tests :=
  repeat match goal with
  | |- context [?a <? ?b] => destruct (N.ltb_spec a b); try lia
  | |- context [?a <=? ?b] => destruct (N.leb_spec a b); try lia
  | |- context [?a =? ?b] => destruct (N.eqb_spec a b); try lia
  end; cbn [andb orb negb].

(** Arithmetic over lengths, saturation and differences. *)
Create HintDb link discriminated.
Ltac nsimpl :=
  unfold sat_add, sat_mul, abs_diff, instant_add, checked_add in *;
  repeat first
    [ rewrite length_app in * | rewrite length_cons in * | rewrite length_nil in *
    | rewrite length_fmap in * | rewrite length_take in * | rewrite length_drop in *
    | rewrite length_replicate in * ].
Ltac nlia := nsimpl; lia.

(** A pair by its second component, which is what an example evaluates. *)
Lemma pair_snd_eq {A B} (p : A * B) b : p.2 = b -> p = (p.1, b).
Proof. destruct p. by intros <-. Qed.

(** ** Lists *)

Section lists.
Context {A : Type}.
Implicit Types l : list A.

(** [deque.pop_front()]. *)
Definition pop_front l : option (A * list A) :=
  match l with [] => None | x :: l => Some (x, l) end.

(** [l.get(first..last)]. *)
Definition slice_get (first last : N) l : option (list A) :=
  if decide (first <= last /\ last <= len l)
  then Some (take (N.to_nat (last - first)) (drop (N.to_nat first) l))
  else None.

Lemma slice_get_length first last l s :
  slice_get first last l = Some s -> length s = N.to_nat (last - first).
Proof. unfold slice_get. case_decide; [|done]. intros [= <-]. nlia. Qed.

Lemma slice_get_app l1 l2 l3 first last :
  first = len l1 -> last = len l1 + len l2 ->
  slice_get first last (l1 ++ l2 ++ l3) = Some l2.
Proof.
  intros -> ->. unfold slice_get. rewrite decide_True by nlia.
  rewrite Nat2N.id, drop_app_length.
  replace (N.to_nat _) with (length l2) by lia. by rewrite take_app_length.
Qed.

(** [iter().position(p)] and [deque.remove(index)]. *)
Fixpoint position (p : A -> bool) l : option nat :=
  match l with
  | [] => None
  | x :: l => if p x then Some 0%nat else S <$> position p l
  end.

Definition remove_at (i : nat) l : list A := take i l ++ drop (S i) l.

Lemma remove_at_perm i l x :
  l !! i = Some x -> l ≡ₚ x :: remove_at i l.
Proof.
  intros H. rewrite <- (take_drop_middle l i x) at 1 by done.
  unfold remove_at. by rewrite Permutation_middle.
Qed.

Lemma sum_list_with_perm (f : A -> nat) l1 l2 :
  l1 ≡ₚ l2 -> sum_list_with f l1 = sum_list_with f l2.
Proof. induction 1; simpl; lia. Qed.
End lists.

(** ** Sums over a map *)

Section map_total.
Context {K V : Type} `{Countable K} (f : V -> nat).
Implicit Types m : gmap K V.

Definition map_total m : nat := map_fold (fun _ x n => (f x + n)%nat) 0%nat m.

Lemma map_total_empty : map_total ∅ = 0%nat.
Proof. apply map_fold_empty. Qed.

Lemma map_total_insert_None m i x :
  m !! i = None -> map_total (<[i := x]> m) = (f x + map_total m)%nat.
Proof. intros Hi. unfold map_total. rewrite map_fold_insert_L; [done|lia|done]. Qed.

Lemma map_total_delete m i x :
  m !! i = Some x -> map_total m = (f x + map_total (delete i m))%nat.
Proof. intros Hi. unfold map_total. rewrite (map_fold_delete_L _ _ i x m); [done|lia|done]. Qed.

Lemma map_total_insert_Some m i x y :
  m !! i = Some y -> (map_total (<[i := x]> m) + f y = f x + map_total m)%nat.
Proof.
  intros Hi. rewrite (map_total_delete m i y) by done.
  rewrite <- insert_delete_eq, map_total_insert_None by apply lookup_delete_eq. lia.
Qed.

Lemma map_total_zero m : (forall i x, m !! i = Some x -> f x = 0%nat) -> map_total m = 0%nat.
Proof.
  induction m as [|i x m Hi IH] using map_ind; intros Hz; [apply map_total_empty|].
  rewrite map_total_insert_None by done. rewrite (Hz i x) by apply lookup_insert_eq.
  apply IH. intros j y Hj. apply (Hz j). rewrite lookup_insert_ne; [done|]. intros ->. congruence.
Qed.

Lemma map_total_ge m i x : m !! i = Some x -> (f x <= map_total m)%nat.
Proof. intros Hi. rewrite (map_total_delete m i x) by done. lia. Qed.
End map_total.

(** ** Ordered iteration

    The code iterates [BTreeMap]s and [BTreeSet]s in key order.  Maps are
    [gmap]s here; [btree_iter] lists a map in the order of its keys. *)

Class KeyOrder (K : Type) := {
  key_le : relation K;
  key_le_dec :: RelDecision key_le;
  key_le_total :: Total key_le;
  key_le_trans :: Transitive key_le;
  key_le_antisym :: AntiSymm (=) key_le;
}.

Definition entry_le {K V} `{KeyOrder K} : relation (K * V) :=
  fun e1 e2 => key_le e1.1 e2.1.

#[export] Instance entry_le_dec {K V} `{KeyOrder K} : RelDecision (@entry_le K V _).
Proof. intros e1 e2. unfold entry_le. apply _. Defined.
#[export] Instance entry_le_total {K V} `{KeyOrder K} : Total (@entry_le K V _).
Proof. intros e1 e2. apply key_le_total. Qed.
#[export] Instance entry_le_trans {K V} `{KeyOrder K} : Transitive (@entry_le K V _).
Proof. intros e1 e2 e3. apply key_le_trans. Qed.

Definition btree_iter {K V} `{Countable K} `{KeyOrder K} (m : gmap K V) : list (K * V) :=
  merge_sort entry_le (map_to_list m).

Section btree.
Context {K V : Type} `{Countable K} `{KeyOrder K}.
Implicit Types m : gmap K V.

Lemma btree_iter_perm m : btree_iter m ≡ₚ map_to_list m.
Proof. apply merge_sort_Permutation. Qed.

Lemma btree_iter_sorted m : StronglySorted entry_le (btree_iter m).
Proof. apply (StronglySorted_merge_sort _). Qed.

Lemma elem_of_btree_iter m k v : (k, v) ∈ btree_iter m <-> m !! k = Some v.
Proof. rewrite btree_iter_perm. apply elem_of_map_to_list. Qed.

Lemma btree_iter_nodup_keys m : NoDup ((btree_iter m).*1).
Proof. rewrite btree_iter_perm. apply NoDup_fst_map_to_list. Qed.

Lemma btree_iter_length m : length (btree_iter m) = size m.
Proof. rewrite btree_iter_perm. apply length_map_to_list. Qed.
End btree.

(** Numeric keys are ordered numerically. *)
#[export] Instance N_key_order : KeyOrder N.
Proof. refine {| key_le := N.le |}; apply _. Defined.
