(* ===== verification/Bytes.v ===== *)
(** * Bytes, big-endian integers, fixed-size arrays and UTF-8

    [u8] values are [Byte.byte], so a decoder's input is bounded by its type;
    [[u8; n]] is [vec byte n]; [String] and [&str] are their UTF-8 bytes. *)

From Stdlib Require Import Strings.Byte.
From S2P Require Export Prelude.
Local Open Scope N_scope.

Abbreviation byte := Byte.byte.

#[export] Instance byte_eq_dec : EqDecision byte := Byte.byte_eq_dec.
#[export] Instance byte_countable : Countable byte.
Proof. apply (inj_countable Byte.to_N Byte.of_N). apply Byte.of_to_N. Defined.
#[export] Instance byte_inhabited : Inhabited byte := populate Byte.x00.

(** Arrays as map keys, with a decoder that computes. *)
Fixpoint to_vec {A} (n : nat) (l : list A) : option (vec A n) :=
  match n, l with
  | O, [] => Some vnil
  | S n, x :: l => vcons x <$> to_vec n l
  | _, _ => None
  end.
Lemma to_vec_to_list {A n} (v : vec A n) : to_vec n (vec_to_list v) = Some v.
Proof. induction v as [|x n v IH]; cbn; [done|]. by rewrite IH. Qed.
#[export] Instance array_countable n : Countable (vec byte n) | 0.
Proof. apply (inj_countable vec_to_list (to_vec n)). apply to_vec_to_list. Defined.

(** [b as u64] and [n as u8]. *)
Definition n_of_byte (b : byte) : N := Byte.to_N b.
Definition byte_of_n (n : N) : byte :=
  match Byte.of_N (n mod 256) with Some b => b | None => Byte.x00 end.

Lemma n_of_byte_bound b : n_of_byte b < 256.
Proof. unfold n_of_byte. pose proof (Byte.to_N_bounded b). lia. Qed.

Lemma n_of_byte_of_n n : n_of_byte (byte_of_n n) = n mod 256.
Proof.
  unfold n_of_byte, byte_of_n.
  destruct (Byte.of_N (n mod 256)) as [b|] eqn:E.
  - by apply Byte.to_of_N in E.
  - apply Byte.of_N_None_iff in E.
    pose proof (N.mod_upper_bound n 256). lia.
Qed.

Lemma byte_of_n_of_byte b : byte_of_n (n_of_byte b) = b.
Proof.
  unfold byte_of_n. rewrite N.mod_small by apply n_of_byte_bound.
  unfold n_of_byte. by rewrite Byte.of_to_N.
Qed.

#[export] Instance n_of_byte_inj : Inj (=) (=) n_of_byte.
Proof.
  intros b1 b2 E. by rewrite <- (byte_of_n_of_byte b1), E, byte_of_n_of_byte.
Qed.

(** ** Big-endian integers *)

(** [x.to_be_bytes()] at a type of [w] bytes. *)
Fixpoint be_bytes (w : nat) (x : N) : list byte :=
  match w with
  | O => []
  | S w => byte_of_n (x / 256 ^ N.of_nat w) :: be_bytes w x
  end.

(** [from_be_bytes(l)]. *)
Definition from_be_bytes (l : list byte) : N :=
  fold_left (fun acc b => acc * 256 + n_of_byte b) l 0.

Lemma be_bytes_length w x : length (be_bytes w x) = w.
Proof. induction w as [|w IH]; simpl; congruence. Qed.

Lemma from_be_bytes_acc l acc :
  fold_left (fun acc b => acc * 256 + n_of_byte b) l acc
  = acc * 256 ^ len l + from_be_bytes l.
Proof.
  unfold from_be_bytes. revert acc. induction l as [|b l IH]; intros acc; simpl.
  - rewrite N.mul_1_r. lia.
  - rewrite IH, (IH (0 * 256 + n_of_byte b)).
    rewrite Nat2N.inj_succ, N.pow_succ_r'. lia.
Qed.

Lemma from_be_bytes_cons b l :
  from_be_bytes (b :: l) = n_of_byte b * 256 ^ len l + from_be_bytes l.
Proof. unfold from_be_bytes at 1. simpl. by rewrite from_be_bytes_acc. Qed.

Lemma pow256_pos n : 0 < 256 ^ n.
Proof. apply N.neq_0_lt_0, N.pow_nonzero. lia. Qed.

Lemma from_be_bytes_bound l : from_be_bytes l < 256 ^ len l.
Proof.
  induction l as [|b l IH]; [done|].
  rewrite from_be_bytes_cons. cbn [length].
  rewrite Nat2N.inj_succ, N.pow_succ_r'.
  pose proof (n_of_byte_bound b). nia.
Qed.

Lemma from_be_bytes_be w x : from_be_bytes (be_bytes w x) = x mod 256 ^ N.of_nat w.
Proof.
  induction w as [|w IH]; [by rewrite N.mod_1_r|].
  cbn [be_bytes]. rewrite from_be_bytes_cons, be_bytes_length, IH, n_of_byte_of_n.
  rewrite Nat2N.inj_succ, N.pow_succ_r'.
  pose proof (pow256_pos (N.of_nat w)).
  rewrite (N.mul_comm 256), N.Div0.mod_mul_r. lia.
Qed.

Lemma from_be_bytes_small w x : x < 256 ^ N.of_nat w -> from_be_bytes (be_bytes w x) = x.
Proof. intros. rewrite from_be_bytes_be. by apply N.mod_small. Qed.

Lemma be_bytes_ge w x k : be_bytes w (k * 256 ^ N.of_nat w + x) = be_bytes w x.
Proof.
  revert k x. induction w as [|w IH]; intros k x; [done|].
  cbn [be_bytes]. f_equal.
  - apply (inj n_of_byte). rewrite !n_of_byte_of_n.
    rewrite Nat2N.inj_succ, N.pow_succ_r'.
    replace (k * (256 * 256 ^ N.of_nat w) + x)
      with (x + (k * 256) * 256 ^ N.of_nat w) by lia.
    pose proof (pow256_pos (N.of_nat w)).
    rewrite N.div_add by lia. by rewrite N.Div0.mod_add.
  - rewrite Nat2N.inj_succ, N.pow_succ_r'.
    rewrite N.mul_assoc. apply IH.
Qed.

Lemma be_bytes_from l w : length l = w -> be_bytes w (from_be_bytes l) = l.
Proof.
  intros <-. induction l as [|b l IH]; [done|].
  rewrite from_be_bytes_cons. cbn [length be_bytes]. f_equal.
  - pose proof (pow256_pos (len l)). pose proof (from_be_bytes_bound l).
    rewrite N.div_add_l by lia. rewrite N.div_small by done.
    rewrite N.add_0_r. apply byte_of_n_of_byte.
  - by rewrite be_bytes_ge.
Qed.

(** ** Fixed-size arrays *)

(** [slice.try_into::<[T; n]>()]. *)
Fixpoint to_array {A} (n : nat) (l : list A) : option (vec A n) :=
  match n, l with
  | O, [] => Some [#]
  | S n, x :: l => vcons x <$> to_array n l
  | _, _ => None
  end.

Lemma to_array_Some {A} n (l : list A) v : to_array n l = Some v <-> vec_to_list v = l.
Proof.
  revert l. induction v as [|x n v IH]; intros [|y l]; simpl; try naive_solver.
  rewrite fmap_Some. split.
  - intros (v' & H & E). apply Vector.cons_inj in E as [-> ->]. f_equal. by apply IH.
  - intros [= -> E]. exists v. split; [by apply IH|done].
Qed.

Lemma to_array_vec {A n} (v : vec A n) : to_array n (vec_to_list v) = Some v.
Proof. by apply to_array_Some. Qed.

Lemma to_array_length {A} n (l : list A) : length l = n -> is_Some (to_array n l).
Proof.
  intros <-. exists (list_to_vec l). apply to_array_Some. apply vec_to_list_to_vec.
Qed.

Lemma to_array_is_length {A} n (l : list A) v : to_array n l = Some v -> length l = n.
Proof. intros H%to_array_Some. rewrite <- H. apply length_vec_to_list. Qed.

(** ** Text *)

(** The bytes of a string literal and of a character literal. *)
Definition str (s : string) : list byte := String.list_byte_of_string s.
Definition chr (s : string) : byte := List.hd Byte.x00 (str s).

Definition in_range (lo hi : N) (b : byte) : bool :=
  (lo <=? n_of_byte b) && (n_of_byte b <=? hi).

Definition is_ascii_lowercase := in_range 97 122.
Definition is_ascii_digit := in_range 48 57.

(** [std::str::from_utf8(l).is_ok()]: well-formed byte sequences of the
    Unicode standard, table 3-7. *)
Fixpoint utf8_valid (l : list byte) : bool :=
  let tail := in_range 128 191 in
  match l with
  | [] => true
  | b0 :: l0 =>
    if in_range 0 127 b0 then utf8_valid l0 else
    match l0 with
    | [] => false
    | b1 :: l1 =>
      if in_range 194 223 b0 then tail b1 && utf8_valid l1 else
      match l1 with
      | [] => false
      | b2 :: l2 =>
        if in_range 224 224 b0 then in_range 160 191 b1 && tail b2 && utf8_valid l2 else
        if in_range 237 237 b0 then in_range 128 159 b1 && tail b2 && utf8_valid l2 else
        if in_range 225 239 b0 then tail b1 && tail b2 && utf8_valid l2 else
        match l2 with
        | [] => false
        | b3 :: l3 =>
          if in_range 240 240 b0
          then in_range 144 191 b1 && tail b2 && tail b3 && utf8_valid l3 else
          if in_range 244 244 b0
          then in_range 128 143 b1 && tail b2 && tail b3 && utf8_valid l3 else
          if in_range 241 243 b0
          then tail b1 && tail b2 && tail b3 && utf8_valid l3 else false
        end
      end
    end
  end.

Lemma utf8_valid_ascii l : forallb (in_range 0 127) l = true -> utf8_valid l = true.
Proof.
  induction l as [|b l IH]; [done|]. cbn [forallb utf8_valid].
  intros [-> H]%andb_true_iff. auto.
Qed.

(** [s.split(c)] for an ASCII character [c]. *)
Fixpoint split_on (c : byte) (l : list byte) : list (list byte) :=
  match l with
  | [] => [[]]
  | b :: l =>
    if decide (b = c) then [] :: split_on c l
    else match split_on c l with
         | [] => [[b]]
         | part :: parts => (b :: part) :: parts
         end
  end.

Lemma split_on_forall (p : byte -> bool) c l :
  p c = true -> forallb (forallb p) (split_on c l) = true -> forallb p l = true.
Proof.
  intros Hc. induction l as [|b l IH]; [done|]. cbn [split_on forallb].
  case_decide as E; [subst; by rewrite Hc|].
  destruct (split_on c l) as [|part parts]; cbn in *.
  - rewrite !andb_true_r. intros ->. auto.
  - intros [[-> ?]%andb_true_iff ?]%andb_true_iff. apply IH. by apply andb_true_iff.
Qed.

(** Byte strings are ordered lexicographically, as [BTreeMap] keys are. *)
Fixpoint bytes_le (l1 l2 : list byte) : Prop :=
  match l1, l2 with
  | [], _ => True
  | _ :: _, [] => False
  | b1 :: l1, b2 :: l2 =>
    n_of_byte b1 < n_of_byte b2 \/ (b1 = b2 /\ bytes_le l1 l2)
  end.

#[export] Instance bytes_le_dec : RelDecision bytes_le.
Proof.
  intros l1. induction l1 as [|b1 l1 IH]; intros [|b2 l2].
  - by left.
  - by left.
  - right. intros [].
  - pose proof (IH l2 : Decision (bytes_le l1 l2)). simpl. apply _.
Defined.
#[export] Instance bytes_le_total : Total bytes_le.
Proof.
  intros l1. induction l1 as [|b1 l1 IH]; intros [|b2 l2]; simpl; auto.
  destruct (N.lt_trichotomy (n_of_byte b1) (n_of_byte b2)) as [H|[H|H]]; auto.
  apply (inj n_of_byte) in H as ->. destruct (IH l2); auto.
Qed.
#[export] Instance bytes_le_trans : Transitive bytes_le.
Proof.
  intros l1. induction l1 as [|b1 l1 IH]; intros [|b2 l2] [|b3 l3]; simpl; try done.
  intros [?|[-> ?]] [?|[-> ?]]; eauto; left; lia.
Qed.
#[export] Instance bytes_le_antisym : AntiSymm (=) bytes_le.
Proof.
  intros l1. induction l1 as [|b1 l1 IH]; intros [|b2 l2]; simpl; try done.
  intros [?|[-> ?]] [?|[? ?]]; subst; try lia. f_equal. auto.
Qed.

(** A key order pulled back along an injection into byte strings. *)
Definition bytes_key_order {K} (f : K -> list byte) {Hf : Inj (=) (=) f} : KeyOrder K.
Proof.
  refine {| key_le := fun k1 k2 => bytes_le (f k1) (f k2) |}.
  - intros k1 k2. apply _.
  - intros k1 k2. apply bytes_le_total.
  - intros k1 k2 k3. apply bytes_le_trans.
  - intros k1 k2 H1 H2. apply Hf. by apply bytes_le_antisym.
Defined.
