(* ===== verification/Identity.v ===== *)
(** * Identities, versions and the core error types

    Models [identity.rs], [error.rs] and the version window of [lib.rs] of
    [mutsuki-link-core]. *)

From S2P Require Export Bytes.
Local Open Scope N_scope.

(** ** Opaque identifiers

    The macro [opaque_id!] declares four distinct byte-array types; the kind
    index keeps them distinct here. *)

Inductive id_kind := PeerKind | EndpointKind | ConnectionKind | SessionKind.

Definition id_size (k : id_kind) : nat :=
  match k with PeerKind => 32 | EndpointKind | ConnectionKind | SessionKind => 16 end.

Record opaque_id (k : id_kind) := from_bytes { as_bytes : vec byte (id_size k) }.
Arguments from_bytes {k} _.
Arguments as_bytes {k} _.

Abbreviation PeerId := (opaque_id PeerKind).
Abbreviation EndpointId := (opaque_id EndpointKind).
Abbreviation ConnectionId := (opaque_id ConnectionKind).
Abbreviation SessionId := (opaque_id SessionKind).

#[export] Instance opaque_id_eq_dec k : EqDecision (opaque_id k).
Proof. solve_decision. Defined.
#[export] Instance opaque_id_countable k : Countable (opaque_id k).
Proof. apply (inj_countable' as_bytes from_bytes). by intros []. Defined.
#[export] Instance as_bytes_inj k : Inj (=) (=) (fun i : opaque_id k => vec_to_list (as_bytes i)).
Proof. intros [v1] [v2] E. simpl in E. by apply vec_to_list_inj2 in E as ->. Qed.
#[export] Instance opaque_id_order k : KeyOrder (opaque_id k) :=
  bytes_key_order (fun i => vec_to_list (as_bytes i)).

(** An identifier whose bytes are all [n], as the examples of the code use. *)
Definition id_of (k : id_kind) (n : N) : opaque_id k :=
  from_bytes (vreplicate (id_size k) (byte_of_n n)).

(** ** Versions *)

Record ProtocolVersion := mkVersion { major : N; minor : N }.

#[export] Instance ProtocolVersion_eq_dec : EqDecision ProtocolVersion.
Proof. solve_decision. Defined.
#[export] Instance ProtocolVersion_countable : Countable ProtocolVersion.
Proof.
  apply (inj_countable' (fun v => (major v, minor v)) (fun p => mkVersion p.1 p.2)).
  by intros [].
Defined.

Definition version_wf (v : ProtocolVersion) : Prop :=
  major v <= u16_max /\ minor v <= u16_max.

Record VersionRange := mkRange { minimum : ProtocolVersion; maximum : ProtocolVersion }.

#[export] Instance VersionRange_eq_dec : EqDecision VersionRange.
Proof. solve_decision. Defined.

Definition range_wf (r : VersionRange) : Prop :=
  version_wf (minimum r) /\ version_wf (maximum r).

(** [VersionRange::is_valid]. *)
Definition range_is_valid (r : VersionRange) : bool :=
  (major (minimum r) =? major (maximum r)) && (minor (minimum r) <=? minor (maximum r)).

(** [VersionRange::negotiate]. *)
Definition range_negotiate (self other : VersionRange) : option ProtocolVersion :=
  if negb (range_is_valid self) || negb (range_is_valid other)
     || negb (major (minimum self) =? major (minimum other))
  then None
  else
    let lo := N.max (minor (minimum self)) (minor (minimum other)) in
    let hi := N.min (minor (maximum self)) (minor (maximum other)) in
    if lo <=? hi then Some (mkVersion (major (minimum self)) hi) else None.

(** [VersionRange::new(v, v)]: the range of one version. *)
Definition range_single (v : ProtocolVersion) : VersionRange := mkRange v v.

Record Identity := mkIdentity {
  peer_id : PeerId;
  endpoint_id : EndpointId;
  connection_id : ConnectionId;
}.

#[export] Instance Identity_eq_dec : EqDecision Identity.
Proof. solve_decision. Defined.

Definition LINK_PROTOCOL_VERSION : N := 1.
Definition MIN_COMPATIBLE_LINK_PROTOCOL_VERSION : N := 1.

(** [lib.rs], [protocol_version_is_compatible]. *)
Definition protocol_version_is_compatible (version : N) : bool :=
  (MIN_COMPATIBLE_LINK_PROTOCOL_VERSION <=? version) && (version <=? LINK_PROTOCOL_VERSION).

(** ** Errors *)

Inductive LimitKind :=
| FrameBytes | StreamBytes | NestingDepth | Channels | PendingFrames
| ProtocolOffers | IdentityProofBytes | EventSubscribers.

#[export] Instance LimitKind_eq_dec : EqDecision LimitKind.
Proof. solve_decision. Defined.

Inductive LinkError :=
| InvalidInput (message : string)
| InvalidState (message : string)
| LimitExceeded (kind : LimitKind) (limit : N)
| Backpressure (channel : N) (capacity : N)
| UnknownChannel (channel : N)
| ClosedChannel (channel : N)
| SessionMismatch
| ChannelGenerationMismatch (channel : N)
| ChannelCancelled (channel : N)
| NamespaceConflict
| Closed.

#[export] Instance LinkError_eq_dec : EqDecision LinkError.
Proof. solve_decision. Defined.

Module HandshakeErrorKind.
Inductive t :=
| UnexpectedMessage | IncompatibleVersion | NoSharedProtocol | ProtocolConflict
| PairingDisabled | PeerNotTrusted | IdentityRejected | LimitExceeded
| InvalidConfirmation.

#[global] Instance t_eq_dec : EqDecision t.
Proof. solve_decision. Defined.
End HandshakeErrorKind.

Record HandshakeError := mkHandshakeError {
  hs_kind : HandshakeErrorKind.t;
  hs_message : string;
}.

(** ** Facts about ranges *)

(** The versions a range admits. *)
Definition range_admits (r : VersionRange) (v : ProtocolVersion) : Prop :=
  range_is_valid r = true /\ major v = major (minimum r)
  /\ minor (minimum r) <= minor v <= minor (maximum r).

Lemma range_negotiate_Some r1 r2 v :
  range_negotiate r1 r2 = Some v <->
  range_admits r1 v /\ range_admits r2 v
  /\ (forall v', range_admits r1 v' -> range_admits r2 v' -> minor v' <= minor v).
Proof.
  unfold range_negotiate, range_admits. split.
  - destruct (range_is_valid r1) eqn:V1, (range_is_valid r2) eqn:V2; try done. simpl.
    destruct (N.eqb_spec (major (minimum r1)) (major (minimum r2))); [|done]. simpl.
    case_match; [|done]. intros [= <-]. guards. simpl.
    repeat split; try lia.
  - intros ((V1 & M1 & L1) & (V2 & M2 & L2) & Hmax). rewrite V1, V2. simpl.
    destruct (N.eqb_spec (major (minimum r1)) (major (minimum r2))); [|lia]. simpl.
    set (hi := N.min _ _). set (lo := N.max _ _).
    destruct (N.leb_spec lo hi); [|lia]. do 2 f_equal.
    destruct v as [ma mi]. simpl in *. f_equal; [lia|].
    specialize (Hmax (mkVersion ma hi)). simpl in Hmax.
    enough (hi <= mi) by lia. apply Hmax; repeat split; try done; lia.
Qed.

Lemma range_negotiate_single r v :
  is_Some (range_negotiate r (range_single v)) <-> range_admits r v.
Proof.
  split.
  - intros [w H]. apply range_negotiate_Some in H as (H1 & H2 & _).
    destruct v, w, H2 as (_ & ? & ?). simpl in *.
    replace major0 with major1 by lia. replace minor0 with minor1 by lia. done.
  - intros H. exists v. apply range_negotiate_Some. split; [done|].
    unfold range_admits, range_single, range_is_valid. simpl.
    rewrite N.eqb_refl, N.leb_refl. simpl. split; [repeat split; lia|].
    intros v' _ (_ & _ & ?). lia.
Qed.

Lemma range_negotiate_comm r1 r2 : range_negotiate r1 r2 = range_negotiate r2 r1.
Proof.
  apply option_eq. intros v. rewrite !range_negotiate_Some. naive_solver.
Qed.
