(* ===== verification/Codec.v ===== *)
(** * Readers, writers and the codec interface

    A reader consumes a prefix of its input and returns the unread suffix; a
    writer produces the bytes it appends.  [Codec] is what a writer and a
    reader promise each other: reading back what was written, and writing
    back what was read. *)

From S2P Require Export Bytes.
Local Open Scope N_scope.

Definition reader (E A : Type) : Type := list byte -> result E (A * list byte).

#[export] Instance reader_ret {E} : MRet (reader E) := fun A a l => Ok (a, l).
#[export] Instance reader_bind {E} : MBind (reader E) := fun A B f r l =>
  match r l with Ok (a, l') => f a l' | Err e => Err e end.

Definition reader_fail {E A} (e : E) : reader E A := fun _ => Err e.
(** [if c { return Err(e) }] inside a reader. *)
Definition reader_reject {E A} (c : bool) (e : E) (k : reader E A) : reader E A :=
  if c then reader_fail e else k.
Definition reader_lift {E A} (m : result E A) : reader E A :=
  fun l => a ← m; Ok (a, l).

(** What a writer appends. *)
Abbreviation writer E := (result E (list byte)).

Definition write_then {E} (w1 w2 : writer E) : writer E :=
  b1 ← w1; b2 ← w2; Ok (b1 ++ b2).
Infix ">+>" := write_then (at level 60, right associativity).

Class Codec {E A} (enc : A -> writer E) (dec : reader E A) (wf : A -> Prop) := {
  dec_enc v bs rest : enc v = Ok bs -> wf v -> dec (bs ++ rest) = Ok (v, rest);
  enc_dec l v rest :
    dec l = Ok (v, rest) -> exists bs, enc v = Ok bs /\ l = bs ++ rest /\ wf v;
}.

Section readers.
Context {E A B : Type}.

Lemma reader_bind_ok (f : A -> reader E B) (r : reader E A) l b l2 :
  (r ≫= f) l = Ok (b, l2) <-> exists a l1, r l = Ok (a, l1) /\ f a l1 = Ok (b, l2).
Proof.
  unfold mbind, reader_bind. destruct (r l) as [[a l1]|e]; naive_solver.
Qed.

Lemma reader_bind_eq (f : A -> reader E B) (r : reader E A) l a l1 :
  r l = Ok (a, l1) -> (r ≫= f) l = f a l1.
Proof. unfold mbind, reader_bind. by intros ->. Qed.

Lemma reader_lift_ok (m : result E A) l a l1 :
  reader_lift m l = Ok (a, l1) <-> m = Ok a /\ l1 = l.
Proof. unfold reader_lift. destruct m; cbn; naive_solver. Qed.

Lemma reader_bind_lift (f : A -> reader E B) (m : result E A) l a :
  m = Ok a -> (reader_lift m ≫= f) l = f a l.
Proof. by intros ->. Qed.

Lemma write_then_ok (w1 w2 : writer E) bs :
  w1 >+> w2 = Ok bs <-> exists b1 b2, w1 = Ok b1 /\ w2 = Ok b2 /\ bs = b1 ++ b2.
Proof.
  unfold write_then. destruct w1 as [b1|]; cbn; [|naive_solver].
  destruct w2 as [b2|]; cbn; naive_solver.
Qed.
End readers.

Lemma write_then_Ok {E} (b1 b2 : list byte) : @Ok E _ b1 >+> Ok b2 = Ok (b1 ++ b2).
Proof. done. Qed.

Lemma codec_read {E A} (enc : A -> writer E) dec wf v bs rest :
  enc v = Ok bs -> Codec enc dec wf -> wf v -> dec (bs ++ rest) = Ok (v, rest).
Proof. intros. by eapply dec_enc. Qed.

Lemma codec_written {E A} (enc : A -> writer E) dec wf l v rest :
  dec l = Ok (v, rest) -> Codec enc dec wf ->
  exists bs, enc v = Ok bs /\ l = bs ++ rest /\ wf v.
Proof. intros. by eapply enc_dec. Qed.

(** ** Tactics for codecs *)

(** Take apart a successful read or write. *)
Ltac inv_codec :=
  repeat match goal with
  | H : Ok _ = Ok _ |- _ => injection H as H; try subst
  | H : (_, _) = (_, _) |- _ => injection H as H; try subst
  | H : Err _ = Ok _ |- _ => discriminate H
  | H : reader_fail _ _ = Ok _ |- _ => discriminate H
  | H : mret _ _ = Ok _ |- _ => injection H as H; try subst
  | H : reader_reject ?c _ _ _ = Ok _ |- _ =>
      let Hc := fresh "Hc" in destruct c eqn:Hc; cbn [reader_reject] in H
  | H : mbind (M := reader _) _ _ _ = Ok _ |- _ =>
      let a := fresh "a" in let l := fresh "l" in let H1 := fresh H in
      apply reader_bind_ok in H as (a & l & H1 & H)
  | H : reader_lift _ _ = Ok _ |- _ => apply reader_lift_ok in H as [H ->]
  | H : _ >+> _ = Ok _ |- _ =>
      let b1 := fresh "b" in let b2 := fresh "b" in
      let H1 := fresh H in let H2 := fresh H in
      apply write_then_ok in H as (b1 & b2 & H1 & H2 & ->)
  end.

(** Read back what the hypotheses say was written. *)
Ltac read_back :=
  repeat first
    [ rewrite <- app_assoc
    | progress cbv beta iota
    | erewrite reader_bind_eq;
      [|eapply codec_read; [eassumption|typeclasses eauto|cbv beta; split_and?; first [done|lia]]] ].

(** Turn each successful read into the bytes it consumed. *)
Ltac write_back :=
  repeat match goal with
  | H : ?dec _ = Ok (_, _) |- _ =>
      let bs := fresh "bs" in let E := fresh "Henc" in let W := fresh "Hwf" in
      eapply codec_written in H; [|typeclasses eauto];
      destruct H as (bs & E & -> & W)
  end.

(** Assemble the bytes of a composite from those of its parts. *)
Ltac written :=
  eexists; split;
  [ repeat first [ rewrite write_then_Ok
                 | match goal with H : ?w = Ok _ |- context [?w] => rewrite H end ];
    reflexivity
  | first [ rewrite <- ?app_assoc; reflexivity
          | split; [rewrite <- ?app_assoc; reflexivity|] ] ].

(** ** Primitive codecs *)

Section primitives.
Context {E : Type} (e_trunc : E).

(** [Reader::take]. *)
Definition r_take (n : N) : reader E (list byte) := fun l =>
  if decide (n <= len l) then Ok (take (N.to_nat n) l, drop (N.to_nat n) l)
  else Err e_trunc.

(** [Reader::take_array]. *)
Definition r_array (n : nat) : reader E (vec byte n) :=
  bs ← r_take (N.of_nat n); reader_lift (ok_or e_trunc (to_array n bs)).

(** [Reader::u8], [u16], [u32] and [u64]: big-endian at a width in bytes. *)
Definition r_uint (w : nat) : reader E N :=
  bs ← r_take (N.of_nat w); mret (from_be_bytes bs).

Definition w_uint (w : nat) (x : N) : writer E := Ok (be_bytes w x).
Definition w_array {n : nat} (v : vec byte n) : writer E := Ok (vec_to_list v).

Lemma r_take_app bs rest : r_take (len bs) (bs ++ rest) = Ok (bs, rest).
Proof.
  unfold r_take. rewrite decide_True by nlia.
  by rewrite Nat2N.id, take_app_length, drop_app_length.
Qed.

Lemma r_take_ok n l bs rest :
  r_take n l = Ok (bs, rest) -> l = bs ++ rest /\ len bs = n.
Proof.
  unfold r_take. case_decide; [|done]. intros [= <- <-].
  split; [by rewrite take_drop|]. nlia.
Qed.

Lemma uint_codec w :
  Codec (w_uint w) (r_uint w) (fun x => x < 256 ^ N.of_nat w).
Proof.
  split.
  - intros v bs rest [= <-] Hv. unfold r_uint.
    pose proof (r_take_app (be_bytes w v) rest) as H. rewrite be_bytes_length in H.
    rewrite (reader_bind_eq _ _ _ _ _ H). by rewrite from_be_bytes_small.
  - intros l v rest H. unfold r_uint in H. inv_codec.
    apply r_take_ok in H0 as [-> Hlen]. eexists. split; [reflexivity|].
    assert (length a = w) as Hw by lia. split.
    + by rewrite be_bytes_from.
    + rewrite <- Hw. apply from_be_bytes_bound.
Qed.

(** The same, with the greatest value of the type. *)
Lemma uint_codec_le (w : nat) (top : N) :
  256 ^ N.of_nat w = top + 1 -> Codec (w_uint w) (r_uint w) (fun x => x <= top).
Proof.
  intros Htop. split.
  - intros v bs rest He Hv. refine (@dec_enc _ _ _ _ _ (uint_codec w) _ _ _ He _). lia.
  - intros l v rest H.
    destruct (@enc_dec _ _ _ _ _ (uint_codec w) _ _ _ H) as (bs & ? & ? & ?).
    exists bs. split_and!; [done..|lia].
Qed.

#[export] Instance array_codec n : Codec (@w_array n) (r_array n) (fun _ => True).
Proof.
  split.
  - intros v bs rest [= <-] _. unfold r_array.
    pose proof (r_take_app (vec_to_list v) rest) as H. rewrite length_vec_to_list in H.
    rewrite (reader_bind_eq _ _ _ _ _ H). unfold reader_lift.
    by rewrite to_array_vec.
  - intros l v rest H. unfold r_array in H. inv_codec. inv_ok.
    apply r_take_ok in H0 as [-> Hlen]. eexists. split; [reflexivity|].
    apply to_array_Some in H. by rewrite H.
Qed.
End primitives.

Arguments reader_lift {E A} _ _ : simpl never.
Arguments r_take {E} _ _ _ : simpl never.
Arguments r_array {E} _ _ _ : simpl never.
Arguments r_uint {E} _ _ _ : simpl never.
Arguments w_uint {E} _ _ : simpl never.
Arguments w_array {E n} _ : simpl never.
Arguments write_then {E} _ _ : simpl never.

(** A codec whose values are wrapped by an injective constructor. *)
Lemma codec_wrap {E A B} (enc : A -> writer E) (dec : reader E A) (wf : A -> Prop)
    `{!Codec enc dec wf} (f : A -> B) (g : B -> A) :
  (forall b, f (g b) = b) -> (forall a, g (f a) = a) ->
  Codec (fun b => enc (g b)) (a ← dec; mret (f a)) (fun b => wf (g b)).
Proof.
  intros Hfg Hgf. split.
  - intros v bs rest He Hv. erewrite reader_bind_eq; [|by eapply dec_enc].
    by rewrite Hfg.
  - intros l v rest H. inv_codec. apply enc_dec in H0 as (bs & He & -> & Hw).
    rewrite !Hgf. eauto.
Qed.
