(* ===== verification/Control.v ===== *)
(** * The typed control plane: identities, capabilities, payloads

    Models the data of [control.rs] and the three types of [handshake.rs]
    its payloads carry.  The wire codec is in [ControlCodec], the session
    channel table in [ChannelMap]. *)

From S2P Require Export Identity.
Local Open Scope N_scope.

(** SHA-256 is the [sha2] crate, which the code calls and does not contain:
    it is a parameter of every definition that uses it. *)
Class Sha256 := sha256 : list byte -> vec byte 32.

Definition PROTOCOL_ID_DOMAIN : list byte :=
  str "mutsuki-link.protocol-stable-id.v1" ++ [Byte.x00].
Definition SCHEMA_ID_DOMAIN : list byte :=
  str "mutsuki-link.schema-id.v1" ++ [Byte.x00].
Definition MAX_PROTOCOL_CAPABILITY_WORDS : N := 8.
Definition MAX_CONTROL_PAYLOAD_BYTES : N := 64 * 1024.
Definition MAX_CONTROL_PROTOCOLS : N := 32.
Definition MAX_CONTROL_DEBUG_COMPONENT_BYTES : N := 128.
Definition MAX_SESSION_CHANNEL_MAPPINGS : N := 128.
Definition TYPED_CONTROL_WIRE_VERSION : N := 1.
Definition CONTROL_MAGIC : list byte := str "MLCT".
Definition CONTROL_HEADER_BYTES : N := 39.

(** Integer newtypes. *)
Abbreviation ChannelId := N (only parsing).
Abbreviation ChannelGeneration := N (only parsing).
Abbreviation ProtocolChannelId := N (only parsing).
Abbreviation RequestId := N (only parsing).
Abbreviation ErrorCode := N (only parsing).

Definition CONTROL_CHANNEL_ID : ChannelId := 0.
Definition GENERATION_INITIAL : ChannelGeneration := 1.

(** ** Stable identities and schemas *)

Record ProtocolStableId := mkStableId { stable_id_bytes : vec byte 16 }.
Record SchemaId := mkSchemaId { schema_id_bytes : vec byte 16 }.
Record SchemaFingerprint := mkFingerprint { fingerprint_bytes : vec byte 32 }.

#[export] Instance ProtocolStableId_eq_dec : EqDecision ProtocolStableId.
Proof. solve_decision. Defined.
#[export] Instance ProtocolStableId_countable : Countable ProtocolStableId.
Proof. apply (inj_countable' stable_id_bytes mkStableId). by intros []. Defined.
#[export] Instance stable_id_inj : Inj (=) (=) (fun i => vec_to_list (stable_id_bytes i)).
Proof. intros [v1] [v2] E. simpl in E. by apply vec_to_list_inj2 in E as ->. Qed.
#[export] Instance ProtocolStableId_order : KeyOrder ProtocolStableId :=
  bytes_key_order (fun i => vec_to_list (stable_id_bytes i)).
#[export] Instance SchemaId_eq_dec : EqDecision SchemaId.
Proof. solve_decision. Defined.
#[export] Instance SchemaFingerprint_eq_dec : EqDecision SchemaFingerprint.
Proof. solve_decision. Defined.

(** [derive_128]: the first sixteen bytes of the digest of
    [domain || authority || 0 || name]. *)
Definition derive_128 `{Sha256} (domain authority name : list byte) : vec byte 16 :=
  (Vector.splitat 16 (sha256 (domain ++ authority ++ [Byte.x00] ++ name)
                      : vec byte (16 + 16))).1.

Definition stable_id_derive `{Sha256} (authority name : list byte) : ProtocolStableId :=
  mkStableId (derive_128 PROTOCOL_ID_DOMAIN authority name).
Definition schema_id_derive `{Sha256} (authority name : list byte) : SchemaId :=
  mkSchemaId (derive_128 SCHEMA_ID_DOMAIN authority name).
Definition fingerprint_digest `{Sha256} (contract : list byte) : SchemaFingerprint :=
  mkFingerprint (sha256 contract).

Record SchemaRef := mkSchemaRef {
  schema_id : SchemaId;
  schema_revision : N;
  schema_fingerprint : SchemaFingerprint;
}.
#[export] Instance SchemaRef_eq_dec : EqDecision SchemaRef.
Proof. solve_decision. Defined.

(** [SchemaRef::for_contract]. *)
Definition schema_for_contract `{Sha256} (authority name : list byte) (revision : N)
    (contract : list byte) : SchemaRef :=
  mkSchemaRef (schema_id_derive authority name) revision (fingerprint_digest contract).

Record ProtocolDebugIdentity := mkDebugIdentity {
  authority : list byte;
  name : list byte;
}.
#[export] Instance ProtocolDebugIdentity_eq_dec : EqDecision ProtocolDebugIdentity.
Proof. solve_decision. Defined.

(** [ProtocolDebugIdentity::stable_id]. *)
Definition debug_stable_id `{Sha256} (i : ProtocolDebugIdentity) : ProtocolStableId :=
  stable_id_derive (authority i) (name i).

(** [canonical_identity_component]. *)
Definition canonical_identity_component (value : list byte) : bool :=
  negb (bool_decide (value = []))
  && forallb (fun b => is_ascii_lowercase b || is_ascii_digit b
                       || bool_decide (b = chr "-") || bool_decide (b = chr "_")) value.

(** [ProtocolDebugIdentity::is_canonical]. *)
Definition is_canonical (i : ProtocolDebugIdentity) : bool :=
  negb (bool_decide (authority i = []))
  && forallb canonical_identity_component (split_on (chr ".") (authority i))
  && canonical_identity_component (name i).

(** ** Capabilities *)

Record LinkCapabilities := caps_from_bits { bits : N }.
#[export] Instance LinkCapabilities_eq_dec : EqDecision LinkCapabilities.
Proof. solve_decision. Defined.

(** [!x] at [u64]. *)
Definition not_u64 (x : N) : N := N.lxor x u64_max.

Definition CAP_COMPACT_CHANNEL_ID := caps_from_bits (N.shiftl 1 0).
Definition CAP_DATAGRAMS := caps_from_bits (N.shiftl 1 1).
Definition CAP_SESSION_RESUME := caps_from_bits (N.shiftl 1 2).
Definition CAP_MANAGEMENT_CHANNEL := caps_from_bits (N.shiftl 1 3).
Definition CAP_ORDERED_RESPONSE_MULTIPLEX := caps_from_bits (N.shiftl 1 4).
Definition CAP_TYPED_CONTROL := caps_from_bits (N.shiftl 1 5).

Definition caps_contains (self capability : LinkCapabilities) : bool :=
  N.land (bits self) (bits capability) =? bits capability.
Definition caps_intersection (self other : LinkCapabilities) : LinkCapabilities :=
  caps_from_bits (N.land (bits self) (bits other)).
Definition caps_is_subset_of (self other : LinkCapabilities) : bool :=
  N.land (bits self) (not_u64 (bits other)) =? 0.
Definition caps_bitor (self rhs : LinkCapabilities) : LinkCapabilities :=
  caps_from_bits (N.lor (bits self) (bits rhs)).

Inductive ControlIdentityMode := LegacyStringV1 | TypedV1.
#[export] Instance ControlIdentityMode_eq_dec : EqDecision ControlIdentityMode.
Proof. solve_decision. Defined.

(** [ControlIdentityMode::negotiate]. *)
Definition control_mode_negotiate (capabilities : LinkCapabilities) : ControlIdentityMode :=
  if caps_contains capabilities CAP_TYPED_CONTROL then TypedV1 else LegacyStringV1.

Record ProtocolCapabilitySet := mkCapabilitySet {
  cap_protocol_id : ProtocolStableId;
  words : list N;
}.
#[export] Instance ProtocolCapabilitySet_eq_dec : EqDecision ProtocolCapabilitySet.
Proof. solve_decision. Defined.

Definition capability_set_empty (id : ProtocolStableId) : ProtocolCapabilitySet :=
  mkCapabilitySet id [].
Definition is_bounded (s : ProtocolCapabilitySet) : bool :=
  len (words s) <=? MAX_PROTOCOL_CAPABILITY_WORDS.

(** [ProtocolCapabilitySet::intersect]: [zip] stops at the shorter list. *)
Definition capability_intersect (self other : ProtocolCapabilitySet)
    : option ProtocolCapabilitySet :=
  if bool_decide (cap_protocol_id self = cap_protocol_id other)
  then Some (mkCapabilitySet (cap_protocol_id self) (zip_with N.land (words self) (words other)))
  else None.

(** [ProtocolCapabilitySet::is_subset_of]: a missing word counts as zero. *)
Fixpoint words_subset (ws others : list N) : bool :=
  match ws with
  | [] => true
  | w :: ws => (N.land w (not_u64 (default 0 (head others))) =? 0)
               && words_subset ws (tail others)
  end.
Definition capability_is_subset_of (self other : ProtocolCapabilitySet) : bool :=
  bool_decide (cap_protocol_id self = cap_protocol_id other)
  && words_subset (words self) (words other).

(** ** Opcodes, flags and errors *)

Inductive LinkControlOpcode :=
| OpHello | OpProtocolOffer | OpProtocolSelect | OpOpenChannel | OpChannelAccepted
| OpCloseChannel | OpPing | OpPong | OpBeginDrain | OpCloseSession | OpError.
#[export] Instance LinkControlOpcode_eq_dec : EqDecision LinkControlOpcode.
Proof. solve_decision. Defined.

(** [opcode as u16]. *)
Definition opcode_to_u16 (o : LinkControlOpcode) : N :=
  match o with
  | OpHello => 0x0001 | OpProtocolOffer => 0x0002 | OpProtocolSelect => 0x0003
  | OpOpenChannel => 0x0010 | OpChannelAccepted => 0x0011 | OpCloseChannel => 0x0012
  | OpPing => 0x0020 | OpPong => 0x0021 | OpBeginDrain => 0x0022
  | OpCloseSession => 0x0023 | OpError => 0x00ff
  end.

Inductive ErrorDomain := DomControl | DomProtocol | DomChannel | DomSecurity | DomResource.
#[export] Instance ErrorDomain_eq_dec : EqDecision ErrorDomain.
Proof. solve_decision. Defined.

Inductive Retryability := RetryNever | RetryAfterBackoff | RetryReconnect.
#[export] Instance Retryability_eq_dec : EqDecision Retryability.
Proof. solve_decision. Defined.

Record LinkControlError := mkControlError {
  domain : ErrorDomain;
  code : ErrorCode;
  operation : option LinkControlOpcode;
  retryability : Retryability;
  public_message : string;
}.
#[export] Instance LinkControlError_eq_dec : EqDecision LinkControlError.
Proof. solve_decision. Defined.

Definition unknown_opcode : LinkControlError :=
  mkControlError DomControl 1 None RetryNever "unknown Link control opcode".
Definition malformed (c : ErrorCode) (message : string) : LinkControlError :=
  mkControlError DomControl c None RetryNever message.
Definition mode_mismatch : LinkControlError :=
  malformed 2 "control identity mode does not match negotiated session".
Definition unsupported_version : LinkControlError :=
  malformed 3 "unsupported typed control wire version".
Definition truncated : LinkControlError :=
  malformed 4 "truncated typed control frame".
Definition limit_exceeded : LinkControlError :=
  malformed 5 "typed control frame exceeds a resource limit".
Definition invalid_payload : LinkControlError :=
  malformed 6 "invalid typed control payload".
Definition opcode_mismatch : LinkControlError :=
  malformed 7 "typed control opcode does not match payload".
Definition trailing_bytes : LinkControlError :=
  malformed 8 "typed control frame contains trailing bytes".
Definition invalid_channel_mapping : LinkControlError :=
  mkControlError DomChannel 1 (Some OpChannelAccepted) RetryNever
    "session channel mapping is invalid".
Definition duplicate_channel_mapping : LinkControlError :=
  mkControlError DomChannel 2 (Some OpChannelAccepted) RetryNever
    "session channel mapping conflicts with an existing binding".
Definition channel_mapping_limit : LinkControlError :=
  mkControlError DomResource 1 (Some OpChannelAccepted) RetryNever
    "session channel mapping limit exceeded".
Definition session_not_active (op : LinkControlOpcode) : LinkControlError :=
  mkControlError DomControl 9 (Some op) RetryReconnect
    "control operation requires an active session".

(** [LinkControlOpcode::try_from]. *)
Definition opcode_try_from (value : N) : result LinkControlError LinkControlOpcode :=
  match value with
  | 0x0001 => Ok OpHello
  | 0x0002 => Ok OpProtocolOffer
  | 0x0003 => Ok OpProtocolSelect
  | 0x0010 => Ok OpOpenChannel
  | 0x0011 => Ok OpChannelAccepted
  | 0x0012 => Ok OpCloseChannel
  | 0x0020 => Ok OpPing
  | 0x0021 => Ok OpPong
  | 0x0022 => Ok OpBeginDrain
  | 0x0023 => Ok OpCloseSession
  | 0x00ff => Ok OpError
  | _ => Err unknown_opcode
  end.

(** [ControlFlags]. *)
Record ControlFlags := mkFlags { flag_bits : N }.
#[export] Instance ControlFlags_eq_dec : EqDecision ControlFlags.
Proof. solve_decision. Defined.
Definition FLAG_RESPONSE : ControlFlags := mkFlags (N.shiftl 1 0).
Definition flags_from_bits (b : N) : option ControlFlags :=
  if N.land b (N.lxor (flag_bits FLAG_RESPONSE) u16_max) =? 0 then Some (mkFlags b) else None.

Record ControlModeGuard := mkGuard { guard_mode : ControlIdentityMode }.

(** [ControlModeGuard::validate_typed] and [validate_legacy]. *)
Definition validate_typed (g : ControlModeGuard) : result LinkControlError () :=
  if bool_decide (guard_mode g = TypedV1) then Ok () else Err mode_mismatch.
Definition validate_legacy (g : ControlModeGuard) : result LinkControlError () :=
  if bool_decide (guard_mode g = LegacyStringV1) then Ok () else Err mode_mismatch.

(** ** Handshake types carried by control payloads *)

Record ProtocolOffer := mkOffer {
  offer_stable_id : ProtocolStableId;
  offer_debug_identity : option ProtocolDebugIdentity;
  offer_versions : VersionRange;
  offer_schema : SchemaRef;
  offer_capabilities : ProtocolCapabilitySet;
}.
#[export] Instance ProtocolOffer_eq_dec : EqDecision ProtocolOffer.
Proof. solve_decision. Defined.

Record ProtocolSelection := mkSelection {
  sel_stable_id : ProtocolStableId;
  sel_version : ProtocolVersion;
  sel_schema : SchemaRef;
  sel_capabilities : ProtocolCapabilitySet;
}.
#[export] Instance ProtocolSelection_eq_dec : EqDecision ProtocolSelection.
Proof. solve_decision. Defined.

Inductive AuthPath := FirstPairing | TrustedReconnect.
#[export] Instance AuthPath_eq_dec : EqDecision AuthPath.
Proof. solve_decision. Defined.

(** ** Payloads *)

Record HelloControl := mkHello {
  hello_identity : Identity;
  hello_link_versions : VersionRange;
  hello_link_capabilities : LinkCapabilities;
  hello_requested_auth : AuthPath;
}.
Record OpenChannel := mkOpenChannel {
  open_protocol_id : ProtocolStableId;
  open_protocol_channel_id : ProtocolChannelId;
  open_requested_session_channel_id : ChannelId;
  open_capacity : N;
}.
Record AcceptChannel := mkAcceptChannel {
  acc_protocol_id : ProtocolStableId;
  acc_protocol_channel_id : ProtocolChannelId;
  acc_session_channel_id : ChannelId;
}.

Inductive ControlPayload :=
| PHello (hello : HelloControl)
| POfferProtocols (offers : list ProtocolOffer)
| PSelectProtocols (selections : list ProtocolSelection)
| POpenChannel (open : OpenChannel)
| PAcceptChannel (accepted : AcceptChannel)
| PCloseChannel (session_channel_id : ChannelId)
| PPing (nonce : N)
| PPong (nonce : N)
| PBeginDrain (deadline_millis : N)
| PCloseSession (reason_code : N)
| PError (error : LinkControlError).

(** [ControlPayload::opcode]. *)
Definition payload_opcode (p : ControlPayload) : LinkControlOpcode :=
  match p with
  | PHello _ => OpHello
  | POfferProtocols _ => OpProtocolOffer
  | PSelectProtocols _ => OpProtocolSelect
  | POpenChannel _ => OpOpenChannel
  | PAcceptChannel _ => OpChannelAccepted
  | PCloseChannel _ => OpCloseChannel
  | PPing _ => OpPing
  | PPong _ => OpPong
  | PBeginDrain _ => OpBeginDrain
  | PCloseSession _ => OpCloseSession
  | PError _ => OpError
  end.

Record ControlEnvelope := mkEnvelope {
  wire_version : N;
  env_opcode : LinkControlOpcode;
  request_id : RequestId;
  session_id : option SessionId;
  env_flags : ControlFlags;
  payload : ControlPayload;
}.

(** [ControlEnvelope::typed]. *)
Definition envelope_typed (request_id : RequestId) (session_id : option SessionId)
    (flags : ControlFlags) (payload : ControlPayload) : ControlEnvelope :=
  mkEnvelope TYPED_CONTROL_WIRE_VERSION (payload_opcode payload) request_id session_id
    flags payload.
