(* ===== verification/ControlCodec.v ===== *)
(** * The typed control wire codec

    Models [encode_control_envelope], [decode_control_envelope] and the
    [Writer] and [Reader] of [control.rs]. *)

From S2P Require Export Codec Control.
Local Open Scope N_scope.

Abbreviation rd := (reader LinkControlError).
Abbreviation wr := (writer LinkControlError).

(** ** Writer *)

Definition w_u8 : N -> wr := w_uint 1.
Definition w_u16 : N -> wr := w_uint 2.
Definition w_u32 : N -> wr := w_uint 4.
Definition w_u64 : N -> wr := w_uint 8.

Definition w_count (maximum value : N) : wr :=
  if (maximum <? value) || (u8_max <? value) then Err limit_exceeded else w_u8 value.

Definition w_version (v : ProtocolVersion) : wr := w_u16 (major v) >+> w_u16 (minor v).

Definition w_version_range (r : VersionRange) : wr :=
  w_version (minimum r) >+> w_version (maximum r).

Definition w_protocol_id (i : ProtocolStableId) : wr := w_array (stable_id_bytes i).

Definition w_schema (s : SchemaRef) : wr :=
  w_array (schema_id_bytes (schema_id s)) >+> w_u32 (schema_revision s)
  >+> w_array (fingerprint_bytes (schema_fingerprint s)).

Fixpoint w_words (ws : list N) : wr :=
  match ws with [] => Ok [] | w :: ws => w_u64 w >+> w_words ws end.

Definition w_capabilities (c : ProtocolCapabilitySet) : wr :=
  w_protocol_id (cap_protocol_id c)
  >+> w_count MAX_PROTOCOL_CAPABILITY_WORDS (len (words c)) >+> w_words (words c).

Definition w_string (value : list byte) : wr :=
  if bool_decide (value = []) || (MAX_CONTROL_DEBUG_COMPONENT_BYTES <? len value)
     || (u16_max <? len value)
  then Err limit_exceeded
  else w_u16 (len value) >+> Ok value.

Definition w_debug_identity (identity : option ProtocolDebugIdentity) : wr :=
  match identity with
  | Some i =>
    if negb (is_canonical i) then Err invalid_payload
    else w_u8 1 >+> w_string (authority i) >+> w_string (name i)
  | None => w_u8 0
  end.

(** ** Reader *)

Definition r_u8 : rd N := r_uint truncated 1.
Definition r_u16 : rd N := r_uint truncated 2.
Definition r_u32 : rd N := r_uint truncated 4.
Definition r_u64 : rd N := r_uint truncated 8.

Definition r_bounded_count (maximum : N) : rd N :=
  count ← r_u8;
  reader_reject (maximum <? count) limit_exceeded (mret count).

Definition r_version : rd ProtocolVersion :=
  ma ← r_u16; mi ← r_u16; mret (mkVersion ma mi).

Definition r_version_range : rd VersionRange :=
  lo ← r_version; hi ← r_version;
  let versions := mkRange lo hi in
  reader_reject (negb (range_is_valid versions)) invalid_payload (mret versions).

Definition r_protocol_id : rd ProtocolStableId :=
  a ← r_array truncated 16; mret (mkStableId a).

Definition r_schema : rd SchemaRef :=
  id ← r_array truncated 16;
  revision ← r_u32;
  fingerprint ← r_array truncated 32;
  reader_reject (revision =? 0) invalid_payload
    (mret (mkSchemaRef (mkSchemaId id) revision (mkFingerprint fingerprint))).

Fixpoint r_words (count : nat) : rd (list N) :=
  match count with
  | O => mret []
  | S count => w ← r_u64; ws ← r_words count; mret (w :: ws)
  end.

Definition r_capabilities : rd ProtocolCapabilitySet :=
  protocol_id ← r_protocol_id;
  count ← r_bounded_count MAX_PROTOCOL_CAPABILITY_WORDS;
  ws ← r_words (N.to_nat count);
  mret (mkCapabilitySet protocol_id ws).

Definition r_string : rd (list byte) :=
  n ← r_u16;
  reader_reject ((n =? 0) || (MAX_CONTROL_DEBUG_COMPONENT_BYTES <? n)) limit_exceeded
    (value ← r_take truncated n;
     reader_reject (negb (utf8_valid value)) invalid_payload (mret value)).

Definition r_debug_identity : rd (option ProtocolDebugIdentity) :=
  tag ← r_u8;
  match tag with
  | 0 => mret None
  | 1 => a ← r_string; n ← r_string; mret (Some (mkDebugIdentity a n))
  | _ => reader_fail invalid_payload
  end.

(** ** Wire discriminants *)

Definition error_domain_to_wire (d : ErrorDomain) : N :=
  match d with
  | DomControl => 0 | DomProtocol => 1 | DomChannel => 2 | DomSecurity => 3
  | DomResource => 4
  end.
Definition error_domain_from_wire (value : N) : result LinkControlError ErrorDomain :=
  match value with
  | 0 => Ok DomControl | 1 => Ok DomProtocol | 2 => Ok DomChannel
  | 3 => Ok DomSecurity | 4 => Ok DomResource | _ => Err invalid_payload
  end.
Definition retryability_to_wire (r : Retryability) : N :=
  match r with RetryNever => 0 | RetryAfterBackoff => 1 | RetryReconnect => 2 end.
Definition retryability_from_wire (value : N) : result LinkControlError Retryability :=
  match value with
  | 0 => Ok RetryNever | 1 => Ok RetryAfterBackoff | 2 => Ok RetryReconnect
  | _ => Err invalid_payload
  end.

Definition REMOTE_ERROR_MESSAGE : string := "remote returned a structured control error".

(** ** Payloads *)

Section payloads.
Context `{Sha256}.

(** The debug identity of an offer, when present, is canonical and derives
    the offer's stable id. *)
Definition debug_identity_conflicts (stable_id : ProtocolStableId)
    (identity : option ProtocolDebugIdentity) : bool :=
  match identity with
  | Some i => negb (is_canonical i) || negb (bool_decide (debug_stable_id i = stable_id))
  | None => false
  end.

(** The loop over the offers of an [OfferProtocols] payload; [ids] is the
    set of stable ids already written. *)
Fixpoint w_offers (ids : gset ProtocolStableId) (offers : list ProtocolOffer) : wr :=
  match offers with
  | [] => Ok []
  | o :: offers =>
    if bool_decide (offer_stable_id o ∈ ids)
       || negb (range_is_valid (offer_versions o))
       || (schema_revision (offer_schema o) =? 0)
       || negb (bool_decide (cap_protocol_id (offer_capabilities o) = offer_stable_id o))
       || debug_identity_conflicts (offer_stable_id o) (offer_debug_identity o)
    then Err invalid_payload
    else
      (w_protocol_id (offer_stable_id o) >+> w_debug_identity (offer_debug_identity o)
       >+> w_version_range (offer_versions o) >+> w_schema (offer_schema o)
       >+> w_capabilities (offer_capabilities o))
      >+> w_offers ({[offer_stable_id o]} ∪ ids) offers
  end.

Fixpoint w_selections (ids : gset ProtocolStableId) (selections : list ProtocolSelection)
    : wr :=
  match selections with
  | [] => Ok []
  | s :: selections =>
    if bool_decide (sel_stable_id s ∈ ids)
       || (schema_revision (sel_schema s) =? 0)
       || negb (bool_decide (cap_protocol_id (sel_capabilities s) = sel_stable_id s))
    then Err invalid_payload
    else
      (w_protocol_id (sel_stable_id s) >+> w_version (sel_version s)
       >+> w_schema (sel_schema s) >+> w_capabilities (sel_capabilities s))
      >+> w_selections ({[sel_stable_id s]} ∪ ids) selections
  end.

Definition encode_payload (payload : ControlPayload) : wr :=
  match payload with
  | PHello hello =>
    if negb (range_is_valid (hello_link_versions hello)) then Err invalid_payload
    else
      w_array (as_bytes (peer_id (hello_identity hello)))
      >+> w_array (as_bytes (endpoint_id (hello_identity hello)))
      >+> w_array (as_bytes (connection_id (hello_identity hello)))
      >+> w_version_range (hello_link_versions hello)
      >+> w_u64 (bits (hello_link_capabilities hello))
      >+> w_u8 (match hello_requested_auth hello with
                | FirstPairing => 0 | TrustedReconnect => 1 end)
  | POfferProtocols offers =>
    w_count MAX_CONTROL_PROTOCOLS (len offers) >+> w_offers ∅ offers
  | PSelectProtocols selections =>
    w_count MAX_CONTROL_PROTOCOLS (len selections) >+> w_selections ∅ selections
  | POpenChannel open =>
    if (open_protocol_channel_id open =? 0)
       || (open_requested_session_channel_id open =? 0) || (open_capacity open =? 0)
    then Err invalid_payload
    else
      w_protocol_id (open_protocol_id open) >+> w_u16 (open_protocol_channel_id open)
      >+> w_u32 (open_requested_session_channel_id open) >+> w_u32 (open_capacity open)
  | PAcceptChannel accepted =>
    if (acc_protocol_channel_id accepted =? 0) || (acc_session_channel_id accepted =? 0)
    then Err invalid_payload
    else
      w_protocol_id (acc_protocol_id accepted) >+> w_u16 (acc_protocol_channel_id accepted)
      >+> w_u32 (acc_session_channel_id accepted)
  | PCloseChannel id => if id =? 0 then Err invalid_payload else w_u32 id
  | PPing nonce => w_u64 nonce
  | PPong nonce => w_u64 nonce
  | PBeginDrain deadline => w_u32 deadline
  | PCloseSession reason => w_u16 reason
  | PError error =>
    w_u8 (error_domain_to_wire (domain error)) >+> w_u16 (code error)
    >+> w_u16 (match operation error with Some o => opcode_to_u16 o | None => u16_max end)
    >+> w_u8 (retryability_to_wire (retryability error))
  end.

Fixpoint r_offers (ids : gset ProtocolStableId) (count : nat) : rd (list ProtocolOffer) :=
  match count with
  | O => mret []
  | S count =>
    stable_id ← r_protocol_id;
    debug_identity ← r_debug_identity;
    versions ← r_version_range;
    schema ← r_schema;
    capabilities ← r_capabilities;
    reader_reject
      (bool_decide (stable_id ∈ ids)
       || negb (bool_decide (cap_protocol_id capabilities = stable_id))
       || debug_identity_conflicts stable_id debug_identity) invalid_payload
      (offers ← r_offers ({[stable_id]} ∪ ids) count;
       mret (mkOffer stable_id debug_identity versions schema capabilities :: offers))
  end.

Fixpoint r_selections (ids : gset ProtocolStableId) (count : nat)
    : rd (list ProtocolSelection) :=
  match count with
  | O => mret []
  | S count =>
    stable_id ← r_protocol_id;
    version ← r_version;
    schema ← r_schema;
    capabilities ← r_capabilities;
    reader_reject
      (bool_decide (stable_id ∈ ids)
       || negb (bool_decide (cap_protocol_id capabilities = stable_id))) invalid_payload
      (selections ← r_selections ({[stable_id]} ∪ ids) count;
       mret (mkSelection stable_id version schema capabilities :: selections))
  end.

Definition r_hello : rd HelloControl :=
  peer ← (r_array truncated 32 : rd (vec byte 32));
  endpoint ← (r_array truncated 16 : rd (vec byte 16));
  connection ← (r_array truncated 16 : rd (vec byte 16));
  versions ← r_version_range;
  caps ← r_u64;
  auth ← r_u8;
  requested ← (match auth with
               | 0 => mret FirstPairing
               | 1 => mret TrustedReconnect
               | _ => reader_fail invalid_payload
               end : rd AuthPath);
  mret (mkHello (mkIdentity (from_bytes (k := PeerKind) peer)
                              (from_bytes (k := EndpointKind) endpoint)
                              (from_bytes (k := ConnectionKind) connection))
                versions (caps_from_bits caps) requested).

Definition r_error : rd LinkControlError :=
  d ← r_u8;
  dom ← reader_lift (error_domain_from_wire d);
  code ← r_u16;
  op ← r_u16;
  operation ← reader_lift (if op =? u16_max then Ok None else Some <$> opcode_try_from op);
  r ← r_u8;
  retry ← reader_lift (retryability_from_wire r);
  mret (mkControlError dom code operation retry REMOTE_ERROR_MESSAGE).

Definition decode_payload (opcode : LinkControlOpcode) : rd ControlPayload :=
  match opcode with
  | OpHello => hello ← r_hello; mret (PHello hello)
  | OpProtocolOffer =>
    count ← r_bounded_count MAX_CONTROL_PROTOCOLS;
    offers ← r_offers ∅ (N.to_nat count); mret (POfferProtocols offers)
  | OpProtocolSelect =>
    count ← r_bounded_count MAX_CONTROL_PROTOCOLS;
    selections ← r_selections ∅ (N.to_nat count); mret (PSelectProtocols selections)
  | OpOpenChannel =>
    protocol_id ← r_protocol_id; channel ← r_u16; requested ← r_u32; capacity ← r_u32;
    reader_reject ((channel =? 0) || (requested =? 0) || (capacity =? 0)) invalid_payload
      (mret (POpenChannel (mkOpenChannel protocol_id channel requested capacity)))
  | OpChannelAccepted =>
    protocol_id ← r_protocol_id; channel ← r_u16; session_channel ← r_u32;
    reader_reject ((channel =? 0) || (session_channel =? 0)) invalid_payload
      (mret (PAcceptChannel (mkAcceptChannel protocol_id channel session_channel)))
  | OpCloseChannel =>
    id ← r_u32; reader_reject (id =? 0) invalid_payload (mret (PCloseChannel id))
  | OpPing => nonce ← r_u64; mret (PPing nonce)
  | OpPong => nonce ← r_u64; mret (PPong nonce)
  | OpBeginDrain => deadline ← r_u32; mret (PBeginDrain deadline)
  | OpCloseSession => reason ← r_u16; mret (PCloseSession reason)
  | OpError => error ← r_error; mret (PError error)
  end.

(** ** Envelopes *)

Definition w_session_id (session_id : option SessionId) : wr :=
  match session_id with
  | Some id => w_u8 1 >+> w_array (as_bytes id)
  | None => w_u8 0 >+> Ok (replicate 16 Byte.x00)
  end.

(** The fixed header.  The code writes a zero length first and patches it
    once the payload is encoded. *)
Definition w_header (envelope : ControlEnvelope) (payload_len : N) : wr :=
  Ok CONTROL_MAGIC >+> w_u16 (wire_version envelope)
  >+> w_u16 (opcode_to_u16 (env_opcode envelope)) >+> w_u16 (flag_bits (env_flags envelope))
  >+> w_u64 (request_id envelope) >+> w_session_id (session_id envelope)
  >+> w_u32 payload_len.

Definition encode_control_envelope (guard : ControlModeGuard) (envelope : ControlEnvelope)
    : wr :=
  _ ← validate_typed guard;
  reject negb (wire_version envelope =? TYPED_CONTROL_WIRE_VERSION)
    with unsupported_version;
  reject negb (bool_decide (env_opcode envelope = payload_opcode (payload envelope)))
    with opcode_mismatch;
  bytes ← encode_payload (payload envelope);
  reject MAX_CONTROL_PAYLOAD_BYTES <? len bytes with limit_exceeded;
  reject u32_max <? len bytes with limit_exceeded;
  w_header envelope (len bytes) >+> Ok bytes.

Definition r_magic : rd () :=
  magic ← r_take truncated 4;
  reader_reject (negb (bool_decide (magic = CONTROL_MAGIC))) invalid_payload (mret ()).

Definition r_wire_version : rd N :=
  version ← r_u16;
  reader_reject (negb (version =? TYPED_CONTROL_WIRE_VERSION)) unsupported_version
    (mret version).

Definition r_opcode : rd LinkControlOpcode :=
  value ← r_u16; reader_lift (opcode_try_from value).

Definition r_flags : rd ControlFlags :=
  value ← r_u16; reader_lift (ok_or invalid_payload (flags_from_bits value)).

Definition r_session_id : rd (option SessionId) :=
  present ← r_u8;
  bytes ← (r_array truncated 16 : rd (vec byte 16));
  match present with
  | 0 => reader_reject
           (negb (bool_decide (vec_to_list bytes = replicate 16 Byte.x00)))
           invalid_payload (mret None)
  | 1 => mret (Some (from_bytes (k := SessionKind) bytes))
  | _ => reader_fail invalid_payload
  end.

(** The payload reader: the rest of the frame must be exactly the payload,
    and the payload decoder must consume all of it. *)
Definition r_payload (opcode : LinkControlOpcode) (payload_len : N) : rd ControlPayload :=
  fun rest =>
    reject len rest <? payload_len with truncated;
    reject negb (len rest =? payload_len) with trailing_bytes;
    '(bytes, rest) ← r_take truncated payload_len rest;
    '(payload, unread) ← decode_payload opcode bytes;
    reject negb (len unread =? 0) with trailing_bytes;
    Ok (payload, rest).

Definition r_envelope : rd ControlEnvelope :=
  _ ← r_magic;
  version ← r_wire_version;
  opcode ← r_opcode;
  flags ← r_flags;
  request_id ← r_u64;
  session_id ← r_session_id;
  payload_len ← r_u32;
  reader_reject (MAX_CONTROL_PAYLOAD_BYTES <? payload_len) limit_exceeded
    (payload ← r_payload opcode payload_len;
     mret (mkEnvelope version opcode request_id session_id flags payload)).

Definition decode_control_envelope (guard : ControlModeGuard) (wire : list byte)
    : result LinkControlError ControlEnvelope :=
  _ ← validate_typed guard;
  reject len wire <? CONTROL_HEADER_BYTES with truncated;
  fst <$> r_envelope wire.
End payloads.

(** ** What a value of the machine types is *)

(** Every integer of the record fits the width of its field. *)
Definition capabilities_wf (c : ProtocolCapabilitySet) : Prop :=
  Forall (fun w => w <= u64_max) (words c).
Definition schema_wf (s : SchemaRef) : Prop := schema_revision s <= u32_max.
Definition offer_wf (o : ProtocolOffer) : Prop :=
  range_wf (offer_versions o) /\ schema_wf (offer_schema o)
  /\ capabilities_wf (offer_capabilities o).
Definition selection_wf (s : ProtocolSelection) : Prop :=
  version_wf (sel_version s) /\ schema_wf (sel_schema s)
  /\ capabilities_wf (sel_capabilities s).
Definition payload_wf (p : ControlPayload) : Prop :=
  match p with
  | PHello h => range_wf (hello_link_versions h) /\ bits (hello_link_capabilities h) <= u64_max
  | POfferProtocols offers => Forall offer_wf offers
  | PSelectProtocols selections => Forall selection_wf selections
  | POpenChannel o =>
    open_protocol_channel_id o <= u16_max
    /\ open_requested_session_channel_id o <= u32_max /\ open_capacity o <= u32_max
  | PAcceptChannel a =>
    acc_protocol_channel_id a <= u16_max /\ acc_session_channel_id a <= u32_max
  | PCloseChannel id => id <= u32_max
  | PPing n | PPong n => n <= u64_max
  | PBeginDrain d => d <= u32_max
  | PCloseSession r => r <= u16_max
  | PError e => code e <= u16_max
  end.

(** A [ControlFlags] is built by [from_bits] or from its constants. *)
Definition envelope_wf (e : ControlEnvelope) : Prop :=
  request_id e <= u64_max /\ flag_bits (env_flags e) <= u16_max
  /\ flags_from_bits (flag_bits (env_flags e)) = Some (env_flags e)
  /\ payload_wf (payload e).

(** What the peer sees: the diagnostic message of an error is not sent. *)
Definition remote_error (e : LinkControlError) : LinkControlError :=
  mkControlError (domain e) (code e) (operation e) (retryability e) REMOTE_ERROR_MESSAGE.
Definition remote_payload (p : ControlPayload) : ControlPayload :=
  match p with PError e => PError (remote_error e) | _ => p end.
Definition remote_view (e : ControlEnvelope) : ControlEnvelope :=
  mkEnvelope (wire_version e) (env_opcode e) (request_id e) (session_id e) (env_flags e)
    (remote_payload (payload e)).

#[global] Arguments w_u8 : simpl never.
#[global] Arguments w_u16 : simpl never.
#[global] Arguments w_u32 : simpl never.
#[global] Arguments w_u64 : simpl never.
#[global] Arguments r_u8 : simpl never.
#[global] Arguments r_u16 : simpl never.
#[global] Arguments r_u32 : simpl never.
#[global] Arguments r_u64 : simpl never.
#[global] Arguments w_count : simpl never.
#[global] Arguments w_version : simpl never.
#[global] Arguments w_version_range : simpl never.
#[global] Arguments w_protocol_id : simpl never.
#[global] Arguments w_schema : simpl never.
#[global] Arguments w_capabilities : simpl never.
#[global] Arguments w_string : simpl never.
#[global] Arguments w_debug_identity : simpl never.
#[global] Arguments range_is_valid : simpl never.
