(* ===== verification/ControlCodecFacts.v ===== *)
(** * Round trips of the typed control codec

    One [Codec] instance per writer and reader pair, composed up to the
    envelope: decoding what was encoded, encoding what was decoded, and the
    frames no reader accepts. *)

From S2P Require Export ControlCodec.
Local Open Scope N_scope.

(** ** Integers and composites *)

#[export] Instance u8_codec : Codec w_u8 r_u8 (fun x => x <= u8_max).
Proof. by apply uint_codec_le. Qed.
#[export] Instance u16_codec : Codec w_u16 r_u16 (fun x => x <= u16_max).
Proof. by apply uint_codec_le. Qed.
#[export] Instance u32_codec : Codec w_u32 r_u32 (fun x => x <= u32_max).
Proof. by apply uint_codec_le. Qed.
#[export] Instance u64_codec : Codec w_u64 r_u64 (fun x => x <= u64_max).
Proof. by apply uint_codec_le. Qed.
#[export] Typeclasses Opaque w_u8 w_u16 w_u32 w_u64 r_u8 r_u16 r_u32 r_u64.

Lemma w_count_ok maximum v bs :
  w_count maximum v = Ok bs -> w_u8 v = Ok bs /\ v <= maximum /\ v <= u8_max.
Proof. unfold w_count. destruct (_ || _) eqn:Hg; [done|]. guards. auto. Qed.

#[export] Instance count_codec maximum :
  Codec (w_count maximum) (r_bounded_count maximum) (fun _ => True).
Proof.
  split.
  - intros v bs rest He _. apply w_count_ok in He as (He & ? & ?).
    unfold r_bounded_count. read_back. by tests.
  - intros l v rest H. unfold r_bounded_count in H. inv_codec. write_back.
    exists bs. unfold w_count. guards. split_and!; [|done..]. by tests.
Qed.

#[export] Instance version_codec : Codec w_version r_version version_wf.
Proof.
  split.
  - intros [ma mi] bs rest He [??]. unfold w_version, r_version in *. inv_codec.
    by read_back.
  - intros l v rest H. unfold r_version in H. inv_codec. write_back.
    unfold w_version. cbn [major minor]. written. done.
Qed.

#[export] Instance version_range_codec :
  Codec w_version_range r_version_range (fun r => range_is_valid r = true /\ range_wf r).
Proof.
  split.
  - intros [lo hi] bs rest He [V [??]].
    unfold w_version_range, r_version_range in *. cbn in *. inv_codec.
    read_back. by rewrite V.
  - intros l v rest H. unfold r_version_range in H. inv_codec. write_back. guards.
    unfold w_version_range. cbn. written. done.
Qed.

#[export] Instance protocol_id_codec : Codec w_protocol_id r_protocol_id (fun _ => True).
Proof.
  apply (codec_wrap w_array (r_array truncated 16) (fun _ => True) mkStableId stable_id_bytes);
    [by intros []|done].
Qed.

#[export] Instance schema_codec :
  Codec w_schema r_schema (fun s => schema_revision s <> 0 /\ schema_wf s).
Proof.
  split.
  - intros [[i] r [f]] bs rest He [Hr Hv]. unfold w_schema, r_schema in *. cbn in *.
    inv_codec. read_back. by tests.
  - intros l v rest H. unfold r_schema in H. inv_codec. write_back. guards.
    unfold w_schema. cbn. written. done.
Qed.

#[export] Instance words_codec n :
  Codec w_words (r_words n) (fun ws => length ws = n /\ Forall (fun w => w <= u64_max) ws).
Proof.
  split.
  - intros ws. revert n. induction ws as [|w ws IH]; intros n bs rest He [Hn Hw]; simpl in *.
    + subst. by injection He as <-.
    + destruct n as [|n]; [done|]. inv_codec. decompose_Forall_hyps. cbn. read_back.
      erewrite reader_bind_eq; [done|]. apply IH; auto.
  - induction n as [|n IH]; intros l v rest H; simpl in H; inv_codec.
    + by exists [].
    + apply IH in H1 as (bs & E & -> & <- & ?). write_back. cbn. written. auto.
Qed.

#[export] Instance capabilities_codec : Codec w_capabilities r_capabilities capabilities_wf.
Proof.
  split.
  - intros [i ws] bs rest He Hw. unfold w_capabilities, r_capabilities in *. cbn in *.
    inv_codec. by read_back.
  - intros l v rest H. unfold r_capabilities in H. inv_codec. write_back.
    destruct Hwf as [Hn Hf]. unfold w_capabilities. cbn.
    replace (len a1) with a0 by lia. written. done.
Qed.

(** A string read is valid UTF-8, as every [&str] written is. *)
#[export] Instance string_codec : Codec w_string r_string (fun s => utf8_valid s = true).
Proof.
  split.
  - intros s bs rest He Hs. unfold w_string, r_string in *.
    destruct (_ || _) eqn:Hg in He; [done|]. guards.
    assert (len s <> 0) by (destruct s; simpl; [done|lia]).
    inv_codec. read_back. tests. cbn [reader_reject].
    erewrite reader_bind_eq by apply r_take_app. by rewrite Hs.
  - intros l s rest H. unfold r_string in H. inv_codec. guards.
    apply r_take_ok in H1 as [-> Hlen]. write_back. unfold w_string.
    rewrite Hlen. rewrite bool_decide_false by (intros ->; simpl in *; lia). tests.
    unfold MAX_CONTROL_DEBUG_COMPONENT_BYTES in *. tests. written.
    by destruct (utf8_valid _).
Qed.

(** The bytes of a canonical identity are ASCII, so they are text. *)
Lemma component_ascii l : canonical_identity_component l = true -> forallb (in_range 0 127) l = true.
Proof.
  unfold canonical_identity_component. intros [_ H]%andb_true_iff.
  rewrite forallb_forall in *. intros b Hb. specialize (H b Hb).
  unfold is_ascii_lowercase, is_ascii_digit, in_range in *.
  repeat (apply orb_true_iff in H as [H|H]); guards; subst; try done; by tests.
Qed.

Lemma canonical_utf8 i :
  is_canonical i = true -> utf8_valid (authority i) = true /\ utf8_valid (name i) = true.
Proof.
  unfold is_canonical. intros [[_ Ha]%andb_true_iff Hn]%andb_true_iff.
  split; apply utf8_valid_ascii; [|by apply component_ascii].
  apply (split_on_forall _ (chr ".")); [done|].
  rewrite forallb_forall in *. intros part Hp. by apply component_ascii, Ha.
Qed.

(** Only a canonical identity is written; the reader leaves that check to the
    offer the identity belongs to. *)
Lemma debug_identity_read i bs rest :
  w_debug_identity i = Ok bs -> r_debug_identity (bs ++ rest) = Ok (i, rest).
Proof.
  unfold w_debug_identity, r_debug_identity. destruct i as [i|]; intros He.
  - destruct (is_canonical i) eqn:Hc; [|done]. cbn in He. inv_codec.
    apply canonical_utf8 in Hc as [??]. read_back. by destruct i.
  - by read_back.
Qed.

Lemma debug_identity_written l i rest :
  r_debug_identity l = Ok (i, rest) ->
  match i with Some i => is_canonical i = true | None => True end ->
  exists bs, w_debug_identity i = Ok bs /\ l = bs ++ rest.
Proof.
  intros H Hc. unfold r_debug_identity in H. inv_codec. unfold w_debug_identity.
  destruct a as [|[a|a|]]; inv_codec; write_back; [by written|].
  rewrite Hc. cbn. by written.
Qed.

(** ** Offers and selections *)

Section payloads.
Context `{Sha256}.

Lemma offers_read ids os bs rest :
  w_offers ids os = Ok bs -> Forall offer_wf os ->
  r_offers ids (length os) (bs ++ rest) = Ok (os, rest).
Proof.
  revert ids bs. induction os as [|o os IH]; intros ids bs He Hw; simpl in *.
  - by inv_codec.
  - decompose_Forall_hyps. destruct (_ || _) eqn:Hg in He; [done|].
    repeat match goal with H : _ || _ = false |- _ => apply orb_false_iff in H as [? H] end.
    rename select (debug_identity_conflicts _ _ = false) into Hd.
    guards. rename select (offer_wf o) into Ho. destruct Ho as (? & ? & ?).
    inv_codec. rewrite <- !app_assoc. read_back.
    erewrite reader_bind_eq by by apply debug_identity_read. read_back.
    rewrite Hd. rewrite bool_decide_false by done. rewrite bool_decide_true by done.
    cbn. erewrite reader_bind_eq by by apply IH. by destruct o.
Qed.

Lemma offers_written ids n l os rest :
  r_offers ids n l = Ok (os, rest) ->
  exists bs, w_offers ids os = Ok bs /\ l = bs ++ rest /\ length os = n
             /\ Forall offer_wf os.
Proof.
  revert ids l os. induction n as [|n IH]; intros ids l os H1; simpl in *.
  - inv_codec. by exists [].
  - inv_codec. rename select (r_offers _ _ _ = Ok _) into Hrec. apply IH in Hrec as (bs & He & -> & <- & Hw).
    repeat match goal with H : _ || _ = false |- _ => apply orb_false_iff in H as [? H] end.
    rename select (debug_identity_conflicts _ _ = false) into Hd.
    rename select (r_debug_identity _ = Ok _) into Hi.
    apply debug_identity_written in Hi as (bs1 & He1 & ->); last first.
    { destruct a0; [|done]. unfold debug_identity_conflicts in Hd. by guards. }
    write_back. guards. cbn [w_offers offer_stable_id offer_debug_identity offer_versions
                      offer_schema offer_capabilities].
    rewrite Hd. rewrite bool_decide_false, bool_decide_true by done.
    destruct_and?. rename select (range_is_valid _ = true) into Hr. rewrite Hr. tests.
    written. cbn. split; [done|]. constructor; [|done]. done.
Qed.

Lemma selections_read ids ss bs rest :
  w_selections ids ss = Ok bs -> Forall selection_wf ss ->
  r_selections ids (length ss) (bs ++ rest) = Ok (ss, rest).
Proof.
  revert ids bs. induction ss as [|s ss IH]; intros ids bs He Hw; simpl in *.
  - by inv_codec.
  - decompose_Forall_hyps. destruct (_ || _) eqn:Hg in He; [done|]. guards.
    rename select (selection_wf s) into Ho. destruct Ho as (? & ? & ?).
    inv_codec. rewrite <- !app_assoc. read_back.
    rewrite bool_decide_false by done. rewrite bool_decide_true by done.
    cbn. erewrite reader_bind_eq by by apply IH. by destruct s.
Qed.

Lemma selections_written ids n l ss rest :
  r_selections ids n l = Ok (ss, rest) ->
  exists bs, w_selections ids ss = Ok bs /\ l = bs ++ rest /\ length ss = n
             /\ Forall selection_wf ss.
Proof.
  revert ids l ss. induction n as [|n IH]; intros ids l ss H1; simpl in *.
  - inv_codec. by exists [].
  - inv_codec. rename select (r_selections _ _ _ = Ok _) into Hrec. apply IH in Hrec as (bs & He & -> & <- & Hw).
    write_back. guards. cbn [w_selections sel_stable_id sel_version sel_schema
                      sel_capabilities].
    rewrite bool_decide_false, bool_decide_true by done. destruct_and?. tests.
    written. cbn. split; [done|]. constructor; [|done]. done.
Qed.

(** ** Payloads *)

Lemma opcode_try_from_to o : opcode_try_from (opcode_to_u16 o) = Ok o.
Proof. by destruct o. Qed.

Lemma opcode_try_from_Ok v o : opcode_try_from v = Ok o -> v = opcode_to_u16 o.
Proof.
  intros Ho. unfold opcode_try_from in Ho.
  repeat (case_match; try discriminate); by injection Ho as <-.
Qed.

Lemma domain_from_to d : error_domain_from_wire (error_domain_to_wire d) = Ok d.
Proof. by destruct d. Qed.
Lemma domain_from_Ok v d : error_domain_from_wire v = Ok d -> v = error_domain_to_wire d.
Proof.
  intros Ho. unfold error_domain_from_wire in Ho.
  repeat (case_match; try discriminate); by injection Ho as <-.
Qed.
Lemma retryability_from_to r : retryability_from_wire (retryability_to_wire r) = Ok r.
Proof. by destruct r. Qed.
Lemma retryability_from_Ok v r :
  retryability_from_wire v = Ok r -> v = retryability_to_wire r.
Proof.
  intros Ho. unfold retryability_from_wire in Ho.
  repeat (case_match; try discriminate); by injection Ho as <-.
Qed.

Lemma discriminants_bound (d : ErrorDomain) (r : Retryability) (o : LinkControlOpcode) :
  error_domain_to_wire d <= u8_max /\ retryability_to_wire r <= u8_max
  /\ opcode_to_u16 o < u16_max.
Proof. by destruct d, r, o. Qed.

Lemma auth_bound (a : AuthPath) :
  match a with FirstPairing => 0 | TrustedReconnect => 1 end <= u8_max.
Proof. by destruct a. Qed.

Lemma hello_read h bs rest :
  encode_payload (PHello h) = Ok bs -> payload_wf (PHello h) ->
  r_hello (bs ++ rest) = Ok (h, rest).
Proof.
  destruct h as [[[p] [e] [c]] v [b] a]. cbn. intros He [Hr Hb].
  destruct (range_is_valid v) eqn:V; [|done]. cbn in He.
  inv_codec. unfold r_hello. pose proof (auth_bound a). read_back. by destruct a.
Qed.

Lemma hello_written l h rest :
  r_hello l = Ok (h, rest) ->
  exists bs, encode_payload (PHello h) = Ok bs /\ l = bs ++ rest /\ payload_wf (PHello h).
Proof.
  intros Hd. unfold r_hello in Hd. inv_codec. write_back. destruct_and?.
  rename select (range_is_valid _ = true) into V.
  destruct a4 as [|[?|?|]]; inv_codec; cbn; rewrite V; cbn; by written.
Qed.

Lemma error_read e bs rest :
  encode_payload (PError e) = Ok bs -> payload_wf (PError e) ->
  r_error (bs ++ rest) = Ok (remote_error e, rest).
Proof.
  destruct e as [d c o r m]. cbn. intros He Hc. inv_codec. unfold r_error, remote_error.
  destruct (discriminants_bound d r (default OpHello o)) as (Hd & Hr & Ho).
  assert (match o with Some o => opcode_to_u16 o | None => u16_max end <= u16_max)
    by (destruct o; simpl in *; lia).
  read_back. erewrite reader_bind_lift by apply domain_from_to. read_back.
  destruct o as [o|]; cbn in *.
  - erewrite reader_bind_lift; last first.
    { tests. by rewrite opcode_try_from_to. }
    read_back. by erewrite reader_bind_lift by apply retryability_from_to.
  - erewrite reader_bind_lift by done.
    read_back. by erewrite reader_bind_lift by apply retryability_from_to.
Qed.

Lemma error_written l e rest :
  r_error l = Ok (e, rest) ->
  exists bs, encode_payload (PError e) = Ok bs /\ l = bs ++ rest /\ payload_wf (PError e)
             /\ remote_error e = e.
Proof.
  intros Hd. unfold r_error in Hd. inv_codec. write_back.
  rename select (error_domain_from_wire _ = _) into Hdom.
  rename select (retryability_from_wire _ = _) into Hret.
  apply domain_from_Ok in Hdom as ->. apply retryability_from_Ok in Hret as ->.
  cbn. destruct (_ =? _) eqn:Hop; inv_ok; guards; subst.
  - by written.
  - destruct (opcode_try_from _) eqn:Ho; [|done]. apply opcode_try_from_Ok in Ho as ->.
    simplify_eq/=. by written.
Qed.

Lemma payload_read p bs rest :
  encode_payload p = Ok bs -> payload_wf p ->
  decode_payload (payload_opcode p) (bs ++ rest) = Ok (remote_payload p, rest).
Proof.
  intros He Hw. destruct p; cbn [payload_opcode decode_payload remote_payload].
  1: by erewrite reader_bind_eq by by eapply hello_read.
  10: by erewrite reader_bind_eq by by eapply error_read.
  all: cbn [encode_payload payload_wf] in *.
  - inv_codec. read_back. rewrite Nat2N.id.
    by erewrite reader_bind_eq by by apply offers_read.
  - inv_codec. read_back. rewrite Nat2N.id.
    by erewrite reader_bind_eq by by apply selections_read.
  - destruct (_ || _) eqn:Hg in He; [done|]. destruct_and?. inv_codec. read_back.
    rewrite Hg. by destruct open.
  - destruct (_ || _) eqn:Hg in He; [done|]. destruct_and?. inv_codec. read_back.
    rewrite Hg. by destruct accepted.
  - destruct (_ =? _) eqn:Hg in He; [done|]. read_back. by rewrite Hg.
  - by read_back.
  - by read_back.
  - by read_back.
  - by read_back.
Qed.

Lemma payload_written o l p rest :
  decode_payload o l = Ok (p, rest) ->
  o = payload_opcode p /\ remote_payload p = p /\
  exists bs, encode_payload p = Ok bs /\ l = bs ++ rest /\ payload_wf p.
Proof.
  intros Hd. destruct o; cbn [decode_payload] in Hd; inv_codec; (split; [done|]).
  1: split; [done|]; by apply hello_written.
  10: { apply error_written in Hd0 as (bs & He & Hl & Hw & Hr).
        cbn [remote_payload]. rewrite Hr. eauto. }
  all: split; [done|]; cbn [encode_payload payload_wf].
  - apply offers_written in Hd1 as (bs & He & -> & Hn & Hw). write_back.
    replace (len a0) with a by lia. by written.
  - apply selections_written in Hd1 as (bs & He & -> & Hn & Hw). write_back.
    replace (len a0) with a by lia. by written.
  - write_back. cbn. rewrite Hc. by written.
  - write_back. cbn. rewrite Hc. by written.
  - write_back. rewrite Hc. by written.
  - write_back. by written.
  - write_back. by written.
  - write_back. by written.
  - write_back. by written.
Qed.

(** ** Envelopes *)

#[export] Instance session_id_codec : Codec w_session_id r_session_id (fun _ => True).
Proof.
  split.
  - intros [[v]|] bs rest He _; unfold w_session_id, r_session_id in *; inv_codec.
    + by read_back.
    + read_back.
      assert (w_array (E := LinkControlError) (vreplicate 16 Byte.x00)
              = Ok (replicate 16 Byte.x00)) by done.
      by read_back.
  - intros l v rest Hr. unfold r_session_id in Hr. inv_codec.
    destruct a as [|[?|?|]]; inv_codec; write_back; unfold w_session_id.
    + guards. eexists. split; [by rewrite Henc0|].
      unfold w_array in Henc. inv_codec. split; [|done].
      rewrite <- app_assoc. do 2 f_equal. done.
    + cbn [as_bytes id_size]. by written.
Qed.

Lemma flags_from_bits_Some b f : flags_from_bits b = Some f -> f = mkFlags b.
Proof. unfold flags_from_bits. case_match; [|done]. by intros [= <-]. Qed.

Lemma flags_bound b f : b <= u16_max -> flags_from_bits b = Some f -> flag_bits f <= u16_max.
Proof. by intros ? ->%flags_from_bits_Some. Qed.

(** The fixed header is always 39 bytes. *)
Lemma header_length e n bs : w_header e n = Ok bs -> len bs = CONTROL_HEADER_BYTES.
Proof.
  unfold w_header, w_session_id. intros Hw. inv_codec.
  unfold w_u8, w_u16, w_u32, w_u64, w_uint, w_array in *.
  destruct (session_id e); inv_codec;
    rewrite !length_app, ?be_bytes_length, ?length_vec_to_list; done.
Qed.

Lemma payload_frame p n bs :
  encode_payload p = Ok bs -> payload_wf p -> len bs = n ->
  r_payload (payload_opcode p) n bs = Ok (remote_payload p, []).
Proof.
  intros He Hw <-. unfold r_payload. tests. cbn.
  pose proof (r_take_app truncated bs []) as Ht. rewrite app_nil_r in Ht. rewrite Ht.
  cbn. pose proof (payload_read p bs [] He Hw) as Hr. rewrite app_nil_r in Hr. by rewrite Hr.
Qed.

Lemma payload_unframe o n l p rest :
  r_payload o n l = Ok (p, rest) ->
  rest = [] /\ o = payload_opcode p /\ remote_payload p = p /\ encode_payload p = Ok l
  /\ payload_wf p /\ len l = n.
Proof.
  unfold r_payload. intros Hd. inv_ok. guards. simplify_eq.
  apply r_take_ok in Hd2 as [-> Hn]. rewrite length_app in *.
  apply payload_written in Hd3 as (-> & Hr & bs & He & -> & Hw).
  destruct y0, rest; cbn in *; try lia. rewrite !app_nil_r in *. by split_and!.
Qed.

Lemma magic_read rest : r_magic (CONTROL_MAGIC ++ rest) = Ok ((), rest).
Proof.
  unfold r_magic. change 4 with (len CONTROL_MAGIC).
  by rewrite (reader_bind_eq _ _ _ _ _ (r_take_app truncated CONTROL_MAGIC rest)).
Qed.

Lemma wire_version_read bs rest :
  w_u16 TYPED_CONTROL_WIRE_VERSION = Ok bs ->
  r_wire_version (bs ++ rest) = Ok (TYPED_CONTROL_WIRE_VERSION, rest).
Proof.
  intros He. assert (TYPED_CONTROL_WIRE_VERSION <= u16_max) by done.
  unfold r_wire_version. by read_back.
Qed.

Lemma opcode_read o bs rest :
  w_u16 (opcode_to_u16 o) = Ok bs -> r_opcode (bs ++ rest) = Ok (o, rest).
Proof.
  intros He. destruct (discriminants_bound DomControl RetryNever o) as (_ & _ & ?).
  unfold r_opcode. read_back. apply reader_lift_ok. by rewrite opcode_try_from_to.
Qed.

Lemma flags_read f bs rest :
  w_u16 (flag_bits f) = Ok bs -> flag_bits f <= u16_max ->
  flags_from_bits (flag_bits f) = Some f -> r_flags (bs ++ rest) = Ok (f, rest).
Proof. intros He Hb Hf. unfold r_flags. read_back. apply reader_lift_ok. by rewrite Hf. Qed.

Lemma header_frame e n hdr bs :
  w_header e n = Ok hdr -> wire_version e = TYPED_CONTROL_WIRE_VERSION ->
  request_id e <= u64_max -> flag_bits (env_flags e) <= u16_max ->
  flags_from_bits (flag_bits (env_flags e)) = Some (env_flags e) ->
  n <= MAX_CONTROL_PAYLOAD_BYTES ->
  r_envelope (hdr ++ bs)
  = (p ← r_payload (env_opcode e) n;
     mret (mkEnvelope (wire_version e) (env_opcode e) (request_id e) (session_id e)
             (env_flags e) p)) bs.
Proof.
  destruct e as [v o rid sid f p]. unfold w_header.
  cbn [wire_version env_opcode request_id session_id env_flags]. intros Hh -> Hid Hb Hf Hn. inv_codec. unfold r_envelope.
  rewrite <- !app_assoc.
  erewrite reader_bind_eq by apply magic_read.
  erewrite reader_bind_eq by by apply wire_version_read.
  erewrite reader_bind_eq by by apply opcode_read.
  erewrite reader_bind_eq by by apply flags_read.
  unfold MAX_CONTROL_PAYLOAD_BYTES in *. read_back. by tests.
Qed.

(** A frame decodes to the envelope it encodes, as the peer sees it. *)
Lemma envelope_read guard e wire :
  encode_control_envelope guard e = Ok wire -> envelope_wf e ->
  decode_control_envelope guard wire = Ok (remote_view e).
Proof.
  intros He (Hid & Hb & Hf & Hw). unfold encode_control_envelope in He. inv_ok. guards.
  inv_codec. unfold decode_control_envelope.
  rename select (w_header _ _ = Ok _) into Hh. rename select (validate_typed _ = _) into Hg. rewrite Hg.
  pose proof (header_length _ _ _ Hh) as Hlen. cbn.
  unfold reject_if. rewrite length_app. tests. cbn.
  erewrite header_frame by done. rename select (env_opcode e = _) into Ho. rewrite Ho.
  erewrite reader_bind_eq by by apply payload_frame.
  unfold remote_view. by rewrite Ho.
Qed.

(** The header a decoder accepted is the one the encoder writes. *)
Lemma header_unframe l e rest :
  r_envelope l = Ok (e, rest) ->
  exists hdr body n, l = hdr ++ body /\ w_header e n = Ok hdr
    /\ r_payload (env_opcode e) n body = Ok (payload e, rest)
    /\ wire_version e = TYPED_CONTROL_WIRE_VERSION
    /\ n <= MAX_CONTROL_PAYLOAD_BYTES /\ request_id e <= u64_max
    /\ flag_bits (env_flags e) <= u16_max
    /\ flags_from_bits (flag_bits (env_flags e)) = Some (env_flags e).
Proof.
  intros Hd. unfold r_envelope, r_magic, r_wire_version, r_opcode, r_flags in Hd.
  inv_codec. inv_ok. guards. subst.
  rename select (r_payload _ _ _ = _) into Hp.
  rename select (opcode_try_from _ = _) into Ho. apply opcode_try_from_Ok in Ho as ->.
  rename select (flags_from_bits _ = _) into Hf.
  pose proof (flags_from_bits_Some _ _ Hf) as ->.
  rename select (r_take _ _ _ = _) into Hm. apply r_take_ok in Hm as [-> _].
  generalize dependent Hp. write_back. intros Hp.
  eexists _, _, _. split; cycle 1; [split; cycle 1|].
  - by split_and!.
  - unfold w_header. cbn [wire_version env_opcode request_id session_id env_flags flag_bits].
    repeat first [ rewrite write_then_Ok
                 | match goal with Hx : ?w = Ok _ |- context [?w] => rewrite Hx end ].
    reflexivity.
  - by rewrite <- !app_assoc.
Qed.

Lemma envelope_parts guard l e :
  decode_control_envelope guard l = Ok e ->
  guard_mode guard = TypedV1 /\ exists hdr body, l = hdr ++ body
    /\ w_header e (len body) = Ok hdr /\ encode_payload (payload e) = Ok body
    /\ env_opcode e = payload_opcode (payload e) /\ remote_payload (payload e) = payload e
    /\ wire_version e = TYPED_CONTROL_WIRE_VERSION
    /\ len body <= MAX_CONTROL_PAYLOAD_BYTES /\ envelope_wf e.
Proof.
  unfold decode_control_envelope, validate_typed. intros Hd. inv_ok.
  case_bool_decide; [|done]. split; [done|].
  destruct (r_envelope l) as [[e' rest]|] eqn:Hr; [|done]. simplify_eq/=.
  apply header_unframe in Hr as (hdr & body & n & -> & Hh & Hp & Hv & Hn & Hid & Hb & Hf).
  apply payload_unframe in Hp as (-> & Ho & Hr & He & Hw & <-).
  exists hdr, body. by split_and!.
Qed.

Lemma envelope_cut guard (hdr body : list byte) e (l : list byte) :
  w_header e (len body) = Ok hdr -> guard_mode guard = TypedV1 ->
  wire_version e = TYPED_CONTROL_WIRE_VERSION -> len body <= MAX_CONTROL_PAYLOAD_BYTES ->
  envelope_wf e -> length l <> length body ->
  decode_control_envelope guard (hdr ++ l)
  = Err (if len l <? len body then truncated else trailing_bytes).
Proof.
  intros Hh Hg Hv Hn (Hid & Hb & Hf & _) Hl.
  unfold decode_control_envelope, validate_typed. rewrite bool_decide_true by done.
  pose proof (header_length _ _ _ Hh) as Hlen. cbn. rewrite length_app.
  unfold reject_if. destruct (N.ltb_spec (N.of_nat (length hdr + length l)) CONTROL_HEADER_BYTES); [lia|].
  cbn. rewrite (header_frame e (len body)) by done.
  unfold mbind, reader_bind, r_payload, reject_if.
  destruct (N.ltb_spec (len l) (len body)); [done|]. cbn. by tests.
Qed.
End payloads.

(** ** Properties of the codec *)

(** a typed control envelope that the encoder accepts is decoded back to
    the same envelope by the peer, for every payload and session id; only the
    diagnostic text of an error payload is replaced, as it is never sent. *)
Theorem control_roundtrip `{Sha256} guard e wire :
  encode_control_envelope guard e = Ok wire -> envelope_wf e ->
  decode_control_envelope guard wire = Ok (remote_view e).
Proof. apply envelope_read. Qed.

(** C2: the decoder accepts nothing but the encoder's output: whatever it
    returns has fields within their widths, an opcode that matches the
    payload, and encodes to exactly the bytes received, so no two frames
    decode to one envelope. *)
Theorem control_canonical `{Sha256} guard wire e :
  decode_control_envelope guard wire = Ok e ->
  encode_control_envelope guard e = Ok wire /\ envelope_wf e /\ remote_view e = e
  /\ env_opcode e = payload_opcode (payload e)
  /\ len wire <= CONTROL_HEADER_BYTES + MAX_CONTROL_PAYLOAD_BYTES.
Proof.
  intros (Hg & hdr & body & -> & Hh & He & Ho & Hr & Hv & Hn & Hw)%envelope_parts.
  pose proof (header_length _ _ _ Hh) as Hlen. split_and!; try done.
  - unfold encode_control_envelope, validate_typed, reject_if.
    rewrite bool_decide_true by done. cbn. rewrite Hv, N.eqb_refl. cbn.
    rewrite bool_decide_true by done. cbn. rewrite He. cbn.
    unfold MAX_CONTROL_PAYLOAD_BYTES in *. tests. cbn. by rewrite Hh.
  - destruct e. unfold remote_view. cbn in *. by rewrite Hr.
  - rewrite length_app. lia.
Qed.

(** frames are self-delimiting: cutting an accepted frame anywhere is
    reported as truncation and appending anything to it as trailing bytes. *)
Theorem control_exact_frame `{Sha256} guard wire e :
  decode_control_envelope guard wire = Ok e ->
  (forall n, (n < length wire)%nat ->
     decode_control_envelope guard (take n wire) = Err truncated)
  /\ (forall extra, extra <> [] ->
     decode_control_envelope guard (wire ++ extra) = Err trailing_bytes).
Proof.
  intros (Hg & hdr & body & -> & Hh & He & Ho & Hr & Hv & Hn & Hw)%envelope_parts.
  pose proof (header_length _ _ _ Hh) as Hlen. split.
  - intros n Hlt. rewrite length_app in Hlt. destruct (decide (n < length hdr)%nat).
    + unfold decode_control_envelope, validate_typed, reject_if.
      rewrite bool_decide_true by done. cbn. rewrite length_take, length_app. by tests.
    + rewrite take_app_ge by lia. erewrite envelope_cut by (try done; rewrite length_take; lia).
      rewrite length_take. by tests.
  - intros extra Hx. rewrite <- app_assoc. destruct extra as [|b extra]; [done|].
    erewrite envelope_cut by (try done; rewrite length_app; cbn; lia).
    rewrite length_app. by tests.
Qed.

(** ** Examples *)

(** A stand-in for SHA-256: the bytes of the input, folded into one word. *)
Definition toy_sha256 : Sha256 := fun l =>
  vreplicate 32 (byte_of_n (fold_left (fun acc b => acc * 31 + n_of_byte b) l 7)).

Definition example_debug : ProtocolDebugIdentity := mkDebugIdentity (str "org.example") (str "echo").
Definition example_offer : ProtocolOffer :=
  mkOffer (@debug_stable_id toy_sha256 example_debug) (Some example_debug)
    (mkRange (mkVersion 1 0) (mkVersion 1 3))
    (@schema_for_contract toy_sha256 (str "org.example") (str "echo") 2 (str "contract"))
    (mkCapabilitySet (@debug_stable_id toy_sha256 example_debug) [5; u64_max]).
Definition example_envelope : ControlEnvelope :=
  envelope_typed 9 (Some (id_of SessionKind 3)) FLAG_RESPONSE (POfferProtocols [example_offer]).
Definition typed_guard : ControlModeGuard := mkGuard TypedV1.
Definition example_wire : list byte :=
  match @encode_control_envelope toy_sha256 typed_guard example_envelope with
  | Ok wire => wire | Err _ => []
  end.

Lemma control_roundtrip_witness :
  @decode_control_envelope toy_sha256 typed_guard example_wire = Ok (remote_view example_envelope).
Proof.
  apply (@control_roundtrip toy_sha256); [by vm_compute|].
  split_and!; try done. repeat constructor; done.
Defined.

Lemma control_canonical_witness :
  @encode_control_envelope toy_sha256 typed_guard example_envelope = Ok example_wire.
Proof.
  apply (@control_canonical toy_sha256 typed_guard example_wire example_envelope).
  by vm_compute.
Defined.

Lemma control_exact_frame_witness :
  @decode_control_envelope toy_sha256 typed_guard (take 40 example_wire) = Err truncated.
Proof.
  refine (proj1 (@control_exact_frame toy_sha256 typed_guard example_wire example_envelope _) 40%nat _);
    [by vm_compute|].
  apply Nat.ltb_lt. by vm_compute.
Defined.
