(* ===== verification/DataCodec.v ===== *)
(** * Data envelopes and the compact data codec

    Models [data.rs] of [mutsuki-link-core] with the envelope type of
    [mux.rs].  Unlike the control codec, the decoder reads each field at a
    fixed offset of the frame. *)

From S2P Require Export Control.
Local Open Scope N_scope.

(** ** Envelopes *)

Record EnvelopeFlags := mkEnvFlags { end_of_stream : bool; flag_cancelled : bool }.
#[export] Instance EnvelopeFlags_eq_dec : EqDecision EnvelopeFlags.
Proof. solve_decision. Defined.

Record Envelope := mkEnv {
  env_session_id : SessionId;
  env_channel_id : ChannelId;
  env_generation : ChannelGeneration;
  env_sequence : N;
  env_nesting_depth : N;
  env_data_flags : EnvelopeFlags;
  env_payload : list byte;
}.
#[export] Instance Envelope_eq_dec : EqDecision Envelope.
Proof. solve_decision. Defined.

(** The integers of an envelope fit their fields. *)
Definition data_envelope_wf (e : Envelope) : Prop :=
  env_channel_id e <= u32_max /\ env_generation e <= u32_max
  /\ env_sequence e <= u64_max /\ env_nesting_depth e <= u16_max.

(** ** Modes, limits and errors *)

Definition COMPACT_DATA_WIRE_VERSION : N := 1.
Definition COMPACT_DATA_HEADER_BYTES : N := 47.
Definition DATA_MAGIC : list byte := str "MLDT".
Definition DATA_FRAME_KIND : N := 1.

Inductive DataIdentityMode := LegacyFullChannelKey | CompactV1.
#[export] Instance DataIdentityMode_eq_dec : EqDecision DataIdentityMode.
Proof. solve_decision. Defined.

(** [DataIdentityMode::negotiate]. *)
Definition data_mode_negotiate (control_mode : ControlIdentityMode)
    (capabilities : LinkCapabilities) : DataIdentityMode :=
  if bool_decide (control_mode = TypedV1) && caps_contains capabilities CAP_COMPACT_CHANNEL_ID
  then CompactV1 else LegacyFullChannelKey.

Record DataCodecLimits := mkDataLimits { max_payload_bytes : N; limit_nesting_depth : N }.

Definition default_data_limits : DataCodecLimits := mkDataLimits (1024 * 1024) 32.

Module DataCodecErrorKind.
Inductive t :=
| ModeMismatch | UnsupportedVersion | UnknownFrameKind | InvalidHeader | InvalidFlags
| InvalidChannel | LimitExceeded | Truncated | TrailingBytes.
#[global] Instance t_eq_dec : EqDecision t.
Proof. solve_decision. Defined.
End DataCodecErrorKind.

Record DataCodecError := mkDataError {
  data_error_kind : DataCodecErrorKind.t;
  data_public_message : string;
}.

(** [error]. *)
Definition data_error (kind : DataCodecErrorKind.t) : DataCodecError :=
  mkDataError kind
    match kind with
    | DataCodecErrorKind.ModeMismatch => "data identity mode does not match negotiated session"
    | DataCodecErrorKind.UnsupportedVersion => "unsupported compact data wire version"
    | DataCodecErrorKind.UnknownFrameKind => "unknown Link frame kind"
    | DataCodecErrorKind.InvalidHeader => "invalid compact data header"
    | DataCodecErrorKind.InvalidFlags => "invalid compact data flags"
    | DataCodecErrorKind.InvalidChannel => "compact data channel identity is invalid"
    | DataCodecErrorKind.LimitExceeded => "compact data frame exceeds a resource limit"
    | DataCodecErrorKind.Truncated => "truncated compact data frame"
    | DataCodecErrorKind.TrailingBytes => "compact data frame contains trailing bytes"
    end.

Record DataModeGuard := mkDataGuard { data_guard_mode : DataIdentityMode }.

Definition validate_compact (g : DataModeGuard) : result DataCodecError () :=
  if bool_decide (data_guard_mode g = CompactV1) then Ok ()
  else Err (data_error DataCodecErrorKind.ModeMismatch).
Definition validate_data_legacy (g : DataModeGuard) : result DataCodecError () :=
  if bool_decide (data_guard_mode g = LegacyFullChannelKey) then Ok ()
  else Err (data_error DataCodecErrorKind.ModeMismatch).

(** ** Encoding *)

Definition validate_limits (e : Envelope) (limits : DataCodecLimits) : result DataCodecError () :=
  reject (env_channel_id e =? CONTROL_CHANNEL_ID) || (env_generation e =? 0)
    with data_error DataCodecErrorKind.InvalidChannel;
  reject (max_payload_bytes limits <? len (env_payload e))
         || (limit_nesting_depth limits <? env_nesting_depth e)
    with data_error DataCodecErrorKind.LimitExceeded;
  Ok ().

Definition flags_to_bits (flags : EnvelopeFlags) : N :=
  N.lor (N.b2n (end_of_stream flags)) (N.shiftl (N.b2n (flag_cancelled flags)) 1).

Definition data_flags_from_bits (b : N) : result DataCodecError EnvelopeFlags :=
  reject negb (N.land b (N.lxor 3 u16_max) =? 0) with data_error DataCodecErrorKind.InvalidFlags;
  Ok (mkEnvFlags (negb (N.land b 1 =? 0)) (negb (N.land b 2 =? 0))).

(** The fixed header of a frame whose payload has [n] bytes. *)
Definition data_header (e : Envelope) (n : N) : list byte :=
  DATA_MAGIC ++ be_bytes 2 COMPACT_DATA_WIRE_VERSION ++ [byte_of_n DATA_FRAME_KIND]
  ++ vec_to_list (as_bytes (env_session_id e)) ++ be_bytes 4 (env_channel_id e)
  ++ be_bytes 4 (env_generation e) ++ be_bytes 8 (env_sequence e)
  ++ be_bytes 2 (env_nesting_depth e) ++ be_bytes 2 (flags_to_bits (env_data_flags e))
  ++ be_bytes 4 n.

(** [encode_data_envelope_into]: the caller's buffer is cleared only once
    every check has passed. *)
Definition encode_data_envelope_into (guard : DataModeGuard) (e : Envelope)
    (limits : DataCodecLimits) (output : list byte)
    : list byte * result DataCodecError () :=
  match (_ ← validate_compact guard;
         _ ← validate_limits e limits;
         reject u32_max <? len (env_payload e)
           with data_error DataCodecErrorKind.LimitExceeded;
         Ok (len (env_payload e))) with
  | Ok n => (data_header e n ++ env_payload e, Ok ())
  | Err err => (output, Err err)
  end.

(** [encode_data_envelope]. *)
Definition encode_data_envelope (guard : DataModeGuard) (e : Envelope)
    (limits : DataCodecLimits) : result DataCodecError (list byte) :=
  let '(output, r) := encode_data_envelope_into guard e limits [] in
  _ ← r; Ok output.

(** ** Decoding *)

(** [array_at]. *)
Definition array_at (n : nat) (wire : list byte) (offset : N)
    : result DataCodecError (vec byte n) :=
  s ← ok_or (data_error DataCodecErrorKind.Truncated)
        (slice_get offset (sat_add usize_max offset (N.of_nat n)) wire);
  ok_or (data_error DataCodecErrorKind.Truncated) (to_array n s).

Definition uint_at (n : nat) (wire : list byte) (offset : N) : result DataCodecError N :=
  a ← array_at n wire offset; Ok (from_be_bytes (vec_to_list a)).

(** [wire[i]]; the index is in range once the header length is checked. *)
Definition byte_at (wire : list byte) (i : nat) : byte := default Byte.x00 (wire !! i).

Definition decode_data_envelope (guard : DataModeGuard) (wire : list byte)
    (limits : DataCodecLimits) : result DataCodecError Envelope :=
  _ ← validate_compact guard;
  reject len wire <? COMPACT_DATA_HEADER_BYTES with data_error DataCodecErrorKind.Truncated;
  reject negb (bool_decide (take 4 wire = DATA_MAGIC))
    with data_error DataCodecErrorKind.InvalidHeader;
  let version := from_be_bytes [byte_at wire 4; byte_at wire 5] in
  reject negb (version =? COMPACT_DATA_WIRE_VERSION)
    with data_error DataCodecErrorKind.UnsupportedVersion;
  reject negb (n_of_byte (byte_at wire 6) =? DATA_FRAME_KIND)
    with data_error DataCodecErrorKind.UnknownFrameKind;
  session_id ← array_at 16 wire 7;
  channel_id ← uint_at 4 wire 23;
  generation ← uint_at 4 wire 27;
  reject (channel_id =? CONTROL_CHANNEL_ID) || (generation =? 0)
    with data_error DataCodecErrorKind.InvalidChannel;
  sequence ← uint_at 8 wire 31;
  nesting_depth ← uint_at 2 wire 39;
  reject limit_nesting_depth limits <? nesting_depth
    with data_error DataCodecErrorKind.LimitExceeded;
  bits ← uint_at 2 wire 41;
  flags ← data_flags_from_bits bits;
  payload_len ← uint_at 4 wire 43;
  reject max_payload_bytes limits <? payload_len
    with data_error DataCodecErrorKind.LimitExceeded;
  expected ← ok_or (data_error DataCodecErrorKind.LimitExceeded)
               (checked_add usize_max COMPACT_DATA_HEADER_BYTES payload_len);
  reject len wire <? expected with data_error DataCodecErrorKind.Truncated;
  reject negb (len wire =? expected) with data_error DataCodecErrorKind.TrailingBytes;
  Ok (mkEnv (from_bytes (k := SessionKind) session_id) channel_id generation sequence
        nesting_depth flags (drop (N.to_nat COMPACT_DATA_HEADER_BYTES) wire)).
