(* ===== verification/DataCodecFacts.v ===== *)
(** * Round trips of the compact data codec *)

From S2P Require Export DataCodec.
Local Open Scope N_scope.

(** ** Fields at an offset *)

Lemma array_at_drop n wire off v :
  array_at n wire off = Ok v ->
  drop (N.to_nat off) wire = vec_to_list v ++ drop (N.to_nat (off + N.of_nat n)) wire.
Proof.
  unfold array_at. intros Ha. inv_ok. apply to_array_Some in Ha. subst.
  pose proof (length_vec_to_list v) as Hn.
  unfold slice_get in Ha0. case_decide as Hc; [|done]. injection Ha0 as Hs.
  rewrite <- Hs in *. rewrite length_take, length_drop in Hn.
  assert (sat_add usize_max off (N.of_nat n) = off + N.of_nat n) as E.
  { unfold sat_add in *. lia. }
  rewrite E in *. rewrite <- (take_drop (N.to_nat (off + N.of_nat n - off)) (drop _ wire)) at 1.
  f_equal. rewrite drop_drop. f_equal. lia.
Qed.

Lemma uint_at_drop n wire off x :
  uint_at n wire off = Ok x ->
  x < 256 ^ N.of_nat n /\
  drop (N.to_nat off) wire = be_bytes n x ++ drop (N.to_nat (off + N.of_nat n)) wire.
Proof.
  unfold uint_at. intros Ha. inv_ok. apply array_at_drop in Ha0 as ->.
  pose proof (length_vec_to_list a) as Hn. split.
  - pose proof (from_be_bytes_bound (vec_to_list a)) as Hb. by rewrite Hn in Hb.
  - by rewrite be_bytes_from.
Qed.

Lemma byte_at_drop wire i :
  (i < length wire)%nat -> drop i wire = byte_at wire i :: drop (S i) wire.
Proof.
  intros Hi. unfold byte_at. destruct (wire !! i) eqn:E; [by apply drop_S|].
  apply lookup_ge_None in E. lia.
Qed.

(** The header as the list of its fields. *)
Definition header_fields (e : Envelope) (n : N) : list (list byte) :=
  [DATA_MAGIC; be_bytes 2 COMPACT_DATA_WIRE_VERSION; [byte_of_n DATA_FRAME_KIND];
   vec_to_list (as_bytes (env_session_id e)); be_bytes 4 (env_channel_id e);
   be_bytes 4 (env_generation e); be_bytes 8 (env_sequence e);
   be_bytes 2 (env_nesting_depth e); be_bytes 2 (flags_to_bits (env_data_flags e));
   be_bytes 4 n].

Lemma data_header_fields e n : data_header e n = mjoin (header_fields e n).
Proof. unfold data_header, header_fields. cbn [mjoin list_join]. by rewrite app_nil_r. Qed.

Lemma data_header_length e n : length (data_header e n) = 47%nat.
Proof.
  unfold data_header. repeat rewrite length_app. by rewrite !be_bytes_length, length_vec_to_list.
Qed.

Lemma field_split (fields : list (list byte)) payload k f :
  fields !! k = Some f ->
  mjoin fields ++ payload
  = mjoin (take k fields) ++ f ++ (mjoin (drop (S k) fields) ++ payload).
Proof.
  intros Hk. rewrite <- (take_drop_middle fields k f) at 1 by done.
  rewrite join_app, <- !app_assoc. f_equal.
  change (mjoin (f :: drop (S k) fields)) with (f ++ mjoin (drop (S k) fields)).
  by rewrite <- app_assoc.
Qed.

Section fields.
Context (e : Envelope) (n : N) (payload : list byte).

Lemma array_at_field k off w (v : vec byte w) :
  header_fields e n !! k = Some (vec_to_list v) ->
  len (mjoin (take k (header_fields e n))) = off -> off + N.of_nat w <= usize_max ->
  array_at w (data_header e n ++ payload) off = Ok v.
Proof.
  intros Hk <- Hu. rewrite data_header_fields, (field_split _ _ k _ Hk).
  unfold array_at, sat_add. rewrite N.min_r by done.
  erewrite slice_get_app; [|done|by rewrite length_vec_to_list]. cbn.
  by rewrite to_array_vec.
Qed.

Lemma uint_at_field k off w x :
  header_fields e n !! k = Some (be_bytes w x) ->
  len (mjoin (take k (header_fields e n))) = off -> off + N.of_nat w <= usize_max ->
  x < 256 ^ N.of_nat w ->
  uint_at w (data_header e n ++ payload) off = Ok x.
Proof.
  intros Hk Ho Hu Hx. unfold uint_at.
  destruct (to_array_length w (be_bytes w x) (be_bytes_length w x)) as [v Hv].
  apply to_array_Some in Hv.
  erewrite array_at_field; [|by rewrite Hv|done|done]. cbn.
  by rewrite Hv, from_be_bytes_small.
Qed.
End fields.

Lemma data_flags_roundtrip f : data_flags_from_bits (flags_to_bits f) = Ok f.
Proof. by destruct f as [[] []]. Qed.

Lemma data_flags_from_bits_Ok b f :
  b <= u16_max -> data_flags_from_bits b = Ok f -> flags_to_bits f = b.
Proof.
  intros Hb Hf. unfold data_flags_from_bits in Hf. inv_ok. guards.
  assert (b < 4) as Hlt.
  { assert (b = N.land b 3) as ->; [|change 3 with (N.ones 2);
      rewrite N.land_ones; by apply N.mod_upper_bound].
    apply N.bits_inj. intros i. rewrite N.land_spec.
    destruct (N.testbit b i) eqn:Hi; [|done]. symmetry.
    apply (f_equal (fun x => N.testbit x i)) in Hf0.
    rewrite N.land_spec, Hi, N.bits_0, N.lxor_spec in Hf0.
    assert (i < 16) as Hi16.
    { destruct (N.lt_ge_cases i 16); [done|].
      rewrite (N.bits_above_log2 b i) in Hi; [done|].
      destruct (N.eq_dec b 0) as [->|]; [by rewrite N.bits_0 in Hi|].
      apply N.log2_lt_pow2; [lia|].
      enough (2 ^ 16 <= 2 ^ i) by lia. by apply N.pow_le_mono_r. }
    change u16_max with (N.ones 16) in Hf0. rewrite N.ones_spec_low in Hf0 by done.
    by destruct (N.testbit 3 i). }
  destruct b as [|[[?|?|]|[?|?|]|]]; cbn in *; try lia; done.
Qed.

(** ** Encoding and decoding *)

Lemma validate_compact_ok g : data_guard_mode g = CompactV1 -> validate_compact g = Ok ().
Proof. intros Hg. unfold validate_compact. by rewrite bool_decide_true. Qed.

Lemma encode_ok guard e limits wire :
  encode_data_envelope guard e limits = Ok wire <->
  wire = data_header e (len (env_payload e)) ++ env_payload e
  /\ data_guard_mode guard = CompactV1 /\ env_channel_id e <> CONTROL_CHANNEL_ID
  /\ env_generation e <> 0 /\ len (env_payload e) <= max_payload_bytes limits
  /\ env_nesting_depth e <= limit_nesting_depth limits /\ len (env_payload e) <= u32_max.
Proof.
  unfold encode_data_envelope, encode_data_envelope_into, validate_compact, validate_limits,
    reject_if.
  split.
  - repeat case_match; intros He; simplify_eq/=; guards;
      repeat (case_match; simplify_eq/=); guards; done.
  - intros (-> & ? & ? & ? & ? & ? & ?). rewrite bool_decide_true by done. cbn.
    tests. cbn. tests. cbn. by tests.
Qed.

(** The place of a field in the header. *)
Local Ltac field :=
  first [ done
        | cbn [header_fields take mjoin list_join];
          rewrite ?length_app, ?be_bytes_length, ?length_vec_to_list; done
        | lia ].

(** Every field that the decoder reads, once the frame is long enough for its
    header; what remains is the payload. *)
Lemma decode_frame guard e limits payload :
  data_guard_mode guard = CompactV1 -> env_channel_id e <> CONTROL_CHANNEL_ID ->
  env_generation e <> 0 -> len (env_payload e) <= max_payload_bytes limits ->
  env_nesting_depth e <= limit_nesting_depth limits -> len (env_payload e) <= u32_max ->
  data_envelope_wf e ->
  decode_data_envelope guard (data_header e (len (env_payload e)) ++ payload) limits
  = if len payload <? len (env_payload e) then Err (data_error DataCodecErrorKind.Truncated)
    else if len payload =? len (env_payload e)
         then Ok (mkEnv (env_session_id e) (env_channel_id e) (env_generation e)
                    (env_sequence e) (env_nesting_depth e) (env_data_flags e) payload)
         else Err (data_error DataCodecErrorKind.TrailingBytes).
Proof.
  intros Hg Hc Hgen Hp Hn Hu (W1 & W2 & W3 & W4).
  unfold decode_data_envelope. rewrite validate_compact_ok by done. cbn [mbind result_bind].
  set (n := len (env_payload e)) in *.
  assert (len (data_header e n ++ payload) = 47 + len payload) as Hlen.
  { rewrite length_app, data_header_length. lia. }
  rewrite reject_pass by (apply N.ltb_ge; unfold COMPACT_DATA_HEADER_BYTES; lia).
  rewrite !reject_pass by done.
  rewrite (array_at_field e n payload 3 7 16 (as_bytes (env_session_id e))) by field.
  rewrite (uint_at_field e n payload 4 23 4 (env_channel_id e)) by field.
  rewrite (uint_at_field e n payload 5 27 4 (env_generation e)) by field.
  cbn [mbind result_bind]. rewrite reject_pass by (apply orb_false_iff; split; by apply N.eqb_neq).
  rewrite (uint_at_field e n payload 6 31 8 (env_sequence e)) by field.
  rewrite (uint_at_field e n payload 7 39 2 (env_nesting_depth e)) by field.
  cbn [mbind result_bind]. rewrite reject_pass by (apply N.ltb_ge; lia).
  rewrite (uint_at_field e n payload 8 41 2 (flags_to_bits (env_data_flags e)))
    by (try field; by destruct (env_data_flags e) as [[] []]).
  cbn [mbind result_bind]. rewrite data_flags_roundtrip. cbn [mbind result_bind].
  rewrite (uint_at_field e n payload 9 43 4 n) by field.
  cbn [mbind result_bind]. rewrite reject_pass by (apply N.ltb_ge; lia).
  unfold checked_add, COMPACT_DATA_HEADER_BYTES. rewrite decide_True by lia.
  cbn [ok_or mbind result_bind]. rewrite Hlen.
  destruct (N.ltb_spec (len payload) n).
  { by rewrite reject_hit by (apply N.ltb_lt; lia). }
  rewrite reject_pass by (apply N.ltb_ge; lia).
  destruct (N.eqb_spec (len payload) n).
  - rewrite reject_pass by (apply negb_false_iff, N.eqb_eq; lia).
    rewrite drop_app_length' by (by rewrite data_header_length).
    by destruct (env_session_id e).
  - by rewrite reject_hit by (apply negb_true_iff, N.eqb_neq; lia).
Qed.

Lemma decode_parts guard wire limits e :
  decode_data_envelope guard wire limits = Ok e ->
  wire = data_header e (len (env_payload e)) ++ env_payload e
  /\ data_guard_mode guard = CompactV1 /\ env_channel_id e <> CONTROL_CHANNEL_ID
  /\ env_generation e <> 0 /\ len (env_payload e) <= max_payload_bytes limits
  /\ env_nesting_depth e <= limit_nesting_depth limits /\ len (env_payload e) <= u32_max
  /\ data_envelope_wf e.
Proof.
  unfold decode_data_envelope. intros Hd. inv_ok. guards.
  unfold validate_compact in *. case_bool_decide; [|done].
  unfold checked_add, COMPACT_DATA_HEADER_BYTES in *. case_decide; simplify_eq.
  repeat match goal with
  | Ha : array_at _ _ _ = Ok _ |- _ => apply array_at_drop in Ha
  | Ha : uint_at _ _ _ = Ok _ |- _ => apply uint_at_drop in Ha as [? Ha]
  end.
  assert (len (drop 47 wire) = len wire - 47) as Hlen by (rewrite length_drop; lia).
  assert (a13 = len wire - 47) as -> by lia.
  change (256 ^ N.of_nat 2) with 65536 in *. change (256 ^ N.of_nat 4) with 4294967296 in *.
  change (256 ^ N.of_nat 8) with 18446744073709551616 in *.
  unfold data_envelope_wf.
  cbn [env_session_id env_channel_id env_generation env_sequence env_nesting_depth
       env_data_flags env_payload as_bytes].
  change (N.to_nat 47) with 47%nat. rewrite Hlen.
  split; [|split_and!; try done; lia].
  assert (flags_to_bits a12 = a11) as Hf by (by apply data_flags_from_bits_Ok; [lia|]).
  assert (be_bytes 2 COMPACT_DATA_WIRE_VERSION = [byte_at wire 4; byte_at wire 5]) as Hv.
  { rewrite <- Hd3. by apply be_bytes_from. }
  assert (byte_of_n DATA_FRAME_KIND = byte_at wire 6) as Hk.
  { rewrite <- Hd4. apply byte_of_n_of_byte. }
  unfold data_header.
  cbn [env_session_id env_channel_id env_generation env_sequence env_nesting_depth
       env_data_flags env_payload as_bytes].
  rewrite Hf, Hv, Hk, <- Hd2, <- !app_assoc.
  rewrite <- (take_drop 4 wire) at 1. f_equal.
  rewrite (byte_at_drop wire 4), (byte_at_drop wire 5), (byte_at_drop wire 6) by lia. cbn [app]. do 3 f_equal.
  etrans; [exact Hd5|]. f_equal. etrans; [exact Hd6|]. f_equal. etrans; [exact Hd7|]. f_equal.
  etrans; [exact Hd9|]. f_equal. etrans; [exact Hd10|]. f_equal.
  etrans; [exact Hd12|]. f_equal. exact Hd14.
Qed.

(** ** Properties of the compact codec *)

(** a data envelope the encoder accepts is decoded back unchanged by a
    peer with the same limits, and the frame does not depend on what the
    caller's reused buffer held. *)
Theorem data_roundtrip guard e limits output wire :
  encode_data_envelope_into guard e limits output = (wire, Ok ()) -> data_envelope_wf e ->
  decode_data_envelope guard wire limits = Ok e
  /\ encode_data_envelope guard e limits = Ok wire.
Proof.
  intros He Hw.
  assert (encode_data_envelope guard e limits = Ok wire) as He'.
  { unfold encode_data_envelope, encode_data_envelope_into in *.
    case_match; simplify_eq/=. done. }
  split; [|done]. apply encode_ok in He' as (-> & ? & ? & ? & ? & ? & ?).
  rewrite decode_frame by done. rewrite N.ltb_irrefl, N.eqb_refl. by destruct e.
Qed.

(** C22: every frame the compact decoder accepts is the frame its result
    encodes to, never on the control channel or generation zero, within the
    limits; cutting it anywhere or appending to it is an error. *)
Theorem data_canonical guard wire limits e :
  decode_data_envelope guard wire limits = Ok e ->
  encode_data_envelope guard e limits = Ok wire /\ data_envelope_wf e
  /\ env_channel_id e <> CONTROL_CHANNEL_ID /\ env_generation e <> 0
  /\ (forall n, (n < length wire)%nat ->
        decode_data_envelope guard (take n wire) limits
        = Err (data_error DataCodecErrorKind.Truncated))
  /\ (forall extra, extra <> [] ->
        decode_data_envelope guard (wire ++ extra) limits
        = Err (data_error DataCodecErrorKind.TrailingBytes)).
Proof.
  intros (Hwire & Hg & Hc & Hgen & Hp & Hn & Hu & Hw)%decode_parts.
  pose proof (data_header_length e (len (env_payload e))) as Hlen.
  split_and!; try done.
  - apply encode_ok. by split_and!.
  - intros n Hlt. rewrite Hwire in *. rewrite length_app in Hlt.
    destruct (decide (n < 47)%nat).
    + unfold decode_data_envelope. rewrite validate_compact_ok by done.
      cbn [mbind result_bind]. apply reject_hit, N.ltb_lt. rewrite length_take, length_app.
      unfold COMPACT_DATA_HEADER_BYTES. lia.
    + rewrite take_app_ge by lia. rewrite decode_frame by done.
      rewrite length_take. case_match; [done|]. guards. lia.
  - intros [|b extra] Hx; [done|]. rewrite Hwire, <- app_assoc, decode_frame by done.
    rewrite length_app. cbn [length]. by tests.
Qed.

(** ** The golden vector of the test suite *)

Definition golden_envelope : Envelope :=
  mkEnv (id_of SessionKind 0xaa) 0x01020304 0x05060708 0x1112131415161718 2
    (mkEnvFlags true false) [Byte.xde; Byte.xad; Byte.xbe; Byte.xef].
Definition compact_guard : DataModeGuard := mkDataGuard CompactV1.
Definition golden_wire : list byte :=
  be_bytes 23 0x4d4c4454000101aaaaaaaaaaaaaaaaaaaaaaaaaaaaaaaa
  ++ be_bytes 28 0x010203040506070811121314151617180002000100000004deadbeef.

Lemma golden_vector :
  encode_data_envelope compact_guard golden_envelope default_data_limits = Ok golden_wire.
Proof. by vm_compute. Qed.

Lemma data_roundtrip_witness :
  decode_data_envelope compact_guard golden_wire default_data_limits = Ok golden_envelope
  /\ encode_data_envelope compact_guard golden_envelope default_data_limits = Ok golden_wire.
Proof.
  apply (data_roundtrip compact_guard golden_envelope default_data_limits [Byte.x00]);
    [by vm_compute|]. split_and!; by vm_compute.
Defined.

Lemma data_canonical_witness :
  encode_data_envelope compact_guard golden_envelope default_data_limits = Ok golden_wire.
Proof.
  apply (data_canonical compact_guard golden_wire default_data_limits golden_envelope).
  by vm_compute.
Defined.
