(* ===== verification/ChannelMap.v ===== *)
(** * The session channel table

    Models [SessionChannelMap] of [control.rs]: the authenticated mapping
    between the channels of a protocol and the channels of the session. *)

From S2P Require Export Control.
Local Open Scope N_scope.

Abbreviation ProtocolKey := (ProtocolStableId * ProtocolChannelId)%type.

Record SessionChannelBinding := mkBinding {
  binding_channel_id : ChannelId;
  binding_generation : ChannelGeneration;
}.
#[export] Instance SessionChannelBinding_eq_dec : EqDecision SessionChannelBinding.
Proof. solve_decision. Defined.

Record SessionChannelMap := mkChannelMap {
  map_maximum : N;
  by_protocol : gmap ProtocolKey SessionChannelBinding;
  by_session : gmap ChannelId (ProtocolKey * ChannelGeneration);
  map_retired : gset ChannelId;
}.

(** [SessionChannelMap::new]. *)
Definition channel_map_new (maximum : N) : result LinkControlError SessionChannelMap :=
  reject (maximum =? 0) || (MAX_SESSION_CHANNEL_MAPPINGS <? maximum) with limit_exceeded;
  Ok (mkChannelMap maximum ∅ ∅ ∅).

(** The key of an accepted channel. *)
Definition accepted_key (accepted : AcceptChannel) : ProtocolKey :=
  (acc_protocol_id accepted, acc_protocol_channel_id accepted).

Definition validate_bind (m : SessionChannelMap) (accepted : AcceptChannel)
    : result LinkControlError () :=
  reject (acc_protocol_channel_id accepted =? 0) || (acc_session_channel_id accepted =? 0)
    with invalid_channel_mapping;
  reject bool_decide (is_Some (by_protocol m !! accepted_key accepted))
         || bool_decide (is_Some (by_session m !! acc_session_channel_id accepted))
         || bool_decide (acc_session_channel_id accepted ∈ map_retired m)
    with duplicate_channel_mapping;
  reject map_maximum m <=? sat_add usize_max (card (by_protocol m)) (card (map_retired m))
    with channel_mapping_limit;
  Ok ().

Definition bind_validated (m : SessionChannelMap) (accepted : AcceptChannel)
    : SessionChannelMap * SessionChannelBinding :=
  let binding := mkBinding (acc_session_channel_id accepted) GENERATION_INITIAL in
  (mkChannelMap (map_maximum m)
     (<[accepted_key accepted := binding]> (by_protocol m))
     (<[acc_session_channel_id accepted := (accepted_key accepted, binding_generation binding)]>
        (by_session m))
     (map_retired m),
   binding).

(** [SessionChannelMap::bind]. *)
Definition channel_bind (m : SessionChannelMap) (accepted : AcceptChannel)
    : SessionChannelMap * result LinkControlError SessionChannelBinding :=
  match validate_bind m accepted with
  | Ok _ => let '(m, binding) := bind_validated m accepted in (m, Ok binding)
  | Err e => (m, Err e)
  end.

Definition session_channel (m : SessionChannelMap) (key : ProtocolKey) : option ChannelId :=
  binding_channel_id <$> by_protocol m !! key.
Definition channel_binding (m : SessionChannelMap) (key : ProtocolKey)
    : option SessionChannelBinding :=
  by_protocol m !! key.
Definition protocol_channel (m : SessionChannelMap) (id : ChannelId) : option ProtocolKey :=
  fst <$> by_session m !! id.
Definition session_binding (m : SessionChannelMap) (id : ChannelId)
    : option (ProtocolKey * ChannelGeneration) :=
  by_session m !! id.

(** [SessionChannelMap::unbind]. *)
Definition channel_unbind (m : SessionChannelMap) (id : ChannelId)
    : SessionChannelMap * option ProtocolKey :=
  match by_session m !! id with
  | Some (key, _) =>
    (mkChannelMap (map_maximum m) (delete key (by_protocol m)) (delete id (by_session m))
       ({[id]} ∪ map_retired m), Some key)
  | None => (m, None)
  end.

Definition channel_map_len (m : SessionChannelMap) : N := card (by_protocol m).
Definition channel_map_is_empty (m : SessionChannelMap) : bool := bool_decide (by_protocol m = ∅).

(** ** What the table keeps *)

(** The two indexes are inverse to each other; no retired channel is bound;
    the table, retired channels included, is bounded. *)
Record channel_map_wf (m : SessionChannelMap) : Prop := {
  wf_maximum : map_maximum m <= MAX_SESSION_CHANNEL_MAPPINGS;
  wf_inverse key id gen :
    by_protocol m !! key = Some (mkBinding id gen) <-> by_session m !! id = Some (key, gen);
  wf_nonzero key id gen : by_session m !! id = Some (key, gen) -> key.2 <> 0 /\ id <> 0 /\ gen <> 0;
  wf_retired id : id ∈ map_retired m -> by_session m !! id = None;
  wf_bound : card (by_protocol m) + card (map_retired m) <= map_maximum m;
}.

(** The operations a peer's control frames trigger. *)
Inductive map_op := MBind (accepted : AcceptChannel) | MUnbind (id : ChannelId).

Definition map_step (m : SessionChannelMap) (op : map_op) : SessionChannelMap :=
  match op with
  | MBind accepted => (channel_bind m accepted).1
  | MUnbind id => (channel_unbind m id).1
  end.
Definition map_run (m : SessionChannelMap) (ops : list map_op) : SessionChannelMap :=
  foldl map_step m ops.

(** ** The table is a bounded bijection that never rebinds *)

Lemma channel_map_new_wf maximum m :
  channel_map_new maximum = Ok m -> channel_map_wf m /\ map_maximum m = maximum.
Proof.
  intros Hn. unfold channel_map_new in Hn. inv_ok. guards. split; [|done].
  split; cbn [map_maximum by_protocol by_session map_retired].
  - done.
  - intros key id gen. by rewrite !lookup_empty.
  - intros key id gen. by rewrite lookup_empty.
  - done.
  - rewrite map_size_empty, size_empty. lia.
Qed.

(** The conditions under which a channel is bound. *)
Lemma validate_bind_ok m accepted :
  map_maximum m <= MAX_SESSION_CHANNEL_MAPPINGS ->
  (validate_bind m accepted = Ok () <->
  acc_protocol_channel_id accepted <> 0 /\ acc_session_channel_id accepted <> 0
  /\ by_protocol m !! accepted_key accepted = None
  /\ by_session m !! acc_session_channel_id accepted = None
  /\ (acc_session_channel_id accepted ∉ map_retired m)
  /\ card (by_protocol m) + card (map_retired m) < map_maximum m).
Proof.
  unfold MAX_SESSION_CHANNEL_MAPPINGS, validate_bind. intros Hmax.
  split.
  - intros Hv. inv_ok. guards. unfold sat_add in *. split_and!; try done.
    all: try by apply eq_None_not_Some.
    unfold MAX_SESSION_CHANNEL_MAPPINGS in *. lia.
  - intros (? & ? & H1 & H2 & ? & ?). rewrite H1, H2.
    rewrite !bool_decide_false by (try apply is_Some_None; done).
    unfold reject_if, sat_add. tests. done.
Qed.

Lemma bind_validated_wf m accepted :
  channel_map_wf m -> validate_bind m accepted = Ok () ->
  channel_map_wf (bind_validated m accepted).1.
Proof.
  intros [Wm Wi Wn Wr Wb] Hv. apply validate_bind_ok in Hv as (H1 & H2 & H3 & H4 & H5 & H6); [|done].
  split; cbn [bind_validated fst map_maximum by_protocol by_session map_retired binding_generation].
  - done.
  - intros key id gen. rewrite !lookup_insert_Some, Wi. split.
    + intros [[<- [= <- <-]]|[Hk Hs]]; [by left|]. right. split; [|done]. intros <-. congruence.
    + intros [[<- [= <- <-]]|[Hk Hs]]; [by left|]. right. split; [|done]. intros <-.
      apply Wi in Hs. congruence.
  - intros key id gen. rewrite lookup_insert_Some. intros [[<- [= <- <-]]|[_ Hs]]; [done|eauto].
  - intros id Hid. rewrite lookup_insert_ne by (by intros <-). auto.
  - rewrite map_size_insert_None by done. lia.
Qed.

Lemma unbind_wf m id : channel_map_wf m -> channel_map_wf (channel_unbind m id).1.
Proof.
  intros [Wm Wi Wn Wr Wb]. unfold channel_unbind.
  destruct (by_session m !! id) as [[key gen]|] eqn:Hs; [|done]. cbn.
  assert (by_protocol m !! key = Some (mkBinding id gen)) as Hp by (by apply Wi).
  split; cbn [map_maximum by_protocol by_session map_retired].
  - done.
  - intros key' id' gen'. rewrite !lookup_delete_Some, Wi. split.
    + intros [Hk Hs']. split; [|done]. intros <-. congruence.
    + intros [Hk Hs']. split; [|done]. intros <-. apply Wi in Hs'. congruence.
  - intros key' id' gen'. rewrite lookup_delete_Some. intros [_ ?]; eauto.
  - intros id' [->%elem_of_singleton|Hid]%elem_of_union; [apply lookup_delete_eq|].
    apply lookup_delete_None. auto.
  - assert (id ∉ map_retired m) by (intros Hr%Wr; congruence).
    rewrite map_size_delete_Some by eauto. rewrite size_union, size_singleton by set_solver.
    assert (size (by_protocol m) <> 0%nat); [|lia].
    apply map_size_non_empty_iff. intros He. by rewrite He in Hp.
Qed.

Lemma map_step_wf m op : channel_map_wf m -> channel_map_wf (map_step m op).
Proof.
  intros Hm. destruct op as [accepted|id]; cbn; [|by apply unbind_wf].
  unfold channel_bind. destruct (validate_bind m accepted) as [[]|] eqn:Hv; [|done].
  by pose proof (bind_validated_wf _ _ Hm Hv).
Qed.

Lemma map_run_wf ops m : channel_map_wf m -> channel_map_wf (map_run m ops).
Proof.
  unfold map_run. revert m. induction ops as [|op ops IH]; intros m Hm; [done|].
  cbn. by apply IH, map_step_wf.
Qed.

Lemma map_step_maximum m op : map_maximum (map_step m op) = map_maximum m.
Proof.
  destruct op as [accepted|id]; cbn; unfold channel_bind, channel_unbind.
  - by destruct (validate_bind m accepted).
  - by destruct (by_session m !! id) as [[]|].
Qed.

(** A retired channel stays retired and unbound whatever follows. *)
Lemma map_step_retired m op id :
  id ∈ map_retired m -> id ∈ map_retired (map_step m op).
Proof.
  intros Hid. destruct op as [accepted|id']; cbn.
  - unfold channel_bind. by destruct (validate_bind m accepted).
  - unfold channel_unbind. destruct (by_session m !! id') as [[]|]; [set_solver|done].
Qed.

Lemma map_run_retired ops m id : id ∈ map_retired m -> id ∈ map_retired (map_run m ops).
Proof.
  unfold map_run. revert m. induction ops as [|op ops IH]; intros m Hid; [done|].
  cbn. by apply IH, map_step_retired.
Qed.

(** ** Properties *)

(** from a new table, whatever bind and unbind requests the peer sends,
    protocol channels and session channels stay in one-to-one correspondence
    (the two lookups are inverse), neither side of a binding is zero, and
    bound plus retired channels never exceed the configured maximum. *)
Theorem channel_map_bijection maximum m0 ops key id :
  channel_map_new maximum = Ok m0 ->
  let m := map_run m0 ops in
  (session_channel m key = Some id <-> protocol_channel m id = Some key)
  /\ (protocol_channel m id = Some key -> key.2 <> 0 /\ id <> 0)
  /\ channel_map_len m + card (map_retired m) <= maximum.
Proof.
  intros [Hw Hmax]%channel_map_new_wf m.
  assert (map_maximum m = maximum) as Hm.
  { subst m. clear -Hmax. unfold map_run. revert m0 Hmax.
    induction ops as [|op ops IH]; intros m0 Hmax; [done|]. cbn. apply IH.
    by rewrite map_step_maximum. }
  apply (map_run_wf ops) in Hw as [Wm Wi Wn Wr Wb]. fold m in Wm, Wi, Wn, Wr, Wb.
  unfold session_channel, protocol_channel, channel_map_len. rewrite <- Hm.
  split; [|split]; [| |done].
  - rewrite !fmap_Some. split.
    + intros ([i g] & Hp & ->). exists (key, g). split; [by apply Wi|done].
    + intros ([k g] & Hs & ->). exists (mkBinding id g). split; [by apply Wi|done].
  - rewrite fmap_Some. intros ([k g] & Hs & ->). apply Wn in Hs. naive_solver.
Qed.

Lemma bind_refused m accepted :
  channel_map_wf m ->
  is_Some (channel_binding m (accepted_key accepted))
  \/ is_Some (session_binding m (acc_session_channel_id accepted))
  \/ acc_session_channel_id accepted ∈ map_retired m ->
  exists e, channel_bind m accepted = (m, Err e).
Proof.
  intros Hw Hc.
  unfold channel_bind. destruct (validate_bind m accepted) as [[]|e] eqn:Hv; [|by eexists].
  apply validate_bind_ok in Hv as (H1 & H2 & H3 & H4 & H5 & H6); [|by destruct Hw].
  unfold channel_binding, session_binding in Hc. rewrite H3, H4 in Hc.
  by destruct Hc as [[? ?]|[[? ?]|Hr]].
Qed.

Lemma unbind_retires m m1 id key : channel_unbind m id = (m1, Some key) -> id ∈ map_retired m1.
Proof.
  unfold channel_unbind. destruct (by_session m !! id) as [[]|]; [|done].
  intros [= <- <-]. set_solver.
Qed.

(** a binding is never silently replaced: a bind request that names a
    protocol or session channel already bound fails and leaves the table
    unchanged, and so does every later request for a session channel that
    was unbound, however many frames come in between. *)
Theorem channel_never_rebound m accepted :
  channel_map_wf m ->
  (is_Some (channel_binding m (accepted_key accepted))
   \/ is_Some (session_binding m (acc_session_channel_id accepted)) ->
   exists e, channel_bind m accepted = (m, Err e))
  /\ (forall m1 key ops,
        channel_unbind m (acc_session_channel_id accepted) = (m1, Some key) ->
        exists e, channel_bind (map_run m1 ops) accepted = (map_run m1 ops, Err e)).
Proof.
  intros Hw. split.
  - intros [?|?]; apply bind_refused; auto.
  - intros m1 key ops Hu. apply bind_refused.
    + apply map_run_wf. pose proof (unbind_wf m (acc_session_channel_id accepted) Hw) as Hw1.
      by rewrite Hu in Hw1.
    + do 2 right. by eapply map_run_retired, unbind_retires.
Qed.

(** ** Examples *)

Definition example_map : SessionChannelMap := mkChannelMap 4 ∅ ∅ ∅.
Definition example_key : ProtocolStableId := mkStableId (vreplicate 16 Byte.x07).

Lemma channel_map_bijection_witness :
  session_channel (map_run example_map [MBind (mkAcceptChannel example_key 2 9)])
    (example_key, 2) = Some 9.
Proof.
  apply (channel_map_bijection 4 example_map [MBind (mkAcceptChannel example_key 2 9)]
           (example_key, 2) 9); [by vm_compute|].
  by vm_compute.
Defined.

Lemma channel_never_rebound_witness :
  let m := map_run example_map [MBind (mkAcceptChannel example_key 2 9)] in
  exists e, channel_bind (map_run m [MUnbind 9; MUnbind 4]) (mkAcceptChannel example_key 3 9)
            = (map_run m [MUnbind 9; MUnbind 4], Err e).
Proof.
  intros m.
  refine (proj2 (channel_never_rebound m (mkAcceptChannel example_key 3 9) _)
            (map_run m [MUnbind 9]) (example_key, 2) [MUnbind 4] _).
  - apply map_run_wf, (channel_map_new_wf 4). done.
  - done.
Defined.
