(* ===== verification/Mux.v ===== *)
(** * The channel multiplexer

    Models [mux.rs]: per-channel bounded queues, a separate bounded control
    queue, and the weighted fair choice of the next outbound frame. *)

From S2P Require Export DataCodec.
Local Open Scope N_scope.

Record ChannelKey := mkKey {
  key_protocol_id : ProtocolStableId;
  key_version : ProtocolVersion;
  key_protocol_channel_id : ProtocolChannelId;
}.
#[export] Instance ChannelKey_eq_dec : EqDecision ChannelKey.
Proof. solve_decision. Defined.
#[export] Instance ChannelKey_countable : Countable ChannelKey.
Proof.
  apply (inj_countable'
    (fun k => (key_protocol_id k, key_version k, key_protocol_channel_id k))
    (fun p => mkKey p.1.1 p.1.2 p.2)). by intros [].
Defined.

Inductive ChannelMode := RequestResponse | Event | Stream.
#[export] Instance ChannelMode_eq_dec : EqDecision ChannelMode.
Proof. solve_decision. Defined.

Record ChannelConfig := mkConfig {
  cfg_key : ChannelKey;
  cfg_id : ChannelId;
  cfg_generation : ChannelGeneration;
  cfg_mode : ChannelMode;
  priority_hint : N;
  capacity : N;
  cfg_max_frame_bytes : N;
  max_stream_bytes : option N;
  discardable : bool;
}.
#[export] Instance ChannelConfig_eq_dec : EqDecision ChannelConfig.
Proof. solve_decision. Defined.

Inductive OutboundFrame := ControlFrame (payload : list byte) | DataFrame (envelope : Envelope).
#[export] Instance OutboundFrame_eq_dec : EqDecision OutboundFrame.
Proof. solve_decision. Defined.

Inductive QueueAdmission := Enqueued | DroppedDiscardable.
#[export] Instance QueueAdmission_eq_dec : EqDecision QueueAdmission.
Proof. solve_decision. Defined.

Record MultiplexerLimits := mkMuxLimits {
  max_frame_bytes : N;
  max_nesting_depth : N;
  max_channels : N;
  control_queue_capacity : N;
  max_total_pending_frames : N;
}.
Definition default_mux_limits : MultiplexerLimits := mkMuxLimits (1024 * 1024) 32 64 32 512.

Record ChannelState := mkChannel {
  config : ChannelConfig;
  queue : list Envelope;
  cancelled : bool;
  stream_bytes : N;
  virtual_finish : N;
}.

Record Multiplexer := mkMux {
  mux_session_id : SessionId;
  limits : MultiplexerLimits;
  channels : gmap ChannelId ChannelState;
  keys : gmap ChannelKey (list ChannelId);
  retired_channels : gset ChannelId;
  control : list (list byte);
  ready : list ChannelId;
  virtual_time : N;
  total_pending : N;
  allowed_protocols : option (gset (ProtocolStableId * ProtocolVersion));
}.

(** ** Field updates *)

Definition with_queue (s : ChannelState) (q : list Envelope) : ChannelState :=
  mkChannel (config s) q (cancelled s) (stream_bytes s) (virtual_finish s).
Definition with_cancelled (s : ChannelState) (b : bool) : ChannelState :=
  mkChannel (config s) (queue s) b (stream_bytes s) (virtual_finish s).
Definition with_stream_bytes (s : ChannelState) (n : N) : ChannelState :=
  mkChannel (config s) (queue s) (cancelled s) n (virtual_finish s).
Definition with_virtual_finish (s : ChannelState) (n : N) : ChannelState :=
  mkChannel (config s) (queue s) (cancelled s) (stream_bytes s) n.

Definition with_channels (m : Multiplexer) (c : gmap ChannelId ChannelState) : Multiplexer :=
  mkMux (mux_session_id m) (limits m) c (keys m) (retired_channels m) (control m) (ready m)
    (virtual_time m) (total_pending m) (allowed_protocols m).
Definition with_control (m : Multiplexer) (q : list (list byte)) : Multiplexer :=
  mkMux (mux_session_id m) (limits m) (channels m) (keys m) (retired_channels m) q (ready m)
    (virtual_time m) (total_pending m) (allowed_protocols m).
Definition with_ready (m : Multiplexer) (r : list ChannelId) : Multiplexer :=
  mkMux (mux_session_id m) (limits m) (channels m) (keys m) (retired_channels m) (control m) r
    (virtual_time m) (total_pending m) (allowed_protocols m).
Definition with_virtual_time (m : Multiplexer) (t : N) : Multiplexer :=
  mkMux (mux_session_id m) (limits m) (channels m) (keys m) (retired_channels m) (control m)
    (ready m) t (total_pending m) (allowed_protocols m).
Definition with_total_pending (m : Multiplexer) (n : N) : Multiplexer :=
  mkMux (mux_session_id m) (limits m) (channels m) (keys m) (retired_channels m) (control m)
    (ready m) (virtual_time m) n (allowed_protocols m).

(** [self.channels.get_mut(&id)] followed by writes through the reference. *)
Definition set_channel (m : Multiplexer) (id : ChannelId) (s : ChannelState) : Multiplexer :=
  with_channels m (<[id := s]> (channels m)).

(** ** Construction *)

Definition mux_new (session_id : SessionId) (limits : MultiplexerLimits)
    : result LinkError Multiplexer :=
  reject (max_frame_bytes limits =? 0) || (max_channels limits =? 0)
         || (control_queue_capacity limits =? 0) || (max_total_pending_frames limits =? 0)
    with InvalidInput "multiplexer limits must be positive";
  Ok (mkMux session_id limits ∅ ∅ ∅ [] [] 0 0 None).

Definition mux_restricted (session_id : SessionId) (limits : MultiplexerLimits)
    (protocols : list (ProtocolStableId * ProtocolVersion)) : result LinkError Multiplexer :=
  m ← mux_new session_id limits;
  Ok (mkMux (mux_session_id m) (Mux.limits m) (channels m) (keys m) (retired_channels m)
        (control m) (ready m) (virtual_time m) (total_pending m)
        (Some (list_to_set protocols))).

(** ** Opening channels *)

Definition open_check (m : Multiplexer) (config : ChannelConfig) : result LinkError () :=
  reject cfg_id config =? CONTROL_CHANNEL_ID
    with InvalidInput "channel zero is reserved for control";
  reject (cfg_generation config =? 0) || (capacity config =? 0)
         || (cfg_max_frame_bytes config =? 0)
    with InvalidInput "channel generation and limits must be positive";
  reject discardable config && negb (bool_decide (cfg_mode config = Event))
    with InvalidInput "only event channels may be discardable";
  reject negb (Bool.eqb (bool_decide (cfg_mode config = Stream))
                 (bool_decide (is_Some (max_stream_bytes config))))
    with InvalidInput "stream byte limits must match channel mode";
  reject match allowed_protocols m with
         | Some allowed =>
           negb (bool_decide
                   ((key_protocol_id (cfg_key config), key_version (cfg_key config)) ∈ allowed))
         | None => false
         end with NamespaceConflict;
  reject max_channels (limits m)
         <=? sat_add usize_max (card (channels m)) (card (retired_channels m))
    with LimitExceeded Channels (max_channels (limits m));
  reject bool_decide (cfg_id config ∈ retired_channels m) with ClosedChannel (cfg_id config);
  reject bool_decide (is_Some (channels m !! cfg_id config)) with NamespaceConflict;
  Ok ().

(** [self.keys.entry(key).or_default().push(id)]. *)
Definition keys_push (ks : gmap ChannelKey (list ChannelId)) (k : ChannelKey) (id : ChannelId) :=
  <[k := default [] (ks !! k) ++ [id]]> ks.

Definition mux_open_channel (m : Multiplexer) (config : ChannelConfig)
    : Multiplexer * result LinkError () :=
  match open_check m config with
  | Err e => (m, Err e)
  | Ok _ =>
    (mkMux (mux_session_id m) (limits m)
       (<[cfg_id config := mkChannel config [] false 0 (virtual_time m)]> (channels m))
       (keys_push (keys m) (cfg_key config) (cfg_id config)) (retired_channels m) (control m)
       (ready m) (virtual_time m) (total_pending m) (allowed_protocols m),
     Ok ())
  end.

(** ** Admission *)

Definition validate_payload (m : Multiplexer) (payload : list byte) (nesting_depth : N)
    : result LinkError () :=
  reject max_frame_bytes (limits m) <? len payload
    with LimitExceeded FrameBytes (max_frame_bytes (limits m));
  reject max_nesting_depth (limits m) <? nesting_depth
    with LimitExceeded NestingDepth (max_nesting_depth (limits m));
  Ok ().

Definition validate_envelope_identity (m : Multiplexer) (e : Envelope) : result LinkError () :=
  reject negb (bool_decide (env_session_id e = mux_session_id m)) with SessionMismatch;
  reject env_channel_id e =? CONTROL_CHANNEL_ID
    with InvalidInput "channel zero cannot carry a data envelope";
  reject bool_decide (env_channel_id e ∈ retired_channels m) with ClosedChannel (env_channel_id e);
  validate_payload m (env_payload e) (env_nesting_depth e).

Definition enqueue_control (m : Multiplexer) (payload : list byte)
    : Multiplexer * result LinkError () :=
  match (_ ← validate_payload m payload 0;
         reject control_queue_capacity (limits m) <=? len (control m)
           with Backpressure CONTROL_CHANNEL_ID (control_queue_capacity (limits m));
         Ok ()) with
  | Err e => (m, Err e)
  | Ok _ => (with_total_pending (with_control m (control m ++ [payload])) (total_pending m + 1),
             Ok ())
  end.

(** The tail of both admission paths: an empty queue joins the ready list at
    the current virtual time. *)
Definition push_frame (m : Multiplexer) (id : ChannelId) (s : ChannelState) (e : Envelope)
    : Multiplexer :=
  let '(m, s) :=
    if bool_decide (queue s = [])
    then (with_ready m (ready m ++ [id]),
          with_virtual_finish s (N.max (virtual_finish s) (virtual_time m)))
    else (m, s) in
  with_total_pending (set_channel m id (with_queue s (queue s ++ [e]))) (total_pending m + 1).

(** The stream budget of a channel after a frame of [frame_bytes]. *)
Definition charge_stream (s : ChannelState) (frame_bytes : N) : result LinkError ChannelState :=
  match max_stream_bytes (config s) with
  | None => Ok s
  | Some max_stream_bytes =>
    let next_stream_bytes := sat_add u64_max (stream_bytes s) frame_bytes in
    reject max_stream_bytes <? next_stream_bytes with LimitExceeded StreamBytes max_stream_bytes;
    Ok (with_stream_bytes s next_stream_bytes)
  end.

Definition enqueue (m : Multiplexer) (e : Envelope) : Multiplexer * result LinkError () :=
  let id := env_channel_id e in
  match (_ ← validate_envelope_identity m e;
         reject max_total_pending_frames (limits m) <=? total_pending m
           with LimitExceeded PendingFrames (max_total_pending_frames (limits m));
         s ← ok_or (UnknownChannel id) (channels m !! id);
         reject negb (cfg_generation (config s) =? env_generation e)
           with ChannelGenerationMismatch id;
         reject cfg_max_frame_bytes (config s) <? len (env_payload e)
           with LimitExceeded FrameBytes (cfg_max_frame_bytes (config s));
         reject cancelled s with ChannelCancelled id;
         reject capacity (config s) <=? len (queue s)
           with Backpressure id (capacity (config s));
         charge_stream s (len (env_payload e))) with
  | Err err => (m, Err err)
  | Ok s => (push_frame m id s e, Ok ())
  end.

Definition enqueue_discardable (m : Multiplexer) (e : Envelope)
    : Multiplexer * result LinkError QueueAdmission :=
  let id := env_channel_id e in
  match (_ ← validate_envelope_identity m e;
         s ← ok_or (UnknownChannel id) (channels m !! id);
         reject negb (cfg_generation (config s) =? env_generation e)
           with ChannelGenerationMismatch id;
         reject cfg_max_frame_bytes (config s) <? len (env_payload e)
           with LimitExceeded FrameBytes (cfg_max_frame_bytes (config s));
         reject negb (bool_decide (cfg_mode (config s) = Event)) || negb (discardable (config s))
           with InvalidInput "only event channels may discard frames under pressure";
         reject cancelled s with ChannelCancelled id;
         Ok s) with
  | Err err => (m, Err err)
  | Ok s =>
    if (max_total_pending_frames (limits m) <=? total_pending m)
       || (capacity (config s) <=? len (queue s))
    then (m, Ok DroppedDiscardable)
    else (push_frame m id s e, Ok Enqueued)
  end.

(** ** Scheduling *)

Definition PRIORITY_BANDS : N := 8.

Definition scheduling_cost (payload_len priority_hint : N) : N :=
  let bytes := N.max payload_len 1 in
  let band_width := div_ceil u8_max PRIORITY_BANDS in
  let weight := priority_hint / band_width + 1 in
  div_ceil (sat_mul u128_max bytes PRIORITY_BANDS) weight.

(** The ready channels with a frame, with their place in the ready list. *)
Definition candidates (m : Multiplexer) : list (nat * N) :=
  omap (fun '(index, id) =>
          s ← channels m !! id;
          match queue s with [] => None | _ :: _ => Some (index, virtual_finish s) end)
    (imap pair (ready m)).

(** [min_by_key(|(index, virtual_finish)| (virtual_finish, index))]. *)
Definition candidate_lt (c1 c2 : nat * N) : bool :=
  (c1.2 <? c2.2) || ((c1.2 =? c2.2) && (c1.1 <? c2.1)%nat).
Fixpoint min_candidate (l : list (nat * N)) : option (nat * N) :=
  match l with
  | [] => None
  | c :: l =>
    match min_candidate l with
    | None => Some c
    | Some d => if candidate_lt d c then Some d else Some c
    end
  end.

(** The loop of [next_outbound] over the ready list, with fuel for its
    [continue]s; each removes an entry of the ready list. *)
Fixpoint next_data (fuel : nat) (m : Multiplexer) : Multiplexer * option OutboundFrame :=
  match fuel with
  | O => (m, None)
  | S fuel =>
    match min_candidate (candidates m) with
    | None => (with_ready m [], None)
    | Some (index, _) =>
      match ready m !! index with
      | None => next_data fuel m
      | Some id =>
        let m := with_ready m (remove_at index (ready m)) in
        match channels m !! id with
        | None => next_data fuel m
        | Some s =>
          match queue s with
          | [] => next_data fuel m
          | e :: q =>
            let start := N.max (virtual_finish s) (virtual_time m) in
            let finish := sat_add u128_max start
                            (scheduling_cost (len (env_payload e)) (priority_hint (config s))) in
            let m := set_channel (with_virtual_time m start) id
                       (with_virtual_finish (with_queue s q) finish) in
            let m := if bool_decide (q = []) then m else with_ready m (ready m ++ [id]) in
            (with_total_pending m (total_pending m - 1), Some (DataFrame e))
          end
        end
      end
    end
  end.

Definition next_outbound (m : Multiplexer) : Multiplexer * option OutboundFrame :=
  match control m with
  | payload :: rest =>
    (with_total_pending (with_control m rest) (total_pending m - 1), Some (ControlFrame payload))
  | [] => next_data (S (length (ready m))) m
  end.

(** ** Cancelling and closing *)

Definition retain_other (id : ChannelId) (l : list ChannelId) : list ChannelId :=
  filter (fun i => i <> id) l.

Definition cancel_channel (m : Multiplexer) (id : ChannelId)
    : Multiplexer * result LinkError N :=
  match channels m !! id with
  | None => (m, Err (UnknownChannel id))
  | Some s =>
    let discarded := len (queue s) in
    let m := set_channel m id (with_queue (with_cancelled s true) []) in
    let m := with_ready m (retain_other id (ready m)) in
    (with_total_pending m (total_pending m - discarded), Ok discarded)
  end.

Definition closed_or_unknown (m : Multiplexer) (id : ChannelId) : LinkError :=
  if bool_decide (id ∈ retired_channels m) then ClosedChannel id else UnknownChannel id.

(** Removing a closed channel from the index by key. *)
Definition keys_remove (ks : gmap ChannelKey (list ChannelId)) (k : ChannelKey) (id : ChannelId) :=
  match ks !! k with
  | None => ks
  | Some ids =>
    let ids := retain_other id ids in
    if bool_decide (ids = []) then delete k ks else <[k := ids]> ks
  end.

Definition mux_close_channel (m : Multiplexer) (id : ChannelId)
    : Multiplexer * result LinkError N :=
  match channels m !! id with
  | None => (m, Err (closed_or_unknown m id))
  | Some s =>
    let discarded := len (queue s) in
    (mkMux (mux_session_id m) (limits m) (delete id (channels m))
       (keys_remove (keys m) (cfg_key (config s)) id) ({[id]} ∪ retired_channels m) (control m)
       (retain_other id (ready m)) (virtual_time m) (total_pending m - discarded)
       (allowed_protocols m),
     Ok discarded)
  end.

Definition pending_frames (m : Multiplexer) : N := total_pending m.

Definition discard_all (m : Multiplexer) : Multiplexer * N :=
  (mkMux (mux_session_id m) (limits m) ((fun s => with_queue s []) <$> channels m) (keys m)
     (retired_channels m) [] [] (virtual_time m) 0 (allowed_protocols m),
   total_pending m).

Definition channels_for (m : Multiplexer) (k : ChannelKey) : list ChannelId :=
  default [] (keys m !! k).

#[global] Arguments retain_other : simpl never.
