(* ===== verification/MuxFacts.v ===== *)
(** * The multiplexer's invariant, its scheduler and its queues *)

From S2P Require Export Mux.
Local Open Scope N_scope.

(** ** The invariant *)

(** A frame in the queue of a channel passed every admission check. *)
Definition frame_ok (m : Multiplexer) (s : ChannelState) (e : Envelope) : Prop :=
  env_session_id e = mux_session_id m /\ env_channel_id e = cfg_id (config s)
  /\ env_generation e = cfg_generation (config s)
  /\ len (env_payload e) <= cfg_max_frame_bytes (config s)
  /\ len (env_payload e) <= max_frame_bytes (limits m)
  /\ env_nesting_depth e <= max_nesting_depth (limits m).

Record chan_wf (m : Multiplexer) (id : ChannelId) (s : ChannelState) : Prop := {
  chan_id : cfg_id (config s) = id /\ id <> CONTROL_CHANNEL_ID;
  chan_capacity : len (queue s) <= capacity (config s);
  chan_cancelled : cancelled s = true -> queue s = [];
  chan_frames : Forall (frame_ok m s) (queue s);
  chan_stream b : max_stream_bytes (config s) = Some b -> stream_bytes s <= b;
  chan_discardable : discardable (config s) = true -> cfg_mode (config s) = Event;
  chan_clock : virtual_finish s <= u128_max;
}.

(** The number of frames in the data queues. *)
Definition queued (c : gmap ChannelId ChannelState) : nat :=
  map_total (fun s => length (queue s)) c.

Record mux_wf (m : Multiplexer) : Prop := {
  wf_limits : max_channels (limits m) <= usize_max;
  wf_chan id s : channels m !! id = Some s -> chan_wf m id s;
  wf_pending : total_pending m = len (control m) + N.of_nat (queued (channels m));
  wf_control : len (control m) <= control_queue_capacity (limits m);
  wf_data : N.of_nat (queued (channels m)) <= max_total_pending_frames (limits m);
  wf_ready_nodup : NoDup (ready m);
  wf_ready id :
    id ∈ ready m <-> exists s, channels m !! id = Some s /\ queue s <> [];
  wf_retired_channels id : id ∈ retired_channels m -> channels m !! id = None;
  wf_slots : card (channels m) + card (retired_channels m) <= max_channels (limits m);
  wf_keys k id :
    id ∈ channels_for m k <-> exists s, channels m !! id = Some s /\ cfg_key (config s) = k;
  wf_keys_nodup k : NoDup (channels_for m k);
  wf_time id s : id ∈ ready m -> channels m !! id = Some s -> virtual_time m <= virtual_finish s;
  wf_clock : virtual_time m <= u128_max;
}.

(** The operations of a multiplexer. *)
Inductive mux_op :=
| OpenOp (config : ChannelConfig)
| ControlOp (payload : list byte)
| EnqueueOp (envelope : Envelope)
| EnqueueDiscardableOp (envelope : Envelope)
| NextOp
| CancelOp (id : ChannelId)
| CloseOp (id : ChannelId)
| DiscardAllOp.

Definition mux_step (m : Multiplexer) (op : mux_op) : Multiplexer :=
  match op with
  | OpenOp config => (mux_open_channel m config).1
  | ControlOp payload => (enqueue_control m payload).1
  | EnqueueOp e => (enqueue m e).1
  | EnqueueDiscardableOp e => (enqueue_discardable m e).1
  | NextOp => (next_outbound m).1
  | CancelOp id => (cancel_channel m id).1
  | CloseOp id => (mux_close_channel m id).1
  | DiscardAllOp => (discard_all m).1
  end.
Definition mux_run (m : Multiplexer) (ops : list mux_op) : Multiplexer := foldl mux_step m ops.

Lemma mux_new_wf session_id l m :
  mux_new session_id l = Ok m -> max_channels l <= usize_max -> mux_wf m.
Proof.
  unfold mux_new. intros Hn Hl. inv_ok. guards.
  split; cbn [mux_session_id limits channels keys retired_channels control ready
              virtual_time total_pending]; unfold queued, channels_for; cbn [keys].
  - done.
  - intros id s. by rewrite lookup_empty.
  - by rewrite map_total_empty.
  - cbn. lia.
  - rewrite map_total_empty. lia.
  - constructor.
  - intros id. split; [set_solver|]. intros (s & Hs & _). by rewrite lookup_empty in Hs.
  - done.
  - rewrite map_size_empty, size_empty. lia.
  - intros k id. rewrite lookup_empty. cbn. split; [set_solver|].
    intros (s & Hs & _). by rewrite lookup_empty in Hs.
  - intros k. rewrite lookup_empty. constructor.
  - set_solver.
  - lia.
Qed.

(** Replacing the state of an open channel, with the ready list, the clock
    and the count of pending frames that go with it. *)
Lemma mux_wf_update m id s s' ready' time' pending' :
  mux_wf m -> channels m !! id = Some s -> chan_wf m id s' -> config s' = config s ->
  NoDup ready' ->
  (forall j, j ∈ ready' <-> (j = id /\ queue s' <> []) \/ (j <> id /\ j ∈ ready m)) ->
  pending' + len (queue s) = total_pending m + len (queue s') ->
  N.of_nat (queued (channels m)) + len (queue s')
    <= max_total_pending_frames (limits m) + len (queue s) ->
  (forall j sj, j <> id -> j ∈ ready m -> channels m !! j = Some sj ->
     time' <= virtual_finish sj) ->
  (queue s' <> [] -> time' <= virtual_finish s') -> time' <= u128_max ->
  mux_wf (mkMux (mux_session_id m) (limits m) (<[id := s']> (channels m)) (keys m)
            (retired_channels m) (control m) ready' time' pending' (allowed_protocols m)).
Proof.
  intros [Wl Wc Wp Wk Wd Wrn Wr Wret Ws Wkeys Wkn Wt Wck] Hs Hc Hcfg Hnd Hr Hp Hd Ht1 Ht2 Hck.
  assert (queued (<[id := s']> (channels m)) + length (queue s)
          = length (queue s') + queued (channels m))%nat as Hq by by apply (map_total_insert_Some (fun s => length (queue s))).
  split; cbn [mux_session_id limits channels keys retired_channels control ready
              virtual_time total_pending]; unfold channels_for in *; cbn [keys].
  - done.
  - intros j sj. rewrite lookup_insert_Some. intros [[<- <-]|[_ Hj]].
    + by destruct Hc.
    + by destruct (Wc _ _ Hj).
  - lia.
  - done.
  - lia.
  - done.
  - intros j. rewrite Hr, Wr. setoid_rewrite lookup_insert_Some. split.
    + intros [[-> ?]|(Hj & sj & ? & ?)]; eauto 10.
    + intros (sj & [[-> ->]|[? ?]] & ?); eauto 10.
  - intros j Hj. rewrite lookup_insert_ne; [auto|]. intros <-. apply Wret in Hj. congruence.
  - by rewrite map_size_insert_Some by eauto.
  - intros k j. rewrite Wkeys. setoid_rewrite lookup_insert_Some.
    split.
    + intros (sj & Hj & <-). destruct (decide (id = j)) as [<-|].
      * exists s'. split; [by left|]. congruence.
      * exists sj. auto.
    + intros (sj & [[<- <-]|[_ Hj]] & <-); [|eauto]. exists s. split; [done|]. congruence.
  - done.
  - intros j sj Hj. rewrite lookup_insert_Some. intros [[<- <-]|[Hne Hsj]].
    + apply Ht2. apply Hr in Hj. naive_solver.
    + apply Hr in Hj as [[-> _]|[_ Hj]]; [done|]. eauto.
  - done.
Qed.

(** ** Admission preserves the invariant *)

Lemma ready_empty m id s :
  mux_wf m -> channels m !! id = Some s -> id ∈ ready m <-> queue s <> [].
Proof. intros Hw Hs. rewrite (wf_ready m Hw). naive_solver. Qed.

Lemma push_frame_wf m id s0 s e :
  mux_wf m -> channels m !! id = Some s0 ->
  config s = config s0 -> queue s = queue s0 -> virtual_finish s = virtual_finish s0 ->
  cancelled s = false -> (forall b, max_stream_bytes (config s) = Some b -> stream_bytes s <= b) ->
  frame_ok m s e -> len (queue s) < capacity (config s) ->
  total_pending m < max_total_pending_frames (limits m) ->
  mux_wf (push_frame m id s e).
Proof.
  intros Hw Hs Hc Hq Hv Hcan Hst He Hcap Htot.
  pose proof (wf_chan m Hw _ _ Hs) as [C1 C2 C3 C4 C5 C6 C7].
  pose proof (wf_clock m Hw) as Hck.
  pose proof (wf_pending m Hw) as Hp. pose proof (ready_empty m id s0 Hw Hs) as Hr.
  assert (Forall (frame_ok m s) (queue s ++ [e])) as Hf.
  { rewrite Hq. apply Forall_app. split; [|by constructor].
    eapply Forall_impl; [exact C4|]. intros e'. unfold frame_ok. by rewrite Hc. }
  rewrite Hc in Hst, Hcap. unfold push_frame. case_bool_decide as Hemp.
  - assert (id ∉ ready m) as Hnr by (rewrite Hr; rewrite <- Hq; naive_solver).
    apply (mux_wf_update m id s0); try done.
    + split; cbn; rewrite ?Hc; try done; rewrite ?Hcan; try done; try lia; nlia.
    + apply NoDup_app. split; [apply Hw|]. split; [set_solver|]. apply NoDup_singleton.
    + intros j. cbn. rewrite elem_of_app, list_elem_of_singleton.
      assert (queue s ++ [e] <> []) by (by intros []%app_eq_nil).
      destruct (decide (j = id)) as [->|]; naive_solver.
    + cbn. rewrite length_app, Hq. cbn. lia.
    + cbn. rewrite length_app, Hq. cbn. lia.
    + intros j sj ? Hj Hsj. cbn. by eapply (wf_time m Hw).
    + cbn. lia.
  - assert (id ∈ ready m) as Hin by (rewrite Hr; congruence).
    apply (mux_wf_update m id s0); try done.
    + split; cbn; rewrite ?Hc; try done; rewrite ?Hcan; try done; try lia; nlia.
    + apply Hw.
    + intros j. cbn.
      assert (queue s ++ [e] <> []) by (by intros []%app_eq_nil).
      destruct (decide (j = id)) as [->|]; naive_solver.
    + cbn. rewrite length_app, Hq. cbn. lia.
    + cbn. rewrite length_app, Hq. cbn. lia.
    + intros j sj ? Hj Hsj. cbn. by eapply (wf_time m Hw).
    + intros _. cbn. rewrite Hv. cbn. by eapply (wf_time m Hw).
Qed.

(** What the identity check establishes. *)
Lemma identity_ok m e :
  validate_envelope_identity m e = Ok () ->
  env_session_id e = mux_session_id m /\ env_channel_id e <> CONTROL_CHANNEL_ID
  /\ (env_channel_id e ∉ retired_channels m)
  /\ len (env_payload e) <= max_frame_bytes (limits m)
  /\ env_nesting_depth e <= max_nesting_depth (limits m).
Proof.
  unfold validate_envelope_identity, validate_payload. intros Hv. inv_ok. guards. done.
Qed.

(** The conditions under which a data frame is queued, and where it goes. *)
Lemma enqueue_Ok m m' e :
  enqueue m e = (m', Ok ()) ->
  exists s s', channels m !! env_channel_id e = Some s
  /\ validate_envelope_identity m e = Ok ()
  /\ total_pending m < max_total_pending_frames (limits m)
  /\ env_generation e = cfg_generation (config s)
  /\ len (env_payload e) <= cfg_max_frame_bytes (config s)
  /\ cancelled s = false /\ len (queue s) < capacity (config s)
  /\ charge_stream s (len (env_payload e)) = Ok s'
  /\ m' = push_frame m (env_channel_id e) s' e.
Proof.
  unfold enqueue. intros He. case_match eqn:Hr; simplify_eq. inv_ok. guards.
  by eexists _, _.
Qed.

Lemma charge_stream_ok s n s' :
  charge_stream s n = Ok s' ->
  config s' = config s /\ queue s' = queue s /\ virtual_finish s' = virtual_finish s
  /\ cancelled s' = cancelled s
  /\ (forall b, max_stream_bytes (config s) = Some b -> stream_bytes s' <= b).
Proof.
  unfold charge_stream. intros Hc. case_match.
  - inv_ok. guards. cbn. split_and!; [done..|]. intros b [= <-]. done.
  - inv_ok. by split_and!.
Qed.

Lemma enqueue_wf m e : mux_wf m -> mux_wf (enqueue m e).1.
Proof.
  intros Hw. destruct (enqueue m e) as [m' [[]|err]] eqn:He; cbn.
  - apply enqueue_Ok in He as (s & s' & Hs & Hi & Ht & Hg & Hf & Hc & Hcap & Hst & ->).
    apply identity_ok in Hi as (I1 & I2 & I3 & I4 & I5).
    pose proof (wf_chan m Hw _ _ Hs) as [C1 C2 C3 C4 C5 C6 C7].
    apply charge_stream_ok in Hst as (S1 & S2 & S3 & S4 & S5).
    eapply push_frame_wf; try done.
    + congruence.
    + by rewrite S1.
    + unfold frame_ok. rewrite S1. destruct C1. by split_and!.
    + by rewrite S1, S2.
  - unfold enqueue in He. case_match; by simplify_eq.
Qed.

Lemma enqueue_discardable_wf m e : mux_wf m -> mux_wf (enqueue_discardable m e).1.
Proof.
  intros Hw. unfold enqueue_discardable.
  case_match eqn:Hr; [|done]. case_match eqn:Hd; [done|]. cbn. inv_ok. guards.
  rename select (validate_envelope_identity _ _ = _) into Hi.
  rename select (channels m !! _ = _) into Hs.
  apply identity_ok in Hi as (I1 & I2 & I3 & I4 & I5).
  pose proof (wf_chan m Hw _ _ Hs) as [C1 C2 C3 C4 C5 C6 C7].
  eapply push_frame_wf; try done. unfold frame_ok. destruct C1. by split_and!.
Qed.

Lemma enqueue_control_wf m p : mux_wf m -> mux_wf (enqueue_control m p).1.
Proof.
  intros [Wl Wc Wp Wk Wd Wrn Wr Wret Ws Wkeys Wkn Wt Wck]. unfold enqueue_control.
  case_match eqn:Hr; [|done]. inv_ok. guards.
  split; try done; cbn [limits control total_pending channels with_control with_total_pending fst].
  - intros id s Hs. by destruct (Wc _ _ Hs).
  - rewrite length_app. cbn. lia.
  - rewrite length_app. cbn. lia.
Qed.

Lemma open_check_ok m c :
  open_check m c = Ok () ->
  cfg_id c <> CONTROL_CHANNEL_ID /\ (cfg_id c ∉ retired_channels m)
  /\ channels m !! cfg_id c = None
  /\ sat_add usize_max (card (channels m)) (card (retired_channels m)) < max_channels (limits m)
  /\ (discardable c = true -> cfg_mode c = Event).
Proof.
  unfold open_check. intros Hc. inv_ok. guards. split_and!; try done.
  - by apply eq_None_not_Some.
  - intros Hd. rename select (_ && _ = false) into Hdisc.
    rewrite Hd in Hdisc. cbn in Hdisc. by guards.
Qed.

Lemma open_check_complete m c :
  cfg_id c <> CONTROL_CHANNEL_ID -> cfg_generation c <> 0 -> 0 < capacity c ->
  0 < cfg_max_frame_bytes c -> (discardable c = true -> cfg_mode c = Event) ->
  (cfg_mode c = Stream <-> is_Some (max_stream_bytes c)) ->
  (forall allowed, allowed_protocols m = Some allowed ->
     (key_protocol_id (cfg_key c), key_version (cfg_key c)) ∈ allowed) ->
  card (channels m) + card (retired_channels m) < max_channels (limits m) ->
  max_channels (limits m) <= usize_max ->
  (cfg_id c ∉ retired_channels m) -> channels m !! cfg_id c = None -> open_check m c = Ok ().
Proof.
  intros Hid Hg Hcap Hf Hd Hs Ha Hroom Hmax Hr Hn. unfold open_check.
  rewrite reject_pass by by apply N.eqb_neq.
  rewrite reject_pass by (rewrite !orb_false_iff, !N.eqb_neq; lia).
  rewrite reject_pass; last first.
  { destruct (discardable c); [|done]. by rewrite bool_decide_true by auto. }
  rewrite reject_pass by (rewrite (bool_decide_ext _ _ Hs); by rewrite eqb_reflx).
  rewrite reject_pass; last first.
  { destruct (allowed_protocols m) as [allowed|]; [|done]. by rewrite bool_decide_true by auto. }
  rewrite reject_pass by (apply N.leb_gt; unfold sat_add; lia).
  rewrite reject_pass by by apply bool_decide_false.
  by rewrite reject_pass by (rewrite Hn; apply bool_decide_false; by intros [? ?]).
Qed.

Lemma keys_push_spec ks k id k' :
  default [] (keys_push ks k id !! k') = default [] (ks !! k') ++ (if decide (k' = k) then [id] else []).
Proof.
  unfold keys_push. case_decide as Hk.
  - subst. by rewrite lookup_insert_eq.
  - rewrite lookup_insert_ne by done. by rewrite app_nil_r.
Qed.

Lemma open_channel_wf m c : mux_wf m -> mux_wf (mux_open_channel m c).1.
Proof.
  intros [Wl Wc Wp Wk Wd Wrn Wr Wret Ws Wkeys Wkn Wt Wck]. unfold mux_open_channel.
  destruct (open_check m c) as [[]|] eqn:Ho; [|done].
  apply open_check_ok in Ho as (O1 & O2 & O3 & O4 & O5).
  assert (queued (<[cfg_id c := mkChannel c [] false 0 (virtual_time m)]> (channels m))
          = queued (channels m)) as Hq.
  { unfold queued. by rewrite map_total_insert_None by done. }
  assert (cfg_id c ∉ ready m) as Hnr.
  { intros (s & Hs & _)%Wr. congruence. }
  split; cbn [fst mux_session_id limits channels keys retired_channels control ready
              virtual_time total_pending]; unfold channels_for in *; cbn [keys]; rewrite ?Hq; try done.
  - intros id s. rewrite lookup_insert_Some. intros [[<- <-]|[_ Hs]]; [|by destruct (Wc _ _ Hs)].
    split; cbn; try done; lia.
  - intros id. rewrite Wr. setoid_rewrite lookup_insert_Some. split.
    + intros (s & Hs & Hne). exists s. split; [right|done]. split; [congruence|done].
    + intros (s & [[<- <-]|[_ Hs]] & Hne); [done|eauto].
  - intros id Hid. rewrite lookup_insert_ne; [auto|]. by intros <-.
  - rewrite map_size_insert_None by done. unfold sat_add in O4. lia.
  - intros k id. rewrite keys_push_spec, elem_of_app, Wkeys.
    setoid_rewrite lookup_insert_Some. split.
    + intros [(s & Hs & <-)|Hid]; [exists s; split; [right; split; [congruence|done]|done]|].
      case_decide; [|set_solver]. apply list_elem_of_singleton in Hid as ->.
      eexists. split; [by left|done].
    + intros (s & [[<- <-]|[_ Hs]] & <-); [right|left; eauto].
      rewrite decide_True by done. set_solver.
  - intros k. rewrite keys_push_spec. apply NoDup_app. split; [done|].
    split; [|case_decide; [apply NoDup_singleton|constructor]].
    intros id (s & Hs & _)%Wkeys Hid. case_decide; [|set_solver].
    apply list_elem_of_singleton in Hid. congruence.
  - intros id s Hid. rewrite lookup_insert_Some. intros [[<- <-]|[_ Hs]]; [done|eauto].
Qed.

Lemma elem_of_retain_other id j l : j ∈ retain_other id l <-> j <> id /\ j ∈ l.
Proof. unfold retain_other. by rewrite list_elem_of_filter. Qed.

Lemma cancel_channel_wf m id : mux_wf m -> mux_wf (cancel_channel m id).1.
Proof.
  intros Hw. unfold cancel_channel. destruct (channels m !! id) as [s|] eqn:Hs; [|done].
  pose proof (wf_chan m Hw _ _ Hs) as [C1 C2 C3 C4 C5 C6 C7].
  pose proof (wf_pending m Hw) as Hp. pose proof (wf_data m Hw).
  pose proof (map_total_ge (fun s => length (queue s)) _ _ _ Hs) as Hge. fold (queued (channels m)) in Hge.
  apply (mux_wf_update m id s); try done; cbn.
  - split; cbn; try done. lia.
  - apply NoDup_filter, Hw.
  - intros j. rewrite elem_of_retain_other. naive_solver.
  - lia.
  - lia.
  - intros j sj ? Hj Hsj. by eapply (wf_time m Hw).
  - apply Hw.
Qed.

Lemma keys_remove_spec ks k id k' :
  default [] (keys_remove ks k id !! k')
  = if decide (k' = k) then retain_other id (default [] (ks !! k')) else default [] (ks !! k').
Proof.
  unfold keys_remove. case_decide as Hk.
  - subst. destruct (ks !! k) as [ids|] eqn:E; [|by rewrite E].
    case_bool_decide as Hn; [rewrite lookup_delete_eq|rewrite lookup_insert_eq]; cbn; congruence.
  - destruct (ks !! k) as [ids|]; [|done].
    case_bool_decide; [by rewrite lookup_delete_ne|by rewrite lookup_insert_ne].
Qed.

Lemma close_channel_wf m id : mux_wf m -> mux_wf (mux_close_channel m id).1.
Proof.
  intros [Wl Wc Wp Wk Wd Wrn Wr Wret Ws Wkeys Wkn Wt Wck]. unfold mux_close_channel.
  destruct (channels m !! id) as [s|] eqn:Hs; [|done].
  assert (queued (channels m) = length (queue s) + queued (delete id (channels m)))%nat as Hq.
  { by apply (map_total_delete (fun s => length (queue s))). }
  assert (id ∉ retired_channels m) as Hnr by (intros Hr%Wret; congruence).
  split; cbn [fst mux_session_id limits channels keys retired_channels control ready
              virtual_time total_pending]; unfold channels_for in *; cbn [keys]; try done.
  - intros j sj. rewrite lookup_delete_Some. intros [_ Hj]. by destruct (Wc _ _ Hj).
  - lia.
  - lia.
  - by apply NoDup_filter.
  - intros j. rewrite elem_of_retain_other, Wr. setoid_rewrite lookup_delete_Some. naive_solver.
  - intros j [->%elem_of_singleton|Hj]%elem_of_union; [apply lookup_delete_eq|].
    apply lookup_delete_None. auto.
  - rewrite map_size_delete_Some by eauto. rewrite size_union, size_singleton by set_solver.
    assert (size (channels m) <> 0%nat); [|lia].
    apply map_size_non_empty_iff. intros He. by rewrite He in Hs.
  - intros k j. rewrite keys_remove_spec. setoid_rewrite lookup_delete_Some.
    case_decide as Hk; [rewrite elem_of_retain_other|]; rewrite Wkeys; [naive_solver|].
    split; [|naive_solver]. intros (sj & Hj & <-). exists sj. split; [split; [|done]|done]. congruence.
  - intros k. rewrite keys_remove_spec. case_decide; [by apply NoDup_filter|done].
  - intros j sj [_ Hj]%elem_of_retain_other [_ Hsj]%lookup_delete_Some. eauto.
Qed.

Lemma discard_all_wf m : mux_wf m -> mux_wf (discard_all m).1.
Proof.
  intros [Wl Wc Wp Wk Wd Wrn Wr Wret Ws Wkeys Wkn Wt Wck].
  assert (queued ((fun s => with_queue s []) <$> channels m) = 0%nat) as Hq.
  { apply map_total_zero. by intros i s (s0 & <- & _)%lookup_fmap_Some. }
  split; cbn [fst discard_all mux_session_id limits channels keys retired_channels control ready
              virtual_time total_pending]; unfold channels_for in *; cbn [keys]; rewrite ?Hq; try done.
  - intros id s (s0 & <- & Hs)%lookup_fmap_Some. destruct (Wc _ _ Hs). split; cbn; try done; lia.
  - cbn. lia.
  - lia.
  - constructor.
  - intros id. split; [set_solver|]. intros (s & (s0 & <- & _)%lookup_fmap_Some & Hne). done.
  - intros id Hid. rewrite lookup_fmap. by rewrite Wret.
  - by rewrite map_size_fmap.
  - intros k id. rewrite Wkeys. setoid_rewrite lookup_fmap_Some. split.
    + intros (s & Hs & <-). eexists. split; [by exists s|done].
    + intros (s & (s0 & <- & Hs) & <-). by exists s0.
  - set_solver.
Qed.

(** ** The scheduler *)

Definition candidate_le (c1 c2 : nat * N) : Prop :=
  c1.2 < c2.2 \/ (c1.2 = c2.2 /\ (c1.1 <= c2.1)%nat).

Lemma min_candidate_None l : min_candidate l = None <-> l = [].
Proof.
  split; [|by intros ->]. destruct l as [|c l]; [done|]. cbn.
  destruct (min_candidate l); [|done]. by case_match.
Qed.

Lemma min_candidate_Some l c :
  min_candidate l = Some c -> c ∈ l /\ forall d, d ∈ l -> candidate_le c d.
Proof.
  revert c. induction l as [|d l IH]; intros c; [done|]. cbn.
  destruct (min_candidate l) as [d'|] eqn:E.
  - destruct (IH d' eq_refl) as [Hin Hmin]. unfold candidate_lt.
    destruct (_ || _)%bool eqn:Hlt; intros [= <-].
    + split; [by right|]. intros d2 [->|Hd]%elem_of_cons; [|auto].
      unfold candidate_le. apply orb_true_iff in Hlt as [Hlt|Hlt]; guards; [by left|].
      right. split; [done|]. rename select ((_ <? _)%nat = true) into Hi.
      apply Nat.ltb_lt in Hi. lia.
    + split; [by left|]. intros d2 [->|Hd]%elem_of_cons; [right; lia|].
      specialize (Hmin d2 Hd). unfold candidate_le in *.
      apply orb_false_iff in Hlt as [H1 H2]. apply N.ltb_ge in H1.
      destruct (N.eqb_spec (d'.2) (d.2)); cbn in H2; [|lia]. apply Nat.ltb_ge in H2. lia.
  - intros [= <-]. apply min_candidate_None in E as ->. split; [by left|].
    intros d2 [->|Hd]%elem_of_cons; [right; lia|]. set_solver.
Qed.

Lemma elem_of_candidates m i v :
  (i, v) ∈ candidates m <->
  exists id s, ready m !! i = Some id /\ channels m !! id = Some s /\ queue s <> []
               /\ v = virtual_finish s.
Proof.
  unfold candidates. rewrite list_elem_of_omap. split.
  - intros ([j id] & Hin & Hs). apply elem_of_lookup_imap in Hin as (j' & id' & [= -> ->] & Hr).
    destruct (channels m !! id') as [s|] eqn:E; [|done]. cbn in Hs.
    destruct (queue s) eqn:Eq; simplify_eq. eexists _, s. split_and!; try done. by rewrite Eq.
  - intros (id & s & Hr & Hs & Hq & ->). exists (i, id). split.
    + apply elem_of_lookup_imap. by exists i, id.
    + rewrite Hs. cbn. by destruct (queue s).
Qed.

(** Sending the head frame [e] of channel [id], the entry [i] of the ready
    list. *)
Definition served (m : Multiplexer) (i : nat) (id : ChannelId) (s : ChannelState) (e : Envelope)
    (q : list Envelope) : Multiplexer :=
  let start := N.max (virtual_finish s) (virtual_time m) in
  let finish := sat_add u128_max start
                  (scheduling_cost (len (env_payload e)) (priority_hint (config s))) in
  mkMux (mux_session_id m) (limits m)
    (<[id := with_virtual_finish (with_queue s q) finish]> (channels m)) (keys m)
    (retired_channels m) (control m)
    (remove_at i (ready m) ++ (if decide (q = []) then [] else [id]))
    start (total_pending m - 1) (allowed_protocols m).

(** One pass of the loop always decides: the entry it selects has a channel
    with a frame, so the loop never continues, whatever its state. *)
Lemma next_data_cases fuel m :
  (candidates m = [] /\ next_data (S fuel) m = (with_ready m [], None))
  \/ exists i id s e q,
       ready m !! i = Some id /\ channels m !! id = Some s /\ queue s = e :: q
       /\ (forall j id' s', ready m !! j = Some id' -> channels m !! id' = Some s' ->
             queue s' <> [] -> candidate_le (i, virtual_finish s) (j, virtual_finish s'))
       /\ next_data (S fuel) m = (served m i id s e q, Some (DataFrame e)).
Proof.
  cbn [next_data]. destruct (min_candidate (candidates m)) as [[i v]|] eqn:E.
  - right. apply min_candidate_Some in E as [Hin Hmin].
    apply elem_of_candidates in Hin as (id & s & Hr & Hs & Hq & ->).
    destruct (queue s) as [|e q] eqn:Eq; [done|]. exists i, id, s, e, q.
    split_and!; try done.
    + intros j id' s' Hj Hs' Hq'. apply Hmin, elem_of_candidates. eauto 10.
    + rewrite Hr. cbn [channels with_ready]. rewrite Hs, Eq. unfold served.
      case_bool_decide; [rewrite decide_True by done|rewrite decide_False by done];
        [by rewrite app_nil_r|done].
  - left. by apply min_candidate_None in E.
Qed.

Lemma NoDup_remove_at {A} (l : list A) i x :
  NoDup l -> l !! i = Some x ->
  NoDup (remove_at i l) /\ forall y, y ∈ remove_at i l <-> y <> x /\ y ∈ l.
Proof.
  intros Hnd Hi. pose proof (remove_at_perm i l x Hi) as Hp. rewrite Hp in Hnd.
  apply NoDup_cons in Hnd as [Hx Hnd]. split; [done|].
  intros y. assert (y ∈ l <-> y ∈ x :: remove_at i l) as -> by (by rewrite <- Hp).
  rewrite elem_of_cons. split; [|naive_solver]. intros Hy. split; [|by right]. by intros ->.
Qed.

Lemma served_wf m i id s e q :
  mux_wf m -> ready m !! i = Some id -> channels m !! id = Some s -> queue s = e :: q ->
  (forall j id' s', ready m !! j = Some id' -> channels m !! id' = Some s' ->
     queue s' <> [] -> candidate_le (i, virtual_finish s) (j, virtual_finish s')) ->
  mux_wf (served m i id s e q).
Proof.
  intros Hw Hi Hs Hq Hmin.
  pose proof (wf_chan m Hw _ _ Hs) as [C1 C2 C3 C4 C5 C6 C7].
  pose proof (wf_pending m Hw) as Hp. pose proof (wf_data m Hw). pose proof (wf_clock m Hw).
  pose proof (map_total_ge (fun s => length (queue s)) _ _ _ Hs) as Hge.
  fold (queued (channels m)) in Hge. cbn beta in Hge. rewrite Hq in Hge. cbn in Hge.
  destruct (NoDup_remove_at _ _ _ (wf_ready_nodup m Hw) Hi) as [Hnd Hel].
  assert (virtual_time m <= virtual_finish s) as Ht.
  { eapply (wf_time m Hw); [|done]. by eapply list_elem_of_lookup_2. }
  rewrite Hq in *. apply Forall_cons in C4 as [_ C4]. cbn in C2.
  unfold served. apply (mux_wf_update m id s); try done.
  - split; cbn; try done.
    + lia.
    + by intros ?%C3.
    + unfold sat_add. lia.
  - apply NoDup_app. split; [done|]. split; [|case_decide; [constructor|apply NoDup_singleton]].
    intros x [Hx _]%Hel Hx2. case_decide; [by apply not_elem_of_nil in Hx2|].
    by apply list_elem_of_singleton in Hx2.
  - intros j. rewrite elem_of_app, Hel. cbn.
    destruct (decide (q = [])) as [->|]; [set_solver|].
    rewrite list_elem_of_singleton. naive_solver.
  - rewrite Hq. cbn. lia.
  - rewrite Hq. cbn. lia.
  - intros j sj Hne [k Hk]%list_elem_of_lookup_1 Hsj.
    assert (queue sj <> []) as Hqj.
    { apply (ready_empty m j sj Hw Hsj). by eapply list_elem_of_lookup_2. }
    specialize (Hmin k j sj Hk Hsj Hqj). unfold candidate_le in Hmin. cbn in Hmin. lia.
  - intros _. cbn. unfold sat_add. lia.
  - lia.
Qed.

(** ** Dequeuing *)

(** The frames waiting on a channel. *)
Definition queue_of (m : Multiplexer) (id : ChannelId) : list Envelope :=
  default [] (queue <$> channels m !! id).

Lemma ready_nil_idle m : mux_wf m -> candidates m = [] -> queued (channels m) = 0%nat.
Proof.
  intros Hw Hc. apply map_total_zero. intros id s Hs.
  destruct (queue s) as [|e q] eqn:Hq; [done|]. exfalso.
  assert (id ∈ ready m) as [i Hi]%list_elem_of_lookup_1.
  { apply (ready_empty m id s Hw Hs). by rewrite Hq. }
  assert ((i, virtual_finish s) ∈ candidates m) as Hin.
  { apply elem_of_candidates. exists id, s. rewrite Hq. by split_and!. }
  rewrite Hc in Hin. set_solver.
Qed.

(** What [next_outbound] does, by cases. *)
Inductive outbound_case (m : Multiplexer) : Multiplexer -> option OutboundFrame -> Prop :=
| outbound_control p rest :
    control m = p :: rest ->
    outbound_case m (with_total_pending (with_control m rest) (total_pending m - 1))
      (Some (ControlFrame p))
| outbound_idle :
    control m = [] -> total_pending m = 0 -> outbound_case m (with_ready m []) None
| outbound_data i id s e q :
    control m = [] -> ready m !! i = Some id -> channels m !! id = Some s -> queue s = e :: q ->
    (forall j id' s', ready m !! j = Some id' -> channels m !! id' = Some s' ->
      queue s' <> [] -> candidate_le (i, virtual_finish s) (j, virtual_finish s')) ->
    outbound_case m (served m i id s e q) (Some (DataFrame e)).

Lemma next_outbound_case m :
  mux_wf m -> outbound_case m (next_outbound m).1 (next_outbound m).2.
Proof.
  intros Hw. unfold next_outbound. destruct (control m) as [|p rest] eqn:Hc.
  - destruct (next_data_cases (length (ready m)) m) as [[Hn ->]|H].
    + apply outbound_idle; [done|]. rewrite (wf_pending m Hw), Hc, (ready_nil_idle m Hw Hn). done.
    + destruct H as (i & id & s & e & q & Hi & Hs & Hq & Hmin & ->). by eapply outbound_data.
  - by apply outbound_control.
Qed.

Lemma with_control_wf m p rest :
  mux_wf m -> control m = p :: rest ->
  mux_wf (with_total_pending (with_control m rest) (total_pending m - 1)).
Proof.
  intros [Wl Wc Wp Wk Wd Wrn Wr Wret Ws Wkeys Wkn Wt Wck] Hc. rewrite Hc in *. cbn in Wk.
  split; try done; cbn [limits control total_pending channels with_control with_total_pending fst].
  - intros id s Hs. by destruct (Wc _ _ Hs).
  - cbn in Wp. lia.
  - lia.
Qed.

Lemma clear_ready_wf m : mux_wf m -> total_pending m = 0 -> mux_wf (with_ready m []).
Proof.
  intros [Wl Wc Wp Wk Wd Wrn Wr Wret Ws Wkeys Wkn Wt Wck] Hp.
  split; try done; cbn [limits control total_pending channels with_ready ready].
  - intros id s Hs. by destruct (Wc _ _ Hs).
  - constructor.
  - intros id. split; [set_solver|]. intros (s & Hs & Hq).
    pose proof (map_total_ge (fun s => length (queue s)) _ _ _ Hs) as Hge.
    cbn beta in Hge. fold (queued (channels m)) in Hge. destruct (queue s); [done|]. cbn in Hge. lia.
  - set_solver.
Qed.

Lemma next_outbound_wf m : mux_wf m -> mux_wf (next_outbound m).1.
Proof.
  intros Hw. destruct (next_outbound_case m Hw).
  - by eapply with_control_wf.
  - by apply clear_ready_wf.
  - by apply served_wf.
Qed.

Lemma mux_step_wf m op : mux_wf m -> mux_wf (mux_step m op).
Proof.
  intros Hw. destruct op; cbn [mux_step];
    auto using open_channel_wf, enqueue_control_wf, enqueue_wf, enqueue_discardable_wf,
      next_outbound_wf, cancel_channel_wf, close_channel_wf, discard_all_wf.
Qed.

Lemma mux_run_wf ops m : mux_wf m -> mux_wf (mux_run m ops).
Proof.
  unfold mux_run. revert m. induction ops as [|op ops IH]; intros m Hw; [done|].
  by apply IH, mux_step_wf.
Qed.

(** Every data frame sent was at the head of its own channel's queue. *)
Lemma served_queue m i id s e q j :
  channels m !! id = Some s -> queue s = e :: q ->
  queue_of (served m i id s e q) j = if decide (j = id) then q else queue_of m j.
Proof.
  intros Hs Hq. unfold queue_of, served. cbn [channels]. case_decide as Hj.
  - subst. by rewrite lookup_insert_eq.
  - by rewrite lookup_insert_ne.
Qed.

Lemma pending_pos m id s :
  mux_wf m -> channels m !! id = Some s -> queue s <> [] -> 0 < total_pending m.
Proof.
  intros Hw Hs Hq. pose proof (map_total_ge (fun s => length (queue s)) _ _ _ Hs) as Hge.
  cbn beta in Hge. fold (queued (channels m)) in Hge. rewrite (wf_pending m Hw).
  destruct (queue s); [done|]. cbn in Hge. lia.
Qed.

(** Sending until nothing is pending. *)
Fixpoint drain (fuel : nat) (m : Multiplexer) : list OutboundFrame * Multiplexer :=
  match fuel with
  | O => ([], m)
  | S fuel =>
    match next_outbound m with
    | (m', None) => ([], m')
    | (m', Some f) => let '(fs, m'') := drain fuel m' in (f :: fs, m'')
    end
  end.

Definition is_control (f : OutboundFrame) : bool :=
  match f with ControlFrame _ => true | DataFrame _ => false end.
Definition control_payloads (fs : list OutboundFrame) : list (list byte) :=
  omap (fun f => match f with ControlFrame p => Some p | DataFrame _ => None end) fs.
Definition data_on (id : ChannelId) (fs : list OutboundFrame) : list Envelope :=
  omap (fun f => match f with
                 | DataFrame e => if decide (env_channel_id e = id) then Some e else None
                 | ControlFrame _ => None
                 end) fs.

(** The control frames of a run come before its data frames. *)
Definition control_first (fs : list OutboundFrame) : Prop :=
  exists cs ds, fs = cs ++ ds /\ Forall (fun f => is_control f = true) cs
                /\ Forall (fun f => is_control f = false) ds.

Lemma data_on_cons id e fs :
  data_on id (DataFrame e :: fs)
  = (if decide (env_channel_id e = id) then [e] else []) ++ data_on id fs.
Proof. unfold data_on. cbn. by case_decide. Qed.

Lemma drain_spec n m fs m' :
  mux_wf m -> total_pending m = N.of_nat n -> drain n m = (fs, m') ->
  len fs = total_pending m /\ total_pending m' = 0 /\ control_payloads fs = control m
  /\ (forall id, data_on id fs = queue_of m id)
  /\ control_first fs /\ (control m = [] -> Forall (fun f => is_control f = false) fs).
Proof.
  revert m fs. induction n as [|n IH]; intros m fs Hw Hn Hd.
  - cbn in Hd. injection Hd as <- <-. pose proof (wf_pending m Hw) as Hp.
    assert (control m = []) as Hc by (destruct (control m); [done|]; cbn in Hp; lia).
    split_and!; try done.
    + intros id. unfold queue_of. destruct (channels m !! id) as [s|] eqn:Hs; [|done]. cbn.
      destruct (queue s) eqn:Hq; [done|].
      assert (0 < total_pending m) by (eapply pending_pos; [done|done|by rewrite Hq]). lia.
    + by exists [], [].
  - cbn in Hd. pose proof (next_outbound_case m Hw) as Hcase.
    pose proof (next_outbound_wf m Hw) as Hw'.
    destruct (next_outbound m) as [m1 o]. cbn in Hcase, Hw'.
    destruct Hcase as [p rest Hc|Hc Hp|i id s e q Hc Hi Hs Hq Hmin].
    + destruct (drain n _) as [fs' m2] eqn:Hd'. injection Hd as <- <-.
      apply IH in Hd' as (L & P & C & D & (cs & ds & -> & Fc & Fd) & Z);
        [|done|cbn; lia]. cbn [with_total_pending with_control control total_pending] in *.
      split_and!.
      * cbn [length]. lia.
      * done.
      * rewrite Hc, <- C. done.
      * intros j. apply D.
      * by exists (ControlFrame p :: cs), ds; split_and!; [|constructor|].
      * by rewrite Hc.
    + lia.
    + destruct (drain n _) as [fs' m2] eqn:Hd'. injection Hd as <- <-.
      apply IH in Hd' as (L & P & C & D & _ & Z); [|done|cbn; lia].
      assert (env_channel_id e = id) as He.
      { pose proof (wf_chan m Hw _ _ Hs) as [[C1 _] _ _ C4 _ _ _].
        rewrite Hq in C4. apply Forall_cons in C4 as [(_ & -> & _) _]. done. }
      cbn [is_control] in *.
      assert (Forall (fun f => is_control f = false) (DataFrame e :: fs')) as Hall.
      { constructor; [done|]. apply Z. by cbn. }
      split_and!.
      * cbn [length served total_pending] in *. lia.
      * done.
      * rewrite Hc, <- Hc. exact C.
      * intros j. rewrite data_on_cons, He, D, (served_queue m i id s e q j Hs Hq).
        repeat case_decide; subst; try done. unfold queue_of. rewrite Hs. cbn. by rewrite Hq.
      * by exists [], (DataFrame e :: fs').
      * done.
Qed.

(** ** Properties *)

(** C21: whatever operations are applied to a new multiplexer, the count of
    pending frames is exactly what is queued, every queue respects its
    capacity and the global bounds, the ready list holds exactly the channels
    with a frame and each once, closed channels stay closed, and the index by
    protocol key lists exactly the open channels with that key. *)
Theorem mux_invariant session_id l m ops :
  mux_new session_id l = Ok m -> max_channels l <= usize_max -> mux_wf (mux_run m ops).
Proof. intros Hn Hl. eapply mux_run_wf, mux_new_wf; done. Qed.

(** a frame is admitted or refused atomically.  Admission appends it to
    the queue of its own open, uncancelled, same-generation channel, below the
    channel's capacity and the global bound, and touches no other queue; a
    refusal leaves the multiplexer exactly as it was; and a discardable frame
    is dropped only under pressure. *)
Theorem enqueue_effect m e :
  mux_wf m ->
  (forall m', enqueue m e = (m', Ok ()) ->
     exists s, channels m !! env_channel_id e = Some s /\ cancelled s = false
       /\ env_session_id e = mux_session_id m
       /\ env_generation e = cfg_generation (config s)
       /\ len (queue s) < capacity (config s)
       /\ total_pending m < max_total_pending_frames (limits m)
       /\ total_pending m' = total_pending m + 1
       /\ control m' = control m
       /\ forall id, queue_of m' id
                     = queue_of m id ++ (if decide (id = env_channel_id e) then [e] else []))
  /\ (forall m' err, enqueue m e = (m', Err err) -> m' = m)
  /\ (forall m', enqueue_discardable m e = (m', Ok DroppedDiscardable) ->
        m' = m /\ exists s, channels m !! env_channel_id e = Some s
          /\ (max_total_pending_frames (limits m) <= total_pending m
              \/ capacity (config s) <= len (queue s))).
Proof.
  intros Hw. split; [|split].
  - intros m' (s & s' & Hs & Hi & Ht & Hg & Hf & Hc & Hcap & Hst & ->)%enqueue_Ok.
    apply identity_ok in Hi as (I1 & I2 & I3 & I4 & I5).
    apply charge_stream_ok in Hst as (S1 & S2 & S3 & S4 & S5).
    exists s. split_and!; try done; unfold push_frame.
    + by case_bool_decide.
    + by case_bool_decide.
    + intros id. unfold queue_of.
      assert (forall m1 : Multiplexer, channels m1 = channels m -> forall s1,
        queue s1 = queue s ++ [e] ->
        default [] (queue <$> channels (set_channel m1 (env_channel_id e) s1) !! id)
        = default [] (queue <$> channels m !! id)
          ++ (if decide (id = env_channel_id e) then [e] else [])) as Hset.
      { intros m1 Hm1 s1 Hs1. unfold set_channel. cbn. rewrite Hm1. case_decide as Hid.
        - subst. by rewrite lookup_insert_eq, Hs.
        - by rewrite lookup_insert_ne, app_nil_r. }
      case_bool_decide; apply Hset; cbn; by rewrite ?S2.
  - intros m' err He. unfold enqueue in He. case_match; by simplify_eq.
  - intros m' He. unfold enqueue_discardable in He. case_match eqn:Hr; [|done].
    case_match eqn:Hd; simplify_eq. inv_ok. split; [done|].
    eexists. split; [done|]. apply orb_true_iff in Hd as [Hd|Hd]; guards; auto.
Qed.

(** the next frame is the oldest control frame if there is one, and
    otherwise the head of the queue of a ready channel whose virtual finish
    time is least, the one that became ready first among equals; nothing is
    returned exactly when nothing is pending. *)
Theorem next_outbound_correct m :
  mux_wf m ->
  match next_outbound m with
  | (m', Some (ControlFrame p)) =>
    control m = p :: control m' /\ channels m' = channels m
    /\ total_pending m = total_pending m' + 1
  | (m', Some (DataFrame e)) =>
    control m = [] /\ total_pending m = total_pending m' + 1
    /\ (forall id, queue_of m id
                   = (if decide (id = env_channel_id e) then [e] else []) ++ queue_of m' id)
    /\ exists i s, ready m !! i = Some (env_channel_id e)
         /\ channels m !! env_channel_id e = Some s
         /\ forall j id' s', ready m !! j = Some id' -> channels m !! id' = Some s' ->
              virtual_finish s < virtual_finish s'
              \/ (virtual_finish s = virtual_finish s' /\ (i <= j)%nat)
  | (m', None) => total_pending m = 0 /\ channels m' = channels m /\ control m = []
  end.
Proof.
  intros Hw. pose proof (next_outbound_case m Hw) as Hcase.
  destruct (next_outbound m) as [m' o]. cbn in Hcase.
  destruct Hcase as [p rest Hc|Hc Hp|i id s e q Hc Hi Hs Hq Hmin].
  - split_and!; try done. cbn. pose proof (wf_pending m Hw) as Hp. rewrite Hc in Hp. cbn in Hp. lia.
  - by split_and!.
  - pose proof (wf_chan m Hw _ _ Hs) as [[C1 _] _ _ C4 _ _ _].
    rewrite Hq in C4. apply Forall_cons in C4 as [(_ & He & _) _]. rewrite C1 in He. clear C1. subst id.
    assert (0 < total_pending m) by (eapply pending_pos; [done|done|by rewrite Hq]).
    split_and!; try done.
    + cbn. lia.
    + intros id. rewrite (served_queue m i _ s e q id Hs Hq).
      repeat case_decide; try done. subst. unfold queue_of. rewrite Hs. cbn. by rewrite Hq.
    + exists i, s. split_and!; try done. intros j id' s' Hj Hs'.
      assert (queue s' <> []) as Hq'.
      { apply (ready_empty m id' s' Hw Hs'). by eapply list_elem_of_lookup_2. }
      exact (Hmin j id' s' Hj Hs' Hq').
Qed.

(** sending until idle delivers every pending frame exactly once and
    stops: control frames first and in order, then data frames in the order in
    which each channel queued them. *)
Theorem drain_complete m fs m' :
  mux_wf m -> drain (N.to_nat (total_pending m)) m = (fs, m') ->
  len fs = total_pending m /\ (next_outbound m').2 = None
  /\ control_first fs /\ control_payloads fs = control m
  /\ forall id, data_on id fs = queue_of m id.
Proof.
  intros Hw Hd. assert (mux_wf m') as Hw'.
  { revert Hd. generalize (N.to_nat (total_pending m)) as n. intros n. revert m fs Hw.
    induction n as [|n IH]; intros m fs Hw Hd; cbn in Hd; [by simplify_eq|].
    pose proof (next_outbound_wf m Hw) as Hw1. destruct (next_outbound m) as [m1 [f|]]; cbn in Hw1.
    - destruct (drain n m1) as [fs1 m2] eqn:Hd1. simplify_eq. by eapply IH.
    - by simplify_eq. }
  apply drain_spec in Hd as (L & P & C & D & F & _); [|done|lia].
  split_and!; try done. pose proof (next_outbound_case m' Hw') as Hcase.
  destruct Hcase as [p rest Hc|Hc Hp|i id s e q Hc Hi Hs Hq Hmin]; [|done|].
  - pose proof (wf_pending m' Hw') as Hp. rewrite Hc in Hp. cbn in Hp. lia.
  - assert (0 < total_pending m') by (eapply pending_pos; [done|done|by rewrite Hq]). lia.
Qed.

(** ** Examples *)

Definition example_channel_key (n : N) : ChannelKey :=
  mkKey (mkStableId (vreplicate 16 Byte.x07)) (mkVersion 1 0) n.
Definition example_config (id hint : N) : ChannelConfig :=
  mkConfig (example_channel_key id) id 1 RequestResponse hint 4 64 None false.
Definition example_frame (id seq : N) : Envelope :=
  mkEnv (id_of SessionKind 3) id 1 seq 0 (mkEnvFlags false false) [byte_of_n seq; Byte.x01].
Definition example_mux0 : Multiplexer :=
  mkMux (id_of SessionKind 3) default_mux_limits ∅ ∅ ∅ [] [] 0 0 None.
Definition example_ops : list mux_op :=
  [OpenOp (example_config 5 0); OpenOp (example_config 6 255);
   EnqueueOp (example_frame 5 1); EnqueueOp (example_frame 6 1);
   EnqueueOp (example_frame 6 2); EnqueueOp (example_frame 5 2); ControlOp [Byte.x09]].
Definition example_mux : Multiplexer := mux_run example_mux0 example_ops.

Lemma mux_invariant_witness : mux_wf example_mux.
Proof. by apply (mux_invariant (id_of SessionKind 3) default_mux_limits example_mux0 example_ops). Defined.

Lemma example_mux_wf : mux_wf example_mux.
Proof. by apply mux_run_wf, (mux_new_wf (id_of SessionKind 3) default_mux_limits). Qed.

Definition example_after : Multiplexer := (enqueue example_mux (example_frame 6 3)).1.

Lemma enqueue_effect_witness :
  queue_of example_after 6 = queue_of example_mux 6 ++ [example_frame 6 3].
Proof.
  assert (enqueue example_mux (example_frame 6 3) = (example_after, Ok ())) as He.
  { apply pair_snd_eq. by vm_compute. }
  destruct (enqueue_effect example_mux (example_frame 6 3) example_mux_wf) as [H _].
  destruct (H _ He) as (s & _ & _ & _ & _ & _ & _ & _ & _ & Hq). exact (Hq 6).
Defined.

Lemma next_outbound_correct_witness : control example_mux = [[Byte.x09]].
Proof.
  pose proof (next_outbound_correct example_mux example_mux_wf) as H.
  rewrite (pair_snd_eq (next_outbound example_mux) (Some (ControlFrame [Byte.x09]))) in H
    by by vm_compute.
  destruct H as [-> _]. by vm_compute.
Defined.

Lemma drain_complete_witness :
  data_on 6 (drain 5 example_mux).1 = [example_frame 6 1; example_frame 6 2].
Proof.
  assert (N.to_nat (total_pending example_mux) = 5%nat) as Hp by by vm_compute.
  pose proof (drain_complete example_mux (drain 5 example_mux).1 (drain 5 example_mux).2
    example_mux_wf) as H.
  rewrite Hp in H. destruct (H (surjective_pairing _)) as (_ & _ & _ & _ & Hq).
  etrans; [exact (Hq 6)|]. by vm_compute.
Defined.
