(* ===== verification/MuxFairness.v ===== *)
(** * Weighted fairness of the multiplexer

    While a channel waits with a frame at the head of its queue, the service
    every other channel can get is bounded by the waiting channel's virtual
    finish time, whatever operations are interleaved. *)

From S2P Require Export MuxFacts.
Local Open Scope N_scope.

(** ** The cost of a frame *)

Lemma scheduling_cost_bounds n hint :
  1 <= scheduling_cost n hint /\ scheduling_cost n hint <= 8 * N.max n 1.
Proof.
  unfold scheduling_cost, div_ceil, sat_mul, PRIORITY_BANDS.
  set (w := hint / _ + 1). set (x := N.min u128_max (N.max n 1 * 8)).
  assert (1 <= w) by (unfold w; rewrite N.add_comm; apply N.le_add_r).
  assert (1 <= x <= 8 * N.max n 1) by (unfold x; lia). split.
  - apply N.div_le_lower_bound; lia.
  - transitivity x; [|lia]. apply N.Div0.div_le_upper_bound; nia.
Qed.

(** ** Lag: no finish time runs far ahead of the clock *)

Definition mux_lag (m : Multiplexer) : N := 8 * N.max (max_frame_bytes (limits m)) 1.
Definition lag_ok (m : Multiplexer) : Prop :=
  forall id s, channels m !! id = Some s -> virtual_finish s <= virtual_time m + mux_lag m.

(** What one operation may do to the clock and to the channels. *)
Record step_effect (m m' : Multiplexer) : Prop := {
  eff_limits : limits m' = limits m;
  eff_clock : virtual_time m <= virtual_time m';
  eff_retired id : id ∈ retired_channels m -> id ∈ retired_channels m';
  eff_open id s : channels m !! id = Some s ->
    id ∈ retired_channels m'
    \/ exists s', channels m' !! id = Some s' /\ virtual_finish s <= virtual_finish s';
  eff_back id s' : channels m' !! id = Some s' ->
    (exists s, channels m !! id = Some s
       /\ (virtual_finish s' <= N.max (virtual_finish s) (virtual_time m)
           \/ virtual_finish s' <= virtual_time m' + mux_lag m))
    \/ (channels m !! id = None /\ virtual_finish s' = virtual_time m');
}.

Lemma step_effect_refl m m' :
  limits m' = limits m -> virtual_time m' = virtual_time m ->
  retired_channels m' = retired_channels m -> channels m' = channels m -> step_effect m m'.
Proof.
  intros Hl Ht Hr Hc. split; rewrite ?Hl, ?Ht, ?Hr, ?Hc; try done.
  - right. eauto.
  - intros id s' Hs. left. exists s'. split; [done|left; lia].
Qed.

Lemma push_frame_effect m id s0 s e :
  channels m !! id = Some s0 -> virtual_finish s = virtual_finish s0 ->
  step_effect m (push_frame m id s e).
Proof.
  intros Hs Hv.
  assert (forall j sj, channels m !! j = Some sj -> exists sj', channels (push_frame m id s e) !! j = Some sj'
    /\ virtual_finish sj <= virtual_finish sj' <= N.max (virtual_finish sj) (virtual_time m)) as Hfw.
  { intros j sj Hj. unfold push_frame. case_bool_decide; cbn;
      (destruct (decide (id = j)) as [<-|];
       [rewrite lookup_insert_eq; eexists; split; [done|]; cbn; simplify_eq; lia
       |rewrite lookup_insert_ne by done; exists sj; split; [done|lia]]). }
  assert (forall j sj', channels (push_frame m id s e) !! j = Some sj' -> is_Some (channels m !! j)) as Hbk.
  { intros j sj'. unfold push_frame. case_bool_decide; cbn; rewrite lookup_insert_Some;
      (intros [[<- _]|[_ Hj]]; [by rewrite Hs|by rewrite Hj]). }
  split.
  - unfold push_frame. by case_bool_decide.
  - unfold push_frame. by case_bool_decide.
  - unfold push_frame. by case_bool_decide.
  - intros j sj Hj. right. destruct (Hfw j sj Hj) as (sj' & ? & ?). exists sj'. split; [done|lia].
  - intros j sj' Hj'. left. destruct (Hbk j sj' Hj') as [sj Hj].
    destruct (Hfw j sj Hj) as (sj2 & Hj2 & ?). exists sj. split; [done|]. left.
    rewrite Hj' in Hj2. simplify_eq. lia.
Qed.

Lemma served_effect m i id s e q :
  mux_wf m -> channels m !! id = Some s -> queue s = e :: q -> id ∈ ready m ->
  step_effect m (served m i id s e q).
Proof.
  intros Hw Hs Hq Hi. pose proof (wf_chan m Hw _ _ Hs) as [C1 C2 C3 C4 C5 C6 C7].
  pose proof (wf_time m Hw _ _ Hi Hs) as Ht. pose proof (wf_clock m Hw) as Hck.
  rewrite Hq in C4. apply Forall_cons in C4 as [(_ & _ & _ & _ & Hlen & _) _].
  destruct (scheduling_cost_bounds (len (env_payload e)) (priority_hint (config s))) as [Hc1 Hc2].
  unfold served, sat_add. split; cbn; try done.
  - lia.
  - intros j sj Hj. right. destruct (decide (id = j)) as [<-|].
    + rewrite lookup_insert_eq. eexists. split; [done|]. cbn. simplify_eq. lia.
    + rewrite lookup_insert_ne by done. by exists sj.
  - intros j sj'. rewrite lookup_insert_Some. intros [[<- <-]|[_ Hj]]; left.
    + exists s. split; [done|]. right. cbn. unfold mux_lag. lia.
    + exists sj'. split; [done|]. left. lia.
Qed.

Lemma next_effect m : mux_wf m -> step_effect m (next_outbound m).1.
Proof.
  intros Hw. destruct (next_outbound_case m Hw) as [p rest Hc|Hc Hp|i id s e q Hc Hi Hs Hq Hmin].
  - by apply step_effect_refl.
  - by apply step_effect_refl.
  - apply served_effect; try done. by eapply list_elem_of_lookup_2.
Qed.

Lemma enqueue_effect_step m e :
  step_effect m (enqueue m e).1 /\ step_effect m (enqueue_discardable m e).1.
Proof.
  split.
  - destruct (enqueue m e) as [m' [[]|err]] eqn:He; cbn.
    + apply enqueue_Ok in He as (s & s' & Hs & _ & _ & _ & _ & _ & _ & Hst & ->).
      apply charge_stream_ok in Hst as (_ & _ & Hv & _). by eapply push_frame_effect.
    + unfold enqueue in He. case_match; simplify_eq. by apply step_effect_refl.
  - unfold enqueue_discardable. case_match eqn:Hr; [|by apply step_effect_refl].
    case_match; [by apply step_effect_refl|]. inv_ok. cbn. by eapply push_frame_effect.
Qed.

Lemma open_effect m c : step_effect m (mux_open_channel m c).1.
Proof.
  unfold mux_open_channel. destruct (open_check m c) as [[]|] eqn:Ho; [|by apply step_effect_refl].
  apply open_check_ok in Ho as (_ & _ & Hn & _). split; cbn; try done.
  - intros id s Hs. right. exists s. rewrite lookup_insert_ne by (intros <-; congruence). done.
  - intros id s'. rewrite lookup_insert_Some. intros [[<- <-]|[_ Hs]]; [by right|].
    left. exists s'. split; [done|left; lia].
Qed.

Lemma cancel_effect m id : step_effect m (cancel_channel m id).1.
Proof.
  unfold cancel_channel. destruct (channels m !! id) as [s|] eqn:Hs; [|by apply step_effect_refl].
  split; cbn; try done.
  - intros j sj Hj. right. destruct (decide (id = j)) as [<-|].
    + rewrite lookup_insert_eq. eexists. split; [done|]. cbn. by simplify_eq.
    + rewrite lookup_insert_ne by done. by exists sj.
  - intros j sj'. rewrite lookup_insert_Some. intros [[<- <-]|[_ Hj]]; left.
    + exists s. split; [done|left; cbn; lia].
    + exists sj'. split; [done|left; lia].
Qed.

Lemma close_effect m id : step_effect m (mux_close_channel m id).1.
Proof.
  unfold mux_close_channel. destruct (channels m !! id) as [s|] eqn:Hs; [|by apply step_effect_refl].
  split; cbn; try done.
  - set_solver.
  - intros j sj Hj. destruct (decide (j = id)) as [->|]; [left; set_solver|].
    right. exists sj. by rewrite lookup_delete_ne.
  - intros j sj' [_ Hj]%lookup_delete_Some. left. exists sj'. split; [done|left; lia].
Qed.

Lemma discard_effect m : step_effect m (discard_all m).1.
Proof.
  split; cbn; try done.
  - intros j sj Hj. right. rewrite lookup_fmap, Hj. cbn. by eexists.
  - intros j sj' (s & <- & Hs)%lookup_fmap_Some. left. exists s. split; [done|left; cbn; lia].
Qed.

Lemma mux_step_effect m op : mux_wf m -> step_effect m (mux_step m op).
Proof.
  intros Hw. destruct op; cbn [mux_step].
  - apply open_effect.
  - unfold enqueue_control. case_match; by apply step_effect_refl.
  - apply enqueue_effect_step.
  - apply enqueue_effect_step.
  - by apply next_effect.
  - apply cancel_effect.
  - apply close_effect.
  - apply discard_effect.
Qed.

Lemma lag_step m op : mux_wf m -> lag_ok m -> lag_ok (mux_step m op).
Proof.
  intros Hw Hl id s' Hs'. destruct (mux_step_effect m op Hw) as [El Ec Er Eo Eb].
  unfold mux_lag. rewrite El. fold (mux_lag m).
  destruct (Eb id s' Hs') as [(s & Hs & [?|?])|[_ ->]]; [|done|lia].
  specialize (Hl id s Hs). lia.
Qed.

Lemma lag_run ops m : mux_wf m -> lag_ok m -> lag_ok (mux_run m ops).
Proof.
  unfold mux_run. revert m. induction ops as [|op ops IH]; intros m Hw Hl; [done|].
  apply IH; [by apply mux_step_wf|by apply lag_step].
Qed.

(** ** Runs in which a channel waits *)

(** Channel [a] has a frame, and would be served at virtual time [finish]. *)
Definition waiting (a : ChannelId) (finish : N) (m : Multiplexer) : Prop :=
  exists s, channels m !! a = Some s /\ queue s <> [] /\ virtual_finish s = finish.

(** The channel an operation serves, and the scheduling cost of the frame. *)
Definition service (m : Multiplexer) (op : mux_op) : list (ChannelId * N) :=
  match op, (next_outbound m).2 with
  | NextOp, Some (DataFrame e) =>
    match channels m !! env_channel_id e with
    | Some s => [(env_channel_id e,
                  scheduling_cost (len (env_payload e)) (priority_hint (config s)))]
    | None => []
    end
  | _, _ => []
  end.

(** [a] waits throughout the run; the trace lists the service of the others. *)
Inductive waits (a : ChannelId) (finish : N) : Multiplexer -> list mux_op ->
    list (ChannelId * N) -> Prop :=
| waits_nil m : waiting a finish m -> waits a finish m [] []
| waits_cons m op ops trace :
    waiting a finish m -> waits a finish (mux_step m op) ops trace ->
    waits a finish m (op :: ops) (service m op ++ trace).

Definition costs_of (b : ChannelId) (trace : list (ChannelId * N)) : list N :=
  omap (fun p => if decide (p.1 = b) then Some p.2 else None) trace.
Definition total_cost (l : list N) : N := foldr N.add 0 l.

(** The earliest virtual time at which channel [b] could be served next. *)
Definition next_start (m : Multiplexer) (b : ChannelId) : N :=
  match channels m !! b with
  | Some s => N.max (virtual_finish s) (virtual_time m)
  | None => virtual_time m
  end.

Lemma waiting_ready a finish m : mux_wf m -> waiting a finish m -> a ∈ ready m.
Proof. intros Hw (s & Hs & Hq & _). apply (wf_ready m Hw). eauto. Qed.

(** What a service is: the served channel starts no later than the waiting
    one finishes, and its next start moves on by the cost. *)
Lemma service_spec a finish m op b c :
  mux_wf m -> waiting a finish m -> finish < u128_max -> (b, c) ∈ service m op ->
  service m op = [(b, c)] /\ is_Some (channels m !! b) /\ 1 <= c
  /\ next_start m b <= finish
  /\ (next_start m b + c <= next_start (mux_step m op) b
      \/ finish < next_start (mux_step m op) b).
Proof.
  intros Hw Hwait Hfin Hin. unfold service in *. destruct op; try set_solver. cbn [mux_step].
  destruct (next_outbound_case m Hw) as [p rest Hc|Hc Hp|i id s e q Hc Hi Hs Hq Hmin];
    [set_solver|set_solver|].
  pose proof (wf_chan m Hw _ _ Hs) as [[C1 _] _ _ C4 _ _ C7].
  rewrite Hq in C4. apply Forall_cons in C4 as [(_ & He & _) _]. rewrite C1 in He.
  rewrite He, Hs in *. apply list_elem_of_singleton in Hin as [= -> ->].
  destruct (scheduling_cost_bounds (len (env_payload e)) (priority_hint (config s))) as [Hc1 Hc2].
  assert (virtual_time m <= virtual_finish s) as Ht.
  { eapply (wf_time m Hw); [by eapply list_elem_of_lookup_2|done]. }
  assert (virtual_finish s <= finish) as Hle.
  { pose proof (waiting_ready _ _ _ Hw Hwait) as [j Hj]%list_elem_of_lookup_1.
    destruct Hwait as (sa & Hsa & Hqa & <-).
    destruct (Hmin j a sa Hj Hsa Hqa) as [?|[? _]]; cbn in *; lia. }
  split_and!; try done.
  - unfold next_start. rewrite Hs. lia.
  - unfold next_start, served, sat_add. cbn. rewrite lookup_insert_eq, Hs. cbn. lia.
Qed.

Lemma next_start_mono m op b :
  mux_wf m -> (b ∈ retired_channels (mux_step m op)) \/ next_start m b <= next_start (mux_step m op) b.
Proof.
  intros Hw. destruct (mux_step_effect m op Hw) as [El Ec Er Eo Eb].
  unfold next_start. destruct (channels m !! b) as [s|] eqn:Hs.
  - destruct (Eo b s Hs) as [?|(s' & -> & ?)]; [by left|right; lia].
  - right. case_match; lia.
Qed.

Lemma costs_of_app b t1 t2 : costs_of b (t1 ++ t2) = costs_of b t1 ++ costs_of b t2.
Proof. apply omap_app. Qed.

Lemma elem_of_costs b c t : c ∈ costs_of b t -> (b, c) ∈ t.
Proof.
  unfold costs_of. rewrite list_elem_of_omap. intros ([b' c'] & Hin & Hd). cbn in Hd.
  case_decide; by simplify_eq.
Qed.

Lemma retired_costs a finish m ops trace b :
  mux_wf m -> finish < u128_max -> waits a finish m ops trace -> b ∈ retired_channels m ->
  costs_of b trace = [].
Proof.
  intros Hw Hf Hrun. induction Hrun as [m Hwait|m op ops trace Hwait Hrun IH]; intros Hb; [done|].
  rewrite costs_of_app. rewrite IH; [|by apply mux_step_wf|by apply mux_step_effect].
  rewrite app_nil_r. destruct (costs_of b (service m op)) as [|c l] eqn:Hc; [done|].
  assert ((b, c) ∈ service m op) as Hin by (apply elem_of_costs; rewrite Hc; by left).
  destruct (service_spec a finish m op b c Hw Hwait Hf Hin) as (_ & [s Hs] & _).
  by rewrite (wf_retired_channels m Hw b Hb) in Hs.
Qed.

Lemma waits_cost a finish m ops trace b cs c :
  mux_wf m -> finish < u128_max -> waits a finish m ops trace ->
  costs_of b trace = cs ++ [c] -> next_start m b + total_cost cs <= finish.
Proof.
  intros Hw Hf Hrun. revert cs. induction Hrun as [m Hwait|m op ops trace Hwait Hrun IH]; intros cs Hcs.
  - cbn in Hcs. by destruct cs.
  - pose proof (mux_step_wf m op Hw) as Hw'. specialize (IH Hw').
    rewrite costs_of_app in Hcs. destruct (costs_of b (service m op)) as [|c1 l] eqn:Hc1.
    + cbn in Hcs. destruct (next_start_mono m op b Hw) as [Hr|Hle].
      * rewrite (retired_costs a finish _ ops trace b Hw' Hf Hrun Hr) in Hcs. by destruct cs.
      * specialize (IH cs Hcs). lia.
    + assert ((b, c1) ∈ service m op) as Hin by (apply elem_of_costs; rewrite Hc1; by left).
      destruct (service_spec a finish m op b c1 Hw Hwait Hf Hin) as (Hs & _ & _ & Hle & Hnext).
      rewrite Hs in Hc1. cbn in Hc1. rewrite decide_True in Hc1 by done. injection Hc1 as <-.
      destruct cs as [|c2 cs]; cbn in Hcs; injection Hcs as <- Hcs.
      * cbn. lia.
      * specialize (IH cs Hcs). unfold total_cost in *. cbn. lia.
Qed.

(** ** Counting *)

Lemma costs_of_cons b b' c trace :
  length (costs_of b' ((b, c) :: trace))
  = ((if decide (b = b') then 1 else 0) + length (costs_of b' trace))%nat.
Proof. unfold costs_of. cbn. by case_decide. Qed.

Lemma sum_indicator (b : ChannelId) (f : ChannelId -> nat) ids :
  NoDup ids -> b ∈ ids ->
  sum_list_with (fun b' => (if decide (b = b') then 1 else 0) + f b')%nat ids
  = S (sum_list_with f ids).
Proof.
  assert (forall ids, (b ∉ ids) ->
    sum_list_with (fun b' => (if decide (b = b') then 1 else 0) + f b')%nat ids
    = sum_list_with f ids) as Hno.
  { intros l. induction l as [|b' l IH]; [done|]. intros [Hne Hl]%not_elem_of_cons. cbn.
    by rewrite decide_False, IH. }
  induction 1 as [|b' l Hb' Hnd IH]; intros Hb; [by apply not_elem_of_nil in Hb|]. cbn.
  case_decide as Hd; [subst; by rewrite Hno|].
  apply elem_of_cons in Hb as [->|Hb]; [done|]. rewrite IH by done. lia.
Qed.

Lemma sum_list_with_ext {A} (f g : A -> nat) l :
  (forall x, f x = g x) -> sum_list_with f l = sum_list_with g l.
Proof. intros E. induction l as [|x l IH]; cbn; [done|]. by rewrite E, IH. Qed.

Lemma trace_length (ids : list ChannelId) (k : nat) trace :
  NoDup ids -> (forall p, p ∈ trace -> p.1 ∈ ids) ->
  (forall b, (length (costs_of b trace) <= k)%nat) ->
  (length trace <= length ids * k)%nat.
Proof.
  intros Hnd Hin Hk.
  assert (length trace = sum_list_with (fun b => length (costs_of b trace)) ids) as ->.
  { clear Hk. induction trace as [|[b c] trace IH].
    - clear. by induction ids.
    - rewrite (sum_list_with_ext _ _ _ (fun b' => costs_of_cons b b' c trace)).
      rewrite sum_indicator; [|done|by apply (Hin (b, c)); left].
      cbn [length]. f_equal. apply IH. intros p Hp. apply Hin. by right. }
  clear Hnd Hin. induction ids as [|b ids IH]; [done|]. cbn. specialize (Hk b). lia.
Qed.

Definition known (m : Multiplexer) : gset ChannelId := dom (channels m) ∪ retired_channels m.

Lemma known_step m op b : mux_wf m -> b ∈ known m -> b ∈ known (mux_step m op).
Proof.
  intros Hw. unfold known. rewrite !elem_of_union, !elem_of_dom.
  destruct (mux_step_effect m op Hw) as [El Ec Er Eo Eb].
  intros [[s Hs]|Hr]; [|by right; auto].
  destruct (Eo b s Hs) as [?|(s' & Hs' & _)]; [by right|left; eauto].
Qed.

Lemma known_run ops m b : mux_wf m -> b ∈ known m -> b ∈ known (mux_run m ops).
Proof.
  unfold mux_run. revert m. induction ops as [|op ops IH]; intros m Hw Hb; [done|].
  apply IH; [by apply mux_step_wf|by apply known_step].
Qed.

Lemma known_size m : mux_wf m -> card (known m) <= max_channels (limits m).
Proof.
  intros Hw. pose proof (wf_slots m Hw) as Hs. pose proof (wf_retired_channels m Hw) as Hr.
  unfold known. rewrite size_union.
  - rewrite size_dom. lia.
  - intros b Hb Hret. apply Hr in Hret. apply elem_of_dom in Hb as [s Hs']. congruence.
Qed.

Lemma limits_run ops m : mux_wf m -> limits (mux_run m ops) = limits m.
Proof.
  unfold mux_run. revert m. induction ops as [|op ops IH]; intros m Hw; [done|].
  cbn. rewrite IH by by apply mux_step_wf. by apply mux_step_effect.
Qed.

Lemma trace_known a finish m ops trace p :
  mux_wf m -> finish < u128_max -> waits a finish m ops trace -> p ∈ trace ->
  p.1 ∈ known (mux_run m ops) /\ 1 <= p.2.
Proof.
  intros Hw Hf Hrun. induction Hrun as [m Hwait|m op ops trace Hwait Hrun IH]; intros Hp; [set_solver|].
  pose proof (mux_step_wf m op Hw) as Hw'.
  apply elem_of_app in Hp as [Hp|Hp]; [|by apply IH]. destruct p as [b c].
  destruct (service_spec a finish m op b c Hw Hwait Hf Hp) as (_ & Hs & Hc & _). split; [|done].
  change (mux_run m (op :: ops)) with (mux_run (mux_step m op) ops).
  apply known_run; [done|]. apply known_step; [done|].
  unfold known. apply elem_of_union_l. by apply elem_of_dom.
Qed.

Lemma total_cost_length (l : list N) : Forall (fun c => 1 <= c) l -> len l <= total_cost l.
Proof. unfold total_cost. induction 1; cbn [length foldr]; lia. Qed.

(** C3: weighted fairness.  However operations interleave, while channel [a]
    waits with a frame that finishes at virtual time [finish], the frames that
    any other channel sends cost together, except for the last one, no more
    than [a] itself still has to wait. *)
Theorem mux_fairness m a finish ops trace b costs last :
  mux_wf m -> finish < u128_max -> waits a finish m ops trace ->
  costs_of b trace = costs ++ [last] -> virtual_time m + total_cost costs <= finish.
Proof.
  intros Hw Hf Hrun Hc. pose proof (waits_cost a finish m ops trace b costs last Hw Hf Hrun Hc) as H.
  assert (virtual_time m <= next_start m b); [|lia].
  unfold next_start. case_match; lia.
Qed.

(** C10: no starvation.  In any state reached from a new multiplexer, a
    waiting channel is passed over by at most a fixed number of data frames,
    computed from the configured limits alone, before its own frame is sent,
    cancelled or discarded. *)
Theorem mux_no_starvation session_id l m0 ops0 a finish ops trace :
  mux_new session_id l = Ok m0 -> max_channels l <= usize_max ->
  let m := mux_run m0 ops0 in
  virtual_time m + 8 * N.max (max_frame_bytes l) 1 < u128_max ->
  waits a finish m ops trace ->
  len trace <= max_channels l * (8 * N.max (max_frame_bytes l) 1 + 1).
Proof.
  intros Hn Hmax m Hclock Hrun.
  pose proof (mux_new_wf _ _ _ Hn Hmax) as Hw0.
  assert (mux_wf m) as Hw by by apply mux_run_wf.
  assert (limits m = l) as Hl.
  { unfold m. rewrite limits_run by done. unfold mux_new in Hn. by inv_ok. }
  assert (lag_ok m) as Hlag.
  { apply lag_run; [done|]. unfold mux_new in Hn. inv_ok.
    assert (channels m0 = ∅) as He by (by rewrite <- Hn).
    intros id s. by rewrite He, lookup_empty. }
  assert (finish <= virtual_time m + 8 * N.max (max_frame_bytes l) 1) as Hfin.
  { assert (waiting a finish m) as (s & Hs & _ & <-) by by destruct Hrun.
    rewrite <- Hl. exact (Hlag a s Hs). }
  pose proof (trace_known a finish m ops trace) as Hknown.
  pose proof (known_size (mux_run m ops) (mux_run_wf ops m Hw)) as Hsize.
  rewrite limits_run, Hl in Hsize by done.
  pose proof (trace_length (elements (known (mux_run m ops)))
    (N.to_nat (8 * N.max (max_frame_bytes l) 1 + 1)) trace (NoDup_elements _)) as Hcount.
  transitivity (N.of_nat (length (elements (known (mux_run m ops)))
    * N.to_nat (8 * N.max (max_frame_bytes l) 1 + 1))).
  - match goal with |- N.of_nat ?x <= N.of_nat ?y => enough (x <= y)%nat by lia end. apply Hcount.
    + intros p Hp. apply elem_of_elements. by apply Hknown; [|lia| |].
    + intros b. destruct (costs_of b trace) as [|c cs _] eqn:Hc using rev_ind; [cbn; lia|].
      pose proof (waits_cost a finish m ops trace b cs c Hw ltac:(lia) Hrun Hc) as Hcost.
      assert (virtual_time m <= next_start m b) by (unfold next_start; case_match; lia).
      assert (len cs <= total_cost cs); [|nlia].
      apply total_cost_length, Forall_forall. intros x Hx.
      assert ((b, x) ∈ trace) as Hbx.
      { apply elem_of_costs. rewrite Hc. set_solver. }
      by apply (Hknown (b, x)); [|lia| |].
  - change (length (elements (known (mux_run m ops)))) with (size (known (mux_run m ops))). nia.
Qed.

(** ** Examples *)

(** Channel 5, of the least weight, waits while channel 6 sends twice. *)
Definition example_state : Multiplexer := mux_run example_mux [NextOp; NextOp].

Lemma example_waits :
  exists trace, waits 5 16 example_state [NextOp; NextOp] trace
                /\ costs_of 6 trace = [2] ++ [2].
Proof.
  eexists. split.
  - apply waits_cons; [|apply waits_cons; [|apply waits_nil]];
      (eexists; split_and!; [by vm_compute|done|done]).
  - by vm_compute.
Qed.

Lemma example_state_eq : example_state = mux_run example_mux0 (example_ops ++ [NextOp; NextOp]).
Proof. unfold example_state, example_mux, mux_run. by rewrite foldl_app. Qed.

Lemma mux_fairness_witness : virtual_time example_state + total_cost [2] <= 16.
Proof.
  destruct example_waits as (trace & Hrun & Hc).
  refine (mux_fairness example_state 5 16 [NextOp; NextOp] trace 6 [2] 2 _ _ Hrun Hc).
  - apply mux_run_wf, example_mux_wf.
  - reflexivity.
Defined.

Lemma mux_no_starvation_witness :
  exists trace, waits 5 16 example_state [NextOp; NextOp] trace
                /\ len trace <= 64 * (8 * N.max (1024 * 1024) 1 + 1).
Proof.
  destruct example_waits as (trace & Hrun & _). exists trace. split; [done|].
  refine (mux_no_starvation (id_of SessionKind 3) default_mux_limits example_mux0
           (example_ops ++ [NextOp; NextOp]) 5 16 [NextOp; NextOp] trace _ _ _ _).
  - reflexivity.
  - by vm_compute.
  - rewrite <- example_state_eq. apply N.ltb_lt. by vm_compute.
  - by rewrite <- example_state_eq.
Defined.
