(* ===== verification/Handshake.v ===== *)
(** * The handshake machine

    Models [handshake.rs]: the initiator and responder state machine, the
    negotiation of upper protocols and the session both sides agree on.
    [None] as the outcome of an operation is a panic of an [expect]. *)

From S2P Require Export Control.
Local Open Scope N_scope.

(** ** Offers *)

(** [s.rsplit_once(c)]. *)
Fixpoint rsplit_once (c : byte) (l : list byte) : option (list byte * list byte) :=
  match l with
  | [] => None
  | b :: l =>
    match rsplit_once c l with
    | Some (p, q) => Some (b :: p, q)
    | None => if bool_decide (b = c) then Some ([], l) else None
    end
  end.

(** [ProtocolOffer::from_debug_namespace]. *)
Definition from_debug_namespace `{Sha256} (namespace : list byte) (versions : VersionRange)
    : ProtocolOffer :=
  let '(authority, name) := default (str "local", namespace) (rsplit_once (chr ".") namespace) in
  let debug_identity := mkDebugIdentity authority name in
  let stable_id := debug_stable_id debug_identity in
  mkOffer stable_id (Some debug_identity) versions
    (schema_for_contract authority name 1 namespace) (capability_set_empty stable_id).

(** ** Frames, states and configuration *)

Record IdentityProof := mkProof { opaque : list byte }.

Inductive HandshakeFrame :=
| FHello (identity : Identity) (link_versions : VersionRange)
    (link_capabilities : LinkCapabilities) (protocols : list ProtocolOffer)
    (requested_auth : AuthPath)
| FChallenge (responder : Identity) (link_version : ProtocolVersion)
    (link_capabilities : LinkCapabilities) (auth_path : AuthPath) (nonce : vec byte 32)
| FIdentityProof (proof : IdentityProof)
| FSelection (session_id : SessionId) (protocols : list ProtocolSelection)
| FConfirm (session_id : SessionId)
| FConfirmed (session_id : SessionId)
| FReject (kind : HandshakeErrorKind.t).

Inductive HandshakeRole := Initiator | Responder.
#[export] Instance HandshakeRole_eq_dec : EqDecision HandshakeRole.
Proof. solve_decision. Defined.

Module HandshakeState.
Inductive t :=
| Ready | AwaitingHello | AwaitingChallenge | AwaitingProof | AwaitingVerification
| AwaitingSelection | AwaitingConfirmation | AwaitingConfirmed | Established | Failed.
#[global] Instance t_eq_dec : EqDecision t.
Proof. solve_decision. Defined.
End HandshakeState.

Record VerificationRequest := mkVerification {
  vr_peer_id : PeerId;
  vr_auth_path : AuthPath;
  vr_nonce : vec byte 32;
  vr_proof : IdentityProof;
}.

Inductive ProofDecision := Accept | Reject.
#[export] Instance ProofDecision_eq_dec : EqDecision ProofDecision.
Proof. solve_decision. Defined.

Record NegotiatedSession := mkNegotiated {
  ns_session_id : SessionId;
  ns_local : Identity;
  ns_remote : Identity;
  ns_link_version : ProtocolVersion;
  ns_link_capabilities : LinkCapabilities;
  ns_protocols : list ProtocolSelection;
  ns_auth_path : AuthPath;
}.

(** [NegotiatedSession::control_identity_mode] and [control_mode_guard]. *)
Definition control_identity_mode (s : NegotiatedSession) : ControlIdentityMode :=
  control_mode_negotiate (ns_link_capabilities s).
Definition control_mode_guard (s : NegotiatedSession) : ControlModeGuard :=
  mkGuard (control_identity_mode s).

Inductive HandshakeOutput :=
| Send (frame : HandshakeFrame)
| VerifyIdentity (request : VerificationRequest)
| OutEstablished (session : NegotiatedSession).

Record HandshakePolicy := mkPolicy {
  pol_link_versions : VersionRange;
  pol_link_capabilities : LinkCapabilities;
  pol_protocols : list ProtocolOffer;
  pol_pairing_protocols : list ProtocolOffer;
  allow_pairing : bool;
  trusted_peers : gset PeerId;
  max_protocol_offers : N;
  max_identity_proof_bytes : N;
}.

Record HandshakeConfig := mkHsConfig {
  hc_identity : Identity;
  hc_policy : HandshakePolicy;
  challenge_nonce : vec byte 32;
  identity_proof : IdentityProof;
  hc_session_id : SessionId;
}.

Record HandshakeMachine := mkMachine {
  role : HandshakeRole;
  hs_state : HandshakeState.t;
  hs_config : HandshakeConfig;
  remote : option Identity;
  auth_path : option AuthPath;
  link_version : option ProtocolVersion;
  link_capabilities : LinkCapabilities;
  selected_protocols : list ProtocolSelection;
  pending_verification : option VerificationRequest;
}.

Definition machine_new (r : HandshakeRole) (s : HandshakeState.t) (c : HandshakeConfig)
    : HandshakeMachine :=
  mkMachine r s c None None None (caps_from_bits 0) [] None.
Definition initiator (c : HandshakeConfig) : HandshakeMachine :=
  machine_new Initiator HandshakeState.Ready c.
Definition responder (c : HandshakeConfig) : HandshakeMachine :=
  machine_new Responder HandshakeState.AwaitingHello c.

(** ** Updates and failure *)

Definition set_state (m : HandshakeMachine) (s : HandshakeState.t) : HandshakeMachine :=
  mkMachine (role m) s (hs_config m) (remote m) (auth_path m) (link_version m)
    (link_capabilities m) (selected_protocols m) (pending_verification m).
Definition set_pending (m : HandshakeMachine) (p : option VerificationRequest)
    : HandshakeMachine :=
  mkMachine (role m) (hs_state m) (hs_config m) (remote m) (auth_path m) (link_version m)
    (link_capabilities m) (selected_protocols m) p.

(** [Err(self.fail(kind, message))]. *)
Definition fail {A} (m : HandshakeMachine) (kind : HandshakeErrorKind.t) (message : string)
    : HandshakeMachine * result HandshakeError A :=
  (set_state m HandshakeState.Failed, Err (mkHandshakeError kind message)).

Definition local_protocols (c : HandshakeConfig) (path : AuthPath) : list ProtocolOffer :=
  match path with
  | FirstPairing => pol_pairing_protocols (hc_policy c)
  | TrustedReconnect => pol_protocols (hc_policy c)
  end.

Section machine.
Context `{Sha256}.

(** An offer that [start] refuses to send. *)
Definition offer_inconsistent (o : ProtocolOffer) : bool :=
  (schema_revision (offer_schema o) =? 0)
  || negb (bool_decide (cap_protocol_id (offer_capabilities o) = offer_stable_id o))
  || negb (is_bounded (offer_capabilities o))
  || match offer_debug_identity o with
     | Some i => negb (bool_decide (debug_stable_id i = offer_stable_id o))
     | None => false
     end.

Definition start (m : HandshakeMachine) (path : AuthPath)
    : HandshakeMachine * result HandshakeError HandshakeFrame :=
  if negb (bool_decide (role m = Initiator))
     || negb (bool_decide (hs_state m = HandshakeState.Ready))
  then fail m HandshakeErrorKind.UnexpectedMessage
         "handshake cannot be started in the current state"
  else
    let policy := hc_policy (hs_config m) in
    let protocols := local_protocols (hs_config m) path in
    if max_protocol_offers policy <? len protocols
    then fail m HandshakeErrorKind.LimitExceeded "too many local protocol offers"
    else if existsb offer_inconsistent protocols
    then fail m HandshakeErrorKind.ProtocolConflict
           "upper protocol offer is internally inconsistent"
    else
      (mkMachine (role m) HandshakeState.AwaitingChallenge (hs_config m) (remote m) (Some path)
         (link_version m) (link_capabilities m) (selected_protocols m) (pending_verification m),
       Ok (FHello (hc_identity (hs_config m)) (pol_link_versions policy)
             (pol_link_capabilities policy) protocols path)).

(** ** Negotiation of upper protocols *)

(** The two sides describe one protocol differently. *)
Definition offers_conflict (l r : ProtocolOffer) : bool :=
  negb (bool_decide (offer_schema l = offer_schema r))
  || bool_decide (is_Some (offer_debug_identity l))
     && bool_decide (is_Some (offer_debug_identity r))
     && negb (bool_decide (offer_debug_identity l = offer_debug_identity r)).

Fixpoint negotiate_loop (stable_ids : gset ProtocolStableId) (local remote : list ProtocolOffer)
    : result () (list ProtocolSelection) :=
  match local with
  | [] => Ok []
  | l :: local =>
    if bool_decide (offer_stable_id l ∈ stable_ids) then negotiate_loop stable_ids local remote
    else
      let continue := negotiate_loop ({[offer_stable_id l]} ∪ stable_ids) local remote in
      match List.find (fun r => bool_decide (offer_stable_id r = offer_stable_id l)) remote with
      | None => continue
      | Some r =>
        if offers_conflict l r then Err ()
        else
          match range_negotiate (offer_versions l) (offer_versions r) with
          | None => continue
          | Some version =>
            capabilities ← ok_or () (capability_intersect (offer_capabilities l)
                                       (offer_capabilities r));
            selected ← continue;
            Ok (mkSelection (offer_stable_id l) version (offer_schema l) capabilities
                :: selected)
          end
      end
  end.
Definition negotiate_protocols (local remote : list ProtocolOffer)
    : result () (list ProtocolSelection) :=
  negotiate_loop ∅ local remote.

(** ** The responder's side *)

Definition receive_hello (m : HandshakeMachine) (identity : Identity)
    (link_versions : VersionRange) (remote_capabilities : LinkCapabilities)
    (protocols : list ProtocolOffer) (requested_auth : AuthPath)
    : HandshakeMachine * result HandshakeError (list HandshakeOutput) :=
  let policy := hc_policy (hs_config m) in
  if max_protocol_offers policy <? len protocols
  then fail m HandshakeErrorKind.LimitExceeded "too many protocol offers"
  else
    match range_negotiate (pol_link_versions policy) link_versions with
    | None => fail m HandshakeErrorKind.IncompatibleVersion
                "link protocol versions are incompatible"
    | Some version =>
      if bool_decide (requested_auth = FirstPairing) && negb (allow_pairing policy)
      then fail m HandshakeErrorKind.PairingDisabled "first pairing is disabled"
      else if bool_decide (requested_auth = TrustedReconnect)
              && negb (bool_decide (peer_id identity ∈ trusted_peers policy))
      then fail m HandshakeErrorKind.PeerNotTrusted "peer is not trusted"
      else
        match negotiate_protocols (local_protocols (hs_config m) requested_auth) protocols with
        | Err _ => fail m HandshakeErrorKind.ProtocolConflict
                     "upper protocol identity or schema conflicts"
        | Ok selected =>
          if bool_decide (selected = [])
          then fail m HandshakeErrorKind.NoSharedProtocol "no shared upper protocol"
          else
            let capabilities := caps_intersection (pol_link_capabilities policy)
                                  remote_capabilities in
            (mkMachine (role m) HandshakeState.AwaitingProof (hs_config m) (Some identity)
               (Some requested_auth) (Some version) capabilities selected
               (pending_verification m),
             Ok [Send (FChallenge (hc_identity (hs_config m)) version capabilities
                         requested_auth (challenge_nonce (hs_config m)))])
        end
    end.

(** The [IdentityProof] arm of [receive]. *)
Definition receive_proof (m : HandshakeMachine) (proof : IdentityProof)
    : option (HandshakeMachine * result HandshakeError (list HandshakeOutput)) :=
  if max_identity_proof_bytes (hc_policy (hs_config m)) <? len (opaque proof)
  then Some (fail m HandshakeErrorKind.LimitExceeded "identity proof exceeds configured limit")
  else
    r ← remote m;
    path ← auth_path m;
    let request := mkVerification (peer_id r) path (challenge_nonce (hs_config m)) proof in
    Some (set_state (set_pending m (Some request)) HandshakeState.AwaitingVerification,
          Ok [VerifyIdentity request]).

(** [decide_identity].  The pending request is taken once role and state match. *)
Definition decide_identity (m : HandshakeMachine) (decision : ProofDecision)
    : HandshakeMachine * result HandshakeError (list HandshakeOutput) :=
  if negb (bool_decide (role m = Responder))
     || negb (bool_decide (hs_state m = HandshakeState.AwaitingVerification))
  then fail m HandshakeErrorKind.UnexpectedMessage "identity decision is not expected"
  else
    let pending := pending_verification m in
    let m := set_pending m None in
    if bool_decide (pending = None)
    then fail m HandshakeErrorKind.UnexpectedMessage "identity decision is not expected"
    else if bool_decide (decision = Reject)
    then fail m HandshakeErrorKind.IdentityRejected "peer identity was rejected"
    else
      (set_state m HandshakeState.AwaitingConfirmation,
       Ok [Send (FSelection (hc_session_id (hs_config m)) (selected_protocols m))]).

(** ** The initiator's side *)

(** The [Challenge] arm of [receive]. *)
Definition receive_challenge (m : HandshakeMachine) (responder : Identity)
    (version : ProtocolVersion) (capabilities : LinkCapabilities) (path : AuthPath)
    : HandshakeMachine * result HandshakeError (list HandshakeOutput) :=
  let policy := hc_policy (hs_config m) in
  if bool_decide (range_negotiate (pol_link_versions policy) (range_single version) = None)
     || negb (bool_decide (auth_path m = Some path))
     || negb (caps_is_subset_of capabilities (pol_link_capabilities policy))
  then fail m HandshakeErrorKind.IncompatibleVersion
         "responder selected an incompatible handshake"
  else
    (mkMachine (role m) HandshakeState.AwaitingSelection (hs_config m) (Some responder)
       (auth_path m) (Some version) capabilities (selected_protocols m)
       (pending_verification m),
     Ok [Send (FIdentityProof (identity_proof (hs_config m)))]).

(** A selection is one of the local offers, at a version and with
    capabilities the offer allows. *)
Definition selection_matches (s : ProtocolSelection) (o : ProtocolOffer) : bool :=
  bool_decide (offer_stable_id o = sel_stable_id s)
  && bool_decide (offer_schema o = sel_schema s)
  && bool_decide (cap_protocol_id (offer_capabilities o) = cap_protocol_id (sel_capabilities s))
  && is_bounded (sel_capabilities s)
  && capability_is_subset_of (sel_capabilities s) (offer_capabilities o)
  && bool_decide (is_Some (range_negotiate (offer_versions o) (range_single (sel_version s)))).

Fixpoint validate_selections (stable_ids : gset ProtocolStableId) (local : list ProtocolOffer)
    (selected : list ProtocolSelection) : result HandshakeError () :=
  match selected with
  | [] => Ok ()
  | s :: selected =>
    reject bool_decide (sel_stable_id s ∈ stable_ids)
      with mkHandshakeError HandshakeErrorKind.ProtocolConflict
             "responder selected a protocol more than once";
    reject negb (existsb (selection_matches s) local)
      with mkHandshakeError HandshakeErrorKind.ProtocolConflict
             "responder selected an unsupported protocol";
    validate_selections ({[sel_stable_id s]} ∪ stable_ids) local selected
  end.

(** [validate_selection]; every error goes through [fail]. *)
Definition validate_selection (m : HandshakeMachine) (selected : list ProtocolSelection)
    : result HandshakeError () :=
  reject bool_decide (selected = [])
         || (max_protocol_offers (hc_policy (hs_config m)) <? len selected)
    with mkHandshakeError HandshakeErrorKind.NoSharedProtocol "invalid protocol selection";
  match auth_path m with
  | Some path => validate_selections ∅ (local_protocols (hs_config m) path) selected
  | None => Err (mkHandshakeError HandshakeErrorKind.UnexpectedMessage
                   "authentication path is not negotiated")
  end.

(** The [Selection] arm of [receive]. *)
Definition receive_selection (m : HandshakeMachine) (session_id : SessionId)
    (protocols : list ProtocolSelection)
    : HandshakeMachine * result HandshakeError (list HandshakeOutput) :=
  match validate_selection m protocols with
  | Err e => (set_state m HandshakeState.Failed, Err e)
  | Ok _ =>
    let c := hs_config m in
    (mkMachine (role m) HandshakeState.AwaitingConfirmed
       (mkHsConfig (hc_identity c) (hc_policy c) (challenge_nonce c) (identity_proof c) session_id)
       (remote m) (auth_path m) (link_version m) (link_capabilities m) protocols
       (pending_verification m),
     Ok [Send (FConfirm session_id)])
  end.

(** ** Establishment *)

Definition negotiated_session (m : HandshakeMachine) : option NegotiatedSession :=
  r ← remote m;
  version ← link_version m;
  path ← auth_path m;
  Some (mkNegotiated (hc_session_id (hs_config m)) (hc_identity (hs_config m)) r version
          (link_capabilities m) (selected_protocols m) path).

(** The [Confirm] and [Confirmed] arms of [receive]. *)
Definition receive_confirmation (m : HandshakeMachine) (session_id : SessionId)
    (reply : list HandshakeOutput)
    : option (HandshakeMachine * result HandshakeError (list HandshakeOutput)) :=
  if negb (bool_decide (session_id = hc_session_id (hs_config m)))
  then Some (fail m HandshakeErrorKind.InvalidConfirmation
               "session confirmation does not match")
  else
    let m := set_state m HandshakeState.Established in
    session ← negotiated_session m;
    Some (m, Ok (reply ++ [OutEstablished session])).

Definition receive (m : HandshakeMachine) (frame : HandshakeFrame)
    : option (HandshakeMachine * result HandshakeError (list HandshakeOutput)) :=
  match role m, hs_state m, frame with
  | Responder, HandshakeState.AwaitingHello,
    FHello identity link_versions capabilities protocols requested_auth =>
    Some (receive_hello m identity link_versions capabilities protocols requested_auth)
  | Initiator, HandshakeState.AwaitingChallenge,
    FChallenge responder version capabilities path _ =>
    Some (receive_challenge m responder version capabilities path)
  | Responder, HandshakeState.AwaitingProof, FIdentityProof proof => receive_proof m proof
  | Initiator, HandshakeState.AwaitingSelection, FSelection session_id protocols =>
    Some (receive_selection m session_id protocols)
  | Responder, HandshakeState.AwaitingConfirmation, FConfirm session_id =>
    receive_confirmation m session_id [Send (FConfirmed session_id)]
  | Initiator, HandshakeState.AwaitingConfirmed, FConfirmed session_id =>
    receive_confirmation m session_id []
  | _, _, FReject kind => Some (fail m kind "peer rejected handshake")
  | _, _, _ => Some (fail m HandshakeErrorKind.UnexpectedMessage "unexpected handshake message")
  end.
End machine.
