(* ===== verification/HandshakeFacts.v ===== *)
(** * Negotiation, agreement and authentication of the handshake *)

From S2P Require Export Handshake.
From S2P Require Import ControlCodecFacts.
Local Open Scope N_scope.

(** ** Words and capabilities *)

Lemma land_not_u64 b : b <= u64_max -> N.land b (not_u64 b) = 0.
Proof.
  intros Hb. unfold not_u64. change u64_max with (N.ones 64).
  destruct (N.eq_dec b 0) as [->|Hz]; [done|].
  apply N.land_lnot_diag_low. apply N.log2_lt_pow2; lia.
Qed.

Lemma land_subset a b : b <= u64_max -> N.land (N.land a b) (not_u64 b) = 0.
Proof. intros Hb. by rewrite <- N.land_assoc, land_not_u64, N.land_0_r. Qed.

Lemma words_subset_zip ws os :
  Forall (fun w => w <= u64_max) os -> words_subset (zip_with N.land ws os) os = true.
Proof.
  revert ws. induction os as [|o os IH]; intros [|w ws] Hos; cbn; try done.
  decompose_Forall_hyps. rewrite land_subset by done. by rewrite IH.
Qed.

Lemma intersect_Some a b c :
  capability_intersect a b = Some c <->
  cap_protocol_id a = cap_protocol_id b
  /\ c = mkCapabilitySet (cap_protocol_id a) (zip_with N.land (words a) (words b)).
Proof. unfold capability_intersect. case_bool_decide; naive_solver. Qed.

(** ** Negotiation of upper protocols *)

(** The offer a side is held to: its first one with that stable id. *)
Definition first_offer (id : ProtocolStableId) (offers : list ProtocolOffer) : option ProtocolOffer :=
  List.find (fun o => bool_decide (offer_stable_id o = id)) offers.

#[global] Arguments first_offer : simpl never.

(** What the two sides agree on for one protocol. *)
Definition agreed (local remote : list ProtocolOffer) (s : ProtocolSelection) : Prop :=
  exists l r, first_offer (sel_stable_id s) local = Some l
  /\ first_offer (sel_stable_id s) remote = Some r
  /\ range_negotiate (offer_versions l) (offer_versions r) = Some (sel_version s)
  /\ offer_schema l = sel_schema s /\ offer_schema r = sel_schema s
  /\ capability_intersect (offer_capabilities l) (offer_capabilities r)
     = Some (sel_capabilities s).

Lemma first_offer_Some id offers o :
  first_offer id offers = Some o -> o ∈ offers /\ offer_stable_id o = id.
Proof.
  intros Hf. apply List.find_some in Hf as [Hin Hid]. apply bool_decide_eq_true in Hid.
  split; [by apply list_elem_of_In|done].
Qed.

Lemma first_offer_cons id o offers :
  first_offer id (o :: offers)
  = if decide (offer_stable_id o = id) then Some o else first_offer id offers.
Proof. unfold first_offer. cbn. case_decide; [by rewrite bool_decide_true|by rewrite bool_decide_false]. Qed.

Lemma offers_conflict_false l r : offers_conflict l r = false -> offer_schema l = offer_schema r.
Proof. unfold offers_conflict. intros [Hs _]%orb_false_iff. by guards. Qed.

Lemma agreed_skip l local remote s :
  offer_stable_id l <> sel_stable_id s -> (agreed (l :: local) remote s <-> agreed local remote s).
Proof. intros Hne. unfold agreed. by rewrite first_offer_cons, decide_False. Qed.

Lemma negotiate_loop_spec ids local remote selected :
  negotiate_loop ids local remote = Ok selected ->
  NoDup (sel_stable_id <$> selected)
  /\ forall s, s ∈ selected <-> (sel_stable_id s ∉ ids) /\ agreed local remote s.
Proof.
  revert ids selected. induction local as [|l local IH]; intros ids selected Hn; cbn [negotiate_loop] in Hn.
  - simplify_eq. split; [constructor|]. intros s. split; [set_solver|].
    intros (_ & l & r & Hl & _). done.
  - case_bool_decide as Hid.
    { destruct (IH _ _ Hn) as [Hnd Hs]. split; [done|]. intros s. rewrite Hs.
      split; intros [Hni Ha]; (split; [done|]);
        (assert (offer_stable_id l <> sel_stable_id s) by congruence);
        by apply (agreed_skip l). }
    fold (first_offer (offer_stable_id l) remote) in Hn.
    assert (forall selected', negotiate_loop ({[offer_stable_id l]} ∪ ids) local remote = Ok selected' ->
      NoDup (sel_stable_id <$> selected') /\
      (forall s, s ∈ selected' <-> (sel_stable_id s ∉ ids) /\ offer_stable_id l <> sel_stable_id s
                                   /\ agreed (l :: local) remote s)) as Hrest.
    { intros selected' Hn'. destruct (IH _ _ Hn') as [Hnd Hs]. split; [done|]. intros s. rewrite Hs.
      rewrite not_elem_of_union, not_elem_of_singleton. split.
      - intros [[Hne Hni] Ha]. split_and!; [done|congruence|]. by apply agreed_skip.
      - intros (Hni & Hne & Ha). apply agreed_skip in Ha; [|done]. split; [|done]. split; [congruence|done]. }
    destruct (first_offer (offer_stable_id l) remote) as [r|] eqn:Hr.
    + destruct (offers_conflict l r) eqn:Hc; [done|]. apply offers_conflict_false in Hc.
      destruct (range_negotiate (offer_versions l) (offer_versions r)) as [v|] eqn:Hv.
      * inv_ok. destruct (Hrest _ Hn1) as [Hnd Hs]. split.
        { cbn. constructor; [|done]. intros (s & Hid' & Hin)%list_elem_of_fmap.
          apply Hs in Hin as (_ & Hne & _). done. }
        intros s. rewrite elem_of_cons, Hs. split.
        -- intros [->|(? & ? & ?)]; [|done]. split; [done|]. exists l, r. cbn.
           by rewrite first_offer_cons, decide_True.
        -- intros [Hni Ha]. destruct (decide (offer_stable_id l = sel_stable_id s)) as [E|]; [|by right].
           left. destruct Ha as (l' & r' & Hl' & Hr' & Hv' & Hs1 & Hs2 & Hc').
           rewrite first_offer_cons, decide_True in Hl' by done. simplify_eq.
           rewrite <- E, Hr in Hr'. simplify_eq. destruct s; cbn in *. congruence.
      * destruct (Hrest _ Hn) as [Hnd Hs]. split; [done|]. intros s. rewrite Hs.
        split; [naive_solver|]. intros [Hni Ha]. split_and!; try done. intros E.
        destruct Ha as (l' & r' & Hl' & Hr' & Hv' & _).
        rewrite first_offer_cons, decide_True in Hl' by done. simplify_eq.
        rewrite <- E, Hr in Hr'. by simplify_eq.
    + destruct (Hrest _ Hn) as [Hnd Hs]. split; [done|]. intros s. rewrite Hs.
      split; [naive_solver|]. intros [Hni Ha]. split_and!; try done. intros E.
      destruct Ha as (l' & r' & Hl' & Hr' & _). rewrite <- E in Hr'. congruence.
Qed.

(** Two offers for one protocol that cannot be reconciled. *)
Definition irreconcilable (local remote : list ProtocolOffer) (id : ProtocolStableId) : Prop :=
  exists l r, first_offer id local = Some l /\ first_offer id remote = Some r
    /\ (offers_conflict l r = true
        \/ is_Some (range_negotiate (offer_versions l) (offer_versions r))
           /\ cap_protocol_id (offer_capabilities l) <> cap_protocol_id (offer_capabilities r)).

Lemma negotiate_loop_err ids local remote :
  negotiate_loop ids local remote = Err () ->
  exists id, (id ∉ ids) /\ irreconcilable local remote id.
Proof.
  revert ids. induction local as [|l local IH]; intros ids Hn; cbn [negotiate_loop] in Hn; [done|].
  assert (forall ids', ids ⊆ ids' -> offer_stable_id l ∈ ids' ->
    negotiate_loop ids' local remote = Err () ->
    exists id, (id ∉ ids) /\ irreconcilable (l :: local) remote id) as Hrest.
  { intros ids' Hsub Hin (id & Hid & l' & r & Hl & Hr & Hc)%IH.
    exists id. split; [set_solver|]. exists l', r. split; [|done].
    rewrite first_offer_cons, decide_False; [done|]. by intros <-. }
  case_bool_decide as Hid; [by eapply Hrest|].
  fold (first_offer (offer_stable_id l) remote) in Hn.
  assert (negotiate_loop ({[offer_stable_id l]} ∪ ids) local remote = Err () ->
    exists id, (id ∉ ids) /\ irreconcilable (l :: local) remote id) as Hnext.
  { apply Hrest; set_solver. }
  destruct (first_offer (offer_stable_id l) remote) as [r|] eqn:Hr; [|auto].
  assert (forall P : Prop, P -> (P -> offers_conflict l r = true
    \/ is_Some (range_negotiate (offer_versions l) (offer_versions r))
       /\ cap_protocol_id (offer_capabilities l) <> cap_protocol_id (offer_capabilities r)) ->
    exists id, (id ∉ ids) /\ irreconcilable (l :: local) remote id) as Hhere.
  { intros P HP Hc. exists (offer_stable_id l). split; [done|]. exists l, r.
    rewrite first_offer_cons, decide_True by done. eauto. }
  destruct (offers_conflict l r) eqn:Hc; [by apply (Hhere True); auto|].
  destruct (range_negotiate _ _) as [v|] eqn:Hv; [|auto].
  unfold capability_intersect in Hn. case_bool_decide as Hcap; cbn in Hn.
  - destruct (negotiate_loop _ local remote) as [|[]] eqn:Hl; [done|]. auto.
  - apply (Hhere True); auto.
Qed.

Lemma negotiate_loop_complete ids local remote selected id :
  negotiate_loop ids local remote = Ok selected -> (id ∉ ids) ->
  ~ irreconcilable local remote id.
Proof.
  revert ids selected. induction local as [|l local IH]; intros ids selected Hn Hid (l' & r & Hl & Hr & Hc);
    cbn [negotiate_loop] in Hn; [done|].
  rewrite first_offer_cons in Hl.
  fold (first_offer (offer_stable_id l) remote) in Hn.
  case_decide as He.
  - simplify_eq. rewrite bool_decide_false in Hn by done. rewrite Hr in Hn.
    destruct Hc as [Hc|[[v Hv] Hc]].
    + by rewrite Hc in Hn.
    + destruct (offers_conflict l' r); [done|]. rewrite Hv in Hn. inv_ok.
      unfold capability_intersect in *. by rewrite bool_decide_false in *.
  - assert (irreconcilable local remote id) as Hirr by by exists l', r.
    case_bool_decide; [by eapply IH|].
    assert (forall sel, negotiate_loop ({[offer_stable_id l]} ∪ ids) local remote = Ok sel -> False) as Hno.
    { intros sel Hsel. eapply IH; [exact Hsel| |done]. set_solver. }
    destruct (first_offer (offer_stable_id l) remote) as [r'|]; [|by eapply Hno].
    destruct (offers_conflict l r'); [done|].
    destruct (range_negotiate _ _); [|by eapply Hno]. inv_ok. by eapply Hno.
Qed.

(** ** Runs of a machine *)

(** What can happen to a machine: its owner starts it or decides on an
    identity, or a frame arrives, from anyone. *)
Inductive hs_event :=
| EvStart (path : AuthPath)
| EvReceive (frame : HandshakeFrame)
| EvDecide (decision : ProofDecision).

Section runs.
Context `{Sha256}.

Definition hs_step (m : HandshakeMachine) (ev : hs_event)
    : option (HandshakeMachine * result HandshakeError (list HandshakeOutput)) :=
  match ev with
  | EvStart path => let '(m, r) := start m path in Some (m, hello ← r; Ok [Send hello])
  | EvReceive frame => receive m frame
  | EvDecide decision => Some (decide_identity m decision)
  end.

Definition outputs (r : result HandshakeError (list HandshakeOutput)) : list HandshakeOutput :=
  match r with Ok outs => outs | Err _ => [] end.

Fixpoint hs_run (m : HandshakeMachine) (evs : list hs_event)
    : option (HandshakeMachine * list HandshakeOutput) :=
  match evs with
  | [] => Some (m, [])
  | ev :: evs =>
    '(m, r) ← hs_step m ev;
    '(m, outs) ← hs_run m evs;
    Some (m, outputs r ++ outs)
  end.

(** The responder accepted a hello: the peer is allowed on that path, and the
    version, capabilities and protocols are what negotiation gives. *)
Definition hello_accepted (m : HandshakeMachine) : Prop :=
  let policy := hc_policy (hs_config m) in
  exists identity versions capabilities offers path version,
    remote m = Some identity /\ auth_path m = Some path /\ link_version m = Some version
    /\ range_negotiate (pol_link_versions policy) versions = Some version
    /\ link_capabilities m = caps_intersection (pol_link_capabilities policy) capabilities
    /\ negotiate_protocols (local_protocols (hs_config m) path) offers = Ok (selected_protocols m)
    /\ selected_protocols m <> []
    /\ match path with
       | FirstPairing => allow_pairing policy = true
       | TrustedReconnect => peer_id identity ∈ trusted_peers policy
       end.

(** The initiator accepted a challenge. *)
Definition challenge_accepted (m : HandshakeMachine) : Prop :=
  let policy := hc_policy (hs_config m) in
  exists responder path version,
    remote m = Some responder /\ auth_path m = Some path /\ link_version m = Some version
    /\ range_admits (pol_link_versions policy) version
    /\ caps_is_subset_of (link_capabilities m) (pol_link_capabilities policy) = true.

(** The initiator accepted a selection: each protocol once, and each one of
    its own offers. *)
Definition selection_accepted (m : HandshakeMachine) : Prop :=
  exists path, auth_path m = Some path
    /\ selected_protocols m <> []
    /\ NoDup (sel_stable_id <$> selected_protocols m)
    /\ Forall (fun s => exists o, o ∈ local_protocols (hs_config m) path
                                 /\ selection_matches s o = true) (selected_protocols m).

Definition hs_inv (m : HandshakeMachine) : Prop :=
  match role m, hs_state m with
  | _, HandshakeState.Failed => True
  | Initiator, HandshakeState.Ready => True
  | Initiator, HandshakeState.AwaitingChallenge => is_Some (auth_path m)
  | Initiator, HandshakeState.AwaitingSelection => challenge_accepted m
  | Initiator, (HandshakeState.AwaitingConfirmed | HandshakeState.Established) =>
    challenge_accepted m /\ selection_accepted m
  | Responder, HandshakeState.AwaitingHello => True
  | Responder, (HandshakeState.AwaitingProof | HandshakeState.AwaitingConfirmation
               | HandshakeState.Established) => hello_accepted m
  | Responder, HandshakeState.AwaitingVerification =>
    hello_accepted m /\ is_Some (pending_verification m)
  | _, _ => False
  end.

Lemma validate_selections_ok ids local selected :
  validate_selections ids local selected = Ok () ->
  NoDup (sel_stable_id <$> selected)
  /\ Forall (fun s => sel_stable_id s ∉ ids) selected
  /\ Forall (fun s => exists o, o ∈ local /\ selection_matches s o = true) selected.
Proof.
  revert ids. induction selected as [|s selected IH]; intros ids Hv; cbn in Hv.
  - split_and!; constructor.
  - inv_ok. guards. apply IH in Hv as (Hnd & Hni & Hall). split_and!.
    + cbn. constructor; [|done]. intros (s' & Hid & Hin)%list_elem_of_fmap.
      rewrite Forall_forall in Hni. specialize (Hni s' Hin). set_solver.
    + constructor; [done|]. eapply Forall_impl; [exact Hni|]. set_solver.
    + constructor; [|done]. rename select (existsb _ _ = true) into He.
      apply existsb_exists in He as (o & Ho & Hm). exists o. by rewrite list_elem_of_In.
Qed.

Lemma failed_inv m : hs_inv (set_state m HandshakeState.Failed).
Proof. unfold hs_inv. cbn. by destruct (role m). Qed.

Lemma fail_inv {A} m kind msg : hs_inv (@fail A m kind msg).1.
Proof. apply failed_inv. Qed.

Lemma start_inv m path : hs_inv m -> hs_inv (start m path).1.
Proof.
  intros Hi. unfold start. destruct (_ || _)%bool eqn:Hg; [apply fail_inv|]. guards.
  rename select (role m = _) into Hr.
  case_match; [apply fail_inv|]. case_match; [apply fail_inv|].
  unfold hs_inv. cbn. by rewrite Hr.
Qed.

Lemma receive_hello_inv m i v c ps a :
  role m = Responder -> hs_inv (receive_hello m i v c ps a).1.
Proof.
  intros Hr. unfold receive_hello.
  case_match; [apply fail_inv|].
  destruct (range_negotiate _ v) as [version|] eqn:Hv; [|apply fail_inv].
  destruct (bool_decide (a = FirstPairing) && _) eqn:Hp; [apply fail_inv|].
  destruct (bool_decide (a = TrustedReconnect) && _) eqn:Ht; [apply fail_inv|].
  destruct (negotiate_protocols _ ps) as [sel|] eqn:Hn; [|apply fail_inv].
  destruct (bool_decide (sel = [])) eqn:Hs; [apply fail_inv|]. guards.
  unfold hs_inv. cbn. rewrite Hr. exists i, v, c, ps, a, version. cbn. split_and!; try done.
  destruct a; [rewrite bool_decide_true in Hp by done|rewrite bool_decide_true in Ht by done];
    cbn in *; by guards.
Qed.

Lemma receive_proof_inv m proof :
  role m = Responder -> hs_state m = HandshakeState.AwaitingProof -> hs_inv m ->
  exists m' r, receive_proof m proof = Some (m', r) /\ hs_inv m'.
Proof.
  intros Hr Hs Hi. unfold hs_inv in Hi. rewrite Hr, Hs in Hi. unfold receive_proof.
  case_match; [by eexists _, _; split; [done|exact (failed_inv m)]|].
  pose proof Hi as (i & v & c & ps & a & version & Hrem & Hpath & Hrest).
  rewrite Hrem. cbn. rewrite Hpath. cbn. eexists _, _. split; [done|].
  unfold hs_inv. cbn. rewrite Hr. split; [exact Hi|done].
Qed.

Lemma decide_identity_inv m d : hs_inv m -> hs_inv (decide_identity m d).1.
Proof.
  intros Hi. unfold decide_identity. destruct (_ || _)%bool eqn:Hg; [apply fail_inv|]. guards.
  rename select (role m = _) into Hr. rename select (hs_state m = _) into Hs.
  case_match; [apply fail_inv|]. case_match; [apply fail_inv|].
  unfold hs_inv in *. rewrite Hr, Hs in Hi. destruct Hi as [Hi _]. cbn. by rewrite Hr.
Qed.

Lemma receive_challenge_inv m i v c a : role m = Initiator -> hs_inv (receive_challenge m i v c a).1.
Proof.
  intros Hr. unfold receive_challenge. destruct (_ || _)%bool eqn:Hg; [apply fail_inv|]. guards.
  unfold hs_inv. cbn. rewrite Hr. exists i, a, v. cbn. split_and!; try done.
  apply range_negotiate_single. by apply not_eq_None_Some.
Qed.

Lemma receive_selection_inv m sid ps :
  role m = Initiator -> hs_state m = HandshakeState.AwaitingSelection -> hs_inv m ->
  hs_inv (receive_selection m sid ps).1.
Proof.
  intros Hr Hs Hi. unfold receive_selection.
  destruct (validate_selection m ps) as [[]|e] eqn:Hv; [|exact (failed_inv m)].
  unfold hs_inv in *. rewrite Hr, Hs in Hi. cbn. rewrite Hr. split; [exact Hi|].
  unfold validate_selection in Hv. inv_ok. guards.
  destruct (auth_path m) as [path|] eqn:Hp; [|done].
  apply validate_selections_ok in Hv as (Hnd & _ & Hall). exists path. by split_and!.
Qed.

Lemma receive_confirmation_inv m sid reply :
  hs_inv (set_state m HandshakeState.Established) ->
  (role m = Responder -> hello_accepted m) -> (role m = Initiator -> challenge_accepted m) ->
  exists m' r, receive_confirmation m sid reply = Some (m', r) /\ hs_inv m'.
Proof.
  intros Hi H1 H2. unfold receive_confirmation.
  case_match; [by eexists _, _; split; [done|exact (failed_inv m)]|].
  assert (exists s, negotiated_session (set_state m HandshakeState.Established) = Some s) as [s Hs].
  { unfold negotiated_session. cbn. destruct (role m).
    - destruct (H2 eq_refl) as (i & a & v & -> & -> & -> & _). cbn. eauto.
    - destruct (H1 eq_refl) as (i & v & c & ps & a & version & -> & -> & -> & _). cbn. eauto. }
  rewrite Hs. cbn. eauto.
Qed.

Lemma receive_inv m frame : hs_inv m -> exists m' r, receive m frame = Some (m', r) /\ hs_inv m'.
Proof.
  intros Hi.
  assert (forall kind msg, exists m' r,
    Some (@fail (list HandshakeOutput) m kind msg) = Some (m', r) /\ hs_inv m') as Hfail.
  { intros kind msg. eexists _, _. split; [done|]. exact (failed_inv m). }
  unfold receive. destruct (role m) eqn:Hr, (hs_state m) eqn:Hs, frame; try apply Hfail.
  - eexists _, _. split; [apply (f_equal Some), surjective_pairing|]. by apply receive_challenge_inv.
  - eexists _, _. split; [apply (f_equal Some), surjective_pairing|]. by apply receive_selection_inv.
  - unfold hs_inv in Hi. rewrite Hr, Hs in Hi. destruct Hi as [Hi1 Hi2].
    apply receive_confirmation_inv; [|congruence|done]. unfold hs_inv. cbn. rewrite Hr. by split.
  - eexists _, _. split; [apply (f_equal Some), surjective_pairing|]. by apply receive_hello_inv.
  - by apply receive_proof_inv.
  - unfold hs_inv in Hi. rewrite Hr, Hs in Hi.
    apply receive_confirmation_inv; [|done|congruence]. unfold hs_inv. cbn. by rewrite Hr.
Qed.

(** No step panics, and every step keeps the invariant. *)
Lemma hs_step_inv m ev : hs_inv m -> exists m' r, hs_step m ev = Some (m', r) /\ hs_inv m'.
Proof.
  intros Hi. destruct ev as [path|frame|d]; cbn [hs_step].
  - pose proof (start_inv m path Hi) as Hi'. destruct (start m path) as [m' r]. eauto.
  - by apply receive_inv.
  - pose proof (decide_identity_inv m d Hi) as Hi'. destruct (decide_identity m d) as [m' r]. eauto.
Qed.

Lemma hs_run_inv m evs : hs_inv m -> exists m' outs, hs_run m evs = Some (m', outs) /\ hs_inv m'.
Proof.
  revert m. induction evs as [|ev evs IH]; intros m Hi; cbn; [eauto|].
  destruct (hs_step_inv m ev Hi) as (m1 & r & Hs & Hi1). rewrite Hs. cbn.
  destruct (IH m1 Hi1) as (m2 & outs & Hr & Hi2). rewrite Hr. cbn. eauto.
Qed.
(** ** History *)

(** A verification request that describes the peer of the machine. *)
Definition verified (m : HandshakeMachine) (r : VerificationRequest) : Prop :=
  (exists i, remote m = Some i /\ vr_peer_id r = peer_id i)
  /\ auth_path m = Some (vr_auth_path r) /\ vr_nonce r = challenge_nonce (hs_config m).

(** What a responder has asked and been told before it reaches a state. *)
Definition hs_history (m : HandshakeMachine) (evs : list hs_event) (outs : list HandshakeOutput)
    : Prop :=
  match role m, hs_state m with
  | Responder, HandshakeState.AwaitingVerification =>
    exists r, pending_verification m = Some r /\ VerifyIdentity r ∈ outs /\ verified m r
  | Responder, (HandshakeState.AwaitingConfirmation | HandshakeState.Established) =>
    exists r, VerifyIdentity r ∈ outs /\ verified m r /\ EvDecide Accept ∈ evs
  | _, _ => True
  end.

Lemma history_failed m evs outs : hs_history (set_state m HandshakeState.Failed) evs outs.
Proof. unfold hs_history. cbn. by destruct (role m). Qed.

Lemma history_other m evs outs :
  role m = Initiator \/ (hs_state m <> HandshakeState.AwaitingVerification
    /\ hs_state m <> HandshakeState.AwaitingConfirmation
    /\ hs_state m <> HandshakeState.Established) -> hs_history m evs outs.
Proof.
  unfold hs_history. intros [->|(? & ? & ?)]; [done|].
  by destruct (role m), (hs_state m).
Qed.

(** The role and what the owner configured stay; the initiator adopts the
    session id of the selection. *)
Definition same_config (m m' : HandshakeMachine) : Prop :=
  let c := hs_config m in
  let c' := hs_config m' in
  role m' = role m /\ hc_policy c' = hc_policy c /\ hc_identity c' = hc_identity c
  /\ challenge_nonce c' = challenge_nonce c
  /\ (role m = Responder -> hc_session_id c' = hc_session_id c).

Lemma same_config_trans m1 m2 m3 : same_config m1 m2 -> same_config m2 m3 -> same_config m1 m3.
Proof.
  intros (R1 & P1 & I1 & N1 & S1) (R2 & P2 & I2 & N2 & S2). unfold same_config.
  split_and!; [congruence..|]. intros Hr. rewrite S2, S1; congruence.
Qed.

(** The successful steps, by the state they start from. *)
Inductive hs_arm (m : HandshakeMachine) : hs_event -> HandshakeMachine -> list HandshakeOutput -> Prop :=
| arm_start path m' hello :
    role m = Initiator -> hs_state m = HandshakeState.Ready ->
    hs_state m' = HandshakeState.AwaitingChallenge -> same_config m m' ->
    hs_arm m (EvStart path) m' [Send hello]
| arm_hello frame m' challenge :
    role m = Responder -> hs_state m = HandshakeState.AwaitingHello ->
    hs_state m' = HandshakeState.AwaitingProof -> same_config m m' ->
    hs_arm m (EvReceive frame) m' [Send challenge]
| arm_challenge frame m' proof :
    role m = Initiator -> hs_state m = HandshakeState.AwaitingChallenge ->
    hs_state m' = HandshakeState.AwaitingSelection -> same_config m m' ->
    hs_arm m (EvReceive frame) m' [Send proof]
| arm_proof proof r :
    role m = Responder -> hs_state m = HandshakeState.AwaitingProof -> verified m r ->
    hs_arm m (EvReceive (FIdentityProof proof))
      (set_state (set_pending m (Some r)) HandshakeState.AwaitingVerification) [VerifyIdentity r]
| arm_decide :
    role m = Responder -> hs_state m = HandshakeState.AwaitingVerification ->
    hs_arm m (EvDecide Accept) (set_state (set_pending m None) HandshakeState.AwaitingConfirmation)
      [Send (FSelection (hc_session_id (hs_config m)) (selected_protocols m))]
| arm_selection frame m' confirm :
    role m = Initiator -> hs_state m = HandshakeState.AwaitingSelection ->
    hs_state m' = HandshakeState.AwaitingConfirmed -> same_config m m' ->
    hs_arm m (EvReceive frame) m' [Send confirm]
| arm_confirm session :
    role m = Responder -> hs_state m = HandshakeState.AwaitingConfirmation ->
    negotiated_session m = Some session ->
    hs_arm m (EvReceive (FConfirm (hc_session_id (hs_config m))))
      (set_state m HandshakeState.Established)
      [Send (FConfirmed (hc_session_id (hs_config m))); OutEstablished session]
| arm_confirmed session :
    role m = Initiator -> hs_state m = HandshakeState.AwaitingConfirmed ->
    negotiated_session m = Some session ->
    hs_arm m (EvReceive (FConfirmed (hc_session_id (hs_config m))))
      (set_state m HandshakeState.Established) [OutEstablished session].

Definition step_failed (m m' : HandshakeMachine) (r : result HandshakeError (list HandshakeOutput)) :=
  hs_state m' = HandshakeState.Failed /\ same_config m m' /\ exists e, r = Err e.

Ltac failed_step := left; unfold step_failed, same_config, fail in *; simplify_eq/=; by eauto 10.

Lemma receive_confirmation_cases m sid reply m' r :
  receive_confirmation m sid reply = Some (m', r) ->
  step_failed m m' r \/ (sid = hc_session_id (hs_config m) /\ m' = set_state m HandshakeState.Established
    /\ exists s, negotiated_session m = Some s /\ r = Ok (reply ++ [OutEstablished s])).
Proof.
  unfold receive_confirmation. destruct (negb _) eqn:Hg; intros Hs; [failed_step|]. guards.
  right. destruct (negotiated_session _) as [s|] eqn:Hn; [|done]. cbn in Hs. simplify_eq.
  split_and!; try done. by exists s.
Qed.

Lemma receive_cases m frame m' r :
  receive m frame = Some (m', r) ->
  step_failed m m' r \/ exists outs, r = Ok outs /\ hs_arm m (EvReceive frame) m' outs.
Proof.
  unfold receive. destruct (role m) eqn:Hr, (hs_state m) eqn:Hs, frame; intros Hstep;
    simplify_eq/=; try failed_step.
  - unfold receive_challenge in Hstep. destruct (_ || _)%bool; [failed_step|]. simplify_eq.
    right. eexists. split; [done|]. by apply arm_challenge.
  - unfold receive_selection in Hstep. destruct (validate_selection _ _); [|failed_step]. simplify_eq.
    right. eexists. split; [done|]. apply arm_selection; try done.
    unfold same_config. cbn. split_and!; [done..|congruence].
  - apply receive_confirmation_cases in Hstep as [?|(-> & -> & s & Hn & ->)]; [by left|].
    right. eexists. split; [done|]. by apply arm_confirmed.
  - unfold receive_hello in Hstep. destruct (_ <? _); [failed_step|].
    destruct (range_negotiate _ _); [|failed_step].
    destruct (bool_decide (_ = FirstPairing) && _); [failed_step|].
    destruct (bool_decide (_ = TrustedReconnect) && _); [failed_step|].
    destruct (negotiate_protocols _ _); [|failed_step].
    destruct (bool_decide (_ = [])); [failed_step|]. simplify_eq.
    right. eexists. split; [done|]. by apply arm_hello.
  - unfold receive_proof in Hstep. destruct (_ <? _); [failed_step|].
    destruct (remote m) as [i|] eqn:Hi; [|done]. destruct (auth_path m) as [a|] eqn:Ha; [|done].
    simplify_eq/=. right. eexists. split; [done|]. apply arm_proof; [done|done|].
    split; [by exists i|done].
  - apply receive_confirmation_cases in Hstep as [?|(-> & -> & s & Hn & ->)]; [by left|].
    right. eexists. split; [done|]. by apply arm_confirm.
Qed.

Lemma hs_step_cases m ev m' r :
  hs_step m ev = Some (m', r) ->
  step_failed m m' r \/ exists outs, r = Ok outs /\ hs_arm m ev m' outs.
Proof.
  destruct ev as [path|frame|d]; cbn [hs_step]; intros Hstep.
  - unfold start in Hstep. destruct (_ || _)%bool eqn:Hg; [failed_step|]. guards.
    destruct (_ <? _); [failed_step|]. destruct (existsb _ _); [failed_step|]. simplify_eq/=.
    right. eexists. split; [done|]. by apply arm_start.
  - by apply receive_cases.
  - unfold decide_identity in Hstep. destruct (_ || _)%bool eqn:Hg; [failed_step|]. guards.
    destruct (bool_decide (_ = None)); [failed_step|].
    destruct d; [|failed_step]. simplify_eq/=.
    right. eexists. split; [done|]. by apply arm_decide.
Qed.

Lemma history_step m evs outs ev m' r :
  hs_history m evs outs -> hs_step m ev = Some (m', r) ->
  hs_history m' (evs ++ [ev]) (outs ++ outputs r).
Proof.
  intros Hh Hs. apply hs_step_cases in Hs as [(Hf & _ & e & ->)|(o & -> & Harm)].
  - apply history_other. right. by rewrite Hf.
  - cbn [outputs]. destruct Harm as [| | |proof q Hr Hst Hv|Hr Hst| |s Hr Hst Hn|s Hr Hst Hn];
      try (apply history_other; left; unfold same_config in *; cbn; by intuition congruence).
    + apply history_other. right. by split_and!; congruence.
    + unfold hs_history. cbn. rewrite Hr. exists q. split_and!; [done|set_solver|exact Hv].
    + unfold hs_history in *. rewrite Hr, Hst in Hh. destruct Hh as (q & _ & Hin & Hv).
      cbn. rewrite Hr. exists q. split_and!; [set_solver|exact Hv|set_solver].
    + unfold hs_history in *. rewrite Hr, Hst in Hh. destruct Hh as (q & Hin & Hv & Hd).
      cbn. rewrite Hr. exists q. split_and!; [set_solver|exact Hv|set_solver].
Qed.

Lemma history_run m evs0 outs0 evs m' outs :
  hs_history m evs0 outs0 -> hs_run m evs = Some (m', outs) ->
  hs_history m' (evs0 ++ evs) (outs0 ++ outs).
Proof.
  revert m evs0 outs0 outs. induction evs as [|ev evs IH]; intros m evs0 outs0 outs Hh Hrun; cbn in Hrun.
  - simplify_eq. by rewrite !app_nil_r.
  - destruct (hs_step m ev) as [[m1 r]|] eqn:Hs; [|done]. cbn in Hrun.
    destruct (hs_run m1 evs) as [[m2 o]|] eqn:Hr; [|done]. cbn in Hrun. simplify_eq.
    pose proof (IH _ _ _ _ (history_step _ _ _ _ _ _ Hh Hs) Hr) as H1.
    by rewrite <- !app_assoc in H1.
Qed.

Lemma step_config m ev m' r : hs_step m ev = Some (m', r) -> same_config m m'.
Proof.
  intros Hs. apply hs_step_cases in Hs as [(_ & ? & _)|(? & _ & Harm)]; [done|].
  by destruct Harm.
Qed.

Lemma run_config m evs m' outs : hs_run m evs = Some (m', outs) -> same_config m m'.
Proof.
  revert m outs. induction evs as [|ev evs IH]; intros m outs Hrun; cbn in Hrun; [by simplify_eq|].
  destruct (hs_step m ev) as [[m1 r]|] eqn:Hs; [|done]. cbn in Hrun.
  destruct (hs_run m1 evs) as [[m2 o]|] eqn:Hr; [|done]. cbn in Hrun. simplify_eq.
  eapply same_config_trans; [by eapply step_config|by eapply IH].
Qed.
End runs.
