(* ===== verification/HandshakeProps.v ===== *)
(** * What the handshake guarantees

    Agreement of an honest run, authentication against an arbitrary peer,
    termination in absorbing states, and the negotiation of upper protocols. *)

From S2P Require Export HandshakeFacts.
From S2P Require Import ControlCodecFacts.
Local Open Scope N_scope.

(** ** The honest run *)

(** Both sides driven by each other's frames, the responder's owner accepting
    the identity; [None] when a side fails or answers anything else. *)
Definition expect_send (o : option (HandshakeMachine * result HandshakeError (list HandshakeOutput)))
    : option (HandshakeMachine * HandshakeFrame) :=
  match o with Some (m, Ok [Send f]) => Some (m, f) | _ => None end.

Section honest.
Context `{Sha256}.

Definition answer_hello (ci cr : HandshakeConfig) (path : AuthPath)
    : option (HandshakeMachine * HandshakeMachine * HandshakeFrame) :=
  match start (initiator ci) path with
  | (i, Ok hello) =>
    '(r, challenge) ← expect_send (receive (responder cr) hello);
    Some (i, r, challenge)
  | _ => None
  end.

Definition honest_run (ci cr : HandshakeConfig) (path : AuthPath)
    : option (NegotiatedSession * NegotiatedSession) :=
  '(i, r, challenge) ← answer_hello ci cr path;
  '(i, proof) ← expect_send (receive i challenge);
  match receive r proof with
  | Some (r, Ok [VerifyIdentity _]) =>
    '(r, selection) ← expect_send (Some (decide_identity r Accept));
    '(i, confirm) ← expect_send (receive i selection);
    match receive r confirm with
    | Some (_, Ok [Send confirmed; OutEstablished sr]) =>
      match receive i confirmed with
      | Some (_, Ok [OutEstablished si]) => Some (si, sr)
      | _ => None
      end
    | _ => None
    end
  | _ => None
  end.

(** The integers of a policy fit their types. *)
Definition policy_wf (p : HandshakePolicy) : Prop :=
  bits (pol_link_capabilities p) <= u64_max
  /\ Forall (fun o => capabilities_wf (offer_capabilities o))
       (pol_protocols p ++ pol_pairing_protocols p).

Lemma local_offers_wf c path :
  policy_wf (hc_policy c) ->
  Forall (fun o => capabilities_wf (offer_capabilities o)) (local_protocols c path).
Proof. intros [_ Hall]. apply Forall_app in Hall as [? ?]. by destruct path. Qed.

Lemma start_Ok c path i hello :
  start (initiator c) path = (i, Ok hello) ->
  let p := hc_policy c in
  hello = FHello (hc_identity c) (pol_link_versions p) (pol_link_capabilities p)
            (local_protocols c path) path
  /\ i = mkMachine Initiator HandshakeState.AwaitingChallenge c None (Some path) None
           (caps_from_bits 0) [] None
  /\ len (local_protocols c path) <= max_protocol_offers p
  /\ Forall (fun o => offer_inconsistent o = false) (local_protocols c path).
Proof.
  unfold start. destruct (_ || _)%bool; [done|].
  destruct (_ <? _) eqn:Hl; [done|]. destruct (existsb _ _) eqn:He; [done|].
  cbn. intros Hs. simplify_eq. guards. split_and!; try done.
  apply Forall_forall. intros o Ho. destruct (offer_inconsistent o) eqn:Hi; [|done].
  rewrite <- not_true_iff_false in He. destruct He. apply existsb_exists.
  exists o. by rewrite <- list_elem_of_In.
Qed.

Lemma receive_hello_Ok m identity v caps offers path r out :
  receive_hello m identity v caps offers path = (r, Ok out) ->
  exists version selected,
    range_negotiate (pol_link_versions (hc_policy (hs_config m))) v = Some version
    /\ negotiate_protocols (local_protocols (hs_config m) path) offers = Ok selected
    /\ selected <> []
    /\ r = mkMachine (role m) HandshakeState.AwaitingProof (hs_config m) (Some identity)
             (Some path) (Some version)
             (caps_intersection (pol_link_capabilities (hc_policy (hs_config m))) caps) selected
             (pending_verification m)
    /\ out = [Send (FChallenge (hc_identity (hs_config m)) version
               (caps_intersection (pol_link_capabilities (hc_policy (hs_config m))) caps)
               path (challenge_nonce (hs_config m)))].
Proof.
  unfold receive_hello. destruct (_ <? _); [done|].
  destruct (range_negotiate _ _) as [version|]; [|done].
  destruct (bool_decide (_ = FirstPairing) && _); [done|].
  destruct (bool_decide (_ = TrustedReconnect) && _); [done|].
  destruct (negotiate_protocols _ _) as [selected|]; [|done].
  destruct (bool_decide (_ = [])) eqn:Hs; [done|]. guards. intros Hr. simplify_eq.
  by exists version, selected.
Qed.

(** An agreed selection passes the initiator's own check. *)
Lemma agreed_matches local remote s :
  agreed local remote s ->
  Forall (fun o => offer_inconsistent o = false) remote ->
  Forall (fun o => capabilities_wf (offer_capabilities o)) remote ->
  existsb (selection_matches s) remote = true.
Proof.
  intros (l & r & Hl & Hr & Hv & Hs1 & Hs2 & Hc) Hcons Hwf.
  apply first_offer_Some in Hr as [Hin Hid]. rewrite Forall_forall in *.
  specialize (Hcons r Hin). specialize (Hwf r Hin).
  apply existsb_exists. exists r. split; [by apply list_elem_of_In|].
  apply intersect_Some in Hc as [Hcap Hsel].
  unfold offer_inconsistent in Hcons. do 3 apply orb_false_iff in Hcons as [Hcons ?].
  unfold selection_matches. rewrite Hsel. cbn [cap_protocol_id words].
  repeat rewrite bool_decide_true; try done.
  - unfold is_bounded in *. guards. cbn [words].
    assert (len (zip_with N.land (words (offer_capabilities l)) (words (offer_capabilities r)))
            <= MAX_PROTOCOL_CAPABILITY_WORDS) as Hlen by (rewrite length_zip_with; lia).
    apply N.leb_le in Hlen. rewrite Hlen. cbn [andb].
    unfold capability_is_subset_of. cbn [cap_protocol_id words].
    rewrite bool_decide_true by done. cbn [andb].
    by rewrite words_subset_zip.
  - apply range_negotiate_single. by apply range_negotiate_Some in Hv as (_ & ? & _).
Qed.

Lemma validate_selections_agreed ids local selected :
  NoDup (sel_stable_id <$> selected) -> Forall (fun s => sel_stable_id s ∉ ids) selected ->
  Forall (fun s => existsb (selection_matches s) local = true) selected ->
  validate_selections ids local selected = Ok ().
Proof.
  revert ids. induction selected as [|s selected IH]; intros ids Hnd Hni Hm; [done|].
  apply NoDup_cons in Hnd as [Hs Hnd]. decompose_Forall_hyps.
  rewrite reject_pass by by apply bool_decide_false.
  rewrite reject_pass by (apply negb_false_iff; done).
  apply IH; [done| |done]. apply Forall_forall. intros s' Hs'.
  rewrite not_elem_of_union, not_elem_of_singleton. split.
  - intros E. destruct Hs. rewrite <- E. by apply list_elem_of_fmap_2.
  - rewrite Forall_forall in *. auto.
Qed.

Lemma agreed_length local remote selected :
  negotiate_protocols local remote = Ok selected -> (length selected <= length remote)%nat.
Proof.
  intros [Hnd Hs]%negotiate_loop_spec.
  rewrite <- (length_fmap sel_stable_id), <- (length_fmap offer_stable_id).
  apply submseteq_length, NoDup_submseteq; [done|].
  intros id (s & -> & Hin)%list_elem_of_fmap. apply Hs in Hin as (_ & l & r & _ & Hr & _).
  apply first_offer_Some in Hr as [Hr <-]. by apply list_elem_of_fmap_2.
Qed.

(** The responder's challenge is acceptable to the initiator that asked. *)
Lemma challenge_acceptable ci path i version caps responder nonce hello v :
  start (initiator ci) path = (i, Ok hello) ->
  policy_wf (hc_policy ci) ->
  range_negotiate v (pol_link_versions (hc_policy ci)) = Some version ->
  receive i (FChallenge responder version
               (caps_intersection caps (pol_link_capabilities (hc_policy ci))) path nonce)
  = Some (mkMachine Initiator HandshakeState.AwaitingSelection ci (Some responder) (Some path)
            (Some version) (caps_intersection caps (pol_link_capabilities (hc_policy ci))) [] None,
          Ok [Send (FIdentityProof (identity_proof ci))]).
Proof.
  intros Hstart [Hbits _] Hv. apply start_Ok in Hstart as (_ & -> & _ & _).
  unfold receive, receive_challenge. cbn [role hs_state hs_config auth_path].
  assert (range_admits (pol_link_versions (hc_policy ci)) version) as Ha.
  { by apply range_negotiate_Some in Hv as (_ & ? & _). }
  apply range_negotiate_single in Ha as [w Hw]. rewrite Hw.
  assert (caps_is_subset_of (caps_intersection caps (pol_link_capabilities (hc_policy ci)))
    (pol_link_capabilities (hc_policy ci)) = true) as Hsub.
  { unfold caps_is_subset_of, caps_intersection. cbn. by rewrite land_subset. }
  rewrite Hsub, (bool_decide_true (Some path = Some path)) by done. done.
Qed.

(** The selection the responder sends is acceptable to the initiator. *)
Lemma selection_acceptable cr ci path selected :
  policy_wf (hc_policy ci) ->
  len (local_protocols ci path) <= max_protocol_offers (hc_policy ci) ->
  Forall (fun o => offer_inconsistent o = false) (local_protocols ci path) ->
  negotiate_protocols (local_protocols cr path) (local_protocols ci path) = Ok selected ->
  selected <> [] ->
  forall m, hs_config m = ci -> auth_path m = Some path -> validate_selection m selected = Ok ().
Proof.
  intros Hwf Hlen Hcons Hn Hne m Hm Hp. unfold validate_selection. rewrite Hm, Hp.
  pose proof (agreed_length _ _ _ Hn) as Hl.
  rewrite reject_pass; last first.
  { apply orb_false_iff. split; [by apply bool_decide_false|]. apply N.ltb_ge. lia. }
  apply negotiate_loop_spec in Hn as [Hnd Hs].
  apply validate_selections_agreed; [done| |].
  - apply Forall_forall. set_solver.
  - apply Forall_forall. intros s Hin. apply Hs in Hin as [_ Ha].
    eapply agreed_matches; [exact Ha|done|by apply local_offers_wf].
Qed.

(** The remaining steps of an honest run, one each. *)
Lemma proof_step c id path v caps sel pend proof :
  len (opaque proof) <= max_identity_proof_bytes (hc_policy c) ->
  let req := mkVerification (peer_id id) path (challenge_nonce c) proof in
  receive (mkMachine Responder HandshakeState.AwaitingProof c (Some id) (Some path) v caps sel pend)
    (FIdentityProof proof)
  = Some (mkMachine Responder HandshakeState.AwaitingVerification c (Some id) (Some path) v caps sel
            (Some req), Ok [VerifyIdentity req]).
Proof.
  intros Hl. cbn [receive role hs_state]. unfold receive_proof.
  cbn [hs_config remote auth_path mbind option_bind].
  destruct (N.ltb_spec (max_identity_proof_bytes (hc_policy c)) (len (opaque proof))); [lia|done].
Qed.

Lemma decide_step c id path v caps sel req :
  decide_identity (mkMachine Responder HandshakeState.AwaitingVerification c id path v caps sel
    (Some req)) Accept
  = (mkMachine Responder HandshakeState.AwaitingConfirmation c id path v caps sel None,
     Ok [Send (FSelection (hc_session_id c) sel)]).
Proof. done. Qed.

Lemma selection_step c id path v caps old pend sid sel :
  let m := mkMachine Initiator HandshakeState.AwaitingSelection c id path v caps old pend in
  validate_selection m sel = Ok () ->
  receive m (FSelection sid sel)
  = Some (mkMachine Initiator HandshakeState.AwaitingConfirmed
            (mkHsConfig (hc_identity c) (hc_policy c) (challenge_nonce c) (identity_proof c) sid)
            id path v caps sel pend, Ok [Send (FConfirm sid)]).
Proof.
  intros m Hv. unfold m at 1. cbn [receive role hs_state]. unfold receive_selection.
  fold m. by rewrite Hv.
Qed.

Lemma confirm_step c id path v caps sel pend :
  receive (mkMachine Responder HandshakeState.AwaitingConfirmation c (Some id) (Some path) (Some v)
             caps sel pend) (FConfirm (hc_session_id c))
  = Some (mkMachine Responder HandshakeState.Established c (Some id) (Some path) (Some v) caps sel pend,
          Ok [Send (FConfirmed (hc_session_id c));
              OutEstablished (mkNegotiated (hc_session_id c) (hc_identity c) id v caps sel path)]).
Proof.
  cbn [receive role hs_state]. unfold receive_confirmation. cbn [hs_config].
  by rewrite bool_decide_true.
Qed.

Lemma confirmed_step c id path v caps sel pend :
  receive (mkMachine Initiator HandshakeState.AwaitingConfirmed c (Some id) (Some path) (Some v)
             caps sel pend) (FConfirmed (hc_session_id c))
  = Some (mkMachine Initiator HandshakeState.Established c (Some id) (Some path) (Some v) caps sel pend,
          Ok [OutEstablished (mkNegotiated (hc_session_id c) (hc_identity c) id v caps sel path)]).
Proof.
  cbn [receive role hs_state]. unfold receive_confirmation. cbn [hs_config].
  by rewrite bool_decide_true.
Qed.

Lemma honest_run_spec ci cr path i r challenge :
  policy_wf (hc_policy ci) ->
  len (opaque (identity_proof ci)) <= max_identity_proof_bytes (hc_policy cr) ->
  answer_hello ci cr path = Some (i, r, challenge) ->
  exists version selected, let caps := caps_intersection (pol_link_capabilities (hc_policy cr))
                                         (pol_link_capabilities (hc_policy ci)) in
    range_negotiate (pol_link_versions (hc_policy cr)) (pol_link_versions (hc_policy ci))
      = Some version
    /\ negotiate_protocols (local_protocols cr path) (local_protocols ci path) = Ok selected
    /\ honest_run ci cr path
       = Some (mkNegotiated (hc_session_id cr) (hc_identity ci) (hc_identity cr) version caps
                 selected path,
               mkNegotiated (hc_session_id cr) (hc_identity cr) (hc_identity ci) version caps
                 selected path).
Proof.
  intros Hwf Hproof Ha. unfold honest_run. rewrite Ha. unfold answer_hello in Ha.
  destruct (start (initiator ci) path) as [i0 [hello|]] eqn:Hstart; [|done].
  pose proof (start_Ok _ _ _ _ Hstart) as (-> & _ & Hlen & Hcons).
  cbn [receive role hs_state responder machine_new expect_send] in Ha.
  destruct (receive_hello _ _ _ _ _ _) as [r0 [out|]] eqn:Hh; [|done].
  pose proof (receive_hello_Ok _ _ _ _ _ _ _ _ Hh) as (version & selected & Hv & Hn & Hne & -> & ->).
  cbn in Ha. simplify_eq. cbn [hs_config machine_new hc_policy] in *.
  exists version, selected. split_and!; [done..|]. cbn [mbind option_bind].
  rewrite (challenge_acceptable ci path i version (pol_link_capabilities (hc_policy cr))
             (hc_identity cr) (challenge_nonce cr) _ _ Hstart Hwf Hv).
  cbn [expect_send mbind option_bind].
  rewrite proof_step by done. rewrite decide_step. cbn [expect_send mbind option_bind].
  rewrite selection_step by by apply (selection_acceptable cr ci path).
  cbn [expect_send mbind option_bind]. rewrite confirm_step.
  rewrite (confirmed_step (mkHsConfig _ _ _ _ (hc_session_id cr))). done.
Qed.
End honest.

(** ** Properties *)

(** C9: If a responder answers an initiator's hello with a challenge, and the
    identity proof is within the responder's bound, the rest of the handshake
    cannot fail, and both sides establish the same session: one session id,
    one version that both ranges admit, the common capabilities, the
    protocols negotiation gives, one authentication path, and each side's
    identity as the other's remote. *)
Theorem handshake_agreement `{Sha256} ci cr path i r challenge :
  policy_wf (hc_policy ci) ->
  len (opaque (identity_proof ci)) <= max_identity_proof_bytes (hc_policy cr) ->
  answer_hello ci cr path = Some (i, r, challenge) ->
  exists si sr, honest_run ci cr path = Some (si, sr)
    /\ ns_session_id si = ns_session_id sr /\ ns_session_id sr = hc_session_id cr
    /\ ns_local si = ns_remote sr /\ ns_remote si = ns_local sr
    /\ ns_local si = hc_identity ci /\ ns_local sr = hc_identity cr
    /\ ns_link_version si = ns_link_version sr
    /\ range_admits (pol_link_versions (hc_policy ci)) (ns_link_version si)
    /\ range_admits (pol_link_versions (hc_policy cr)) (ns_link_version si)
    /\ ns_link_capabilities si = ns_link_capabilities sr
    /\ ns_link_capabilities si = caps_intersection (pol_link_capabilities (hc_policy cr))
                                   (pol_link_capabilities (hc_policy ci))
    /\ ns_protocols si = ns_protocols sr
    /\ (forall s, s ∈ ns_protocols si <->
          agreed (local_protocols cr path) (local_protocols ci path) s)
    /\ ns_auth_path si = path /\ ns_auth_path sr = path.
Proof.
  intros Hwf Hp Ha.
  destruct (honest_run_spec _ _ _ _ _ _ Hwf Hp Ha) as (version & selected & Hv & Hn & Hrun).
  eexists _, _. split; [exact Hrun|]. cbn.
  apply range_negotiate_Some in Hv as (? & ? & _).
  apply negotiate_loop_spec in Hn as [_ Hs].
  split_and!; try done. intros s. rewrite Hs. set_solver.
Qed.

(** C1: Against an arbitrary sequence of frames and calls, a responder
    establishes a session only after its owner accepted an identity proof it
    was asked about: a verification request for exactly that peer, that path
    and the responder's own nonce.  The peer is one the policy admits on that
    path, the version is one the policy admits, and the protocols are the
    outcome of negotiation with the responder's own offers. *)
Theorem responder_authentication `{Sha256} c evs m outs ev m' new s :
  hs_run (responder c) evs = Some (m, outs) ->
  hs_step m ev = Some (m', Ok new) -> OutEstablished s ∈ new ->
  EvDecide Accept ∈ evs
  /\ (exists req, VerifyIdentity req ∈ outs /\ vr_peer_id req = peer_id (ns_remote s)
        /\ vr_auth_path req = ns_auth_path s /\ vr_nonce req = challenge_nonce c)
  /\ match ns_auth_path s with
     | FirstPairing => allow_pairing (hc_policy c) = true
     | TrustedReconnect => peer_id (ns_remote s) ∈ trusted_peers (hc_policy c)
     end
  /\ range_admits (pol_link_versions (hc_policy c)) (ns_link_version s)
  /\ ns_protocols s <> []
  /\ (exists offers, negotiate_protocols (local_protocols c (ns_auth_path s)) offers
                     = Ok (ns_protocols s))
  /\ ns_session_id s = hc_session_id c /\ ns_local s = hc_identity c.
Proof.
  intros Hrun Hstep Hin.
  assert (hs_inv (responder c)) as Hi0 by done.
  destruct (hs_run_inv _ evs Hi0) as (m1 & o1 & Hrun1 & Hi). rewrite Hrun in Hrun1. simplify_eq.
  pose proof (run_config _ _ _ _ Hrun) as (Hr & Hpol & Hid & Hn & Hsid). specialize (Hsid eq_refl).
  cbn in *.
  pose proof (history_run (responder c) [] [] _ _ _ ltac:(done) Hrun) as Hh. cbn [app] in Hh.
  apply hs_step_cases in Hstep as [(_ & _ & e & ?)|(o & ? & Harm)]; [done|]. simplify_eq.
  destruct Harm as [| | | | | |s' Hr' Hst Hns|]; try (congruence || set_solver).
  assert (s = s') as <- by set_solver.
  unfold hs_inv in Hi. unfold hs_history in Hh. rewrite Hr, Hst in Hi, Hh.
  destruct Hi as (i & v & caps & offers & path & version & Hrem & Hpath & Hver & Hneg & _ & Hprot & Hne & Hadm).
  destruct Hh as (q & Hq & ((i' & Hrem' & Hpeer) & Hpath' & Hnonce) & Hacc).
  unfold negotiated_session in Hns. rewrite Hrem, Hpath, Hver in Hns. cbn in Hns. simplify_eq. cbn.
  rewrite Hpol in *. unfold local_protocols in *. rewrite Hpol in Hprot.
  split_and!; try congruence.
  - exists q. split_and!; congruence.
  - by apply range_negotiate_Some in Hneg as (? & _).
  - by exists offers.
Qed.

(** C30: Against an arbitrary responder, an initiator establishes a session
    only on terms it offered: a version its own range admits, capabilities
    among its own, and at least one protocol, each once and each one of the
    offers it made on that path, at a version and with capabilities that
    offer allows. *)
Theorem initiator_safety `{Sha256} c evs m outs ev m' new s :
  hs_run (initiator c) evs = Some (m, outs) ->
  hs_step m ev = Some (m', Ok new) -> OutEstablished s ∈ new ->
  ns_local s = hc_identity c
  /\ range_admits (pol_link_versions (hc_policy c)) (ns_link_version s)
  /\ caps_is_subset_of (ns_link_capabilities s) (pol_link_capabilities (hc_policy c)) = true
  /\ ns_protocols s <> []
  /\ NoDup (sel_stable_id <$> ns_protocols s)
  /\ Forall (fun p => exists o, o ∈ local_protocols c (ns_auth_path s) /\ selection_matches p o = true)
       (ns_protocols s).
Proof.
  intros Hrun Hstep Hin.
  assert (hs_inv (initiator c)) as Hi0 by done.
  destruct (hs_run_inv _ evs Hi0) as (m1 & o1 & Hrun1 & Hi). rewrite Hrun in Hrun1. simplify_eq.
  pose proof (run_config _ _ _ _ Hrun) as (Hr & Hpol & Hid & _). cbn in *.
  apply hs_step_cases in Hstep as [(_ & _ & e & ?)|(o & ? & Harm)]; [done|]. simplify_eq.
  destruct Harm as [| | | | | | |s' Hr' Hst Hns]; try (congruence || set_solver).
  assert (s = s') as <- by set_solver.
  unfold hs_inv in Hi. rewrite Hr, Hst in Hi.
  destruct Hi as [(i & path & version & Hrem & Hpath & Hver & Hadm & Hcap) (path' & Hpath' & Hne & Hnd & Hall)].
  unfold negotiated_session in Hns. rewrite Hrem, Hpath, Hver in Hns. cbn in Hns. simplify_eq. cbn.
  unfold local_protocols in *. rewrite Hpol in *. by split_and!.
Qed.

(** A handshake never panics, whatever it is fed; every step that returns
    an error leaves the machine failed; and a failed or established machine
    answers everything with an error and stays, or becomes, failed, so that a
    handshake establishes at most once. *)
Theorem handshake_terminal `{Sha256} c evs m0 :
  m0 = initiator c \/ m0 = responder c ->
  exists m outs, hs_run m0 evs = Some (m, outs)
    /\ forall ev, exists m' r, hs_step m ev = Some (m', r)
       /\ (match r with Err _ => True | Ok _ => False end -> hs_state m' = HandshakeState.Failed)
       /\ (hs_state m = HandshakeState.Failed \/ hs_state m = HandshakeState.Established ->
           hs_state m' = HandshakeState.Failed /\ exists e, r = Err e).
Proof.
  intros Hm.
  assert (hs_inv m0) as Hi0 by by destruct Hm as [-> | ->].
  destruct (hs_run_inv _ evs Hi0) as (m & outs & Hrun & Hi). exists m, outs. split; [done|].
  intros ev. destruct (hs_step_inv m ev Hi) as (m' & r & Hs & _). exists m', r. split; [done|].
  apply hs_step_cases in Hs as [(Hf & _ & e & ->)|(o & -> & Harm)].
  - split; [done|]. intros _. split; [done|]. by exists e.
  - split; [done|]. intros Hst. destruct Harm; destruct Hst; congruence.
Qed.

(** Negotiation selects exactly what the two sides agree on, each
    protocol once: it looks at the first offer either side makes for a stable
    id, and takes the highest common version and the common capabilities.  It
    fails exactly if the two sides describe some protocol irreconcilably. *)
Theorem negotiate_protocols_correct local remote :
  match negotiate_protocols local remote with
  | Ok selected =>
    NoDup (sel_stable_id <$> selected) /\ (forall s, s ∈ selected <-> agreed local remote s)
    /\ forall id, ~ irreconcilable local remote id
  | Err _ => exists id, irreconcilable local remote id
  end.
Proof.
  destruct (negotiate_protocols local remote) as [selected|[]] eqn:Hn.
  - pose proof Hn as [Hnd Hs]%negotiate_loop_spec. split_and!; [done| |].
    + intros s. rewrite Hs. set_solver.
    + intros id. eapply negotiate_loop_complete; [exact Hn|set_solver].
  - apply negotiate_loop_err in Hn as (id & _ & Hirr). by exists id.
Qed.

(** ** A concrete pair of peers *)

Definition demo_config (n : N) : HandshakeConfig :=
  mkHsConfig
    (mkIdentity (id_of PeerKind n) (id_of EndpointKind n) (id_of ConnectionKind n))
    (mkPolicy (mkRange (mkVersion 1 0) (mkVersion 1 2)) (caps_from_bits 3)
       [example_offer] [example_offer] true ∅ 4 64)
    (vreplicate 32 (byte_of_n n)) (mkProof [byte_of_n n]) (id_of SessionKind n).
Definition demo_i := demo_config 1.
Definition demo_r := demo_config 2.

Lemma demo_answered : is_Some (@answer_hello toy_sha256 demo_i demo_r FirstPairing).
Proof. apply (bool_decide_eq_true_1 _). by vm_compute. Qed.

Lemma handshake_agreement_witness :
  exists si sr, @honest_run toy_sha256 demo_i demo_r FirstPairing = Some (si, sr)
    /\ ns_session_id si = ns_session_id sr.
Proof.
  destruct demo_answered as [[[i r] challenge] Ha].
  destruct (@handshake_agreement toy_sha256 demo_i demo_r FirstPairing i r challenge)
    as (si & sr & Hrun & Hid & _); [..|exists si, sr; split; [exact Hrun|exact Hid]].
  - split; [by vm_compute|]. repeat constructor; by vm_compute.
  - by vm_compute.
  - exact Ha.
Defined.

(** What the initiator sends, in order. *)
Definition demo_hello : HandshakeFrame :=
  FHello (hc_identity demo_i) (pol_link_versions (hc_policy demo_i))
    (pol_link_capabilities (hc_policy demo_i)) [example_offer] FirstPairing.
Definition demo_selection : list ProtocolSelection :=
  match @negotiate_protocols [example_offer] [example_offer] with Ok l => l | Err _ => [] end.

(** [ev] establishes a session after [evs]. *)
Definition establishes `{Sha256} (m0 : HandshakeMachine) (evs : list hs_event) (ev : hs_event)
    : bool :=
  match hs_run m0 evs with
  | Some (m, _) =>
    match hs_step m ev with
    | Some (_, Ok new) =>
      existsb (fun o => match o with OutEstablished _ => true | _ => false end) new
    | _ => false
    end
  | None => false
  end.

Lemma establishes_true `{Sha256} m0 evs ev :
  establishes m0 evs ev = true ->
  exists m outs m' new s, hs_run m0 evs = Some (m, outs) /\ hs_step m ev = Some (m', Ok new)
    /\ OutEstablished s ∈ new.
Proof.
  unfold establishes. destruct (hs_run m0 evs) as [[m outs]|]; [|done].
  destruct (hs_step m ev) as [[m' [new|]]|] eqn:Hs; try done.
  intros (o & Hin & Ho)%existsb_exists. destruct o as [| |s]; try done.
  exists m, outs, m', new, s. rewrite list_elem_of_In. by rewrite Hs.
Qed.

Definition responder_events : list hs_event :=
  [EvReceive demo_hello; EvReceive (FIdentityProof (identity_proof demo_i)); EvDecide Accept].
Definition initiator_events : list hs_event :=
  [EvStart FirstPairing;
   EvReceive (FChallenge (hc_identity demo_r) (mkVersion 1 2) (caps_from_bits 3) FirstPairing
                (challenge_nonce demo_r));
   EvReceive (FSelection (hc_session_id demo_r) demo_selection)].

Lemma responder_establishes :
  @establishes toy_sha256 (responder demo_r) responder_events
    (EvReceive (FConfirm (hc_session_id demo_r))) = true.
Proof. by vm_compute. Qed.
Lemma initiator_establishes :
  @establishes toy_sha256 (initiator demo_i) initiator_events
    (EvReceive (FConfirmed (hc_session_id demo_r))) = true.
Proof. by vm_compute. Qed.

Lemma responder_authentication_witness :
  exists outs s,
    (exists m, @hs_run toy_sha256 (responder demo_r) responder_events = Some (m, outs))
    /\ ns_local s = hc_identity demo_r
    /\ (exists req, VerifyIdentity req ∈ outs /\ vr_peer_id req = peer_id (ns_remote s)).
Proof.
  destruct (establishes_true _ _ _ responder_establishes) as (m & outs & m' & new & s & Hr & Hs & Hin).
  destruct (@responder_authentication toy_sha256 demo_r _ _ _ _ _ _ _ Hr Hs Hin)
    as (_ & (req & Hreq & Hpeer & _) & _ & _ & _ & _ & _ & Hl).
  exists outs, s. split; [exists m; exact Hr|]. split; [exact Hl|]. exists req. split; [exact Hreq|exact Hpeer].
Defined.

Lemma initiator_safety_witness :
  exists s, ns_local s = hc_identity demo_i /\ NoDup (sel_stable_id <$> ns_protocols s).
Proof.
  destruct (establishes_true _ _ _ initiator_establishes) as (m & outs & m' & new & s & Hr & Hs & Hin).
  destruct (@initiator_safety toy_sha256 demo_i _ _ _ _ _ _ _ Hr Hs Hin) as (Hl & _ & _ & _ & Hnd & _).
  exists s. split; [exact Hl|exact Hnd].
Defined.

Lemma handshake_terminal_witness :
  exists m outs, @hs_run toy_sha256 (initiator demo_i) [EvDecide Accept] = Some (m, outs).
Proof.
  destruct (@handshake_terminal toy_sha256 demo_i [EvDecide Accept] _ (or_introl eq_refl))
    as (m & outs & Hrun & _).
  exists m, outs. exact Hrun.
Defined.
