(* ===== verification/Protocol.v ===== *)
(** * Protocol registry and negotiated protocol set

    Models [protocol.rs]: registration and validation of protocol
    descriptors, negotiation against a peer's offers, activation of a
    negotiated selection, and the validation of channel requests. *)

From S2P Require Export Mux Handshake.
Local Open Scope N_scope.

Definition MAX_PROTOCOL_ID_BYTES : N := 128.
Definition MAX_CHANNEL_NAME_BYTES : N := 64.

(** ** Descriptors, limits and errors *)

Record ProtocolChannelDescriptor := mkChannelDescriptor {
  pc_id : ProtocolChannelId;
  pc_debug_name : option (list byte);
  pc_mode : ChannelMode;
  pc_priority : N;
  pc_max_frame_bytes : N;
  pc_max_stream_bytes : option N;
  pc_max_in_flight_frames : N;
  pc_discardable : bool;
}.
#[export] Instance ProtocolChannelDescriptor_eq_dec : EqDecision ProtocolChannelDescriptor.
Proof. solve_decision. Defined.

Record ProtocolDescriptor := mkDescriptor {
  pd_stable_id : ProtocolStableId;
  pd_debug_identity : option ProtocolDebugIdentity;
  pd_versions : VersionRange;
  pd_schema : SchemaRef;
  pd_capabilities : ProtocolCapabilitySet;
  pd_channels : list ProtocolChannelDescriptor;
}.

Record ProtocolRegistryLimits := mkRegistryLimits {
  max_protocols : N;
  max_channels_per_protocol : N;
  max_total_channels : N;
  max_protocol_id_bytes : N;
  max_channel_name_bytes : N;
}.
Definition default_registry_limits : ProtocolRegistryLimits :=
  mkRegistryLimits 16 32 128 MAX_PROTOCOL_ID_BYTES MAX_CHANNEL_NAME_BYTES.

(** [ProtocolRegistryLimits::is_valid]. *)
Definition registry_limits_valid (l : ProtocolRegistryLimits) : bool :=
  (0 <? max_protocols l) && (0 <? max_channels_per_protocol l) && (0 <? max_total_channels l)
  && (0 <? max_protocol_id_bytes l) && (max_protocol_id_bytes l <=? MAX_PROTOCOL_ID_BYTES)
  && (0 <? max_channel_name_bytes l) && (max_channel_name_bytes l <=? MAX_CHANNEL_NAME_BYTES).

Module ProtocolRegistryErrorKind.
Inductive t :=
| InvalidLimits | InvalidProtocolId | InvalidVersionRange | InvalidSchema | InvalidCapabilities
| InvalidChannel | DuplicateProtocol | DuplicateChannel | IdentityConflict | SchemaConflict
| RegistryLimitExceeded | UnknownProtocol | ProtocolNotNegotiated | VersionNotSupported
| ChannelNotDefined | ChannelCapacityExceeded | FrameLimitExceeded | StreamLimitExceeded.
#[global] Instance t_eq_dec : EqDecision t.
Proof. solve_decision. Defined.
End ProtocolRegistryErrorKind.

Record ProtocolRegistryError := mkRegistryError {
  registry_error_kind : ProtocolRegistryErrorKind.t;
  registry_public_message : string;
}.

(** [error]. *)
Definition registry_error (kind : ProtocolRegistryErrorKind.t) : ProtocolRegistryError :=
  mkRegistryError kind
    match kind with
    | ProtocolRegistryErrorKind.InvalidLimits => "protocol registry limits must be positive"
    | ProtocolRegistryErrorKind.InvalidProtocolId => "protocol debug identity is invalid"
    | ProtocolRegistryErrorKind.InvalidVersionRange => "protocol version range is invalid"
    | ProtocolRegistryErrorKind.InvalidSchema => "protocol schema reference is invalid"
    | ProtocolRegistryErrorKind.InvalidCapabilities => "protocol capability set is invalid"
    | ProtocolRegistryErrorKind.InvalidChannel => "protocol channel definition is invalid"
    | ProtocolRegistryErrorKind.DuplicateProtocol => "protocol id is already registered"
    | ProtocolRegistryErrorKind.DuplicateChannel => "protocol channel is already defined"
    | ProtocolRegistryErrorKind.IdentityConflict =>
      "protocol stable id conflicts with debug identity"
    | ProtocolRegistryErrorKind.SchemaConflict => "protocol stable id has a conflicting schema"
    | ProtocolRegistryErrorKind.RegistryLimitExceeded => "protocol registry limit exceeded"
    | ProtocolRegistryErrorKind.UnknownProtocol => "protocol is not registered"
    | ProtocolRegistryErrorKind.ProtocolNotNegotiated => "protocol was not negotiated"
    | ProtocolRegistryErrorKind.VersionNotSupported => "protocol version is not supported"
    | ProtocolRegistryErrorKind.ChannelNotDefined => "protocol channel is not defined"
    | ProtocolRegistryErrorKind.ChannelCapacityExceeded =>
      "channel capacity exceeds protocol limit"
    | ProtocolRegistryErrorKind.FrameLimitExceeded => "frame exceeds protocol limit"
    | ProtocolRegistryErrorKind.StreamLimitExceeded => "stream exceeds protocol limit"
    end.

(** ** Names *)

Definition valid_component (value : list byte) : bool :=
  negb (bool_decide (value = []))
  && forallb (fun b => is_ascii_lowercase b || is_ascii_digit b
                       || bool_decide (b = chr "-") || bool_decide (b = chr "_")) value.

Definition valid_protocol_id (value : list byte) : bool :=
  bool_decide (chr "." ∈ value) && (len value <=? MAX_PROTOCOL_ID_BYTES)
  && forallb valid_component (split_on (chr ".") value).

(** [ProtocolId::new]. *)
Record ProtocolId := mkProtocolId { protocol_id_str : list byte }.
Definition protocol_id_new (value : list byte) : result ProtocolRegistryError ProtocolId :=
  reject (MAX_PROTOCOL_ID_BYTES <? len value) || negb (valid_protocol_id value)
    with registry_error ProtocolRegistryErrorKind.InvalidProtocolId;
  Ok (mkProtocolId value).

(** ** The registry *)

Record ProtocolRegistry := mkRegistry {
  reg_limits : ProtocolRegistryLimits;
  reg_descriptors : gmap ProtocolStableId ProtocolDescriptor;
  reg_total_channels : N;
}.

Definition registry_new (limits : ProtocolRegistryLimits)
    : result ProtocolRegistryError ProtocolRegistry :=
  reject negb (registry_limits_valid limits)
    with registry_error ProtocolRegistryErrorKind.InvalidLimits;
  Ok (mkRegistry limits ∅ 0).

(** The checks on one channel of a descriptor. *)
Definition channel_invalid (limits : ProtocolRegistryLimits) (c : ProtocolChannelDescriptor)
    : bool :=
  (pc_id c =? 0)
  || match pc_debug_name c with
     | Some name => (max_channel_name_bytes limits <? len name) || negb (valid_component name)
     | None => false
     end
  || (pc_max_frame_bytes c =? 0)
  || (pc_max_in_flight_frames c =? 0)
  || bool_decide (pc_max_stream_bytes c = Some 0)
  || negb (Bool.eqb (bool_decide (pc_mode c = Stream))
             (bool_decide (is_Some (pc_max_stream_bytes c))))
  || (negb (bool_decide (pc_mode c = Event)) && pc_discardable c).

(** The loop over the channels, with the ids and names seen so far. *)
Fixpoint validate_channels (limits : ProtocolRegistryLimits) (ids : gset ProtocolChannelId)
    (names : gset (list byte)) (l : list ProtocolChannelDescriptor)
    : result ProtocolRegistryError () :=
  match l with
  | [] => Ok ()
  | c :: l =>
    reject channel_invalid limits c
      with registry_error ProtocolRegistryErrorKind.InvalidChannel;
    reject bool_decide (pc_id c ∈ ids)
           || match pc_debug_name c with
              | Some name => bool_decide (name ∈ names)
              | None => false
              end
      with registry_error ProtocolRegistryErrorKind.DuplicateChannel;
    validate_channels limits ({[pc_id c]} ∪ ids)
      (match pc_debug_name c with Some name => {[name]} ∪ names | None => names end) l
  end.

Section registry.
Context `{Sha256}.

Definition validate_descriptor (limits : ProtocolRegistryLimits) (d : ProtocolDescriptor)
    : result ProtocolRegistryError () :=
  reject match pd_debug_identity d with
         | Some i =>
           negb (is_canonical i)
           || (max_protocol_id_bytes limits <? sat_add usize_max (len (authority i)) (len (name i)))
           || negb (bool_decide (debug_stable_id i = pd_stable_id d))
         | None => false
         end with registry_error ProtocolRegistryErrorKind.InvalidProtocolId;
  reject negb (range_is_valid (pd_versions d))
    with registry_error ProtocolRegistryErrorKind.InvalidVersionRange;
  reject schema_revision (pd_schema d) =? 0
    with registry_error ProtocolRegistryErrorKind.InvalidSchema;
  reject negb (bool_decide (cap_protocol_id (pd_capabilities d) = pd_stable_id d))
         || negb (is_bounded (pd_capabilities d))
    with registry_error ProtocolRegistryErrorKind.InvalidCapabilities;
  reject bool_decide (pd_channels d = [])
         || (max_channels_per_protocol limits <? len (pd_channels d))
    with registry_error ProtocolRegistryErrorKind.RegistryLimitExceeded;
  validate_channels limits ∅ ∅ (pd_channels d).

(** [register]: what an existing registration of the same id is told. *)
Definition register_conflict (existing d : ProtocolDescriptor) : ProtocolRegistryErrorKind.t :=
  if negb (bool_decide (pd_debug_identity existing = pd_debug_identity d))
  then ProtocolRegistryErrorKind.IdentityConflict
  else if negb (bool_decide (pd_schema existing = pd_schema d))
  then ProtocolRegistryErrorKind.SchemaConflict
  else ProtocolRegistryErrorKind.DuplicateProtocol.

Definition register (r : ProtocolRegistry) (d : ProtocolDescriptor)
    : ProtocolRegistry * result ProtocolRegistryError () :=
  match reg_descriptors r !! pd_stable_id d with
  | Some existing => (r, Err (registry_error (register_conflict existing d)))
  | None =>
    let total := sat_add usize_max (reg_total_channels r) (len (pd_channels d)) in
    match (_ ← validate_descriptor (reg_limits r) d;
           reject (max_protocols (reg_limits r) <=? card (reg_descriptors r))
                  || (max_total_channels (reg_limits r) <? total)
             with registry_error ProtocolRegistryErrorKind.RegistryLimitExceeded;
           Ok ()) with
    | Err e => (r, Err e)
    | Ok _ =>
      (mkRegistry (reg_limits r) (<[pd_stable_id d := d]> (reg_descriptors r)) total, Ok ())
    end
  end.
End registry.

(** ** The frozen registry *)

Record FrozenProtocolRegistry := mkFrozen {
  frozen_descriptors : gmap ProtocolStableId ProtocolDescriptor;
  max_remote_offers : N;
}.
Definition freeze (r : ProtocolRegistry) : FrozenProtocolRegistry :=
  mkFrozen (reg_descriptors r) (max_protocols (reg_limits r)).

(** [self.descriptors.values()]. *)
Definition descriptor_values (f : FrozenProtocolRegistry) : list ProtocolDescriptor :=
  (btree_iter (frozen_descriptors f)).*2.

Definition descriptor_offer (d : ProtocolDescriptor) : ProtocolOffer :=
  mkOffer (pd_stable_id d) (pd_debug_identity d) (pd_versions d) (pd_schema d)
    (pd_capabilities d).
Definition offers (f : FrozenProtocolRegistry) : list ProtocolOffer :=
  descriptor_offer <$> descriptor_values f.

Fixpoint registry_negotiate_loop (l : list ProtocolDescriptor) (remote : list ProtocolOffer)
    : result ProtocolRegistryError (list ProtocolSelection) :=
  match l with
  | [] => Ok []
  | d :: l =>
    match List.find (fun o => bool_decide (offer_stable_id o = pd_stable_id d)) remote with
    | None => registry_negotiate_loop l remote
    | Some o =>
      reject bool_decide (is_Some (pd_debug_identity d))
             && bool_decide (is_Some (offer_debug_identity o))
             && negb (bool_decide (pd_debug_identity d = offer_debug_identity o))
        with registry_error ProtocolRegistryErrorKind.IdentityConflict;
      reject negb (bool_decide (pd_schema d = offer_schema o))
        with registry_error ProtocolRegistryErrorKind.SchemaConflict;
      match range_negotiate (pd_versions d) (offer_versions o) with
      | None => registry_negotiate_loop l remote
      | Some version =>
        capabilities ← ok_or (registry_error ProtocolRegistryErrorKind.InvalidCapabilities)
                         (capability_intersect (pd_capabilities d) (offer_capabilities o));
        selections ← registry_negotiate_loop l remote;
        Ok (mkSelection (pd_stable_id d) version (pd_schema d) capabilities :: selections)
      end
    end
  end.

(** [FrozenProtocolRegistry::negotiate]. *)
Definition registry_negotiate (f : FrozenProtocolRegistry) (remote : list ProtocolOffer)
    : result ProtocolRegistryError (list ProtocolSelection) :=
  reject max_remote_offers f <? len remote
    with registry_error ProtocolRegistryErrorKind.RegistryLimitExceeded;
  registry_negotiate_loop (descriptor_values f) remote.

(** ** Activation *)

Record ActiveProtocol := mkActive {
  ap_stable_id : ProtocolStableId;
  ap_debug_identity : option ProtocolDebugIdentity;
  ap_version : ProtocolVersion;
  ap_schema : SchemaRef;
  ap_capabilities : ProtocolCapabilitySet;
  ap_channels : gmap ProtocolChannelId ProtocolChannelDescriptor;
}.
Record ActiveProtocolSet := mkActiveSet { active : gmap ProtocolStableId ActiveProtocol }.

(** The channels of a descriptor by id; a later one replaces an earlier one. *)
Definition channels_by_id (l : list ProtocolChannelDescriptor)
    : gmap ProtocolChannelId ProtocolChannelDescriptor :=
  foldl (fun m c => <[pc_id c := c]> m) ∅ l.

Fixpoint activate_loop (f : FrozenProtocolRegistry) (set : gmap ProtocolStableId ActiveProtocol)
    (negotiated : list ProtocolSelection)
    : result ProtocolRegistryError (gmap ProtocolStableId ActiveProtocol) :=
  match negotiated with
  | [] => Ok set
  | s :: negotiated =>
    reject bool_decide (is_Some (set !! sel_stable_id s))
      with registry_error ProtocolRegistryErrorKind.DuplicateProtocol;
    d ← ok_or (registry_error ProtocolRegistryErrorKind.UnknownProtocol)
          (frozen_descriptors f !! sel_stable_id s);
    reject negb (bool_decide (pd_schema d = sel_schema s))
      with registry_error ProtocolRegistryErrorKind.SchemaConflict;
    reject negb (bool_decide (cap_protocol_id (sel_capabilities s) = sel_stable_id s))
           || negb (is_bounded (sel_capabilities s))
           || negb (capability_is_subset_of (sel_capabilities s) (pd_capabilities d))
      with registry_error ProtocolRegistryErrorKind.InvalidCapabilities;
    reject bool_decide (range_negotiate (pd_versions d) (range_single (sel_version s)) = None)
      with registry_error ProtocolRegistryErrorKind.VersionNotSupported;
    activate_loop f
      (<[sel_stable_id s :=
           mkActive (sel_stable_id s) (pd_debug_identity d) (sel_version s) (sel_schema s)
             (sel_capabilities s) (channels_by_id (pd_channels d))]> set) negotiated
  end.

Definition activate (f : FrozenProtocolRegistry) (negotiated : list ProtocolSelection)
    : result ProtocolRegistryError ActiveProtocolSet :=
  reject card (frozen_descriptors f) <? len negotiated
    with registry_error ProtocolRegistryErrorKind.RegistryLimitExceeded;
  mkActiveSet <$> activate_loop f ∅ negotiated.

Definition contains_stable (a : ActiveProtocolSet) (id : ProtocolStableId) : bool :=
  bool_decide (is_Some (active a !! id)).
Definition active_contains (a : ActiveProtocolSet) (id : ProtocolId) : bool :=
  existsb (fun e =>
    match ap_debug_identity e.2 with
    | Some i => bool_decide (authority i ++ [chr "."] ++ name i = protocol_id_str id)
    | None => false
    end) (btree_iter (active a)).
Definition active_len (a : ActiveProtocolSet) : N := card (active a).
Definition active_is_empty (a : ActiveProtocolSet) : bool := bool_decide (active a = ∅).

(** ** Channel requests *)

Record ChannelOpenRequest := mkOpenRequest {
  req_protocol_id : ProtocolStableId;
  req_protocol_channel_id : ProtocolChannelId;
  req_channel_id : ChannelId;
  req_capacity : N;
}.

(** [From<OpenChannel>]: a [u32] capacity always fits [usize]. *)
Definition request_from_open (o : OpenChannel) : ChannelOpenRequest :=
  mkOpenRequest (open_protocol_id o) (open_protocol_channel_id o)
    (open_requested_session_channel_id o) (N.min usize_max (open_capacity o)).

Record ValidatedChannel := mkValidated {
  vc_config : ChannelConfig;
  vc_protocol_id : ProtocolStableId;
  vc_protocol_channel_id : ProtocolChannelId;
  vc_schema : SchemaRef;
  vc_capabilities : ProtocolCapabilitySet;
  vc_debug_name : option (list byte);
  vc_max_frame_bytes : N;
  vc_max_stream_bytes : option N;
  vc_discardable : bool;
}.

(** [ActiveProtocolSet::open_channel]. *)
Definition active_open_channel (a : ActiveProtocolSet) (r : ChannelOpenRequest)
    : result ProtocolRegistryError ValidatedChannel :=
  p ← ok_or (registry_error ProtocolRegistryErrorKind.ProtocolNotNegotiated)
        (active a !! req_protocol_id r);
  c ← ok_or (registry_error ProtocolRegistryErrorKind.ChannelNotDefined)
        (ap_channels p !! req_protocol_channel_id r);
  reject (req_capacity r =? 0) || (pc_max_in_flight_frames c <? req_capacity r)
    with registry_error ProtocolRegistryErrorKind.ChannelCapacityExceeded;
  Ok (mkValidated
        (mkConfig (mkKey (ap_stable_id p) (ap_version p) (pc_id c)) (req_channel_id r)
           GENERATION_INITIAL (pc_mode c) (pc_priority c) (req_capacity r)
           (pc_max_frame_bytes c) (pc_max_stream_bytes c) (pc_discardable c))
        (ap_stable_id p) (pc_id c) (ap_schema p) (ap_capabilities p) (pc_debug_name c)
        (pc_max_frame_bytes c) (pc_max_stream_bytes c) (pc_discardable c)).

Definition accepted_mapping (v : ValidatedChannel) : AcceptChannel :=
  mkAcceptChannel (vc_protocol_id v) (vc_protocol_channel_id v) (cfg_id (vc_config v)).

(** [ValidatedChannel::validate_payload]. *)
Definition validated_payload (v : ValidatedChannel) (frame_bytes : N) (stream : option N)
    : result ProtocolRegistryError () :=
  reject vc_max_frame_bytes v <? frame_bytes
    with registry_error ProtocolRegistryErrorKind.FrameLimitExceeded;
  match stream with
  | None => Ok ()
  | Some bytes =>
    match vc_max_stream_bytes v with
    | None => Err (registry_error ProtocolRegistryErrorKind.StreamLimitExceeded)
    | Some maximum =>
      reject maximum <? bytes
        with registry_error ProtocolRegistryErrorKind.StreamLimitExceeded;
      Ok ()
    end
  end.
