(* ===== verification/ProtocolFacts.v ===== *)
(** * Registration, negotiation, activation and validated channels *)

From S2P Require Export Protocol.
From S2P Require Import ControlCodecFacts HandshakeFacts.
Local Open Scope N_scope.

(** ** Descriptors *)

Lemma validate_channels_ok limits ids names l :
  validate_channels limits ids names l = Ok () ->
  NoDup (pc_id <$> l) /\ Forall (fun c => pc_id c ∉ ids) l
  /\ Forall (fun c => channel_invalid limits c = false) l.
Proof.
  revert ids names. induction l as [|c l IH]; intros ids names Hv; cbn in Hv.
  - split_and!; constructor.
  - inv_ok. guards. apply IH in Hv as (Hnd & Hni & Hok). split_and!.
    + cbn. constructor; [|done]. intros (c' & Hid & Hin)%list_elem_of_fmap.
      rewrite Forall_forall in Hni. specialize (Hni c' Hin). set_solver.
    + constructor; [done|]. eapply Forall_impl; [exact Hni|]. set_solver.
    + by constructor.
Qed.

(** What a registered channel satisfies. *)
Definition channel_ok (c : ProtocolChannelDescriptor) : Prop :=
  pc_id c <> 0 /\ 0 < pc_max_frame_bytes c /\ 0 < pc_max_in_flight_frames c
  /\ pc_max_stream_bytes c <> Some 0
  /\ (pc_mode c = Stream <-> is_Some (pc_max_stream_bytes c))
  /\ (pc_discardable c = true -> pc_mode c = Event).

Lemma channel_invalid_false limits c : channel_invalid limits c = false -> channel_ok c.
Proof.
  unfold channel_invalid, channel_ok. intros Hc.
  do 6 apply orb_false_iff in Hc as [Hc ?]. guards. split_and!; [lia..|done| |].
  - rename select (Bool.eqb _ _ = true) into He. apply eqb_prop in He.
    rewrite <- (bool_decide_eq_true (pc_mode c = Stream)), He. apply bool_decide_eq_true.
  - intros Hd. rename select (_ && _ = false) into Ha. rewrite Hd, andb_true_r in Ha. by guards.
Qed.

(** What a registered descriptor satisfies. *)
Record descriptor_ok `{Sha256} (limits : ProtocolRegistryLimits) (d : ProtocolDescriptor) : Prop := {
  ok_identity i : pd_debug_identity d = Some i ->
    is_canonical i = true /\ debug_stable_id i = pd_stable_id d;
  ok_versions : range_is_valid (pd_versions d) = true;
  ok_revision : schema_revision (pd_schema d) <> 0;
  ok_capabilities : cap_protocol_id (pd_capabilities d) = pd_stable_id d
    /\ is_bounded (pd_capabilities d) = true;
  ok_channel_count : 0 < len (pd_channels d) <= max_channels_per_protocol limits;
  ok_channel_ids : NoDup (pc_id <$> pd_channels d);
  ok_channels : Forall channel_ok (pd_channels d);
}.

Lemma validate_descriptor_ok `{Sha256} limits d :
  validate_descriptor limits d = Ok () -> descriptor_ok limits d.
Proof.
  unfold validate_descriptor. intros Hv. inv_ok. guards.
  apply validate_channels_ok in Hv as (Hnd & _ & Hall).
  split; try done.
  - intros i Hi. rewrite Hi in *. repeat case_match; guards. done.
  - destruct (pd_channels d) as [|? ?]; [done|]. cbn in *. lia.
  - eapply Forall_impl; [exact Hall|]. intros c. apply channel_invalid_false.
Qed.

(** ** The registry *)

Definition channel_count (m : gmap ProtocolStableId ProtocolDescriptor) : nat :=
  map_total (fun d => length (pd_channels d)) m.

Record registry_wf `{Sha256} (r : ProtocolRegistry) : Prop := {
  wf_descriptors id d : reg_descriptors r !! id = Some d ->
    pd_stable_id d = id /\ descriptor_ok (reg_limits r) d;
  wf_total : reg_total_channels r = N.min usize_max (N.of_nat (channel_count (reg_descriptors r)));
  wf_total_bound : reg_total_channels r <= max_total_channels (reg_limits r);
  wf_protocols : card (reg_descriptors r) <= max_protocols (reg_limits r);
}.

Definition register_all `{Sha256} (r : ProtocolRegistry) (ds : list ProtocolDescriptor)
    : ProtocolRegistry :=
  foldl (fun r d => (register r d).1) r ds.

Lemma registry_new_wf `{Sha256} limits r : registry_new limits = Ok r -> registry_wf r.
Proof.
  unfold registry_new. intros Hr. inv_ok. split; cbn; try done; [lia|].
  rewrite map_size_empty. lia.
Qed.

(** A registration either changes nothing or adds one valid descriptor. *)
Lemma register_cases `{Sha256} r d :
  ((register r d).1 = r /\ exists e, (register r d).2 = Err e)
  \/ (register r d).2 = Ok ()
     /\ reg_descriptors r !! pd_stable_id d = None /\ descriptor_ok (reg_limits r) d
     /\ card (reg_descriptors r) < max_protocols (reg_limits r)
     /\ let total := sat_add usize_max (reg_total_channels r) (len (pd_channels d)) in
        total <= max_total_channels (reg_limits r)
        /\ (register r d).1
           = mkRegistry (reg_limits r) (<[pd_stable_id d := d]> (reg_descriptors r)) total.
Proof.
  unfold register. destruct (reg_descriptors r !! pd_stable_id d) eqn:Hd; [left; eauto|].
  destruct (_ ≫= _) as [[]|] eqn:Hv; [|left; eauto]. right. inv_ok. guards.
  split_and!; try done. by apply validate_descriptor_ok.
Qed.

Lemma register_wf `{Sha256} r d : registry_wf r -> registry_wf (register r d).1.
Proof.
  intros Hwf. destruct (register_cases r d) as [[-> _]|(_ & Hn & Hok & Hc & Ht & ->)]; [done|].
  destruct Hwf. split; cbn.
  - intros id d' [[<- <-]|[? ?]]%lookup_insert_Some; [by split|by apply wf_descriptors0].
  - unfold channel_count in *. rewrite map_total_insert_None by done. rewrite wf_total0.
    unfold sat_add. lia.
  - done.
  - rewrite map_size_insert_None by done. lia.
Qed.

Lemma register_limits `{Sha256} r d : reg_limits (register r d).1 = reg_limits r.
Proof. by destruct (register_cases r d) as [[-> _]|(_ & _ & _ & _ & _ & ->)]. Qed.

Lemma register_keeps `{Sha256} r d id x :
  reg_descriptors r !! id = Some x -> reg_descriptors (register r d).1 !! id = Some x.
Proof.
  intros Hx. destruct (register_cases r d) as [[-> _]|(_ & Hn & _ & _ & _ & ->)]; [done|].
  cbn. rewrite lookup_insert_ne; [done|]. intros E. rewrite E in Hn. congruence.
Qed.

Lemma register_all_wf `{Sha256} r ds :
  registry_wf r ->
  registry_wf (register_all r ds) /\ reg_limits (register_all r ds) = reg_limits r
  /\ forall id x, reg_descriptors r !! id = Some x -> reg_descriptors (register_all r ds) !! id = Some x.
Proof.
  revert r. induction ds as [|d ds IH]; intros r Hwf; [done|].
  destruct (IH _ (register_wf r d Hwf)) as (Hw & Hl & Hk). split_and!; [done| |].
  - change (reg_limits (register_all (register r d).1 ds) = reg_limits r).
    by rewrite Hl, register_limits.
  - intros id x Hx. apply Hk. by apply register_keeps.
Qed.

(** ** The frozen registry *)

Lemma elem_of_descriptor_values f d :
  d ∈ descriptor_values f <-> exists id, frozen_descriptors f !! id = Some d.
Proof.
  unfold descriptor_values. rewrite list_elem_of_fmap. split.
  - intros ([id d'] & -> & Hin). exists id. by apply elem_of_btree_iter.
  - intros [id Hid]. exists (id, d). split; [done|]. by apply elem_of_btree_iter.
Qed.

(** Descriptors are stored under their own id. *)
Definition frozen_keyed (f : FrozenProtocolRegistry) : Prop :=
  forall id d, frozen_descriptors f !! id = Some d -> pd_stable_id d = id.

Lemma freeze_keyed `{Sha256} r : registry_wf r -> frozen_keyed (freeze r).
Proof. intros [Hd _ _ _] id d Hid. by apply (Hd id d). Qed.

Lemma descriptor_values_nodup f :
  frozen_keyed f -> NoDup (pd_stable_id <$> descriptor_values f).
Proof.
  intros Hk. unfold descriptor_values. rewrite <- list_fmap_compose.
  pose proof (btree_iter_nodup_keys (frozen_descriptors f)) as Hnd.
  assert (pd_stable_id ∘ snd <$> btree_iter (frozen_descriptors f)
          = (btree_iter (frozen_descriptors f)).*1) as ->; [|done].
  apply list_fmap_ext. intros i [id d] Hi. cbn. apply Hk.
  apply elem_of_btree_iter. by eapply list_elem_of_lookup_2.
Qed.

(** ** Negotiation agrees with the handshake *)

Lemma registry_negotiate_offers ids l remote :
  NoDup (pd_stable_id <$> l) -> Forall (fun d => pd_stable_id d ∉ ids) l ->
  match registry_negotiate_loop l remote with
  | Ok sels => negotiate_loop ids (descriptor_offer <$> l) remote = Ok sels
  | Err _ => negotiate_loop ids (descriptor_offer <$> l) remote = Err ()
  end.
Proof.
  revert ids. induction l as [|d l IH]; intros ids Hnd Hni; [done|].
  cbn [registry_negotiate_loop fmap list_fmap negotiate_loop].
  apply NoDup_cons in Hnd as [Hd Hnd]. decompose_Forall_hyps.
  rewrite (bool_decide_false (offer_stable_id (descriptor_offer d) ∈ ids)) by done.
  assert (Forall (fun d' => pd_stable_id d' ∉ {[pd_stable_id d]} ∪ ids) l) as Hni'.
  { apply Forall_forall. intros d' Hd'. rewrite not_elem_of_union, not_elem_of_singleton. split.
    - intros E. destruct Hd. rewrite <- E. by apply list_elem_of_fmap_2.
    - rewrite Forall_forall in *. auto. }
  specialize (IH _ Hnd Hni'). cbn [offer_stable_id descriptor_offer].
  destruct (List.find _ remote) as [o|]; [|done].
  unfold offers_conflict. cbn.
  destruct (bool_decide (pd_schema d = offer_schema o)); cbn;
    destruct (bool_decide (is_Some (pd_debug_identity d)) && bool_decide (is_Some (offer_debug_identity o))
      && negb (bool_decide (pd_debug_identity d = offer_debug_identity o))); cbn; try done.
  destruct (range_negotiate (pd_versions d) (offer_versions o)) as [v|]; [|done].
  unfold capability_intersect. destruct (bool_decide (_ = _)); cbn; [|done].
  destruct (registry_negotiate_loop l remote); cbn; by rewrite IH.
Qed.

(** ** Activation *)

Lemma zip_land_comm (l k : list N) : zip_with N.land l k = zip_with N.land k l.
Proof. revert k. induction l as [|x l IH]; intros [|y k]; cbn; [done..|]. by rewrite N.land_comm, IH. Qed.

Lemma capability_subset_left a b c :
  Forall (fun w => w <= u64_max) (words a) -> capability_intersect a b = Some c ->
  capability_is_subset_of c a = true.
Proof.
  intros Hw (Hid & ->)%intersect_Some. unfold capability_is_subset_of. cbn.
  rewrite bool_decide_true by done. cbn.
  rewrite zip_land_comm. by apply words_subset_zip.
Qed.

Lemma capability_bounded_left a b c :
  is_bounded a = true -> capability_intersect a b = Some c -> is_bounded c = true.
Proof.
  unfold is_bounded. intros Hb (_ & ->)%intersect_Some. cbn. guards. apply N.leb_le.
  rewrite length_zip_with. lia.
Qed.

(** A selection the registry can activate. *)
Definition activable (f : FrozenProtocolRegistry) (s : ProtocolSelection) : Prop :=
  exists d, frozen_descriptors f !! sel_stable_id s = Some d
    /\ pd_schema d = sel_schema s
    /\ cap_protocol_id (sel_capabilities s) = sel_stable_id s
    /\ is_bounded (sel_capabilities s) = true
    /\ capability_is_subset_of (sel_capabilities s) (pd_capabilities d) = true
    /\ range_admits (pd_versions d) (sel_version s).

Definition activated (s : ProtocolSelection) (d : ProtocolDescriptor) : ActiveProtocol :=
  mkActive (sel_stable_id s) (pd_debug_identity d) (sel_version s) (sel_schema s)
    (sel_capabilities s) (channels_by_id (pd_channels d)).

Lemma activate_loop_ok f set l set' :
  activate_loop f set l = Ok set' ->
  NoDup (sel_stable_id <$> l) /\ Forall (fun s => set !! sel_stable_id s = None) l
  /\ Forall (activable f) l
  /\ forall id p, set' !! id = Some p <->
       set !! id = Some p \/ exists s d, s ∈ l /\ sel_stable_id s = id
         /\ frozen_descriptors f !! id = Some d /\ p = activated s d.
Proof.
  revert set. induction l as [|s l IH]; intros set Ha; cbn in Ha.
  - simplify_eq. split_and!; [constructor..|]. set_solver.
  - inv_ok. guards. match goal with x : ProtocolDescriptor |- _ => rename x into a end.
    rename select (frozen_descriptors f !! _ = _) into Hd.
    rename select (pd_schema _ = _) into Hs. rename select (¬ is_Some _) into Hnone.
    apply eq_None_not_Some in Hnone.
    apply IH in Ha as (Hnd & Hni & Hact & Hset). split_and!.
    + cbn. constructor; [|done]. intros (s' & Hid & Hin)%list_elem_of_fmap.
      rewrite Forall_forall in Hni. specialize (Hni s' Hin). by rewrite Hid, lookup_insert_eq in Hni.
    + constructor; [done|]. eapply Forall_impl; [exact Hni|]. intros s'. cbn.
      intros [? _]%lookup_insert_None. done.
    + constructor; [|done]. exists a. split_and!; try done.
      apply range_negotiate_single. by apply not_eq_None_Some.
    + intros id p. rewrite Hset, lookup_insert_Some. split.
      * intros [[[<- <-]|[? ?]]|(s' & d & Hin & <- & Hd' & ->)]; [|by left|].
        -- right. exists s, a. split; [left|done].
        -- right. exists s', d. split; [by right|done].
      * intros [Hid|(s' & d & [->|Hin]%elem_of_cons & <- & Hd' & ->)].
        -- left. right. split; [|done]. intros E. rewrite <- E in Hid. congruence.
        -- left. left. split; [done|]. by simplify_eq.
        -- right. by exists s', d.
Qed.

Lemma activate_loop_complete f set l :
  NoDup (sel_stable_id <$> l) -> Forall (fun s => set !! sel_stable_id s = None) l ->
  Forall (activable f) l -> exists set', activate_loop f set l = Ok set'.
Proof.
  revert set. induction l as [|s l IH]; intros set Hnd Hni Hact; [by exists set|].
  apply NoDup_cons in Hnd as [Hs Hnd]. apply Forall_cons in Hni as [Hn Hni].
  apply Forall_cons in Hact as [(d & Hd & Hsc & Hcap & Hb & Hsub & Hv) Hact]. cbn.
  rewrite reject_pass by (by rewrite Hn).
  rewrite Hd. cbn. rewrite reject_pass by (by rewrite bool_decide_true).
  rewrite reject_pass by (rewrite bool_decide_true, Hb, Hsub; done).
  apply range_negotiate_single in Hv as [v Hv].
  rewrite reject_pass by (by rewrite Hv).
  apply IH; [done| |done]. apply Forall_forall. intros s' Hs'.
  rewrite lookup_insert_ne; [rewrite Forall_forall in Hni; auto|].
  intros E. destruct Hs. rewrite E. by apply list_elem_of_fmap_2.
Qed.

(** ** Channels of an active set *)

Lemma channels_by_id_lookup l id c :
  channels_by_id l !! id = Some c -> c ∈ l /\ pc_id c = id.
Proof.
  unfold channels_by_id. assert (forall m : gmap ProtocolChannelId ProtocolChannelDescriptor,
    foldl (fun m c => <[pc_id c := c]> m) m l !! id = Some c ->
    m !! id = Some c \/ c ∈ l /\ pc_id c = id) as Hgen.
  { induction l as [|c' l IH]; intros m; cbn; [by left|].
    intros [[[<- <-]|[? ?]]%lookup_insert_Some|[? ?]]%IH; [|by left|].
    - right. split; [left|done].
    - right. split; [by right|done]. }
  intros [Hm|?]%Hgen; [|done]. by rewrite lookup_empty in Hm.
Qed.

Lemma channels_by_id_complete l c :
  NoDup (pc_id <$> l) -> c ∈ l -> channels_by_id l !! pc_id c = Some c.
Proof.
  unfold channels_by_id. assert (forall m : gmap ProtocolChannelId ProtocolChannelDescriptor, NoDup (pc_id <$> l) ->
    (c ∈ l \/ m !! pc_id c = Some c /\ (pc_id c ∉ pc_id <$> l)) ->
    foldl (fun m c => <[pc_id c := c]> m) m l !! pc_id c = Some c) as Hgen.
  { induction l as [|c' l IH]; intros m Hnd Hc; cbn; [set_solver|].
    apply NoDup_cons in Hnd as [Hni Hnd]. apply IH; [done|].
    destruct Hc as [[->|Hin]%elem_of_cons|[Hm Hc]].
    - right. split; [apply lookup_insert_eq|done].
    - by left.
    - right. cbn in Hc. apply not_elem_of_cons in Hc as [? ?].
      split; [|done]. by rewrite lookup_insert_ne. }
  intros Hnd Hin. apply Hgen; [done|by left].
Qed.

(** ** From a registration to a validated channel *)

(** The words of a capability set are [u64]s. *)
Definition registry_typed (r : ProtocolRegistry) : Prop :=
  forall id d, reg_descriptors r !! id = Some d ->
    Forall (fun w => w <= u64_max) (words (pd_capabilities d)).

Lemma negotiated_activable `{Sha256} r l remote sels :
  registry_wf r -> registry_typed r ->
  (forall d, d ∈ l -> reg_descriptors r !! pd_stable_id d = Some d) ->
  registry_negotiate_loop l remote = Ok sels ->
  Forall (activable (freeze r)) sels.
Proof.
  intros Hwf Hty. revert sels. induction l as [|d l IH]; intros sels Hl Hn; cbn in Hn; [by simplify_eq|].
  assert (forall sels, registry_negotiate_loop l remote = Ok sels -> Forall (activable (freeze r)) sels)
    as IH' by (intros; apply IH; [set_solver|done]).
  destruct (List.find _ remote) as [o|]; [|by apply IH']. inv_ok. guards.
  destruct (range_negotiate _ _) as [v|] eqn:Hv; [|by apply IH']. inv_ok.
  rename select (capability_intersect _ _ = _) into Hc.
  constructor; [|by apply IH']. assert (reg_descriptors r !! pd_stable_id d = Some d) as Hd by (apply Hl; left).
  destruct (wf_descriptors r Hwf _ _ Hd) as [_ Hok]. destruct (ok_capabilities _ _ Hok) as [Hid Hb].
  exists d. cbn. split_and!; try done.
  - apply intersect_Some in Hc as [_ ->]. done.
  - by eapply capability_bounded_left.
  - eapply capability_subset_left; [|exact Hc]. by apply (Hty _ _ Hd).
  - by apply range_negotiate_Some in Hv as (? & _).
Qed.

Lemma freeze_values `{Sha256} r d :
  registry_wf r -> d ∈ descriptor_values (freeze r) -> reg_descriptors r !! pd_stable_id d = Some d.
Proof.
  intros Hwf [id Hid]%elem_of_descriptor_values. cbn in Hid.
  by destruct (wf_descriptors r Hwf _ _ Hid) as [-> _].
Qed.

Lemma registry_negotiate_handshake `{Sha256} r remote :
  registry_wf r -> len remote <= max_protocols (reg_limits r) ->
  match registry_negotiate (freeze r) remote with
  | Ok sels => negotiate_protocols (offers (freeze r)) remote = Ok sels
  | Err _ => negotiate_protocols (offers (freeze r)) remote = Err ()
  end.
Proof.
  intros Hwf Hl. unfold registry_negotiate. rewrite reject_pass by (apply N.ltb_ge; exact Hl).
  apply registry_negotiate_offers.
  - by apply descriptor_values_nodup, freeze_keyed.
  - apply Forall_forall. set_solver.
Qed.

(** ** Properties *)

(** Whatever descriptors are offered to a new registry, it holds only
    valid ones, each under its own stable id, within the limits on protocols
    and channels, and counts its channels exactly.  A registration is never
    replaced by a later one. *)
Theorem registry_invariant `{Sha256} limits r0 earlier later :
  registry_new limits = Ok r0 ->
  let r1 := register_all r0 earlier in
  let r2 := register_all r1 later in
  reg_limits r2 = limits
  /\ (forall id d, reg_descriptors r2 !! id = Some d -> pd_stable_id d = id /\ descriptor_ok limits d)
  /\ card (reg_descriptors r2) <= max_protocols limits
  /\ reg_total_channels r2 = N.min usize_max (N.of_nat (channel_count (reg_descriptors r2)))
  /\ reg_total_channels r2 <= max_total_channels limits
  /\ forall id d, reg_descriptors r1 !! id = Some d -> reg_descriptors r2 !! id = Some d.
Proof.
  intros Hr r1 r2.
  assert (reg_limits r0 = limits) as Hl0 by (unfold registry_new in Hr; by inv_ok).
  destruct (register_all_wf r0 earlier (registry_new_wf _ _ Hr)) as (Hw1 & Hl1 & _).
  destruct (register_all_wf r1 later Hw1) as (Hw2 & Hl2 & Hk).
  fold r1 r2 in Hl1, Hl2, Hw2. rewrite Hl1, Hl0 in Hl2.
  destruct Hw2 as [Hd Ht Htb Hp]. rewrite Hl2 in *. by split_and!.
Qed.

(** C27: The registry's negotiation is the handshake's: on the registry's own
    offers and a peer's offers, these no more than the registry's limit of
    protocols, both fail or both give the same selections, in the same order. *)
Theorem negotiation_agrees `{Sha256} limits r0 ds remote :
  registry_new limits = Ok r0 -> len remote <= max_protocols limits ->
  let f := freeze (register_all r0 ds) in
  match registry_negotiate f remote, negotiate_protocols (offers f) remote with
  | Ok sels, Ok sels' => sels = sels'
  | Err _, Err _ => True
  | _, _ => False
  end.
Proof.
  intros Hr Hlen f.
  assert (reg_limits r0 = limits) as Hl0 by (unfold registry_new in Hr; by inv_ok).
  destruct (register_all_wf r0 ds (registry_new_wf _ _ Hr)) as (Hw & Hl & _).
  pose proof (registry_negotiate_handshake _ remote Hw) as Hn. rewrite Hl, Hl0 in Hn.
  specialize (Hn Hlen). fold f in Hn.
  destruct (registry_negotiate f remote); by rewrite Hn.
Qed.

(** What a registry negotiates with any peer it can activate.  The active
    set then holds exactly the negotiated protocols, each at the negotiated
    version, schema and capabilities, with every channel the registered
    descriptor declares. *)
Theorem negotiated_activates `{Sha256} limits r0 ds remote sels :
  registry_new limits = Ok r0 -> registry_typed (register_all r0 ds) ->
  let f := freeze (register_all r0 ds) in
  registry_negotiate f remote = Ok sels ->
  exists set, activate f sels = Ok set
    /\ (forall s, s ∈ sels -> exists d p, frozen_descriptors f !! sel_stable_id s = Some d
          /\ active set !! sel_stable_id s = Some p
          /\ ap_version p = sel_version s /\ ap_schema p = sel_schema s
          /\ ap_capabilities p = sel_capabilities s
          /\ (forall c, c ∈ pd_channels d -> ap_channels p !! pc_id c = Some c))
    /\ (forall id, is_Some (active set !! id) -> id ∈ sel_stable_id <$> sels).
Proof.
  intros Hr Hty f Hn.
  destruct (register_all_wf r0 ds (registry_new_wf _ _ Hr)) as (Hw & _ & _).
  unfold registry_negotiate in Hn. inv_ok.
  pose proof (registry_negotiate_offers ∅ (descriptor_values f) remote
    (descriptor_values_nodup _ (freeze_keyed _ Hw)) ltac:(apply Forall_forall; set_solver)) as Hneg.
  rewrite Hn in Hneg. apply negotiate_loop_spec in Hneg as [Hnd _].
  assert (Forall (activable f) sels) as Hact.
  { eapply negotiated_activable; [exact Hw|exact Hty| |exact Hn]. intros d. by apply freeze_values. }
  destruct (activate_loop_complete f ∅ sels Hnd ltac:(apply Forall_forall; set_solver) Hact) as [set Hset].
  assert (len sels <= card (frozen_descriptors f)) as Hlen.
  { rewrite <- (length_fmap sel_stable_id), <- size_dom, <- (size_list_to_set (C:=gset ProtocolStableId)) by done.
    enough (size (list_to_set (sel_stable_id <$> sels) : gset ProtocolStableId)
            <= size (dom (frozen_descriptors f)))%nat by lia.
    apply subseteq_size. intros id. rewrite elem_of_list_to_set, list_elem_of_fmap, elem_of_dom.
    intros (s & -> & Hin). rewrite Forall_forall in Hact. destruct (Hact s Hin) as (d & -> & _). done. }
  exists (mkActiveSet set). unfold activate. rewrite reject_pass by (by apply N.ltb_ge).
  rewrite Hset. split; [done|]. apply activate_loop_ok in Hset as (_ & _ & _ & Hlook). split.
  - intros s Hin. rewrite Forall_forall in Hact. destruct (Hact s Hin) as (d & Hd & _).
    exists d, (activated s d). split; [done|]. split.
    { cbn. apply Hlook. right. by exists s, d. }
    cbn. split_and!; [done..|]. intros c. apply channels_by_id_complete.
    destruct (wf_descriptors _ Hw _ _ Hd) as [_ Hok]. apply Hok.
  - intros id [p Hp]. cbn in Hp. apply Hlook in Hp as [Hp|(s & d & Hin & <- & _)]; [set_solver|].
    by apply list_elem_of_fmap_2.
Qed.

(** A granted request, spelled out. *)
Lemma validated_channel_spec `{Sha256} limits r0 ds sels set req v :
  registry_new limits = Ok r0 -> activate (freeze (register_all r0 ds)) sels = Ok set ->
  active_open_channel set req = Ok v ->
  exists s d c, s ∈ sels /\ sel_stable_id s = req_protocol_id req
    /\ reg_descriptors (register_all r0 ds) !! req_protocol_id req = Some d
    /\ c ∈ pd_channels d /\ channel_ok c /\ pc_id c = req_protocol_channel_id req
    /\ v = mkValidated
         (mkConfig (mkKey (sel_stable_id s) (sel_version s) (pc_id c)) (req_channel_id req)
            GENERATION_INITIAL (pc_mode c) (pc_priority c) (req_capacity req)
            (pc_max_frame_bytes c) (pc_max_stream_bytes c) (pc_discardable c))
         (sel_stable_id s) (pc_id c) (sel_schema s) (sel_capabilities s) (pc_debug_name c)
         (pc_max_frame_bytes c) (pc_max_stream_bytes c) (pc_discardable c)
    /\ 0 < req_capacity req <= pc_max_in_flight_frames c.
Proof.
  intros Hr Ha Hv. destruct (register_all_wf r0 ds (registry_new_wf _ _ Hr)) as (Hw & _ & _).
  unfold activate in Ha. inv_ok.
  destruct (activate_loop _ _ sels) as [m|] eqn:Hm; [|done]. cbn in Ha. simplify_eq.
  apply activate_loop_ok in Hm as (_ & _ & _ & Hlook). cbn in Hlook.
  unfold active_open_channel in Hv. inv_ok. guards. cbn in *.
  rename select (m !! _ = Some _) into Hp.
  apply Hlook in Hp as [Hp|(s & d & Hs & Hid & Hd & ->)]; [set_solver|]. cbn in *.
  rename select (channels_by_id _ !! _ = Some _) into Hc.
  apply channels_by_id_lookup in Hc as [Hc Hcid].
  destruct (wf_descriptors _ Hw _ _ Hd) as [_ Hok].
  pose proof (ok_channels _ _ Hok) as Hall. rewrite Forall_forall in Hall.
  do 3 eexists. split_and!; [exact Hs|done|exact Hd|exact Hc|by apply Hall|done|done|lia|done].
Qed.

(** A channel request is granted exactly when its protocol was activated,
    the channel is one the protocol declares, and the capacity is positive and
    within the declared bound.  The validated channel then carries the
    negotiated key, schema and capabilities and the declared limits, which
    satisfy what the multiplexer demands of a channel. *)
Theorem validated_channel_correct `{Sha256} limits r0 ds sels set req :
  registry_new limits = Ok r0 ->
  activate (freeze (register_all r0 ds)) sels = Ok set ->
  match active_open_channel set req with
  | Ok v => exists s d c, s ∈ sels /\ sel_stable_id s = req_protocol_id req
      /\ reg_descriptors (register_all r0 ds) !! req_protocol_id req = Some d
      /\ c ∈ pd_channels d /\ pc_id c = req_protocol_channel_id req
      /\ cfg_key (vc_config v) = mkKey (sel_stable_id s) (sel_version s) (pc_id c)
      /\ cfg_id (vc_config v) = req_channel_id req
      /\ cfg_generation (vc_config v) = GENERATION_INITIAL
      /\ vc_schema v = sel_schema s /\ vc_capabilities v = sel_capabilities s
      /\ capacity (vc_config v) = req_capacity req
      /\ 0 < req_capacity req <= pc_max_in_flight_frames c
      /\ 0 < cfg_max_frame_bytes (vc_config v)
      /\ (cfg_mode (vc_config v) = Stream <-> is_Some (max_stream_bytes (vc_config v)))
      /\ (discardable (vc_config v) = true -> cfg_mode (vc_config v) = Event)
  | Err _ => (req_protocol_id req ∉ sel_stable_id <$> sels)
      \/ (exists d, reg_descriptors (register_all r0 ds) !! req_protocol_id req = Some d
          /\ ((req_protocol_channel_id req ∉ pc_id <$> pd_channels d)
              \/ exists c, c ∈ pd_channels d /\ pc_id c = req_protocol_channel_id req
                 /\ (req_capacity req = 0 \/ pc_max_in_flight_frames c < req_capacity req)))
  end.
Proof.
  intros Hr Ha. destruct (register_all_wf r0 ds (registry_new_wf _ _ Hr)) as (Hw & _ & _).
  unfold activate in Ha. inv_ok.
  destruct (activate_loop _ _ sels) as [m|] eqn:Hm; [|done]. cbn in Ha. simplify_eq.
  apply activate_loop_ok in Hm as (_ & _ & Hact & Hlook). cbn in Hlook.
  unfold active_open_channel. cbn. destruct (m !! req_protocol_id req) as [p|] eqn:Hp; cbn.
  - apply Hlook in Hp as [Hp|(s & d & Hs & Hid & Hd & ->)]; [set_solver|].
    destruct (wf_descriptors _ Hw _ _ Hd) as [_ Hok]. cbn.
    destruct (channels_by_id (pd_channels d) !! _) as [c|] eqn:Hc; cbn.
    + apply channels_by_id_lookup in Hc as [Hc Hcid].
      pose proof (ok_channels _ _ Hok) as Hall. rewrite Forall_forall in Hall.
      destruct (Hall c Hc) as (_ & ? & _ & _ & ? & ?).
      destruct (_ || _)%bool eqn:Hg; cbn.
      * right. exists d. split; [done|]. right. exists c. split_and!; try done.
        apply orb_true_iff in Hg as [?|?]; guards; [by left|by right].
      * guards. exists s, d, c. split_and!; try done. lia.
    + right. exists d. split; [done|]. left. intros (c & Hcid & Hin)%list_elem_of_fmap.
      rewrite Hcid, channels_by_id_complete in Hc; [done|apply Hok|done].
  - left. intros (s & Hid & Hin)%list_elem_of_fmap.
    rewrite Forall_forall in Hact. destruct (Hact s Hin) as (d & Hd & _).
    assert (m !! req_protocol_id req = Some (activated s d)) as E; [|congruence].
    apply Hlook. right. exists s, d. by rewrite Hid.
Qed.

(** ** A concrete registry *)

Lemma register_all_mem `{Sha256} r ds id d :
  reg_descriptors (register_all r ds) !! id = Some d -> reg_descriptors r !! id = Some d \/ d ∈ ds.
Proof.
  revert r. induction ds as [|d' ds IH]; intros r; [by left|]. intros [Hd|Hd]%IH; [|set_solver].
  destruct (register_cases r d') as [[E _]|(_ & _ & _ & _ & _ & E)]; rewrite E in Hd; [by left|].
  cbn in Hd. apply lookup_insert_Some in Hd as [[_ ->]|[_ Hd]]; [right; left|by left].
Qed.

Definition demo_descriptor : ProtocolDescriptor :=
  mkDescriptor (offer_stable_id example_offer) (Some example_debug) (offer_versions example_offer)
    (offer_schema example_offer) (offer_capabilities example_offer)
    [mkChannelDescriptor 1 (Some (str "main")) Stream 128 4096 (Some 65536) 8 false;
     mkChannelDescriptor 2 None Event 0 512 None 4 true].
Definition demo_r0 : ProtocolRegistry := mkRegistry default_registry_limits ∅ 0.
Definition demo_registry : ProtocolRegistry := @register_all toy_sha256 demo_r0 [demo_descriptor].
Definition demo_selections : list ProtocolSelection :=
  match registry_negotiate (freeze demo_registry) [example_offer] with Ok l => l | Err _ => [] end.

Lemma demo_negotiates :
  registry_negotiate (freeze demo_registry) [example_offer] = Ok demo_selections
  /\ length demo_selections = 1%nat.
Proof.
  unfold demo_selections.
  assert (match registry_negotiate (freeze demo_registry) [example_offer] with
          | Ok l => Nat.eqb (length l) 1 | Err _ => false end = true) as He by by vm_compute.
  destruct (registry_negotiate _ _); [|discriminate He]. split; [reflexivity|].
  by apply Nat.eqb_eq.
Qed.

Lemma demo_typed : registry_typed demo_registry.
Proof.
  intros id d Hd. apply register_all_mem in Hd as [Hd|Hd]; [cbn in Hd; by rewrite lookup_empty in Hd|].
  apply list_elem_of_singleton in Hd as ->. repeat constructor; by vm_compute.
Qed.

Lemma registry_invariant_witness : card (reg_descriptors demo_registry) <= 16.
Proof.
  destruct (@registry_invariant toy_sha256 default_registry_limits demo_r0 [demo_descriptor] []
    eq_refl) as (_ & _ & Hc & _).
  exact Hc.
Defined.

Lemma negotiation_agrees_witness :
  @registry_new default_registry_limits = Ok demo_r0
  /\ match negotiate_protocols (offers (freeze demo_registry)) [example_offer] with
     | Ok sels => demo_selections = sels | Err _ => False end.
Proof.
  split; [reflexivity|].
  pose proof (@negotiation_agrees toy_sha256 default_registry_limits demo_r0 [demo_descriptor]
    [example_offer] eq_refl ltac:(apply N.leb_le; reflexivity)) as Hn.
  cbv zeta in Hn. fold demo_registry in Hn. rewrite (proj1 demo_negotiates) in Hn. exact Hn.
Defined.

Lemma negotiated_activates_witness :
  exists set, activate (freeze demo_registry) demo_selections = Ok set.
Proof.
  destruct (@negotiated_activates toy_sha256 default_registry_limits demo_r0 [demo_descriptor]
    [example_offer] demo_selections eq_refl demo_typed (proj1 demo_negotiates)) as (set & Hset & _).
  exists set. exact Hset.
Defined.

Definition demo_request : ChannelOpenRequest :=
  mkOpenRequest (offer_stable_id example_offer) 1 5 4.

Lemma demo_opens :
  exists set v, activate (freeze demo_registry) demo_selections = Ok set
    /\ active_open_channel set demo_request = Ok v.
Proof.
  assert (match activate (freeze demo_registry) demo_selections with
          | Ok set => match active_open_channel set demo_request with Ok _ => true | _ => false end
          | Err _ => false end = true) as He by by vm_compute.
  destruct (activate _ _) as [set|]; [|discriminate He]. exists set.
  destruct (active_open_channel set demo_request) as [v|]; [|discriminate He]. by exists v.
Qed.

Lemma validated_channel_correct_witness :
  exists set v, active_open_channel set demo_request = Ok v
    /\ capacity (vc_config v) = 4 /\ 0 < cfg_max_frame_bytes (vc_config v).
Proof.
  destruct demo_opens as (set & v & Hset & Hv). exists set, v. split; [exact Hv|].
  pose proof (@validated_channel_correct toy_sha256 default_registry_limits demo_r0 [demo_descriptor]
    demo_selections set demo_request eq_refl Hset) as Hc.
  rewrite Hv in Hc.
  destruct Hc as (s & d & c & _ & _ & _ & _ & _ & _ & _ & _ & _ & _ & Hcap & _ & Hf & _).
  split; [exact Hcap|exact Hf].
Defined.
