(* ===== verification/Liveness.v ===== *)
(** * Liveness and connection quality

    Models [liveness.rs]: the heartbeat controller, the quality accumulator
    and the detector of significant changes.  [TransportKind] is declared in
    [selection.rs]. *)

From S2P Require Export Identity.
Local Open Scope N_scope.

Inductive TransportKind := Local | Quic | Tcp | Custom (name : string).
#[export] Instance TransportKind_eq_dec : EqDecision TransportKind.
Proof. solve_decision. Defined.

Module LivenessState.
Inductive t := Healthy | LatencyElevated | TemporarilyUnreachable | Dead | PeerClosed.
#[global] Instance t_eq_dec : EqDecision t.
Proof. solve_decision. Defined.
End LivenessState.

(** ** Heartbeat *)

Inductive ConnectionActivityProfile := Idle | Active | Mobile | Background | LocalIpc.

Record HeartbeatPolicy := mkHeartbeatPolicy {
  idle_interval_ms : N;
  active_interval_ms : N;
  mobile_interval_ms : N;
  background_interval_ms : N;
  local_ipc_interval_ms : N;
  unreachable_after_ms : N;
  dead_after_ms : N;
}.
Definition default_heartbeat_policy : HeartbeatPolicy :=
  mkHeartbeatPolicy 30000 10000 45000 120000 60000 90000 180000.

(** [HeartbeatPolicy::is_valid]. *)
Definition heartbeat_policy_valid (p : HeartbeatPolicy) : bool :=
  (0 <? idle_interval_ms p) && (0 <? active_interval_ms p) && (0 <? mobile_interval_ms p)
  && (0 <? background_interval_ms p) && (0 <? local_ipc_interval_ms p)
  && (unreachable_after_ms p <? dead_after_ms p) && (0 <? unreachable_after_ms p).

(** [HeartbeatPolicy::interval]. *)
Definition interval (p : HeartbeatPolicy) (profile : ConnectionActivityProfile) : N :=
  match profile with
  | Idle => idle_interval_ms p
  | Active => active_interval_ms p
  | Mobile => mobile_interval_ms p
  | Background => background_interval_ms p
  | LocalIpc => local_ipc_interval_ms p
  end.

Inductive HeartbeatAction :=
| NoAction | SendProbe | SuppressedByTransport | LivenessChanged (s : LivenessState.t).

Record HeartbeatController := mkHeartbeat {
  hb_policy : HeartbeatPolicy;
  last_liveness : N;
  last_transport_ack : option N;
  next_probe : N;
  hb_state : LivenessState.t;
  hb_paused : bool;
}.

Definition heartbeat_new (p : HeartbeatPolicy) (now : N) : result string HeartbeatController :=
  reject negb (heartbeat_policy_valid p)
    with "heartbeat intervals must be positive and ordered"%string;
  Ok (mkHeartbeat p now None (sat_add u64_max now (idle_interval_ms p)) LivenessState.Healthy false).

Definition heartbeat_pause (h : HeartbeatController) : HeartbeatController :=
  mkHeartbeat (hb_policy h) (last_liveness h) (last_transport_ack h) (next_probe h) (hb_state h) true.
Definition heartbeat_resume (h : HeartbeatController) (now : N)
    (profile : ConnectionActivityProfile) : HeartbeatController :=
  mkHeartbeat (hb_policy h) (last_liveness h) (last_transport_ack h)
    (sat_add u64_max now (interval (hb_policy h) profile)) (hb_state h) false.

Definition observe_liveness (h : HeartbeatController) (now : N) : HeartbeatController :=
  mkHeartbeat (hb_policy h) now (last_transport_ack h) (next_probe h) LivenessState.Healthy
    (hb_paused h).
Definition observe_transport_ack (h : HeartbeatController) (now : N) : HeartbeatController :=
  observe_liveness (mkHeartbeat (hb_policy h) (last_liveness h) (Some now) (next_probe h)
                      (hb_state h) (hb_paused h)) now.
Definition observe_probe_ack (h : HeartbeatController) (now : N) : HeartbeatController :=
  observe_liveness h now.

Definition hb_set_state (h : HeartbeatController) (s : LivenessState.t) : HeartbeatController :=
  mkHeartbeat (hb_policy h) (last_liveness h) (last_transport_ack h) (next_probe h) s (hb_paused h).

Definition observe_latency (h : HeartbeatController) (now round_trip elevated_at : N)
    : HeartbeatController * HeartbeatAction :=
  let h := mkHeartbeat (hb_policy h) now (last_transport_ack h) (next_probe h) (hb_state h)
             (hb_paused h) in
  let next := if elevated_at <=? round_trip then LivenessState.LatencyElevated
              else LivenessState.Healthy in
  if bool_decide (next = hb_state h) then (h, NoAction)
  else (hb_set_state h next, LivenessChanged next).

Definition observe_peer_close (h : HeartbeatController) : HeartbeatController * HeartbeatAction :=
  (hb_set_state h LivenessState.PeerClosed, LivenessChanged LivenessState.PeerClosed).

(** The state a silence of this length means. *)
Definition silence_state (p : HeartbeatPolicy) (silence : N) : LivenessState.t :=
  if dead_after_ms p <=? silence then LivenessState.Dead
  else if unreachable_after_ms p <=? silence then LivenessState.TemporarilyUnreachable
  else LivenessState.Healthy.

Definition tick (h : HeartbeatController) (now : N) (profile : ConnectionActivityProfile)
    : HeartbeatController * HeartbeatAction :=
  if hb_paused h || bool_decide (hb_state h = LivenessState.PeerClosed) then (h, NoAction)
  else
    let next := silence_state (hb_policy h) (now - last_liveness h) in
    if negb (bool_decide (next = hb_state h)) then (hb_set_state h next, LivenessChanged next)
    else if now <? next_probe h then (h, NoAction)
    else
      let every := interval (hb_policy h) profile in
      (mkHeartbeat (hb_policy h) (last_liveness h) (last_transport_ack h)
         (sat_add u64_max now every) (hb_state h) (hb_paused h),
       match last_transport_ack h with
       | Some ack => if now - ack <=? every then SuppressedByTransport else SendProbe
       | None => SendProbe
       end).

(** ** Quality *)

Record ConnectionQuality := mkQuality {
  q_round_trip_millis : option N;
  q_jitter_millis : option N;
  q_loss_per_million : option N;
  q_retransmit_per_million : option N;
  q_send_queue_pressure_per_million : N;
  q_transmit_bytes_per_second : N;
  q_receive_bytes_per_second : N;
  q_consecutive_failures : N;
  q_transport : option TransportKind;
  q_liveness : LivenessState.t;
}.
#[export] Instance ConnectionQuality_eq_dec : EqDecision ConnectionQuality.
Proof. solve_decision. Defined.
Definition default_quality : ConnectionQuality :=
  mkQuality None None None None 0 0 0 0 None LivenessState.Healthy.

Record QualityObservation := mkObservation {
  o_round_trip_millis : option N;
  o_sent_packets : N;
  o_lost_packets : N;
  o_retransmitted_packets : N;
  o_transmitted_bytes : N;
  o_received_bytes : N;
  o_elapsed_ms : N;
  o_send_queue_depth : N;
  o_send_queue_capacity : N;
  o_consecutive_failures : N;
  o_liveness : LivenessState.t;
}.

Record QualityAccumulator := mkAccumulator {
  acc_transport : TransportKind;
  rtt_ewma : option N;
  jitter_ewma : option N;
  total_sent_packets : N;
  total_lost_packets : N;
  total_retransmitted_packets : N;
}.
Definition accumulator_new (t : TransportKind) : QualityAccumulator :=
  mkAccumulator t None None 0 0 0.

(** [previous.saturating_mul(7).saturating_add(sample) / 8] on [u32]. *)
Definition ewma (previous sample : N) : N :=
  sat_add u32_max (sat_mul u32_max previous 7) sample / 8.
Definition ratio_per_million (numerator denominator : N) : option N :=
  if 0 <? denominator
  then Some (N.min (sat_mul u64_max numerator 1000000 / denominator) u32_max)
  else None.
Definition queue_pressure (depth cap : N) : N :=
  if cap =? 0 then 0 else N.min (sat_mul usize_max depth 1000000 / cap) 1000000.
Definition rate (bytes elapsed_ms : N) : N :=
  if elapsed_ms =? 0 then 0 else sat_mul u64_max bytes 1000 / elapsed_ms.

(** The two averages after a sample. *)
Definition observe_averages (a : QualityAccumulator) (sample : option N) : option N * option N :=
  match sample with
  | None => (rtt_ewma a, jitter_ewma a)
  | Some rtt =>
    let previous := default rtt (rtt_ewma a) in
    let deviation := abs_diff previous rtt in
    (Some (ewma previous rtt), Some (ewma (default deviation (jitter_ewma a)) deviation))
  end.

Definition observe (a : QualityAccumulator) (sample : QualityObservation)
    : QualityAccumulator * ConnectionQuality :=
  let '(rtt, jitter) := observe_averages a (o_round_trip_millis sample) in
  let sent := sat_add u64_max (total_sent_packets a) (o_sent_packets sample) in
  let lost := sat_add u64_max (total_lost_packets a) (o_lost_packets sample) in
  let retransmitted := sat_add u64_max (total_retransmitted_packets a)
                         (o_retransmitted_packets sample) in
  (mkAccumulator (acc_transport a) rtt jitter sent lost retransmitted,
   mkQuality rtt jitter (ratio_per_million lost sent) (ratio_per_million retransmitted sent)
     (queue_pressure (o_send_queue_depth sample) (o_send_queue_capacity sample))
     (rate (o_transmitted_bytes sample) (o_elapsed_ms sample))
     (rate (o_received_bytes sample) (o_elapsed_ms sample))
     (o_consecutive_failures sample) (Some (acc_transport a)) (o_liveness sample)).

Record QualityChangeThreshold := mkThreshold {
  t_round_trip_millis : N;
  t_jitter_millis : N;
  t_loss_per_million : N;
  t_retransmit_per_million : N;
  t_queue_pressure_per_million : N;
  t_throughput_bytes_per_second : N;
}.
Definition default_threshold : QualityChangeThreshold :=
  mkThreshold 25 10 10000 10000 100000 (64 * 1024).

Record QualityChangeDetector := mkDetector {
  threshold : QualityChangeThreshold;
  last_emitted : option ConnectionQuality;
}.
Definition detector_new (t : QualityChangeThreshold) : QualityChangeDetector := mkDetector t None.

Definition option_diff (left right : option N) : N :=
  match left, right with
  | Some l, Some r => abs_diff l r
  | None, None => 0
  | _, _ => u32_max
  end.

(** The change is large enough to report. *)
Definition significant (t : QualityChangeThreshold) (p v : ConnectionQuality) : bool :=
  (t_round_trip_millis t <=? option_diff (q_round_trip_millis p) (q_round_trip_millis v))
  || (t_jitter_millis t <=? option_diff (q_jitter_millis p) (q_jitter_millis v))
  || (t_loss_per_million t <=? option_diff (q_loss_per_million p) (q_loss_per_million v))
  || (t_retransmit_per_million t
        <=? option_diff (q_retransmit_per_million p) (q_retransmit_per_million v))
  || (t_queue_pressure_per_million t
        <=? abs_diff (q_send_queue_pressure_per_million p) (q_send_queue_pressure_per_million v))
  || (t_throughput_bytes_per_second t
        <=? abs_diff (q_transmit_bytes_per_second p) (q_transmit_bytes_per_second v))
  || (t_throughput_bytes_per_second t
        <=? abs_diff (q_receive_bytes_per_second p) (q_receive_bytes_per_second v))
  || negb (bool_decide (q_liveness p = q_liveness v))
  || negb (bool_decide (q_transport p = q_transport v)).

Definition consider (d : QualityChangeDetector) (value : ConnectionQuality)
    : QualityChangeDetector * option ConnectionQuality :=
  if match last_emitted d with
     | None => true
     | Some previous => significant (threshold d) previous value
     end
  then (mkDetector (threshold d) (Some value), Some value)
  else (d, None).

(** * What the heartbeat and the quality reports say *)

(** ** Runs of a heartbeat *)

Inductive hb_event :=
| HPause | HResume (now : N) (profile : ConnectionActivityProfile)
| HTransportAck (now : N) | HProbeAck (now : N) | HLatency (now round_trip elevated_at : N)
| HPeerClose | HTick (now : N) (profile : ConnectionActivityProfile).

Definition hb_step (h : HeartbeatController) (ev : hb_event) : HeartbeatController * HeartbeatAction :=
  match ev with
  | HPause => (heartbeat_pause h, NoAction)
  | HResume now profile => (heartbeat_resume h now profile, NoAction)
  | HTransportAck now => (observe_transport_ack h now, NoAction)
  | HProbeAck now => (observe_probe_ack h now, NoAction)
  | HLatency now rtt at_ => observe_latency h now rtt at_
  | HPeerClose => observe_peer_close h
  | HTick now profile => tick h now profile
  end.
Definition hb_run (h : HeartbeatController) (evs : list hb_event) : HeartbeatController :=
  foldl (fun h ev => (hb_step h ev).1) h evs.

(** When life was last seen, and by the transport: the abstract history. *)
Definition seen_alive (t0 : N) (evs : list hb_event) : N :=
  foldl (fun t ev => match ev with
                     | HTransportAck now | HProbeAck now | HLatency now _ _ => now
                     | _ => t end) t0 evs.
Definition acked (evs : list hb_event) : option N :=
  foldl (fun t ev => match ev with HTransportAck now => Some now | _ => t end) None evs.
Definition paused_after (evs : list hb_event) : bool :=
  foldl (fun b ev => match ev with HPause => true | HResume _ _ => false | _ => b end) false evs.
Definition closed_after (evs : list hb_event) : bool :=
  foldl (fun b ev => match ev with
                     | HPeerClose => true
                     | HTransportAck _ | HProbeAck _ | HLatency _ _ _ => false
                     | _ => b end) false evs.

Lemma silence_not_closed p n : silence_state p n <> LivenessState.PeerClosed.
Proof. unfold silence_state. by repeat case_match. Qed.

(** A tick changes neither the policy nor the history, and never closes. *)
Lemma tick_frame h now profile :
  let h' := (tick h now profile).1 in
  hb_policy h' = hb_policy h /\ last_liveness h' = last_liveness h
  /\ last_transport_ack h' = last_transport_ack h /\ hb_paused h' = hb_paused h
  /\ (hb_state h' = LivenessState.PeerClosed <-> hb_state h = LivenessState.PeerClosed).
Proof.
  unfold tick. destruct (hb_paused h || _) eqn:Hp; [done|]. apply orb_false_iff in Hp as [_ Hc]. guards.
  pose proof (silence_not_closed (hb_policy h) (now - last_liveness h)) as Hs.
  destruct (negb _) eqn:Hn; [cbn; split_and!; done|]. by destruct (now <? next_probe h).
Qed.

Lemma hb_run_history p t0 h0 evs :
  heartbeat_new p t0 = Ok h0 ->
  let h := hb_run h0 evs in
  hb_policy h = p /\ last_liveness h = seen_alive t0 evs /\ last_transport_ack h = acked evs
  /\ hb_paused h = paused_after evs
  /\ (hb_state h = LivenessState.PeerClosed <-> closed_after evs = true).
Proof.
  intros Hn. unfold heartbeat_new in Hn. inv_ok.
  unfold hb_run, seen_alive, acked, paused_after, closed_after.
  induction evs as [|ev evs IH] using rev_ind; [cbn; split_and!; done|].
  rewrite !foldl_app. cbn [foldl]. set (h := foldl _ _ evs) in *.
  destruct IH as (H1 & H2 & H3 & H4 & H5).
  destruct ev as [|now profile|now|now|now rtt at_| |now profile]; cbn [hb_step fst]; try done.
  - unfold observe_latency. cbn. repeat case_match; cbn; split_and!; try done;
      guards; split; intros Hx; try done; congruence.
  - destruct (tick_frame h now profile) as (-> & -> & -> & -> & E). by rewrite E.
Qed.

(** What a tick that is not suspended does. *)
Lemma tick_active h now profile h' a :
  hb_paused h = false -> hb_state h <> LivenessState.PeerClosed -> tick h now profile = (h', a) ->
  let next := silence_state (hb_policy h) (now - last_liveness h) in
  let every := interval (hb_policy h) profile in
  hb_state h' = next
  /\ (forall s, a = LivenessChanged s <-> next <> hb_state h /\ s = next)
  /\ ((a = SendProbe \/ a = SuppressedByTransport) <-> next = hb_state h /\ next_probe h <= now)
  /\ ((a = SendProbe \/ a = SuppressedByTransport) -> next_probe h' = sat_add u64_max now every)
  /\ (a = SuppressedByTransport <->
        next = hb_state h /\ next_probe h <= now
        /\ exists ack, last_transport_ack h = Some ack /\ now - ack <= every)
  /\ (a = NoAction <-> next = hb_state h /\ now < next_probe h).
Proof.
  intros Hp Hc Ht next every. unfold tick in Ht. rewrite Hp, bool_decide_false in Ht by done. cbn in Ht.
  fold next every in Ht. case_bool_decide as He; cbn in Ht; [|simplify_eq; naive_solver].
  destruct (N.ltb_spec now (next_probe h)).
  { simplify_eq. split_and!; try done; try naive_solver; (split; [naive_solver|intros (? & ? & _) || intros (? & ?); lia]). }
  assert (next_probe h' = sat_add u64_max now every /\ hb_state h' = next) as [Hp' Hs'] by (repeat case_match; by simplify_eq).
  destruct (last_transport_ack h) as [ack|] eqn:Hack;
    [destruct (N.leb_spec (now - ack) every)|]; simplify_eq; split_and!; try done; try naive_solver lia.
Qed.

(** A due probe is either sent or suppressed. *)
Lemma probe_sent a (same due : Prop) (acked : option N) (now every : N) :
  ((a = SendProbe \/ a = SuppressedByTransport) <-> same /\ due) ->
  (a = SuppressedByTransport <-> same /\ due /\ exists ack, acked = Some ack /\ now - ack <= every) ->
  (a = SendProbe <-> same /\ due /\ forall ack, acked = Some ack -> every < now - ack).
Proof.
  intros H1 H2. split.
  - intros ->. destruct (proj1 H1 (or_introl eq_refl)) as [Hs Hd]. split_and!; [done..|].
    intros ack Ha. apply N.lt_nge. intros Hle.
    assert (SendProbe = SuppressedByTransport) by (apply H2; eauto). done.
  - intros (Hs & Hd & Hf). destruct (proj2 H1 (conj Hs Hd)) as [->|Hx]; [done|].
    apply H2 in Hx as (_ & _ & ack & Ha & Hle). apply Hf in Ha. lia.
Qed.

(** ** Properties *)

(** C35: At every tick the heartbeat reports exactly what the silence means.
    Unless it is paused or the peer has closed, the state after a tick is dead,
    unreachable or healthy according to the time since life was last seen, and
    a change is reported exactly when there is one.  When there is none a
    probe is sent exactly when the probe time has come and the transport was
    not heard within the interval; it is suppressed exactly when the time has
    come and the transport was heard; nothing is done exactly when the time
    has not come; and the next probe is a whole interval after one that is due.
    Paused or closed, a tick does nothing. *)
Theorem heartbeat_correct p t0 h0 evs now profile h' a :
  heartbeat_new p t0 = Ok h0 ->
  let h := hb_run h0 evs in
  let silence := now - seen_alive t0 evs in
  tick h now profile = (h', a) ->
  if paused_after evs || closed_after evs then h' = h /\ a = NoAction
  else
    hb_state h' = silence_state p silence
    /\ (hb_state h' = LivenessState.Dead <-> dead_after_ms p <= silence)
    /\ (hb_state h' = LivenessState.Healthy <-> silence < unreachable_after_ms p)
    /\ (forall s, a = LivenessChanged s <-> hb_state h' <> hb_state h /\ s = hb_state h')
    /\ ((a = SendProbe \/ a = SuppressedByTransport) <->
          hb_state h' = hb_state h /\ next_probe h <= now)
    /\ ((a = SendProbe \/ a = SuppressedByTransport) ->
          next_probe h' = sat_add u64_max now (interval p profile))
    /\ (a = SendProbe <-> hb_state h' = hb_state h /\ next_probe h <= now
          /\ forall ack, acked evs = Some ack -> interval p profile < now - ack)
    /\ (a = SuppressedByTransport <-> hb_state h' = hb_state h /\ next_probe h <= now
          /\ exists ack, acked evs = Some ack /\ now - ack <= interval p profile)
    /\ (a = NoAction <-> hb_state h' = hb_state h /\ now < next_probe h).
Proof.
  intros Hn h silence Ht.
  assert (unreachable_after_ms p < dead_after_ms p) as Hord.
  { unfold heartbeat_new in Hn. inv_ok. guards. unfold heartbeat_policy_valid in *. guards. lia. }
  destruct (hb_run_history p t0 h0 evs Hn) as (Hp & Hl & Hk & Hpause & Hclosed).
  fold h in Hp, Hl, Hk, Hpause, Hclosed.
  destruct (paused_after evs || closed_after evs) eqn:Hq.
  - unfold tick in Ht. rewrite Hpause in Ht.
    assert (paused_after evs || bool_decide (hb_state h = LivenessState.PeerClosed) = true) as E.
    { apply orb_true_iff in Hq as [-> | Hq]; [done|]. rewrite bool_decide_true by by apply Hclosed.
      apply orb_true_r. }
    rewrite E in Ht. by simplify_eq.
  - apply orb_false_iff in Hq as [Hq1 Hq2].
    destruct (tick_active h now profile h' a) as (T1 & T2 & T3 & T4 & T5 & T6); try done; try congruence.
    { rewrite Hclosed, Hq2. done. }
    rewrite Hp, Hl in *. fold silence in T1, T2, T3, T5, T6. rewrite Hk in T5. rewrite T1. split_and!; try done.
    3: by apply (probe_sent _ _ _ _ _ _ T3 T5).
    all: unfold silence_state; repeat case_match; guards; split; intros; try done; lia.
Qed.

Lemma heartbeat_correct_witness :
  let p := default_heartbeat_policy in
  let h0 := mkHeartbeat p 0 None 30000 LivenessState.Healthy false in
  let h := hb_run h0 [HTick 30000 Idle; HProbeAck 40000] in
  tick h 240000 Idle = (hb_set_state h LivenessState.Dead, LivenessChanged LivenessState.Dead)
  /\ hb_state (hb_set_state h LivenessState.Dead)
     = silence_state p (240000 - seen_alive 0 [HTick 30000 Idle; HProbeAck 40000]).
Proof.
  split; [reflexivity|].
  refine (proj1 (heartbeat_correct default_heartbeat_policy 0 _
    [HTick 30000 Idle; HProbeAck 40000] 240000 Idle _ _ _ _)); reflexivity.
Defined.

(** ** Quality *)

(** A moving average stays between its inputs while they are far from the
    end of the type. *)
Lemma ewma_between previous sample :
  previous * 7 + sample <= u32_max ->
  N.min previous sample <= ewma previous sample <= N.max previous sample.
Proof.
  intros Hb. unfold ewma, sat_add, sat_mul.
  rewrite (N.min_r u32_max (previous * 7)), (N.min_r u32_max) by lia.
  split.
  - apply N.div_le_lower_bound; lia.
  - apply N.Div0.div_le_upper_bound. lia.
Qed.

Lemma queue_pressure_bound depth cap : queue_pressure depth cap <= 1000000.
Proof. unfold queue_pressure. destruct (cap =? 0); lia. Qed.

(** A suppressed report is close to the last one that was emitted. *)
Lemma consider_suppressed d v :
  (consider d v).2 = None ->
  (consider d v).1 = d
  /\ exists previous, last_emitted d = Some previous /\ significant (threshold d) previous v = false
     /\ q_liveness previous = q_liveness v /\ q_transport previous = q_transport v.
Proof.
  unfold consider. destruct (last_emitted d) as [previous|]; [|done].
  destruct (significant _ _ _) eqn:Hs; [done|]. intros _. split; [done|]. exists previous.
  split; [done|]. split; [done|]. unfold significant in Hs. apply orb_false_iff in Hs as [Hs ?].
  apply orb_false_iff in Hs as [_ ?]. by guards.
Qed.
