(* ===== verification/Resume.v ===== *)
(** * Session resumption and request replay

    Models [resume.rs].  The token verifier is the owner's implementation of
    a trait: it is an argument. *)

From S2P Require Export Mux.
Local Open Scope N_scope.

Inductive RequestReplay := ReplayNever | Idempotent | ApplicationDecides.
#[export] Instance RequestReplay_eq_dec : EqDecision RequestReplay.
Proof. solve_decision. Defined.

Record ChannelCursor := mkCursor { cursor_channel : ChannelKey; cursor_bytes : list byte }.

Record ResumeOffer := mkResumeOffer {
  ro_token : list byte;
  ro_peer_id : PeerId;
  ro_previous_session_id : SessionId;
  ro_expires_at_unix_ms : N;
  ro_channel_cursors : list ChannelCursor;
}.

(** [ResumeTokenVerifier]. *)
Class ResumeTokenVerifier (V : Type) := verify : V -> ResumeOffer -> bool.

Record ResumeLimits := mkResumeLimits {
  rl_max_token_bytes : N;
  rl_max_channels : N;
  rl_max_cursor_bytes : N;
  rl_max_pending_requests : N;
}.
Definition default_resume_limits : ResumeLimits := mkResumeLimits 512 64 256 128.
Definition resume_limits_valid (l : ResumeLimits) : bool :=
  (0 <? rl_max_token_bytes l) && (0 <? rl_max_channels l) && (0 <? rl_max_cursor_bytes l)
  && (0 <? rl_max_pending_requests l).

Inductive NewSessionReason :=
| NoResumeRequested | TokenRejected | TokenExpired | ResumePeerMismatch | LimitsExceeded.
#[export] Instance NewSessionReason_eq_dec : EqDecision NewSessionReason.
Proof. solve_decision. Defined.

Inductive SessionContinuity :=
| NewSession (reason : NewSessionReason)
| Resumed (previous_session_id : SessionId).
#[export] Instance SessionContinuity_eq_dec : EqDecision SessionContinuity.
Proof. solve_decision. Defined.
Definition default_continuity : SessionContinuity := NewSession NoResumeRequested.

Module ResumeErrorKind.
Inductive t :=
| InvalidLimits | TokenTooLarge | TooManyChannels | CursorTooLarge | TooManyPendingRequests
| DuplicateRequest.
#[global] Instance t_eq_dec : EqDecision t.
Proof. solve_decision. Defined.
End ResumeErrorKind.

Record ResumeError := mkResumeError {
  resume_error_kind : ResumeErrorKind.t;
  resume_public_message : string;
}.

(** [error]. *)
Definition resume_error (kind : ResumeErrorKind.t) : ResumeError :=
  mkResumeError kind
    match kind with
    | ResumeErrorKind.InvalidLimits => "resume limits must be positive"
    | ResumeErrorKind.TokenTooLarge => "resume token exceeds configured limit"
    | ResumeErrorKind.TooManyChannels => "resume channel count exceeds configured limit"
    | ResumeErrorKind.CursorTooLarge => "resume cursor exceeds configured limit"
    | ResumeErrorKind.TooManyPendingRequests => "pending request count exceeds configured limit"
    | ResumeErrorKind.DuplicateRequest => "request is already awaiting acknowledgement"
    end.

Record PendingRequest := mkPending { pr_id : N; pr_replay : RequestReplay }.

Record ReplayPlan := mkPlan {
  automatically_retry : list N;
  application_decision : list N;
  fail_without_retry : list N;
}.

Record ResumeCoordinator := mkCoordinator {
  rc_limits : ResumeLimits;
  rc_pending : list PendingRequest;
}.

Definition coordinator_new (l : ResumeLimits) : result ResumeError ResumeCoordinator :=
  reject negb (resume_limits_valid l) with resume_error ResumeErrorKind.InvalidLimits;
  Ok (mkCoordinator l []).

Definition validate_offer `{ResumeTokenVerifier V} (c : ResumeCoordinator) (offer : ResumeOffer)
    (expected_peer : PeerId) (now : N) (verifier : V) : SessionContinuity :=
  if negb (bool_decide (ro_peer_id offer = expected_peer)) then NewSession ResumePeerMismatch
  else if ro_expires_at_unix_ms offer <=? now then NewSession TokenExpired
  else if bool_decide (ro_token offer = [])
          || (rl_max_token_bytes (rc_limits c) <? len (ro_token offer))
          || (rl_max_channels (rc_limits c) <? len (ro_channel_cursors offer))
          || existsb (fun cursor => rl_max_cursor_bytes (rc_limits c) <? len (cursor_bytes cursor))
               (ro_channel_cursors offer)
  then NewSession LimitsExceeded
  else if negb (verify verifier offer) then NewSession TokenRejected
  else Resumed (ro_previous_session_id offer).

Definition record_unacknowledged (c : ResumeCoordinator) (id : N) (replay : RequestReplay)
    : ResumeCoordinator * result ResumeError () :=
  if existsb (fun r => pr_id r =? id) (rc_pending c)
  then (c, Err (resume_error ResumeErrorKind.DuplicateRequest))
  else if rl_max_pending_requests (rc_limits c) <=? len (rc_pending c)
  then (c, Err (resume_error ResumeErrorKind.TooManyPendingRequests))
  else (mkCoordinator (rc_limits c) (rc_pending c ++ [mkPending id replay]), Ok ()).

Definition acknowledge (c : ResumeCoordinator) (id : N) : ResumeCoordinator * bool :=
  match position (fun r => pr_id r =? id) (rc_pending c) with
  | None => (c, false)
  | Some index => (mkCoordinator (rc_limits c) (remove_at index (rc_pending c)), true)
  end.

(** One step of the loop of [plan_after_reconnect]. *)
Definition plan_push (continuity : SessionContinuity) (plan : ReplayPlan) (r : PendingRequest)
    : ReplayPlan :=
  match continuity, pr_replay r with
  | Resumed _, Idempotent =>
    mkPlan (automatically_retry plan ++ [pr_id r]) (application_decision plan)
      (fail_without_retry plan)
  | _, ApplicationDecides =>
    mkPlan (automatically_retry plan) (application_decision plan ++ [pr_id r])
      (fail_without_retry plan)
  | _, _ =>
    mkPlan (automatically_retry plan) (application_decision plan)
      (fail_without_retry plan ++ [pr_id r])
  end.

(** [while let Some(request) = self.pending.pop_front()]. *)
Definition plan_after_reconnect (c : ResumeCoordinator) (continuity : SessionContinuity)
    : ResumeCoordinator * ReplayPlan :=
  (mkCoordinator (rc_limits c) [], foldl (plan_push continuity) (mkPlan [] [] []) (rc_pending c)).

Definition pending_requests (c : ResumeCoordinator) : N := len (rc_pending c).
