(* ===== verification/Session.v ===== *)
(** * The session

    Models [session.rs]: the bounded event bus, and the session that joins
    the multiplexer, the channel table and the negotiated modes. *)

From S2P Require Export Protocol ChannelMap Liveness Resume.
Local Open Scope N_scope.

Module SessionState.
Inductive t := Connecting | Handshaking | Established | Draining | Closed | Failed.
#[global] Instance t_eq_dec : EqDecision t.
Proof. solve_decision. Defined.
End SessionState.

Inductive CloseReason :=
| Graceful | LocalAbort | RemoteClosed | Timeout | AuthenticationFailed | ProtocolViolation
| TransportFailure.
#[export] Instance CloseReason_eq_dec : EqDecision CloseReason.
Proof. solve_decision. Defined.

Record SessionInfo := mkInfo {
  info_session_id : SessionId;
  info_peer_id : PeerId;
  info_protocols : list ProtocolSelection;
  info_continuity : SessionContinuity;
  info_quality : ConnectionQuality;
  close_reason : option CloseReason;
}.

Inductive SessionEvent :=
| StateChanged (s : SessionState.t)
| ContinuityChanged (c : SessionContinuity)
| QualityChanged (q : ConnectionQuality)
| EvClosed (r : CloseReason)
| EventsDropped (n : N).
#[export] Instance SessionEvent_eq_dec : EqDecision SessionEvent.
Proof. solve_decision. Defined.

(** ** The event bus *)

Abbreviation EventSubscriberId := N (only parsing).

Record Subscriber := mkSubscriber {
  sub_queue : list SessionEvent;
  sub_capacity : N;
  dropped : N;
}.
Record SessionEventBus := mkBus {
  max_subscribers : N;
  next_id : N;
  subscribers : gmap EventSubscriberId Subscriber;
}.

Definition bus_new (max : N) : result LinkError SessionEventBus :=
  reject max =? 0 with InvalidInput "event subscriber limit must be positive";
  Ok (mkBus max 1 ∅).

Definition subscribe (b : SessionEventBus) (cap : N)
    : SessionEventBus * result LinkError EventSubscriberId :=
  if cap =? 0 then (b, Err (InvalidInput "event queue capacity must be positive"))
  else if max_subscribers b <=? card (subscribers b)
  then (b, Err (LimitExceeded EventSubscribers (max_subscribers b)))
  else
    match checked_add u64_max (next_id b) 1 with
    | None => (b, Err Closed)
    | Some next =>
      (mkBus (max_subscribers b) next
         (<[next_id b := mkSubscriber [] cap 0]> (subscribers b)), Ok (next_id b))
    end.

(** The body of the loop of [publish]. *)
Definition deliver (event : SessionEvent) (s : Subscriber) : Subscriber :=
  let s := if len (sub_queue s) =? sub_capacity s
           then mkSubscriber (tail (sub_queue s)) (sub_capacity s) (sat_add u64_max (dropped s) 1)
           else s in
  mkSubscriber (sub_queue s ++ [event]) (sub_capacity s) (dropped s).
Definition publish (b : SessionEventBus) (event : SessionEvent) : SessionEventBus :=
  mkBus (max_subscribers b) (next_id b) (deliver event <$> subscribers b).

(** [next]. *)
Definition next_event (b : SessionEventBus) (id : EventSubscriberId)
    : SessionEventBus * option SessionEvent :=
  match subscribers b !! id with
  | None => (b, None)
  | Some s =>
    let put s' := mkBus (max_subscribers b) (next_id b) (<[id := s']> (subscribers b)) in
    if 0 <? dropped s
    then (put (mkSubscriber (sub_queue s) (sub_capacity s) 0), Some (EventsDropped (dropped s)))
    else
      match sub_queue s with
      | [] => (b, None)
      | e :: q => (put (mkSubscriber q (sub_capacity s) (dropped s)), Some e)
      end
  end.

Definition unsubscribe (b : SessionEventBus) (id : EventSubscriberId) : SessionEventBus * bool :=
  (mkBus (max_subscribers b) (next_id b) (delete id (subscribers b)),
   bool_decide (is_Some (subscribers b !! id))).

(** ** The session *)

Record Session := mkSession {
  state : SessionState.t;
  info : SessionInfo;
  events : SessionEventBus;
  multiplexer : Multiplexer;
  control_mode : ControlModeGuard;
  data_mode : DataModeGuard;
  channel_mappings : SessionChannelMap;
}.

Definition with_mux (s : Session) (m : Multiplexer) : Session :=
  mkSession (state s) (info s) (events s) m (control_mode s) (data_mode s) (channel_mappings s).
Definition with_mappings (s : Session) (c : SessionChannelMap) : Session :=
  mkSession (state s) (info s) (events s) (multiplexer s) (control_mode s) (data_mode s) c.
Definition with_events (s : Session) (b : SessionEventBus) : Session :=
  mkSession (state s) (info s) b (multiplexer s) (control_mode s) (data_mode s) (channel_mappings s).
Definition with_info (s : Session) (i : SessionInfo) : Session :=
  mkSession (state s) i (events s) (multiplexer s) (control_mode s) (data_mode s)
    (channel_mappings s).
Definition with_state (s : Session) (st : SessionState.t) : Session :=
  mkSession st (info s) (events s) (multiplexer s) (control_mode s) (data_mode s)
    (channel_mappings s).
Definition session_publish (s : Session) (e : SessionEvent) : Session :=
  with_events s (publish (events s) e).

(** [Session::established]. *)
Definition session_established (negotiated : NegotiatedSession) (mux_limits : MultiplexerLimits)
    (max_event_subscribers : N) : result LinkError Session :=
  let cmode := control_mode_guard negotiated in
  let dmode := mkDataGuard (data_mode_negotiate (guard_mode cmode)
                              (ns_link_capabilities negotiated)) in
  let allowed := (fun p => (sel_stable_id p, sel_version p)) <$> ns_protocols negotiated in
  bus ← bus_new max_event_subscribers;
  mux ← mux_restricted (ns_session_id negotiated) mux_limits allowed;
  map ← map_err (fun _ => InvalidInput "session channel mapping limits are invalid")
          (channel_map_new MAX_SESSION_CHANNEL_MAPPINGS);
  Ok (mkSession SessionState.Established
        (mkInfo (ns_session_id negotiated) (peer_id (ns_remote negotiated))
           (ns_protocols negotiated) default_continuity default_quality None)
        bus mux cmode dmode map).

(** [ensure_active], of the session and of its data plane. *)
Definition is_active (s : Session) : bool :=
  bool_decide (state s = SessionState.Established) || bool_decide (state s = SessionState.Draining).
Definition is_closed (s : Session) : bool :=
  bool_decide (state s = SessionState.Closed) || bool_decide (state s = SessionState.Failed).

(** ** Channels *)

Inductive SessionChannelOpenError :=
| OpenControl (e : LinkControlError)
| OpenDataMode (e : DataCodecError)
| OpenMultiplexer (e : LinkError).

Definition validated_channel_matches_session (s : Session) (v : ValidatedChannel) : bool :=
  let c := vc_config v in
  bool_decide (key_protocol_id (cfg_key c) = vc_protocol_id v)
  && (key_protocol_channel_id (cfg_key c) =? vc_protocol_channel_id v)
  && (cfg_generation c =? GENERATION_INITIAL)
  && (cfg_max_frame_bytes c =? vc_max_frame_bytes v)
  && bool_decide (max_stream_bytes c = vc_max_stream_bytes v)
  && Bool.eqb (discardable c) (vc_discardable v)
  && existsb (fun p =>
       bool_decide (sel_stable_id p = vc_protocol_id v)
       && bool_decide (sel_version p = key_version (cfg_key c))
       && bool_decide (sel_schema p = vc_schema v)
       && bool_decide (sel_capabilities p = vc_capabilities v)) (info_protocols (info s)).

(** The refusal of a channel that is not the session's. *)
Definition unbound_channel (message : string) : SessionChannelOpenError :=
  OpenControl (mkControlError DomSecurity 2 (Some OpOpenChannel) RetryNever message).

(** The checks of [open_validated_channel] before the multiplexer. *)
Definition open_validated_check (s : Session) (v : ValidatedChannel)
    : result SessionChannelOpenError () :=
  reject negb (is_active s) with OpenControl (session_not_active OpOpenChannel);
  _ ← map_err OpenControl (validate_typed (control_mode s));
  _ ← map_err OpenDataMode (validate_compact (data_mode s));
  reject negb (validated_channel_matches_session s v)
    with unbound_channel "channel descriptor is not bound to this negotiated session";
  map_err OpenControl (validate_bind (channel_mappings s) (accepted_mapping v)).

Definition open_validated_channel (s : Session) (v : ValidatedChannel)
    : Session * result SessionChannelOpenError SessionChannelBinding :=
  match open_validated_check s v with
  | Err e => (s, Err e)
  | Ok _ =>
    let '(m, r) := mux_open_channel (multiplexer s) (vc_config v) in
    let s := with_mux s m in
    match r with
    | Err e => (s, Err (OpenMultiplexer e))
    | Ok _ =>
      let '(c, binding) := bind_validated (channel_mappings s) (accepted_mapping v) in
      (with_mappings s c, Ok binding)
    end
  end.

Definition open_legacy_check (s : Session) (v : ValidatedChannel)
    : result SessionChannelOpenError () :=
  reject negb (is_active s) with OpenControl (session_not_active OpOpenChannel);
  _ ← map_err OpenDataMode (validate_data_legacy (data_mode s));
  reject negb (validated_channel_matches_session s v)
    with unbound_channel "legacy channel descriptor is not bound to this session";
  Ok ().

Definition open_legacy_validated_channel (s : Session) (v : ValidatedChannel)
    : Session * result SessionChannelOpenError () :=
  match open_legacy_check s v with
  | Err e => (s, Err e)
  | Ok _ =>
    let '(m, r) := mux_open_channel (multiplexer s) (vc_config v) in
    (with_mux s m, map_err OpenMultiplexer r)
  end.

(** [Session::close_channel]. *)
Definition session_close_channel (s : Session) (id : ChannelId) : Session * result LinkError N :=
  let '(m, r) := mux_close_channel (multiplexer s) id in
  let s := with_mux s m in
  match r with
  | Err e => (s, Err e)
  | Ok discarded => (with_mappings s (channel_unbind (channel_mappings s) id).1, Ok discarded)
  end.

(** ** Reports and lifecycle *)

Definition update_quality (s : Session) (q : ConnectionQuality) : Session * result LinkError () :=
  if is_active s then
    let i := info s in
    (session_publish (with_info s (mkInfo (info_session_id i) (info_peer_id i) (info_protocols i)
                                     (info_continuity i) q (close_reason i)))
       (QualityChanged q), Ok ())
  else (s, Err Closed).

Definition report_continuity (s : Session) (c : SessionContinuity)
    : Session * result LinkError () :=
  if is_active s then
    let i := info s in
    (session_publish (with_info s (mkInfo (info_session_id i) (info_peer_id i) (info_protocols i)
                                     c (info_quality i) (close_reason i)))
       (ContinuityChanged c), Ok ())
  else (s, Err Closed).

Definition begin_drain (s : Session) : Session * result LinkError () :=
  if negb (bool_decide (state s = SessionState.Established))
  then (s, Err (InvalidState "only an established session can begin draining"))
  else (session_publish (with_state s SessionState.Draining) (StateChanged SessionState.Draining),
        Ok ()).

(** [close]. *)
Definition session_close (s : Session) (reason : CloseReason) (st : SessionState.t) : Session :=
  let i := info s in
  let s := with_info (with_state s st)
             (mkInfo (info_session_id i) (info_peer_id i) (info_protocols i) (info_continuity i)
                (info_quality i) (Some reason)) in
  session_publish (session_publish s (StateChanged st)) (EvClosed reason).

Definition finish_drain (s : Session) : Session * result LinkError () :=
  if negb (bool_decide (state s = SessionState.Draining))
     || negb (pending_frames (multiplexer s) =? 0)
  then (s, Err (InvalidState "drain can finish only after all queued frames are sent"))
  else (session_close s Graceful SessionState.Closed, Ok ()).

Definition abort (s : Session) : Session :=
  if is_closed s then s
  else session_close (with_mux s (discard_all (multiplexer s)).1) LocalAbort SessionState.Closed.

Definition session_fail (s : Session) (reason : CloseReason) : Session :=
  if is_closed s then s
  else session_close (with_mux s (discard_all (multiplexer s)).1) reason SessionState.Failed.

(** ** The data plane

    [SessionDataPlane] borrows the multiplexer and a copy of the state; the
    borrow ends before the session can change, so it acts on the session. *)

Definition via_mux {A} (s : Session) (step : Multiplexer -> Multiplexer * result LinkError A)
    : Session * result LinkError A :=
  if is_active s then let '(m, r) := step (multiplexer s) in (with_mux s m, r)
  else (s, Err Closed).

Definition plane_enqueue (s : Session) (e : Envelope) : Session * result LinkError () :=
  via_mux s (fun m => enqueue m e).
Definition plane_enqueue_discardable (s : Session) (e : Envelope)
    : Session * result LinkError QueueAdmission :=
  via_mux s (fun m => enqueue_discardable m e).
Definition plane_enqueue_control (s : Session) (payload : list byte)
    : Session * result LinkError () :=
  via_mux s (fun m => enqueue_control m payload).
Definition plane_next_outbound (s : Session) : Session * option OutboundFrame :=
  let '(m, f) := next_outbound (multiplexer s) in (with_mux s m, f).
Definition plane_cancel_channel (s : Session) (id : ChannelId) : Session * result LinkError N :=
  via_mux s (fun m => cancel_channel m id).
Definition plane_pending_frames (s : Session) : N := pending_frames (multiplexer s).
