(* ===== verification/SessionFacts.v ===== *)
(** * The event bus, and the session's channels and lifecycle *)

From S2P Require Export Session.
From S2P Require Import ControlCodecFacts MuxFacts ProtocolFacts.
Local Open Scope N_scope.

(** ** The event bus *)

Inductive bus_op :=
| BSubscribe (cap : N) | BPublish (e : SessionEvent) | BNext (id : EventSubscriberId)
| BUnsubscribe (id : EventSubscriberId).

(** One operation, and what [next] returned. *)
Definition bus_step (b : SessionEventBus) (op : bus_op) : SessionEventBus * option SessionEvent :=
  match op with
  | BSubscribe cap => ((subscribe b cap).1, None)
  | BPublish e => (publish b e, None)
  | BNext id => next_event b id
  | BUnsubscribe id => ((unsubscribe b id).1, None)
  end.

(** A run, with what subscriber [i] received. *)
Fixpoint bus_run (i : EventSubscriberId) (b : SessionEventBus) (ops : list bus_op)
    : SessionEventBus * list SessionEvent :=
  match ops with
  | [] => (b, [])
  | op :: ops =>
    let '(b, r) := bus_step b op in
    let '(b, outs) := bus_run i b ops in
    (b, match op, r with
        | BNext j, Some e => if decide (j = i) then e :: outs else outs
        | _, _ => outs
        end)
  end.

Definition published (ops : list bus_op) : list SessionEvent :=
  omap (fun op => match op with BPublish e => Some e | _ => None end) ops.

(** [received] accounts for [pubs] up to [rest]: events arrive in the order
    they were published, and each gap is announced with its exact size. *)
Inductive accounts : list SessionEvent -> list SessionEvent -> list SessionEvent -> Prop :=
| accounts_nil pubs : accounts [] pubs pubs
| accounts_event e received pubs rest :
    accounts received pubs rest -> accounts (e :: received) (e :: pubs) rest
| accounts_gap lost received pubs rest :
    lost <> [] -> accounts received pubs rest ->
    accounts (EventsDropped (len lost) :: received) (lost ++ pubs) rest.

Lemma accounts_publish received pubs rest more :
  accounts received pubs rest -> accounts received (pubs ++ more) (rest ++ more).
Proof.
  induction 1; [constructor|by constructor|]. rewrite <- app_assoc. by constructor.
Qed.

Lemma accounts_receive received pubs e rest :
  accounts received pubs (e :: rest) -> accounts (received ++ [e]) pubs rest.
Proof.
  remember (e :: rest) as r eqn:Hr. induction 1; subst; cbn; by repeat constructor; auto.
Qed.

Lemma accounts_skip received pubs lost rest :
  lost <> [] -> accounts received pubs (lost ++ rest) ->
  accounts (received ++ [EventsDropped (len lost)]) pubs rest.
Proof.
  intros Hne. remember (lost ++ rest) as r eqn:Hr. induction 1; subst; cbn; by repeat constructor; auto.
Qed.

Record bus_wf (b : SessionEventBus) : Prop := {
  bus_fresh i s : subscribers b !! i = Some s -> i < next_id b;
  bus_bound : card (subscribers b) <= max_subscribers b;
  bus_queue i s : subscribers b !! i = Some s ->
    0 < sub_capacity s /\ len (sub_queue s) <= sub_capacity s
    /\ (0 < dropped s -> len (sub_queue s) = sub_capacity s);
}.

Lemma deliver_bound e s :
  0 < sub_capacity s -> len (sub_queue s) <= sub_capacity s ->
  (0 < dropped s -> len (sub_queue s) = sub_capacity s) ->
  sub_capacity (deliver e s) = sub_capacity s
  /\ len (sub_queue (deliver e s)) <= sub_capacity s
  /\ (0 < dropped (deliver e s) -> len (sub_queue (deliver e s)) = sub_capacity s).
Proof.
  intros Hc Hq Hd. unfold deliver.
  destruct (N.eqb_spec (len (sub_queue s)) (sub_capacity s)); cbn; rewrite length_app; cbn;
    (split; [done|]); [|lia].
  destruct (sub_queue s); cbn in *; lia.
Qed.

(** What [next] does, by cases. *)
Lemma next_event_cases b i :
  (next_event b i = (b, None)
   /\ (subscribers b !! i = None \/ exists s, subscribers b !! i = Some s
                                    /\ sub_queue s = [] /\ dropped s = 0))
  \/ exists s s' e, subscribers b !! i = Some s
     /\ next_event b i
        = (mkBus (max_subscribers b) (next_id b) (<[i := s']> (subscribers b)), Some e)
     /\ sub_capacity s' = sub_capacity s
     /\ (0 < dropped s /\ s' = mkSubscriber (sub_queue s) (sub_capacity s) 0
           /\ e = EventsDropped (dropped s)
         \/ dropped s = 0 /\ sub_queue s = e :: sub_queue s' /\ dropped s' = 0).
Proof.
  unfold next_event. destruct (subscribers b !! i) as [s|] eqn:Hs; [|left; auto].
  destruct (N.ltb_spec 0 (dropped s)).
  - right. do 3 eexists. split; [done|]. split; [done|]. split; [done|]. left. by split_and!.
  - assert (dropped s = 0) as Hd by lia. destruct (sub_queue s) as [|e q] eqn:Hq.
    + left. split; [done|]. right. by exists s.
    + right. do 3 eexists. split; [done|]. split; [done|]. split; [done|]. right. by rewrite Hd.
Qed.

Lemma bus_step_wf b op : bus_wf b -> bus_wf (bus_step b op).1.
Proof.
  intros [Hf Hb Hq]. destruct op as [cap|e|i|i]; cbn [bus_step fst].
  - unfold subscribe. destruct (N.eqb_spec cap 0); [done|].
    destruct (N.leb_spec (max_subscribers b) (card (subscribers b))); [done|].
    unfold checked_add. case_decide; [|done]. split; cbn.
    + intros i s [[<- <-]|[_ Hs]]%lookup_insert_Some; [lia|]. apply Hf in Hs. lia.
    + assert (subscribers b !! next_id b = None) as Hn.
      { apply eq_None_not_Some. intros [s Hs%Hf]. lia. }
      rewrite map_size_insert_None by done. lia.
    + intros i s [[<- <-]|[_ Hs]]%lookup_insert_Some; [cbn; lia|eauto].
  - split; cbn.
    + intros i s (s0 & <- & Hs)%lookup_fmap_Some. eauto.
    + rewrite map_size_fmap. done.
    + intros i s (s0 & <- & Hs)%lookup_fmap_Some. apply Hq in Hs as (H1 & H2 & H3).
      destruct (deliver_bound e s0 H1 H2 H3) as (-> & ? & ?). done.
  - destruct (next_event_cases b i) as [[-> _]|(s & s' & e & Hs & -> & Hc & Hcase)]; [done|].
    split; cbn.
    + intros j sj [[<- <-]|[_ Hj]]%lookup_insert_Some; eauto.
    + rewrite map_size_insert_Some; eauto.
    + intros j sj [[<- <-]|[_ Hj]]%lookup_insert_Some; [|eauto].
      apply Hq in Hs as (H1 & H2 & H3). rewrite Hc. split; [done|].
      destruct Hcase as [(_ & -> & _)|(_ & E & Hz)]; [cbn; by split|]. rewrite E in H2. cbn in H2. lia.
  - split; cbn.
    + intros j s [_ Hs]%lookup_delete_Some. eauto.
    + unfold unsubscribe. cbn. rewrite map_size_delete. destruct (subscribers b !! i); cbn; lia.
    + intros j s [_ Hs]%lookup_delete_Some. eauto.
Qed.

Lemma bus_run_wf i ops b : bus_wf b -> bus_wf (bus_run i b ops).1.
Proof.
  revert b. induction ops as [|op ops IH]; intros b Hb; [done|]. cbn.
  pose proof (bus_step_wf b op Hb) as Hb1. destruct (bus_step b op) as [b1 r]. cbn in Hb1.
  specialize (IH b1 Hb1). by destruct (bus_run i b1 ops).
Qed.

Lemma bus_new_wf max b : bus_new max = Ok b -> bus_wf b.
Proof.
  unfold bus_new. intros Hb. inv_ok. split; cbn; try (intros i s; by rewrite lookup_empty).
  rewrite map_size_empty. lia.
Qed.

(** Subscriber [i] after receiving [received] of [pubs]. *)
Definition tracks (b : SessionEventBus) (i : EventSubscriberId) (cap : N)
    (received pubs : list SessionEvent) : Prop :=
  exists s lost, subscribers b !! i = Some s /\ sub_capacity s = cap
    /\ dropped s = len lost /\ accounts received pubs (lost ++ sub_queue s).

Lemma tracks_publish b i cap received pubs e :
  bus_wf b -> len pubs < u64_max -> tracks b i cap received pubs ->
  tracks (publish b e) i cap received (pubs ++ [e]).
Proof.
  intros Hw Hlen (s & lost & Hs & Hc & Hd & Ha). unfold tracks. cbn.
  destruct (bus_queue b Hw i s Hs) as (Hcap & Hq & _).
  assert (len (lost ++ sub_queue s) <= len pubs) as Hle.
  { clear -Ha. induction Ha; cbn; [lia| |]; rewrite ?length_app in *; lia. }
  rewrite lookup_fmap, Hs. cbn.
  apply (accounts_publish _ _ _ [e]) in Ha. rewrite <- app_assoc in Ha.
  unfold deliver. destruct (N.eqb_spec (len (sub_queue s)) (sub_capacity s)); cbn.
  - destruct (sub_queue s) as [|x q]; [cbn in *; lia|].
    eexists _, (lost ++ [x]). split; [done|]. cbn. split; [done|]. split.
    + rewrite Hd. unfold sat_add. rewrite length_app in *. cbn in *. lia.
    + by rewrite <- app_assoc.
  - eexists _, lost. by split_and!.
Qed.

Lemma tracks_next b i cap received pubs :
  bus_wf b -> tracks b i cap received pubs ->
  tracks (next_event b i).1 i cap
    (received ++ match (next_event b i).2 with Some e => [e] | None => [] end) pubs.
Proof.
  intros Hw (s & lost & Hs & Hc & Hd & Ha).
  destruct (next_event_cases b i) as [[-> _]|(s0 & s' & e & Hs0 & -> & Hc' & Hcase)].
  - rewrite app_nil_r. by exists s, lost.
  - rewrite Hs in Hs0. simplify_eq. cbn. unfold tracks. cbn. rewrite lookup_insert_eq.
    destruct Hcase as [(Hpos & -> & ->)|(Hz & Hq & Hd')].
    + eexists _, []. split; [done|]. cbn. split_and!; try done. rewrite Hd.
      apply accounts_skip; [|done]. intros ->. cbn in Hd. lia.
    + eexists _, []. split; [done|]. cbn. split_and!; try done.
      destruct lost; [|cbn in *; lia]. cbn in Ha. rewrite Hq in Ha. by apply accounts_receive.
Qed.

Lemma tracks_other b b' i cap received pubs :
  subscribers b' !! i = subscribers b !! i -> tracks b i cap received pubs ->
  tracks b' i cap received pubs.
Proof. intros E (s & lost & Hs & H). exists s, lost. by rewrite E. Qed.

Lemma tracks_run i cap ops b received pubs :
  bus_wf b -> len (pubs ++ published ops) <= u64_max -> (BUnsubscribe i ∉ ops) ->
  tracks b i cap received pubs ->
  tracks (bus_run i b ops).1 i cap (received ++ (bus_run i b ops).2) (pubs ++ published ops).
Proof.
  revert b received pubs. induction ops as [|op ops IH]; intros b received pubs Hw Hlen Hun Ht.
  { cbn. by rewrite !app_nil_r. }
  apply not_elem_of_cons in Hun as [Hop Hun]. cbn [bus_run].
  pose proof (bus_step_wf b op Hw) as Hw1.
  destruct (bus_step b op) as [b1 r] eqn:Hstep. cbn [fst] in Hw1.
  assert (forall received' pubs', len (pubs' ++ published ops) <= u64_max ->
    tracks b1 i cap received' pubs' ->
    tracks (bus_run i b1 ops).1 i cap (received' ++ (bus_run i b1 ops).2) (pubs' ++ published ops))
    as IH' by (intros; by apply IH).
  destruct (bus_run i b1 ops) as [b2 outs] eqn:Hrun. cbn [fst snd] in IH'.
  destruct op as [c|e|j|j]; cbn in Hstep; simplify_eq; cbn [fst snd].
  - apply IH'; [done|]. eapply tracks_other; [|exact Ht].
    destruct Ht as (s & ? & Hs & _). pose proof (bus_fresh b Hw i s Hs).
    unfold subscribe. repeat case_match; try done. cbn. apply lookup_insert_ne. lia.
  - cbn in Hlen. change (published (BPublish e :: ops)) with ([e] ++ published ops).
    rewrite app_assoc. apply IH'.
    + rewrite <- app_assoc. exact Hlen.
    + apply tracks_publish; [done| |done]. rewrite length_app in Hlen. cbn in Hlen. lia.
  - change (published (BNext j :: ops)) with (published ops). pose proof (tracks_next b i cap received pubs Hw Ht) as Hn.
    destruct (decide (j = i)) as [->|Hne].
    + rewrite Hstep in Hn. cbn in Hn. apply (IH' _ pubs Hlen) in Hn.
      rewrite <- app_assoc in Hn. by destruct r.
    + assert (tracks b1 i cap received pubs) as Ht1.
      { eapply tracks_other; [|exact Ht].
        destruct (next_event_cases b j) as [[E _]|(s0 & s' & e & _ & E & _)];
          rewrite E in Hstep; simplify_eq; [done|]. cbn. by apply lookup_insert_ne. }
      apply (IH' _ pubs Hlen) in Ht1. by destruct r.
  - change (published (BUnsubscribe j :: ops)) with (published ops).
    apply IH'; [done|]. eapply tracks_other; [|exact Ht]. cbn.
    apply lookup_delete_ne. intros ->. done.
Qed.

(** ** What the multiplexer does to its channels *)

(** The open channels with their configurations, and the closed ones, stay. *)
Definition same_channels (m m' : Multiplexer) : Prop :=
  (forall id, config <$> channels m' !! id = config <$> channels m !! id)
  /\ retired_channels m' = retired_channels m.

Lemma same_channels_set m id s s' m1 :
  channels m !! id = Some s -> config s' = config s ->
  channels m1 = channels m -> retired_channels m1 = retired_channels m ->
  same_channels m (set_channel m1 id s').
Proof.
  intros Hs Hc Hm Hr. split; [|done]. intros j. cbn. rewrite Hm.
  destruct (decide (j = id)) as [->|]; [|by rewrite lookup_insert_ne].
  rewrite lookup_insert_eq, Hs. cbn. by rewrite Hc.
Qed.

Lemma push_frame_same m id s0 s e :
  channels m !! id = Some s0 -> config s = config s0 -> same_channels m (push_frame m id s e).
Proof.
  intros Hs Hc. unfold push_frame.
  case_bool_decide; (eapply same_channels_set; [exact Hs| |done|done]); done.
Qed.

Lemma enqueue_same m e : same_channels m (enqueue m e).1.
Proof.
  destruct (enqueue m e) as [m' [[]|err]] eqn:He; cbn.
  - apply enqueue_Ok in He as (s & s' & Hs & _ & _ & _ & _ & _ & _ & Hst & ->).
    apply charge_stream_ok in Hst as (S1 & _). by eapply push_frame_same.
  - unfold enqueue in He. case_match; by simplify_eq.
Qed.

Lemma enqueue_discardable_same m e : same_channels m (enqueue_discardable m e).1.
Proof.
  unfold enqueue_discardable. case_match eqn:Hr; [|done]. case_match; [done|]. cbn. inv_ok.
  by eapply push_frame_same.
Qed.

Lemma enqueue_control_same m p : same_channels m (enqueue_control m p).1.
Proof. unfold enqueue_control. by case_match. Qed.

Lemma next_outbound_same m : mux_wf m -> same_channels m (next_outbound m).1.
Proof.
  intros Hw. destruct (next_outbound_case m Hw) as [| |i id s e q _ _ Hs]; [done..|].
  split; [|done]. intros j. cbn. destruct (decide (j = id)) as [->|]; [|by rewrite lookup_insert_ne].
  by rewrite lookup_insert_eq, Hs.
Qed.

Lemma next_outbound_pending m : mux_wf m -> total_pending (next_outbound m).1 <= total_pending m.
Proof. intros Hw. destruct (next_outbound_case m Hw); cbn; lia. Qed.

Lemma cancel_channel_same m id : same_channels m (cancel_channel m id).1.
Proof.
  unfold cancel_channel. destruct (channels m !! id) as [s|] eqn:Hs; [|done].
  by apply (same_channels_set m id s _ m).
Qed.

Lemma discard_all_same m : same_channels m (discard_all m).1.
Proof.
  split; [|done]. intros id. cbn. rewrite lookup_fmap. by destruct (channels m !! id).
Qed.

(** ** The operations of a session *)

Inductive session_op :=
| SOpen (v : ValidatedChannel) | SOpenLegacy (v : ValidatedChannel) | SCloseChannel (id : ChannelId)
| SQuality (q : ConnectionQuality) | SContinuity (c : SessionContinuity)
| SBeginDrain | SFinishDrain | SAbort | SFail (r : CloseReason)
| SEnqueue (e : Envelope) | SEnqueueDiscardable (e : Envelope) | SEnqueueControl (p : list byte)
| SNext | SCancel (id : ChannelId) | SBus (op : bus_op).

Definition session_step (s : Session) (op : session_op) : Session :=
  match op with
  | SOpen v => (open_validated_channel s v).1
  | SOpenLegacy v => (open_legacy_validated_channel s v).1
  | SCloseChannel id => (session_close_channel s id).1
  | SQuality q => (update_quality s q).1
  | SContinuity c => (report_continuity s c).1
  | SBeginDrain => (begin_drain s).1
  | SFinishDrain => (finish_drain s).1
  | SAbort => abort s
  | SFail r => session_fail s r
  | SEnqueue e => (plane_enqueue s e).1
  | SEnqueueDiscardable e => (plane_enqueue_discardable s e).1
  | SEnqueueControl p => (plane_enqueue_control s p).1
  | SNext => (plane_next_outbound s).1
  | SCancel id => (plane_cancel_channel s id).1
  | SBus op => with_events s (bus_step (events s) op).1
  end.
Definition session_run (s : Session) (ops : list session_op) : Session := foldl session_step s ops.

(** The binding a channel of the multiplexer has in the channel table. *)
Definition config_binding (c : ChannelConfig) : ProtocolKey * ChannelGeneration :=
  ((key_protocol_id (cfg_key c), key_protocol_channel_id (cfg_key c)), cfg_generation c).

Definition compact (s : Session) : Prop := data_guard_mode (data_mode s) = CompactV1.

(** In compact mode the channel table and the multiplexer describe the same
    channels; without it the table is empty. *)
Definition channels_synced (s : Session) : Prop :=
  if decide (compact s) then
    (forall id, by_session (channel_mappings s) !! id
                = config_binding <$> (config <$> channels (multiplexer s) !! id))
    /\ map_retired (channel_mappings s) = retired_channels (multiplexer s)
  else by_session (channel_mappings s) = ∅ /\ map_retired (channel_mappings s) = ∅.

Record session_wf (s : Session) : Prop := {
  sw_mux : mux_wf (multiplexer s);
  sw_map : channel_map_wf (channel_mappings s);
  sw_capacity : map_maximum (channel_mappings s) = MAX_SESSION_CHANNEL_MAPPINGS;
  sw_bus : bus_wf (events s);
  sw_sync : channels_synced s;
  sw_modes : compact s -> guard_mode (control_mode s) = TypedV1;
  sw_state : is_active s = true \/ is_closed s = true;
  sw_reason : is_closed s = true <-> is_Some (close_reason (info s));
  sw_idle : is_closed s = true -> total_pending (multiplexer s) = 0;
}.

Lemma session_established_wf n l max s :
  max_channels l <= usize_max -> session_established n l max = Ok s -> session_wf s.
Proof.
  intros Hl Hs. unfold session_established in Hs. inv_ok.
  rename select (bus_new _ = _) into Hb. rename select (mux_restricted _ _ _ = _) into Hm.
  rename select (channel_map_new _ = _) into Hc.
  assert (mux_wf a0 /\ channels a0 = ∅ /\ retired_channels a0 = ∅) as (Hw & Hch & Hret).
  { unfold mux_restricted in Hm. inv_ok. pose proof (mux_new_wf _ _ _ Hm0 Hl) as Hw.
    unfold mux_new in Hm0. inv_ok. cbn in *. split; [|done].
    by destruct Hw as [? Hchan ? ? ? ? ? ? ? ? ? ? ?]; split. }
  pose proof (channel_map_new_wf _ _ Hc) as [Hcw Hmax].
  unfold channel_map_new in Hc. inv_ok.
  split; cbn; try done.
  - by eapply bus_new_wf.
  - unfold channels_synced. cbn. rewrite Hch, Hret. case_decide; [|done]. split; [|done].
    intros id. by rewrite !lookup_empty.
  - unfold compact, data_mode_negotiate. cbn. destruct (bool_decide (_ = TypedV1)) eqn:Hg; [|done].
    by guards.
  - by left.
Qed.

(** ** Every operation keeps the session's invariant *)

Lemma synced_same s m :
  same_channels (multiplexer s) m -> channels_synced s -> channels_synced (with_mux s m).
Proof.
  intros [Hc Hr]. unfold channels_synced, compact. cbn. case_decide; [|done].
  intros [Hs Hret]. split; [|congruence]. intros id. by rewrite Hs, Hc.
Qed.

Lemma with_mux_wf s m :
  session_wf s -> mux_wf m -> same_channels (multiplexer s) m ->
  (is_closed s = true -> total_pending m = 0) -> session_wf (with_mux s m).
Proof. intros [] Hm Hs Hp. split; try done. by apply synced_same. Qed.

Lemma via_mux_wf {A} s (step : Multiplexer -> Multiplexer * result LinkError A) :
  session_wf s ->
  (mux_wf (multiplexer s) -> mux_wf (step (multiplexer s)).1) ->
  same_channels (multiplexer s) (step (multiplexer s)).1 -> session_wf (via_mux s step).1.
Proof.
  intros Hs Hw Hsame. unfold via_mux. destruct (is_active s) eqn:Ha; [|done].
  destruct (step (multiplexer s)) as [m r]. cbn in *. apply with_mux_wf; try done.
  - apply Hw, Hs.
  - unfold is_active, is_closed in *. destruct (state s); done.
Qed.

Lemma publish_wf s e : session_wf s -> session_wf (session_publish s e).
Proof. intros []. split; try done. by apply (bus_step_wf _ (BPublish e)). Qed.

Lemma close_wf s r st :
  session_wf s -> total_pending (multiplexer s) = 0 ->
  st = SessionState.Closed \/ st = SessionState.Failed -> session_wf (session_close s r st).
Proof.
  intros Hs Hp Hst. unfold session_close. do 2 apply publish_wf. destruct Hs.
  split; try done; unfold is_active, is_closed; cbn; destruct Hst as [-> | ->]; auto; done.
Qed.

(** A channel the multiplexer opens. *)
Lemma mux_open_ok m c m' :
  mux_open_channel m c = (m', Ok ()) ->
  open_check m c = Ok () /\ retired_channels m' = retired_channels m
  /\ channels m' = <[cfg_id c := mkChannel c [] false 0 (virtual_time m)]> (channels m)
  /\ total_pending m' = total_pending m.
Proof. unfold mux_open_channel. intros Ho. case_match eqn:Hc; simplify_eq. by destruct a. Qed.

Lemma mux_open_err m c m' e : mux_open_channel m c = (m', Err e) -> m' = m.
Proof. unfold mux_open_channel. intros Ho. by case_match; simplify_eq. Qed.

(** The checks of [open_validated_channel], spelled out. *)
Lemma open_validated_check_ok s v :
  open_validated_check s v = Ok () <->
  is_active s = true /\ guard_mode (control_mode s) = TypedV1 /\ compact s
  /\ validated_channel_matches_session s v = true
  /\ validate_bind (channel_mappings s) (accepted_mapping v) = Ok ().
Proof.
  unfold open_validated_check, validate_typed, validate_compact, compact. split.
  - intros Ho. inv_ok. guards. do 2 (case_bool_decide; try done).
  - intros (-> & -> & -> & -> & ->). done.
Qed.

(** What a session checks of a channel. *)
Lemma matches_ok s v :
  validated_channel_matches_session s v = true ->
  config_binding (vc_config v) = ((vc_protocol_id v, vc_protocol_channel_id v), GENERATION_INITIAL)
  /\ exists p, p ∈ info_protocols (info s) /\ sel_stable_id p = vc_protocol_id v
     /\ sel_version p = key_version (cfg_key (vc_config v)) /\ sel_schema p = vc_schema v
     /\ sel_capabilities p = vc_capabilities v.
Proof.
  unfold validated_channel_matches_session. intros Hm.
  do 6 apply andb_true_iff in Hm as [Hm ?]. guards. split.
  { unfold config_binding. congruence. }
  rename select (existsb _ _ = true) into He. apply existsb_exists in He as (p & Hin & Hp).
  do 3 apply andb_true_iff in Hp as [Hp ?]. guards. exists p. by rewrite list_elem_of_In.
Qed.

(** An opened channel is inserted in both tables. *)
Lemma open_validated_ok s v s' b :
  open_validated_channel s v = (s', Ok b) ->
  exists m, open_validated_check s v = Ok ()
    /\ mux_open_channel (multiplexer s) (vc_config v) = (m, Ok ())
    /\ b = mkBinding (cfg_id (vc_config v)) GENERATION_INITIAL
    /\ s' = with_mappings (with_mux s m)
              (bind_validated (channel_mappings s) (accepted_mapping v)).1.
Proof.
  unfold open_validated_channel. intros Ho.
  destruct (open_validated_check s v) as [[]|]; [|done].
  destruct (mux_open_channel _ _) as [m [[]|]]; cbn in Ho; simplify_eq. by exists m.
Qed.

Lemma open_validated_err s v s' e : open_validated_channel s v = (s', Err e) -> s' = s.
Proof.
  unfold open_validated_channel. intros Ho.
  destruct (open_validated_check s v) as [[]|]; [|by simplify_eq].
  destruct (mux_open_channel _ _) as [m [[]|]] eqn:Hm; cbn in Ho; simplify_eq.
  apply mux_open_err in Hm as ->. by destruct s.
Qed.

Lemma open_validated_wf s v : session_wf s -> session_wf (open_validated_channel s v).1.
Proof.
  intros Hs. destruct (open_validated_channel s v) as [s' [b|e]] eqn:Ho; cbn;
    [|by apply open_validated_err in Ho as ->].
  apply open_validated_ok in Ho as (m & Hc & Hm & _ & ->).
  pose proof (open_channel_wf _ (vc_config v) (sw_mux s Hs)) as Hmw. rewrite Hm in Hmw.
  apply mux_open_ok in Hm as (_ & Hret & Hch & Hp).
  apply open_validated_check_ok in Hc as (Ha & _ & Hcomp & Hmatch & Hv).
  apply matches_ok in Hmatch as [Hb _]. destruct Hs. split; try done.
  - by apply bind_validated_wf.
  - unfold channels_synced, compact in *. cbn. rewrite decide_True in * by done.
    destruct sw_sync0 as [Hsync Hr]. split; [|congruence]. intros id. rewrite Hch.
    destruct (decide (id = cfg_id (vc_config v))) as [->|Hne].
    + rewrite !lookup_insert_eq. cbn. by rewrite Hb.
    + rewrite !lookup_insert_ne by done. apply Hsync.
  - cbn. by rewrite Hp.
Qed.

Lemma open_legacy_wf s v : session_wf s -> session_wf (open_legacy_validated_channel s v).1.
Proof.
  intros Hs. unfold open_legacy_validated_channel.
  destruct (open_legacy_check s v) as [[]|] eqn:Hc; [|done].
  destruct (mux_open_channel _ _) as [m r] eqn:Hm. cbn.
  pose proof (open_channel_wf _ (vc_config v) (sw_mux s Hs)) as Hmw. rewrite Hm in Hmw. cbn in Hmw.
  destruct r as [[]|e]; [|apply mux_open_err in Hm as ->; by destruct s].
  apply mux_open_ok in Hm as (_ & Hret & _ & Hp).
  unfold open_legacy_check, validate_data_legacy in Hc. inv_ok. case_bool_decide as Hleg; [|done].
  destruct Hs. split; try done.
  - unfold channels_synced, compact in *. cbn. rewrite decide_False in * by (rewrite Hleg; done). done.
  - cbn. by rewrite Hp.
Qed.

Lemma close_channel_wf' s id : session_wf s -> session_wf (session_close_channel s id).1.
Proof.
  intros Hs. unfold session_close_channel.
  pose proof (close_channel_wf _ id (sw_mux s Hs)) as Hmw.
  unfold mux_close_channel in *. destruct (channels (multiplexer s) !! id) as [c|] eqn:Hc; cbn in *;
    [|by destruct s]. destruct Hs. split; try done.
  - by apply unbind_wf.
  - etrans; [exact (map_step_maximum (channel_mappings s) (MUnbind id))|done].
  - unfold channels_synced, compact, channel_unbind in *. cbn. case_decide as Hcomp.
    + destruct sw_sync0 as [Hsync Hret]. pose proof (Hsync id) as Hid. rewrite Hc in Hid. cbn in Hid.
      rewrite Hid. cbn. split; [|congruence]. intros j.
      destruct (decide (j = id)) as [->|]; [by rewrite !lookup_delete_eq|].
      by rewrite !lookup_delete_ne.
    + destruct sw_sync0 as [Hsync Hret]. by rewrite Hsync, lookup_empty.
  - cbn. intros Hcl. specialize (sw_idle0 Hcl). lia.
Qed.

Lemma session_step_wf s op : session_wf s -> session_wf (session_step s op).
Proof.
  intros Hs. destruct op as [v|v|id|q|c| | | |r|e|e|p| |id|op]; cbn [session_step].
  - by apply open_validated_wf.
  - by apply open_legacy_wf.
  - by apply close_channel_wf'.
  - unfold update_quality. destruct (is_active s); [|done]. apply publish_wf. by destruct Hs.
  - unfold report_continuity. destruct (is_active s); [|done]. apply publish_wf. by destruct Hs.
  - unfold begin_drain. destruct (bool_decide (_ = _)) eqn:Hst; cbn; [|done]. guards.
    apply publish_wf. destruct Hs. unfold is_active, is_closed in *. rewrite Hst in *. cbn in *.
    split; try done.
  - unfold finish_drain. destruct (_ || _)%bool eqn:Hg; [done|]. guards. by apply close_wf; [| |left].
  - unfold abort. destruct (is_closed s) eqn:Hcl; [done|].
    apply close_wf; [|done|by left].
    apply with_mux_wf; [done|apply discard_all_wf, Hs|apply discard_all_same|done].
  - unfold session_fail. destruct (is_closed s) eqn:Hcl; [done|].
    apply close_wf; [|done|by right].
    apply with_mux_wf; [done|apply discard_all_wf, Hs|apply discard_all_same|done].
  - apply via_mux_wf; [done|apply enqueue_wf|apply enqueue_same].
  - apply via_mux_wf; [done|apply enqueue_discardable_wf|apply enqueue_discardable_same].
  - apply via_mux_wf; [done|apply enqueue_control_wf|apply enqueue_control_same].
  - unfold plane_next_outbound.
    pose proof (next_outbound_wf _ (sw_mux s Hs)) as Hw.
    pose proof (next_outbound_same _ (sw_mux s Hs)) as Hsame.
    pose proof (next_outbound_pending _ (sw_mux s Hs)) as Hp.
    destruct (next_outbound (multiplexer s)) as [m f]. cbn in *. apply with_mux_wf; try done.
    intros Hcl%(sw_idle s Hs). lia.
  - apply via_mux_wf; [done|apply cancel_channel_wf|apply cancel_channel_same].
  - destruct Hs. split; try done. by apply bus_step_wf.
Qed.
