(* ===== verification/SessionProps.v ===== *)
(** * What a session guarantees *)

From S2P Require Export SessionFacts.
From S2P Require Import ControlCodecFacts MuxFacts ProtocolFacts HandshakeFacts.
Local Open Scope N_scope.

(** ** What no operation changes *)

Definition mux_static (m m' : Multiplexer) : Prop :=
  mux_session_id m' = mux_session_id m /\ limits m' = limits m
  /\ allowed_protocols m' = allowed_protocols m.

Lemma push_frame_static m id s e : mux_static m (push_frame m id s e).
Proof. unfold push_frame. by case_bool_decide. Qed.

Lemma mux_step_static m op : mux_wf m -> mux_static m (mux_step m op).
Proof.
  intros Hw. destruct op as [c|p|e|e| |id|id|]; cbn [mux_step].
  - unfold mux_open_channel. by case_match.
  - unfold enqueue_control. by case_match.
  - unfold enqueue. case_match; [apply push_frame_static|done].
  - unfold enqueue_discardable. repeat case_match; try done. apply push_frame_static.
  - by destruct (next_outbound_case m Hw).
  - unfold cancel_channel. by case_match.
  - unfold mux_close_channel. by case_match.
  - done.
Qed.

(** The identity, the protocols, the modes and the limits of a session. *)
Definition session_static (s s' : Session) : Prop :=
  info_session_id (info s') = info_session_id (info s)
  /\ info_peer_id (info s') = info_peer_id (info s)
  /\ info_protocols (info s') = info_protocols (info s)
  /\ control_mode s' = control_mode s /\ data_mode s' = data_mode s
  /\ mux_static (multiplexer s) (multiplexer s').

Lemma session_static_trans s1 s2 s3 :
  session_static s1 s2 -> session_static s2 s3 -> session_static s1 s3.
Proof. unfold session_static, mux_static. intuition congruence. Qed.

Lemma via_mux_static {A} s (step : Multiplexer -> Multiplexer * result LinkError A) :
  mux_static (multiplexer s) (step (multiplexer s)).1 -> session_static s (via_mux s step).1.
Proof.
  unfold via_mux. destruct (is_active s); [|done]. by destruct (step (multiplexer s)).
Qed.

Lemma session_step_static s op : session_wf s -> session_static s (session_step s op).
Proof.
  intros Hs. pose proof (sw_mux s Hs) as Hw.
  destruct op as [v|v|id|q|c| | | |r|e|e|p| |id|op]; cbn [session_step].
  - destruct (open_validated_channel s v) as [s' [b|e]] eqn:Ho; cbn;
      [|by apply open_validated_err in Ho as ->].
    apply open_validated_ok in Ho as (m & _ & Hm & _ & ->).
    pose proof (mux_step_static _ (OpenOp (vc_config v)) Hw) as Hst. cbn in Hst. by rewrite Hm in Hst.
  - unfold open_legacy_validated_channel. case_match; [|done].
    pose proof (mux_step_static _ (OpenOp (vc_config v)) Hw) as Hst. cbn in Hst.
    by destruct (mux_open_channel _ _).
  - unfold session_close_channel. pose proof (mux_step_static _ (CloseOp id) Hw) as Hst. cbn in Hst.
    by destruct (mux_close_channel _ _) as [m [|]].
  - unfold update_quality. by case_match.
  - unfold report_continuity. by case_match.
  - unfold begin_drain. by case_match.
  - unfold finish_drain. by case_match.
  - unfold abort. by case_match.
  - unfold session_fail. by case_match.
  - apply via_mux_static, (mux_step_static _ (EnqueueOp e) Hw).
  - apply via_mux_static, (mux_step_static _ (EnqueueDiscardableOp e) Hw).
  - apply via_mux_static, (mux_step_static _ (ControlOp p) Hw).
  - unfold plane_next_outbound. pose proof (mux_step_static _ NextOp Hw) as Hst. cbn in Hst.
    by destruct (next_outbound _).
  - apply via_mux_static, (mux_step_static _ (CancelOp id) Hw).
  - done.
Qed.

Lemma session_run_facts s ops :
  session_wf s -> session_wf (session_run s ops) /\ session_static s (session_run s ops).
Proof.
  unfold session_run. revert s. induction ops as [|op ops IH]; intros s Hs; [done|]. cbn.
  destruct (IH _ (session_step_wf s op Hs)) as [Hw Hst]. split; [done|].
  eapply session_static_trans; [by apply session_step_static|done].
Qed.

(** ** The lifecycle *)

(** How a step moves the state; a closed session keeps its description. *)
Definition state_step (s s' : Session) : Prop :=
  (state s' = state s /\ close_reason (info s') = close_reason (info s))
  \/ (state s = SessionState.Established /\ state s' = SessionState.Draining)
  \/ (is_closed s = false /\ is_closed s' = true).

Lemma session_step_state s op :
  state_step s (session_step s op)
  /\ (is_closed s = true -> info (session_step s op) = info s /\ state (session_step s op) = state s).
Proof.
  assert (is_closed s = true -> is_active s = false) as Hact.
  { unfold is_closed, is_active. by destruct (state s). }
  destruct op as [v|v|id|q|c| | | |r|e|e|p| |id|op]; cbn [session_step].
  - unfold open_validated_channel. case_match; [|split; [by left|done]].
    destruct (mux_open_channel _ _) as [m [|]]; cbn; (split; [by left|done]).
  - unfold open_legacy_validated_channel. case_match; [|split; [by left|done]].
    destruct (mux_open_channel _ _) as [m r]; cbn; (split; [by left|done]).
  - unfold session_close_channel. destruct (mux_close_channel _ _) as [m [|]]; (split; [by left|done]).
  - unfold update_quality. destruct (is_active s); (split; [by left|done || naive_solver]).
  - unfold report_continuity. destruct (is_active s); (split; [by left|done || naive_solver]).
  - unfold begin_drain. destruct (bool_decide (_ = _)) eqn:Hb; cbn; [|split; [by left|done]]. guards.
    split; [right; left; done|]. unfold is_closed. by rewrite Hb.
  - unfold finish_drain. destruct (_ || _)%bool eqn:Hb; cbn; [split; [by left|done]|]. guards.
    split; [right; right|]; unfold is_closed; rewrite H; done.
  - unfold abort. destruct (is_closed s) eqn:Hcl; (split; [|done]); [by left|]. right; right. done.
  - unfold session_fail. destruct (is_closed s) eqn:Hcl; (split; [|done]); [by left|]. right; right. done.
  - unfold plane_enqueue, via_mux. destruct (is_active s); [|split; [by left|done]].
    destruct (enqueue _ _); (split; [by left|done]).
  - unfold plane_enqueue_discardable, via_mux. destruct (is_active s); [|split; [by left|done]].
    destruct (enqueue_discardable _ _); (split; [by left|done]).
  - unfold plane_enqueue_control, via_mux. destruct (is_active s); [|split; [by left|done]].
    destruct (enqueue_control _ _); (split; [by left|done]).
  - unfold plane_next_outbound. destruct (next_outbound _); (split; [by left|done]).
  - unfold plane_cancel_channel, via_mux. destruct (is_active s); [|split; [by left|done]].
    destruct (cancel_channel _ _); (split; [by left|done]).
  - split; [by left|done].
Qed.

Lemma closed_run s ops :
  is_closed s = true -> info (session_run s ops) = info s /\ state (session_run s ops) = state s.
Proof.
  unfold session_run. revert s. induction ops as [|op ops IH]; intros s Hcl; [done|]. cbn.
  destruct (session_step_state s op) as [_ H]. specialize (H Hcl) as [Hi Hst].
  destruct (IH (session_step s op)) as [Hi' Hst']; [by unfold is_closed in *; rewrite Hst|].
  by rewrite Hi', Hst'.
Qed.

Lemma established_before s ops :
  state (session_run s ops) = SessionState.Established -> state s = SessionState.Established.
Proof.
  revert s. induction ops as [|op ops IH]; intros s Hst; [done|]. apply IH in Hst.
  destruct (session_step_state s op) as [[[E _]|[[E E']|[E E']]] _]; try congruence.
  unfold is_closed in E'. by rewrite Hst in E'.
Qed.

(** ** Properties *)

(** C23: Whatever happens to an established session, its multiplexer and its
    channel table keep their own invariants, and the data mode chosen when it
    was established decides what the table holds.  In compact mode the two
    describe the same channels: a channel is open in the multiplexer exactly
    if it is bound in the table, to the protocol channel and generation of its
    configuration, a protocol channel leads to exactly that open channel, and
    the retired channels of both are the same.  In legacy mode, where channels
    are opened in the multiplexer only, the table stays empty. *)
Theorem session_channels_agree n l max s0 ops :
  session_established n l max = Ok s0 -> max_channels l <= usize_max ->
  let s := session_run s0 ops in
  let table := channel_mappings s in
  mux_wf (multiplexer s) /\ channel_map_wf table /\ data_mode s = data_mode s0
  /\ (if decide (compact s0) then
        (forall id, session_binding table id
                    = config_binding <$> (config <$> channels (multiplexer s) !! id))
        /\ (forall key id, session_channel table key = Some id <->
              exists c, config <$> channels (multiplexer s) !! id = Some c /\ (config_binding c).1 = key)
        /\ map_retired table = retired_channels (multiplexer s)
      else by_session table = ∅ /\ by_protocol table = ∅ /\ map_retired table = ∅).
Proof.
  intros Hs Hl s. destruct (session_run_facts s0 ops (session_established_wf _ _ _ _ Hl Hs)) as [Hw Hst].
  fold s in Hw, Hst. destruct Hst as (_ & _ & _ & _ & Hmode & _). intros table.
  split_and!; [apply Hw..|done|]. pose proof (sw_sync s Hw) as Hsync. pose proof (wf_inverse _ (sw_map s Hw)) as Hinv.
  unfold channels_synced, compact in *. rewrite Hmode in Hsync. fold table in Hsync, Hinv.
  case_decide; destruct Hsync as [He Hr].
  - split_and!; [done| |done]. intros key id. unfold session_channel. rewrite fmap_Some. split.
    + intros ([id' gen] & Hk & ->). apply Hinv in Hk. rewrite He in Hk.
      apply fmap_Some in Hk as (c & Hc & E). exists c. split; [done|]. by destruct E.
    + intros (c & Hc & <-). exists (mkBinding id (config_binding c).2). split; [|done]. apply Hinv. by rewrite He, Hc.
  - split_and!; [done| |done]. apply map_eq. intros key. rewrite lookup_empty. apply eq_None_not_Some.
    intros [[id gen] Hk%Hinv]. by rewrite He, lookup_empty in Hk.
Qed.

(** Opening a validated channel is atomic.  A refusal, from whichever of
    the session, the channel table or the multiplexer, changes nothing.  A
    success is possible only for a negotiated protocol of an active compact
    session, and opens the channel in the multiplexer, with its validated
    configuration and an empty queue, and in the table at once. *)
Theorem open_validated_atomic s v s' r :
  session_wf s -> open_validated_channel s v = (s', r) ->
  match r with
  | Err _ => s' = s
  | Ok b =>
    let id := cfg_id (vc_config v) in
    is_active s = true /\ compact s
    /\ (exists p, p ∈ info_protocols (info s) /\ sel_stable_id p = vc_protocol_id v
          /\ sel_version p = key_version (cfg_key (vc_config v)) /\ sel_schema p = vc_schema v
          /\ sel_capabilities p = vc_capabilities v)
    /\ binding_channel_id b = id
    /\ channels (multiplexer s) !! id = None
    /\ (id ∉ retired_channels (multiplexer s))
    /\ config <$> channels (multiplexer s') !! id = Some (vc_config v)
    /\ queue_of (multiplexer s') id = []
    /\ session_channel (channel_mappings s') (vc_protocol_id v, vc_protocol_channel_id v) = Some id
    /\ protocol_channel (channel_mappings s') id = Some (vc_protocol_id v, vc_protocol_channel_id v)
    /\ (forall j, j <> id -> channels (multiplexer s') !! j = channels (multiplexer s) !! j
          /\ protocol_channel (channel_mappings s') j = protocol_channel (channel_mappings s) j)
    /\ state s' = state s /\ info s' = info s
  end.
Proof.
  intros Hw Ho. destruct r as [b|e]; [|by eapply open_validated_err].
  apply open_validated_ok in Ho as (m & Hc & Hm & -> & ->).
  apply mux_open_ok in Hm as (Hck & Hret & Hch & _).
  apply open_check_ok in Hck as (_ & Hnr & Hnone & _).
  apply open_validated_check_ok in Hc as (Ha & _ & Hcomp & Hmatch & _).
  apply matches_ok in Hmatch as [_ Hp].
  unfold queue_of, session_channel, protocol_channel. cbn. rewrite Hch.
  split_and!; try done; rewrite ?lookup_insert_eq; try done.
  intros j Hj. by rewrite !lookup_insert_ne.
Qed.

(** The registry's promise to the session is enough: a channel validated
    against the protocols of the session can always be opened in a compact
    session that is still active, if its channel id is new, its protocol
    channel is not already open and there is room; the multiplexer never
    refuses it on account of its configuration. *)
Theorem validated_channel_opens `{Sha256} limits r0 ds set req v n l max s0 ops :
  registry_new limits = Ok r0 ->
  activate (freeze (register_all r0 ds)) (ns_protocols n) = Ok set ->
  active_open_channel set req = Ok v ->
  session_established n l max = Ok s0 -> max_channels l <= usize_max ->
  let s := session_run s0 ops in
  let m := multiplexer s in
  let t := channel_mappings s in
  is_active s = true -> compact s ->
  req_channel_id req <> 0 -> channels m !! req_channel_id req = None ->
  (req_channel_id req ∉ retired_channels m) ->
  session_channel t (req_protocol_id req, req_protocol_channel_id req) = None ->
  card (channels m) + card (retired_channels m) < max_channels l ->
  channel_map_len t + card (map_retired t) < MAX_SESSION_CHANNEL_MAPPINGS ->
  exists s' b, open_validated_channel s v = (s', Ok b).
Proof.
  intros Hr Hact Hv Hs Hl s m t Hactive Hcomp Hnz Hnew Hnret Hkey Hroom Htab.
  pose proof (session_established_wf _ _ _ _ Hl Hs) as Hw0.
  destruct (session_run_facts s0 ops Hw0) as [Hw Hst]. fold s in Hw, Hst.
  destruct Hst as (_ & _ & Hprot & _ & _ & _ & Hlim & Hall).
  assert (info_protocols (info s0) = ns_protocols n /\ Mux.limits (multiplexer s0) = l
    /\ allowed_protocols (multiplexer s0)
       = Some (list_to_set ((fun p => (sel_stable_id p, sel_version p)) <$> ns_protocols n)))
    as (Hp0 & Hl0 & Ha0).
  { unfold session_established in Hs. inv_ok. unfold mux_restricted, mux_new in *. by inv_ok. }
  rewrite Hp0 in Hprot. rewrite Hl0 in Hlim. rewrite Ha0 in Hall.
  destruct (validated_channel_spec _ _ _ _ _ _ _ Hr Hact Hv)
    as (p & d & c & Hp & Hpid & _ & _ & Hc & Hcid & -> & Hcap).
  destruct Hc as (Hcz & Hframe & _ & _ & Hstream & Hdisc).
  assert (open_validated_check s (mkValidated
    (mkConfig (mkKey (sel_stable_id p) (sel_version p) (pc_id c)) (req_channel_id req)
       GENERATION_INITIAL (pc_mode c) (pc_priority c) (req_capacity req) (pc_max_frame_bytes c)
       (pc_max_stream_bytes c) (pc_discardable c))
    (sel_stable_id p) (pc_id c) (sel_schema p) (sel_capabilities p) (pc_debug_name c)
    (pc_max_frame_bytes c) (pc_max_stream_bytes c) (pc_discardable c)) = Ok ()) as Hcheck.
  { apply open_validated_check_ok. split_and!; [done|by apply Hw|done| |].
    - unfold validated_channel_matches_session. cbn.
      rewrite !N.eqb_refl, !bool_decide_true, eqb_reflx by done. cbn.
      apply existsb_exists. exists p. rewrite <- list_elem_of_In, Hprot. split; [done|].
      by rewrite !bool_decide_true.
    - apply validate_bind_ok; [apply Hw|]. cbn. unfold accepted_key. cbn. rewrite Hpid, Hcid.
      pose proof (sw_sync s Hw) as Hsync. unfold channels_synced in Hsync.
      rewrite decide_True in Hsync by done. destruct Hsync as [Hsync Hret].
      rewrite (sw_capacity s Hw). split_and!; try done; [congruence| | |].
      + unfold session_channel in Hkey. by destruct (by_protocol _ !! _).
      + rewrite Hsync. unfold m in Hnew. by rewrite Hnew.
      + by rewrite Hret. }
  unfold open_validated_channel. rewrite Hcheck. cbn [vc_config].
  unfold mux_open_channel.
  assert (open_check (multiplexer s)
    (mkConfig (mkKey (sel_stable_id p) (sel_version p) (pc_id c)) (req_channel_id req)
       GENERATION_INITIAL (pc_mode c) (pc_priority c) (req_capacity req) (pc_max_frame_bytes c)
       (pc_max_stream_bytes c) (pc_discardable c)) = Ok ()) as ->; [|eauto].
  apply open_check_complete; cbn; try done; try lia.
  - rewrite Hall. intros allowed [= <-]. apply elem_of_list_to_set, list_elem_of_fmap. by exists p.
  - rewrite Hlim. exact Hroom.
  - rewrite Hlim. exact Hl.
Qed.

(** The lifecycle only moves forward.  A session starts established, may
    drain, and once closed or failed it never changes again: its state and
    its description stay, nothing is pending, nothing more can be queued or
    opened.  It has a close reason exactly when it is closed, and a drain
    finishes only when every queued frame was sent. *)
Theorem session_lifecycle n l max s0 ops ops' :
  session_established n l max = Ok s0 -> max_channels l <= usize_max ->
  let s := session_run s0 ops in
  let s' := session_run s ops' in
  state s0 = SessionState.Established
  /\ (is_active s = true \/ is_closed s = true)
  /\ (is_closed s = true <-> is_Some (close_reason (info s)))
  /\ (is_closed s = true ->
        state s' = state s /\ info s' = info s /\ plane_pending_frames s' = 0
        /\ (forall e, plane_enqueue s' e = (s', Err Closed))
        /\ (forall p, plane_enqueue_control s' p = (s', Err Closed))
        /\ (forall v, (open_validated_channel s' v).1 = s'))
  /\ (state s = SessionState.Draining -> state s' <> SessionState.Established)
  /\ (forall t, finish_drain s = (t, Ok ()) ->
        state s = SessionState.Draining /\ plane_pending_frames s = 0
        /\ state t = SessionState.Closed /\ close_reason (info t) = Some Graceful)
  /\ info_session_id (info s') = ns_session_id n /\ info_protocols (info s') = ns_protocols n
  /\ info_peer_id (info s') = peer_id (ns_remote n).
Proof.
  intros Hs Hl s s'. pose proof (session_established_wf _ _ _ _ Hl Hs) as Hw0.
  destruct (session_run_facts s0 ops Hw0) as [Hw Hst]. fold s in Hw, Hst.
  destruct (session_run_facts s ops' Hw) as [Hw' Hst']. fold s' in Hw', Hst'.
  pose proof (session_static_trans _ _ _ Hst Hst') as (Hi & Hpeer & Hprot & _).
  assert (state s0 = SessionState.Established /\ info_session_id (info s0) = ns_session_id n
    /\ info_protocols (info s0) = ns_protocols n /\ info_peer_id (info s0) = peer_id (ns_remote n))
    as (H1 & H2 & H3 & H4) by (unfold session_established in Hs; by inv_ok).
  split_and!; try congruence; [apply Hw|apply Hw| | |].
  - intros Hcl. destruct (closed_run s ops' Hcl) as [Hinfo Hstate]. fold s' in Hinfo, Hstate.
    assert (is_closed s' = true) as Hcl' by (unfold is_closed in *; by rewrite Hstate).
    assert (is_active s' = false) as Ha.
    { unfold is_closed, is_active in *. by destruct (state s'). }
    split_and!; try done; [by apply Hw'| | |].
    + intros e. unfold plane_enqueue, via_mux. by rewrite Ha.
    + intros p. unfold plane_enqueue_control, via_mux. by rewrite Ha.
    + intros v. unfold open_validated_channel, open_validated_check. by rewrite Ha.
  - intros Hd He. apply established_before in He. congruence.
  - intros t Hf. unfold finish_drain in Hf. destruct (_ || _)%bool eqn:Hg; [done|]. guards.
    by simplify_eq.
Qed.

(** A subscriber of the event bus loses nothing silently.  What it has
    received, up to what is still queued for it, accounts for every event
    published since it subscribed: the events come in order and each gap,
    which only a full queue makes, is announced with its exact size. *)
Theorem bus_accounts max b00 i0 ops0 b cap i ops :
  bus_new max = Ok b00 ->
  subscribe (bus_run i0 b00 ops0).1 cap = (b, Ok i) ->
  len (published ops) <= u64_max -> (BUnsubscribe i ∉ ops) ->
  let '(b', received) := bus_run i b ops in
  exists s lost, subscribers b' !! i = Some s
    /\ accounts received (published ops) (lost ++ sub_queue s)
    /\ dropped s = len lost /\ len (sub_queue s) <= cap
    /\ (lost <> [] -> len (sub_queue s) = cap).
Proof.
  intros Hb Hsub Hlen Hun.
  pose proof (bus_run_wf i0 ops0 _ (bus_new_wf _ _ Hb)) as Hw0.
  set (b0 := (bus_run i0 b00 ops0).1) in *.
  pose proof (bus_step_wf b0 (BSubscribe cap) Hw0) as Hw. cbn in Hw. rewrite Hsub in Hw. cbn in Hw.
  assert (tracks b i cap [] []) as Ht.
  { unfold subscribe in Hsub. repeat case_match; simplify_eq. exists (mkSubscriber [] cap 0), [].
    cbn. rewrite lookup_insert_eq. split_and!; try done. constructor. }
  pose proof (tracks_run i cap ops b [] [] Hw Hlen Hun Ht) as Hrun.
  pose proof (bus_run_wf i ops b Hw) as Hw'.
  destruct (bus_run i b ops) as [b' received]. cbn in Hrun, Hw'.
  destruct Hrun as (s & lost & Hs & Hc & Hd & Ha).
  destruct (bus_queue b' Hw' i s Hs) as (_ & Hq & Hfull). rewrite Hc in *.
  exists s, lost. split_and!; try done.
  intros Hne. apply Hfull. rewrite Hd. destruct lost; [done|]. cbn. lia.
Qed.

(** ** A concrete session *)

Definition demo_negotiated : NegotiatedSession :=
  mkNegotiated (id_of SessionKind 9)
    (mkIdentity (id_of PeerKind 1) (id_of EndpointKind 1) (id_of ConnectionKind 1))
    (mkIdentity (id_of PeerKind 2) (id_of EndpointKind 2) (id_of ConnectionKind 2))
    (mkVersion 1 0) (caps_bitor CAP_TYPED_CONTROL CAP_COMPACT_CHANNEL_ID) demo_selections
    FirstPairing.

Lemma session_established_fresh n l max s0 :
  session_established n l max = Ok s0 ->
  is_active s0 = true
  /\ data_guard_mode (data_mode s0)
     = data_mode_negotiate (control_mode_negotiate (ns_link_capabilities n)) (ns_link_capabilities n)
  /\ channels (multiplexer s0) = ∅ /\ retired_channels (multiplexer s0) = ∅
  /\ by_protocol (channel_mappings s0) = ∅ /\ map_retired (channel_mappings s0) = ∅.
Proof.
  intros Hs. unfold session_established in Hs. inv_ok. unfold mux_restricted, mux_new, channel_map_new in *.
  by inv_ok.
Qed.

Lemma demo_established :
  exists s0, session_established demo_negotiated default_mux_limits 4 = Ok s0 /\ compact s0.
Proof.
  unfold session_established. cbn. eexists. split; [reflexivity|]. by vm_compute.
Qed.

Lemma demo_opened :
  exists s0 v s1 b, session_established demo_negotiated default_mux_limits 4 = Ok s0
    /\ open_validated_channel s0 v = (s1, Ok b).
Proof.
  assert (match activate (freeze demo_registry) demo_selections,
                session_established demo_negotiated default_mux_limits 4 with
          | Ok set, Ok s0 =>
            match active_open_channel set demo_request with
            | Ok v => match (open_validated_channel s0 v).2 with Ok _ => true | Err _ => false end
            | Err _ => false
            end
          | _, _ => false end = true) as He by by vm_compute.
  destruct (activate _ _) as [set|]; [|discriminate He].
  destruct (session_established _ _ _) as [s0|]; [|discriminate He].
  destruct (active_open_channel set demo_request) as [v|]; [|discriminate He].
  exists s0, v. destruct (open_validated_channel s0 v) as [s1 [b|]]; [|discriminate He].
  exists s1, b. split; reflexivity.
Qed.

Lemma default_mux_bound : max_channels default_mux_limits <= usize_max.
Proof. by vm_compute. Qed.

(** A session in which a channel is open. *)
Lemma session_channels_agree_witness :
  exists s0 v, session_established demo_negotiated default_mux_limits 4 = Ok s0
    /\ let s := session_run s0 [SOpen v; SEnqueueControl (str "x"); SNext] in
       channels (multiplexer s) !! 5 <> None
       /\ session_binding (channel_mappings s) 5 = config_binding <$> (config <$> channels (multiplexer s) !! 5)
       /\ session_channel (channel_mappings s) (vc_protocol_id v, vc_protocol_channel_id v) = Some 5.
Proof.
  destruct demo_established as (s0 & Hs & Hc). destruct demo_opens as (set & v & Hset & Hv). exists s0, v. split; [exact Hs|].
  assert (match session_established demo_negotiated default_mux_limits 4, activate (freeze demo_registry) demo_selections with
    | Ok s0, Ok set =>
      match active_open_channel set demo_request with
      | Ok v =>
        let s := session_run s0 [SOpen v; SEnqueueControl (str "x"); SNext] in
        (fun c => bool_decide ((config_binding c).1 = (vc_protocol_id v, vc_protocol_channel_id v)))
          <$> (config <$> channels (multiplexer s) !! 5)
      | Err _ => None
      end
    | _, _ => None
    end = Some true) as He by (vm_compute; reflexivity).
  rewrite Hs, Hset, Hv in He. cbv zeta in He. cbv zeta.
  destruct (session_channels_agree _ _ _ s0 [SOpen v; SEnqueueControl (str "x"); SNext] Hs default_mux_bound)
    as (_ & _ & _ & Hag). rewrite decide_True in Hag by exact Hc. destruct Hag as (Hb & Hk & _).
  destruct (channels _ !! 5) as [c|] eqn:E; [|discriminate He].
  split; [discriminate|]. split; [rewrite Hb, E; reflexivity|].
  apply Hk. exists (config c). rewrite E. split; [reflexivity|]. injection He as He. apply bool_decide_eq_true in He. exact He.
Defined.

Lemma open_validated_atomic_witness :
  exists s0 v s1 b, open_validated_channel s0 v = (s1, Ok b)
    /\ channels (multiplexer s0) !! cfg_id (vc_config v) = None
    /\ config <$> channels (multiplexer s1) !! cfg_id (vc_config v) = Some (vc_config v).
Proof.
  destruct demo_opened as (s0 & v & s1 & b & Hs & Ho). exists s0, v, s1, b. split; [exact Ho|].
  pose proof (open_validated_atomic s0 v s1 (Ok b)
    (session_established_wf _ _ _ _ default_mux_bound Hs) Ho) as Ha.
  destruct Ha as (_ & _ & _ & _ & Hn & _ & Hc & _). split; [exact Hn|exact Hc].
Defined.

Lemma validated_channel_opens_witness :
  exists s0 v s1 b, session_established demo_negotiated default_mux_limits 4 = Ok s0
    /\ open_validated_channel s0 v = (s1, Ok b).
Proof.
  destruct demo_opens as (set & v & Hset & Hv). destruct demo_established as (s0 & Hs & Hc).
  destruct (session_established_fresh _ _ _ _ Hs) as (Ha & _ & Hch & Hret & Hbp & Hmr).
  destruct (@validated_channel_opens toy_sha256 default_registry_limits demo_r0 [demo_descriptor]
    set demo_request v demo_negotiated default_mux_limits 4 s0 [] eq_refl Hset Hv Hs
    default_mux_bound Ha Hc) as (s1 & b & Ho).
  - discriminate.
  - cbn. rewrite Hch. apply lookup_empty.
  - cbn. rewrite Hret. apply not_elem_of_empty.
  - unfold session_channel. cbn. rewrite Hbp. rewrite lookup_empty. reflexivity.
  - cbn. rewrite Hch, Hret, map_size_empty, size_empty. apply N.ltb_lt. vm_compute. reflexivity.
  - unfold channel_map_len. cbn. rewrite Hbp, Hmr, map_size_empty, size_empty.
    apply N.ltb_lt. vm_compute. reflexivity.
  - exists s0, v, s1, b. split; [exact Hs|exact Ho].
Defined.

Lemma session_lifecycle_witness :
  exists s0, session_established demo_negotiated default_mux_limits 4 = Ok s0
    /\ info_session_id (info (session_run s0 [SBeginDrain])) = id_of SessionKind 9.
Proof.
  destruct demo_established as (s0 & Hs & _). exists s0. split; [exact Hs|].
  destruct (session_lifecycle _ _ _ s0 [SBeginDrain] [] Hs default_mux_bound)
    as (_ & _ & _ & _ & _ & _ & Hi & _).
  exact Hi.
Defined.

Definition demo_bus_ops : list bus_op :=
  [BPublish (EvClosed Graceful); BPublish (EvClosed LocalAbort); BPublish (EvClosed Timeout);
   BNext 1; BNext 1; BPublish (EvClosed Graceful)].

Lemma bus_accounts_witness :
  exists b, subscribe (mkBus 2 1 ∅) 2 = (b, Ok 1)
    /\ let '(b', received) := bus_run 1 b demo_bus_ops in
       exists s lost, subscribers b' !! 1 = Some s
         /\ accounts received (published demo_bus_ops) (lost ++ sub_queue s).
Proof.
  eexists. split; [reflexivity|].
  pose proof (bus_accounts 2 (mkBus 2 1 ∅) 1 [] (subscribe (mkBus 2 1 ∅) 2).1 2 1 demo_bus_ops
    eq_refl eq_refl ltac:(by vm_compute) ltac:(set_solver)) as Hb.
  change (subscribe (mkBus 2 1 ∅) 2).1 with (mkBus 2 2 (<[1 := mkSubscriber [] 2 0]> (∅ : gmap N Subscriber))) in Hb.
  destruct (bus_run _ _ _) as [b' received]. destruct Hb as (s & lost & Hs & Ha & _).
  exists s, lost. split; [exact Hs|exact Ha].
Defined.
