(* ===== verification/Security.v ===== *)
(** * Transport security evidence

    Models [security.rs]: what backend evidence a session must carry before
    it is treated as authenticated.  [SecurityLevel] is declared in
    [selection.rs] and [EndpointAddress] in [transport.rs]. *)

From S2P Require Export Session.
Local Open Scope N_scope.

Inductive SecurityLevel := Plaintext | Authenticated | AuthenticatedEncrypted.
#[export] Instance SecurityLevel_eq_dec : EqDecision SecurityLevel.
Proof. solve_decision. Defined.

(** The derived order of the levels. *)
Definition level_rank (l : SecurityLevel) : N :=
  match l with Plaintext => 0 | Authenticated => 1 | AuthenticatedEncrypted => 2 end.

Record EndpointAddress := mkEndpoint { ep_scheme : list byte; ep_address : list byte }.
#[export] Instance EndpointAddress_eq_dec : EqDecision EndpointAddress.
Proof. solve_decision. Defined.

Inductive IdentityStatus := IdActive (valid_until_unix_ms : N) | IdRevoked | IdRotated.

Record IdentityEvidence := mkIdEvidence {
  ie_peer_id : PeerId;
  ie_public_key_fingerprint : vec byte 32;
  ie_key_epoch : N;
  ie_status : IdentityStatus;
}.
Record SessionKeyBinding := mkKeyBinding {
  kb_key_id : vec byte 32;
  kb_forward_secure : bool;
  kb_handshake_transcript_hash : vec byte 32;
  kb_local_endpoint : EndpointAddress;
  kb_remote_endpoint : EndpointAddress;
  kb_link_version : ProtocolVersion;
}.
Record TransportSecurityEvidence := mkEvidence {
  ev_transport : TransportKind;
  ev_security_level : SecurityLevel;
  ev_mutually_authenticated : bool;
  ev_local_peer_credential_verified : bool;
  ev_development_plaintext : bool;
  ev_identity : IdentityEvidence;
  ev_session_key : option SessionKeyBinding;
}.
Record SecurityExpectation := mkExpectation {
  ex_peer_id : PeerId;
  ex_public_key_fingerprint : vec byte 32;
  ex_minimum_key_epoch : N;
  ex_handshake_transcript_hash : vec byte 32;
  ex_local_endpoint : EndpointAddress;
  ex_remote_endpoint : EndpointAddress;
  ex_link_version : ProtocolVersion;
  ex_now_unix_ms : N;
}.

Inductive RemoteSecurityPolicy := RequireEncrypted | AllowExplicitDevelopmentPlaintext.
#[export] Instance RemoteSecurityPolicy_eq_dec : EqDecision RemoteSecurityPolicy.
Proof. solve_decision. Defined.
Inductive ForwardSecrecyPolicy := ForwardRequired | ForwardOptional.
#[export] Instance ForwardSecrecyPolicy_eq_dec : EqDecision ForwardSecrecyPolicy.
Proof. solve_decision. Defined.
Inductive LocalPeerCredentialPolicy := CredentialRequired | CredentialOptional.
#[export] Instance LocalPeerCredentialPolicy_eq_dec : EqDecision LocalPeerCredentialPolicy.
Proof. solve_decision. Defined.

Record SecurityPolicy := mkSecurityPolicy {
  sp_remote : RemoteSecurityPolicy;
  sp_forward_secrecy : ForwardSecrecyPolicy;
  sp_local_peer_credential : LocalPeerCredentialPolicy;
}.
Definition default_security_policy : SecurityPolicy :=
  mkSecurityPolicy RequireEncrypted ForwardRequired CredentialRequired.

Module SecurityErrorKind.
Inductive t :=
| PlaintextForbidden | EncryptionRequired | MutualAuthenticationRequired | ForwardSecrecyRequired
| LocalPeerCredentialRequired | PeerMismatch | KeyMismatch | KeyRotated | IdentityRevoked
| IdentityExpired | TranscriptMismatch | EndpointMismatch | ProtocolMismatch | MissingSessionKey.
#[global] Instance t_eq_dec : EqDecision t.
Proof. solve_decision. Defined.
End SecurityErrorKind.

Record SecurityError := mkSecurityError {
  security_error_kind : SecurityErrorKind.t;
  security_public_message : string;
}.

(** [error]. *)
Definition security_error (kind : SecurityErrorKind.t) : SecurityError :=
  mkSecurityError kind
    match kind with
    | SecurityErrorKind.PlaintextForbidden => "plaintext transport is not permitted"
    | SecurityErrorKind.EncryptionRequired => "encrypted transport is required"
    | SecurityErrorKind.MutualAuthenticationRequired => "mutual authentication is required"
    | SecurityErrorKind.ForwardSecrecyRequired => "forward-secure session keys are required"
    | SecurityErrorKind.LocalPeerCredentialRequired => "local peer credential is required"
    | SecurityErrorKind.PeerMismatch => "authenticated peer does not match"
    | SecurityErrorKind.KeyMismatch => "authenticated identity key does not match"
    | SecurityErrorKind.KeyRotated => "authenticated identity key has been rotated"
    | SecurityErrorKind.IdentityRevoked => "authenticated identity has been revoked"
    | SecurityErrorKind.IdentityExpired => "authenticated identity has expired"
    | SecurityErrorKind.TranscriptMismatch => "session key is not bound to this handshake"
    | SecurityErrorKind.EndpointMismatch => "session key is not bound to these endpoints"
    | SecurityErrorKind.ProtocolMismatch => "session key is not bound to this protocol version"
    | SecurityErrorKind.MissingSessionKey => "session key binding is missing"
    end.

Definition requires_forward_secrecy (p : SecurityPolicy) : bool :=
  bool_decide (sp_forward_secrecy p = ForwardRequired).

Definition validate_binding (e : TransportSecurityEvidence) (x : SecurityExpectation)
    (remote_requires_key require_forward_secrecy : bool) : result SecurityError () :=
  match ev_session_key e with
  | None =>
    reject remote_requires_key || require_forward_secrecy
      with security_error SecurityErrorKind.MissingSessionKey;
    Ok ()
  | Some b =>
    reject require_forward_secrecy && negb (kb_forward_secure b)
      with security_error SecurityErrorKind.ForwardSecrecyRequired;
    reject negb (bool_decide (kb_handshake_transcript_hash b = ex_handshake_transcript_hash x))
      with security_error SecurityErrorKind.TranscriptMismatch;
    reject negb (bool_decide (kb_local_endpoint b = ex_local_endpoint x))
           || negb (bool_decide (kb_remote_endpoint b = ex_remote_endpoint x))
      with security_error SecurityErrorKind.EndpointMismatch;
    reject negb (bool_decide (kb_link_version b = ex_link_version x))
      with security_error SecurityErrorKind.ProtocolMismatch;
    Ok ()
  end.

(** The status of the identity at the expected time. *)
Definition check_status (status : IdentityStatus) (now : N) : result SecurityError () :=
  match status with
  | IdRevoked => Err (security_error SecurityErrorKind.IdentityRevoked)
  | IdRotated => Err (security_error SecurityErrorKind.KeyRotated)
  | IdActive valid_until =>
    reject valid_until <=? now with security_error SecurityErrorKind.IdentityExpired;
    Ok ()
  end.

Definition validate_transport_security (e : TransportSecurityEvidence) (x : SecurityExpectation)
    (p : SecurityPolicy) : result SecurityError () :=
  let i := ev_identity e in
  reject negb (bool_decide (ie_peer_id i = ex_peer_id x))
    with security_error SecurityErrorKind.PeerMismatch;
  reject negb (bool_decide (ie_public_key_fingerprint i = ex_public_key_fingerprint x))
    with security_error SecurityErrorKind.KeyMismatch;
  reject ie_key_epoch i <? ex_minimum_key_epoch x
    with security_error SecurityErrorKind.KeyRotated;
  _ ← check_status (ie_status i) (ex_now_unix_ms x);
  reject negb (ev_mutually_authenticated e)
    with security_error SecurityErrorKind.MutualAuthenticationRequired;
  if bool_decide (ev_transport e = Local) then
    reject bool_decide (sp_local_peer_credential p = CredentialRequired)
           && negb (ev_local_peer_credential_verified e)
      with security_error SecurityErrorKind.LocalPeerCredentialRequired;
    validate_binding e x false (requires_forward_secrecy p)
  else if bool_decide (ev_security_level e = Plaintext) then
    reject negb (bool_decide (sp_remote p = AllowExplicitDevelopmentPlaintext))
           || negb (ev_development_plaintext e)
      with security_error SecurityErrorKind.PlaintextForbidden;
    validate_binding e x false false
  else
    reject bool_decide (sp_remote p = RequireEncrypted)
           && negb (bool_decide (ev_security_level e = AuthenticatedEncrypted))
      with security_error SecurityErrorKind.EncryptionRequired;
    validate_binding e x true (requires_forward_secrecy p).

Record AuthenticatedSession := mkAuthenticated {
  as_session : SessionInfo;
  as_evidence : TransportSecurityEvidence;
}.

Definition authenticate_session (session : SessionInfo) (e : TransportSecurityEvidence)
    (x : SecurityExpectation) (p : SecurityPolicy) : result SecurityError AuthenticatedSession :=
  reject negb (bool_decide (info_peer_id session = ex_peer_id x))
    with security_error SecurityErrorKind.PeerMismatch;
  _ ← validate_transport_security e x p;
  Ok (mkAuthenticated session e).

(** ** What the policy promises *)

(** The identity is the expected one, current and mutually authenticated. *)
Definition identity_trusted (e : TransportSecurityEvidence) (x : SecurityExpectation) : Prop :=
  let i := ev_identity e in
  ie_peer_id i = ex_peer_id x /\ ie_public_key_fingerprint i = ex_public_key_fingerprint x
  /\ ex_minimum_key_epoch x <= ie_key_epoch i
  /\ (exists until, ie_status i = IdActive until /\ ex_now_unix_ms x < until)
  /\ ev_mutually_authenticated e = true.

(** The session key is bound to this handshake, these endpoints and this version. *)
Definition key_bound (b : SessionKeyBinding) (x : SecurityExpectation) : Prop :=
  kb_handshake_transcript_hash b = ex_handshake_transcript_hash x
  /\ kb_local_endpoint b = ex_local_endpoint x /\ kb_remote_endpoint b = ex_remote_endpoint x
  /\ kb_link_version b = ex_link_version x.

(** A key must be there when one of the two reasons requires it, be forward
    secure when that is required, and be bound whenever it is there. *)
Definition key_acceptable (e : TransportSecurityEvidence) (x : SecurityExpectation)
    (needed forward : bool) : Prop :=
  match ev_session_key e with
  | None => needed = false /\ forward = false
  | Some b => (forward = true -> kb_forward_secure b = true) /\ key_bound b x
  end.

(** What each kind of transport must show. *)
Definition transport_acceptable (e : TransportSecurityEvidence) (x : SecurityExpectation)
    (p : SecurityPolicy) : Prop :=
  if decide (ev_transport e = Local) then
    (sp_local_peer_credential p = CredentialRequired -> ev_local_peer_credential_verified e = true)
    /\ key_acceptable e x false (requires_forward_secrecy p)
  else if decide (ev_security_level e = Plaintext) then
    sp_remote p = AllowExplicitDevelopmentPlaintext /\ ev_development_plaintext e = true
    /\ key_acceptable e x false false
  else
    (sp_remote p = RequireEncrypted -> ev_security_level e = AuthenticatedEncrypted)
    /\ key_acceptable e x true (requires_forward_secrecy p).

Lemma validate_binding_ok e x needed forward :
  validate_binding e x needed forward = Ok () <-> key_acceptable e x needed forward.
Proof.
  unfold validate_binding, key_acceptable, key_bound. destruct (ev_session_key e) as [b|].
  - split.
    + intros Hv. inv_ok. guards. split_and!; try done. intros ->. by destruct (kb_forward_secure b).
    + intros (Hf & H1 & H2 & H3 & H4). rewrite reject_pass.
      2: { destruct forward; [|done]. cbn. by rewrite Hf. }
      by rewrite H1, H2, H3, H4, !bool_decide_true.
  - by destruct needed, forward; cbn; intuition congruence.
Qed.

Lemma check_status_ok status now :
  check_status status now = Ok () <-> exists until, status = IdActive until /\ now < until.
Proof.
  destruct status as [until| |]; cbn; try naive_solver.
  destruct (N.leb_spec until now); cbn; split; try done.
  - intros (u & [= <-] & ?). lia.
  - intros _. by exists until.
Qed.

Lemma validate_security_ok e x p :
  validate_transport_security e x p = Ok () <->
  identity_trusted e x /\ transport_acceptable e x p.
Proof.
  unfold validate_transport_security, identity_trusted, transport_acceptable. split.
  - intros Hv. inv_ok. guards. rename select (check_status _ _ = _) into Hst.
    apply check_status_ok in Hst. split; [by split_and!|].
    case_bool_decide; [rewrite decide_True by done|rewrite decide_False by done].
    { inv_ok. apply validate_binding_ok in Hv. split; [|done]. intros Hc.
      rewrite bool_decide_true in * by done. cbn in *. by guards. }
    case_bool_decide; [rewrite decide_True by done|rewrite decide_False by done].
    { inv_ok. guards. apply validate_binding_ok in Hv. done. }
    inv_ok. apply validate_binding_ok in Hv. split; [|done]. intros Hc.
    rewrite (bool_decide_true (sp_remote p = _)) in * by done. cbn in *. by guards.
  - intros ((H1 & H2 & H3 & H4 & H5) & Ht).
    rewrite reject_pass by (by rewrite bool_decide_true). 
    rewrite reject_pass by (by rewrite bool_decide_true).
    rewrite reject_pass by (by apply N.ltb_ge).
    apply check_status_ok in H4 as ->. cbn [mbind result_bind]. rewrite reject_pass by (by rewrite H5).
    case_decide; [rewrite bool_decide_true by done|rewrite bool_decide_false by done].
    { destruct Ht as [Hc Hk%validate_binding_ok]. rewrite reject_pass; [done|].
      case_bool_decide; [|done]. cbn. by rewrite Hc. }
    case_decide; [rewrite bool_decide_true by done|rewrite bool_decide_false by done].
    { destruct Ht as (Hc & Hd & Hk%validate_binding_ok). rewrite reject_pass; [done|].
      by rewrite bool_decide_true, Hd. }
    destruct Ht as [Hc Hk%validate_binding_ok]. rewrite reject_pass; [done|].
    case_bool_decide; [|done]. cbn. by rewrite bool_decide_true by auto.
Qed.

(** ** Properties *)

(** C26: A session is authenticated exactly when its peer is the expected one,
    the backend's evidence is for that peer's current key, mutually
    authenticated, and the transport meets the policy.  Under the default
    policy a session that is not local is then always encrypted, with a
    forward-secure key bound to this handshake, endpoints and version, and
    plaintext is never accepted. *)
Theorem authentication_sound session e x p :
  ((exists a, authenticate_session session e x p = Ok a)
   <-> info_peer_id session = ex_peer_id x /\ identity_trusted e x /\ transport_acceptable e x p)
  /\ forall a, authenticate_session session e x default_security_policy = Ok a ->
     as_session a = session /\ as_evidence a = e /\ ie_peer_id (ev_identity e) = info_peer_id session
     /\ exists b, ev_session_key e = Some b /\ kb_forward_secure b = true /\ key_bound b x
        /\ (ev_transport e <> Local -> ev_security_level e = AuthenticatedEncrypted)
        /\ (ev_transport e = Local -> ev_local_peer_credential_verified e = true).
Proof.
  unfold authenticate_session. split.
  - split.
    + intros [a Ha]. inv_ok. guards. rename select (validate_transport_security _ _ _ = _) into Hv.
      apply validate_security_ok in Hv as [? ?]. done.
    + intros (Hp & Hi & Ht). rewrite reject_pass by (by rewrite bool_decide_true).
      assert (validate_transport_security e x p = Ok ()) as -> by (by apply validate_security_ok).
      cbn. eauto.
  - intros a Ha. inv_ok. guards. rename select (validate_transport_security _ _ _ = _) into Hv.
    apply validate_security_ok in Hv as [(Hp & _) Ht]. split_and!; [done|done|congruence|].
    unfold transport_acceptable, key_acceptable in Ht. cbn in Ht.
    destruct (ev_session_key e) as [b|] eqn:Hb.
    + exists b. repeat case_decide; destruct Ht as [Hc Ht]; try done;
        destruct Ht as [Hf Hk]; split_and!; auto; done.
    + by repeat case_decide; intuition discriminate.
Qed.

(** ** A concrete connection *)

Definition demo_endpoint (n : N) : EndpointAddress := mkEndpoint (str "quic") [byte_of_n n].
Definition demo_evidence : TransportSecurityEvidence :=
  mkEvidence Quic AuthenticatedEncrypted true false false
    (mkIdEvidence (id_of PeerKind 2) (vreplicate 32 (byte_of_n 7)) 3 (IdActive 1000))
    (Some (mkKeyBinding (vreplicate 32 (byte_of_n 1)) true (vreplicate 32 (byte_of_n 8))
             (demo_endpoint 1) (demo_endpoint 2) (mkVersion 1 0))).
Definition demo_expectation : SecurityExpectation :=
  mkExpectation (id_of PeerKind 2) (vreplicate 32 (byte_of_n 7)) 2 (vreplicate 32 (byte_of_n 8))
    (demo_endpoint 1) (demo_endpoint 2) (mkVersion 1 0) 999.
Definition demo_info : SessionInfo :=
  mkInfo (id_of SessionKind 9) (id_of PeerKind 2) [] default_continuity default_quality None.

Lemma authentication_sound_witness :
  (exists a, authenticate_session demo_info demo_evidence demo_expectation default_security_policy
             = Ok a)
  /\ ev_security_level demo_evidence = AuthenticatedEncrypted.
Proof.
  assert (authenticate_session demo_info demo_evidence demo_expectation default_security_policy
          = Ok (mkAuthenticated demo_info demo_evidence)) as Ha by reflexivity.
  split; [exists (mkAuthenticated demo_info demo_evidence); exact Ha|].
  destruct (proj2 (authentication_sound demo_info demo_evidence demo_expectation
    default_security_policy) _ Ha) as (_ & _ & _ & b & _ & _ & _ & He & _).
  apply He. discriminate.
Defined.
