(* ===== verification/Selection.v ===== *)
(** * Choosing a transport

    Models [selection.rs]: the candidates that meet the policy in order of
    priority, and the guard against falling back to lower security. *)

From S2P Require Export Security.
Local Open Scope N_scope.

Record TransportCandidate := mkCandidate {
  tc_kind : TransportKind;
  tc_endpoint : EndpointAddress;
  tc_priority : N;
  tc_security : SecurityLevel;
}.
Inductive AttemptFailure :=
| Unreachable | AttemptTimedOut | AttemptAuthFailed | Incompatible | AttemptResources
| AttemptCancelled | AttemptOther.
Record TransportAttempt := mkAttempt {
  at_candidate : TransportCandidate;
  at_failure : AttemptFailure;
}.
Record FallbackPolicy := mkFallback {
  minimum_security : SecurityLevel;
  allow_security_downgrade : bool;
}.
Inductive SelectionError :=
| NoCandidates
| SecurityDowngrade (attempted candidate : SecurityLevel)
| Exhausted (failures : list TransportAttempt).
Record TransportSelection := mkTransportSelection {
  ts_selected : TransportCandidate;
  ts_quality : ConnectionQuality;
  ts_failures : list TransportAttempt;
}.
Record FallbackPlan := mkFallbackPlan {
  fp_policy : FallbackPolicy;
  fp_pending : list TransportCandidate;
  fp_failures : list TransportAttempt;
  strongest_attempted : option SecurityLevel;
}.

(** The derived comparisons of [SecurityLevel]. *)
Definition level_lt (l1 l2 : SecurityLevel) : bool := level_rank l1 <? level_rank l2.
Definition level_max (l1 l2 : SecurityLevel) : SecurityLevel := if level_lt l2 l1 then l1 else l2.

(** [sort_by_key], which is stable. *)
Section sorting.
Context {A : Type} (key : A -> N).
Fixpoint insert_by_key (x : A) (l : list A) : list A :=
  match l with
  | [] => [x]
  | y :: l => if key x <=? key y then x :: y :: l else y :: insert_by_key x l
  end.
Definition sort_by_key (l : list A) : list A := foldr insert_by_key [] l.
End sorting.

Definition plan_new (candidates : list TransportCandidate) (policy : FallbackPolicy)
    : result SelectionError FallbackPlan :=
  let kept := filter (fun c => level_lt (tc_security c) (minimum_security policy) = false)
                candidates in
  let sorted := sort_by_key tc_priority kept in
  reject bool_decide (sorted = []) with NoCandidates;
  Ok (mkFallbackPlan policy sorted [] None).

(** A rejected candidate is consumed too. *)
Definition next_candidate (p : FallbackPlan)
    : FallbackPlan * result SelectionError (option TransportCandidate) :=
  match fp_pending p with
  | [] => (p, Ok None)
  | c :: rest =>
    let taken := mkFallbackPlan (fp_policy p) rest (fp_failures p) (strongest_attempted p) in
    let proceed :=
      (mkFallbackPlan (fp_policy p) rest (fp_failures p)
         (Some match strongest_attempted p with
               | None => tc_security c
               | Some current => level_max current (tc_security c)
               end), Ok (Some c)) in
    match strongest_attempted p with
    | Some strongest =>
      if level_lt (tc_security c) strongest && negb (allow_security_downgrade (fp_policy p))
      then (taken, Err (SecurityDowngrade strongest (tc_security c)))
      else proceed
    | None => proceed
    end
  end.

Definition record_failure (p : FallbackPlan) (c : TransportCandidate) (f : AttemptFailure)
    : FallbackPlan :=
  mkFallbackPlan (fp_policy p) (fp_pending p) (fp_failures p ++ [mkAttempt c f])
    (strongest_attempted p).
Definition select (p : FallbackPlan) (c : TransportCandidate) (q : ConnectionQuality)
    : TransportSelection :=
  mkTransportSelection c q (fp_failures p).
Definition plan_exhausted (p : FallbackPlan) : SelectionError := Exhausted (fp_failures p).

(** ** The sort *)

Section sorting_facts.
Context {A : Type} (key : A -> N).

Definition key_sorted (l : list A) : Prop :=
  forall i j x y, l !! i = Some x -> l !! j = Some y -> (i < j)%nat -> key x <= key y.

Lemma insert_by_key_perm x l : insert_by_key key x l ≡ₚ x :: l.
Proof.
  induction l as [|y l IH]; cbn; [done|]. case_match; [done|]. rewrite IH. apply Permutation_swap.
Qed.
Lemma sort_by_key_perm l : sort_by_key key l ≡ₚ l.
Proof. induction l as [|x l IH]; cbn; [done|]. by rewrite insert_by_key_perm, IH. Qed.

Lemma key_sorted_cons x l :
  key_sorted (x :: l) <-> (forall y, y ∈ l -> key x <= key y) /\ key_sorted l.
Proof.
  split.
  - intros Hs. split.
    + intros y [j Hj]%list_elem_of_lookup_1. by apply (Hs 0%nat (S j)); [|done|lia].
    + intros i j a b Hi Hj Hij. by apply (Hs (S i) (S j)); [| |lia].
  - intros [Hx Hs] [|i] [|j] a b Hi Hj Hij; cbn in *; try lia; simplify_eq.
    + apply Hx. by eapply list_elem_of_lookup_2.
    + by apply (Hs i j); [| |lia].
Qed.

Lemma insert_by_key_sorted x l : key_sorted l -> key_sorted (insert_by_key key x l).
Proof.
  induction l as [|y l IH]; cbn.
  - intros _. apply key_sorted_cons. split; [set_solver|done].
  - intros [Hy Hs]%key_sorted_cons. destruct (N.leb_spec (key x) (key y)).
    + apply key_sorted_cons. split; [|by apply key_sorted_cons].
      intros z [->|Hz]%elem_of_cons; [done|]. specialize (Hy z Hz). lia.
    + apply key_sorted_cons. split; [|auto]. intros z. rewrite insert_by_key_perm.
      intros [->|Hz]%elem_of_cons; [lia|auto].
Qed.
Lemma sort_by_key_sorted l : key_sorted (sort_by_key key l).
Proof.
  induction l as [|x l IH]; cbn; [intros i j x y Hi; by rewrite lookup_nil in Hi|by apply insert_by_key_sorted].
Qed.

(** Elements with equal keys keep their order. *)
Lemma insert_by_key_stable x l k :
  filter (fun y => key y = k) (insert_by_key key x l) = filter (fun y => key y = k) (x :: l).
Proof.
  induction l as [|y l IH]; cbn [insert_by_key]; [done|].
  destruct (N.leb_spec (key x) (key y)); [done|].
  rewrite !filter_cons, IH, !filter_cons.
  destruct (decide (key x = k)), (decide (key y = k)); try done. lia.
Qed.
Lemma sort_by_key_stable l k :
  filter (fun y => key y = k) (sort_by_key key l) = filter (fun y => key y = k) l.
Proof.
  induction l as [|x l IH]; cbn [sort_by_key foldr]; [done|].
  rewrite insert_by_key_stable, !filter_cons.
  fold (sort_by_key key l). by rewrite IH.
Qed.
End sorting_facts.

(** ** Runs of a plan *)

(** What successive calls of [next_candidate] return, failures recorded in
    between being irrelevant to it. *)
Fixpoint plan_run (n : nat) (p : FallbackPlan)
    : FallbackPlan * list (result SelectionError (option TransportCandidate)) :=
  match n with
  | O => (p, [])
  | S n => let '(p, r) := next_candidate p in let '(p, rs) := plan_run n p in (p, r :: rs)
  end.

Definition offered (rs : list (result SelectionError (option TransportCandidate)))
    : list TransportCandidate :=
  omap (fun r => match r with Ok o => o | Err _ => None end) rs.

Lemma level_max_rank l1 l2 :
  level_rank (level_max l1 l2) = N.max (level_rank l1) (level_rank l2).
Proof. by destruct l1, l2. Qed.

Definition at_least (floor : option SecurityLevel) (c : TransportCandidate) : Prop :=
  match floor with Some l => level_rank l <= level_rank (tc_security c) | None => True end.

(** The levels of a list do not fall. *)
Fixpoint never_weaker (floor : option SecurityLevel) (l : list TransportCandidate) : Prop :=
  match l with
  | [] => True
  | c :: l => at_least floor c /\ never_weaker (Some (tc_security c)) l
  end.

Lemma plan_run_offered n p :
  offered (plan_run n p).2 `sublist_of` fp_pending p
  /\ (allow_security_downgrade (fp_policy p) = false ->
      never_weaker (strongest_attempted p) (offered (plan_run n p).2))
  /\ (allow_security_downgrade (fp_policy p) = true ->
      offered (plan_run n p).2 = take n (fp_pending p)).
Proof.
  revert p. induction n as [|n IH]; intros p; cbn; [by split; [apply sublist_nil_l|]|].
  unfold next_candidate. destruct (fp_pending p) as [|c rest] eqn:Hp.
  - destruct (plan_run n p) as [p' rs] eqn:Hrun. specialize (IH p). rewrite Hrun, Hp in IH.
    cbn. rewrite take_nil in IH. exact IH.
  - set (proceed := mkFallbackPlan _ _ _ (Some _)). set (taken := mkFallbackPlan _ _ _ _).
    assert (let rs := (plan_run n proceed).2 in
      c :: offered rs `sublist_of` c :: rest
      /\ (allow_security_downgrade (fp_policy p) = false ->
          at_least (strongest_attempted p) c -> never_weaker (strongest_attempted p) (c :: offered rs))
      /\ (allow_security_downgrade (fp_policy p) = true -> c :: offered rs = c :: take n rest)) as Hgo.
    { destruct (IH proceed) as (Hsub & Hweak & Hall). cbn in *. split_and!.
      - by apply sublist_skip.
      - intros Ha Hc. split; [done|]. specialize (Hweak Ha).
        destruct (strongest_attempted p) as [s|]; [|done]. cbn in Hc.
        assert (level_rank (level_max s (tc_security c)) = level_rank (tc_security c)) as E
          by (rewrite level_max_rank; lia).
        clear -E Hweak. destruct (offered _) as [|d l]; [done|]. cbn in *. by rewrite E in Hweak.
      - intros Ha. by rewrite (Hall Ha). }
    destruct (strongest_attempted p) as [s|] eqn:Hs.
    + destruct (level_lt (tc_security c) s && negb (allow_security_downgrade (fp_policy p))) eqn:Hd.
      * apply andb_true_iff in Hd as [_ Hd]. guards.
        destruct (IH taken) as (Hsub & Hweak & _). cbn in Hsub, Hweak.
        destruct (plan_run n taken) as [p' rs]. cbn in *.
        split_and!; [by apply sublist_cons| |congruence]. intros Ha. by apply Hweak.
      * destruct (plan_run n proceed) as [p' rs]. cbn in Hgo. cbn.
        destruct Hgo as (H1 & H2 & H3). split_and!; [done| |done]. intros Ha. apply H2; [done|].
        rewrite Ha, andb_true_r in Hd. unfold level_lt in Hd. by guards.
    + destruct (plan_run n proceed) as [p' rs]. cbn in Hgo. cbn.
      destruct Hgo as (H1 & H2 & H3). split_and!; [done| |done]. intros Ha. by apply H2.
Qed.

(** ** Properties *)

(** A fallback plan offers only candidates that meet the minimum security
    level, in order of priority and, among equals, in the order they were
    given.  Without permission to downgrade, it never offers a candidate of
    lower security than one it offered before; with permission, it offers
    every one. *)
Theorem fallback_correct candidates policy p n :
  plan_new candidates policy = Ok p ->
  let result := offered (plan_run n p).2 in
  let admissible := filter (fun c => level_lt (tc_security c) (minimum_security policy) = false)
                      candidates in
  result `sublist_of` sort_by_key tc_priority admissible
  /\ (forall c, c ∈ result -> c ∈ candidates
        /\ level_rank (minimum_security policy) <= level_rank (tc_security c))
  /\ key_sorted tc_priority (sort_by_key tc_priority admissible)
  /\ (forall k, filter (fun c => tc_priority c = k) (sort_by_key tc_priority admissible)
                = filter (fun c => tc_priority c = k) admissible)
  /\ (allow_security_downgrade policy = false -> never_weaker None result)
  /\ (allow_security_downgrade policy = true ->
        result = take n (sort_by_key tc_priority admissible)).
Proof.
  intros Hp result admissible. unfold plan_new in Hp. inv_ok. guards.
  set (p := mkFallbackPlan _ _ _ _) in *.
  destruct (plan_run_offered n p) as (Hsub & Hweak & Hall). fold result in Hsub, Hweak, Hall.
  cbn in Hsub, Hweak, Hall. fold admissible in Hsub, Hall.
  split_and!; [done| |apply sort_by_key_sorted|intros; apply sort_by_key_stable|done|done].
  intros c Hc. assert (c ∈ sort_by_key tc_priority admissible) as Hin.
  { by eapply (sublist_subseteq _ _ Hsub). }
  rewrite sort_by_key_perm in Hin. unfold admissible in Hin.
  apply list_elem_of_filter in Hin as [Hl Hin]. split; [done|].
  unfold level_lt in Hl. by guards.
Qed.

Definition demo_candidate (priority : N) (l : SecurityLevel) : TransportCandidate :=
  mkCandidate Quic (demo_endpoint priority) priority l.

Lemma fallback_correct_witness :
  let p := mkFallbackPlan (mkFallback Authenticated false)
             [demo_candidate 1 AuthenticatedEncrypted; demo_candidate 2 Authenticated] [] None in
  plan_new [demo_candidate 2 Authenticated; demo_candidate 0 Plaintext;
            demo_candidate 1 AuthenticatedEncrypted] (mkFallback Authenticated false) = Ok p
  /\ never_weaker None (offered (plan_run 2 p).2).
Proof.
  split; [reflexivity|].
  refine (proj1 (proj2 (proj2 (proj2 (proj2 (fallback_correct
    [demo_candidate 2 Authenticated; demo_candidate 0 Plaintext;
     demo_candidate 1 AuthenticatedEncrypted] (mkFallback Authenticated false) _ 2 _))))) _);
    reflexivity.
Defined.
