(* ===== verification/ResumeFacts.v ===== *)
(** * What is replayed after a reconnection *)

From S2P Require Export Resume.
Local Open Scope N_scope.

Definition coordinator_wf (c : ResumeCoordinator) : Prop :=
  NoDup (pr_id <$> rc_pending c) /\ len (rc_pending c) <= rl_max_pending_requests (rc_limits c).

Inductive resume_op := RRecord (id : N) (replay : RequestReplay) | RAck (id : N).
Definition resume_step (c : ResumeCoordinator) (op : resume_op) : ResumeCoordinator :=
  match op with
  | RRecord id replay => (record_unacknowledged c id replay).1
  | RAck id => (acknowledge c id).1
  end.
Definition resume_run (c : ResumeCoordinator) (ops : list resume_op) : ResumeCoordinator :=
  foldl resume_step c ops.

Lemma position_Some {A} (p : A -> bool) l i :
  position p l = Some i -> exists x, l !! i = Some x /\ p x = true.
Proof.
  revert i. induction l as [|y l IH]; intros i; cbn; [done|].
  destruct (p y) eqn:Hp; [intros [= <-]; by exists y|].
  intros (j & Hj & ->)%fmap_Some. by apply IH.
Qed.
Lemma position_None {A} (p : A -> bool) l x : position p l = None -> x ∈ l -> p x = false.
Proof.
  induction l as [|y l IH]; cbn; [set_solver|]. destruct (p y) eqn:Hp; [done|].
  intros Hn%fmap_None [->|Hx]%elem_of_cons; auto.
Qed.

Lemma filter_all {A} (P : A -> Prop) `{forall x, Decision (P x)} l : Forall P l -> filter P l = l.
Proof. induction 1; [done|]. rewrite filter_cons_True by done. by f_equal. Qed.

(** Acknowledging removes exactly the request with that id. *)
Lemma acknowledge_spec c id :
  NoDup (pr_id <$> rc_pending c) ->
  rc_pending (acknowledge c id).1 = filter (fun r => pr_id r <> id) (rc_pending c)
  /\ rc_limits (acknowledge c id).1 = rc_limits c
  /\ ((acknowledge c id).2 = true <-> id ∈ pr_id <$> rc_pending c).
Proof.
  intros Hnd. unfold acknowledge. destruct (position _ _) as [i|] eqn:Hp; cbn.
  - apply position_Some in Hp as (r & Hi & Hr). apply N.eqb_eq in Hr. split_and!; [|done|].
    + unfold remove_at. pose proof (take_drop_middle _ _ _ Hi) as Hmid.
      rewrite <- Hmid in Hnd |- * at 3. rewrite fmap_app, fmap_cons in Hnd.
      apply NoDup_app in Hnd as (_ & Hl & Hnd). apply NoDup_cons in Hnd as [Hr' _].
      rewrite filter_app, filter_cons, decide_False by (intros E; by apply E).
      f_equal; symmetry; apply filter_all; apply Forall_forall.
      * intros x Hx E. apply (Hl (pr_id x)); [by apply list_elem_of_fmap_2|]. rewrite E, Hr. left.
      * intros x Hx E. destruct Hr'. rewrite Hr, <- E. by apply list_elem_of_fmap_2.
    + split; [|done]. intros _. apply list_elem_of_fmap. exists r. split; [done|].
      by eapply list_elem_of_lookup_2.
  - split_and!; [|done|].
    + symmetry. apply filter_all, Forall_forall. intros r Hr E.
      pose proof (position_None _ _ _ Hp Hr) as Hf. apply N.eqb_neq in Hf. done.
    + split; [done|]. intros (r & -> & Hr)%list_elem_of_fmap.
      pose proof (position_None _ _ _ Hp Hr) as Hf. apply N.eqb_neq in Hf. done.
Qed.

Lemma resume_step_wf c op :
  coordinator_wf c -> coordinator_wf (resume_step c op) /\ rc_limits (resume_step c op) = rc_limits c.
Proof.
  intros [Hnd Hlen]. destruct op as [id replay|id]; cbn [resume_step].
  - unfold record_unacknowledged. destruct (existsb _ _) eqn:He; [done|].
    destruct (N.leb_spec (rl_max_pending_requests (rc_limits c)) (len (rc_pending c))); [done|].
    split; [|done]. split; cbn.
    + rewrite fmap_app. apply NoDup_app. split; [done|]. split; [|apply NoDup_singleton].
      intros x (r & -> & Hr)%list_elem_of_fmap Hx%list_elem_of_singleton.
      apply not_true_iff_false in He. destruct He. apply existsb_exists. exists r.
      rewrite <- list_elem_of_In. split; [done|]. by apply N.eqb_eq.
    + rewrite length_app. cbn. lia.
  - destruct (acknowledge_spec c id Hnd) as (Hp & Hl & _). split; [|done].
    split; rewrite ?Hp, ?Hl.
    + eapply sublist_NoDup; [exact Hnd|]. apply fmap_sublist, sublist_filter.
    + pose proof (length_filter (fun r => pr_id r <> id) (rc_pending c)). lia.
Qed.

Lemma resume_run_wf c ops :
  coordinator_wf c -> coordinator_wf (resume_run c ops) /\ rc_limits (resume_run c ops) = rc_limits c.
Proof.
  unfold resume_run. revert c. induction ops as [|op ops IH]; intros c Hc; [done|]. cbn.
  destruct (resume_step_wf c op Hc) as [Hc' Hl]. destruct (IH _ Hc') as [Hw Hl'].
  split; [done|]. by rewrite Hl'.
Qed.

(** The list a request goes to. *)
Definition auto_retried (continuity : SessionContinuity) (r : PendingRequest) : bool :=
  match continuity, pr_replay r with Resumed _, Idempotent => true | _, _ => false end.
Definition left_to_owner (r : PendingRequest) : bool :=
  match pr_replay r with ApplicationDecides => true | _ => false end.

Lemma three_way {A} (p q : A -> bool) l :
  (forall x, p x = true -> q x = false) ->
  filter (fun x => p x = true) l ++ filter (fun x => q x = true) l
    ++ filter (fun x => p x = false /\ q x = false) l ≡ₚ l.
Proof.
  intros Hpq. induction l as [|x l IH]; [done|]. rewrite !filter_cons.
  destruct (p x) eqn:Hp; [rewrite (Hpq x Hp)|destruct (q x)];
    repeat first [rewrite decide_True by done | rewrite decide_False by (intuition discriminate)];
    cbn [app].
  - by rewrite IH.
  - by rewrite <- Permutation_middle, IH.
  - by rewrite app_assoc, <- Permutation_middle, <- app_assoc, IH.
Qed.

Lemma plan_loop continuity l plan :
  foldl (plan_push continuity) plan l
  = mkPlan
      (automatically_retry plan ++ (pr_id <$> filter (fun r => auto_retried continuity r = true) l))
      (application_decision plan ++ (pr_id <$> filter (fun r => left_to_owner r = true) l))
      (fail_without_retry plan
         ++ (pr_id <$> filter (fun r => auto_retried continuity r = false
                                        /\ left_to_owner r = false) l)).
Proof.
  revert plan. induction l as [|r l IH]; intros plan; cbn [foldl].
  - destruct plan. cbn. by rewrite !app_nil_r.
  - rewrite IH, !filter_cons. unfold plan_push, auto_retried, left_to_owner.
    destruct continuity, (pr_replay r); cbn; rewrite <- ?app_assoc; done.
Qed.

Lemma forgotten_run c ops id :
  coordinator_wf c -> (forall replay, RRecord id replay ∉ ops) ->
  (id ∉ pr_id <$> rc_pending c) -> id ∉ pr_id <$> rc_pending (resume_run c ops).
Proof.
  unfold resume_run. revert c. induction ops as [|op ops IH]; intros c Hc Hno Hid; [done|]. cbn.
  apply IH; [by apply resume_step_wf|intros replay Hin; apply (Hno replay); by right|].
  destruct op as [j replay|j]; cbn [resume_step].
  - unfold record_unacknowledged. repeat case_match; try done. cbn.
    rewrite fmap_app, elem_of_app. intros [?|Hin]; [done|]. cbn in Hin.
    apply list_elem_of_singleton in Hin as ->. apply (Hno replay). left.
  - destruct (acknowledge_spec c j (proj1 Hc)) as (-> & _). intros (r & -> & Hr)%list_elem_of_fmap.
    apply list_elem_of_filter in Hr as [_ Hr]. destruct Hid. by apply list_elem_of_fmap_2.
Qed.

(** ** Properties *)

(** What becomes of the requests of a list, by the ways they may be replayed. *)
Definition ids_of (replays : list RequestReplay) (l : list PendingRequest) : list N :=
  pr_id <$> filter (fun r => pr_replay r ∈ replays) l.
Lemma ids_filter (P : PendingRequest -> Prop) `{!forall r, Decision (P r)} replays l :
  (forall r, P r <-> pr_replay r ∈ replays) -> pr_id <$> filter P l = ids_of replays l.
Proof. intros HP. unfold ids_of. f_equal. by apply list_filter_iff. Qed.

(** An offer is accepted exactly when every check passes. *)
Lemma validate_offer_spec `{ResumeTokenVerifier V} c offer peer now (verifier : V) previous :
  validate_offer c offer peer now verifier = Resumed previous <->
  ro_peer_id offer = peer /\ now < ro_expires_at_unix_ms offer
  /\ ro_token offer <> [] /\ len (ro_token offer) <= rl_max_token_bytes (rc_limits c)
  /\ len (ro_channel_cursors offer) <= rl_max_channels (rc_limits c)
  /\ Forall (fun cursor => len (cursor_bytes cursor) <= rl_max_cursor_bytes (rc_limits c)) (ro_channel_cursors offer)
  /\ verify verifier offer = true /\ previous = ro_previous_session_id offer.
Proof.
  assert (existsb (fun cursor => rl_max_cursor_bytes (rc_limits c) <? len (cursor_bytes cursor))
            (ro_channel_cursors offer) = false
    <-> Forall (fun cursor => len (cursor_bytes cursor) <= rl_max_cursor_bytes (rc_limits c)) (ro_channel_cursors offer)) as Hex.
  { induction (ro_channel_cursors offer) as [|x l IH]; cbn; [by split|].
    rewrite orb_false_iff, IH, Forall_cons, N.ltb_ge. done. }
  unfold validate_offer. split.
  - destruct (negb (bool_decide (ro_peer_id offer = peer))) eqn:H1; [discriminate|].
    destruct (ro_expires_at_unix_ms offer <=? now) eqn:H2; [discriminate|].
    destruct (_ || _)%bool eqn:H3; [discriminate|].
    destruct (negb (verify verifier offer)) eqn:H4; [discriminate|].
    intros [= <-]. do 3 apply orb_false_iff in H3 as [H3 ?]. rewrite Hex in *. guards. done.
  - intros (-> & H2 & H3 & H4 & H5 & H6%Hex & H7 & ->).
    rewrite bool_decide_eq_true_2, (proj2 (N.leb_gt _ _)), bool_decide_eq_false_2, H6, H7 by done.
    by rewrite !(proj2 (N.ltb_ge _ _)) by done.
Qed.

(** C34: After a reconnection every unacknowledged request is decided exactly
    once, each list in the order the requests were recorded.  The owner
    decides on exactly the requests that ask for it.  When the session was
    resumed exactly the idempotent ones are retried and exactly those never to
    be replayed fail; when it is a new session nothing is retried and all the
    others fail.  An acknowledged request that was not recorded again is in no
    list, and nothing stays pending.  An offer is accepted as a resumption
    exactly when it is for the expected peer, unexpired, within the limits and
    verified. *)
Theorem replay_correct `{ResumeTokenVerifier V} l c0 before id after continuity :
  coordinator_new l = Ok c0 -> (forall replay, RRecord id replay ∉ after) ->
  let c := resume_run c0 (before ++ RAck id :: after) in
  let '(c', plan) := plan_after_reconnect c continuity in
  let outcome := automatically_retry plan ++ application_decision plan ++ fail_without_retry plan in
  rc_pending c' = [] /\ outcome ≡ₚ pr_id <$> rc_pending c /\ NoDup outcome
  /\ len outcome <= rl_max_pending_requests l /\ (id ∉ outcome)
  /\ application_decision plan = ids_of [ApplicationDecides] (rc_pending c)
  /\ match continuity with
     | Resumed _ =>
       automatically_retry plan = ids_of [Idempotent] (rc_pending c)
       /\ fail_without_retry plan = ids_of [ReplayNever] (rc_pending c)
     | NewSession _ =>
       automatically_retry plan = []
       /\ fail_without_retry plan = ids_of [ReplayNever; Idempotent] (rc_pending c)
     end
  /\ (forall offer peer now (verifier : V) previous,
        validate_offer c offer peer now verifier = Resumed previous <->
        ro_peer_id offer = peer /\ now < ro_expires_at_unix_ms offer
        /\ ro_token offer <> [] /\ len (ro_token offer) <= rl_max_token_bytes l
        /\ len (ro_channel_cursors offer) <= rl_max_channels l
        /\ Forall (fun cursor => len (cursor_bytes cursor) <= rl_max_cursor_bytes l) (ro_channel_cursors offer)
        /\ verify verifier offer = true /\ previous = ro_previous_session_id offer).
Proof.
  intros Hn Hno c. unfold coordinator_new in Hn. inv_ok.
  set (c0 := mkCoordinator l []) in *.
  assert (coordinator_wf c0) as Hw0 by (split; [constructor|cbn; lia]).
  destruct (resume_run_wf c0 (before ++ RAck id :: after) Hw0) as [[Hnd Hlen] Hl]. fold c in Hnd, Hlen, Hl.
  rewrite Hl in Hlen. cbn [rc_limits] in Hlen.
  unfold plan_after_reconnect. rewrite plan_loop. cbn.
  match goal with |- context [(?a ++ ?b ++ ?d) ≡ₚ _] => set (outcome := a ++ b ++ d) end.
  assert (outcome ≡ₚ pr_id <$> rc_pending c) as Hperm.
  { unfold outcome. rewrite <- !fmap_app. apply fmap_Permutation, three_way.
    intros r. unfold auto_retried, left_to_owner. by destruct continuity, (pr_replay r). }
  split_and!; try done.
  - by rewrite Hperm.
  - rewrite Hperm, length_fmap. done.
  - rewrite Hperm. unfold c, resume_run. rewrite foldl_app. cbn [foldl resume_step].
    destruct (resume_run_wf c0 before Hw0) as [Hwb _]. unfold resume_run in Hwb.
    apply forgotten_run; [by apply (resume_step_wf _ (RAck id))|done|].
    destruct (acknowledge_spec _ id (proj1 Hwb)) as (-> & _).
    intros (r & E & Hr)%list_elem_of_fmap. apply list_elem_of_filter in Hr as [Hr _]. done.
  - apply ids_filter. intros r. unfold left_to_owner. rewrite list_elem_of_singleton. by destruct (pr_replay r).
  - destruct continuity as [reason|previous]; (split; [|apply ids_filter; intros r;
      unfold auto_retried, left_to_owner; destruct (pr_replay r); set_solver]).
    + generalize (rc_pending c). intros rs. induction rs as [|r rs IH]; [done|]. rewrite filter_cons_False; [done|]. discriminate.
    + apply ids_filter. intros r. unfold auto_retried. destruct (pr_replay r); set_solver.
  - intros offer peer now verifier previous. rewrite validate_offer_spec, Hl. done.
Qed.

Lemma replay_correct_witness :
  let c := resume_run (mkCoordinator default_resume_limits [])
             [RRecord 1 Idempotent; RRecord 2 ReplayNever; RRecord 3 Idempotent; RAck 1] in
  (plan_after_reconnect c (Resumed (id_of SessionKind 5))).2 = mkPlan [3] [] [2]
  /\ ([3], [2]) = (ids_of [Idempotent] (rc_pending c), ids_of [ReplayNever] (rc_pending c)).
Proof.
  split; [reflexivity|].
  pose proof (@replay_correct () (fun _ _ => true) default_resume_limits
    (mkCoordinator default_resume_limits [])
    [RRecord 1 Idempotent; RRecord 2 ReplayNever; RRecord 3 Idempotent] 1 []
    (Resumed (id_of SessionKind 5)) eq_refl ltac:(intros r Hr; inversion Hr)) as Hr.
  destruct Hr as (_ & _ & _ & _ & _ & _ & [H1 H2] & _). exact (f_equal2 pair H1 H2).
Defined.
