(* ===== verification/Reconnect.v ===== *)
(** * Reconnection and maintenance budgets

    Models [reconnect.rs] and [budget.rs].  The cancellation token is shared
    with its owner: the value it has at a call is an argument of the call. *)

From S2P Require Export Identity.
Local Open Scope N_scope.

(** ** Reconnection *)

Inductive ReconnectFailure :=
| RfTemporarilyUnreachable | RfNetworkChanged | RfSleepWake | RfTransportClosed
| RfAuthenticationFailed | RfIdentityExpired | RfPairingRevoked | RfProtocolIncompatible
| RfResourceExhausted | RfCancelled.
#[export] Instance ReconnectFailure_eq_dec : EqDecision ReconnectFailure.
Proof. solve_decision. Defined.

Definition is_permanent (f : ReconnectFailure) : bool :=
  match f with
  | RfAuthenticationFailed | RfIdentityExpired | RfPairingRevoked | RfProtocolIncompatible
  | RfCancelled => true
  | _ => false
  end.

Record RetryLimit := mkRetryLimit { max_attempts : N; max_elapsed_ms : N }.
Definition retry_limit_valid (l : RetryLimit) : bool :=
  (0 <? max_attempts l) && (0 <? max_elapsed_ms l).

Record ExponentialBackoff := mkBackoff {
  initial_delay_ms : N;
  maximum_delay_ms : N;
  multiplier_per_thousand : N;
  jitter_per_thousand : N;
  backoff_limit : RetryLimit;
}.
Definition backoff_valid (b : ExponentialBackoff) : bool :=
  (0 <? initial_delay_ms b) && (initial_delay_ms b <=? maximum_delay_ms b)
  && (1000 <=? multiplier_per_thousand b) && (jitter_per_thousand b <=? 1000)
  && retry_limit_valid (backoff_limit b).

Inductive ReconnectPolicy :=
| PolicyDisabled
| PolicyImmediate (limit : RetryLimit)
| PolicyBackoff (config : ExponentialBackoff)
| PolicyApplication.

Inductive ReconnectStopReason :=
| StopDisabled | StopPermanent (f : ReconnectFailure) | StopAttemptsExhausted
| StopDeadlineExceeded | StopCancelled.

Inductive ReconnectAction :=
| AttemptAt (unix_ms attempt : N)
| AwaitApplication
| Stop (reason : ReconnectStopReason).

Record ReconnectController := mkReconnect {
  rcn_policy : ReconnectPolicy;
  started_unix_ms : option N;
  attempts : N;
  rcn_paused : bool;
}.

Definition policy_valid (p : ReconnectPolicy) : bool :=
  match p with
  | PolicyDisabled | PolicyApplication => true
  | PolicyImmediate limit => retry_limit_valid limit
  | PolicyBackoff config => backoff_valid config
  end.

Definition reconnect_new (p : ReconnectPolicy) : result string ReconnectController :=
  reject negb (policy_valid p) with "reconnect policy limits must be positive and bounded"%string;
  Ok (mkReconnect p None 0 false).

Definition reconnect_pause (c : ReconnectController) : ReconnectController :=
  mkReconnect (rcn_policy c) (started_unix_ms c) (attempts c) true.
Definition reconnect_resume (c : ReconnectController) : ReconnectController :=
  mkReconnect (rcn_policy c) (started_unix_ms c) (attempts c) false.
Definition reconnect_reset (c : ReconnectController) : ReconnectController :=
  mkReconnect (rcn_policy c) None 0 (rcn_paused c).

(** One pass of the loop of [exponential_delay]. *)
Definition grow_delay (b : ExponentialBackoff) (delay : N) : N :=
  N.min (sat_mul u64_max delay (multiplier_per_thousand b) / 1000) (maximum_delay_ms b).
Definition exponential_delay (b : ExponentialBackoff) (attempt : N) : N :=
  N.iter attempt (grow_delay b) (initial_delay_ms b).

Definition jittered_delay (base jitter sample : N) : N :=
  if jitter =? 0 then base
  else
    let span := sat_mul u64_max base jitter / 1000 in
    let offset := sat_mul u64_max (sat_mul u64_max span sample) 2 / 1000 in
    sat_add u64_max (base - span) offset.

Definition schedule (c : ReconnectController) (now started delay : N) (limit : RetryLimit)
    : ReconnectController * ReconnectAction :=
  if max_attempts limit <=? attempts c then (c, Stop StopAttemptsExhausted)
  else
    let elapsed := now - started in
    if (max_elapsed_ms limit <=? elapsed)
       || (max_elapsed_ms limit <? sat_add u64_max elapsed delay)
    then (c, Stop StopDeadlineExceeded)
    else
      let attempt := sat_add u32_max (attempts c) 1 in
      (mkReconnect (rcn_policy c) (started_unix_ms c) attempt (rcn_paused c),
       AttemptAt (sat_add u64_max now delay) attempt).

Definition after_failure (c : ReconnectController) (cancelled : bool) (failure : ReconnectFailure)
    (now jitter_sample : N) : ReconnectController * ReconnectAction :=
  if cancelled || bool_decide (failure = RfCancelled) then (c, Stop StopCancelled)
  else if is_permanent failure then (c, Stop (StopPermanent failure))
  else if rcn_paused c then (c, AwaitApplication)
  else
    let started := default now (started_unix_ms c) in
    let c := mkReconnect (rcn_policy c) (Some started) (attempts c) (rcn_paused c) in
    match rcn_policy c with
    | PolicyDisabled => (c, Stop StopDisabled)
    | PolicyApplication => (c, AwaitApplication)
    | PolicyImmediate limit => schedule c now started 0 limit
    | PolicyBackoff config =>
      let base := exponential_delay config (attempts c) in
      let delay := jittered_delay base (jitter_per_thousand config) (N.min jitter_sample 1000) in
      schedule c now started delay (backoff_limit config)
    end.

(** ** Budgets *)

Record ConnectionBudget := mkBudget {
  max_memory_bytes : N;
  max_bandwidth_bytes_per_second : N;
  cb_max_channels : N;
  max_send_queue_frames : N;
  max_resume_channels : N;
  max_pending_replays : N;
  max_maintenance_operations_per_tick : N;
}.
Definition default_budget : ConnectionBudget :=
  mkBudget (16 * 1024 * 1024) (16 * 1024 * 1024) 64 512 64 128 8.

(** [ConnectionBudget::validate]. *)
Definition budget_validate (b : ConnectionBudget) : result LinkError ConnectionBudget :=
  reject (max_memory_bytes b =? 0) || (max_bandwidth_bytes_per_second b =? 0)
         || (cb_max_channels b =? 0) || (max_send_queue_frames b =? 0)
         || (max_resume_channels b =? 0) || (max_pending_replays b =? 0)
         || (max_maintenance_operations_per_tick b =? 0)
    with InvalidInput "connection budget values must be positive";
  Ok b.

Inductive MaintenanceMode := Normal | Reduced | Paused.

Record MaintenanceBudget := mkMaintenance {
  maximum_per_tick : N;
  remaining : N;
  mode : MaintenanceMode;
}.
Definition maintenance_new (b : ConnectionBudget) : result LinkError MaintenanceBudget :=
  b ← budget_validate b;
  Ok (mkMaintenance (max_maintenance_operations_per_tick b) (max_maintenance_operations_per_tick b)
        Normal).
Definition set_mode (m : MaintenanceBudget) (md : MaintenanceMode) : MaintenanceBudget :=
  mkMaintenance (maximum_per_tick m) (remaining m) md.

(** What one tick may spend. *)
Definition tick_budget (m : MaintenanceBudget) : N :=
  match mode m with
  | Normal => maximum_per_tick m
  | Reduced => div_ceil (maximum_per_tick m) 4
  | Paused => 0
  end.
Definition begin_tick (m : MaintenanceBudget) : MaintenanceBudget :=
  mkMaintenance (maximum_per_tick m) (tick_budget m) (mode m).
Definition try_consume (m : MaintenanceBudget) : MaintenanceBudget * bool :=
  if remaining m =? 0 then (m, false)
  else (mkMaintenance (maximum_per_tick m) (remaining m - 1) (mode m), true).
