(* ===== verification/ReconnectFacts.v ===== *)
(** * Reconnection is bounded *)

From S2P Require Export Reconnect.
Local Open Scope N_scope.

(** ** Delays

    The delay grows up to the maximum as long as a thousand times the maximum
    fits [u64]: the multiplication saturates before the division. *)

Lemma exponential_delay_bounds b n :
  backoff_valid b = true -> 1000 * maximum_delay_ms b <= u64_max ->
  initial_delay_ms b <= exponential_delay b n <= maximum_delay_ms b
  /\ exponential_delay b n <= exponential_delay b (N.succ n).
Proof.
  intros Hv Hmax. unfold backoff_valid in Hv. guards.
  assert (forall d, initial_delay_ms b <= d <= maximum_delay_ms b -> d <= grow_delay b d) as Hgrow.
  { intros d Hd. unfold grow_delay, sat_mul. apply N.min_glb; [|lia].
    apply N.div_le_lower_bound; [done|]. apply N.min_glb; [lia|nia]. }
  assert (initial_delay_ms b <= exponential_delay b n <= maximum_delay_ms b) as Hb.
  { unfold exponential_delay. induction n as [|n IH] using N.peano_ind; [cbn; lia|].
    rewrite N.iter_succ.
    specialize (Hgrow _ IH).
    pose proof (N.le_min_r (sat_mul u64_max (N.iter n (grow_delay b) (initial_delay_ms b))
      (multiplier_per_thousand b) / 1000) (maximum_delay_ms b)) as Hle.
    fold (grow_delay b (N.iter n (grow_delay b) (initial_delay_ms b))) in Hle. lia. }
  split; [done|]. unfold exponential_delay in *. rewrite N.iter_succ. by apply Hgrow.
Qed.

Lemma jittered_delay_bound base jitter sample :
  jitter <= 1000 -> sample <= 1000 -> jittered_delay base jitter sample <= 2 * base.
Proof.
  intros Hj Hs. unfold jittered_delay. destruct (N.eqb_spec jitter 0); [lia|].
  set (span := sat_mul u64_max base jitter / 1000).
  assert (span <= base) as Hspan.
  { unfold span, sat_mul. apply N.Div0.div_le_upper_bound. nia. }
  set (offset := sat_mul u64_max (sat_mul u64_max span sample) 2 / 1000).
  assert (offset <= 2 * span) as Hoff.
  { unfold offset, sat_mul. apply N.Div0.div_le_upper_bound. nia. }
  unfold sat_add. lia.
Qed.

Lemma exponential_delay_le b n : backoff_valid b = true -> exponential_delay b n <= maximum_delay_ms b.
Proof.
  intros Hv. unfold backoff_valid in Hv. guards. unfold exponential_delay.
  destruct n as [|n] using N.peano_ind; [cbn; lia|].
  rewrite N.iter_succ. apply N.le_min_r.
Qed.

(** ** Runs of a controller *)

Inductive rcn_event :=
| RFail (cancelled : bool) (failure : ReconnectFailure) (now jitter_sample : N)
| RPause | RResume.

Definition rcn_step (c : ReconnectController) (ev : rcn_event)
    : ReconnectController * option ReconnectAction :=
  match ev with
  | RFail cancelled failure now jitter =>
    let '(c, a) := after_failure c cancelled failure now jitter in (c, Some a)
  | RPause => (reconnect_pause c, None)
  | RResume => (reconnect_resume c, None)
  end.

Fixpoint rcn_run (c : ReconnectController) (evs : list rcn_event)
    : ReconnectController * list (option ReconnectAction) :=
  match evs with
  | [] => (c, [])
  | ev :: evs =>
    let '(c, a) := rcn_step c ev in
    let '(c, rest) := rcn_run c evs in (c, a :: rest)
  end.

(** The attempts among the actions of a run, by number. *)
Definition attempt_numbers (l : list (option ReconnectAction)) : list N :=
  omap (fun a => match a with Some (AttemptAt _ n) => Some n | _ => None end) l.

(** The limit of a policy that schedules attempts. *)
Definition policy_limit (p : ReconnectPolicy) : option RetryLimit :=
  match p with
  | PolicyImmediate l => Some l
  | PolicyBackoff b => Some (backoff_limit b)
  | _ => None
  end.

Definition limit_of (p : ReconnectPolicy) : RetryLimit :=
  default (mkRetryLimit 0 0) (policy_limit p).

Lemma schedule_cases c now started delay limit :
  ((schedule c now started delay limit).1 = c
   /\ forall t n, (schedule c now started delay limit).2 <> AttemptAt t n)
  \/ attempts c < max_attempts limit
     /\ (now - started) + delay <= max_elapsed_ms limit
     /\ schedule c now started delay limit
        = (mkReconnect (rcn_policy c) (started_unix_ms c) (sat_add u32_max (attempts c) 1)
             (rcn_paused c),
           AttemptAt (sat_add u64_max now delay) (sat_add u32_max (attempts c) 1))
  \/ u64_max <= max_elapsed_ms limit.
Proof.
  unfold schedule. destruct (N.leb_spec (max_attempts limit) (attempts c)); [by left|].
  destruct (_ || _)%bool eqn:Hd; [by left|]. right. guards. unfold sat_add in *.
  destruct (N.le_gt_cases u64_max (max_elapsed_ms limit)); [by right|]. left.
  split_and!; [lia|lia|done].
Qed.

(** What a failure does, by cases. *)
Lemma after_failure_cases c cancelled failure now jitter c' a :
  max_elapsed_ms (limit_of (rcn_policy c)) < u64_max ->
  after_failure c cancelled failure now jitter = (c', a) ->
  rcn_policy c' = rcn_policy c /\ rcn_paused c' = rcn_paused c
  /\ (forall s, started_unix_ms c = Some s -> started_unix_ms c' = Some s)
  /\ ((attempts c' = attempts c /\ forall t n, a <> AttemptAt t n)
      \/ exists limit delay, policy_limit (rcn_policy c) = Some limit
         /\ cancelled = false /\ is_permanent failure = false /\ rcn_paused c = false
         /\ attempts c < max_attempts limit
         /\ (now - default now (started_unix_ms c)) + delay <= max_elapsed_ms limit
         /\ attempts c' = sat_add u32_max (attempts c) 1
         /\ started_unix_ms c' = Some (default now (started_unix_ms c))
         /\ a = AttemptAt (sat_add u64_max now delay) (sat_add u32_max (attempts c) 1)
         /\ match rcn_policy c with
            | PolicyBackoff b =>
              delay = jittered_delay (exponential_delay b (attempts c)) (jitter_per_thousand b)
                        (N.min jitter 1000)
            | _ => delay = 0
            end).
Proof.
  intros Hlim Hf. unfold after_failure in Hf.
  destruct (cancelled || _) eqn:Hc; [simplify_eq; split_and!; try done; by left|].
  apply orb_false_iff in Hc as [-> _].
  destruct (is_permanent failure) eqn:Hp; [simplify_eq; split_and!; try done; by left|].
  destruct (rcn_paused c) eqn:Hpa; [simplify_eq; split_and!; try done; by left|].
  set (started := default now (started_unix_ms c)) in *. cbn in Hf.
  assert (forall s, started_unix_ms c = Some s -> Some started = Some s) as Hs.
  { intros s Hs. unfold started. by rewrite Hs. }
  destruct (rcn_policy c) as [|limit|config|] eqn:Hpol; cbn in Hlim.
  - simplify_eq. split_and!; try done. by left.
  - match type of Hf with schedule ?c1 _ _ _ _ = _ =>
      destruct (schedule_cases c1 now started 0 limit) as [[H1 H2]|[(H1 & H2 & H3)|H1]] end; [| |lia].
    + rewrite Hf in H1, H2. cbn in H1, H2. subst c'. split_and!; try done. by left.
    + rewrite H3 in Hf. simplify_eq. split_and!; try done. right. exists limit, 0. cbn in *.
      by split_and!.
  - match type of Hf with schedule ?c1 _ _ ?d _ = _ =>
      destruct (schedule_cases c1 now started d (backoff_limit config)) as [[H1 H2]|[(H1 & H2 & H3)|H1]]
    end; [| |lia].
    + rewrite Hf in H1, H2. cbn in H1, H2. subst c'. split_and!; try done. by left.
    + rewrite H3 in Hf. simplify_eq. split_and!; try done. right. exists (backoff_limit config).
      eexists. cbn in *. by split_and!.
  - simplify_eq. split_and!; try done. by left.
Qed.

(** The delay a policy never exceeds. *)
Definition policy_delay (p : ReconnectPolicy) : N :=
  match p with PolicyBackoff b => 2 * maximum_delay_ms b | _ => 0 end.

(** Whether the owner has paused the controller after these events. *)
Definition paused_by (p : bool) (evs : list rcn_event) : bool :=
  fold_left (fun p ev => match ev with RPause => true | RResume => false | _ => p end) evs p.

(** What a scheduled attempt of a run satisfies. *)
Definition attempt_sound (limit : RetryLimit) (p : ReconnectPolicy) (paused : bool)
    (started : option N) (evs : list rcn_event) (i : nat) (t : N) : Prop :=
  exists failure now jitter s,
    evs !! i = Some (RFail false failure now jitter)
    /\ is_permanent failure = false /\ paused_by paused (take i evs) = false
    /\ started = Some s /\ t <= now + policy_delay p
    /\ t <= N.max now s + max_elapsed_ms limit.

Lemma rcn_run_bounded evs c c' acts :
  let limit := limit_of (rcn_policy c) in
  max_attempts limit <= u32_max -> max_elapsed_ms limit < u64_max ->
  policy_valid (rcn_policy c) = true -> rcn_run c evs = (c', acts) ->
  attempts c <= attempts c' <= N.max (attempts c) (max_attempts limit)
  /\ attempt_numbers acts
     = N.of_nat <$> seq (S (N.to_nat (attempts c))) (N.to_nat (attempts c' - attempts c))
  /\ (forall s, started_unix_ms c = Some s -> started_unix_ms c' = Some s)
  /\ forall i t n, acts !! i = Some (Some (AttemptAt t n)) ->
       attempt_sound limit (rcn_policy c) (rcn_paused c) (started_unix_ms c') evs i t.
Proof.
  revert c c' acts. induction evs as [|ev evs IH]; intros c c' acts limit Hm He Hv Hrun;
    cbn in Hrun.
  { simplify_eq. rewrite N.sub_diag. split_and!; [lia|lia|done|done|]. by intros [|i]. }
  destruct (rcn_step c ev) as [c1 a] eqn:Hstep.
  destruct (rcn_run c1 evs) as [c2 rest] eqn:Hrest. simplify_eq.
  destruct ev as [cancelled failure now jitter| |]; cbn in Hstep.
  - destruct (after_failure c cancelled failure now jitter) as [c3 a3] eqn:Hf. simplify_eq.
    apply after_failure_cases in Hf as (Hp & Hpa & Hst & Hcase); [|done].
    destruct (IH c1 c' rest) as (IHb & IHn & IHs & IHt); [by rewrite ?Hp..|done|]. clear IH.
    rewrite Hp in IHb, IHt. rewrite Hpa in IHt. fold limit in IHb, IHt.
    assert (forall i t n, rest !! i = Some (Some (AttemptAt t n)) ->
      attempt_sound limit (rcn_policy c) (rcn_paused c) (started_unix_ms c')
        (RFail cancelled failure now jitter :: evs) (S i) t) as IHt'.
    { intros i t n (f & w & j & s & H)%IHt. by exists f, w, j, s. }
    destruct Hcase as [[Hat Hno]|(l & delay & Hpl & -> & Hperm & Hpause & Hlt & Hel & Hat & Hs1 & -> & Hd)].
    + split_and!; [lia|lia| | |].
      * unfold attempt_numbers. cbn. rewrite <- Hat. destruct a3; [naive_solver|done|done].
      * auto.
      * intros [|i] t n Hi; cbn in Hi; [naive_solver|]. by apply (IHt' i t n).
    + assert (limit = l) as -> by (unfold limit, limit_of; by rewrite Hpl).
      assert (attempts c1 = attempts c + 1) as Hat1 by (rewrite Hat; unfold sat_add; lia).
      assert (sat_add u32_max (attempts c) 1 = attempts c + 1) as Hsat by lia.
      rewrite Hsat in *. split_and!; [lia|lia| |auto|].
      * replace (N.to_nat (attempts c' - attempts c))
          with (S (N.to_nat (attempts c' - attempts c1))) by lia.
        cbn. f_equal; [lia|]. unfold attempt_numbers in IHn. rewrite IHn. by rewrite Hat1, N.add_1_r, N2Nat.inj_succ.
      * intros [|i] t n Hi; cbn in Hi; [|by apply (IHt' i t n)]. simplify_eq.
        exists failure, now, jitter, (default now (started_unix_ms c)).
        split_and!; [done|done|done|by apply IHs| |unfold sat_add; lia].
        enough (delay <= policy_delay (rcn_policy c)) by (unfold sat_add; lia).
        destruct (rcn_policy c) as [| |b|]; cbn in *; [lia|lia| |lia]. subst delay.
        pose proof (exponential_delay_le b (attempts c) Hv).
        pose proof (jittered_delay_bound (exponential_delay b (attempts c)) (jitter_per_thousand b)
          (N.min jitter 1000)) as Hj.
        unfold backoff_valid in Hv. guards. lia.
  - simplify_eq. destruct (IH (reconnect_pause c) c' rest) as (IHb & IHn & IHs & IHt); [done..|].
    cbn in *. fold limit in IHb, IHt. split_and!; [lia|lia|done|done|].
    intros [|i] t n Hi; cbn in Hi; [done|].
    apply IHt in Hi as (f & w & j & s & H). by exists f, w, j, s.
  - simplify_eq. destruct (IH (reconnect_resume c) c' rest) as (IHb & IHn & IHs & IHt); [done..|].
    cbn in *. fold limit in IHb, IHt. split_and!; [lia|lia|done|done|].
    intros [|i] t n Hi; cbn in Hi; [done|].
    apply IHt in Hi as (f & w & j & s & H). by exists f, w, j, s.
Qed.

(** Reconnection is bounded.  Over any sequence of failures, pauses and
    resumptions, a new controller numbers its attempts 1, 2, 3, ... without a
    gap up to at most [max_attempts]; it schedules one only for a failure that
    is neither permanent nor cancelled, while it is not paused, at most twice
    the maximum delay after that failure (at once without backoff), and within
    [max_elapsed_ms] of the first failure it acted on. *)
Theorem reconnect_bounded p limit evs c0 c acts :
  limit_of p = limit -> max_attempts limit <= u32_max -> max_elapsed_ms limit < u64_max ->
  reconnect_new p = Ok c0 -> rcn_run c0 evs = (c, acts) ->
  attempt_numbers acts = N.of_nat <$> seq 1 (N.to_nat (attempts c))
  /\ attempts c <= max_attempts limit
  /\ forall i t n, acts !! i = Some (Some (AttemptAt t n)) ->
       attempt_sound limit p false (started_unix_ms c) evs i t.
Proof.
  intros <- Hm He Hnew Hrun. unfold reconnect_new in Hnew.
  destruct (negb (policy_valid p)) eqn:Hv; [done|]. apply negb_false_iff in Hv.
  cbn in Hnew. simplify_eq.
  eapply rcn_run_bounded in Hrun as (Hb & Hn & _ & Ht); [|done..]. cbn in *.
  rewrite N.sub_0_r in Hn. split_and!; [done|lia|done].
Qed.

Definition sample_backoff : ReconnectPolicy :=
  PolicyBackoff (mkBackoff 100 1000 2000 500 (mkRetryLimit 3 60000)).
Definition sample_events : list rcn_event :=
  [RFail false RfTransportClosed 10 1000; RPause; RFail false RfSleepWake 500 0; RResume;
   RFail false RfNetworkChanged 600 500; RFail false RfSleepWake 900 0;
   RFail false RfSleepWake 1900 0; RFail false RfPairingRevoked 2000 0].

Lemma reconnect_bounded_witness :
  let '(c, acts) := rcn_run (mkReconnect sample_backoff None 0 false) sample_events in
  acts = [Some (AttemptAt 160 1); None; Some AwaitApplication; None; Some (AttemptAt 800 2);
          Some (AttemptAt 1100 3); Some (Stop StopAttemptsExhausted);
          Some (Stop (StopPermanent RfPairingRevoked))]
  /\ attempt_numbers acts = [1; 2; 3]
  /\ attempt_sound (mkRetryLimit 3 60000) sample_backoff false (Some 10) sample_events 4 800.
Proof.
  pose proof (reconnect_bounded sample_backoff (mkRetryLimit 3 60000) sample_events
    (mkReconnect sample_backoff None 0 false)
    (rcn_run (mkReconnect sample_backoff None 0 false) sample_events).1
    (rcn_run (mkReconnect sample_backoff None 0 false) sample_events).2
    eq_refl ltac:(cbn; lia) ltac:(cbn; lia) eq_refl ltac:(apply surjective_pairing)) as (H1 & H2 & H3).
  split; [vm_compute; exact eq_refl|]. split; [exact H1|].
  apply (H3 4%nat 800 2). vm_compute. exact eq_refl.
Defined.
