(* ===== verification/TransportBase.v ===== *)
(** * Transport errors, metadata, operation contexts and budgets

    The declarations of [transport.rs] that the real-time queue and the
    connections share.  An [Instant] is a point of a monotonic clock, counted
    in [N]; the cancellation flag is shared with its owner, so what a call
    observes is the flag's value at the call. *)

From S2P Require Export Identity.
Local Open Scope N_scope.

Module TransportErrorKind.
Inductive t :=
| WouldBlock | TimedOut | Cancelled | Closed | Aborted | MessageTooLarge | Unsupported
| AddressInUse | Other.
#[global] Instance t_eq_dec : EqDecision t.
Proof. solve_decision. Defined.
End TransportErrorKind.

Record TransportError := mkTransportError {
  te_kind : TransportErrorKind.t;
  te_message : string;
}.
#[export] Instance TransportError_eq_dec : EqDecision TransportError.
Proof. solve_decision. Defined.

Record ConnectionMetadata := mkMetadata {
  local_endpoint : EndpointId;
  remote_endpoint : EndpointId;
  peer_hint : option PeerId;
  reliable : bool;
  datagrams : bool;
}.

(** ** Contexts of an operation *)

(** The flag of a [CancellationToken]; [cancel] is a store to it. *)
Definition cancel (flag : bool) : bool := true.
Definition is_cancelled (flag : bool) : bool := flag.

Record OperationContext := mkContext {
  deadline : option N;
  cancellation : bool;
}.
Definition default_context : OperationContext := mkContext None false.

(** [OperationContext::check]. *)
Definition context_check (c : OperationContext) (now : N) : result TransportError () :=
  reject is_cancelled (cancellation c)
    with mkTransportError TransportErrorKind.Cancelled "connection attempt cancelled";
  reject (match deadline c with Some d => d <=? now | None => false end)
    with mkTransportError TransportErrorKind.TimedOut "connection attempt timed out";
  Ok ().

(** ** Budgets of a transport *)

Record TransportBudget := mkTransportBudget {
  max_connections : N;
  max_concurrent_streams : N;
  control_queue_capacity : N;
  data_queue_capacity : N;
  receive_queue_capacity : N;
  max_frame_bytes : N;
  control_bytes_per_second : option N;
  data_bytes_per_second : option N;
  receive_bytes_per_second : option N;
  idle_timeout : option N;
}.
Definition default_transport_budget : TransportBudget :=
  mkTransportBudget 64 64 32 128 128 (1024 * 1024) None None None (Some (60 * 1000000000)).

(** [TransportBudget::validate]. *)
Definition transport_budget_validate (b : TransportBudget) : result TransportError TransportBudget :=
  reject (max_connections b =? 0) || (max_concurrent_streams b =? 0)
         || (control_queue_capacity b =? 0) || (data_queue_capacity b =? 0)
         || (receive_queue_capacity b =? 0) || (max_frame_bytes b =? 0)
         || bool_decide (control_bytes_per_second b = Some 0)
         || bool_decide (data_bytes_per_second b = Some 0)
         || bool_decide (receive_bytes_per_second b = Some 0)
    with mkTransportError TransportErrorKind.Other "transport budget values must be positive";
  Ok b.
