(* ===== verification/Realtime.v ===== *)
(** * The real-time send queue and its datagrams

    Models [realtime.rs].  A flow id is a [u16], a generation a [u32], a
    sequence a [u64]; an [Instant] is a point of a monotonic clock.  Each flow
    has at most one pending group; a newer group replaces it whole.  The queue
    is iterated in flow order, as the [BTreeMap] is. *)

From S2P Require Export TransportBase.
Local Open Scope N_scope.

Definition REALTIME_MAGIC : list byte := str "MLRD".
Definition REALTIME_VERSION : N := 1.
Definition REALTIME_DATAGRAM_HEADER_LEN : N := 20.

Definition invalid_realtime (message : string) : TransportError :=
  mkTransportError TransportErrorKind.Other message.

(** ** Data *)

Module RealtimePriority.
Inductive t := Critical | High | Normal | Disposable.
#[global] Instance t_eq_dec : EqDecision t.
Proof. solve_decision. Defined.

(** [RealtimePriority::code]; the derived order is that of the codes. *)
Definition code (p : t) : N :=
  match p with Critical => 0 | High => 1 | Normal => 2 | Disposable => 3 end.
Definition from_code (c : N) : result TransportError t :=
  match c with
  | 0 => Ok Critical
  | 1 => Ok High
  | 2 => Ok Normal
  | 3 => Ok Disposable
  | _ => Err (invalid_realtime "realtime priority is invalid")
  end.
Definition min (p q : t) : t := if code p <=? code q then p else q.
End RealtimePriority.

(** [RealtimeDatagram] borrows its payload where [QueuedRealtimeDatagram]
    owns it. *)
Record QueuedRealtimeDatagram := mkDatagram {
  rd_flow : N;
  rd_generation : N;
  rd_sequence : N;
  rd_deadline : N;
  rd_priority : RealtimePriority.t;
  rd_payload : list byte;
}.
Abbreviation RealtimeDatagram := QueuedRealtimeDatagram.

Record ReceivedRealtimeDatagram := mkReceived {
  rx_flow : N;
  rx_generation : N;
  rx_sequence : N;
  rx_priority : RealtimePriority.t;
  received_at : N;
  rx_payload : list byte;
}.

Inductive SendOutcome :=
| Enqueued | ReplacedOlder | DroppedExpired | DroppedCongested | Unsupported.
#[export] Instance SendOutcome_eq_dec : EqDecision SendOutcome.
Proof. solve_decision. Defined.

Record RealtimeQueueConfig := mkQueueConfig {
  max_flows : N;
  max_datagrams_per_group : N;
  max_group_bytes : N;
}.
Definition default_queue_config : RealtimeQueueConfig := mkQueueConfig 32 2048 (8 * 1024 * 1024).
Definition queue_config_valid (c : RealtimeQueueConfig) : bool :=
  (0 <? max_flows c) && (0 <? max_datagrams_per_group c) && (0 <? max_group_bytes c).

Record RealtimeFlowTelemetry := mkFlowTelemetry {
  ft_queued : N;
  ft_sent : N;
  ft_sent_bytes : N;
  ft_replaced : N;
  ft_expired : N;
  ft_congestion_dropped : N;
  ft_received : N;
  ft_received_bytes : N;
  ft_receive_queue_overflow : N;
}.
Definition default_flow_telemetry : RealtimeFlowTelemetry :=
  mkFlowTelemetry 0 0 0 0 0 0 0 0 0.

Record RealtimeTelemetry := mkTelemetry {
  rt_queued : N;
  rt_pending : N;
  rt_sent : N;
  rt_sent_bytes : N;
  rt_replaced : N;
  rt_expired : N;
  rt_congestion_dropped : N;
  rt_receive_queue_overflow : N;
  rt_rtt_us : option N;
  rt_estimated_send_rate_bps : option N;
  rt_congestion_events : N;
  rt_current_datagram_payload : option N;
  rt_max_datagram_payload : N;
  rt_mtu_change_count : N;
  rt_migration_count : N;
  rt_reconnect_count : N;
  rt_flows : gmap N RealtimeFlowTelemetry;
}.
Definition default_telemetry : RealtimeTelemetry :=
  mkTelemetry 0 0 0 0 0 0 0 0 None None 0 None 0 0 0 0 ∅.

Inductive RealtimeEvent :=
| DatagramPayloadChanged (previous current : N)
| PathMigrated
| SessionReset.

(** Assignments to a field. *)
Definition set_ft_queued (x : N) (t : RealtimeFlowTelemetry) : RealtimeFlowTelemetry :=
  mkFlowTelemetry x (ft_sent t) (ft_sent_bytes t) (ft_replaced t) (ft_expired t)
    (ft_congestion_dropped t) (ft_received t) (ft_received_bytes t) (ft_receive_queue_overflow t).
Definition set_ft_sent (x : N) (t : RealtimeFlowTelemetry) : RealtimeFlowTelemetry :=
  mkFlowTelemetry (ft_queued t) x (ft_sent_bytes t) (ft_replaced t) (ft_expired t)
    (ft_congestion_dropped t) (ft_received t) (ft_received_bytes t) (ft_receive_queue_overflow t).
Definition set_ft_sent_bytes (x : N) (t : RealtimeFlowTelemetry) : RealtimeFlowTelemetry :=
  mkFlowTelemetry (ft_queued t) (ft_sent t) x (ft_replaced t) (ft_expired t)
    (ft_congestion_dropped t) (ft_received t) (ft_received_bytes t) (ft_receive_queue_overflow t).
Definition set_ft_replaced (x : N) (t : RealtimeFlowTelemetry) : RealtimeFlowTelemetry :=
  mkFlowTelemetry (ft_queued t) (ft_sent t) (ft_sent_bytes t) x (ft_expired t)
    (ft_congestion_dropped t) (ft_received t) (ft_received_bytes t) (ft_receive_queue_overflow t).
Definition set_ft_expired (x : N) (t : RealtimeFlowTelemetry) : RealtimeFlowTelemetry :=
  mkFlowTelemetry (ft_queued t) (ft_sent t) (ft_sent_bytes t) (ft_replaced t) x
    (ft_congestion_dropped t) (ft_received t) (ft_received_bytes t) (ft_receive_queue_overflow t).
Definition set_ft_congestion_dropped (x : N) (t : RealtimeFlowTelemetry) : RealtimeFlowTelemetry
    :=
  mkFlowTelemetry (ft_queued t) (ft_sent t) (ft_sent_bytes t) (ft_replaced t) (ft_expired t) x
    (ft_received t) (ft_received_bytes t) (ft_receive_queue_overflow t).
Definition set_rt_queued (x : N) (t : RealtimeTelemetry) : RealtimeTelemetry :=
  mkTelemetry x (rt_pending t) (rt_sent t) (rt_sent_bytes t) (rt_replaced t) (rt_expired t)
    (rt_congestion_dropped t) (rt_receive_queue_overflow t) (rt_rtt_us t)
    (rt_estimated_send_rate_bps t) (rt_congestion_events t) (rt_current_datagram_payload t)
    (rt_max_datagram_payload t) (rt_mtu_change_count t) (rt_migration_count t) (rt_reconnect_count
    t) (rt_flows t).
Definition set_rt_pending (x : N) (t : RealtimeTelemetry) : RealtimeTelemetry :=
  mkTelemetry (rt_queued t) x (rt_sent t) (rt_sent_bytes t) (rt_replaced t) (rt_expired t)
    (rt_congestion_dropped t) (rt_receive_queue_overflow t) (rt_rtt_us t)
    (rt_estimated_send_rate_bps t) (rt_congestion_events t) (rt_current_datagram_payload t)
    (rt_max_datagram_payload t) (rt_mtu_change_count t) (rt_migration_count t) (rt_reconnect_count
    t) (rt_flows t).
Definition set_rt_sent (x : N) (t : RealtimeTelemetry) : RealtimeTelemetry :=
  mkTelemetry (rt_queued t) (rt_pending t) x (rt_sent_bytes t) (rt_replaced t) (rt_expired t)
    (rt_congestion_dropped t) (rt_receive_queue_overflow t) (rt_rtt_us t)
    (rt_estimated_send_rate_bps t) (rt_congestion_events t) (rt_current_datagram_payload t)
    (rt_max_datagram_payload t) (rt_mtu_change_count t) (rt_migration_count t) (rt_reconnect_count
    t) (rt_flows t).
Definition set_rt_sent_bytes (x : N) (t : RealtimeTelemetry) : RealtimeTelemetry :=
  mkTelemetry (rt_queued t) (rt_pending t) (rt_sent t) x (rt_replaced t) (rt_expired t)
    (rt_congestion_dropped t) (rt_receive_queue_overflow t) (rt_rtt_us t)
    (rt_estimated_send_rate_bps t) (rt_congestion_events t) (rt_current_datagram_payload t)
    (rt_max_datagram_payload t) (rt_mtu_change_count t) (rt_migration_count t) (rt_reconnect_count
    t) (rt_flows t).
Definition set_rt_replaced (x : N) (t : RealtimeTelemetry) : RealtimeTelemetry :=
  mkTelemetry (rt_queued t) (rt_pending t) (rt_sent t) (rt_sent_bytes t) x (rt_expired t)
    (rt_congestion_dropped t) (rt_receive_queue_overflow t) (rt_rtt_us t)
    (rt_estimated_send_rate_bps t) (rt_congestion_events t) (rt_current_datagram_payload t)
    (rt_max_datagram_payload t) (rt_mtu_change_count t) (rt_migration_count t) (rt_reconnect_count
    t) (rt_flows t).
Definition set_rt_expired (x : N) (t : RealtimeTelemetry) : RealtimeTelemetry :=
  mkTelemetry (rt_queued t) (rt_pending t) (rt_sent t) (rt_sent_bytes t) (rt_replaced t) x
    (rt_congestion_dropped t) (rt_receive_queue_overflow t) (rt_rtt_us t)
    (rt_estimated_send_rate_bps t) (rt_congestion_events t) (rt_current_datagram_payload t)
    (rt_max_datagram_payload t) (rt_mtu_change_count t) (rt_migration_count t) (rt_reconnect_count
    t) (rt_flows t).
Definition set_rt_congestion_dropped (x : N) (t : RealtimeTelemetry) : RealtimeTelemetry :=
  mkTelemetry (rt_queued t) (rt_pending t) (rt_sent t) (rt_sent_bytes t) (rt_replaced t)
    (rt_expired t) x (rt_receive_queue_overflow t) (rt_rtt_us t) (rt_estimated_send_rate_bps t)
    (rt_congestion_events t) (rt_current_datagram_payload t) (rt_max_datagram_payload t)
    (rt_mtu_change_count t) (rt_migration_count t) (rt_reconnect_count t) (rt_flows t).
Definition set_rt_rtt_us (x : option N) (t : RealtimeTelemetry) : RealtimeTelemetry :=
  mkTelemetry (rt_queued t) (rt_pending t) (rt_sent t) (rt_sent_bytes t) (rt_replaced t)
    (rt_expired t) (rt_congestion_dropped t) (rt_receive_queue_overflow t) x
    (rt_estimated_send_rate_bps t) (rt_congestion_events t) (rt_current_datagram_payload t)
    (rt_max_datagram_payload t) (rt_mtu_change_count t) (rt_migration_count t) (rt_reconnect_count
    t) (rt_flows t).
Definition set_rt_estimated_send_rate_bps (x : option N) (t : RealtimeTelemetry) :
    RealtimeTelemetry :=
  mkTelemetry (rt_queued t) (rt_pending t) (rt_sent t) (rt_sent_bytes t) (rt_replaced t)
    (rt_expired t) (rt_congestion_dropped t) (rt_receive_queue_overflow t) (rt_rtt_us t) x
    (rt_congestion_events t) (rt_current_datagram_payload t) (rt_max_datagram_payload t)
    (rt_mtu_change_count t) (rt_migration_count t) (rt_reconnect_count t) (rt_flows t).
Definition set_rt_congestion_events (x : N) (t : RealtimeTelemetry) : RealtimeTelemetry :=
  mkTelemetry (rt_queued t) (rt_pending t) (rt_sent t) (rt_sent_bytes t) (rt_replaced t)
    (rt_expired t) (rt_congestion_dropped t) (rt_receive_queue_overflow t) (rt_rtt_us t)
    (rt_estimated_send_rate_bps t) x (rt_current_datagram_payload t) (rt_max_datagram_payload t)
    (rt_mtu_change_count t) (rt_migration_count t) (rt_reconnect_count t) (rt_flows t).
Definition set_rt_current_datagram_payload (x : option N) (t : RealtimeTelemetry) :
    RealtimeTelemetry :=
  mkTelemetry (rt_queued t) (rt_pending t) (rt_sent t) (rt_sent_bytes t) (rt_replaced t)
    (rt_expired t) (rt_congestion_dropped t) (rt_receive_queue_overflow t) (rt_rtt_us t)
    (rt_estimated_send_rate_bps t) (rt_congestion_events t) x (rt_max_datagram_payload t)
    (rt_mtu_change_count t) (rt_migration_count t) (rt_reconnect_count t) (rt_flows t).
Definition set_rt_max_datagram_payload (x : N) (t : RealtimeTelemetry) : RealtimeTelemetry :=
  mkTelemetry (rt_queued t) (rt_pending t) (rt_sent t) (rt_sent_bytes t) (rt_replaced t)
    (rt_expired t) (rt_congestion_dropped t) (rt_receive_queue_overflow t) (rt_rtt_us t)
    (rt_estimated_send_rate_bps t) (rt_congestion_events t) (rt_current_datagram_payload t) x
    (rt_mtu_change_count t) (rt_migration_count t) (rt_reconnect_count t) (rt_flows t).
Definition set_rt_mtu_change_count (x : N) (t : RealtimeTelemetry) : RealtimeTelemetry :=
  mkTelemetry (rt_queued t) (rt_pending t) (rt_sent t) (rt_sent_bytes t) (rt_replaced t)
    (rt_expired t) (rt_congestion_dropped t) (rt_receive_queue_overflow t) (rt_rtt_us t)
    (rt_estimated_send_rate_bps t) (rt_congestion_events t) (rt_current_datagram_payload t)
    (rt_max_datagram_payload t) x (rt_migration_count t) (rt_reconnect_count t) (rt_flows t).
Definition set_rt_migration_count (x : N) (t : RealtimeTelemetry) : RealtimeTelemetry :=
  mkTelemetry (rt_queued t) (rt_pending t) (rt_sent t) (rt_sent_bytes t) (rt_replaced t)
    (rt_expired t) (rt_congestion_dropped t) (rt_receive_queue_overflow t) (rt_rtt_us t)
    (rt_estimated_send_rate_bps t) (rt_congestion_events t) (rt_current_datagram_payload t)
    (rt_max_datagram_payload t) (rt_mtu_change_count t) x (rt_reconnect_count t) (rt_flows t).
Definition set_rt_reconnect_count (x : N) (t : RealtimeTelemetry) : RealtimeTelemetry :=
  mkTelemetry (rt_queued t) (rt_pending t) (rt_sent t) (rt_sent_bytes t) (rt_replaced t)
    (rt_expired t) (rt_congestion_dropped t) (rt_receive_queue_overflow t) (rt_rtt_us t)
    (rt_estimated_send_rate_bps t) (rt_congestion_events t) (rt_current_datagram_payload t)
    (rt_max_datagram_payload t) (rt_mtu_change_count t) (rt_migration_count t) x (rt_flows t).
Definition set_rt_flows (x : gmap N RealtimeFlowTelemetry) (t : RealtimeTelemetry) :
    RealtimeTelemetry :=
  mkTelemetry (rt_queued t) (rt_pending t) (rt_sent t) (rt_sent_bytes t) (rt_replaced t)
    (rt_expired t) (rt_congestion_dropped t) (rt_receive_queue_overflow t) (rt_rtt_us t)
    (rt_estimated_send_rate_bps t) (rt_congestion_events t) (rt_current_datagram_payload t)
    (rt_max_datagram_payload t) (rt_mtu_change_count t) (rt_migration_count t) (rt_reconnect_count
    t) x.

Record PendingGroup := mkGroup {
  pg_generation : N;
  pg_sequence : N;
  pg_deadline : N;
  pg_priority : RealtimePriority.t;
  pg_datagrams : list (list byte);
  payload_bytes : N;
  insertion_order : N;
}.

Record RealtimeSendQueue := mkQueue {
  config : RealtimeQueueConfig;
  max_payload : N;
  groups : gmap N PendingGroup;
  queue_telemetry : RealtimeTelemetry;
  next_insertion_order : N;
  transport_congestion_events : N;
}.
Definition set_groups (gs : gmap N PendingGroup) (q : RealtimeSendQueue) : RealtimeSendQueue :=
  mkQueue (config q) (max_payload q) gs (queue_telemetry q) (next_insertion_order q)
    (transport_congestion_events q).
Definition with_telemetry (f : RealtimeTelemetry -> RealtimeTelemetry) (q : RealtimeSendQueue)
    : RealtimeSendQueue :=
  mkQueue (config q) (max_payload q) (groups q) (f (queue_telemetry q)) (next_insertion_order q)
    (transport_congestion_events q).

(** ** Serial numbers *)

Inductive GroupOrder := Older | Same | Newer.

(** [candidate.wrapping_sub(current)] at a type of [2 ^ w] values. *)
Definition wrapping_sub (w x y : N) : N := (x + 2 ^ w - y) mod 2 ^ w.
Definition is_newer_u32 (candidate current : N) : bool :=
  let difference := wrapping_sub 32 candidate current in
  negb (difference =? 0) && (difference <? 2 ^ 31).
Definition is_newer_u64 (candidate current : N) : bool :=
  let difference := wrapping_sub 64 candidate current in
  negb (difference =? 0) && (difference <? 2 ^ 63).

Definition compare_group (candidate_generation candidate_sequence current_generation
    current_sequence : N) : GroupOrder :=
  if candidate_generation =? current_generation then
    if candidate_sequence =? current_sequence then Same
    else if is_newer_u64 candidate_sequence current_sequence then Newer
    else Older
  else if is_newer_u32 candidate_generation current_generation then Newer
  else Older.

(** ** Telemetry *)

(** [telemetry.flows.entry(flow).or_default()], updated. *)
Definition on_flow (flow : N) (f : RealtimeFlowTelemetry -> RealtimeFlowTelemetry)
    (t : RealtimeTelemetry) : RealtimeTelemetry :=
  set_rt_flows (<[flow := f (default default_flow_telemetry (rt_flows t !! flow))]> (rt_flows t)) t.

Definition note_queued (flow : N) : RealtimeSendQueue -> RealtimeSendQueue :=
  with_telemetry (fun t =>
    on_flow flow (fun s => set_ft_queued (sat_add u64_max (ft_queued s) 1) s)
      (set_rt_queued (sat_add u64_max (rt_queued t) 1) t)).
Definition note_replaced (flow count : N) : RealtimeSendQueue -> RealtimeSendQueue :=
  with_telemetry (fun t =>
    on_flow flow (fun s => set_ft_replaced (sat_add u64_max (ft_replaced s) count) s)
      (set_rt_replaced (sat_add u64_max (rt_replaced t) count) t)).
Definition note_expired (flow count : N) : RealtimeSendQueue -> RealtimeSendQueue :=
  with_telemetry (fun t =>
    on_flow flow (fun s => set_ft_expired (sat_add u64_max (ft_expired s) count) s)
      (set_rt_expired (sat_add u64_max (rt_expired t) count) t)).
Definition note_congestion_drop (flow count : N) : RealtimeSendQueue -> RealtimeSendQueue :=
  with_telemetry (fun t =>
    on_flow flow
      (fun s => set_ft_congestion_dropped (sat_add u64_max (ft_congestion_dropped s) count) s)
      (set_rt_congestion_dropped (sat_add u64_max (rt_congestion_dropped t) count) t)).

Definition note_sent (d : QueuedRealtimeDatagram) : RealtimeSendQueue -> RealtimeSendQueue :=
  with_telemetry (fun t =>
    on_flow (rd_flow d)
      (fun s => set_ft_sent_bytes (sat_add u64_max (ft_sent_bytes s) (len (rd_payload d)))
                  (set_ft_sent (sat_add u64_max (ft_sent s) 1) s))
      (set_rt_sent_bytes (sat_add u64_max (rt_sent_bytes t) (len (rd_payload d)))
         (set_rt_sent (sat_add u64_max (rt_sent t) 1) t))).
Definition note_transport_congestion : RealtimeSendQueue -> RealtimeSendQueue :=
  with_telemetry (fun t => set_rt_congestion_events (sat_add u64_max (rt_congestion_events t) 1) t).
Definition note_migration : RealtimeSendQueue -> RealtimeSendQueue :=
  with_telemetry (fun t => set_rt_migration_count (sat_add u64_max (rt_migration_count t) 1) t).

Definition note_network_metrics (rtt_us : N) (estimated : option N) (events : N)
    (q : RealtimeSendQueue) : RealtimeSendQueue :=
  let new_events := events - transport_congestion_events q in
  let q := with_telemetry (fun t =>
    set_rt_congestion_events (sat_add u64_max (rt_congestion_events t) new_events)
      (set_rt_estimated_send_rate_bps estimated (set_rt_rtt_us (Some rtt_us) t))) q in
  mkQueue (config q) (max_payload q) (groups q) (queue_telemetry q) (next_insertion_order q) events.

(** [pending_datagrams], [telemetry] and [congestion_dropped_for_flow]. *)
Definition pending_datagrams (q : RealtimeSendQueue) : N :=
  N.of_nat (map_total (fun g => length (pg_datagrams g)) (groups q)).
Definition telemetry (q : RealtimeSendQueue) : RealtimeTelemetry :=
  set_rt_pending (pending_datagrams q) (queue_telemetry q).
Definition congestion_dropped_for_flow (q : RealtimeSendQueue) (flow : N) : N :=
  match rt_flows (queue_telemetry q) !! flow with
  | Some stats => ft_congestion_dropped stats
  | None => 0
  end.

(** ** The queue *)

Definition realtime_queue_new (c : RealtimeQueueConfig) (max_payload : N)
    : result TransportError RealtimeSendQueue :=
  reject negb (queue_config_valid c) || (max_payload =? 0)
    with invalid_realtime "realtime queue limits must be positive";
  Ok (mkQueue c max_payload ∅
        (set_rt_max_datagram_payload max_payload
           (set_rt_current_datagram_payload (Some max_payload) default_telemetry)) 0 0).

Inductive DropReason := Replaced | Expired | Congested.

Definition drop_flow_group (flow : N) (reason : DropReason) (q : RealtimeSendQueue)
    : RealtimeSendQueue * N :=
  match groups q !! flow with
  | None => (q, 0)
  | Some group =>
    let q := set_groups (delete flow (groups q)) q in
    let count := len (pg_datagrams group) in
    (match reason with
     | Replaced => note_replaced flow count q
     | Expired => note_expired flow count q
     | Congested => note_congestion_drop flow count q
     end, count)
  end.

(** The loops that drop the groups of the listed flows, in order. *)
Fixpoint drop_flow_groups (flows : list N) (reason : DropReason) (q : RealtimeSendQueue)
    : RealtimeSendQueue * N :=
  match flows with
  | [] => (q, 0)
  | flow :: flows =>
    let '(q, n) := drop_flow_group flow reason q in
    let '(q, m) := drop_flow_groups flows reason q in (q, n + m)
  end.

(** The flows whose groups satisfy a test, in flow order. *)
Definition flows_where (p : PendingGroup -> bool) (q : RealtimeSendQueue) : list N :=
  (List.filter (fun e => p e.2) (btree_iter (groups q))).*1.

Definition expire (now : N) (q : RealtimeSendQueue) : RealtimeSendQueue * N :=
  drop_flow_groups (flows_where (fun g => pg_deadline g <=? now) q) Expired q.
Definition drop_disposable_for_congestion (q : RealtimeSendQueue) : RealtimeSendQueue * N :=
  drop_flow_groups
    (flows_where (fun g => bool_decide (pg_priority g = RealtimePriority.Disposable)) q) Congested q.

(** [min_by_key] keeps the first least element, [max_by_key] the last greatest. *)
Definition min_by {A} (lt : A -> A -> bool) (l : list A) : option A :=
  fold_left (fun best x =>
    match best with Some y => Some (if lt x y then x else y) | None => Some x end) l None.
Definition max_by {A} (lt : A -> A -> bool) (l : list A) : option A :=
  fold_left (fun best x =>
    match best with Some y => Some (if lt x y then y else x) | None => Some x end) l None.

(** The key [(priority, insertion_order, flow)], lexicographically. *)
Definition rank (g : PendingGroup) : N := RealtimePriority.code (pg_priority g).
Definition insertion_lt (e1 e2 : N * PendingGroup) : bool :=
  (insertion_order e1.2 <? insertion_order e2.2)
  || (insertion_order e1.2 =? insertion_order e2.2) && (e1.1 <? e2.1).
Definition next_lt (e1 e2 : N * PendingGroup) : bool :=
  (rank e1.2 <? rank e2.2) || (rank e1.2 =? rank e2.2) && insertion_lt e1 e2.
(** The key [(priority, Reverse(insertion_order))]. *)
Definition victim_lt (e1 e2 : N * PendingGroup) : bool :=
  (rank e1.2 <? rank e2.2)
  || (rank e1.2 =? rank e2.2) && (insertion_order e2.2 <? insertion_order e1.2).

Definition next_flow (q : RealtimeSendQueue) : option N :=
  fst <$> min_by next_lt (btree_iter (groups q)).

Definition evict_lower_priority (incoming : RealtimePriority.t) (q : RealtimeSendQueue)
    : RealtimeSendQueue * bool :=
  match max_by victim_lt
          (List.filter (fun e => RealtimePriority.code incoming <? rank e.2) (btree_iter (groups q)))
  with
  | Some (flow, _) => ((drop_flow_group flow Congested q).1, true)
  | None => (q, false)
  end.

Definition append_to_group (d : RealtimeDatagram) (group : PendingGroup) (q : RealtimeSendQueue)
    : RealtimeSendQueue * result TransportError SendOutcome :=
  match checked_add usize_max (payload_bytes group) (len (rd_payload d)) with
  | None => (q, Err (invalid_realtime "realtime group size overflow"))
  | Some bytes =>
    if (max_datagrams_per_group (config q) <=? len (pg_datagrams group))
       || (max_group_bytes (config q) <? bytes)
    then
      let dropped := sat_add usize_max (len (pg_datagrams group)) 1 in
      (note_congestion_drop (rd_flow d) dropped (set_groups (delete (rd_flow d) (groups q)) q),
       Ok DroppedCongested)
    else
      let group :=
        mkGroup (pg_generation group) (pg_sequence group)
          (N.min (pg_deadline group) (rd_deadline d))
          (RealtimePriority.min (pg_priority group) (rd_priority d))
          (pg_datagrams group ++ [rd_payload d]) bytes (insertion_order group) in
      (note_queued (rd_flow d) (set_groups (<[rd_flow d := group]> (groups q)) q), Ok Enqueued)
  end.

(** The tail of [enqueue]: the datagram starts the flow's only group. *)
Definition start_group (d : RealtimeDatagram) (q : RealtimeSendQueue)
    : RealtimeSendQueue * result TransportError SendOutcome :=
  let '(q, replaced) := drop_flow_group (rd_flow d) Replaced q in
  let group :=
    mkGroup (rd_generation d) (rd_sequence d) (rd_deadline d) (rd_priority d) [rd_payload d]
      (len (rd_payload d)) (next_insertion_order q) in
  let q :=
    mkQueue (config q) (max_payload q) (<[rd_flow d := group]> (groups q)) (queue_telemetry q)
      ((next_insertion_order q + 1) mod 2 ^ 64) (transport_congestion_events q) in
  (note_queued (rd_flow d) q, Ok (if 0 <? replaced then ReplacedOlder else Enqueued)).

Definition enqueue (d : RealtimeDatagram) (now : N) (q : RealtimeSendQueue)
    : RealtimeSendQueue * result TransportError SendOutcome :=
  let q := (expire now q).1 in
  if max_payload q <? len (rd_payload d) then
    (q, Err (mkTransportError TransportErrorKind.MessageTooLarge
               "realtime datagram exceeds path payload limit"))
  else if rd_deadline d <=? now then (note_expired (rd_flow d) 1 q, Ok DroppedExpired)
  else
    match groups q !! rd_flow d with
    | Some group =>
      match compare_group (rd_generation d) (rd_sequence d) (pg_generation group)
              (pg_sequence group) with
      | Older => (note_congestion_drop (rd_flow d) 1 q, Ok DroppedCongested)
      | Same => append_to_group d group q
      | Newer => start_group d q
      end
    | None =>
      if max_flows (config q) <=? card (groups q) then
        let '(q, evicted) := evict_lower_priority (rd_priority d) q in
        if evicted then start_group d q
        else (note_congestion_drop (rd_flow d) 1 q, Ok DroppedCongested)
      else start_group d q
    end.

Definition wire_len (group : PendingGroup) : option N :=
  match pg_datagrams group with
  | payload :: _ => checked_add usize_max REALTIME_DATAGRAM_HEADER_LEN (len payload)
  | [] => None
  end.

Definition peek_next_wire_len (now : N) (q : RealtimeSendQueue) : RealtimeSendQueue * option N :=
  let q := (expire now q).1 in
  (q, flow ← next_flow q; group ← groups q !! flow; wire_len group).

Definition pop_flow (flow : N) (q : RealtimeSendQueue)
    : RealtimeSendQueue * option QueuedRealtimeDatagram :=
  match groups q !! flow with
  | None => (q, None)
  | Some group =>
    match pg_datagrams group with
    | [] => (q, None)
    | payload :: rest =>
      let d := mkDatagram flow (pg_generation group) (pg_sequence group) (pg_deadline group)
                 (pg_priority group) payload in
      let group :=
        mkGroup (pg_generation group) (pg_sequence group) (pg_deadline group) (pg_priority group)
          rest (payload_bytes group) (insertion_order group) in
      (set_groups (match rest with
                   | [] => delete flow (groups q)
                   | _ => <[flow := group]> (groups q)
                   end) q, Some d)
    end
  end.

Definition pop_next (now : N) (q : RealtimeSendQueue)
    : RealtimeSendQueue * option QueuedRealtimeDatagram :=
  let q := (expire now q).1 in
  match next_flow q with
  | Some flow => pop_flow flow q
  | None => (q, None)
  end.

(** Among the groups of the best priority, the oldest that fits. *)
Definition fits (max_wire_len : N) (g : PendingGroup) : bool :=
  match wire_len g with Some n => n <=? max_wire_len | None => false end.
Definition pop_next_fitting (now max_wire_len : N) (q : RealtimeSendQueue)
    : RealtimeSendQueue * option QueuedRealtimeDatagram :=
  let q := (expire now q).1 in
  match min_by (fun e1 e2 => rank e1.2 <? rank e2.2) (btree_iter (groups q)) with
  | None => (q, None)
  | Some (_, best) =>
    match min_by insertion_lt
            (List.filter (fun e => bool_decide (pg_priority e.2 = pg_priority best)
                                   && fits max_wire_len e.2) (btree_iter (groups q)))
    with
    | Some (flow, _) => pop_flow flow q
    | None => (q, None)
    end
  end.

Definition oversized (max_payload : N) (g : PendingGroup) : bool :=
  existsb (fun payload => max_payload <? len payload) (pg_datagrams g).
Definition set_max_payload (max : N) (q : RealtimeSendQueue)
    : RealtimeSendQueue * result TransportError bool :=
  if max =? 0 then (q, Err (invalid_realtime "realtime payload limit must be positive"))
  else if max =? max_payload q then (q, Ok false)
  else
    let previous := max_payload q in
    let q := mkQueue (config q) max (groups q) (queue_telemetry q) (next_insertion_order q)
               (transport_congestion_events q) in
    let q := with_telemetry (fun t =>
      set_rt_mtu_change_count (sat_add u64_max (rt_mtu_change_count t) 1)
        (set_rt_max_datagram_payload (N.max (rt_max_datagram_payload t) max)
           (set_rt_current_datagram_payload (Some max) t))) q in
    (if max <? previous
     then (drop_flow_groups (flows_where (oversized max) q) Congested q).1
     else q, Ok true).

Definition clear_pending (q : RealtimeSendQueue) : RealtimeSendQueue := set_groups ∅ q.
Definition reset_for_reconnect (q : RealtimeSendQueue) : RealtimeSendQueue :=
  with_telemetry (fun t =>
    set_rt_pending 0 (set_rt_reconnect_count (sat_add u64_max (rt_reconnect_count t) 1) t))
    (clear_pending q).

(** ** Wire form *)

Definition encode_realtime_datagram (d : QueuedRealtimeDatagram)
    : result TransportError (list byte) :=
  _ ← ok_or (invalid_realtime "realtime datagram size overflow")
        (checked_add usize_max REALTIME_DATAGRAM_HEADER_LEN (len (rd_payload d)));
  Ok (REALTIME_MAGIC ++ [byte_of_n REALTIME_VERSION]
      ++ [byte_of_n (RealtimePriority.code (rd_priority d))]
      ++ be_bytes 2 (rd_flow d) ++ be_bytes 4 (rd_generation d) ++ be_bytes 8 (rd_sequence d)
      ++ rd_payload d).

(** [encoded[first..last]], where the bounds were checked. *)
Definition field (first last : nat) (l : list byte) : list byte := take (last - first) (drop first l).
Definition header_ok (encoded : list byte) : bool :=
  bool_decide (field 0 4 encoded = REALTIME_MAGIC)
  && bool_decide (field 4 5 encoded = [byte_of_n REALTIME_VERSION]).

Definition decode_realtime_datagram (encoded : list byte) (received_at : N)
    : result TransportError ReceivedRealtimeDatagram :=
  reject len encoded <? REALTIME_DATAGRAM_HEADER_LEN
    with invalid_realtime "realtime datagram is truncated";
  reject negb (header_ok encoded) with invalid_realtime "realtime datagram header is invalid";
  priority ← RealtimePriority.from_code (from_be_bytes (field 5 6 encoded));
  Ok (mkReceived (from_be_bytes (field 6 8 encoded)) (from_be_bytes (field 8 12 encoded))
        (from_be_bytes (field 12 20 encoded)) priority received_at (drop 20 encoded)).

Definition realtime_flow_from_wire (encoded : list byte) : option N :=
  if (REALTIME_DATAGRAM_HEADER_LEN <=? len encoded) && header_ok encoded
  then Some (from_be_bytes (field 6 8 encoded)) else None.
