(* ===== verification/RealtimeFacts.v ===== *)
(** * Facts about the real-time queue: its groups and its accounts *)

From S2P Require Export Realtime.
Local Open Scope N_scope.

(** ** Serial numbers

    Of two different numbers at most one is newer than the other; exactly one
    is, unless they are half the range apart. *)

Lemma wrapping_sub_cases w x y :
  x < 2 ^ w -> y < 2 ^ w ->
  wrapping_sub w x y = if y <=? x then x - y else x + 2 ^ w - y.
Proof.
  intros Hx Hy. unfold wrapping_sub. destruct (N.leb_spec y x).
  - replace (x + 2 ^ w - y) with (x - y + 1 * 2 ^ w) by lia.
    rewrite N.Div0.mod_add. apply N.mod_small. lia.
  - apply N.mod_small. lia.
Qed.

Lemma compare_group_antisym g1 s1 g2 s2 :
  g1 < 2 ^ 32 -> g2 < 2 ^ 32 -> s1 < 2 ^ 64 -> s2 < 2 ^ 64 ->
  compare_group g1 s1 g2 s2 = Newer -> compare_group g2 s2 g1 s1 = Older.
Proof.
  intros Hg1 Hg2 Hs1 Hs2. unfold compare_group, is_newer_u32, is_newer_u64.
  rewrite !(wrapping_sub_cases 32), !(wrapping_sub_cases 64) by done.
  rewrite (N.eqb_sym g2 g1), (N.eqb_sym s2 s1).
  change (2 ^ 32) with 4294967296 in *. change (2 ^ 31) with 2147483648.
  change (2 ^ 64) with 18446744073709551616 in *. change (2 ^ 63) with 9223372036854775808.
  destruct (N.eqb_spec g1 g2), (N.eqb_spec s1 s2); try done;
    repeat match goal with |- context [?a <=? ?b] => destruct (N.leb_spec a b) end; try lia;
    repeat match goal with |- context [?a =? ?b] => destruct (N.eqb_spec a b) end; try lia; cbn;
    repeat match goal with |- context [?a <? ?b] => destruct (N.ltb_spec a b) end; try lia; done.
Qed.

(** ** Choosing among groups *)

Section choose.
Context {A : Type} (lt : A -> A -> bool).

Lemma min_by_fold l best x :
  fold_left (fun best x =>
    match best with Some y => Some (if lt x y then x else y) | None => Some x end) l best = Some x ->
  best = Some x \/ x ∈ l.
Proof.
  revert best. induction l as [|y l IH]; intros best; cbn; [auto|].
  intros [H|H]%IH; [|right; by apply list_elem_of_further].
  destruct best as [z|]; [|right; simplify_eq; apply list_elem_of_here].
  destruct (lt y z); simplify_eq; [right; apply list_elem_of_here|by left].
Qed.
Lemma min_by_elem l x : min_by lt l = Some x -> x ∈ l.
Proof. intros [H|H]%min_by_fold; done. Qed.

Lemma max_by_fold l best x :
  fold_left (fun best x =>
    match best with Some y => Some (if lt x y then y else x) | None => Some x end) l best = Some x ->
  best = Some x \/ x ∈ l.
Proof.
  revert best. induction l as [|y l IH]; intros best; cbn; [auto|].
  intros [H|H]%IH; [|right; by apply list_elem_of_further].
  destruct best as [z|]; [|right; simplify_eq; apply list_elem_of_here].
  destruct (lt y z); simplify_eq; [by left|right; apply list_elem_of_here].
Qed.
Lemma max_by_elem l x : max_by lt l = Some x -> x ∈ l.
Proof. intros [H|H]%max_by_fold; done. Qed.

Lemma min_by_some l : l <> [] -> is_Some (min_by lt l).
Proof.
  assert (forall l y, is_Some (fold_left (fun best x =>
    match best with Some y => Some (if lt x y then x else y) | None => Some x end) l (Some y)))
    as Hs.
  { clear. induction l as [|x l IH]; intros y; cbn; eauto. }
  destruct l as [|x l]; [done|]. intros _. apply Hs.
Qed.

(** The element chosen is below every other, for a total order's strict part. *)
Context (lt_trans : forall x y z, lt x y = false -> lt y z = false -> lt x z = false).
Context (lt_asym : forall x y, lt x y = true -> lt y x = false).
Lemma min_by_least l x : min_by lt l = Some x -> forall y, y ∈ l -> lt y x = false.
Proof.
  enough (forall l best x,
    fold_left (fun best x =>
      match best with Some y => Some (if lt x y then x else y) | None => Some x end) l best = Some x ->
    (forall y, best = Some y -> lt y x = false) /\ (forall y, y ∈ l -> lt y x = false)) as H.
  { intros Hm. by apply H in Hm as [_ ?]. }
  assert (forall y, lt y y = false) as Hirr.
  { intros y. destruct (lt y y) eqn:E; [|done]. pose proof (lt_asym _ _ E). congruence. }
  clear l x. induction l as [|z l IH]; intros best x Hf; cbn in Hf.
  { split; [|by intros ? ?%not_elem_of_nil]. intros y ->. simplify_eq. apply Hirr. }
  apply IH in Hf as [Hb Hl]. destruct best as [b|].
  - destruct (lt z b) eqn:Hzb.
    + specialize (Hb z eq_refl). split.
      * intros y [= <-]. eauto.
      * intros y [->|?]%elem_of_cons; auto.
    + specialize (Hb b eq_refl). split; [by intros y [= <-]|].
      intros y [->|?]%elem_of_cons; eauto.
  - specialize (Hb z eq_refl). split; [done|]. intros y [->|?]%elem_of_cons; auto.
Qed.
End choose.

(** ** What each operation does to the groups *)

Lemma drop_flow_group_same f r q :
  let q' := (drop_flow_group f r q).1 in
  groups q' = delete f (groups q) /\ config q' = config q /\ max_payload q' = max_payload q
  /\ next_insertion_order q' = next_insertion_order q.
Proof.
  unfold drop_flow_group. destruct (groups q !! f) as [g|] eqn:E; [by destruct r|].
  cbn. by rewrite delete_id.
Qed.

Lemma drop_flow_groups_same fs r q :
  let q' := (drop_flow_groups fs r q).1 in
  (forall f g, groups q' !! f = Some g <-> groups q !! f = Some g /\ (f ∉ fs))
  /\ config q' = config q /\ max_payload q' = max_payload q
  /\ next_insertion_order q' = next_insertion_order q.
Proof.
  revert q. induction fs as [|f fs IH]; intros q; cbn.
  { split_and!; try done. intros f g. split; [|tauto]. intros ?. split; [done|]. apply not_elem_of_nil. }
  pose proof (drop_flow_group_same f r q) as (Hg & Hc & Hm & Ho).
  destruct (drop_flow_group f r q) as [q1 n]. cbn in *.
  pose proof (IH q1) as (IHg & IHc & IHm & IHo).
  destruct (drop_flow_groups fs r q1) as [q2 m]. cbn in *.
  split_and!; [|congruence..]. intros f' g. rewrite IHg, Hg, lookup_delete_Some, not_elem_of_cons.
  naive_solver.
Qed.

Lemma elem_of_flows_where p q f :
  f ∈ flows_where p q <-> exists g, groups q !! f = Some g /\ p g = true.
Proof.
  unfold flows_where. rewrite list_elem_of_fmap. split.
  - intros ([f' g] & -> & [H1 H2]%list_elem_of_In%filter_In). exists g.
    split; [|done]. by apply elem_of_btree_iter, list_elem_of_In.
  - intros (g & H1 & H2). exists (f, g). split; [done|]. apply list_elem_of_In, filter_In.
    split; [|done]. by apply list_elem_of_In, elem_of_btree_iter.
Qed.

Lemma drop_where_same p r q :
  let q' := (drop_flow_groups (flows_where p q) r q).1 in
  (forall f g, groups q' !! f = Some g <-> groups q !! f = Some g /\ p g = false)
  /\ config q' = config q /\ max_payload q' = max_payload q
  /\ next_insertion_order q' = next_insertion_order q.
Proof.
  cbn. pose proof (drop_flow_groups_same (flows_where p q) r q) as (Hg & ?).
  split; [|done]. intros f g. rewrite Hg, elem_of_flows_where. split.
  - intros [H1 H2]. split; [done|]. destruct (p g) eqn:E; [|done]. destruct H2. eauto.
  - intros [H1 H2]. split; [done|]. intros (g' & ? & ?). simplify_eq. congruence.
Qed.

Lemma expire_same now q :
  let q' := (expire now q).1 in
  (forall f g, groups q' !! f = Some g <-> groups q !! f = Some g /\ now < pg_deadline g)
  /\ config q' = config q /\ max_payload q' = max_payload q
  /\ next_insertion_order q' = next_insertion_order q.
Proof.
  cbn. pose proof (drop_where_same (fun g => pg_deadline g <=? now) Expired q) as (Hg & ?).
  split; [|done]. intros f g. unfold expire. by rewrite Hg, N.leb_gt.
Qed.

Lemma next_flow_lookup q f : next_flow q = Some f -> is_Some (groups q !! f).
Proof.
  unfold next_flow. intros ([f' g] & H%min_by_elem & ->)%fmap_Some. cbn.
  apply elem_of_btree_iter in H. eauto.
Qed.

(** ** The account of a queue

    What the telemetry says was replaced, expired or dropped, and what is
    pending. *)

Definition settled (q : RealtimeSendQueue) : N :=
  let t := queue_telemetry q in rt_replaced t + rt_expired t + rt_congestion_dropped t.
Definition account (q : RealtimeSendQueue) : N := settled q + pending_datagrams q.

Abbreviation group_size := (fun g => length (pg_datagrams g)).

Lemma drop_flow_group_account f r q :
  account q <= u64_max -> account (drop_flow_group f r q).1 = account q.
Proof.
  unfold account, drop_flow_group, pending_datagrams. intros Ha.
  destruct (groups q !! f) as [g|] eqn:E; [|done].
  pose proof (map_total_delete group_size (groups q) f g E).
  destruct r; unfold settled in *; cbn in *; unfold sat_add in *; lia.
Qed.

Lemma drop_flow_groups_account fs r q :
  account q <= u64_max -> account (drop_flow_groups fs r q).1 = account q.
Proof.
  revert q. induction fs as [|f fs IH]; intros q Ha; cbn; [done|].
  pose proof (drop_flow_group_account f r q Ha) as H1.
  destruct (drop_flow_group f r q) as [q1 n]. cbn in H1.
  specialize (IH q1 ltac:(lia)). destruct (drop_flow_groups fs r q1) as [q2 m]. cbn in *. lia.
Qed.

Lemma expire_account now q : account q <= u64_max -> account (expire now q).1 = account q.
Proof. apply drop_flow_groups_account. Qed.

Lemma start_group_account d q :
  account q < u64_max -> account (start_group d q).1 = account q + 1.
Proof.
  intros Ha. unfold start_group.
  pose proof (drop_flow_group_account (rd_flow d) Replaced q ltac:(lia)) as H1.
  pose proof (drop_flow_group_same (rd_flow d) Replaced q) as (Hg & _).
  destruct (drop_flow_group _ _ q) as [q1 n]. cbn in *. rewrite <- H1.
  unfold account, pending_datagrams, settled. cbn.
  rewrite map_total_insert_None by (rewrite Hg; apply lookup_delete_eq). cbn. lia.
Qed.

Lemma append_to_group_account d g q q' r :
  account q < u64_max -> groups q !! rd_flow d = Some g ->
  append_to_group d g q = (q', Ok r) -> account q' = account q + 1.
Proof.
  intros Ha Hg. unfold append_to_group. destruct (checked_add _ _ _) as [b|]; [|done].
  pose proof (map_total_delete group_size (groups q) _ g Hg) as Hd.
  revert Ha. unfold account, settled, pending_datagrams. intros Ha.
  destruct (_ || _).
  - intros [= <- <-]. cbn in *. unfold sat_add. lia.
  - intros [= <- <-]. cbn in *.
    match goal with |- context [map_total _ (<[?f := ?x]> ?m)] =>
      pose proof (map_total_insert_Some group_size m f x g Hg) as Hi end.
    cbn in Hi. rewrite length_app in Hi. cbn in Hi. lia.
Qed.

(** Every datagram that [enqueue] does not refuse with an error is accounted
    for once. *)
Lemma enqueue_account d now q q' r :
  account q < u64_max -> enqueue d now q = (q', r) ->
  account q' = account q + match r with Ok _ => 1 | Err _ => 0 end.
Proof.
  intros Ha. unfold enqueue. pose proof (expire_account now q ltac:(lia)) as He.
  set (q1 := (expire now q).1) in *.
  assert (forall f, account (note_congestion_drop f 1 q1) = account q1 + 1) as Hc.
  { intros f. unfold account, settled, pending_datagrams in *. cbn. unfold sat_add. lia. }
  destruct (max_payload q1 <? _); [intros [= <- <-]; lia|].
  destruct (rd_deadline d <=? now).
  { intros [= <- <-]. rewrite <- He. unfold account, settled, pending_datagrams in *. cbn.
    unfold sat_add. lia. }
  assert (forall q2, account q2 = account q1 -> start_group d q2 = (q', r) ->
    account q' = account q + match r with Ok _ => 1 | Err _ => 0 end) as Hs.
  { intros q2 H2 Hs. pose proof (start_group_account d q2 ltac:(lia)) as H3. rewrite Hs in H3.
    unfold start_group in Hs. destruct (drop_flow_group _ _ _) as [q3 n]. simplify_eq. cbn in *. lia. }
  destruct (groups q1 !! rd_flow d) as [g|] eqn:Hg.
  - destruct (compare_group _ _ _ _).
    + intros [= <- <-]. rewrite Hc. lia.
    + intros H. destruct r as [r|e].
      * eapply append_to_group_account in H; [lia|lia|done].
      * unfold append_to_group in H. destruct (checked_add _ _ _); [|simplify_eq; lia].
        by destruct (_ || _).
    + by apply Hs.
  - destruct (max_flows (config q1) <=? _); [|by apply Hs].
    unfold evict_lower_priority. destruct (max_by _ _) as [[f g]|].
    + apply Hs. apply drop_flow_group_account. lia.
    + intros [= <- <-]. rewrite Hc. lia.
Qed.

Lemma pop_flow_account f q q' o :
  pop_flow f q = (q', o) ->
  account q = account q' + match o with Some _ => 1 | None => 0 end.
Proof.
  unfold pop_flow. destruct (groups q !! f) as [g|] eqn:Hg; [|intros [= <- <-]; lia].
  destruct (pg_datagrams g) as [|p rest] eqn:Hp; [intros [= <- <-]; lia|].
  pose proof (map_total_delete group_size (groups q) f g Hg) as Hd. cbn in Hd. rewrite Hp in Hd.
  unfold account, settled, pending_datagrams.
  destruct rest as [|p' rest]; intros [= <- <-]; cbn in *; [lia|].
  match goal with |- context [map_total _ (<[?f := ?x]> ?m)] =>
    pose proof (map_total_insert_Some group_size m f x g Hg) as Hi end.
  cbn in Hi. rewrite Hp in Hi. cbn in Hi. lia.
Qed.
