(* ===== verification/RealtimeProps.v ===== *)
(** * The real-time queue is bounded, exact and never stale *)

From S2P Require Export RealtimeFacts.
Local Open Scope N_scope.

(** ** Runs of a queue *)

Inductive rt_op :=
| OpEnqueue (d : RealtimeDatagram) (now : N)
| OpPeek (now : N)
| OpPop (now : N)
| OpPopFitting (now max_wire_len : N)
| OpDropDisposable
| OpSetMaxPayload (max : N)
| OpClear
| OpReset
| OpNoteSent (d : QueuedRealtimeDatagram)
| OpNoteCongestion
| OpNoteMetrics (rtt_us : N) (estimated : option N) (events : N)
| OpNoteMigration.

(** What an operation returns; for the two that clear the queue, how many
    datagrams they forget. *)
Inductive rt_out :=
| OutSend (r : result TransportError SendOutcome)
| OutPop (o : option QueuedRealtimeDatagram)
| OutCleared (n : N)
| OutNone.

Definition rt_step (q : RealtimeSendQueue) (op : rt_op) : RealtimeSendQueue * rt_out :=
  match op with
  | OpEnqueue d now => let '(q, r) := enqueue d now q in (q, OutSend r)
  | OpPeek now => ((peek_next_wire_len now q).1, OutNone)
  | OpPop now => let '(q, o) := pop_next now q in (q, OutPop o)
  | OpPopFitting now n => let '(q, o) := pop_next_fitting now n q in (q, OutPop o)
  | OpDropDisposable => ((drop_disposable_for_congestion q).1, OutNone)
  | OpSetMaxPayload n => ((set_max_payload n q).1, OutNone)
  | OpClear => (clear_pending q, OutCleared (pending_datagrams q))
  | OpReset => (reset_for_reconnect q, OutCleared (pending_datagrams q))
  | OpNoteSent d => (note_sent d q, OutNone)
  | OpNoteCongestion => (note_transport_congestion q, OutNone)
  | OpNoteMetrics rtt e n => (note_network_metrics rtt e n q, OutNone)
  | OpNoteMigration => (note_migration q, OutNone)
  end.

Abbreviation rt_history := (list (rt_op * rt_out)).
Fixpoint rt_run (q : RealtimeSendQueue) (ops : list rt_op) : RealtimeSendQueue * rt_history :=
  match ops with
  | [] => (q, [])
  | op :: ops =>
    let '(q, o) := rt_step q op in
    let '(q, h) := rt_run q ops in (q, (op, o) :: h)
  end.

(** Induction over the operations of a run, with its history. *)
Lemma rt_run_ind (P : rt_history -> RealtimeSendQueue -> Prop) q0 :
  P [] q0 ->
  (forall h q op, P h q -> P (h ++ [(op, (rt_step q op).2)]) (rt_step q op).1) ->
  forall ops, P (rt_run q0 ops).2 (rt_run q0 ops).1.
Proof.
  intros H0 Hstep ops.
  enough (forall ops h q, P h q -> P (h ++ (rt_run q ops).2) (rt_run q ops).1) as H
    by exact (H ops [] q0 H0).
  clear ops. induction ops as [|op ops IH]; intros h q HP; cbn; [by rewrite app_nil_r|].
  specialize (Hstep h q op HP). destruct (rt_step q op) as [q1 o]. cbn in Hstep.
  specialize (IH _ _ Hstep). destruct (rt_run q1 ops) as [q2 h2]. cbn in *.
  by rewrite <- app_assoc in IH.
Qed.

(** ** Accounting *)

Definition offered_by (e : rt_op * rt_out) : N :=
  match e.2 with OutSend (Ok _) => 1 | _ => 0 end.
Definition popped_by (e : rt_op * rt_out) : N :=
  match e.2 with OutPop (Some _) => 1 | _ => 0 end.
Definition cleared_by (e : rt_op * rt_out) : N :=
  match e.2 with OutCleared n => n | _ => 0 end.
Definition total (f : rt_op * rt_out -> N) (h : rt_history) : N :=
  foldr (fun e n => f e + n) 0 h.

Lemma total_app f h1 h2 : total f (h1 ++ h2) = total f h1 + total f h2.
Proof. unfold total. induction h1 as [|e h1 IH]; cbn in *; [done|]. rewrite IH. lia. Qed.

Lemma pending_clear q : pending_datagrams (clear_pending q) = 0.
Proof. unfold pending_datagrams. cbn. by rewrite map_total_empty. Qed.

Ltac ledger := unfold offered_by, popped_by, cleared_by in *; cbn [snd fst] in *.
(** The operations that leave the groups and the counts alone. *)
Ltac untouched :=
  ledger; unfold account, settled, pending_datagrams in *; cbn in *; lia.

Lemma enqueue_full d now q q' o :
  account q <= u64_max -> enqueue d now q = (q', Err o) -> account q' = account q.
Proof.
  intros Ha E. unfold enqueue in E.
  pose proof (expire_account now q Ha) as He. set (q1 := (expire now q).1) in *.
  destruct (max_payload q1 <? _); [by simplify_eq|].
  destruct (rd_deadline d <=? now); [done|].
  assert (forall q2, start_group d q2 <> (q', Err o)) as Hs.
  { intros q2. unfold start_group. by destruct (drop_flow_group _ _ _). }
  destruct (groups q1 !! rd_flow d) as [g|].
  - destruct (compare_group _ _ _ _); [done| |by apply Hs in E].
    unfold append_to_group in E. destruct (checked_add _ _ _); [by destruct (_ || _)|by simplify_eq].
  - destruct (max_flows _ <=? _); [|by apply Hs in E].
    destruct (evict_lower_priority _ _) as [q2 []]; [by apply Hs in E|done].
Qed.

Lemma pop_next_account now q q' o :
  account q <= u64_max -> pop_next now q = (q', o) ->
  account q = account q' + match o with Some _ => 1 | None => 0 end.
Proof.
  unfold pop_next. intros Ha. pose proof (expire_account now q Ha) as He.
  destruct (next_flow _) as [f|]; [intros E%pop_flow_account; lia|].
  intros E. simplify_eq. lia.
Qed.
Lemma pop_next_fitting_account now n q q' o :
  account q <= u64_max -> pop_next_fitting now n q = (q', o) ->
  account q = account q' + match o with Some _ => 1 | None => 0 end.
Proof.
  unfold pop_next_fitting. intros Ha. pose proof (expire_account now q Ha) as He.
  destruct (min_by _ _) as [[f best]|]; [|intros E; simplify_eq; lia].
  destruct (min_by _ _) as [[f' g]|]; [intros E%pop_flow_account; lia|].
  intros E. simplify_eq. lia.
Qed.

Lemma rt_step_account q op :
  let '(q', o) := rt_step q op in
  account q + offered_by (op, o) <= u64_max ->
  account q' + popped_by (op, o) + cleared_by (op, o) = account q + offered_by (op, o).
Proof.
  destruct op as [d now|now|now|now n| |n| | |d| |rtt e n|]; cbn.
  - destruct (enqueue d now q) as [q' [s|e]] eqn:E; ledger; intros Ha.
    + apply enqueue_account in E; lia.
    + apply enqueue_full in E; lia.
  - ledger. intros Ha. rewrite expire_account; lia.
  - destruct (pop_next now q) as [q' o] eqn:E. ledger. intros Ha.
    apply pop_next_account in E; destruct o; lia.
  - destruct (pop_next_fitting now n q) as [q' o] eqn:E. ledger. intros Ha.
    apply pop_next_fitting_account in E; destruct o; lia.
  - ledger. intros Ha. unfold drop_disposable_for_congestion. rewrite drop_flow_groups_account; lia.
  - ledger. intros Ha. unfold set_max_payload. destruct (n =? 0); [cbn; lia|].
    destruct (n =? max_payload q); [cbn; lia|]. cbn.
    destruct (n <? _); [rewrite drop_flow_groups_account|]; untouched.
  - intros _. unfold account. rewrite pending_clear. untouched.
  - intros _. unfold account, reset_for_reconnect.
    change (pending_datagrams (with_telemetry _ (clear_pending q)))
      with (pending_datagrams (clear_pending q)). rewrite pending_clear. untouched.
  - untouched.
  - untouched.
  - untouched.
  - untouched.
Qed.

(** Nothing is lost silently.  After any operations on a new queue, the
    datagrams it did not refuse with an error are exactly those its telemetry
    reports as replaced, expired, dropped for congestion or pending, those it
    has handed out and those a reset or a clear forgot. *)
Theorem realtime_accounting c m q0 ops :
  realtime_queue_new c m = Ok q0 ->
  let '(q, h) := rt_run q0 ops in
  total offered_by h <= u64_max ->
  let t := telemetry q in
  rt_replaced t + rt_expired t + rt_congestion_dropped t + rt_pending t
    + total popped_by h + total cleared_by h = total offered_by h.
Proof.
  intros Hnew. assert (account q0 = 0) as H0.
  { unfold realtime_queue_new in Hnew. destruct (_ || _); [done|]. cbn in Hnew. by simplify_eq. }
  pose proof (rt_run_ind (fun h q => total offered_by h <= u64_max ->
    account q + total popped_by h + total cleared_by h = total offered_by h) q0) as Hind.
  specialize (Hind ltac:(intros _; cbn; lia)).
  assert (forall h q op,
    (total offered_by h <= u64_max ->
     account q + total popped_by h + total cleared_by h = total offered_by h) ->
    total offered_by (h ++ [(op, (rt_step q op).2)]) <= u64_max ->
    account (rt_step q op).1 + total popped_by (h ++ [(op, (rt_step q op).2)])
      + total cleared_by (h ++ [(op, (rt_step q op).2)])
    = total offered_by (h ++ [(op, (rt_step q op).2)])) as Hstep.
  { intros h q op IH Hle. pose proof (rt_step_account q op) as Hs.
    destruct (rt_step q op) as [q' o]. rewrite !total_app in *.
    cbn [snd fst] in *. change (total ?f [?e]) with (f e + 0) in *. lia. }
  specialize (Hind Hstep ops). destruct (rt_run q0 ops) as [q h]. cbn [fst snd] in Hind. intros Hle.
  exact (Hind Hle).
Qed.

(** ** Bounds *)

Definition bytes_of (l : list (list byte)) : N := N.of_nat (sum_list_with length l).

Record group_ok (c : RealtimeQueueConfig) (m : N) (g : PendingGroup) : Prop := {
  group_nonempty : pg_datagrams g <> [];
  group_count : len (pg_datagrams g) <= max_datagrams_per_group c;
  group_payloads : Forall (fun p => len p <= m) (pg_datagrams g);
  group_bytes : bytes_of (pg_datagrams g) <= payload_bytes g;
  group_limit : payload_bytes g <= max_group_bytes c \/ length (pg_datagrams g) = 1%nat;
}.

Record queue_inv (q : RealtimeSendQueue) : Prop := {
  inv_config : queue_config_valid (config q) = true;
  inv_flows : card (groups q) <= max_flows (config q);
  inv_groups f g : groups q !! f = Some g -> group_ok (config q) (max_payload q) g;
}.

(** The groups of [q'] are among those of [q]. *)
Definition shrinks (q q' : RealtimeSendQueue) : Prop :=
  config q' = config q /\ max_payload q' = max_payload q /\ groups q' ⊆ groups q.

Lemma shrinks_drop f r q : shrinks q (drop_flow_group f r q).1.
Proof.
  pose proof (drop_flow_group_same f r q) as (Hg & Hc & Hm & _). split_and!; [done..|].
  rewrite Hg. apply delete_subseteq.
Qed.
Lemma shrinks_drop_all fs r q : shrinks q (drop_flow_groups fs r q).1.
Proof.
  pose proof (drop_flow_groups_same fs r q) as (Hg & Hc & Hm & _). split_and!; [done..|].
  apply map_subseteq_spec. intros f g H. by apply Hg in H as [? _].
Qed.

Lemma queue_inv_shrinks q q' : shrinks q q' -> queue_inv q -> queue_inv q'.
Proof.
  intros (Hc & Hm & Hg) [H1 H2 H3]. split.
  - by rewrite Hc.
  - rewrite Hc. pose proof (map_subseteq_size _ _ Hg). lia.
  - rewrite Hc, Hm. intros f g Hf. apply (H3 f). by eapply lookup_weaken.
Qed.

(** ** What an operation does to the groups *)

Definition accepted (r : result TransportError SendOutcome) : bool :=
  match r with Ok Enqueued | Ok ReplacedOlder => true | _ => false end.

(** [d] belongs to the group [g]. *)
Definition same_group (d : RealtimeDatagram) (g : PendingGroup) : Prop :=
  pg_generation g = rd_generation d /\ pg_sequence g = rd_sequence d.

Definition fresh_group (d : RealtimeDatagram) (g : PendingGroup) : Prop :=
  pg_datagrams g = [rd_payload d] /\ payload_bytes g = len (rd_payload d)
  /\ pg_deadline g = rd_deadline d.
Definition extended_group (c : RealtimeQueueConfig) (d : RealtimeDatagram) (g g' : PendingGroup)
    : Prop :=
  pg_datagrams g' = pg_datagrams g ++ [rd_payload d]
  /\ payload_bytes g' = payload_bytes g + len (rd_payload d)
  /\ pg_deadline g' = N.min (pg_deadline g) (rd_deadline d)
  /\ len (pg_datagrams g) < max_datagrams_per_group c /\ payload_bytes g' <= max_group_bytes c.

(** [q'] is [q1] with the group of [d]'s flow started or extended by [d]. *)
Definition added (q q1 q' : RealtimeSendQueue) (d : RealtimeDatagram) : Prop :=
  config q' = config q /\ max_payload q' = max_payload q
  /\ exists g', groups q' = <[rd_flow d := g']> (groups q1) /\ same_group d g'
     /\ ((groups q1 !! rd_flow d = None /\ fresh_group d g'
          /\ (card (groups q1) < max_flows (config q) \/ card (groups q1) < card (groups q)))
         \/ exists g, groups q1 !! rd_flow d = Some g /\ same_group d g
            /\ extended_group (config q) d g g').

Lemma shrinks_trans q1 q2 q3 : shrinks q1 q2 -> shrinks q2 q3 -> shrinks q1 q3.
Proof. intros (? & ? & ?) (? & ? & ?). split_and!; [congruence..|]. by etrans. Qed.
Lemma shrinks_expire now q : shrinks q (expire now q).1.
Proof. apply shrinks_drop_all. Qed.
Lemma shrinks_eq q q1 q' :
  shrinks q q1 -> config q' = config q1 -> max_payload q' = max_payload q1 ->
  groups q' = groups q1 -> shrinks q q'.
Proof. intros (? & ? & ?) ? ? E. split_and!; [congruence..|]. by rewrite E. Qed.

Lemma start_group_added d q q2 q' r :
  shrinks q q2 -> start_group d q2 = (q', r) ->
  (is_Some (groups q2 !! rd_flow d) \/ card (groups q2) < max_flows (config q)
   \/ card (groups q2) < card (groups q)) ->
  accepted r = true /\ exists q1, shrinks q q1 /\ added q q1 q' d.
Proof.
  intros Hsh Hst Hroom. unfold start_group in Hst.
  pose proof (shrinks_drop (rd_flow d) Replaced q2) as Hd.
  pose proof (drop_flow_group_same (rd_flow d) Replaced q2) as (Hg & _).
  destruct (drop_flow_group _ _ _) as [q3 n]. cbn [fst] in *. simplify_eq.
  split; [by destruct (0 <? n)|].
  assert (shrinks q q3) as Hs3 by (by eapply shrinks_trans). exists q3. split; [done|].
  destruct Hs3 as (Hc & Hm & Hsub). split_and!; [done..|]. eexists. split; [done|].
  split; [done|]. left. rewrite Hg. split; [apply lookup_delete_eq|]. split; [done|].
  destruct Hsh as (Hc2 & _ & Hsub2). pose proof (map_subseteq_size _ _ Hsub2).
  rewrite map_size_delete. destruct (groups q2 !! rd_flow d) eqn:El.
  - right. enough (size (groups q2) <> 0%nat) by (cbn; lia).
    intros E%map_size_empty_iff. by rewrite E in El.
  - cbn. destruct Hroom as [[]|[?|?]]; [done|by left|right; lia].
Qed.

Lemma append_to_group_added d g q q2 q' r :
  shrinks q q2 -> groups q2 !! rd_flow d = Some g -> same_group d g ->
  append_to_group d g q2 = (q', r) ->
  (accepted r = false /\ shrinks q q') \/ (accepted r = true /\ added q q2 q' d).
Proof.
  intros Hs Hg Hsame Ha. unfold append_to_group in Ha.
  destruct (checked_add _ _ _) as [b|] eqn:Eb; [|simplify_eq; by left].
  unfold checked_add in Eb. case_decide; [|done]. simplify_eq.
  destruct (_ || _) eqn:Hlim; simplify_eq.
  - left. split; [done|]. destruct Hs as (? & ? & ?). split_and!; [done..|]. cbn.
    etrans; [apply delete_subseteq|done].
  - right. split; [done|]. destruct Hs as (Hc & Hm & Hsub). split_and!; [done..|]. guards.
    eexists. split; [done|]. split; [done|]. right. exists g. split; [done|]. split; [done|].
    rewrite <- Hc. by split_and!.
Qed.

Lemma enqueue_cases d now q q' r :
  enqueue d now q = (q', r) ->
  (accepted r = false /\ shrinks q q')
  \/ accepted r = true /\ now < rd_deadline d /\ len (rd_payload d) <= max_payload q
     /\ exists q1, shrinks q q1 /\ added q q1 q' d.
Proof.
  unfold enqueue. pose proof (shrinks_expire now q) as Hs. set (q1 := (expire now q).1) in *.
  pose proof Hs as (Hc & Hm & _). rewrite Hm.
  destruct (N.ltb_spec (max_payload q) (len (rd_payload d))); [intros; simplify_eq; by left|].
  destruct (N.leb_spec (rd_deadline d) now).
  { intros. simplify_eq. left. split; [done|]. by eapply shrinks_eq. }
  assert (forall q2, shrinks q q2 -> start_group d q2 = (q', r) ->
    is_Some (groups q2 !! rd_flow d) \/ card (groups q2) < max_flows (config q)
      \/ card (groups q2) < card (groups q) ->
    accepted r = true /\ now < rd_deadline d /\ len (rd_payload d) <= max_payload q
      /\ exists q1, shrinks q q1 /\ added q q1 q' d) as Hstart.
  { intros q2 H1 H2 H3. destruct (start_group_added d q q2 q' r) as [? ?]; [done..|by split_and!]. }
  destruct (groups q1 !! rd_flow d) as [g|] eqn:Hg.
  - destruct (compare_group _ _ _ _) eqn:Hcmp.
    + intros. simplify_eq. left. split; [done|]. by eapply shrinks_eq.
    + intros Ha. eapply append_to_group_added in Ha as [?|[? ?]]; [by left| |done|done|].
      * right. split_and!; [done..|]. by exists q1.
      * unfold compare_group in Hcmp. repeat case_match; try done. guards. done.
    + intros Hst. right. apply (Hstart q1); [done..|]. left. by eexists.
  - rewrite Hc. destruct (N.leb_spec (max_flows (config q)) (card (groups q1))).
    2:{ intros Hst. right. apply (Hstart q1); [done..|]. by right; left. }
    unfold evict_lower_priority. destruct (max_by _ _) as [[f g]|] eqn:Hmax.
    + intros Hst. right. apply (Hstart (drop_flow_group f Congested q1).1); [|done|].
      { eapply shrinks_trans; [done|]. apply shrinks_drop. }
      right; right. apply max_by_elem, list_elem_of_In, filter_In in Hmax as [Hin _].
      apply list_elem_of_In, elem_of_btree_iter in Hin.
      pose proof (drop_flow_group_same f Congested q1) as (-> & _).
      rewrite map_size_delete, Hin. destruct Hs as (_ & _ & Hsub).
      pose proof (map_subseteq_size _ _ Hsub). cbn.
      enough (size (groups q1) <> 0%nat) by lia.
      intros E%map_size_empty_iff. by rewrite E in Hin.
    + intros. simplify_eq. left. split; [done|]. by eapply shrinks_eq.
Qed.

(** A pop takes the head of a live group and leaves its tail. *)
Definition took (now : N) (q q' : RealtimeSendQueue) (d : QueuedRealtimeDatagram) : Prop :=
  exists g rest, groups q !! rd_flow d = Some g /\ pg_datagrams g = rd_payload d :: rest
    /\ same_group d g /\ rd_deadline d = pg_deadline g /\ now < pg_deadline g
    /\ config q' = config q /\ max_payload q' = max_payload q
    /\ groups q' = match rest with
                   | [] => delete (rd_flow d) (groups (expire now q).1)
                   | _ => <[rd_flow d := mkGroup (pg_generation g) (pg_sequence g) (pg_deadline g)
                              (pg_priority g) rest (payload_bytes g) (insertion_order g)]>
                            (groups (expire now q).1)
                   end.

Lemma pop_flow_took now f q q' o :
  pop_flow f (expire now q).1 = (q', o) ->
  match o with Some d => rd_flow d = f /\ took now q q' d | None => shrinks q q' end.
Proof.
  unfold pop_flow. pose proof (expire_same now q) as (Hex & Hc & Hm & _).
  pose proof (shrinks_expire now q) as Hs.
  destruct (groups (expire now q).1 !! f) as [g|] eqn:Hg; [|intros; by simplify_eq].
  destruct (pg_datagrams g) as [|p rest] eqn:Hp; intros; simplify_eq; [done|].
  split; [done|]. apply Hex in Hg as [Hg Hlt]. exists g, rest. split_and!; try done.
Qed.

Lemma pop_next_took now q q' o :
  pop_next now q = (q', o) ->
  match o with Some d => took now q q' d | None => shrinks q q' end.
Proof.
  unfold pop_next. destruct (next_flow _) as [f|].
  - intros H%pop_flow_took. by destruct o; destruct_and?.
  - intros. simplify_eq. apply shrinks_expire.
Qed.
Lemma pop_next_fitting_took now n q q' o :
  pop_next_fitting now n q = (q', o) ->
  match o with Some d => took now q q' d | None => shrinks q q' end.
Proof.
  unfold pop_next_fitting. destruct (min_by _ _) as [[f best]|]; [destruct (min_by _ _) as [[f' g]|]|].
  - intros H%pop_flow_took. by destruct o; destruct_and?.
  - intros. simplify_eq. apply shrinks_expire.
  - intros. simplify_eq. apply shrinks_expire.
Qed.

(** ** The invariant is preserved *)

Lemma bytes_of_app l1 l2 : bytes_of (l1 ++ l2) = bytes_of l1 + bytes_of l2.
Proof. unfold bytes_of. rewrite sum_list_with_app. lia. Qed.

Lemma queue_inv_added q q1 q' d :
  queue_inv q -> shrinks q q1 -> added q q1 q' d -> len (rd_payload d) <= max_payload q ->
  queue_inv q'.
Proof.
  intros Hinv Hs (Hc & Hm & g' & Hg & _ & Hcase) Hlen.
  pose proof (queue_inv_shrinks _ _ Hs Hinv) as [Hv1 Hf1 Hg1].
  destruct Hs as (Hc1 & Hm1 & Hsub). destruct Hinv as [Hv Hf _].
  split; [by rewrite Hc| |].
  - rewrite Hg, Hc, map_size_insert. destruct Hcase as [(Hn & _ & [?|?])|(g & Hl & _)].
    + rewrite Hn. lia.
    + rewrite Hn. lia.
    + rewrite Hl. cbn. rewrite <- Hc1. lia.
  - rewrite Hc, Hm, Hg. intros f g2 [[<- <-]|[? Hl]]%lookup_insert_Some.
    2:{ rewrite <- Hc1, <- Hm1. by apply (Hg1 f). }
    unfold queue_config_valid in Hv. guards.
    destruct Hcase as [(_ & (Hd & Hb & _) & _)|(g & Hl & _ & (Hd & Hb & _ & Hcnt & Hlim))].
    + split; rewrite ?Hd, ?Hb; cbn; [done|lia|by constructor| |by right].
      unfold bytes_of. cbn. lia.
    + apply Hg1 in Hl as [_ H2 H3 H4 _]. rewrite Hc1, Hm1 in *.
      split; rewrite Hd; rewrite ?length_app; cbn.
      * by destruct (pg_datagrams g).
      * lia.
      * apply Forall_app. split; [done|by constructor].
      * rewrite Hb, bytes_of_app. unfold bytes_of at 2. cbn. lia.
      * by left.
Qed.

Lemma queue_inv_took now q q' d : queue_inv q -> took now q q' d -> queue_inv q'.
Proof.
  intros Hinv (g & rest & Hl & Hp & _ & _ & Hlt & Hc & Hm & Hg).
  pose proof (queue_inv_shrinks _ _ (shrinks_expire now q) Hinv) as [Hv1 Hf1 Hg1].
  pose proof (expire_same now q) as (Hex & Hc1 & Hm1 & _). rewrite Hc1, Hm1 in *.
  assert (groups (expire now q).1 !! rd_flow d = Some g) as Hl1 by by apply Hex.
  pose proof (Hg1 _ _ Hl1) as [_ H2 H3 H4 H5]. rewrite Hp in *.
  split; rewrite Hc; [done| |].
  - rewrite Hg. destruct rest; [|rewrite map_size_insert, Hl1; done].
    rewrite map_size_delete, Hl1. cbn. lia.
  - rewrite Hm, Hg. intros f g2. destruct rest as [|p rest].
    + intros [_ ?]%lookup_delete_Some. eauto.
    + intros [[<- <-]|[? ?]]%lookup_insert_Some; [|eauto].
      unfold bytes_of in *. cbn in *. apply Forall_cons in H3 as [_ H3].
      split; cbn; [done|lia|done|unfold bytes_of; cbn; lia|]. left.
      by destruct H5 as [|[=]].
Qed.

Lemma queue_inv_set_max n q : queue_inv q -> queue_inv (set_max_payload n q).1.
Proof.
  intros Hinv. unfold set_max_payload. destruct (N.eqb_spec n 0); [done|].
  destruct (N.eqb_spec n (max_payload q)); [done|]. cbn.
  destruct Hinv as [Hv Hf Hg]. destruct (N.ltb_spec n (max_payload q)) as [Hlt|Hge].
  - match goal with |- queue_inv (drop_flow_groups (flows_where ?p ?q1) _ _).1 =>
      pose proof (shrinks_drop_all (flows_where p q1) Congested q1) as (Hc & Hm & Hsub);
      pose proof (drop_where_same p Congested q1) as (Hw & _) end.
    cbn in Hc, Hm, Hsub, Hw. split; [by rewrite Hc| |].
    + rewrite Hc. pose proof (map_subseteq_size _ _ Hsub). lia.
    + rewrite Hc, Hm. intros f g [Hl Hno]%Hw. apply Hg in Hl as [H1 H2 H3 H4 H5].
      split; try done. apply Forall_forall. intros p Hp.
      destruct (N.le_gt_cases (len p) n) as [|Hgt]; [done|].
      apply not_true_iff_false in Hno. destruct Hno. apply existsb_exists. exists p.
      split; [by apply list_elem_of_In|]. by apply N.ltb_lt.
  - split; cbn; [done|done|]. intros f g Hl. apply Hg in Hl as [H1 H2 H3 H4 H5].
    split; try done. eapply Forall_impl; [done|]. cbn. lia.
Qed.

Lemma queue_inv_same q q' :
  config q' = config q -> max_payload q' = max_payload q -> groups q' = groups q ->
  queue_inv q -> queue_inv q'.
Proof. intros H1 H2 H3 [? ? ?]. split; rewrite ?H1, ?H2, ?H3; done. Qed.

Lemma shrinks_clear q q' :
  config q' = config q -> max_payload q' = max_payload q -> groups q' = ∅ -> shrinks q q'.
Proof. intros ? ? E. split_and!; [done..|]. rewrite E. apply map_empty_subseteq. Qed.

Lemma rt_step_inv q op : queue_inv q -> queue_inv (rt_step q op).1.
Proof.
  intros Hinv. destruct op as [d now|now|now|now n| |n| | |d| |rtt e n|]; cbn.
  - destruct (enqueue d now q) as [q' r] eqn:E. cbn.
    apply enqueue_cases in E as [[_ Hs]|(_ & _ & Hlen & q1 & Hs & Ha)].
    + by eapply queue_inv_shrinks.
    + by eapply queue_inv_added.
  - eapply queue_inv_shrinks; [apply shrinks_expire|done].
  - destruct (pop_next now q) as [q' o] eqn:E. cbn. apply pop_next_took in E.
    destruct o; [by eapply queue_inv_took|by eapply queue_inv_shrinks].
  - destruct (pop_next_fitting now n q) as [q' o] eqn:E. cbn. apply pop_next_fitting_took in E.
    destruct o; [by eapply queue_inv_took|by eapply queue_inv_shrinks].
  - eapply queue_inv_shrinks; [apply shrinks_drop_all|done].
  - by apply queue_inv_set_max.
  - apply (queue_inv_shrinks q); [by apply shrinks_clear|done].
  - apply (queue_inv_shrinks q); [by apply shrinks_clear|done].
  - by apply (queue_inv_same q).
  - by apply (queue_inv_same q).
  - by apply (queue_inv_same q).
  - by apply (queue_inv_same q).
Qed.

Lemma rt_step_config q op : config (rt_step q op).1 = config q.
Proof.
  destruct op as [d now|now|now|now n| |n| | |d| |rtt e n|]; cbn; try done.
  - destruct (enqueue d now q) as [q' r] eqn:E. cbn.
    apply enqueue_cases in E as [[_ (? & ?)]|(_ & _ & _ & q1 & _ & (? & _))]; congruence.
  - apply shrinks_expire.
  - destruct (pop_next now q) as [q' o] eqn:E. cbn. apply pop_next_took in E.
    destruct o; [destruct E as (? & ? & ? & ? & ? & ? & ? & ? & _); congruence|apply E].
  - destruct (pop_next_fitting now n q) as [q' o] eqn:E. cbn. apply pop_next_fitting_took in E.
    destruct o; [destruct E as (? & ? & ? & ? & ? & ? & ? & ? & _); congruence|apply E].
  - apply shrinks_drop_all.
  - unfold set_max_payload. destruct (n =? 0); [done|]. destruct (n =? max_payload q); [done|]. cbn.
    destruct (n <? _); [|done].
    match goal with |- context [drop_flow_groups ?fs ?r ?q1] =>
      by destruct (drop_flow_groups_same fs r q1) as (_ & -> & _) end.
Qed.

Lemma realtime_queue_new_inv c m q0 :
  realtime_queue_new c m = Ok q0 -> queue_inv q0 /\ config q0 = c /\ groups q0 = ∅.
Proof.
  unfold realtime_queue_new. destruct (_ || _) eqn:Hv; [done|]. cbn. intros. simplify_eq.
  guards. split_and!; [|done..]. split; cbn; [done| |].
  - rewrite map_size_empty. lia.
  - intros f g. by rewrite lookup_empty.
Qed.

Lemma map_total_le {K V} `{Countable K} (f : V -> nat) (m : gmap K V) b :
  (forall i x, m !! i = Some x -> (f x <= b)%nat) -> (map_total f m <= size m * b)%nat.
Proof.
  induction m as [|i x m Hi IH] using map_ind; intros Hb.
  - by rewrite map_total_empty.
  - rewrite map_total_insert_None, map_size_insert_None by done.
    pose proof (Hb i x (lookup_insert_eq _ _ _)).
    enough (map_total f m <= size m * b)%nat by lia. apply IH. intros j y Hj.
    apply (Hb j). rewrite lookup_insert_ne; [done|]. intros ->. congruence.
Qed.

(** The queue is bounded.  After any operations a queue holds at most
    [max_flows] groups, each of at most [max_datagrams_per_group] datagrams
    that all fit the current path and together are within [max_group_bytes]
    (or a single datagram); so what it reports as pending never exceeds
    [max_flows * max_datagrams_per_group]. *)
Theorem realtime_bounded c m q0 ops :
  realtime_queue_new c m = Ok q0 ->
  let q := (rt_run q0 ops).1 in
  card (groups q) <= max_flows c
  /\ rt_pending (telemetry q) <= max_flows c * max_datagrams_per_group c
  /\ forall f g, groups q !! f = Some g ->
       pg_datagrams g <> [] /\ len (pg_datagrams g) <= max_datagrams_per_group c
       /\ Forall (fun p => len p <= max_payload q) (pg_datagrams g)
       /\ bytes_of (pg_datagrams g) <= N.max (max_group_bytes c) (max_payload q).
Proof.
  intros (H0 & Hc0 & _)%realtime_queue_new_inv q.
  assert (config q = c /\ queue_inv q) as [Hc [_ Hf Hg]].
  { apply (rt_run_ind (fun _ q => config q = c /\ queue_inv q)); [done|].
    intros h q1 op [? ?]. split; [by rewrite rt_step_config|by apply rt_step_inv]. }
  rewrite Hc in *. split; [done|]. split.
  - cbn. unfold pending_datagrams.
    pose proof (map_total_le group_size (groups q) (N.to_nat (max_datagrams_per_group c))
      ltac:(intros f g Hl; apply Hg in Hl as [_ ? _ _ _]; lia)) as Ht.
    assert (N.of_nat (size (groups q) * N.to_nat (max_datagrams_per_group c))
      = card (groups q) * max_datagrams_per_group c) by lia. nia.
  - intros f g [H1 H2 H3 H4 H5]%Hg. split_and!; try done. destruct H5 as [H5|H5]; [lia|].
    destruct (pg_datagrams g) as [|p [|? ?]]; try done. apply Forall_cons in H3 as [H3 _].
    unfold bytes_of. cbn. lia.
Qed.

(** ** Freshness *)

(** [e] is the acceptance of [d]. *)
Definition accepts (e : rt_op * rt_out) (d : RealtimeDatagram) : Prop :=
  exists now r, e = (OpEnqueue d now, OutSend r) /\ accepted r = true.

(** [d] was accepted at [i], with the tag, payload and at least the deadline
    given, and nothing of another group of its flow was accepted since. *)
Definition current (h : rt_history) (i : nat) (flow generation sequence dl : N) (p : list byte)
    : Prop :=
  (exists e d, h !! i = Some e /\ accepts e d /\ rd_flow d = flow /\ rd_generation d = generation
     /\ rd_sequence d = sequence /\ rd_payload d = p /\ dl <= rd_deadline d)
  /\ forall j e d, (i < j)%nat -> h !! j = Some e -> accepts e d -> rd_flow d = flow ->
       rd_generation d = generation /\ rd_sequence d = sequence.

Lemma current_snoc h e i flow g s dl dl' p :
  current h i flow g s dl p -> dl' <= dl ->
  (forall d, accepts e d -> rd_flow d = flow -> rd_generation d = g /\ rd_sequence d = s) ->
  current (h ++ [e]) i flow g s dl' p.
Proof.
  intros [(e0 & d & Hi & Ha & Hd) Hl] Hdl He. split.
  - exists e0, d. split; [by apply lookup_app_l_Some|]. destruct_and!. split_and!; try done. lia.
  - intros j e1 d1 Hij Hj Ha1 Hf. apply lookup_app_Some in Hj as [Hj|[Hge Hj]]; [by eapply Hl|].
    apply list_lookup_singleton_Some in Hj as [_ <-]. by apply He.
Qed.

(** Everything pending is current. *)
Definition fresh (h : rt_history) (q : RealtimeSendQueue) : Prop :=
  forall f g p, groups q !! f = Some g -> p ∈ pg_datagrams g ->
  exists i, current h i f (pg_generation g) (pg_sequence g) (pg_deadline g) p.

Lemma fresh_shrinks h e q q' :
  fresh h q -> groups q' ⊆ groups q -> (forall d, ~ accepts e d) -> fresh (h ++ [e]) q'.
Proof.
  intros Hfr Hsub Hno f g p Hl Hp. destruct (Hfr f g p) as [i Hi]; [by eapply lookup_weaken|done|].
  exists i. eapply current_snoc; [done|lia|]. intros d Ha. by apply Hno in Ha.
Qed.

Lemma fresh_added h q q1 q' d now r :
  fresh h q -> shrinks q q1 -> added q q1 q' d -> accepted r = true ->
  fresh (h ++ [(OpEnqueue d now, OutSend r)]) q'.
Proof.
  intros Hfr (_ & _ & Hsub) (_ & _ & g' & Hg & [Hgen Hseq] & Hcase) Hacc f g p.
  assert (forall d', accepts (OpEnqueue d now, OutSend r) d' -> d' = d) as Honly.
  { intros d' (? & ? & ? & ?). by simplify_eq. }
  rewrite Hg. intros [[<- <-]|[Hne Hl]]%lookup_insert_Some Hp.
  - assert (pg_deadline g' <= rd_deadline d ->
      current (h ++ [(OpEnqueue d now, OutSend r)]) (length h) (rd_flow d) (pg_generation g')
        (pg_sequence g') (pg_deadline g') (rd_payload d)) as Hnew.
    { intros Hdl. split.
      - eexists _, d. split; [by apply list_lookup_middle|]. split; [by eexists _, _|]. by split_and!.
      - intros j e d' Hj [Hlt%lookup_lt_Some|[Hge Hj']]%lookup_app_Some; [lia|].
        apply list_lookup_singleton_Some in Hj' as [? _]. lia. }
    destruct Hcase as [(_ & (Hd & _ & Hdl) & _)|(g0 & Hl & [Hgen0 Hseq0] & (Hd & _ & Hdl & _))].
    + rewrite Hd in Hp. apply list_elem_of_singleton in Hp as ->. exists (length h). apply Hnew. lia.
    + rewrite Hd in Hp. apply elem_of_app in Hp as [Hp| ->%list_elem_of_singleton].
      2:{ exists (length h). apply Hnew. lia. }
      destruct (Hfr (rd_flow d) g0 p) as [i Hi]; [by eapply lookup_weaken|done|]. exists i.
      rewrite Hgen0, Hseq0 in Hi. rewrite Hgen, Hseq.
      eapply current_snoc; [done|lia|]. by intros d' ->%Honly.
  - destruct (Hfr f g p) as [i Hi]; [by eapply lookup_weaken|done|]. exists i.
    eapply current_snoc; [done|lia|]. by intros d' ->%Honly.
Qed.

Lemma fresh_took h now q q' d e :
  fresh h q -> took now q q' d -> (forall d, ~ accepts e d) -> fresh (h ++ [e]) q'.
Proof.
  intros Hfr (g & rest & Hl & Hp & _ & _ & _ & _ & _ & Hg) Hno f g2 p.
  pose proof (shrinks_expire now q) as (_ & _ & Hsub).
  assert (forall g p, groups q !! f = Some g -> p ∈ pg_datagrams g -> exists i,
    current (h ++ [e]) i f (pg_generation g) (pg_sequence g) (pg_deadline g) p) as Hold.
  { intros g3 p3 H1 H2. destruct (Hfr f g3 p3 H1 H2) as [i Hi]. exists i.
    eapply current_snoc; [done|lia|]. intros d' Ha. by apply Hno in Ha. }
  rewrite Hg. destruct rest as [|p' rest].
  - intros [_ ?]%lookup_delete_Some Hin. apply Hold; [by eapply lookup_weaken|done].
  - intros [[<- <-]|[_ ?]]%lookup_insert_Some Hin.
    + cbn in *. apply Hold; [done|]. rewrite Hp. by right.
    + apply Hold; [by eapply lookup_weaken|done].
Qed.

Lemma accepts_enqueue op o d :
  accepts (op, o) d -> exists now r, op = OpEnqueue d now /\ o = OutSend r /\ accepted r = true.
Proof. intros (now & r & H1 & H2). simplify_eq. eauto. Qed.

Lemma rt_step_fresh h q op :
  fresh h q -> fresh (h ++ [(op, (rt_step q op).2)]) (rt_step q op).1.
Proof.
  intros Hfr.
  assert (forall op o, (forall d now r, op = OpEnqueue d now -> o = OutSend r -> accepted r = false) ->
    forall d, ~ accepts (op, o) d) as Hno.
  { intros op' o H d (now & r & H1 & H2 & H3)%accepts_enqueue. specialize (H d now r H1 H2). congruence. }
  destruct op as [d now|now|now|now n| |n| | |d| |rtt e n|]; cbn.
  - destruct (enqueue d now q) as [q' r] eqn:E. cbn.
    apply enqueue_cases in E as [[Hr (_ & _ & Hs)]|(Hr & _ & _ & q1 & Hs & Ha)].
    + eapply fresh_shrinks; [done..|]. apply Hno. intros. by simplify_eq.
    + by eapply fresh_added.
  - eapply fresh_shrinks; [done|apply shrinks_expire|by apply Hno].
  - destruct (pop_next now q) as [q' o] eqn:E. cbn. apply pop_next_took in E.
    destruct o; [eapply fresh_took|eapply fresh_shrinks; [|apply E|]]; (done || by apply Hno).
  - destruct (pop_next_fitting now n q) as [q' o] eqn:E. cbn. apply pop_next_fitting_took in E.
    destruct o; [eapply fresh_took|eapply fresh_shrinks; [|apply E|]]; (done || by apply Hno).
  - eapply fresh_shrinks; [done|apply shrinks_drop_all|by apply Hno].
  - eapply fresh_shrinks; [done| |by apply Hno]. unfold set_max_payload.
    destruct (n =? 0); [done|]. destruct (n =? max_payload q); [done|]. cbn.
    destruct (n <? _); [|done].
    match goal with |- groups (drop_flow_groups ?fs ?r ?q1).1 ⊆ _ =>
      by destruct (shrinks_drop_all fs r q1) as (_ & _ & ?) end.
  - eapply fresh_shrinks; [done|apply map_empty_subseteq|by apply Hno].
  - eapply fresh_shrinks; [done|apply map_empty_subseteq|by apply Hno].
  - eapply fresh_shrinks; [done..|by apply Hno].
  - eapply fresh_shrinks; [done..|by apply Hno].
  - eapply fresh_shrinks; [done..|by apply Hno].
  - eapply fresh_shrinks; [done..|by apply Hno].
Qed.

(** The time of a pop. *)
Definition pop_time (op : rt_op) : option N :=
  match op with OpPop now | OpPopFitting now _ => Some now | _ => None end.

Lemma rt_step_pop q op d :
  (rt_step q op).2 = OutPop (Some d) ->
  exists now g, pop_time op = Some now /\ now < rd_deadline d /\ groups q !! rd_flow d = Some g
    /\ rd_payload d ∈ pg_datagrams g /\ same_group d g /\ rd_deadline d = pg_deadline g.
Proof.
  assert (forall now q', took now q q' d -> exists g, now < rd_deadline d
    /\ groups q !! rd_flow d = Some g /\ rd_payload d ∈ pg_datagrams g /\ same_group d g
    /\ rd_deadline d = pg_deadline g) as Ht.
  { intros now q' (g & rest & Hl & Hp & Hs & Hd & Hlt & _). exists g. rewrite Hd, Hp.
    split_and!; try done. by left. }
  destruct op as [d' now|now|now|now n| |n| | |d'| |rtt e n|]; cbn; try done.
  - by destruct (enqueue d' now q).
  - destruct (pop_next now q) as [q' o] eqn:E. cbn. intros. simplify_eq.
    apply pop_next_took, Ht in E as [g Hg]. by exists now, g.
  - destruct (pop_next_fitting now n q) as [q' o] eqn:E. cbn. intros. simplify_eq.
    apply pop_next_fitting_took, Ht in E as [g Hg]. by exists now, g.
Qed.

(** C18: Only current datagrams are delivered.  Whatever a queue hands out in
    any run was accepted earlier with that flow, generation, sequence and
    payload, is handed out before the deadline of its whole group, which is no
    later than its own, and since then no datagram of another group of the
    flow was accepted: a superseded datagram is never sent. *)
Theorem realtime_delivery c m q0 ops i op d :
  realtime_queue_new c m = Ok q0 ->
  let h := (rt_run q0 ops).2 in
  h !! i = Some (op, OutPop (Some d)) ->
  (exists now, pop_time op = Some now /\ now < rd_deadline d)
  /\ exists j, current (take i h) j (rd_flow d) (rd_generation d) (rd_sequence d) (rd_deadline d)
       (rd_payload d).
Proof.
  intros (_ & _ & H0)%realtime_queue_new_inv h.
  enough (fresh h (rt_run q0 ops).1 /\ forall i op d, h !! i = Some (op, OutPop (Some d)) ->
    (exists now, pop_time op = Some now /\ now < rd_deadline d)
    /\ exists j, current (take i h) j (rd_flow d) (rd_generation d) (rd_sequence d) (rd_deadline d)
         (rd_payload d)) as [_ H] by apply H.
  clear i op d. unfold h. clear h.
  apply (rt_run_ind (fun h q => fresh h q /\ forall i op d, h !! i = Some (op, OutPop (Some d)) ->
    (exists now, pop_time op = Some now /\ now < rd_deadline d)
    /\ exists j, current (take i h) j (rd_flow d) (rd_generation d) (rd_sequence d) (rd_deadline d)
         (rd_payload d))).
  { split; [|done]. intros f g p. by rewrite H0. }
  intros h q op [Hfr Hpop]. split; [by apply rt_step_fresh|].
  intros i op' d [Hi|[Hge Hi]]%lookup_app_Some.
  - rewrite take_app_le by (apply lookup_lt_Some in Hi; lia). by apply Hpop.
  - apply list_lookup_singleton_Some in Hi as [Hi Hop]. simplify_eq.
    rewrite take_app_ge by lia. replace (i - length h)%nat with 0%nat by lia.
    rewrite take_0, app_nil_r.
    match goal with H : _ = OutPop (Some d) |- _ =>
      apply rt_step_pop in H as (now & g & Ht & Hlt & Hl & Hp & [Hg Hs] & Hd) end.
    split; [by exists now|]. rewrite <- Hg, <- Hs, Hd. by apply Hfr.
Qed.
