(* ===== verification/RealtimeWire.v ===== *)
(** * The wire form of real-time datagrams, and the order of the queue *)

From S2P Require Export RealtimeProps.
Local Open Scope N_scope.

(** ** Fields of a datagram *)

Lemma wire_field_split first last l :
  (first <= last)%nat -> drop first l = field first last l ++ drop last l.
Proof.
  intros H. unfold field. rewrite <- (take_drop (last - first) (drop first l)) at 1.
  by rewrite drop_drop, Nat.add_comm, Nat.sub_add.
Qed.

Lemma field_length first last l :
  (first <= last <= length l)%nat -> length (field first last l) = (last - first)%nat.
Proof. intros H. unfold field. rewrite length_take, length_drop. lia. Qed.

Lemma datagram_fields l :
  l = field 0 4 l ++ field 4 5 l ++ field 5 6 l ++ field 6 8 l ++ field 8 12 l ++ field 12 20 l
        ++ drop 20 l.
Proof.
  rewrite <- !wire_field_split by lia. by rewrite drop_0.
Qed.

Lemma priority_code p c : RealtimePriority.from_code c = Ok p <-> RealtimePriority.code p = c.
Proof.
  split.
  - unfold RealtimePriority.from_code. repeat case_match; intros; by simplify_eq.
  - by intros <-; destruct p.
Qed.

(** What the other end receives of [d] at [t]. *)
Definition received (d : QueuedRealtimeDatagram) (t : N) : ReceivedRealtimeDatagram :=
  mkReceived (rd_flow d) (rd_generation d) (rd_sequence d) (rd_priority d) t (rd_payload d).

Definition datagram_wf (d : QueuedRealtimeDatagram) : Prop :=
  rd_flow d <= u16_max /\ rd_generation d <= u32_max /\ rd_sequence d <= u64_max
  /\ len (rd_payload d) + 20 <= usize_max.

Lemma datagram_decodes d t :
  datagram_wf d -> exists bs, encode_realtime_datagram d = Ok bs
    /\ decode_realtime_datagram bs t = Ok (received d t)
    /\ realtime_flow_from_wire bs = Some (rd_flow d)
    /\ len bs = REALTIME_DATAGRAM_HEADER_LEN + len (rd_payload d).
Proof.
  intros (Hf & Hg & Hs & Hl). unfold encode_realtime_datagram, checked_add.
  rewrite decide_True by (unfold REALTIME_DATAGRAM_HEADER_LEN; lia). cbn [ok_or mbind result_bind].
  eexists. split; [done|].
  set (bs := REALTIME_MAGIC ++ _). unfold decode_realtime_datagram, realtime_flow_from_wire.
  assert (len bs = 20 + len (rd_payload d)) as Hlen.
  { unfold bs. rewrite !length_app, !be_bytes_length. cbn [length str REALTIME_MAGIC]. cbn. lia. }
  assert (header_ok bs = true) as Hh.
  { unfold header_ok. apply andb_true_iff. split; apply bool_decide_eq_true; reflexivity. }
  assert (field 5 6 bs = be_bytes 1 (RealtimePriority.code (rd_priority d))) as Hp.
  { unfold bs. cbn. unfold byte_of_n. by rewrite N.div_1_r. }
  assert (field 6 8 bs = be_bytes 2 (rd_flow d)) as Hfl by reflexivity.
  assert (field 8 12 bs = be_bytes 4 (rd_generation d)) as Hge by reflexivity.
  assert (field 12 20 bs = be_bytes 8 (rd_sequence d)) as Hse by reflexivity.
  assert (drop 20 bs = rd_payload d) as Hpay by reflexivity.
  clearbody bs. rewrite Hp, Hfl, Hge, Hse, Hpay, Hlen, Hh.
  rewrite !from_be_bytes_small; cbn; try lia.
  2:{ by destruct (rd_priority d). }
  unfold REALTIME_DATAGRAM_HEADER_LEN.
  rewrite (proj2 (N.ltb_ge _ _)), (proj2 (N.leb_le _ _)) by lia. cbn.
  by rewrite (proj2 (priority_code _ _) eq_refl).
Qed.

(** Real-time datagrams survive the wire, exactly.  Encoding a datagram
    whose fields are in range yields bytes that decode to it and that the
    demultiplexer attributes to its flow; and whatever bytes decode are the
    encoding of what they decode to. *)
Theorem realtime_roundtrip :
  (forall d t, datagram_wf d -> exists bs, encode_realtime_datagram d = Ok bs
     /\ decode_realtime_datagram bs t = Ok (received d t)
     /\ realtime_flow_from_wire bs = Some (rd_flow d)
     /\ len bs = REALTIME_DATAGRAM_HEADER_LEN + len (rd_payload d))
  /\ (forall l t r dl, len l <= usize_max -> decode_realtime_datagram l t = Ok r ->
      received_at r = t
      /\ encode_realtime_datagram (mkDatagram (rx_flow r) (rx_generation r) (rx_sequence r) dl
           (rx_priority r) (rx_payload r)) = Ok l).
Proof.
  split; [intros; by apply datagram_decodes|].
  intros l t r dl Hmax H. unfold decode_realtime_datagram in H. inv_ok. guards. split; [done|].
  unfold header_ok in H1. apply andb_true_iff in H1 as [Hm Hv]. guards. cbn in H0.
  apply priority_code in H2. unfold encode_realtime_datagram, checked_add.
  unfold REALTIME_DATAGRAM_HEADER_LEN in *.
  cbn [rd_payload rd_priority rd_flow rd_generation rd_sequence rx_flow rx_generation rx_sequence
       rx_priority rx_payload].
  rewrite length_drop, decide_True by lia. cbn [ok_or mbind result_bind]. f_equal.
  assert (be_bytes 1 (RealtimePriority.code a1) = field 5 6 l) as Hp.
  { rewrite H2. apply be_bytes_from. rewrite field_length; lia. }
  cbn [be_bytes N.of_nat N.pow] in Hp. rewrite N.div_1_r in Hp.
  rewrite Hp, <- Hm, <- Hv, !be_bytes_from by (rewrite field_length; lia).
  by rewrite <- datagram_fields.
Qed.

Lemma realtime_roundtrip_witness :
  let d := mkDatagram 7 3 (2 ^ 40) 100 RealtimePriority.High (str "frame") in
  match encode_realtime_datagram d with
  | Ok bs => decode_realtime_datagram bs 5 = Ok (received d 5) /\ realtime_flow_from_wire bs = Some 7
             /\ len bs = 25
  | Err _ => False
  end.
Proof.
  pose proof (proj1 realtime_roundtrip
    (mkDatagram 7 3 (2 ^ 40) 100 RealtimePriority.High (str "frame")) 5
    ltac:(unfold datagram_wf; cbn; lia)) as (bs & H1 & H2 & H3 & H4).
  cbv zeta. rewrite H1. split; [exact H2|]. split; [exact H3|]. exact H4.
Defined.

(** ** The order of the queue *)

Lemma next_lt_spec e1 e2 :
  next_lt e1 e2 = true <->
  rank e1.2 < rank e2.2
  \/ rank e1.2 = rank e2.2 /\ (insertion_order e1.2 < insertion_order e2.2
     \/ insertion_order e1.2 = insertion_order e2.2 /\ e1.1 < e2.1).
Proof.
  unfold next_lt, insertion_lt.
  by rewrite !orb_true_iff, !andb_true_iff, !orb_true_iff, !andb_true_iff, !N.ltb_lt, !N.eqb_eq.
Qed.
Lemma next_lt_asym e1 e2 : next_lt e1 e2 = true -> next_lt e2 e1 = false.
Proof. intros H%next_lt_spec. apply not_true_iff_false. rewrite next_lt_spec. lia. Qed.
Lemma next_lt_trans e1 e2 e3 :
  next_lt e1 e2 = false -> next_lt e2 e3 = false -> next_lt e1 e3 = false.
Proof. rewrite <- !not_true_iff_false, !next_lt_spec. lia. Qed.

(** The queue serves by priority, then by age.  At any time, in any run,
    [pop_next] returns the oldest datagram of the live group that comes first
    by priority and, among equals, by insertion order and flow; it returns
    nothing only when no group is live. *)
Theorem realtime_order c m q0 ops now :
  realtime_queue_new c m = Ok q0 ->
  let q := (rt_run q0 ops).1 in
  match (pop_next now q).2 with
  | None => forall f g, groups q !! f = Some g -> pg_deadline g <= now
  | Some d => exists g rest, groups q !! rd_flow d = Some g /\ now < pg_deadline g
      /\ pg_datagrams g = rd_payload d :: rest
      /\ forall f g', groups q !! f = Some g' -> now < pg_deadline g' ->
           next_lt (f, g') (rd_flow d, g) = false
  end.
Proof.
  intros (H0 & _)%realtime_queue_new_inv q.
  assert (queue_inv q) as [_ _ Hinv].
  { apply (rt_run_ind (fun _ q => queue_inv q)); [done|]. intros. by apply rt_step_inv. }
  unfold pop_next, next_flow. pose proof (expire_same now q) as (Hex & _).
  destruct (min_by next_lt (btree_iter (groups (expire now q).1))) as [[f g]|] eqn:Hmin; cbn.
  - pose proof (min_by_least next_lt next_lt_trans next_lt_asym _ _ Hmin) as Hleast.
    apply min_by_elem, elem_of_btree_iter in Hmin. unfold pop_flow. rewrite Hmin.
    apply Hex in Hmin as [Hg Hlt].
    destruct (pg_datagrams g) as [|p rest] eqn:Hp; [by destruct (group_nonempty _ _ _ (Hinv _ _ Hg))|].
    cbn. exists g, rest. split_and!; try done. intros f' g' Hg' Hlt'.
    apply Hleast, elem_of_btree_iter, Hex. by split.
  - intros f g Hg. destruct (N.le_gt_cases (pg_deadline g) now) as [|Hlt]; [done|].
    assert ((f, g) ∈ btree_iter (groups (expire now q).1)) as Hin
      by (apply elem_of_btree_iter, Hex; by split).
    pose proof (min_by_some next_lt (btree_iter (groups (expire now q).1))) as Hsome.
    rewrite Hmin in Hsome. destruct Hsome as [? [=]].
    intros E. rewrite E in Hin. by apply not_elem_of_nil in Hin.
Qed.

(** ** A run *)

Definition sample_queue : RealtimeSendQueue :=
  mkQueue (mkQueueConfig 2 2 64) 16 ∅
    (set_rt_max_datagram_payload 16 (set_rt_current_datagram_payload (Some 16) default_telemetry)) 0 0.
Definition sample_datagram (flow sequence dl : N) (p : RealtimePriority.t) (payload : string) :=
  mkDatagram flow 1 sequence dl p (str payload).

(** Flow 1 is superseded, flow 2 expires, flow 3 evicts nothing of its rank. *)
Definition sample_ops : list rt_op :=
  [OpEnqueue (sample_datagram 1 1 100 RealtimePriority.Normal "old") 0;
   OpEnqueue (sample_datagram 2 1 20 RealtimePriority.High "late") 1;
   OpEnqueue (sample_datagram 1 2 100 RealtimePriority.Normal "new") 2;
   OpEnqueue (sample_datagram 1 2 90 RealtimePriority.Normal "more") 3;
   OpEnqueue (sample_datagram 3 1 90 RealtimePriority.Disposable "none") 4;
   OpPop 30; OpPop 30].

Lemma realtime_accounting_witness :
  let '(q, h) := rt_run sample_queue sample_ops in
  (total offered_by h, total popped_by h, rt_replaced (telemetry q), rt_expired (telemetry q),
    rt_congestion_dropped (telemetry q), rt_pending (telemetry q)) = (5, 2, 1, 1, 1, 0)
  /\ rt_replaced (telemetry q) + rt_expired (telemetry q) + rt_congestion_dropped (telemetry q)
      + rt_pending (telemetry q) + total popped_by h + total cleared_by h = total offered_by h.
Proof.
  pose proof (realtime_accounting (mkQueueConfig 2 2 64) 16 sample_queue sample_ops eq_refl) as H.
  assert (total offered_by (rt_run sample_queue sample_ops).2 = 5) as H5
    by (vm_compute; exact eq_refl).
  assert (let '(q, h) := rt_run sample_queue sample_ops in
    (total offered_by h, total popped_by h, rt_replaced (telemetry q), rt_expired (telemetry q),
      rt_congestion_dropped (telemetry q), rt_pending (telemetry q)) = (5, 2, 1, 1, 1, 0)) as Hr
    by (vm_compute; exact eq_refl).
  destruct (rt_run sample_queue sample_ops) as [q h]. cbn [fst snd] in *.
  split; [exact Hr|]. apply H. rewrite H5. lia.
Defined.

Lemma realtime_bounded_witness :
  let q := (rt_run sample_queue (take 5 sample_ops)).1 in
  (card (groups q), rt_pending (telemetry q)) = (2, 3)
  /\ card (groups q) <= 2 /\ rt_pending (telemetry q) <= 2 * 2.
Proof.
  pose proof (realtime_bounded (mkQueueConfig 2 2 64) 16 sample_queue (take 5 sample_ops) eq_refl)
    as (H1 & H2 & _).
  split; [vm_compute; exact eq_refl|]. split; [exact H1|exact H2].
Defined.

Lemma realtime_delivery_witness :
  exists d, (rt_run sample_queue sample_ops).2 !! 6%nat = Some (OpPop 30, OutPop (Some d))
  /\ rd_payload d = str "more" /\ 30 < rd_deadline d
  /\ exists j, current (take 6 (rt_run sample_queue sample_ops).2) j 1 1 2 90 (str "more").
Proof.
  exists (mkDatagram 1 1 2 90 RealtimePriority.Normal (str "more")).
  assert ((rt_run sample_queue sample_ops).2 !! 6%nat = Some (OpPop 30, OutPop (Some
    (mkDatagram 1 1 2 90 RealtimePriority.Normal (str "more"))))) as Hh
    by (vm_compute; exact eq_refl).
  pose proof (realtime_delivery (mkQueueConfig 2 2 64) 16 sample_queue sample_ops 6 (OpPop 30) _
    eq_refl Hh) as [(now & Hn & Hlt) Hj].
  injection Hn as <-. split; [exact Hh|]. split; [exact eq_refl|]. split; [exact Hlt|exact Hj].
Defined.

Lemma realtime_order_witness :
  let q := (rt_run sample_queue (take 4 sample_ops)).1 in
  option_map rd_payload (pop_next 5 q).2 = Some (str "late")
  /\ match (pop_next 5 q).2 with
     | None => False
     | Some d => exists g rest, groups q !! rd_flow d = Some g /\ 5 < pg_deadline g
         /\ pg_datagrams g = rd_payload d :: rest
         /\ forall f g', groups q !! f = Some g' -> 5 < pg_deadline g' ->
              next_lt (f, g') (rd_flow d, g) = false
     end.
Proof.
  pose proof (realtime_order (mkQueueConfig 2 2 64) 16 sample_queue (take 4 sample_ops) 5 eq_refl) as H.
  cbv zeta in *.
  assert (option_map rd_payload (pop_next 5 (rt_run sample_queue (take 4 sample_ops)).1).2
    = Some (str "late")) as Hp by (vm_compute; exact eq_refl).
  destruct (pop_next 5 (rt_run sample_queue (take 4 sample_ops)).1).2 as [d|]; [|discriminate Hp].
  split; [exact Hp|exact H].
Defined.
