(* ===== verification/Transport.v ===== *)
(** * Connections, control streams and the in-memory transport

    Models the trait [Connection], [ControlStream] and [MemoryConnection] of
    [transport.rs].  A connection is a handle on shared state: every method
    takes the state and returns it.  The two ends of an in-memory connection
    share two sides behind locks; what a method does under one lock is one step.
    Sending looks at its own side first, but only its own [close_write], which
    needs the same exclusive borrow, changes what it looks at. *)

From S2P Require Export Protocol Realtime.
Local Open Scope N_scope.

Definition transport_error (kind : TransportErrorKind.t) (message : string) : TransportError :=
  mkTransportError kind message.
Import TransportErrorKind.

(** ** The trait *)

Class Connection (C W : Type) := {
  metadata : C -> ConnectionMetadata;
  try_send : C -> list byte -> W -> W * result TransportError ();
  try_receive : C -> W -> W * result TransportError (option (list byte));
  try_send_control : C -> list byte -> W -> W * result TransportError ();
  try_receive_control : C -> W -> W * result TransportError (option (list byte));
  try_send_datagram : C -> list byte -> W -> W * result TransportError ();
  try_receive_datagram : C -> W -> W * result TransportError (option (list byte));
  close_write : C -> W -> W * result TransportError ();
  close_read : C -> W -> W * result TransportError ();
  connection_abort : C -> W -> W;
}.

Section provided.
Context {C W : Type} `{Connection C W}.
Implicit Types (c : C) (w : W).

(** The methods the trait provides. *)
Definition default_try_send_control c (message : list byte) w := try_send c message w.
Definition default_try_receive_control c w := try_receive c w.
Definition default_datagram {A} w : W * result TransportError A :=
  (w, Err (transport_error Unsupported "datagrams are not supported")).
Definition default_max_datagram_payload : option N := None.
Definition default_try_send_latest w : W * result TransportError SendOutcome :=
  (w, Ok Realtime.Unsupported).
Definition default_poll_realtime w : W * result TransportError N :=
  (w, Err (transport_error Unsupported "realtime datagrams are not supported")).
Definition default_try_receive_realtime w
    : W * result TransportError (option ReceivedRealtimeDatagram) :=
  (w, Err (transport_error Unsupported "realtime datagrams are not supported")).
Definition default_realtime_telemetry : RealtimeTelemetry := default_telemetry.
Definition default_take_realtime_events : list RealtimeEvent := [].

Definition try_send_with_context c (message : list byte) (context : OperationContext) (now : N) w
    : W * result TransportError () :=
  match context_check context now with
  | Err e => (w, Err e)
  | Ok _ => try_send c message w
  end.
Definition try_receive_with_context c (context : OperationContext) (now : N) w
    : W * result TransportError (option (list byte)) :=
  match context_check context now with
  | Err e => (w, Err e)
  | Ok _ => try_receive c w
  end.
End provided.

(** ** Control streams *)

Definition CONTROL_STREAM_MAGIC : list byte := str "MLCS".
Definition CONTROL_STREAM_VERSION : N := 1.
Definition CONTROL_STREAM_HEADER_LEN : N := 7.

(** The frame [ControlStream::try_send] builds. *)
Definition control_frame (protocol : ProtocolId) (message : list byte)
    : result TransportError (list byte) :=
  let p := protocol_id_str protocol in
  reject u16_max <? len p
    with transport_error MessageTooLarge "control stream protocol identifier is too large";
  _ ← ok_or (transport_error MessageTooLarge "control stream message is too large")
        (length ← checked_add usize_max CONTROL_STREAM_HEADER_LEN (len p);
         checked_add usize_max length (len message));
  Ok (CONTROL_STREAM_MAGIC ++ [byte_of_n CONTROL_STREAM_VERSION] ++ be_bytes 2 (len p) ++ p
      ++ message).

(** What [ControlStream::try_receive] makes of a frame. *)
Definition control_payload (protocol : ProtocolId) (framed : list byte)
    : result TransportError (list byte) :=
  reject (len framed <? CONTROL_STREAM_HEADER_LEN)
         || negb (bool_decide (field 0 4 framed = CONTROL_STREAM_MAGIC))
         || negb (bool_decide (field 4 5 framed = [byte_of_n CONTROL_STREAM_VERSION]))
    with transport_error Other "control stream frame is invalid";
  let protocol_len := from_be_bytes (field 5 7 framed) in
  payload_offset ← ok_or (transport_error MessageTooLarge "control stream frame size overflow")
                     (checked_add usize_max CONTROL_STREAM_HEADER_LEN protocol_len);
  name ← ok_or (transport_error Other "control stream frame is truncated")
           (slice_get CONTROL_STREAM_HEADER_LEN payload_offset framed);
  reject negb (bool_decide (name = protocol_id_str protocol))
    with transport_error Other "control stream protocol does not match";
  Ok (drop (N.to_nat payload_offset) framed).

Record ControlStream (C : Type) := mkControlStream { cs_protocol : ProtocolId; cs_connection : C }.
Arguments mkControlStream {C} _ _.
Arguments cs_protocol {C} _.
Arguments cs_connection {C} _.

Section control_stream.
Context {C W : Type} `{Connection C W}.

Definition open_control_stream (c : C) (protocol : ProtocolId)
    : result TransportError (ControlStream C) :=
  reject negb (reliable (metadata c))
    with transport_error Unsupported "reliable control streams are not supported";
  Ok (mkControlStream protocol c).

Definition control_try_send (s : ControlStream C) (message : list byte) (w : W)
    : W * result TransportError () :=
  match control_frame (cs_protocol s) message with
  | Err e => (w, Err e)
  | Ok framed => try_send_control (cs_connection s) framed w
  end.

Definition control_try_receive (s : ControlStream C) (w : W)
    : W * result TransportError (option (list byte)) :=
  let '(w, r) := try_receive_control (cs_connection s) w in
  (w, framed ← r;
      match framed with
      | None => Ok None
      | Some framed => payload ← control_payload (cs_protocol s) framed; Ok (Some payload)
      end).
End control_stream.

(** ** The in-memory transport *)

Record MemoryTransportConfig := mkMemoryConfig {
  queue_capacity : N;
  max_message_bytes : N;
  datagram_capacity : N;
}.
Definition default_memory_config : MemoryTransportConfig := mkMemoryConfig 16 (64 * 1024) 8.

Record MemorySide := mkSide {
  control : list (list byte);
  reliable_queue : list (list byte);
  datagram_queue : list (list byte);
  write_closed : bool;
  read_closed : bool;
  aborted : bool;
}.
Definition memory_side_new : MemorySide := mkSide [] [] [] false false false.

Inductive MemoryLane := LaneControl | LaneReliable | LaneDatagram.
#[export] Instance MemoryLane_eq_dec : EqDecision MemoryLane.
Proof. solve_decision. Defined.

(** The two sides, each shared by both connections. *)
Inductive pair_end := LeftEnd | RightEnd.
#[export] Instance pair_end_eq_dec : EqDecision pair_end.
Proof. solve_decision. Defined.
Definition other (e : pair_end) : pair_end :=
  match e with LeftEnd => RightEnd | RightEnd => LeftEnd end.
Record MemoryPair := mkPair { left_side : MemorySide; right_side : MemorySide }.
Definition side (e : pair_end) (w : MemoryPair) : MemorySide :=
  match e with LeftEnd => left_side w | RightEnd => right_side w end.
Definition set_side (e : pair_end) (s : MemorySide) (w : MemoryPair) : MemoryPair :=
  match e with LeftEnd => mkPair s (right_side w) | RightEnd => mkPair (left_side w) s end.

Record MemoryConnection := mkMemory {
  memory_metadata : ConnectionMetadata;
  memory_local : pair_end;
  memory_remote : pair_end;
  memory_config : MemoryTransportConfig;
}.

(** [memory_transport_pair]; its assertions panic. *)
Definition memory_transport_pair (left right : EndpointId) (c : MemoryTransportConfig)
    : option (MemoryConnection * MemoryConnection * MemoryPair) :=
  if (0 <? queue_capacity c) && (0 <? max_message_bytes c) then
    let meta l r := mkMetadata l r None true (0 <? datagram_capacity c) in
    Some (mkMemory (meta left right) LeftEnd RightEnd c, mkMemory (meta right left) RightEnd LeftEnd c,
          mkPair memory_side_new memory_side_new)
  else None.

Definition lane_queue (l : MemoryLane) (s : MemorySide) : list (list byte) :=
  match l with
  | LaneControl => control s
  | LaneReliable => reliable_queue s
  | LaneDatagram => datagram_queue s
  end.
Definition set_lane (l : MemoryLane) (q : list (list byte)) (s : MemorySide) : MemorySide :=
  match l with
  | LaneControl =>
    mkSide q (reliable_queue s) (datagram_queue s) (write_closed s) (read_closed s) (aborted s)
  | LaneReliable => mkSide (control s) q (datagram_queue s) (write_closed s) (read_closed s) (aborted s)
  | LaneDatagram => mkSide (control s) (reliable_queue s) q (write_closed s) (read_closed s) (aborted s)
  end.
Definition lane_capacity (c : MemoryTransportConfig) (l : MemoryLane) : N :=
  match l with LaneDatagram => datagram_capacity c | _ => queue_capacity c end.

Definition send_to_remote (c : MemoryConnection) (message : list byte) (lane : MemoryLane)
    (w : MemoryPair) : MemoryPair * result TransportError () :=
  let remote := side (memory_remote c) w in
  let queue := lane_queue lane remote in
  if max_message_bytes (memory_config c) <? len message then
    (w, Err (transport_error MessageTooLarge "message exceeds transport limit"))
  else if write_closed (side (memory_local c) w) then
    (w, Err (transport_error TransportErrorKind.Closed "write side is closed"))
  else if aborted remote then
    (w, Err (transport_error Aborted "remote connection aborted"))
  else if read_closed remote then
    (w, Err (transport_error TransportErrorKind.Closed "remote read side is closed"))
  else if lane_capacity (memory_config c) lane <=? len queue then
    (w, Err (transport_error WouldBlock "transport queue is full"))
  else (set_side (memory_remote c) (set_lane lane (queue ++ [message]) remote) w, Ok ()).

(** [receive_local] holds the lock of its own side while it looks there, drops
    it, and takes that of the other side to see whether that has ended; the
    other end may act in between.  [receive_poll] is the first part, with the
    answer when there is one already, and [receive_settle] the second. *)
Definition receive_poll (c : MemoryConnection) (lane : MemoryLane) (w : MemoryPair)
    : MemoryPair * option (result TransportError (list byte)) :=
  let local := side (memory_local c) w in
  if aborted local then (w, Some (Err (transport_error Aborted "connection aborted")))
  else if read_closed local then
    (w, Some (Err (transport_error TransportErrorKind.Closed "read side is closed")))
  else
    match pop_front (lane_queue lane local) with
    | Some (message, queue) =>
      (set_side (memory_local c) (set_lane lane queue local) w, Some (Ok message))
    | None => (w, None)
    end.
Definition receive_settle (c : MemoryConnection) (w : MemoryPair) : result TransportError (option (list byte)) :=
  if write_closed (side (memory_remote c) w) then Ok None
  else Err (transport_error WouldBlock "no message is ready").
(** The call when the other end does not act during it. *)
Definition receive_local (c : MemoryConnection) (lane : MemoryLane) (w : MemoryPair)
    : MemoryPair * result TransportError (option (list byte)) :=
  match receive_poll c lane w with
  | (w, Some r) => (w, Some <$> r)
  | (w, None) => (w, receive_settle c w)
  end.

Definition memory_send_datagram (c : MemoryConnection) (message : list byte) (w : MemoryPair) :=
  if datagram_capacity (memory_config c) =? 0 then default_datagram w
  else send_to_remote c message LaneDatagram w.
Definition memory_receive_datagram (c : MemoryConnection) (w : MemoryPair) :=
  if datagram_capacity (memory_config c) =? 0 then default_datagram w
  else receive_local c LaneDatagram w.

Definition memory_close_write (c : MemoryConnection) (w : MemoryPair)
    : MemoryPair * result TransportError () :=
  let s := side (memory_local c) w in
  (set_side (memory_local c)
     (mkSide (control s) (reliable_queue s) (datagram_queue s) true (read_closed s) (aborted s)) w,
   Ok ()).
Definition memory_close_read (c : MemoryConnection) (w : MemoryPair)
    : MemoryPair * result TransportError () :=
  let s := side (memory_local c) w in
  (set_side (memory_local c)
     (mkSide (control s) (reliable_queue s) (datagram_queue s) (write_closed s) true (aborted s)) w,
   Ok ()).
Definition memory_abort (c : MemoryConnection) (w : MemoryPair) : MemoryPair :=
  let s := side (memory_local c) w in
  set_side (memory_local c)
    (mkSide (control s) (reliable_queue s) (datagram_queue s) (write_closed s) (read_closed s) true) w.

Definition memory_connection : Connection MemoryConnection MemoryPair := {|
  metadata := memory_metadata;
  try_send c message := send_to_remote c message LaneReliable;
  try_receive c := receive_local c LaneReliable;
  try_send_control c message := send_to_remote c message LaneControl;
  try_receive_control c := receive_local c LaneControl;
  try_send_datagram := memory_send_datagram;
  try_receive_datagram := memory_receive_datagram;
  close_write := memory_close_write;
  close_read := memory_close_read;
  connection_abort := memory_abort;
|}.
#[export] Existing Instance memory_connection.
