(* ===== verification/TransportFacts.v ===== *)
(** * The in-memory transport is a set of bounded FIFOs; control streams are exact *)

From S2P Require Export Transport RealtimeWire.
Local Open Scope N_scope.
Import TransportErrorKind.

(** ** The specification: a bounded FIFO that can be ended

    Taking is one step when a message is ready.  Otherwise the taker has seen
    the queue empty, [fifo_looking], and a later step tells it whether the
    queue has ended; the sender may send and end it in between. *)

Record fifo := mkFifo {
  fifo_sent : list (list byte);
  fifo_taken : nat;
  fifo_ended : bool;
  fifo_looking : bool;
}.
Definition fifo_init : fifo := mkFifo [] 0 false false.

Inductive fifo_event :=
| EvSend (m : list byte) | EvFull | EvTake (m : list byte) | EvEmpty | EvEnd | EvWait | EvClose.

Inductive fifo_step (capacity limit : N) : fifo -> fifo_event -> fifo -> Prop :=
| step_send sent taken looking m :
    len m <= limit -> len sent < N.of_nat taken + capacity ->
    fifo_step capacity limit (mkFifo sent taken false looking) (EvSend m) (mkFifo (sent ++ [m]) taken false looking)
| step_full sent taken looking :
    N.of_nat taken + capacity <= len sent ->
    fifo_step capacity limit (mkFifo sent taken false looking) EvFull (mkFifo sent taken false looking)
| step_take sent taken ended m :
    sent !! taken = Some m ->
    fifo_step capacity limit (mkFifo sent taken ended false) (EvTake m) (mkFifo sent (S taken) ended false)
| step_empty sent ended :
    fifo_step capacity limit (mkFifo sent (length sent) ended false) EvEmpty (mkFifo sent (length sent) ended true)
| step_end sent taken :
    fifo_step capacity limit (mkFifo sent taken true true) EvEnd (mkFifo sent taken true false)
| step_wait sent taken :
    fifo_step capacity limit (mkFifo sent taken false true) EvWait (mkFifo sent taken false false)
| step_close sent taken ended looking :
    fifo_step capacity limit (mkFifo sent taken ended looking) EvClose (mkFifo sent taken true looking).

Inductive fifo_steps (capacity limit : N) : fifo -> list fifo_event -> fifo -> Prop :=
| steps_nil f : fifo_steps capacity limit f [] f
| steps_snoc f1 evs f2 ev f3 :
    fifo_steps capacity limit f1 evs f2 -> fifo_step capacity limit f2 ev f3 ->
    fifo_steps capacity limit f1 (evs ++ [ev]) f3.

(** ** Runs of a pair

    A receive that finds nothing goes on in [MSettle]; until then its end is
    borrowed, and its other methods cannot be called. *)

Inductive mem_op :=
| MSend (e : pair_end) (l : MemoryLane) (m : list byte)
| MRecv (e : pair_end) (l : MemoryLane)
| MSettle (e : pair_end)
| MCloseWrite (e : pair_end)
| MCloseRead (e : pair_end)
| MAbort (e : pair_end).
Inductive mem_out :=
| OutSent (r : result TransportError ())
| OutReceived (l : MemoryLane) (r : result TransportError (option (list byte)))
| OutEmpty
| OutClosed
| OutBorrowed.

Record MemoryRun := mkRun {
  mr_pair : MemoryPair;
  mr_left : option MemoryLane;
  mr_right : option MemoryLane;
}.
Definition receiving (e : pair_end) (s : MemoryRun) : option MemoryLane :=
  match e with LeftEnd => mr_left s | RightEnd => mr_right s end.
Definition with_pair (w : MemoryPair) (s : MemoryRun) : MemoryRun := mkRun w (mr_left s) (mr_right s).
Definition set_receiving (e : pair_end) (x : option MemoryLane) (s : MemoryRun) : MemoryRun :=
  match e with LeftEnd => mkRun (mr_pair s) x (mr_right s) | RightEnd => mkRun (mr_pair s) (mr_left s) x end.
Definition op_end (op : mem_op) : pair_end :=
  match op with
  | MSend e _ _ | MRecv e _ | MSettle e | MCloseWrite e | MCloseRead e | MAbort e => e
  end.

(** The methods of a lane, and the first part of its receiving one. *)
Definition lane_send {C W} `{Connection C W} (l : MemoryLane) : C -> list byte -> W -> _ :=
  match l with
  | LaneControl => try_send_control
  | LaneReliable => try_send
  | LaneDatagram => try_send_datagram
  end.
Definition lane_receive {C W} `{Connection C W} (l : MemoryLane) : C -> W -> _ :=
  match l with
  | LaneControl => try_receive_control
  | LaneReliable => try_receive
  | LaneDatagram => try_receive_datagram
  end.
Definition lane_poll (l : MemoryLane) (c : MemoryConnection) (w : MemoryPair)
    : MemoryPair * option (result TransportError (option (list byte))) :=
  if bool_decide (l = LaneDatagram) && (datagram_capacity (memory_config c) =? 0)
  then (w, Some (default_datagram w).2)
  else let '(w, r) := receive_poll c l w in (w, match r with Some r => Some (Some <$> r) | None => None end).

Section pair.
Context (left right : MemoryConnection).
Definition conn (e : pair_end) : MemoryConnection :=
  match e with LeftEnd => left | RightEnd => right end.

Definition mem_step (s : MemoryRun) (op : mem_op) : MemoryRun * mem_out :=
  let w := mr_pair s in
  match receiving (op_end op) s, op with
  | Some l, MSettle e => (set_receiving e None s, OutReceived l (receive_settle (conn e) w))
  | Some _, _ | None, MSettle _ => (s, OutBorrowed)
  | None, MSend e l m => let '(w, r) := lane_send l (conn e) m w in (with_pair w s, OutSent r)
  | None, MRecv e l =>
    match lane_poll l (conn e) w with
    | (w, Some r) => (with_pair w s, OutReceived l r)
    | (w, None) => (set_receiving e (Some l) (with_pair w s), OutEmpty)
    end
  | None, MCloseWrite e => (with_pair (close_write (conn e) w).1 s, OutClosed)
  | None, MCloseRead e => (with_pair (close_read (conn e) w).1 s, OutClosed)
  | None, MAbort e => (with_pair (connection_abort (conn e) w) s, OutClosed)
  end.

Fixpoint mem_run (s : MemoryRun) (ops : list mem_op) : MemoryRun * list (mem_op * mem_out) :=
  match ops with
  | [] => (s, [])
  | op :: ops =>
    let '(s, o) := mem_step s op in
    let '(s, h) := mem_run s ops in (s, (op, o) :: h)
  end.

(** The method is the two parts with nothing in between. *)
Lemma receive_alone s e l : receiving e s = None ->
  let '(w, r) := lane_receive l (conn e) (mr_pair s) in
  match mem_step s (MRecv e l) with
  | (s1, OutReceived _ r1) => s1 = with_pair w s /\ r1 = r
  | (s1, OutEmpty) => mem_step s1 (MSettle e) = (with_pair w s, OutReceived l r)
  | _ => False
  end.
Proof.
  intros Hr. unfold mem_step at 1. cbn [op_end]. rewrite Hr.
  assert (lane_receive l (conn e) (mr_pair s)
    = match lane_poll l (conn e) (mr_pair s) with
      | (w, Some r) => (w, r)
      | (w, None) => (w, receive_settle (conn e) w)
      end) as ->.
  { unfold lane_poll. destruct l; cbn; unfold memory_receive_datagram, receive_local.
    1, 2: by destruct (receive_poll _ _ _) as [w [r|]].
    destruct (datagram_capacity _ =? 0); [done|]. by destruct (receive_poll _ _ _) as [w [r|]]. }
  destruct (lane_poll l (conn e) (mr_pair s)) as [w [r|]] eqn:Hp; [done|].
  destruct s, e; cbn in Hr; by subst.
Qed.
End pair.

(** What one step shows of the FIFO of a lane towards an end. *)
Definition event_of (e : pair_end) (l : MemoryLane) (x : mem_op * mem_out) : option fifo_event :=
  match x with
  | (MSend e' l' m, OutSent r) =>
    if bool_decide (e' = other e /\ l' = l) then
      match r with
      | Ok _ => Some (EvSend m)
      | Err err => if bool_decide (te_kind err = WouldBlock) then Some EvFull else None
      end
    else None
  | (MRecv e' l', OutEmpty) => if bool_decide (e' = e /\ l' = l) then Some EvEmpty else None
  | ((MRecv e' _ | MSettle e'), OutReceived l' r) =>
    if bool_decide (e' = e /\ l' = l) then
      match r with
      | Ok (Some m) => Some (EvTake m)
      | Ok None => Some EvEnd
      | Err err => if bool_decide (te_kind err = WouldBlock) then Some EvWait else None
      end
    else None
  | (MCloseWrite e', OutClosed) => if bool_decide (e' = other e) then Some EvClose else None
  | _ => None
  end.
Definition events (e : pair_end) (l : MemoryLane) (h : list (mem_op * mem_out)) : list fifo_event :=
  omap (event_of e l) h.

(** What was accepted for an end and what it received. *)
Definition sends (evs : list fifo_event) : list (list byte) :=
  omap (fun ev => match ev with EvSend m => Some m | _ => None end) evs.
Definition takes (evs : list fifo_event) : list (list byte) :=
  omap (fun ev => match ev with EvTake m => Some m | _ => None end) evs.

Lemma events_cons e l x h :
  events e l (x :: h) = match event_of e l x with Some ev => [ev] | None => [] end ++ events e l h.
Proof. unfold events. cbn [omap list_omap]. by destruct (event_of e l x). Qed.
Lemma sends_app l1 l2 : sends (l1 ++ l2) = sends l1 ++ sends l2.
Proof. apply omap_app. Qed.
Lemma takes_app l1 l2 : takes (l1 ++ l2) = takes l1 ++ takes l2.
Proof. apply omap_app. Qed.

(** ** The FIFO keeps its promises *)

Lemma fifo_steps_inv capacity limit evs f :
  fifo_steps capacity limit fifo_init evs f ->
  fifo_sent f = sends evs /\ take (fifo_taken f) (fifo_sent f) = takes evs
  /\ (fifo_taken f <= length (fifo_sent f))%nat
  /\ len (fifo_sent f) <= N.of_nat (fifo_taken f) + capacity
  /\ Forall (fun m => len m <= limit) (fifo_sent f).
Proof.
  remember fifo_init as f0 eqn:E0.
  induction 1 as [f|f1 evs f2 ev f3 Hs IH Hstep]; subst.
  { split_and!; try done. cbn. lia. }
  destruct (IH eq_refl) as (H1 & H2 & H3 & H4 & H5).
  rewrite sends_app, takes_app. destruct Hstep; cbn in *; rewrite ?app_nil_r; split_and!; try done; try lia.
  - by rewrite H1.
  - rewrite take_app_le by lia. done.
  - rewrite length_app. cbn. lia.
  - rewrite length_app. cbn. lia.
  - apply Forall_app. split; [done|by constructor].
  - erewrite take_S_r by done. by rewrite H2.
  - by apply lookup_lt_Some in H.
Qed.

(** A receiver that is told of the end had, when its call began, received all
    that was accepted by then. *)
Lemma fifo_looking_since capacity limit evs f :
  fifo_steps capacity limit fifo_init evs f -> fifo_looking f = true ->
  exists before since, evs = before ++ EvEmpty :: since /\ takes evs = sends before /\ takes since = [].
Proof.
  remember fifo_init as f0 eqn:E0.
  induction 1 as [f|f1 evs f2 ev f3 Hs IH Hstep]; subst; [done|]. specialize (IH eq_refl). intros Hl.
  assert (fifo_looking f2 = true -> takes [ev] = [] -> exists before since,
    evs ++ [ev] = before ++ EvEmpty :: since /\ takes (evs ++ [ev]) = sends before /\ takes since = []) as Hgo.
  { intros (before & since & -> & Ht & Hn)%IH He. exists before, (since ++ [ev]).
    split; [by rewrite <- app_assoc|]. by rewrite !(takes_app _ [ev]), He, app_nil_r, Hn. }
  destruct Hstep; cbn in Hl; try (by subst); try (by apply Hgo).
  exists evs, []. apply fifo_steps_inv in Hs as (H1 & H2 & _). cbn in H1, H2. split; [done|]. split; [|done].
  rewrite takes_app, app_nil_r, <- H1, <- H2. by rewrite firstn_all.
Qed.

(** ** The simulation *)

Definition sim_pair (e : pair_end) (l : MemoryLane) (w : MemoryPair) (f : fifo) : Prop :=
  lane_queue l (side e w) = drop (fifo_taken f) (fifo_sent f)
  /\ (fifo_taken f <= length (fifo_sent f))%nat
  /\ fifo_ended f = write_closed (side (other e) w).
Definition sim (e : pair_end) (l : MemoryLane) (s : MemoryRun) (f : fifo) : Prop :=
  sim_pair e l (mr_pair s) f /\ fifo_looking f = bool_decide (receiving e s = Some l).

Lemma side_set_side e e' s w : side e (set_side e' s w) = if decide (e = e') then s else side e w.
Proof. by destruct e, e'. Qed.
Lemma lane_set_lane l l' q s :
  lane_queue l (set_lane l' q s) = if decide (l = l') then q else lane_queue l s.
Proof. by destruct l, l'. Qed.
Lemma write_closed_set_lane l q s : write_closed (set_lane l q s) = write_closed s.
Proof. by destruct l. Qed.
Lemma other_other e : other (other e) = e.
Proof. by destruct e. Qed.
Lemma other_ne e : other e <> e.
Proof. by destruct e. Qed.
Lemma receiving_with_pair e w s : receiving e (with_pair w s) = receiving e s.
Proof. by destruct e. Qed.
Lemma receiving_set e e' x s : receiving e (set_receiving e' x s) = if decide (e = e') then x else receiving e s.
Proof. by destruct e, e'. Qed.
Lemma pair_set_receiving e x s : mr_pair (set_receiving e x s) = mr_pair s.
Proof. by destruct e. Qed.

(** What an operation shows and does to one FIFO. *)
Definition simulated (capacity limit : N) (e : pair_end) (l : MemoryLane) (s : MemoryRun)
    (ev : option fifo_event) : fifo -> Prop := fun f =>
  match ev with
  | None => sim e l s f
  | Some ev => exists f', fifo_step capacity limit f ev f' /\ sim e l s f'
  end.

Section simulation.
Context (cfg : MemoryTransportConfig) (e : pair_end) (l : MemoryLane).
Abbreviation goes s ev f := (simulated (lane_capacity cfg l) (max_message_bytes cfg) e l s ev f).

(** Another lane, or the same lane of the other end, is left alone. *)
Lemma sim_pair_other d l' q w f : ~ (d = e /\ l' = l) ->
  sim_pair e l w f -> sim_pair e l (set_side d (set_lane l' q (side d w)) w) f.
Proof.
  intros Hne (Hq & Ht & He). split_and!; [|done|].
  - rewrite side_set_side. case_decide as E; [|done]. rewrite lane_set_lane.
    case_decide; [|by rewrite <- E]. by destruct Hne.
  - rewrite side_set_side. case_decide as E; [|done]. rewrite write_closed_set_lane, He. by rewrite E.
Qed.

Lemma send_simulated c d l' m s w' r f :
  memory_local c = d -> memory_remote c = other d -> memory_config c = cfg ->
  send_to_remote c m l' (mr_pair s) = (w', r) -> sim e l s f ->
  goes (with_pair w' s) (event_of e l (MSend d l' m, OutSent r)) f.
Proof.
  intros Hl Hr Hc Hs [Hsim Hlook]. pose proof Hsim as (Hq & Ht & He). unfold send_to_remote in Hs.
  rewrite Hl, Hr, Hc in Hs. cbn.
  destruct (decide (d = other e /\ l' = l)) as [[-> ->]|Hne].
  2:{ rewrite bool_decide_eq_false_2 by done. split; [|by rewrite receiving_with_pair]. cbn.
      repeat match type of Hs with (if ?b then _ else _) = _ => destruct b end; simplify_eq; try done.
      apply sim_pair_other; [|done]. intros [E ->]. destruct Hne. split; [|done]. by rewrite <- E, other_other. }
  rewrite bool_decide_eq_true_2 by done. rewrite other_other in Hs.
  assert (forall w f', sim_pair e l w f' -> fifo_looking f' = fifo_looking f -> sim e l (with_pair w s) f') as Hsims.
  { intros w f' Hp E. split; [done|]. by rewrite receiving_with_pair, E. }
  destruct (N.ltb_spec (max_message_bytes cfg) (len m)); [by simplify_eq; apply Hsims|].
  destruct (write_closed _) eqn:Hw; [by simplify_eq; apply Hsims|].
  destruct (aborted _); [by simplify_eq; apply Hsims|]. destruct (read_closed _); [by simplify_eq; apply Hsims|].
  destruct f as [sent taken ended looking]. cbn in *. subst ended.
  assert (len (lane_queue l (side e (mr_pair s))) = len sent - N.of_nat taken) as Hlen.
  { rewrite Hq, length_drop. lia. }
  destruct (N.leb_spec (lane_capacity cfg l) (len (lane_queue l (side e (mr_pair s))))); simplify_eq; cbn.
  - eexists. split; [apply step_full; lia|by apply Hsims].
  - eexists. split; [apply step_send; lia|]. apply Hsims; [|done]. split_and!; cbn.
    + rewrite side_set_side, decide_True, lane_set_lane, decide_True by done.
      by rewrite Hq, drop_app_le.
    + rewrite length_app. lia.
    + rewrite side_set_side, decide_False by apply other_ne. done.
Qed.

Lemma poll_simulated c d l' s w' r f :
  memory_local c = d -> receiving d s = None -> receive_poll c l' (mr_pair s) = (w', r) -> sim e l s f ->
  match r with
  | Some r => goes (with_pair w' s) (event_of e l (MRecv d l', OutReceived l' (Some <$> r))) f
  | None => goes (set_receiving d (Some l') (with_pair w' s)) (event_of e l (MRecv d l', OutEmpty)) f
  end.
Proof.
  intros Hl Hb Hs [Hsim Hlook]. pose proof Hsim as (Hq & Ht & He). unfold receive_poll in Hs. rewrite Hl in Hs.
  assert (forall w f', sim_pair e l w f' -> fifo_looking f' = fifo_looking f -> sim e l (with_pair w s) f') as Hsims.
  { intros w f' Hp E. split; [done|]. by rewrite receiving_with_pair, E. }
  destruct (aborted _); [simplify_eq; cbn; repeat case_bool_decide; try done; by apply Hsims|].
  destruct (read_closed _); [simplify_eq; cbn; repeat case_bool_decide; try done; by apply Hsims|].
  destruct (decide (d = e /\ l' = l)) as [[-> ->]|Hne].
  - rewrite Hb in Hlook. destruct f as [sent taken ended looking]. cbn in *. subst looking.
    destruct (lane_queue l (side e (mr_pair s))) as [|m q] eqn:Hlane; cbn in Hs; simplify_eq; cbn;
      rewrite bool_decide_eq_true_2 by done.
    + assert (taken = length sent) as ->.
      { apply (f_equal length) in Hq. rewrite length_drop in Hq. cbn in Hq. lia. }
      eexists. split; [apply step_empty|]. split; [|by rewrite receiving_set, decide_True, bool_decide_eq_true_2].
      rewrite pair_set_receiving. split_and!; cbn; [by rewrite Hlane, drop_all|done|done].
    + symmetry in Hq. assert (sent !! taken = Some m) as Hm.
      { rewrite <- (Nat.add_0_r taken), <- lookup_drop. by rewrite Hq. }
      eexists. split; [by apply step_take|]. split; [|cbn; by rewrite receiving_with_pair, Hb].
      split_and!; cbn.
      * rewrite side_set_side, decide_True, lane_set_lane, decide_True by done.
        by rewrite (drop_S _ _ _ Hm) in Hq; simplify_eq.
      * apply lookup_lt_Some in Hm. lia.
      * rewrite side_set_side, decide_False by apply other_ne. done.
  - destruct (pop_front _) as [[m q]|]; simplify_eq; cbn; rewrite bool_decide_eq_false_2 by done.
    + apply Hsims; [by apply sim_pair_other|done].
    + split; [by rewrite pair_set_receiving|]. rewrite receiving_set, receiving_with_pair, Hlook.
      destruct (decide (e = _)) as [E|]; [|done]. rewrite <- E in *. rewrite Hb, !bool_decide_eq_false_2; [done| |done].
      intros [= ->]. by destruct Hne.
Qed.
Lemma settle_simulated c d l' s f :
  memory_remote c = other d -> receiving d s = Some l' -> sim e l s f ->
  goes (set_receiving d None s) (event_of e l (MSettle d, OutReceived l' (receive_settle c (mr_pair s)))) f.
Proof.
  intros Hr Hb [Hsim Hlook]. pose proof Hsim as (Hq & Ht & He). unfold receive_settle. rewrite Hr. cbn.
  destruct (decide (d = e /\ l' = l)) as [[-> ->]|Hne].
  - rewrite bool_decide_eq_true_2 by done. destruct f as [sent taken ended looking]. cbn in *.
    rewrite Hb, bool_decide_eq_true_2 in Hlook by done. subst looking. rewrite <- He.
    destruct ended; cbn; (eexists; split; [constructor|]); (split; [by rewrite pair_set_receiving|]);
      by rewrite receiving_set, decide_True.
  - rewrite bool_decide_eq_false_2 by done. split; [by rewrite pair_set_receiving|]. rewrite receiving_set, Hlook.
    destruct (decide (e = _)) as [<-|]; [|done]. rewrite Hb, !bool_decide_eq_false_2; [done|done|].
    intros [= ->]. by destruct Hne.
Qed.
End simulation.

Section run_simulation.
Context (left_id right_id : EndpointId) (cfg : MemoryTransportConfig).
Context (left right : MemoryConnection) (w0 : MemoryPair).
Context (Hpair : memory_transport_pair left_id right_id cfg = Some (left, right, w0)).

Lemma pair_wired e :
  memory_local (conn left right e) = e /\ memory_remote (conn left right e) = other e
  /\ memory_config (conn left right e) = cfg.
Proof. unfold memory_transport_pair in Hpair. case_match; [|done]. by simplify_eq; destruct e. Qed.

Lemma mem_step_simulated e l s op f :
  sim e l s f ->
  simulated (lane_capacity cfg l) (max_message_bytes cfg) e l (mem_step left right s op).1
    (event_of e l (op, (mem_step left right s op).2)) f.
Proof.
  intros Hsim. unfold mem_step. destruct (receiving (op_end op) s) as [l'|] eqn:Hb.
  { destruct op as [d l0 m|d l0|d|d|d|d]; try exact Hsim. destruct (pair_wired d) as (_ & Hr & _).
    by apply settle_simulated. }
  destruct op as [d l' m|d l'|d|d|d|d]; destruct (pair_wired d) as (Hl & Hr & Hc); cbn [op_end] in *.
  - assert (forall w' r, send_to_remote (conn left right d) m l' (mr_pair s) = (w', r) ->
      simulated (lane_capacity cfg l) (max_message_bytes cfg) e l (with_pair w' s)
        (event_of e l (MSend d l' m, OutSent r)) f) as Hsend.
    { intros w' r Hs. by eapply send_simulated. }
    destruct (lane_send l' (conn left right d) m (mr_pair s)) as [w' r] eqn:Hs.
    destruct l'; cbn in Hs; [by apply Hsend..|]. unfold memory_send_datagram, default_datagram in Hs.
    case_match; [|by apply Hsend]. simplify_eq. cbn [fst snd]. unfold event_of. destruct s. by case_bool_decide.
  - unfold lane_poll. destruct (_ && _); [cbn [default_datagram fst snd event_of]; destruct s; by case_bool_decide|].
    destruct (receive_poll _ _ _) as [w' r] eqn:Hs. apply (poll_simulated cfg e l _ d l' s w' r f Hl Hb) in Hs; [|done].
    by destruct r.
  - exact Hsim.
  - cbn. unfold memory_close_write. rewrite Hl. destruct Hsim as [(Hq & Ht & He) Hlook].
    destruct f as [sent taken ended looking]. cbn in *. destruct (bool_decide_reflect (d = other e)) as [->|Hd]; cbn.
    + eexists. split; [apply step_close|]. split; [|by rewrite receiving_with_pair]. split_and!; [|done|].
      * cbn. rewrite side_set_side, decide_False by (intros E; by apply (other_ne e)). done.
      * cbn. rewrite side_set_side, decide_True by done. done.
    + split; [|by rewrite receiving_with_pair]. split_and!; [|done|]; cbn.
      * rewrite side_set_side. destruct (decide (e = d)) as [<-|]; [by destruct l|done].
      * rewrite side_set_side. by rewrite decide_False.
  - cbn. unfold memory_close_read. rewrite Hl. destruct Hsim as [(Hq & Ht & He) Hlook].
    split; [|by rewrite receiving_with_pair]. split_and!; [|done|]; cbn; rewrite side_set_side;
      destruct (decide (_ = d)) as [<-|]; done.
  - cbn. unfold memory_abort. rewrite Hl. destruct Hsim as [(Hq & Ht & He) Hlook].
    split; [|by rewrite receiving_with_pair]. split_and!; [|done|]; cbn; rewrite side_set_side;
      destruct (decide (_ = d)) as [<-|]; done.
Qed.

Lemma mem_run_simulated e l ops s evs f :
  sim e l s f -> fifo_steps (lane_capacity cfg l) (max_message_bytes cfg) fifo_init evs f ->
  exists f', sim e l (mem_run left right s ops).1 f'
    /\ fifo_steps (lane_capacity cfg l) (max_message_bytes cfg) fifo_init
         (evs ++ events e l (mem_run left right s ops).2) f'.
Proof.
  revert s evs f. induction ops as [|op ops IH]; intros s evs f Hsim Hsteps.
  { exists f. cbn. by rewrite app_nil_r. }
  cbn [mem_run].
  pose proof (mem_step_simulated e l s op f Hsim) as Hs.
  destruct (mem_step left right s op) as [w1 o]. cbn [fst snd] in Hs.
  destruct (mem_run left right w1 ops) as [w2 h] eqn:Hrun. cbn [fst snd]. rewrite events_cons.
  destruct (event_of e l (op, o)) as [ev|]; cbn [simulated] in Hs.
  - destruct Hs as (f1 & Hstep & Hs).
    destruct (IH w1 (evs ++ [ev]) f1 Hs (steps_snoc _ _ _ _ _ _ _ Hsteps Hstep))
      as (f' & H1 & H2). rewrite Hrun in *. exists f'. by rewrite <- app_assoc in H2.
  - destruct (IH w1 evs f Hs Hsteps) as (f' & H1 & H2). rewrite Hrun in *. by exists f'.
Qed.
End run_simulation.

(** C7: The in-memory transport implements bounded FIFOs.  Under any
    interleaving of the critical sections of both ends' methods, what each lane
    shows in each direction is a run of a FIFO of the lane's capacity that can
    be ended: the messages received are a prefix of those accepted, in order;
    at most the capacity is unread, each within the message limit; a send is
    refused as full only when it is; and a receiving call reports the end, or
    tells its caller to wait, only when it saw the queue empty, and then the
    end only when the other side had closed by the end of the call: every
    message accepted before the call began had been received. *)
Theorem memory_refines_fifo left_id right_id cfg left right w0 ops e l :
  memory_transport_pair left_id right_id cfg = Some (left, right, w0) ->
  let '(s, h) := mem_run left right (mkRun w0 None None) ops in
  let evs := events e l h in
  (exists f, fifo_steps (lane_capacity cfg l) (max_message_bytes cfg) fifo_init evs f
    /\ lane_queue l (side e (mr_pair s)) = drop (fifo_taken f) (sends evs)
    /\ takes evs = take (fifo_taken f) (sends evs)
    /\ len (lane_queue l (side e (mr_pair s))) <= lane_capacity cfg l
    /\ Forall (fun m => len m <= max_message_bytes cfg) (sends evs))
  /\ (receiving e s = Some l -> exists before since,
        evs = before ++ EvEmpty :: since /\ takes evs = sends before /\ takes since = []).
Proof.
  intros Hpair.
  assert (sim e l (mkRun w0 None None) fifo_init) as H0.
  { unfold memory_transport_pair in Hpair. case_match; [|done]. by simplify_eq; destruct e, l. }
  destruct (mem_run_simulated _ _ _ _ _ _ Hpair e l ops (mkRun w0 None None) [] fifo_init H0) as (f & Hsim & Hsteps);
    [by constructor|].
  destruct (mem_run left right (mkRun w0 None None) ops) as [w h]. cbn [app fst snd] in *.
  destruct Hsim as [(Hq & _ & _) Hlook]. split.
  - exists f. split; [done|]. apply fifo_steps_inv in Hsteps as (H1 & H2 & H3 & H4 & H5). rewrite <- H1.
    split_and!; [done|done| |done]. rewrite Hq, length_drop. lia.
  - intros Hb. eapply fifo_looking_since; [done|]. by rewrite Hlook, Hb, bool_decide_eq_true_2.
Qed.

Definition sample_config : MemoryTransportConfig := mkMemoryConfig 1 4 0.
Definition sample_left : MemoryConnection :=
  mkMemory (mkMetadata (id_of EndpointKind 1) (id_of EndpointKind 2) None true false) LeftEnd RightEnd
    sample_config.
Definition sample_right : MemoryConnection :=
  mkMemory (mkMetadata (id_of EndpointKind 2) (id_of EndpointKind 1) None true false) RightEnd LeftEnd
    sample_config.
Definition sample_start : MemoryRun := mkRun (mkPair memory_side_new memory_side_new) None None.
Definition sample_mem_ops : list mem_op :=
  [MRecv RightEnd LaneReliable; MSend RightEnd LaneReliable (str "busy"); MSend LeftEnd LaneReliable (str "ping");
   MSettle RightEnd; MSend LeftEnd LaneReliable (str "more"); MSend LeftEnd LaneControl (str "ctl");
   MSend RightEnd LaneReliable (str "pong"); MCloseWrite LeftEnd; MRecv RightEnd LaneReliable;
   MRecv RightEnd LaneReliable; MSend LeftEnd LaneReliable (str "x"); MSettle RightEnd].
Definition sample_events : list fifo_event :=
  [EvEmpty; EvSend (str "ping"); EvWait; EvFull; EvClose; EvTake (str "ping"); EvEmpty; EvEnd].

Lemma memory_refines_fifo_witness :
  events RightEnd LaneReliable (mem_run sample_left sample_right sample_start sample_mem_ops).2 = sample_events
  /\ exists f, fifo_steps 1 4 fifo_init sample_events f.
Proof.
  pose proof (memory_refines_fifo (id_of EndpointKind 1) (id_of EndpointKind 2) sample_config
    sample_left sample_right (mkPair memory_side_new memory_side_new) sample_mem_ops RightEnd
    LaneReliable eq_refl) as H.
  assert (events RightEnd LaneReliable (mem_run sample_left sample_right sample_start sample_mem_ops).2
    = sample_events) as He by (vm_compute; exact eq_refl).
  split; [exact He|]. unfold sample_start in He.
  destruct (mem_run sample_left sample_right _ sample_mem_ops) as [w h]. cbn [snd] in He. cbv zeta in H.
  rewrite He in H. destruct H as [(f & Hf & _) _]. exists f. exact Hf.
Defined.

(** A message sent while a receive is between its two locks, and a close after
    it: the receiver is told that the stream has ended although the message
    waits for it, and the next call gives it. *)
Lemma receive_end_races :
  let '(s, h) := mem_run sample_left sample_right sample_start
    [MRecv RightEnd LaneReliable; MSend LeftEnd LaneReliable (str "late"); MCloseWrite LeftEnd; MSettle RightEnd;
     MRecv RightEnd LaneReliable] in
  h.*2 = [OutEmpty; OutSent (Ok ()); OutClosed; OutReceived LaneReliable (Ok None);
          OutReceived LaneReliable (Ok (Some (str "late")))].
Proof. vm_compute. reflexivity. Qed.

(** ** Control streams *)

Lemma slice_get_drop {A} first last (l s : list A) :
  slice_get first last l = Some s ->
  drop (N.to_nat first) l = s ++ drop (N.to_nat last) l /\ len s = last - first /\ last <= len l.
Proof.
  intros Hs. pose proof (slice_get_length _ _ _ _ Hs) as Hlen. unfold slice_get in Hs.
  case_decide as Hb; [|done]. simplify_eq. split_and!; [|lia|lia].
  rewrite <- (take_drop (N.to_nat (last - first)) (drop (N.to_nat first) l)) at 1.
  rewrite drop_drop. do 2 f_equal. lia.
Qed.

Lemma control_fields (l : list byte) : l = field 0 4 l ++ field 4 5 l ++ field 5 7 l ++ drop 7 l.
Proof. rewrite <- !wire_field_split by lia. by rewrite drop_0. Qed.

(** Every accepted frame is the one the sender of the protocol builds. *)
Lemma control_payload_frame p framed m :
  len framed <= usize_max -> control_payload p framed = Ok m -> control_frame p m = Ok framed.
Proof.
  intros Hmax H. unfold control_payload, CONTROL_STREAM_HEADER_LEN in H. inv_ok. guards.
  unfold checked_add in H1. case_decide; [|done]. simplify_eq.
  apply slice_get_drop in H2 as (Hd & Hlen & Hle).
  set (n := from_be_bytes (field 5 7 framed)) in *.
  assert (be_bytes 2 n = field 5 7 framed) as Hb by (apply be_bytes_from; rewrite field_length; lia).
  assert (n < 65536) as Hn.
  { unfold n. pose proof (from_be_bytes_bound (field 5 7 framed)) as Hb'.
    rewrite field_length in Hb' by lia. done. }
  unfold control_frame, checked_add, CONTROL_STREAM_HEADER_LEN.
  rewrite reject_pass by (apply N.ltb_ge; lia).
  assert (len (protocol_id_str p) = n) as Hn' by lia.
  rewrite Hn', decide_True by lia. cbn [mbind option_bind].
  rewrite length_drop, decide_True by lia. cbn [ok_or mbind result_bind]. f_equal.
  rewrite Hb. change (N.to_nat 7) with 7%nat in Hd.
  rewrite <- Hd, <- H, <- H0. by rewrite <- control_fields.
Qed.

Lemma control_frame_payload p framed m :
  control_frame p m = Ok framed -> control_payload p framed = Ok m.
Proof.
  intros H. unfold control_frame, CONTROL_STREAM_HEADER_LEN in H. inv_ok. guards.
  unfold checked_add in H1. case_decide; cbn in H1; [|done]. case_decide; [|done]. simplify_eq.
  match goal with |- control_payload p ?x = _ => set (framed := x) end.
  assert (framed = (CONTROL_STREAM_MAGIC ++ [byte_of_n CONTROL_STREAM_VERSION]
    ++ be_bytes 2 (len (protocol_id_str p))) ++ protocol_id_str p ++ m) as Hf
    by (unfold framed; by rewrite <- !app_assoc).
  assert (len framed = 7 + len (protocol_id_str p) + len m) as Hlen.
  { rewrite Hf, !length_app, be_bytes_length. cbn [length CONTROL_STREAM_MAGIC]. cbn. lia. }
  assert (field 5 7 framed = be_bytes 2 (len (protocol_id_str p))) as H57 by reflexivity.
  assert (field 0 4 framed = CONTROL_STREAM_MAGIC) as H04 by reflexivity.
  assert (field 4 5 framed = [byte_of_n CONTROL_STREAM_VERSION]) as H45 by reflexivity.
  unfold control_payload, CONTROL_STREAM_HEADER_LEN.
  rewrite reject_pass.
  2:{ rewrite H04, H45, !bool_decide_eq_true_2 by done. cbn. rewrite orb_false_r, orb_false_r.
      apply N.ltb_ge. lia. }
  rewrite H57, from_be_bytes_small by (cbn; lia). unfold checked_add. rewrite decide_True by done.
  cbn [ok_or mbind result_bind].
  assert (slice_get 7 (7 + len (protocol_id_str p)) framed = Some (protocol_id_str p)) as ->.
  { rewrite Hf. apply slice_get_app; rewrite !length_app, be_bytes_length; cbn; lia. }
  cbn [ok_or mbind result_bind]. rewrite reject_pass by by rewrite bool_decide_eq_true_2.
  f_equal. rewrite Hf, app_assoc. apply drop_app_length'.
  rewrite !length_app, be_bytes_length. cbn. lia.
Qed.

(** Control streams are exact.  A frame is accepted for a protocol exactly
    when that protocol's sender builds it from the message delivered, so a
    frame of one protocol is never read as another's; and over a reliable
    in-memory connection a message sent on an idle control lane is the
    next one the peer's stream of the same protocol receives. *)
Theorem control_stream_exact p q framed m :
  len framed <= usize_max ->
  (control_payload p framed = Ok m <-> control_frame p m = Ok framed)
  /\ (control_frame q m = Ok framed -> is_ok (control_payload p framed) -> p = q)
  /\ forall left_id right_id cfg left right w0 w w' s s',
       memory_transport_pair left_id right_id cfg = Some (left, right, w0) ->
       open_control_stream left p = Ok s -> open_control_stream right p = Ok s' ->
       control (right_side w) = [] ->
       control_try_send s m w = (w', Ok ()) ->
       (control_try_receive s' w').2 = Ok (Some m).
Proof.
  intros Hmax. split; [split; [by apply control_payload_frame|by apply control_frame_payload]|].
  split.
  - intros Hq [m' Hm']. pose proof (control_frame_payload _ _ _ Hq) as Hm.
    unfold control_payload in Hm, Hm'. inv_ok. guards. simplify_eq. destruct p, q. cbn in *. congruence.
  - intros left_id right_id cfg left right w0 w w' s s' Hpair Hs Hs' Hidle Hsend.
    pose proof (pair_wired _ _ _ _ _ _ Hpair LeftEnd) as (Hll & Hlr & _).
    pose proof (pair_wired _ _ _ _ _ _ Hpair RightEnd) as (Hrl & Hrr & _). cbn [conn other] in *.
    unfold open_control_stream in Hs, Hs'. inv_ok.
    unfold control_try_send in Hsend. cbn in Hsend.
    destruct (control_frame p m) as [f|] eqn:Hf; [|done].
    unfold control_try_receive. cbn. unfold send_to_remote in Hsend. rewrite Hll, Hlr in Hsend.
    unfold receive_local, receive_poll. rewrite Hrl. cbn in *.
    repeat match type of Hsend with (if ?b then _ else _) = _ => destruct b eqn:? end; try done.
    simplify_eq. rewrite Hidle. cbn.
    by rewrite (control_frame_payload _ _ _ Hf).
Qed.

Definition sample_protocol : ProtocolId := mkProtocolId (str "mutsuki.control").
Definition wide_config : MemoryTransportConfig := mkMemoryConfig 1 64 0.

Lemma control_stream_exact_witness :
  match memory_transport_pair (id_of EndpointKind 1) (id_of EndpointKind 2) wide_config with
  | Some (l, r, w) =>
    match open_control_stream l sample_protocol, open_control_stream r sample_protocol with
    | Ok s, Ok s' =>
      (control_try_receive s' (control_try_send s (str "hello") w).1).2 = Ok (Some (str "hello"))
    | _, _ => False
    end
  | None => False
  end.
Proof.
  pose proof (proj2 (proj2 (control_stream_exact sample_protocol sample_protocol [] (str "hello")
    ltac:(cbn; lia)))) as H.
  specialize (H (id_of EndpointKind 1) (id_of EndpointKind 2) wide_config
    (mkMemory (mkMetadata (id_of EndpointKind 1) (id_of EndpointKind 2) None true false)
       LeftEnd RightEnd wide_config)
    (mkMemory (mkMetadata (id_of EndpointKind 2) (id_of EndpointKind 1) None true false)
       RightEnd LeftEnd wide_config)
    (mkPair memory_side_new memory_side_new)
    (mkPair memory_side_new memory_side_new)).
  exact (H _ _ _ eq_refl eq_refl eq_refl eq_refl (pair_snd_eq _ _ eq_refl)).
Defined.
