(* ===== verification/Trust.v ===== *)
(** * Trust records and the file-backed trust store

    Models [trust.rs] and [file_store.rs] of [mutsuki-link-pairing].  The file
    system and [serde_json] are outside: a file is its length and the DTOs it
    parses to, the length of a written file is a parameter, and each operation
    is told how its calls of the file system end.
    A slice of a string at a byte that is not a character boundary panics;
    [None] is a panic. *)

From S2P Require Export Control.
Local Open Scope N_scope.

Definition DEFAULT_MAX_TRUST_RECORDS : N := 1024.
Definition MAX_PUBLIC_KEY_BYTES : N := 4 * 1024.
Definition MAX_ALIAS_BYTES : N := 256.
Definition MAX_PERMISSIONS : N := 128.
Definition MAX_PERMISSION_NAMESPACE_BYTES : N := 128.
Definition MAX_PREVIOUS_KEY_FINGERPRINTS : N := 64.
Definition MAX_TRUST_STORE_FILE_BYTES : N := 16 * 1024 * 1024.

(** ** Data *)

Inductive LinkPermission :=
| PermConnect | PermOpenNamespace (namespace : list byte) | PermDatagram | PermTrackingPublish
| PermTrackingSubscribe | PermTrackingNegotiate | PermTrackingCalibrationWrite.
#[export] Instance LinkPermission_eq_dec : EqDecision LinkPermission.
Proof. solve_decision. Defined.

(** The derived order: by constructor, then by namespace. *)
Definition permission_key (p : LinkPermission) : list byte :=
  match p with
  | PermConnect => [byte_of_n 0]
  | PermOpenNamespace n => byte_of_n 1 :: n
  | PermDatagram => [byte_of_n 2]
  | PermTrackingPublish => [byte_of_n 3]
  | PermTrackingSubscribe => [byte_of_n 4]
  | PermTrackingNegotiate => [byte_of_n 5]
  | PermTrackingCalibrationWrite => [byte_of_n 6]
  end.
#[export] Instance permission_key_inj : Inj (=) (=) permission_key.
Proof. intros [] []; cbn; intros; by simplify_eq. Qed.
Definition permission_of_key (l : list byte) : option LinkPermission :=
  match l with
  | [] => None
  | tag :: n =>
    match n_of_byte tag with
    | 0 => Some PermConnect
    | 1 => Some (PermOpenNamespace n)
    | 2 => Some PermDatagram
    | 3 => Some PermTrackingPublish
    | 4 => Some PermTrackingSubscribe
    | 5 => Some PermTrackingNegotiate
    | _ => Some PermTrackingCalibrationWrite
    end
  end.
#[export] Instance LinkPermission_countable : Countable LinkPermission.
Proof. apply (inj_countable permission_key permission_of_key). by intros []. Defined.
#[export] Instance LinkPermission_order : KeyOrder LinkPermission := bytes_key_order permission_key.

Inductive KeyState :=
| KeyActive
| KeyRevoked (revoked_at_unix_ms : N)
| KeyRotated (rotated_at_unix_ms : N) (new_peer_id : PeerId).
#[export] Instance KeyState_eq_dec : EqDecision KeyState.
Proof. solve_decision. Defined.

Record TrustRecord := mkTrustRecord {
  tr_peer_id : PeerId;
  tr_public_key : list byte;
  tr_alias : list byte;
  tr_first_paired_at_unix_ms : N;
  tr_permissions : gset LinkPermission;
  tr_key_state : KeyState;
  tr_last_pairing_challenge_hash : vec byte 32;
  tr_previous_key_fingerprints : list (vec byte 32);
}.
#[export] Instance TrustRecord_eq_dec : EqDecision TrustRecord.
Proof. solve_decision. Defined.

Definition public_key_fingerprint `{Sha256} (r : TrustRecord) : vec byte 32 :=
  sha256 (tr_public_key r).
Definition trust_is_active (r : TrustRecord) : bool := bool_decide (tr_key_state r = KeyActive).

Module TrustStoreErrorKind.
Inductive t :=
| Io | Corrupt | Unavailable | UnknownPeer | Revoked | Rotated | IdentityMismatch | Conflict
| LimitExceeded.
#[global] Instance t_eq_dec : EqDecision t.
Proof. solve_decision. Defined.
End TrustStoreErrorKind.
Record TrustStoreError := mkTrustError { ts_kind : TrustStoreErrorKind.t; ts_message : string }.

(** ** Validation *)

(** [BTreeSet] iterates in order; [any] does not depend on it. *)
Definition bad_namespace (p : LinkPermission) : bool :=
  match p with
  | PermOpenNamespace n => bool_decide (n = []) || (MAX_PERMISSION_NAMESPACE_BYTES <? len n)
  | _ => false
  end.
Definition validate_record (r : TrustRecord) : result TrustStoreError () :=
  reject bool_decide (tr_public_key r = []) || (MAX_PUBLIC_KEY_BYTES <? len (tr_public_key r))
         || bool_decide (tr_alias r = []) || (MAX_ALIAS_BYTES <? len (tr_alias r))
         || (MAX_PERMISSIONS <? card (tr_permissions r))
         || (MAX_PREVIOUS_KEY_FINGERPRINTS <? len (tr_previous_key_fingerprints r))
         || existsb bad_namespace (elements (tr_permissions r))
    with mkTrustError TrustStoreErrorKind.LimitExceeded "trust record exceeds configured limits";
  Ok ().

(** ** The store's interface and the authorisation of a reconnection *)

Class TrustStore (S : Type) := {
  ts_get : S -> PeerId -> result TrustStoreError (option TrustRecord);
  ts_list : S -> result TrustStoreError (list TrustRecord);
}.

Definition authorize_trusted_reconnect {S} `{TrustStore S} (store : S) (peer : PeerId)
    (presented_public_key : list byte) : result TrustStoreError TrustRecord :=
  found ← ts_get store peer;
  record ← ok_or (mkTrustError TrustStoreErrorKind.UnknownPeer "peer has no trust record") found;
  _ ← validate_record record;
  _ ← match tr_key_state record with
      | KeyActive => Ok ()
      | KeyRevoked _ => Err (mkTrustError TrustStoreErrorKind.Revoked "peer trust has been revoked")
      | KeyRotated _ _ =>
        Err (mkTrustError TrustStoreErrorKind.Rotated "peer identity key was rotated")
      end;
  reject negb (bool_decide (tr_public_key record = presented_public_key))
    with mkTrustError TrustStoreErrorKind.IdentityMismatch
           "peer public key does not match trust record";
  Ok record.

(** ** The stored form *)

Definition corrupt : TrustStoreError :=
  mkTrustError TrustStoreErrorKind.Corrupt "trust store data is invalid".

Inductive KeyStateDto :=
| DtoActive
| DtoRevoked (revoked_at_unix_ms : N)
| DtoRotated (rotated_at_unix_ms : N) (new_peer_id : list byte).
(** [PermissionDto] has the constructors of [LinkPermission], renamed on disk. *)
Abbreviation PermissionDto := LinkPermission.
Record RecordDto := mkDto {
  dto_peer_id : list byte;
  dto_public_key : list byte;
  dto_alias : list byte;
  dto_first_paired_at_unix_ms : N;
  dto_permissions : list PermissionDto;
  dto_key_state : KeyStateDto;
  dto_last_pairing_challenge_hash : list byte;
  dto_previous_key_fingerprints : list (list byte);
}.

(** [encode]: two lower-case digits a byte. *)
Definition hex_digit (n : N) : byte := byte_of_n (if n <? 10 then 48 + n else 87 + n).
Definition hex_encode (l : list byte) : list byte :=
  l ≫= (fun b => [hex_digit (n_of_byte b / 16); hex_digit (n_of_byte b mod 16)]).

(** [char::to_digit(16)]. *)
Definition hex_value (b : byte) : option N :=
  let n := n_of_byte b in
  if (48 <=? n) && (n <=? 57) then Some (n - 48)
  else if (65 <=? n) && (n <=? 70) then Some (n - 55)
  else if (97 <=? n) && (n <=? 102) then Some (n - 87)
  else None.

(** [u8::from_str_radix(s, 16)] of two bytes: a leading plus is allowed. *)
Definition from_str_radix_16 (a b : byte) : option N :=
  if bool_decide (a = chr "+") then hex_value b
  else x ← hex_value a; y ← hex_value b; Some (16 * x + y).

(** [s.is_char_boundary(i)] of the suffix at [i]. *)
Definition char_boundary (suffix : list byte) : bool :=
  match suffix with [] => true | b :: _ => negb (in_range 128 191 b) end.

(** The loop of [decode_hex_32] over the remaining [n] bytes. *)
Fixpoint decode_hex_loop (n : nat) (l : list byte) : option (result TrustStoreError (list byte)) :=
  match n with
  | O => Some (Ok [])
  | S n =>
    match l with
    | a :: b :: rest =>
      if negb (char_boundary l) || negb (char_boundary rest) then None
      else
        match from_str_radix_16 a b with
        | None => Some (Err corrupt)
        | Some x =>
          r ← decode_hex_loop n rest;
          Some (bytes ← r; Ok (byte_of_n x :: bytes))
        end
    | _ => None
    end
  end.
Definition decode_32 (value : list byte) : result TrustStoreError (vec byte 32) :=
  ok_or corrupt (to_array 32 value).
Definition decode_hex_32 (value : list byte) : option (result TrustStoreError (vec byte 32)) :=
  if negb (len value =? 64) then Some (Err corrupt)
  else r ← decode_hex_loop 32 value; Some (bytes ← r; decode_32 bytes).
Definition decode_peer_id (value : list byte) : option (result TrustStoreError PeerId) :=
  r ← decode_hex_32 value; Some (bytes ← r; Ok (from_bytes (k := PeerKind) bytes)).

Definition decode_key_state (s : KeyStateDto) : option (result TrustStoreError KeyState) :=
  match s with
  | DtoActive => Some (Ok KeyActive)
  | DtoRevoked t => Some (Ok (KeyRevoked t))
  | DtoRotated t p => r ← decode_peer_id p; Some (p ← r; Ok (KeyRotated t p))
  end.

(** [TrustRecord::try_from]. *)
Definition record_try_from (d : RecordDto) : option (result TrustStoreError TrustRecord) :=
  r ← decode_peer_id (dto_peer_id d);
  match r with
  | Err e => Some (Err e)
  | Ok peer =>
    match (challenge ← decode_32 (dto_last_pairing_challenge_hash d);
           previous ← mapM_result decode_32 (dto_previous_key_fingerprints d);
           Ok (challenge, previous)) with
    | Err e => Some (Err e)
    | Ok (challenge, previous) =>
      s ← decode_key_state (dto_key_state d);
      Some (s ← s;
            let record := mkTrustRecord peer (dto_public_key d) (dto_alias d)
                            (dto_first_paired_at_unix_ms d) (list_to_set (dto_permissions d)) s
                            challenge previous in
            _ ← validate_record record;
            Ok record)
    end
  end.

(** [RecordDto::from]; the permissions are listed in order. *)
Definition dto_from (r : TrustRecord) : RecordDto :=
  mkDto (hex_encode (vec_to_list (as_bytes (tr_peer_id r)))) (tr_public_key r) (tr_alias r)
    (tr_first_paired_at_unix_ms r) (merge_sort key_le (elements (tr_permissions r)))
    match tr_key_state r with
    | KeyActive => DtoActive
    | KeyRevoked t => DtoRevoked t
    | KeyRotated t p => DtoRotated t (hex_encode (vec_to_list (as_bytes p)))
    end
    (vec_to_list (tr_last_pairing_challenge_hash r))
    (vec_to_list <$> tr_previous_key_fingerprints r).

(** ** The file-backed store *)

(** A file: its length, and the DTOs it parses to, if it does. *)
Record StoredFile := mkFile { file_length : N; file_dtos : option (list RecordDto) }.
(** How long a file [serde_json::to_writer_pretty] makes of DTOs. *)
Class SerdeFile := written_length : list RecordDto -> N.

(** How the calls of the file system end: reading the file's metadata,
    opening it, writing the temporary file, and moving that into place. *)
Record FileIo := mkIo {
  io_windows : bool;
  io_metadata : result TrustStoreError ();
  io_open : result TrustStoreError ();
  io_write : result TrustStoreError ();
  io_remove : result TrustStoreError ();
  io_rename : result TrustStoreError ();
}.

Record FileTrustStore := mkFileStore {
  fs_records : gmap PeerId TrustRecord;
  fs_max_records : N;
  fs_disk : option StoredFile;
}.

Definition unknown_peer : TrustStoreError :=
  mkTrustError TrustStoreErrorKind.UnknownPeer "peer has no trust record".
Definition limit_error : TrustStoreError :=
  mkTrustError TrustStoreErrorKind.LimitExceeded "trust store limit exceeded".

Definition invalid_store : TrustStoreError :=
  mkTrustError TrustStoreErrorKind.Corrupt "trust store file is invalid".

(** The records of a parsed file; a later record replaces an earlier one of
    the same peer. *)
Fixpoint read_records (l : list RecordDto) (m : gmap PeerId TrustRecord)
    : option (result TrustStoreError (gmap PeerId TrustRecord)) :=
  match l with
  | [] => Some (Ok m)
  | d :: l =>
    r ← record_try_from d;
    match r with
    | Err e => Some (Err e)
    | Ok record => read_records l (<[tr_peer_id record := record]> m)
    end
  end.

(** [persist]: the records go to a temporary file, which is renamed; on Windows
    the file in its place is removed first, so a rename that then fails leaves
    none. *)
Definition dtos_of (m : gmap PeerId TrustRecord) : list RecordDto := dto_from <$> (btree_iter m).*2.
Definition persist `{SerdeFile} (io : FileIo) (m : gmap PeerId TrustRecord) (disk : option StoredFile)
    : option StoredFile * result TrustStoreError () :=
  match io_write io with
  | Err e => (disk, Err e)
  | Ok _ =>
    let '(disk, removed) :=
      if io_windows io && bool_decide (is_Some disk) then
        match io_remove io with Ok _ => (None, Ok ()) | Err e => (disk, Err e) end
      else (disk, Ok ()) in
    match removed with
    | Err e => (disk, Err e)
    | Ok _ =>
      match io_rename io with
      | Err e => (disk, Err e)
      | Ok _ => (Some (mkFile (written_length (dtos_of m)) (Some (dtos_of m))), Ok ())
      end
    end
  end.

(** [open_with_limit] on a path with the given file, or none. *)
Definition open_with_limit `{SerdeFile} (io : FileIo) (disk : option StoredFile) (max_records : N)
    : option (result TrustStoreError FileTrustStore) :=
  if max_records =? 0 then Some (Err limit_error)
  else
    match disk with
    | Some file =>
      match io_metadata io with
      | Err e => Some (Err e)
      | Ok _ =>
        if MAX_TRUST_STORE_FILE_BYTES <? file_length file then Some (Err limit_error)
        else
          match (_ ← io_open io; ok_or invalid_store (file_dtos file)) with
          | Err e => Some (Err e)
          | Ok dtos =>
            if max_records <? len dtos then Some (Err limit_error)
            else
              r ← read_records dtos ∅;
              Some (records ← r; Ok (mkFileStore records max_records disk))
          end
      end
    | None =>
      let '(disk, r) := persist io ∅ None in
      Some (_ ← r; Ok (mkFileStore ∅ max_records disk))
    end.

Definition replace `{SerdeFile} (io : FileIo) (m : gmap PeerId TrustRecord) (s : FileTrustStore)
    : FileTrustStore * result TrustStoreError () :=
  let '(disk, r) := persist io m (fs_disk s) in
  (mkFileStore (match r with Ok _ => m | Err _ => fs_records s end) (fs_max_records s) disk, r).

Definition file_get (s : FileTrustStore) (p : PeerId) : result TrustStoreError (option TrustRecord) :=
  Ok (fs_records s !! p).
Definition file_list (s : FileTrustStore) : result TrustStoreError (list TrustRecord) :=
  Ok (btree_iter (fs_records s)).*2.
Definition file_trust_store : TrustStore FileTrustStore := {| ts_get := file_get; ts_list := file_list |}.
#[export] Existing Instance file_trust_store.

Definition trust_upsert `{SerdeFile} (io : FileIo) (record : TrustRecord) (s : FileTrustStore)
    : FileTrustStore * result TrustStoreError () :=
  match validate_record record with
  | Err e => (s, Err e)
  | Ok _ =>
    if bool_decide (fs_records s !! tr_peer_id record = None)
       && (fs_max_records s <=? card (fs_records s))
    then (s, Err limit_error)
    else replace io (<[tr_peer_id record := record]> (fs_records s)) s
  end.

Definition trust_remove `{SerdeFile} (io : FileIo) (p : PeerId) (s : FileTrustStore)
    : FileTrustStore * result TrustStoreError bool :=
  match fs_records s !! p with
  | None => (s, Ok false)
  | Some _ =>
    let '(s, r) := replace io (delete p (fs_records s)) s in (s, _ ← r; Ok true)
  end.

Definition with_key_state (k : KeyState) (r : TrustRecord) : TrustRecord :=
  mkTrustRecord (tr_peer_id r) (tr_public_key r) (tr_alias r) (tr_first_paired_at_unix_ms r)
    (tr_permissions r) k (tr_last_pairing_challenge_hash r) (tr_previous_key_fingerprints r).

Definition trust_revoke `{SerdeFile} (io : FileIo) (p : PeerId) (now : N) (s : FileTrustStore)
    : FileTrustStore * result TrustStoreError () :=
  match fs_records s !! p with
  | None => (s, Err unknown_peer)
  | Some r => replace io (<[p := with_key_state (KeyRevoked now) r]> (fs_records s)) s
  end.

Definition trust_rotate `{Sha256} `{SerdeFile} (io : FileIo) (old_peer new_peer : PeerId)
    (new_key : list byte) (challenge_hash : vec byte 32) (now : N) (s : FileTrustStore)
    : FileTrustStore * result TrustStoreError TrustRecord :=
  if bool_decide (new_key = []) || bool_decide (new_peer = old_peer) then
    (s, Err (mkTrustError TrustStoreErrorKind.Conflict "identity rotation parameters conflict"))
  else if negb (bool_decide (fs_records s !! new_peer = None)) then
    (s, Err (mkTrustError TrustStoreErrorKind.Conflict "new peer identity already exists"))
  else if fs_max_records s <=? card (fs_records s) then (s, Err limit_error)
  else
    match fs_records s !! old_peer with
    | None => (s, Err unknown_peer)
    | Some old =>
      if negb (trust_is_active old) then
        (s, Err (mkTrustError TrustStoreErrorKind.Conflict "only an active identity can rotate"))
      else
        let replacement :=
          mkTrustRecord new_peer new_key (tr_alias old) (tr_first_paired_at_unix_ms old)
            (tr_permissions old) KeyActive challenge_hash
            (tr_previous_key_fingerprints old ++ [public_key_fingerprint old]) in
        match validate_record replacement with
        | Err e => (s, Err e)
        | Ok _ =>
          let '(s, r) :=
            replace io (<[new_peer := replacement]>
                         (<[old_peer := with_key_state (KeyRotated now new_peer) old]> (fs_records s))) s
          in (s, _ ← r; Ok replacement)
        end
    end.
