(* ===== verification/TrustFacts.v ===== *)
(** * The trust store survives restarts, and trust is withdrawn for good *)

From S2P Require Export Trust ControlCodecFacts.
Local Open Scope N_scope.

(** ** The stored form *)

Lemma hex_digits b :
  from_str_radix_16 (hex_digit (n_of_byte b / 16)) (hex_digit (n_of_byte b mod 16)) = Some (n_of_byte b)
  /\ in_range 128 191 (hex_digit (n_of_byte b / 16)) = false.
Proof. by destruct b. Qed.

Lemma decode_hex_encode l : decode_hex_loop (length l) (hex_encode l) = Some (Ok l).
Proof.
  induction l as [|b l IH]; [done|].
  change (hex_encode (b :: l))
    with (hex_digit (n_of_byte b / 16) :: hex_digit (n_of_byte b mod 16) :: hex_encode l).
  cbn [length decode_hex_loop char_boundary]. destruct (hex_digits b) as [-> ->].
  assert (char_boundary (hex_encode l) = true) as ->.
  { destruct l as [|c l]; [done|]. cbn. by destruct (hex_digits c) as [_ ->]. }
  cbn. rewrite IH. cbn. by rewrite byte_of_n_of_byte.
Qed.

Lemma hex_encode_length l : length (hex_encode l) = (2 * length l)%nat.
Proof.
  induction l as [|b l IH]; [done|].
  change (hex_encode (b :: l))
    with (hex_digit (n_of_byte b / 16) :: hex_digit (n_of_byte b mod 16) :: hex_encode l).
  cbn. lia.
Qed.

Lemma decode_hex_32_encode (v : vec byte 32) :
  decode_hex_32 (hex_encode (vec_to_list v)) = Some (Ok v).
Proof.
  unfold decode_hex_32. rewrite hex_encode_length, length_vec_to_list.
  change (negb (N.of_nat (2 * 32) =? 64)) with false. cbv iota.
  pose proof (decode_hex_encode (vec_to_list v)) as Hd. rewrite length_vec_to_list in Hd.
  rewrite Hd. cbn [mbind option_bind result_bind]. unfold decode_32. by rewrite to_array_vec.
Qed.

Lemma decode_peer_encode (p : PeerId) :
  decode_peer_id (hex_encode (vec_to_list (as_bytes p))) = Some (Ok p).
Proof.
  destruct p as [v]. revert v.
  change (forall v : vec byte 32, decode_peer_id (hex_encode (vec_to_list v))
    = Some (Ok (from_bytes (k := PeerKind) v))).
  intros v. unfold decode_peer_id. by rewrite decode_hex_32_encode.
Qed.

Lemma decode_32_vec (v : vec byte 32) : decode_32 (vec_to_list v) = Ok v.
Proof. unfold decode_32. by rewrite to_array_vec. Qed.

Lemma mapM_decode_32 (l : list (vec byte 32)) : mapM_result decode_32 (vec_to_list <$> l) = Ok l.
Proof.
  induction l as [|v l IH]; [done|]. cbn [fmap list_fmap mapM_result].
  rewrite decode_32_vec. cbn [mbind result_bind]. by rewrite IH.
Qed.

Lemma sorted_permissions (s : gset LinkPermission) :
  list_to_set (merge_sort key_le (elements s)) = s.
Proof.
  apply set_eq. intros p. rewrite elem_of_list_to_set, merge_sort_Permutation. apply elem_of_elements.
Qed.

Lemma record_round_trip r : validate_record r = Ok () -> record_try_from (dto_from r) = Some (Ok r).
Proof.
  intros Hv. unfold record_try_from, dto_from. cbn [dto_peer_id dto_last_pairing_challenge_hash
    dto_previous_key_fingerprints dto_key_state dto_permissions dto_public_key dto_alias
    dto_first_paired_at_unix_ms].
  rewrite decode_peer_encode. cbn [mbind option_bind].
  rewrite decode_32_vec.
  cbn [mbind result_bind]. rewrite mapM_decode_32. cbn [mbind result_bind].
  rewrite sorted_permissions.
  assert (decode_key_state match tr_key_state r with
    | KeyActive => DtoActive
    | KeyRevoked t => DtoRevoked t
    | KeyRotated t p => DtoRotated t (hex_encode (vec_to_list (as_bytes p)))
    end = Some (Ok (tr_key_state r))) as ->.
  { destruct (tr_key_state r); cbn [decode_key_state]; [done|done|]. by rewrite decode_peer_encode. }
  cbn [mbind option_bind result_bind]. destruct r. cbn in *. by rewrite Hv.
Qed.

(** ** Reading a file *)

Definition insert_record (m : gmap PeerId TrustRecord) (r : TrustRecord) : gmap PeerId TrustRecord :=
  <[tr_peer_id r := r]> m.

Lemma read_records_from l m :
  Forall (fun r => validate_record r = Ok ()) l ->
  read_records (dto_from <$> l) m = Some (Ok (fold_left insert_record l m)).
Proof.
  intros Hl. revert m. induction Hl as [|r l Hr Hl IH]; intros m; [done|].
  cbn [fmap list_fmap read_records]. rewrite record_round_trip by done. cbn [mbind option_bind]. apply IH.
Qed.

Lemma fold_insert_lookup l m p r :
  NoDup (tr_peer_id <$> l) ->
  fold_left insert_record l m !! p = Some r <->
  (r ∈ l /\ tr_peer_id r = p) \/ (p ∉ tr_peer_id <$> l) /\ m !! p = Some r.
Proof.
  revert m. induction l as [|x l IH]; intros m Hnd; cbn [fold_left fmap list_fmap].
  { split; [right; split; [apply not_elem_of_nil|done]|]. intros [[H _]|[_ ?]]; [|done].
    by apply not_elem_of_nil in H. }
  apply NoDup_cons in Hnd as [Hx Hnd]. rewrite IH by done. unfold insert_record at 1.
  rewrite lookup_insert_Some, elem_of_cons, not_elem_of_cons. split.
  - intros [[H1 H2]|[H1 [[<- <-]|[H2 H3]]]]; [by left; split; [right|]|by left; split; [left|]|].
    right. naive_solver.
  - intros [[[->|H1] <-]|[[H1 H2] H3]]; [right; naive_solver|by left|]. right. naive_solver.
Qed.

(** A well-formed table: every record valid and under its own identity. *)
Definition table_ok (m : gmap PeerId TrustRecord) : Prop :=
  forall p r, m !! p = Some r -> tr_peer_id r = p /\ validate_record r = Ok ().

Lemma table_values (m : gmap PeerId TrustRecord) r :
  table_ok m -> r ∈ (btree_iter m).*2 <-> m !! tr_peer_id r = Some r.
Proof.
  intros Hm. rewrite list_elem_of_fmap. split.
  - intros ([p r'] & -> & H%elem_of_btree_iter). cbn. by destruct (Hm _ _ H) as [-> _].
  - intros H. exists (tr_peer_id r, r). split; [done|]. by apply elem_of_btree_iter.
Qed.

Lemma table_keys (m : gmap PeerId TrustRecord) :
  table_ok m -> tr_peer_id <$> (btree_iter m).*2 = (btree_iter m).*1.
Proof.
  intros Hm. rewrite <- list_fmap_compose. apply list_fmap_ext. intros i [p r] Hi. cbn.
  apply list_elem_of_lookup_2, elem_of_btree_iter in Hi. by apply Hm in Hi as [? _].
Qed.

Lemma read_dtos m : table_ok m -> read_records (dtos_of m) ∅ = Some (Ok m).
Proof.
  intros Hm. unfold dtos_of. rewrite read_records_from.
  2:{ apply Forall_forall. intros r Hr. apply table_values in Hr; [|done]. by apply Hm in Hr as [_ ?]. }
  do 2 f_equal. apply map_eq. intros p. apply option_eq. intros r.
  rewrite fold_insert_lookup.
  2:{ rewrite table_keys by done. apply btree_iter_nodup_keys. }
  rewrite table_values by done. split.
  - intros [[H <-]|[_ ?%lookup_empty_Some]]; done.
  - intros H. left. destruct (Hm _ _ H) as [-> _]. done.
Qed.

Lemma record_try_from_valid d r : record_try_from d = Some (Ok r) -> validate_record r = Ok ().
Proof.
  unfold record_try_from. destruct (decode_peer_id _) as [[p|]|]; cbn; try done.
  destruct (decode_32 _); cbn; [|done]. destruct (mapM_result _ _); cbn; [|done].
  destruct (decode_key_state _) as [[s|]|]; cbn; try done.
  match goal with |- context [validate_record ?x] => destruct (validate_record x) as [[]|] eqn:E end;
    cbn; [|done]. intros. by simplify_eq.
Qed.

Lemma read_records_ok l m m' :
  read_records l m = Some (Ok m') -> table_ok m ->
  table_ok m' /\ (size m' <= size m + length l)%nat.
Proof.
  revert m. induction l as [|d l IH]; intros m; cbn; [intros; simplify_eq; split; [done|lia]|].
  destruct (record_try_from d) as [[r|]|] eqn:Hr; cbn; try done.
  intros Hread Hm. apply IH in Hread as [H1 H2].
  - split; [done|]. rewrite map_size_insert in H2. destruct (m !! _); cbn in H2; lia.
  - apply record_try_from_valid in Hr. intros p r' [[<- <-]|[_ ?]]%lookup_insert_Some; [done|]. by apply Hm.
Qed.

(** ** The invariant *)

Section invariant.
Context `{SerdeFile}.

(** What a write leaves on disk. *)
Lemma persist_spec io m disk disk' r :
  persist io m disk = (disk', r) ->
  match r with
  | Ok _ => disk' = Some (mkFile (written_length (dtos_of m)) (Some (dtos_of m)))
  | Err _ => disk' = disk \/ (io_windows io = true /\ disk' = None)
  end.
Proof.
  unfold persist. destruct (io_write io); [|intros [= <- <-]; by left].
  destruct (io_windows io && bool_decide (is_Some disk)) eqn:Hw.
  - apply andb_true_iff in Hw as [Hw _]. destruct (io_remove io); [|intros [= <- <-]; by left].
    destruct (io_rename io); intros [= <- <-]; [done|by right].
  - destruct (io_rename io); intros [= <- <-]; [done|by left].
Qed.
Lemma replace_records io m s :
  fs_records (replace io m s).1 = match (replace io m s).2 with Ok _ => m | Err _ => fs_records s end.
Proof. unfold replace. by destruct (persist io m (fs_disk s)). Qed.
Lemma replace_max io m s : fs_max_records (replace io m s).1 = fs_max_records s.
Proof. unfold replace. by destruct (persist io m (fs_disk s)). Qed.
Lemma replace_keeps_file io m s :
  io_windows io = false -> is_Some (fs_disk s) -> is_Some (fs_disk (replace io m s).1).
Proof.
  intros Hw Hd. unfold replace. destruct (persist io m (fs_disk s)) as [disk r] eqn:E. apply persist_spec in E.
  cbn. destruct r; [by subst|]. destruct E as [->|[? _]]; congruence.
Qed.

Record store_ok (s : FileTrustStore) : Prop := {
  store_max : 0 < fs_max_records s;
  store_card : card (fs_records s) <= fs_max_records s;
  store_table : table_ok (fs_records s);
  store_disk : forall f, fs_disk s = Some f -> exists d, file_dtos f = Some d /\ len d <= fs_max_records s
    /\ read_records d ∅ = Some (Ok (fs_records s));
}.

Lemma replace_ok io m s :
  store_ok s -> table_ok m -> card m <= fs_max_records s -> store_ok (replace io m s).1.
Proof.
  intros [H1 H2 H3 H4] Hm Hc. unfold replace. destruct (persist io m (fs_disk s)) as [disk r] eqn:E.
  apply persist_spec in E. destruct r as [[]|e]; split; cbn; try done.
  - intros f Hf. rewrite E in Hf. injection Hf as <-. exists (dtos_of m). split; [done|].
    split; [|by apply read_dtos]. unfold dtos_of. by rewrite !length_fmap, btree_iter_length.
  - intros f Hf. destruct E as [->|[_ ->]]; [by apply H4|done].
Qed.

Inductive trust_op :=
| TUpsert (record : TrustRecord)
| TRemove (p : PeerId)
| TRevoke (p : PeerId) (now : N)
| TRotate (old_peer new_peer : PeerId) (key : list byte) (challenge_hash : vec byte 32) (now : N).

Definition trust_step `{Sha256} (s : FileTrustStore) (x : trust_op * FileIo)
    : FileTrustStore :=
  let '(op, io) := x in
  match op with
  | TUpsert r => (trust_upsert io r s).1
  | TRemove p => (trust_remove io p s).1
  | TRevoke p now => (trust_revoke io p now s).1
  | TRotate old new key ch now => (trust_rotate io old new key ch now s).1
  end.

Lemma validate_with_key_state k r : validate_record (with_key_state k r) = validate_record r.
Proof. done. Qed.

Lemma table_insert m p r :
  table_ok m -> tr_peer_id r = p -> validate_record r = Ok () -> table_ok (<[p := r]> m).
Proof. intros Hm Hp Hv q r' [[<- <-]|[_ ?]]%lookup_insert_Some; [done|]. by apply Hm. Qed.
Lemma table_delete m p : table_ok m -> table_ok (delete p m).
Proof. intros Hm q r [_ ?]%lookup_delete_Some. by apply Hm. Qed.

Lemma validate_unit r u : validate_record r = Ok u -> validate_record r = Ok ().
Proof. by destruct u. Qed.

Lemma trust_step_ok `{Sha256} s x : store_ok s -> store_ok (trust_step s x).
Proof.
  intros Hs. pose proof Hs as [H1 H2 H3 _].
  pose proof (fun io m => replace_ok io m s Hs) as Hr.
  destruct x as [[r|p|p now|old new key ch now] io]; cbn.
  - unfold trust_upsert. destruct (validate_record r) as [u|] eqn:Hv; [|done].
    destruct (_ && _) eqn:Hfull; [done|]. apply Hr.
    + apply table_insert; [done..|]. by eapply validate_unit.
    + rewrite map_size_insert. destruct (fs_records s !! tr_peer_id r) eqn:E; [done|].
      rewrite bool_decide_eq_true_2 in Hfull by done. cbn in *. guards. lia.
  - unfold trust_remove. destruct (fs_records s !! p) eqn:E; [|done].
    pose proof (Hr io (delete p (fs_records s))) as Hm. destruct (replace _ _ _). cbn in *. apply Hm.
    + by apply table_delete.
    + rewrite map_size_delete, E. cbn. lia.
  - unfold trust_revoke. destruct (fs_records s !! p) as [r|] eqn:E; [|done]. destruct (H3 _ _ E) as [Hp Hv].
    apply Hr; [by apply table_insert|]. by rewrite map_size_insert, E.
  - unfold trust_rotate. destruct (_ || _) eqn:Hb; [done|]. guards.
    destruct (negb _) eqn:Hnew; [done|]. guards.
    destruct (N.leb_spec (fs_max_records s) (card (fs_records s))); [done|].
    destruct (fs_records s !! old) as [o|] eqn:E; [|done]. destruct (negb _); [done|].
    match goal with |- context [validate_record ?x] => destruct (validate_record x) as [u|] eqn:Hv end;
      [|done].
    match goal with |- context [replace io ?m s] => pose proof (Hr io m) as Hm end.
    destruct (replace _ _ _). cbn in Hm |- *. destruct (H3 _ _ E) as [Hp Hvo]. apply Hm.
    + apply table_insert; [by apply table_insert|done|]. by eapply validate_unit.
    + rewrite map_size_insert, lookup_insert_ne, Hnew by done. rewrite map_size_insert, E. cbn. lia.
Qed.

Lemma open_ok io disk max s : open_with_limit io disk max = Some (Ok s) -> store_ok s /\ fs_max_records s = max.
Proof.
  unfold open_with_limit. destruct (N.eqb_spec max 0); [done|].
  destruct disk as [[length dtos]|].
  - destruct (io_metadata io); [|done]. destruct (_ <? _); [done|]. destruct (io_open io); [|done]. cbn.
    destruct dtos as [dtos|]; cbn; [|done].
    destruct (N.ltb_spec max (len dtos)); [done|].
    destruct (read_records dtos ∅) as [[m|]|] eqn:Hread; cbn; intros; simplify_eq.
    pose proof Hread as Hok. apply read_records_ok in Hok as [H1 H2].
    2:{ intros p r. by rewrite lookup_empty. }
    split; [|done]. rewrite map_size_empty in H2. split; cbn; [lia|lia|done|].
    intros f [= <-]. by exists dtos.
  - destruct (persist io ∅ None) as [disk' [[]|]] eqn:E; cbn; intros; simplify_eq. apply persist_spec in E as ->.
    split; [|done]. split; cbn; [lia|rewrite map_size_empty; lia| |].
    + intros p r. by rewrite lookup_empty.
    + intros f [= <-]. exists []. split; [done|]. split; [cbn; lia|done].
Qed.
Lemma open_leaves_file io disk max s : open_with_limit io disk max = Some (Ok s) -> is_Some (fs_disk s).
Proof.
  unfold open_with_limit. destruct (_ =? _); [done|]. destruct disk as [f|].
  - destruct (io_metadata io); [|done]. destruct (_ <? _); [done|]. destruct (io_open io); [|done]. cbn.
    destruct (file_dtos f); cbn; [|done].
    destruct (_ <? _); [done|]. destruct (read_records _ _) as [[]|]; cbn; intros; by simplify_eq.
  - destruct (persist io ∅ None) as [disk' [[]|]] eqn:E; cbn; intros; simplify_eq. by apply persist_spec in E as ->.
Qed.
(** Reopening a file that a store has left. *)
Lemma reopen_spec io s f :
  store_ok s -> io_metadata io = Ok () -> io_open io = Ok () -> fs_disk s = Some f ->
  open_with_limit io (fs_disk s) (fs_max_records s)
  = Some (if MAX_TRUST_STORE_FILE_BYTES <? file_length f then Err limit_error else Ok s).
Proof.
  intros [H1 H2 H3 H4] Hr Hr' Hf. destruct (H4 f Hf) as (d & Hd & Hlen & Hread). unfold open_with_limit.
  rewrite (proj2 (N.eqb_neq _ _)) by lia. rewrite Hf, Hr, Hr', Hd. destruct (_ <? _); [done|]. cbn.
  rewrite (proj2 (N.ltb_ge _ _)) by lia. rewrite Hread. cbn. do 2 f_equal. destruct s. cbn in *. congruence.
Qed.

(** An operation leaves the store alone, or replaces its records. *)
Lemma trust_step_cases `{Sha256} s op io :
  trust_step s (op, io) = s \/ exists m, trust_step s (op, io) = (replace io m s).1.
Proof.
  destruct op as [r|p|p now|old new key ch now]; cbn.
  - unfold trust_upsert. destruct (validate_record r); [|by left]. destruct (_ && _); [by left|by right; eexists].
  - unfold trust_remove. destruct (fs_records s !! p); [|by left]. right. exists (delete p (fs_records s)). by destruct (replace _ _ _).
  - unfold trust_revoke. destruct (fs_records s !! p); [by right; eexists|by left].
  - unfold trust_rotate. destruct (_ || _); [by left|]. destruct (negb _); [by left|]. destruct (_ <=? _); [by left|].
    destruct (fs_records s !! old) as [o|]; [|by left]. destruct (negb _); [by left|].
    destruct (validate_record _); [|by left]. right.
    match goal with |- context [replace io ?m s] => exists m end. by destruct (replace _ _ _).
Qed.
Lemma trust_step_max `{Sha256} s x : fs_max_records (trust_step s x) = fs_max_records s.
Proof. destruct x as [op io]. destruct (trust_step_cases s op io) as [->|[m ->]]; [done|apply replace_max]. Qed.
Lemma trust_step_file `{Sha256} s op io :
  io_windows io = false -> is_Some (fs_disk s) -> is_Some (fs_disk (trust_step s (op, io))).
Proof.
  intros Hw Hd. destruct (trust_step_cases s op io) as [->|[m ->]]; [done|by apply replace_keeps_file].
Qed.
Lemma trust_run_file `{Sha256} ops s :
  Forall (fun x => io_windows x.2 = false) ops -> is_Some (fs_disk s) -> is_Some (fs_disk (fold_left trust_step ops s)).
Proof.
  intros Hops. revert s. induction Hops as [|[op io] ops Hw _ IH]; intros s Hd; [done|]. cbn.
  by apply IH, trust_step_file.
Qed.

Lemma trust_run_ok `{Sha256} ops s :
  store_ok s -> store_ok (fold_left trust_step ops s)
  /\ fs_max_records (fold_left trust_step ops s) = fs_max_records s.
Proof.
  revert s. induction ops as [|x ops IH]; intros s Hs; [done|]. cbn.
  rewrite <- (trust_step_max s x). apply IH. by apply trust_step_ok.
Qed.

End invariant.


(** What a store writes it may not read again: nothing bounds the file's
    length when it is written. *)
Lemma written_store_refused `{SerdeFile} io m s :
  io_write io = Ok () -> io_rename io = Ok () -> io_windows io = false -> io_metadata io = Ok () ->
  fs_max_records s <> 0 -> MAX_TRUST_STORE_FILE_BYTES < written_length (dtos_of m) ->
  let '(s', r) := replace io m s in
  r = Ok () /\ open_with_limit io (fs_disk s') (fs_max_records s') = Some (Err limit_error).
Proof.
  intros Hw Hn Hx Hr H0 Hl. unfold replace, persist, open_with_limit. rewrite Hw, Hx, Hn. cbn. split; [done|].
  rewrite (proj2 (N.eqb_neq _ _)) by done. rewrite Hr. by rewrite (proj2 (N.ltb_lt _ _)).
Qed.
(** On Windows a failed rename leaves no file: reopening gives an empty store. *)
Lemma windows_rename_loses `{SerdeFile} io e m s io' :
  io_windows io = true -> io_write io = Ok () -> io_remove io = Ok () -> io_rename io = Err e ->
  is_Some (fs_disk s) -> fs_max_records s <> 0 -> io_windows io' = true -> io_write io' = Ok () -> io_rename io' = Ok () ->
  let '(s', r) := replace io m s in
  r = Err e /\ fs_records s' = fs_records s /\ fs_disk s' = None
  /\ exists s'', open_with_limit io' (fs_disk s') (fs_max_records s') = Some (Ok s'') /\ fs_records s'' = ∅.
Proof.
  intros Hw Hx Hr Hn Hd H0 Hw' Hx' Hn'. unfold replace, persist, open_with_limit.
  rewrite Hw, Hx, Hr, Hn, bool_decide_eq_true_2 by done. cbn. split_and!; try done.
  rewrite (proj2 (N.eqb_neq _ _)) by done. unfold persist. rewrite Hw', Hx', Hn', bool_decide_eq_false_2 by by intros [].
  cbn. by eexists.
Qed.

(** ** Authorisation *)

(** A reconnection is authorised exactly for an active valid record with the
    presented key. *)
Lemma authorize_spec {S} `{TrustStore S} (s : S) p key r :
  authorize_trusted_reconnect s p key = Ok r <->
  ts_get s p = Ok (Some r) /\ validate_record r = Ok () /\ tr_key_state r = KeyActive
  /\ tr_public_key r = key.
Proof.
  unfold authorize_trusted_reconnect. split.
  - intros H1. inv_ok. subst. destruct (tr_key_state r) eqn:Hk; inv_ok. guards. by split_and!.
  - intros (-> & H2 & H3 & H4). cbn. rewrite H2. cbn. rewrite H3. cbn.
    by rewrite reject_pass by by rewrite bool_decide_eq_true_2.
Qed.

(** What an operation does to the record of a peer it does not name. *)
Definition names (op : trust_op) (p : PeerId) : Prop :=
  match op with
  | TUpsert r => tr_peer_id r = p
  | TRemove q | TRevoke q _ => q = p
  | TRotate old new _ _ _ => old = p \/ new = p
  end.

Lemma trust_step_other `{Sha256} `{SerdeFile} s op io p :
  ~ names op p -> fs_records (trust_step s (op, io)) !! p = fs_records s !! p.
Proof.
  intros Hn. destruct op as [r|q|q now|old new key ch now]; cbn in *.
  - unfold trust_upsert. destruct (validate_record r); [|done]. destruct (_ && _); [done|].
    rewrite replace_records. destruct (replace _ _ _).2; [|done]. by rewrite lookup_insert_ne.
  - unfold trust_remove. destruct (fs_records s !! q); [|done].
    pose proof (replace_records io (delete q (fs_records s)) s) as Hr.
    destruct (replace _ _ _) as [s' o']. cbn in *. rewrite Hr. destruct o'; [|done]. by rewrite lookup_delete_ne.
  - unfold trust_revoke. destruct (fs_records s !! q); [|done]. rewrite replace_records.
    destruct (replace _ _ _).2; [|done]. by rewrite lookup_insert_ne.
  - unfold trust_rotate. destruct (_ || _); [done|]. destruct (negb _); [done|]. destruct (_ <=? _); [done|].
    destruct (fs_records s !! old) as [o|]; [|done]. destruct (negb _); [done|].
    destruct (validate_record _); [|done].
    match goal with |- context [replace io ?m s] => pose proof (replace_records io m s) as Hr end.
    destruct (replace _ _ _) as [s' o']. cbn in *. rewrite Hr. destruct o'; [|done].
    rewrite !lookup_insert_ne; [done|naive_solver..].
Qed.

(** Peers whose trust is withdrawn stay withdrawn until they are paired again. *)
Definition withdrawn (s : FileTrustStore) (p : PeerId) : Prop :=
  forall r, fs_records s !! p = Some r -> tr_key_state r <> KeyActive.

Lemma withdrawn_step `{Sha256} `{SerdeFile} s op io p :
  withdrawn s p -> (forall r, op = TUpsert r -> tr_peer_id r <> p) ->
  (forall old key ch now, op <> TRotate old p key ch now) -> withdrawn (trust_step s (op, io)) p.
Proof.
  intros Hw Hup Hrot r. destruct op as [r0|q|q now|old new key ch now].
  - rewrite trust_step_other by by apply Hup. apply Hw.
  - destruct (decide (q = p)) as [->|]; [|rewrite trust_step_other by done; apply Hw].
    cbn. unfold trust_remove. destruct (fs_records s !! p) eqn:E; [|apply Hw].
    pose proof (replace_records io (delete p (fs_records s)) s) as Hr.
    destruct (replace _ _ _) as [s' o']. cbn in *. rewrite Hr. destruct o'; [by rewrite lookup_delete_eq|apply Hw].
  - destruct (decide (q = p)) as [->|]; [|rewrite trust_step_other by done; apply Hw].
    cbn. unfold trust_revoke. destruct (fs_records s !! p) eqn:E; [|apply Hw]. rewrite replace_records.
    destruct (replace _ _ _).2; [|apply Hw]. rewrite lookup_insert_eq. by intros [= <-].
  - destruct (decide (new = p)) as [->|]; [by destruct (Hrot old key ch now)|].
    destruct (decide (old = p)) as [->|]; [|rewrite trust_step_other by (intros [|]; done); apply Hw].
    cbn. unfold trust_rotate. destruct (_ || _); [apply Hw|]. destruct (negb _); [apply Hw|].
    destruct (_ <=? _); [apply Hw|].
    destruct (fs_records s !! p) as [o|] eqn:E; [|apply Hw].
    destruct (negb _) eqn:Ho; [apply Hw|]. unfold trust_is_active in Ho. guards.
    by destruct (Hw o E).
Qed.

(** What puts a peer's trust back: pairing it again, or rotating onto it. *)
Definition reinstates (op : trust_op) (p : PeerId) : Prop :=
  match op with
  | TUpsert r => tr_peer_id r = p
  | TRotate _ new _ _ _ => new = p
  | _ => False
  end.

Lemma withdrawn_run `{Sha256} `{SerdeFile} ops s p :
  withdrawn s p -> Forall (fun x => ~ reinstates x.1 p) ops -> withdrawn (fold_left trust_step ops s) p.
Proof.
  intros Hw Hops. revert s Hw. induction Hops as [|[op io] ops Hop Hops IH]; intros s Hw; [done|].
  cbn. apply IH. cbn in Hop. apply withdrawn_step; [done| |].
  - intros r -> E. by apply Hop.
  - intros old key ch now ->. by apply Hop.
Qed.

Lemma withdrawn_refused s p key : withdrawn s p -> ~ is_ok (authorize_trusted_reconnect s p key).
Proof. intros Hw [r (Hg & _ & Hk & _)%authorize_spec]. cbn in Hg. injection Hg as Hg. by apply (Hw r). Qed.

Lemma trust_revoke_withdraws `{SerdeFile} io p now s :
  (trust_revoke io p now s).2 = Ok () -> withdrawn (trust_revoke io p now s).1 p.
Proof.
  unfold trust_revoke. destruct (fs_records s !! p) as [r|]; [|done]. intros Hr r'.
  rewrite replace_records, Hr, lookup_insert_eq. by intros [= <-].
Qed.

Lemma trust_rotate_spec `{Sha256} `{SerdeFile} io old new key ch now s r :
  (trust_rotate io old new key ch now s).2 = Ok r ->
  exists o, fs_records s !! old = Some o /\ new <> old /\ tr_key_state o = KeyActive
    /\ validate_record r = Ok () /\ tr_peer_id r = new /\ tr_public_key r = key
    /\ tr_key_state r = KeyActive /\ tr_permissions r = tr_permissions o
    /\ fs_records (trust_rotate io old new key ch now s).1
       = <[new := r]> (<[old := with_key_state (KeyRotated now new) o]> (fs_records s)).
Proof.
  unfold trust_rotate. destruct (_ || _) eqn:Hb; [done|]. guards. destruct (negb _); [done|].
  destruct (_ <=? _); [done|]. destruct (fs_records s !! old) as [o|] eqn:Ho; [|done].
  destruct (negb (trust_is_active o)) eqn:Ha; [done|]. unfold trust_is_active in Ha. guards.
  match goal with |- context [validate_record ?x] => destruct (validate_record x) as [u|] eqn:Hv end;
    [|done].
  match goal with |- context [replace io ?m s] => pose proof (replace_records io m s) as Hm end.
  destruct (replace _ _ _) as [s' [[]|]]; cbn in *; [|done]. intros [= <-]. exists o.
  split_and!; try done. by eapply validate_unit.
Qed.

Lemma trust_run_other `{Sha256} `{SerdeFile} ops s p :
  Forall (fun x => ~ names x.1 p) ops ->
  fs_records (fold_left trust_step ops s) !! p = fs_records s !! p.
Proof.
  intros Hops. revert s. induction Hops as [|[op io] ops Hop Hops IH]; intros s; [done|].
  cbn. rewrite IH. by apply trust_step_other.
Qed.

(** C25: Trust is withdrawn for good.  Once a peer was revoked, or its key
    rotated to another identity, no reconnection under its identity is
    authorised whatever key it presents and whatever else happens to the
    store, until a record is stored for it again; and a rotation authorises
    the new identity, with the new key and the same permissions, from then on
    until it is withdrawn itself. *)
Theorem trust_withdrawal `{Sha256} `{SerdeFile} s op io ops p :
  (exists now, op = TRevoke p now /\ (trust_revoke io p now s).2 = Ok ())
  \/ (exists new key ch now r, op = TRotate p new key ch now
        /\ (trust_rotate io p new key ch now s).2 = Ok r) ->
  Forall (fun x => ~ reinstates x.1 p) ops ->
  (forall key, ~ is_ok (authorize_trusted_reconnect
                         (fold_left trust_step ops (trust_step s (op, io))) p key))
  /\ (forall new key ch now, op = TRotate p new key ch now ->
      Forall (fun x => ~ names x.1 new) ops ->
      exists r o, authorize_trusted_reconnect (fold_left trust_step ops (trust_step s (op, io))) new key
                  = Ok r
        /\ fs_records s !! p = Some o /\ tr_permissions r = tr_permissions o).
Proof.
  intros Hop Hops. split.
  - intros key. apply withdrawn_refused, withdrawn_run; [|done].
    destruct Hop as [(now & -> & Hr)|(new & key' & ch & now & r & -> & Hr)]; cbn.
    + by apply trust_revoke_withdraws.
    + apply trust_rotate_spec in Hr as (o & _ & Hne & _ & _ & _ & _ & _ & _ & Hrec).
      intros r'. rewrite Hrec, lookup_insert_ne, lookup_insert_eq by done. by intros [= <-].
  - intros new key ch now -> Hnew.
    destruct Hop as [(? & ? & _)|(new' & key' & ch' & now' & r & Heq & Hr)]; [done|].
    injection Heq as <- <- <- <-.
    apply trust_rotate_spec in Hr as (o & Ho & _ & _ & Hv & Hid & Hkey & Hk & Hperm & Hrec).
    exists r, o. split; [|done]. apply authorize_spec. cbn. unfold file_get. split_and!; try done.
    f_equal. transitivity (fs_records (trust_step s (TRotate p new key ch now, io)) !! new).
    + by rewrite trust_run_other.
    + cbn. by rewrite Hrec, lookup_insert_eq.
Qed.

(** ** Witnesses *)

Definition sample_record (n : N) : TrustRecord :=
  mkTrustRecord (id_of PeerKind n) (str "0123456789abcdef") (str "laptop") 5
    {[ PermConnect; PermOpenNamespace (str "files") ]} KeyActive (vreplicate 32 Byte.x07) [].
Definition good_io : FileIo := mkIo false (Ok ()) (Ok ()) (Ok ()) (Ok ()) (Ok ()).
Definition bad_io : FileIo := mkIo false (Ok ()) (Ok ()) (Err corrupt) (Ok ()) (Ok ()).
Definition sample_trust_ops : list (trust_op * FileIo) :=
  [(TUpsert (sample_record 1), good_io); (TUpsert (sample_record 2), bad_io);
   (TRotate (id_of PeerKind 1) (id_of PeerKind 3) (str "fedcba9876543210") (vreplicate 32 Byte.x01) 9,
    good_io)].
(** A serialiser that takes a kibibyte a record. *)
Definition toy_file : SerdeFile := fun dtos => 1024 * len dtos.
Definition empty_store : FileTrustStore := mkFileStore ∅ 4 (Some (mkFile 0 (Some []))).


Lemma trust_withdrawal_witness :
  let s := fold_left (@trust_step toy_file toy_sha256) (take 1 sample_trust_ops) empty_store in
  let s' := @trust_step toy_file toy_sha256 s (TRevoke (id_of PeerKind 1) 7, good_io) in
  match authorize_trusted_reconnect s (id_of PeerKind 1) (str "0123456789abcdef") with
  | Ok r => tr_peer_id r = id_of PeerKind 1
  | Err _ => False
  end
  /\ ~ is_ok (authorize_trusted_reconnect s' (id_of PeerKind 1) (str "0123456789abcdef")).
Proof.
  pose proof (@trust_withdrawal toy_sha256 toy_file
    (fold_left (@trust_step toy_file toy_sha256) (take 1 sample_trust_ops) empty_store)
    (TRevoke (id_of PeerKind 1) 7) good_io [] (id_of PeerKind 1)) as H.
  destruct H as [H1 _].
  - left. exists 7. split; [exact eq_refl|]. vm_compute. exact eq_refl.
  - constructor.
  - cbv zeta. split; [vm_compute; exact eq_refl|]. exact (H1 (str "0123456789abcdef")).
Defined.

(** A stored identity of 64 bytes with a character across two bytes panics
    where every other malformed identity is reported as corrupt. *)
Definition straddling_id : list byte :=
  chr "a" :: [byte_of_n 195; byte_of_n 169] ++ replicate 61 (chr "0").
Lemma decode_peer_id_panics :
  utf8_valid straddling_id = true /\ len straddling_id = 64 /\ decode_peer_id straddling_id = None.
Proof. split_and!; vm_compute; reflexivity. Qed.
(** A leading plus passes as a digit. *)
Lemma decode_peer_id_plus :
  decode_peer_id (concat (replicate 32 (str "+f"))) = Some (Ok (id_of PeerKind 15)).
Proof. vm_compute. reflexivity. Qed.
