(* ===== verification/Ceremony.v ===== *)
(** * The pairing ceremony, its replay guard and its rate limiter

    Models [ceremony.rs] and [rate_limit.rs] of [mutsuki-link-pairing].  The
    signature backend is the owner's: a [PairingCrypto] is an argument.
    SHA-256 is a parameter. *)

From S2P Require Export Trust.
Local Open Scope N_scope.

(** ** Data *)

Record PairingId := mkPairingId { pairing_bytes : vec byte 16 }.
#[export] Instance PairingId_eq_dec : EqDecision PairingId.
Proof. solve_decision. Defined.

Record LongTermIdentity := mkLongTerm {
  lt_peer_id : PeerId;
  lt_public_key : list byte;
  lt_display_name : list byte;
}.
#[export] Instance LongTermIdentity_eq_dec : EqDecision LongTermIdentity.
Proof. solve_decision. Defined.

Inductive PairingMethod := ShortCode | QrCode | BilateralConfirmation.
#[export] Instance PairingMethod_eq_dec : EqDecision PairingMethod.
Proof. solve_decision. Defined.

Record PairingOffer := mkPairingOffer {
  po_pairing_id : PairingId;
  po_initiator : LongTermIdentity;
  po_protocol_version : ProtocolVersion;
  po_challenge : vec byte 32;
  po_method : PairingMethod;
  po_expires_at_unix_ms : N;
}.
Record PairingResponse := mkPairingResponse {
  pr_pairing_id : PairingId;
  pr_responder : LongTermIdentity;
  pr_transcript_hash : vec byte 32;
  pr_short_code : list byte;
}.
Record PairingConfirmation := mkPairingConfirmation {
  pc_pairing_id : PairingId;
  pc_signer_peer_id : PeerId;
  pc_transcript_hash : vec byte 32;
  pc_signature : list byte;
}.
Inductive PairingTerminationReason := TermRejected | TermCancelled.
Record PairingTermination := mkPairingTermination {
  pt_pairing_id : PairingId;
  pt_reason : PairingTerminationReason;
}.
Record PairingPresentation := mkPresentation {
  peer_name : list byte;
  peer_fingerprint : vec byte 32;
  pp_short_code : list byte;
}.
Inductive PairingRole := PairInitiator | PairResponder.
#[export] Instance PairingRole_eq_dec : EqDecision PairingRole.
Proof. solve_decision. Defined.

Module PairingState.
Inductive t :=
| AwaitingResponse | AwaitingUserConfirmation | AwaitingPeerConfirmation | Paired | Rejected
| TimedOut | Cancelled | Failed.
#[global] Instance t_eq_dec : EqDecision t.
Proof. solve_decision. Defined.
End PairingState.

Inductive PairingEvent :=
| PeStateChanged (state : PairingState.t)
| PePresent (p : PairingPresentation)
| PeCompleted (p : PeerId)
| PeEventsDropped (n : N).

Module PairingErrorKind.
Inductive t :=
| InvalidInput | InvalidState | DuplicatePairing | TimedOut | Cancelled | Rejected | CodeMismatch
| TranscriptMismatch | IdentityProofRejected | ReplayDetected | RateLimited.
#[global] Instance t_eq_dec : EqDecision t.
Proof. solve_decision. Defined.
End PairingErrorKind.
Record PairingError := mkPairingError { pe_kind : PairingErrorKind.t; pe_message : string }.

(** [PairingCrypto]: what the identity owner supplies. *)
Record PairingCrypto := mkPairingCrypto {
  sign_transcript : vec byte 32 -> result PairingError (list byte);
  verify_transcript : list byte -> vec byte 32 -> list byte -> bool;
}.

(** ** The replay guard *)

Record ReplayGuard := mkReplayGuard {
  rg_capacity : N;
  rg_order : list (vec byte 32);
  rg_challenges : gset (vec byte 32);
}.
Definition replay_guard_new (capacity : N) : result PairingError ReplayGuard :=
  reject capacity =? 0
    with mkPairingError PairingErrorKind.InvalidInput "replay guard capacity must be positive";
  Ok (mkReplayGuard capacity [] ∅).

Definition reserve `{Sha256} (challenge : vec byte 32) (g : ReplayGuard)
    : ReplayGuard * result PairingError (vec byte 32) :=
  let hash := sha256 (vec_to_list challenge) in
  if decide (hash ∈ rg_challenges g) then
    (g, Err (mkPairingError PairingErrorKind.ReplayDetected "pairing challenge was already used"))
  else
    let challenges := {[ hash ]} ∪ rg_challenges g in
    let order := rg_order g ++ [hash] in
    if rg_capacity g <? len order then
      match pop_front order with
      | Some (expired, order) =>
        (mkReplayGuard (rg_capacity g) order (challenges ∖ {[ expired ]}), Ok hash)
      | None => (mkReplayGuard (rg_capacity g) order challenges, Ok hash)
      end
    else (mkReplayGuard (rg_capacity g) order challenges, Ok hash).

(** ** The transcript and its short code *)

Definition validate_identity (i : LongTermIdentity) : result PairingError () :=
  reject (len (lt_public_key i) <? 16) || bool_decide (lt_display_name i = [])
    with mkPairingError PairingErrorKind.InvalidInput "long-term identity is invalid";
  Ok ().
Definition validate_new (already_trusted : bool) (expires event_capacity : N)
    : result PairingError () :=
  reject already_trusted
    with mkPairingError PairingErrorKind.DuplicatePairing "peer is already paired";
  reject (expires =? 0) || (event_capacity =? 0)
    with mkPairingError PairingErrorKind.InvalidInput "pairing limits are invalid";
  Ok ().

(** [update_sized]: the length as a [u64], then the bytes. *)
Definition update_sized (value : list byte) : list byte :=
  be_bytes 8 (N.min u64_max (len value)) ++ value.
Definition method_code (m : PairingMethod) : byte :=
  byte_of_n (match m with ShortCode => 1 | QrCode => 2 | BilateralConfirmation => 3 end).
Definition transcript (initiator responder : LongTermIdentity) (version : ProtocolVersion)
    (challenge : vec byte 32) (m : PairingMethod) : list byte :=
  str "mutsuki-link-pairing-v1"
  ++ vec_to_list (as_bytes (lt_peer_id initiator)) ++ update_sized (lt_public_key initiator)
  ++ vec_to_list (as_bytes (lt_peer_id responder)) ++ update_sized (lt_public_key responder)
  ++ be_bytes 2 (major version) ++ be_bytes 2 (minor version) ++ vec_to_list challenge
  ++ [method_code m].
Definition transcript_hash `{Sha256} (initiator responder : LongTermIdentity)
    (version : ProtocolVersion) (challenge : vec byte 32) (m : PairingMethod) : vec byte 32 :=
  sha256 (transcript initiator responder version challenge m).

(** [format!("{value:06}")] of a number below a million. *)
Definition decimal6 (n : N) : list byte :=
  (fun d => byte_of_n (48 + n / d mod 10)) <$> [100000; 10000; 1000; 100; 10; 1].
Definition short_code (hash : vec byte 32) : list byte :=
  decimal6 (from_be_bytes (take 4 (vec_to_list hash)) mod 1000000).
Definition presentation_of `{Sha256} (i : LongTermIdentity) (code : list byte) : PairingPresentation :=
  mkPresentation (lt_display_name i) (sha256 (lt_public_key i)) code.

(** ** The session *)

Record PairingSession := mkPairingSession {
  ps_role : PairingRole;
  ps_state : PairingState.t;
  ps_local : LongTermIdentity;
  ps_remote : option LongTermIdentity;
  ps_pairing_id : PairingId;
  ps_protocol_version : ProtocolVersion;
  ps_challenge : vec byte 32;
  ps_method : PairingMethod;
  ps_expires_at_unix_ms : N;
  ps_transcript_hash : option (vec byte 32);
  ps_short_code : option (list byte);
  local_confirmed : bool;
  remote_confirmed : bool;
  ps_events : list PairingEvent;
  ps_event_capacity : N;
  ps_dropped_events : N;
}.

(** Assignments to fields. *)
Definition put_state (x : PairingState.t) (s : PairingSession) : PairingSession :=
  mkPairingSession (ps_role s) x (ps_local s) (ps_remote s) (ps_pairing_id s)
    (ps_protocol_version s) (ps_challenge s) (ps_method s) (ps_expires_at_unix_ms s)
    (ps_transcript_hash s) (ps_short_code s) (local_confirmed s) (remote_confirmed s) (ps_events s)
    (ps_event_capacity s) (ps_dropped_events s).
Definition put_events (x : list PairingEvent) (dropped : N) (s : PairingSession) : PairingSession :=
  mkPairingSession (ps_role s) (ps_state s) (ps_local s) (ps_remote s) (ps_pairing_id s)
    (ps_protocol_version s) (ps_challenge s) (ps_method s) (ps_expires_at_unix_ms s)
    (ps_transcript_hash s) (ps_short_code s) (local_confirmed s) (remote_confirmed s) x
    (ps_event_capacity s) dropped.
Definition put_remote (r : LongTermIdentity) (hash : vec byte 32) (code : list byte)
    (s : PairingSession) : PairingSession :=
  mkPairingSession (ps_role s) (ps_state s) (ps_local s) (Some r) (ps_pairing_id s)
    (ps_protocol_version s) (ps_challenge s) (ps_method s) (ps_expires_at_unix_ms s)
    (Some hash) (Some code) (local_confirmed s) (remote_confirmed s) (ps_events s)
    (ps_event_capacity s) (ps_dropped_events s).
Definition put_confirmed (l r : bool) (s : PairingSession) : PairingSession :=
  mkPairingSession (ps_role s) (ps_state s) (ps_local s) (ps_remote s) (ps_pairing_id s)
    (ps_protocol_version s) (ps_challenge s) (ps_method s) (ps_expires_at_unix_ms s)
    (ps_transcript_hash s) (ps_short_code s) l r (ps_events s)
    (ps_event_capacity s) (ps_dropped_events s).

Definition emit (e : PairingEvent) (s : PairingSession) : PairingSession :=
  if len (ps_events s) =? ps_event_capacity s
  then put_events (drop 1 (ps_events s) ++ [e]) (sat_add u64_max (ps_dropped_events s) 1) s
  else put_events (ps_events s ++ [e]) (ps_dropped_events s) s.
Definition set_state (x : PairingState.t) (s : PairingSession) : PairingSession :=
  emit (PeStateChanged x) (put_state x s).
Definition pairing_fail {A} (kind : PairingErrorKind.t) (message : string) (s : PairingSession)
    : PairingSession * result PairingError A :=
  (set_state PairingState.Failed s, Err (mkPairingError kind message)).
Definition complete (s : PairingSession) : PairingSession :=
  let s := set_state PairingState.Paired s in
  match ps_remote s with
  | Some remote => emit (PeCompleted (lt_peer_id remote)) s
  | None => s
  end.

Definition is_terminal (x : PairingState.t) : bool :=
  match x with
  | PairingState.Paired | PairingState.Rejected | PairingState.TimedOut | PairingState.Cancelled
  | PairingState.Failed => true
  | _ => false
  end.
Definition invalid_state : PairingError :=
  mkPairingError PairingErrorKind.InvalidState "pairing command is invalid in the current state".
Definition ensure_nonterminal (s : PairingSession) : result PairingError () :=
  if is_terminal (ps_state s) then Err invalid_state else Ok ().

(** [check_time]: the session, and whether it has expired. *)
Definition check_time (now : N) (s : PairingSession) : PairingSession * result PairingError () :=
  if ps_expires_at_unix_ms s <=? now then
    (if is_terminal (ps_state s) then s else set_state PairingState.TimedOut s,
     Err (mkPairingError PairingErrorKind.TimedOut "pairing session timed out"))
  else (s, Ok ()).

Definition pairing_initiator (local : LongTermIdentity) (id : PairingId) (version : ProtocolVersion)
    (challenge : vec byte 32) (m : PairingMethod) (expires : N) (already_trusted : bool)
    (event_capacity : N) : result PairingError PairingSession :=
  _ ← validate_identity local;
  _ ← validate_new already_trusted expires event_capacity;
  Ok (mkPairingSession PairInitiator PairingState.AwaitingResponse local None id version challenge m
        expires None None false false [] event_capacity 0).

Section ceremony.
Context `{Sha256}.

Definition pairing_responder (local : LongTermIdentity) (o : PairingOffer) (now : N)
    (already_trusted : bool) (event_capacity : N)
    : result PairingError (PairingSession * PairingResponse) :=
  _ ← validate_identity local;
  _ ← validate_identity (po_initiator o);
  _ ← validate_new already_trusted (po_expires_at_unix_ms o) event_capacity;
  reject po_expires_at_unix_ms o <=? now
    with mkPairingError PairingErrorKind.TimedOut "pairing offer expired";
  let hash := transcript_hash (po_initiator o) local (po_protocol_version o) (po_challenge o)
                (po_method o) in
  let code := short_code hash in
  let s := mkPairingSession PairResponder PairingState.AwaitingUserConfirmation local
             (Some (po_initiator o)) (po_pairing_id o) (po_protocol_version o) (po_challenge o)
             (po_method o) (po_expires_at_unix_ms o) (Some hash) (Some code) false false []
             event_capacity 0 in
  Ok (emit (PePresent (presentation_of (po_initiator o) code)) s,
      mkPairingResponse (po_pairing_id o) local hash code).

(** [PairingSession::offer]. *)
Definition pairing_offer (s : PairingSession) : result PairingError PairingOffer :=
  reject negb (bool_decide (ps_role s = PairInitiator))
         || negb (bool_decide (ps_state s = PairingState.AwaitingResponse))
    with invalid_state;
  Ok (mkPairingOffer (ps_pairing_id s) (ps_local s) (ps_protocol_version s) (ps_challenge s)
        (ps_method s) (ps_expires_at_unix_ms s)).

(** [PairingSession::presentation]. *)
Definition presentation (s : PairingSession) : result PairingError PairingPresentation :=
  remote ← ok_or invalid_state (ps_remote s);
  code ← ok_or invalid_state (ps_short_code s);
  Ok (presentation_of remote code).

Definition receive_response (r : PairingResponse) (now : N) (s : PairingSession)
    : PairingSession * result PairingError () :=
  match check_time now s with
  | (s, Err e) => (s, Err e)
  | (s, Ok _) =>
    if negb (bool_decide (ps_role s = PairInitiator))
       || negb (bool_decide (ps_state s = PairingState.AwaitingResponse))
       || negb (bool_decide (pr_pairing_id r = ps_pairing_id s))
    then pairing_fail PairingErrorKind.InvalidState "pairing response is not expected" s
    else
      match validate_identity (pr_responder r) with
      | Err e => (s, Err e)
      | Ok _ =>
        let expected := transcript_hash (ps_local s) (pr_responder r) (ps_protocol_version s)
                          (ps_challenge s) (ps_method s) in
        if negb (bool_decide (pr_transcript_hash r = expected))
           || negb (bool_decide (pr_short_code r = short_code expected))
        then pairing_fail PairingErrorKind.TranscriptMismatch "pairing transcript does not match" s
        else
          let s := put_remote (pr_responder r) expected (pr_short_code r) s in
          let s := set_state PairingState.AwaitingUserConfirmation s in
          match presentation s with
          | Err e => (s, Err e)
          | Ok p => (emit (PePresent p) s, Ok ())
          end
      end
  end.

Definition confirm (displayed_code : list byte) (crypto : PairingCrypto) (now : N)
    (s : PairingSession) : PairingSession * result PairingError PairingConfirmation :=
  match check_time now s with
  | (s, Err e) => (s, Err e)
  | (s, Ok _) =>
    if negb (bool_decide (ps_state s = PairingState.AwaitingUserConfirmation))
    then (s, Err invalid_state)
    else if negb (bool_decide (ps_short_code s = Some displayed_code))
    then pairing_fail PairingErrorKind.CodeMismatch "pairing short code does not match" s
    else
      match ps_transcript_hash s with
      | None => (s, Err invalid_state)
      | Some hash =>
        match sign_transcript crypto hash with
        | Err e => (s, Err e)
        | Ok signature =>
          let s := put_confirmed true (remote_confirmed s) s in
          let s := if remote_confirmed s then complete s
                   else set_state PairingState.AwaitingPeerConfirmation s in
          (s, Ok (mkPairingConfirmation (ps_pairing_id s) (lt_peer_id (ps_local s)) hash signature))
        end
      end
  end.

Definition receive_confirmation (c : PairingConfirmation) (crypto : PairingCrypto) (now : N)
    (s : PairingSession) : PairingSession * result PairingError () :=
  match check_time now s with
  | (s, Err e) => (s, Err e)
  | (s, Ok _) =>
    if negb (bool_decide (ps_state s = PairingState.AwaitingUserConfirmation)
             || bool_decide (ps_state s = PairingState.AwaitingPeerConfirmation))
    then (s, Err invalid_state)
    else
      match ps_remote s, ps_transcript_hash s with
      | Some remote, Some hash =>
        if negb (bool_decide (pc_pairing_id c = ps_pairing_id s))
           || negb (bool_decide (pc_signer_peer_id c = lt_peer_id remote))
           || negb (bool_decide (pc_transcript_hash c = hash))
        then pairing_fail PairingErrorKind.TranscriptMismatch
               "pairing confirmation does not match transcript" s
        else if negb (verify_transcript crypto (lt_public_key remote) hash (pc_signature c))
        then pairing_fail PairingErrorKind.IdentityProofRejected "pairing identity proof was rejected" s
        else
          let s := put_confirmed (local_confirmed s) true s in
          (if local_confirmed s then complete s else s, Ok ())
      | _, _ => (s, Err invalid_state)
      end
  end.

Definition pairing_reject (s : PairingSession) : PairingSession * result PairingError PairingTermination :=
  match ensure_nonterminal s with
  | Err e => (s, Err e)
  | Ok _ => (set_state PairingState.Rejected s, Ok (mkPairingTermination (ps_pairing_id s) TermRejected))
  end.
Definition pairing_cancel (s : PairingSession) : PairingSession * result PairingError PairingTermination :=
  match ensure_nonterminal s with
  | Err e => (s, Err e)
  | Ok _ => (set_state PairingState.Cancelled s, Ok (mkPairingTermination (ps_pairing_id s) TermCancelled))
  end.
Definition receive_termination (t : PairingTermination) (s : PairingSession)
    : PairingSession * result PairingError () :=
  match ensure_nonterminal s with
  | Err e => (s, Err e)
  | Ok _ =>
    if negb (bool_decide (pt_pairing_id t = ps_pairing_id s))
    then pairing_fail PairingErrorKind.TranscriptMismatch "pairing termination does not match session" s
    else (set_state (match pt_reason t with
                     | TermRejected => PairingState.Rejected
                     | TermCancelled => PairingState.Cancelled
                     end) s, Ok ())
  end.
Definition pairing_tick (now : N) (s : PairingSession) : PairingSession * result PairingError () :=
  check_time now s.

(** [PairingSession::trust_record]. *)
Definition trust_record (alias : list byte) (permissions : gset LinkPermission) (now : N)
    (s : PairingSession) : result PairingError TrustRecord :=
  reject negb (bool_decide (ps_state s = PairingState.Paired)) || bool_decide (alias = [])
    with invalid_state;
  remote ← ok_or invalid_state (ps_remote s);
  Ok (mkTrustRecord (lt_peer_id remote) (lt_public_key remote) alias now permissions KeyActive
        (sha256 (vec_to_list (ps_challenge s))) []).

Definition drain_events (s : PairingSession) : PairingSession * list PairingEvent :=
  let first := if 0 <? ps_dropped_events s then [PeEventsDropped (ps_dropped_events s)] else [] in
  (put_events [] 0 s, first ++ ps_events s).
End ceremony.

(** ** The rate limiter *)

Record PairingRateLimit := mkRateLimit {
  rl_max_attempts : N;
  rl_max_failures : N;
  rl_max_peers : N;
  rl_window_ms : N;
}.
Record PairingAttemptLimiter := mkLimiter {
  lim_limit : PairingRateLimit;
  lim_attempts : gmap PeerId (list N);
  lim_failures : gmap PeerId (list N);
}.
Definition rate_error (message : string) : PairingError :=
  mkPairingError PairingErrorKind.RateLimited message.
Definition limiter_new (l : PairingRateLimit) : result PairingError PairingAttemptLimiter :=
  reject (rl_max_attempts l =? 0) || (rl_max_failures l =? 0) || (rl_max_peers l =? 0)
         || (rl_window_ms l =? 0)
    with rate_error "pairing rate limit must be positive";
  Ok (mkLimiter l ∅ ∅).

(** [entries.back()] within the window. *)
Definition recent (window now : N) (entries : list N) : bool :=
  match last entries with Some t => now - t <? window | None => false end.
(** The loop that drops the entries at the front that left the window. *)
Fixpoint drop_expired (window now : N) (entries : list N) : list N :=
  match entries with
  | t :: rest => if window <=? now - t then drop_expired window now rest else entries
  | [] => []
  end.

Definition admit_peer (peers : gmap PeerId (list N)) (peer : PeerId) (maximum max_peers window now : N)
    : gmap PeerId (list N) * result PairingError () :=
  let peers := filter (fun e => recent window now e.2 = true) peers in
  if bool_decide (peers !! peer = None) && (max_peers <=? card peers)
  then (peers, Err (rate_error "pairing peer limit was reached"))
  else
    let entries := drop_expired window now (default [] (peers !! peer)) in
    if maximum <=? len entries
    then (<[peer := entries]> peers, Err (rate_error "pairing request was rate limited"))
    else (<[peer := entries ++ [now]]> peers, Ok ()).

Definition limiter_begin (peer : PeerId) (now : N) (l : PairingAttemptLimiter)
    : PairingAttemptLimiter * result PairingError () :=
  let '(m, r) := admit_peer (lim_attempts l) peer (rl_max_attempts (lim_limit l))
                   (rl_max_peers (lim_limit l)) (rl_window_ms (lim_limit l)) now in
  (mkLimiter (lim_limit l) m (lim_failures l), r).
Definition limiter_record_failure (peer : PeerId) (now : N) (l : PairingAttemptLimiter)
    : PairingAttemptLimiter * result PairingError () :=
  let '(m, r) := admit_peer (lim_failures l) peer (rl_max_failures (lim_limit l))
                   (rl_max_peers (lim_limit l)) (rl_window_ms (lim_limit l)) now in
  (mkLimiter (lim_limit l) (lim_attempts l) m, r).
