(* ===== verification/PairingLimits.v ===== *)
(** * The replay guard and the rate limiter of pairing are exact *)

From S2P Require Export Ceremony ControlCodecFacts.
Local Open Scope N_scope.

(** ** The replay guard *)

Section guard.
Context `{Sha256}.

Fixpoint guard_run (g : ReplayGuard) (challenges : list (vec byte 32))
    : ReplayGuard * list (vec byte 32) :=
  match challenges with
  | [] => (g, [])
  | c :: challenges =>
    let '(g, r) := reserve c g in
    let '(g, accepted) := guard_run g challenges in
    (g, match r with Ok hash => hash :: accepted | Err _ => accepted end)
  end.

(** The guard remembers the most recent accepted hashes, up to its capacity. *)
Definition recent_hashes (capacity : N) (accepted : list (vec byte 32)) : list (vec byte 32) :=
  drop (length accepted - N.to_nat capacity) accepted.

Record guard_ok (g : ReplayGuard) (accepted : list (vec byte 32)) : Prop := {
  guard_order : rg_order g = recent_hashes (rg_capacity g) accepted;
  guard_set : rg_challenges g = list_to_set (rg_order g);
  guard_nodup : NoDup (rg_order g);
}.

Lemma recent_hashes_snoc capacity accepted x :
  0 < capacity ->
  recent_hashes capacity (accepted ++ [x])
  = let order := recent_hashes capacity accepted ++ [x] in
    if capacity <? len order then drop 1 order else order.
Proof.
  intros Hc. unfold recent_hashes. cbv zeta. rewrite !length_app, length_drop. cbn [length].
  destruct (N.ltb_spec capacity (N.of_nat (length accepted - (length accepted - N.to_nat capacity) + 1))).
  - rewrite drop_app_le by lia.
    rewrite drop_app_le by (rewrite length_drop; lia). rewrite drop_drop. do 2 f_equal. lia.
  - rewrite drop_app_le by lia. do 2 f_equal. lia.
Qed.

Lemma reserve_ok g accepted c g' r :
  0 < rg_capacity g -> guard_ok g accepted -> reserve c g = (g', r) ->
  rg_capacity g' = rg_capacity g
  /\ match r with
     | Ok hash => hash = sha256 (vec_to_list c) /\ (hash ∉ recent_hashes (rg_capacity g) accepted)
                  /\ guard_ok g' (accepted ++ [hash])
     | Err _ => g' = g /\ sha256 (vec_to_list c) ∈ recent_hashes (rg_capacity g) accepted
     end.
Proof.
  intros Hcap [Ho Hs Hn]. unfold reserve. set (hash := sha256 (vec_to_list c)).
  destruct (decide (hash ∈ rg_challenges g)) as [Hin|Hin].
  { intros [= <- <-]. split; [done|]. split; [done|]. by rewrite <- Ho, <- (elem_of_list_to_set (C:=gset _)), <- Hs. }
  assert (hash ∉ rg_order g) as Hnin by (rewrite <- (elem_of_list_to_set (C:=gset _)), <- Hs; done).
  assert (NoDup (rg_order g ++ [hash])) as Hnd.
  { apply NoDup_app. split_and!; [done| |apply NoDup_singleton].
    intros x Hx ->%list_elem_of_singleton. done. }
  pose proof (recent_hashes_snoc (rg_capacity g) accepted hash Hcap) as Hr. cbv zeta in Hr.
  rewrite <- Ho in Hr. rewrite <- Ho.
  destruct (rg_capacity g <? len (rg_order g ++ [hash])) eqn:Hfull.
  - destruct (rg_order g ++ [hash]) as [|x rest] eqn:Hl; [by destruct (rg_order g)|].
    cbn [pop_front]. intros [= <- <-]. split; [done|]. split; [done|]. split; [done|].
    apply NoDup_cons in Hnd as [Hx Hnd]. split; cbn; [done| |done].
    assert ({[hash]} ∪ rg_challenges g = list_to_set (x :: rest)) as ->.
    { rewrite <- Hl, list_to_set_app_L, Hs. cbn. set_solver. }
    cbn. set_unfold. set_solver.
  - intros [= <- <-]. split; [done|]. split; [done|]. split; [done|].
    split; cbn; [done| |done]. rewrite list_to_set_app_L, Hs. cbn. set_solver.
Qed.

Lemma guard_run_ok challenges g accepted g' more :
  0 < rg_capacity g -> guard_ok g accepted -> guard_run g challenges = (g', more) ->
  rg_capacity g' = rg_capacity g /\ guard_ok g' (accepted ++ more).
Proof.
  revert g accepted more. induction challenges as [|c challenges IH]; intros g accepted more Hc Hg Hrun;
    cbn in Hrun; [simplify_eq; by rewrite app_nil_r|].
  destruct (reserve c g) as [g1 r] eqn:E. destruct (guard_run g1 challenges) as [g2 rest] eqn:Er.
  pose proof (reserve_ok _ _ _ _ _ Hc Hg E) as [Hcap Hr].
  destruct r as [hash|e]; simplify_eq.
  - destruct Hr as (-> & _ & Hg1). rewrite <- Hcap.
    rewrite (cons_middle _ accepted), app_assoc. apply (IH g1 (accepted ++ [_]) rest); [lia|done|done].
  - destruct Hr as [-> _]. by apply (IH g accepted more).
Qed.

(** The replay guard refuses exactly the recent challenges.  After any
    reservations, a challenge is refused exactly when its hash is among the
    last accepted ones, as many as the guard's capacity; otherwise it is
    accepted.  The guard never remembers more than its capacity, and no hash
    twice. *)
Theorem replay_guard_exact capacity g0 challenges c :
  replay_guard_new capacity = Ok g0 ->
  let '(g, accepted) := guard_run g0 challenges in
  let recent := recent_hashes capacity accepted in
  (is_ok (reserve c g).2 <-> (sha256 (vec_to_list c) ∉ recent))
  /\ rg_order g = recent /\ NoDup (rg_order g) /\ len (rg_order g) <= capacity
  /\ size (rg_challenges g) = length (rg_order g).
Proof.
  unfold replay_guard_new. intros Hnew. inv_ok. guards.
  destruct (guard_run _ challenges) as [g accepted] eqn:Hrun.
  pose proof (guard_run_ok challenges (mkReplayGuard capacity [] ∅) [] g accepted) as Hg.
  destruct Hg as [Hcap Hg]; [cbn; lia| |done|].
  { split; cbn; [done|done|constructor]. }
  cbn in Hcap, Hg. cbv zeta. rewrite <- Hcap. pose proof Hg as [Ho Hs Hn].
  split; [|split_and!; [done|done| |]].
  - destruct (reserve c g) as [g' r] eqn:E. apply (reserve_ok g accepted) in E as [_ E]; [|lia|done].
    cbn. destruct r as [h|e].
    + destruct E as (-> & E & _). split; [done|]. intros _. by eexists.
    + destruct E as [_ E]. split; [by intros [? ?]|done].
  - rewrite Ho. unfold recent_hashes. rewrite length_drop. lia.
  - rewrite Hs. by apply size_list_to_set.
Qed.
End guard.

Definition sample_challenge (n : N) : vec byte 32 := vcons (byte_of_n n) (vreplicate 31 Byte.x00).

Lemma replay_guard_exact_witness :
  let g := (@guard_run toy_sha256 (mkReplayGuard 2 [] ∅)
              [sample_challenge 1; sample_challenge 2; sample_challenge 1;
               sample_challenge 3]).1 in
  is_ok (@reserve toy_sha256 (sample_challenge 1) g).2
  /\ ~ is_ok (@reserve toy_sha256 (sample_challenge 2) g).2.
Proof.
  pose proof (@replay_guard_exact toy_sha256 2 (mkReplayGuard 2 [] ∅)
    [sample_challenge 1; sample_challenge 2; sample_challenge 1; sample_challenge 3]
    (sample_challenge 1) eq_refl) as H1.
  pose proof (@replay_guard_exact toy_sha256 2 (mkReplayGuard 2 [] ∅)
    [sample_challenge 1; sample_challenge 2; sample_challenge 1; sample_challenge 3]
    (sample_challenge 2) eq_refl) as H2.
  assert (bool_decide (@sha256 toy_sha256 (vec_to_list (sample_challenge 1)) ∉
    recent_hashes 2 (@guard_run toy_sha256 (mkReplayGuard 2 [] ∅)
      [sample_challenge 1; sample_challenge 2; sample_challenge 1;
       sample_challenge 3]).2) = true) as B1 by (vm_compute; exact eq_refl).
  assert (bool_decide (@sha256 toy_sha256 (vec_to_list (sample_challenge 2)) ∈
    recent_hashes 2 (@guard_run toy_sha256 (mkReplayGuard 2 [] ∅)
      [sample_challenge 1; sample_challenge 2; sample_challenge 1;
       sample_challenge 3]).2) = true) as B2 by (vm_compute; exact eq_refl).
  apply bool_decide_eq_true in B1, B2.
  destruct (@guard_run toy_sha256 _ _) as [g accepted]. cbn [fst snd] in *. cbv zeta in *.
  split.
  - apply H1. exact B1.
  - intros Hok. apply H2 in Hok. exact (Hok B2).
Defined.

(** ** The rate limiter *)

Section limiter.
Context (maximum max_peers window : N).
Context (Hmax : 0 < maximum) (Hpeers : 0 < max_peers) (Hwindow : 0 < window).

(** Requests of peers at times; what is admitted of them. *)
Abbreviation request := (PeerId * N)%type.
Abbreviation step m e := (admit_peer m e.1 maximum max_peers window e.2).

Fixpoint limiter_run (m : gmap PeerId (list N)) (l : list request)
    : gmap PeerId (list N) * list (request * bool) :=
  match l with
  | [] => (m, [])
  | e :: l =>
    let '(m, r) := step m e in
    let '(m, h) := limiter_run m l in
    (m, (e, match r with Ok _ => true | Err _ => false end) :: h)
  end.

(** The times at which a peer was admitted. *)
Definition admitted (p : PeerId) (h : list (request * bool)) : list N :=
  omap (fun x => if bool_decide (x.1.1 = p) && x.2 then Some x.1.2 else None) h.

(** Each peer's entries are the tail of its admissions, of which the others
    have left the window. *)
Record limiter_ok (m : gmap PeerId (list N)) (h : list (request * bool)) (now : N) : Prop := {
  lim_card : card m <= max_peers;
  lim_tail p : exists old, admitted p h = old ++ default [] (m !! p)
    /\ Forall (fun t => window <= now - t) old;
  lim_sorted p : StronglySorted N.le (admitted p h);
  lim_past p : Forall (fun t => t <= now) (admitted p h);
}.

Lemma drop_expired_split now entries :
  exists old, entries = old ++ drop_expired window now entries
    /\ Forall (fun t => window <= now - t) old.
Proof.
  induction entries as [|t entries (old & IH1 & IH2)]; [by exists []|]. cbn.
  destruct (N.leb_spec window (now - t)).
  - exists (t :: old). split; [cbn; by f_equal|by constructor].
  - by exists [].
Qed.

Lemma sorted_last l t now : StronglySorted N.le (l ++ [t]) -> window <= now - t ->
  Forall (fun x => window <= now - x) (l ++ [t]).
Proof.
  intros Hs Ht. apply Forall_app. split; [|by constructor].
  induction l as [|x l IH]; [done|]. cbn in Hs. apply StronglySorted_inv in Hs as [Hs Hx].
  constructor; [|by apply IH]. apply Forall_app in Hx as [_ Hx]. apply Forall_cons in Hx as [Hx _]. lia.
Qed.

Lemma admitted_snoc p h e b :
  admitted p (h ++ [(e, b)]) = admitted p h ++ (if bool_decide (e.1 = p) && b then [e.2] else []).
Proof. unfold admitted. rewrite omap_app. f_equal. cbn. by destruct (_ && _). Qed.

(** Filtering the table only forgets entries that left the window. *)
Lemma filter_tail m h now now' p :
  limiter_ok m h now -> now <= now' ->
  let m' := filter (fun e => recent window now' e.2 = true) m in
  exists old, admitted p h = old ++ default [] (m' !! p) /\ Forall (fun t => window <= now' - t) old.
Proof.
  intros [_ Ht Hs _] Hle. cbv zeta. destruct (Ht p) as (old & Ha & Ho).
  assert (Forall (fun t => window <= now' - t) old) as Ho'
    by (apply (Forall_impl _ _ _ Ho); intros t Ht'; lia).
  destruct (filter _ m !! p) as [es|] eqn:Hf.
  - apply map_lookup_filter_Some in Hf as [Hf _]. rewrite Hf in Ha. by exists old.
  - apply map_lookup_filter_None in Hf as [Hf|Hf].
    + rewrite Hf in Ha. by exists old.
    + destruct (m !! p) as [es|] eqn:Hm; [|by exists old]. cbn in Ha |- *.
      exists (old ++ es). rewrite app_nil_r. split; [done|]. apply Forall_app. split; [done|].
      specialize (Hf es eq_refl). cbn in Hf. unfold recent in Hf.
      destruct (last es) as [t|] eqn:Hl; [|by apply last_None in Hl as ->].
      apply last_Some in Hl as [es' ->]. apply not_true_iff_false in Hf. guards.
      apply sorted_last; [|lia]. specialize (Hs p). rewrite Ha in Hs.
      by apply StronglySorted_app_1_r in Hs.
Qed.

Lemma drop_expired_front now entries t rest :
  drop_expired window now entries = t :: rest -> now - t < window.
Proof.
  induction entries as [|x entries IH]; cbn; [done|].
  destruct (N.leb_spec window (now - x)); [done|]. intros. by simplify_eq.
Qed.

(** The admissions of a peer, seen from its entries after the front was
    dropped: those before the entries left the window, those in them did not. *)
Lemma entries_window m h now now' p :
  limiter_ok m h now -> now <= now' ->
  let es := drop_expired window now'
              (default [] (filter (fun e => recent window now' e.2 = true) m !! p)) in
  exists old, admitted p h = old ++ es /\ Forall (fun t => window <= now' - t) old
    /\ Forall (fun t => now' - t < window) es.
Proof.
  intros Hok Hle. cbv zeta. destruct (filter_tail m h now now' p Hok Hle) as (old & Ha & Ho).
  set (m' := filter _ m) in *. clearbody m'.
  destruct (drop_expired_split now' (default [] (m' !! p))) as (old2 & Hd & Ho2).
  exists (old ++ old2). rewrite <- app_assoc, <- Hd. split; [done|]. split; [by apply Forall_app|].
  destruct (drop_expired window now' _) as [|t rest] eqn:He; [done|].
  pose proof (drop_expired_front _ _ _ _ He) as Ht.
  pose proof (lim_sorted _ _ _ Hok p) as Hs. rewrite Ha, Hd in Hs.
  apply StronglySorted_app_1_r, StronglySorted_app_1_r, StronglySorted_inv in Hs as [_ Hs].
  constructor; [done|]. apply (Forall_impl _ _ _ Hs). intros x Hx. lia.
Qed.

(** A decision about a request. *)
Lemma admit_decision m h now e m' r :
  limiter_ok m h now -> now <= e.2 -> step m e = (m', r) ->
  (r = Ok () -> forall k t, admitted e.1 h !! k = Some t ->
     (k + N.to_nat maximum <= length (admitted e.1 h))%nat -> window <= e.2 - t)
  /\ (r = Err (rate_error "pairing request was rate limited") ->
       exists k t, admitted e.1 h !! k = Some t
         /\ (length (admitted e.1 h) <= k + N.to_nat maximum)%nat /\ e.2 - t < window).
Proof.
  destruct e as [p now']. cbn [fst snd]. intros Hok Hle Hstep.
  destruct (entries_window m h now now' p Hok Hle) as (old & Ha & Ho & He).
  unfold admit_peer in Hstep. set (m1 := filter _ m) in *.
  set (es := drop_expired window now' (default [] (m1 !! p))) in *.
  destruct (_ && _); [by simplify_eq|].
  destruct (N.leb_spec maximum (len es)); simplify_eq; (split; [intros Hr|intros Hr; try done]).
  - done.
  - assert (is_Some (es !! (length es - N.to_nat maximum)%nat)) as [t Ht]
      by (apply lookup_lt_is_Some_2; lia).
    exists (length old + (length es - N.to_nat maximum))%nat, t. rewrite Ha. split; [|split].
    + by rewrite lookup_app_r, Nat.add_comm, Nat.add_sub by lia.
    + rewrite length_app. lia.
    + rewrite Forall_lookup in He. by eapply He.
  - intros k t Hk Hlen. rewrite Ha in Hk. rewrite Ha, length_app in Hlen.
    rewrite lookup_app_l in Hk by lia. rewrite Forall_lookup in Ho. by eapply Ho.
Qed.

Lemma admit_ok m h now e m' r :
  limiter_ok m h now -> now <= e.2 -> step m e = (m', r) ->
  limiter_ok m' (h ++ [(e, match r with Ok _ => true | Err _ => false end)]) e.2.
Proof.
  destruct e as [p now']. cbn [fst snd]. intros Hok Hle Hstep.
  pose proof (fun q => filter_tail m h now now' q Hok Hle) as Hf.
  destruct (entries_window m h now now' p Hok Hle) as (old & Ha & Ho & _).
  pose proof Hok as [Hc _ Hs Hp].
  assert (forall q, Forall (fun t => t <= now') (admitted q h)) as Hp'.
  { intros q. apply (Forall_impl _ _ _ (Hp q)). intros t Ht. lia. }
  unfold admit_peer in Hstep. cbv zeta in Hf, Ha. set (m1 := filter _ m) in *.
  assert (card m1 <= max_peers) as Hc1.
  { pose proof (map_size_filter (fun e => recent window now' e.2 = true) m). fold m1 in H. lia. }
  set (es := drop_expired window now' (default [] (m1 !! p))) in *.
  destruct (_ && _) eqn:Hfull.
  { simplify_eq. split; [done|..]; intros q; rewrite admitted_snoc, andb_false_r, app_nil_r;
      [apply Hf|apply Hs|apply Hp']. }
  assert (forall x, card (<[p := x]> m1) <= max_peers) as Hcard.
  { intros x. rewrite map_size_insert. destruct (m1 !! p) eqn:E; [done|].
    rewrite bool_decide_eq_true_2 in Hfull by done. cbn in *. guards. lia. }
  destruct (maximum <=? len es); simplify_eq; (split; [apply Hcard|..]); intros q;
    rewrite admitted_snoc; cbn [fst snd]; rewrite ?andb_false_r, ?andb_true_r, ?app_nil_r;
    try (apply Hs || apply Hp').
  - destruct (decide (p = q)) as [<-|]; [|rewrite lookup_insert_ne by done; apply Hf].
    rewrite lookup_insert_eq. by exists old.
  - destruct (decide (p = q)) as [<-|E].
    + rewrite bool_decide_eq_true_2, lookup_insert_eq by done. exists old. split; [|done].
      cbn. by rewrite Ha, app_assoc.
    + rewrite bool_decide_eq_false_2, lookup_insert_ne, app_nil_r by done. apply Hf.
  - destruct (bool_decide (p = q)); [|rewrite app_nil_r; apply Hs].
    apply StronglySorted_app_2; [|apply Hs|repeat constructor].
    intros x y Hx ->%list_elem_of_singleton. specialize (Hp' q). rewrite Forall_forall in Hp'. by apply Hp'.
  - destruct (bool_decide (p = q)); [|rewrite app_nil_r; apply Hp'].
    apply Forall_app. split; [apply Hp'|]. by repeat constructor.
Qed.

(** Times never go back. *)
Definition in_order (l : list request) : Prop := StronglySorted (fun e1 e2 => e1.2 <= e2.2) l.

(** What a whole run satisfies: the table, and the spacing of admissions. *)
Definition spaced (l : list N) : Prop :=
  forall k t t', l !! k = Some t -> l !! (k + N.to_nat maximum)%nat = Some t' -> window <= t' - t.

Lemma spaced_snoc l t :
  spaced l ->
  (forall k u, l !! k = Some u -> (k + N.to_nat maximum <= length l)%nat -> window <= t - u) ->
  spaced (l ++ [t]).
Proof.
  intros Hsp Hadm k u u' Hk Hk'. apply lookup_app_Some in Hk' as [Hk'|[Hge Hk']].
  - rewrite lookup_app_l in Hk by (apply lookup_lt_Some in Hk'; lia). by eapply Hsp.
  - apply list_lookup_singleton_Some in Hk' as [Hk' <-].
    rewrite lookup_app_l in Hk by lia. apply (Hadm k u Hk). lia.
Qed.

Lemma limiter_run_ok m h now l :
  limiter_ok m h now -> Forall (fun e => now <= e.2) l -> in_order l ->
  (forall p, spaced (admitted p h)) ->
  exists now', limiter_ok (limiter_run m l).1 (h ++ (limiter_run m l).2) now'
    /\ (forall b, now <= b -> Forall (fun e => e.2 <= b) l -> now' <= b)
    /\ forall p, spaced (admitted p (h ++ (limiter_run m l).2)).
Proof.
  revert m h now. induction l as [|e l IH]; intros m h now Hok Hnow Hord Hsp; cbn.
  { exists now. rewrite app_nil_r. by split_and!. }
  apply Forall_cons in Hnow as [He Hnow]. apply StronglySorted_inv in Hord as [Hord Hnext].
  destruct (step m e) as [m1 r] eqn:Hstep.
  pose proof (admit_ok m h now e m1 r Hok He Hstep) as Hok1.
  destruct (admit_decision m h now e m1 r Hok He Hstep) as [Hadm _].
  set (b := match r with Ok _ => true | Err _ => false end) in *.
  destruct (IH m1 (h ++ [(e, b)]) e.2) as (now' & H1 & H2 & H3); [done|done|done| |].
  - intros p. rewrite admitted_snoc.
    destruct (bool_decide (e.1 = p) && b) eqn:Hb; [|rewrite app_nil_r; apply Hsp].
    apply andb_true_iff in Hb as [Hp Hb]. guards. subst p. apply spaced_snoc; [apply Hsp|].
    apply Hadm. by destruct r as [[]|].
  - destruct (limiter_run m1 l) as [m2 h2]. cbn in *. exists now'. rewrite <- app_assoc in *.
    split_and!; [done| |done]. intros b' Hb' [Hb1 Hb2]%Forall_cons. by apply H2.
Qed.

Lemma limiter_empty_ok : limiter_ok ∅ [] 0.
Proof.
  split; [rewrite map_size_empty; lia|..]; intros p; cbn; [|constructor..].
  exists []. rewrite lookup_empty. by split.
Qed.
End limiter.

(** Pairing requests are rate limited by a sliding window.  When times
    do not go back, any admission of a peer and the one [maximum] admissions
    earlier are at least the window apart; a request is refused as rate limited
    only if the last [maximum] admissions of its peer are all within the
    window; and at most [max_peers] peers are tracked. *)
Theorem rate_limited maximum max_peers window l e :
  0 < maximum -> 0 < max_peers -> 0 < window -> in_order (l ++ [e]) ->
  let '(m, h) := limiter_run maximum max_peers window ∅ l in
  card m <= max_peers
  /\ (forall p, spaced maximum window (admitted p h))
  /\ match (admit_peer m e.1 maximum max_peers window e.2).2 with
     | Ok _ => spaced maximum window (admitted e.1 h ++ [e.2])
     | Err err => err = rate_error "pairing request was rate limited" ->
         exists k t, admitted e.1 h !! k = Some t
           /\ (length (admitted e.1 h) <= k + N.to_nat maximum)%nat /\ e.2 - t < window
     end.
Proof.
  intros Hmax Hpeers Hwindow Hord. unfold in_order in Hord.
  apply StronglySorted_app in Hord as (Hlast & Hord & _).
  destruct (limiter_run_ok maximum max_peers window Hmax Hpeers Hwindow ∅ [] 0 l)
    as (now & Hok & Hnow & Hsp).
  - by apply (limiter_empty_ok maximum).
  - apply Forall_forall. intros. lia.
  - done.
  - by intros p [|k] t t'.
  - destruct (limiter_run maximum max_peers window ∅ l) as [m h]. cbn in Hok, Hsp.
    split; [apply Hok|]. split; [done|].
    destruct (admit_peer m e.1 maximum max_peers window e.2) as [m' r] eqn:Hstep.
    destruct (admit_decision maximum max_peers window Hmax Hpeers Hwindow m h now e m' r Hok) as [H1 H2]; [|done|].
    { apply Hnow; [lia|]. apply Forall_forall. intros x Hx. apply Hlast; [done|]. by left. }
    cbn. destruct r as [[]|err]; [apply (spaced_snoc maximum max_peers window Hmax Hpeers Hwindow); [apply Hsp|by apply H1]|].
    intros ->. by apply H2.
Qed.

Definition sample_requests : list (PeerId * N) :=
  (fun t => (id_of PeerKind 1, t)) <$> [0; 40; 99; 100; 120; 141].

Lemma rate_limited_witness :
  (snd <$> (limiter_run 2 1 100 ∅ sample_requests).2) = [true; true; false; true; false; true]
  /\ spaced 2 100 (admitted (id_of PeerKind 1) (limiter_run 2 1 100 ∅ sample_requests).2).
Proof.
  pose proof (rate_limited 2 1 100 sample_requests (id_of PeerKind 1, 150) ltac:(lia) ltac:(lia)
    ltac:(lia)) as H.
  split; [vm_compute; exact eq_refl|].
  destruct (limiter_run 2 1 100 ∅ sample_requests) as [m h]. cbn [snd]. apply H.
  unfold in_order, sample_requests. cbn. repeat constructor; cbn; lia.
Defined.
