(* ===== verification/PairingFacts.v ===== *)
(** * Pairing: two honest sides pair, and nothing else ever does *)

From S2P Require Export Ceremony ControlCodecFacts.
Local Open Scope N_scope.

(** ** Events never touch the rest of a session *)

Definition same_but_events (s s' : PairingSession) : Prop :=
  s' = put_events (ps_events s') (ps_dropped_events s') s.

Lemma emit_same e s : same_but_events s (emit e s).
Proof. unfold emit, same_but_events. by destruct (_ =? _); destruct s. Qed.
Lemma same_refl s : same_but_events s s.
Proof. by destruct s. Qed.
Lemma same_trans s1 s2 s3 :
  same_but_events s1 s2 -> same_but_events s2 s3 -> same_but_events s1 s3.
Proof. unfold same_but_events. intros -> ->. by destruct s1. Qed.

(** The fields a session keeps whatever events it records. *)
Lemma emit_fields e s :
  ps_role (emit e s) = ps_role s /\ ps_state (emit e s) = ps_state s /\ ps_local (emit e s) = ps_local s
  /\ ps_remote (emit e s) = ps_remote s /\ ps_pairing_id (emit e s) = ps_pairing_id s
  /\ ps_protocol_version (emit e s) = ps_protocol_version s
  /\ ps_challenge (emit e s) = ps_challenge s /\ ps_method (emit e s) = ps_method s
  /\ ps_expires_at_unix_ms (emit e s) = ps_expires_at_unix_ms s
  /\ ps_transcript_hash (emit e s) = ps_transcript_hash s
  /\ ps_short_code (emit e s) = ps_short_code s
  /\ local_confirmed (emit e s) = local_confirmed s /\ remote_confirmed (emit e s) = remote_confirmed s.
Proof. rewrite (emit_same e s). by destruct s. Qed.
Lemma emit_ps_role e s : ps_role (emit e s) = ps_role s.
Proof. apply emit_fields. Qed.
Lemma emit_ps_state e s : ps_state (emit e s) = ps_state s.
Proof. apply emit_fields. Qed.
Lemma emit_ps_local e s : ps_local (emit e s) = ps_local s.
Proof. apply emit_fields. Qed.
Lemma emit_ps_remote e s : ps_remote (emit e s) = ps_remote s.
Proof. apply emit_fields. Qed.
Lemma emit_ps_pairing_id e s : ps_pairing_id (emit e s) = ps_pairing_id s.
Proof. apply emit_fields. Qed.
Lemma emit_ps_protocol_version e s : ps_protocol_version (emit e s) = ps_protocol_version s.
Proof. apply emit_fields. Qed.
Lemma emit_ps_challenge e s : ps_challenge (emit e s) = ps_challenge s.
Proof. apply emit_fields. Qed.
Lemma emit_ps_method e s : ps_method (emit e s) = ps_method s.
Proof. apply emit_fields. Qed.
Lemma emit_ps_expires_at_unix_ms e s : ps_expires_at_unix_ms (emit e s) = ps_expires_at_unix_ms s.
Proof. apply emit_fields. Qed.
Lemma emit_ps_transcript_hash e s : ps_transcript_hash (emit e s) = ps_transcript_hash s.
Proof. apply emit_fields. Qed.
Lemma emit_ps_short_code e s : ps_short_code (emit e s) = ps_short_code s.
Proof. apply emit_fields. Qed.
Lemma emit_local_confirmed e s : local_confirmed (emit e s) = local_confirmed s.
Proof. apply emit_fields. Qed.
Lemma emit_remote_confirmed e s : remote_confirmed (emit e s) = remote_confirmed s.
Proof. apply emit_fields. Qed.
Lemma set_state_ps_role x s : ps_role (set_state x s) = ps_role s.
Proof. unfold set_state. by rewrite emit_ps_role. Qed.
Lemma set_state_ps_state x s : ps_state (set_state x s) = x.
Proof. unfold set_state. by rewrite emit_ps_state. Qed.
Lemma set_state_ps_local x s : ps_local (set_state x s) = ps_local s.
Proof. unfold set_state. by rewrite emit_ps_local. Qed.
Lemma set_state_ps_remote x s : ps_remote (set_state x s) = ps_remote s.
Proof. unfold set_state. by rewrite emit_ps_remote. Qed.
Lemma set_state_ps_pairing_id x s : ps_pairing_id (set_state x s) = ps_pairing_id s.
Proof. unfold set_state. by rewrite emit_ps_pairing_id. Qed.
Lemma set_state_ps_protocol_version x s : ps_protocol_version (set_state x s) = ps_protocol_version s.
Proof. unfold set_state. by rewrite emit_ps_protocol_version. Qed.
Lemma set_state_ps_challenge x s : ps_challenge (set_state x s) = ps_challenge s.
Proof. unfold set_state. by rewrite emit_ps_challenge. Qed.
Lemma set_state_ps_method x s : ps_method (set_state x s) = ps_method s.
Proof. unfold set_state. by rewrite emit_ps_method. Qed.
Lemma set_state_ps_expires_at_unix_ms x s : ps_expires_at_unix_ms (set_state x s) = ps_expires_at_unix_ms s.
Proof. unfold set_state. by rewrite emit_ps_expires_at_unix_ms. Qed.
Lemma set_state_ps_transcript_hash x s : ps_transcript_hash (set_state x s) = ps_transcript_hash s.
Proof. unfold set_state. by rewrite emit_ps_transcript_hash. Qed.
Lemma set_state_ps_short_code x s : ps_short_code (set_state x s) = ps_short_code s.
Proof. unfold set_state. by rewrite emit_ps_short_code. Qed.
Lemma set_state_local_confirmed x s : local_confirmed (set_state x s) = local_confirmed s.
Proof. unfold set_state. by rewrite emit_local_confirmed. Qed.
Lemma set_state_remote_confirmed x s : remote_confirmed (set_state x s) = remote_confirmed s.
Proof. unfold set_state. by rewrite emit_remote_confirmed. Qed.
Lemma complete_ps_role s : ps_role (complete s) = ps_role s.
Proof.
  unfold complete. rewrite set_state_ps_remote.
  destruct (ps_remote s) eqn:E; by rewrite ?emit_ps_role, set_state_ps_role.
Qed.
Lemma complete_ps_state s : ps_state (complete s) = PairingState.Paired.
Proof.
  unfold complete. rewrite set_state_ps_remote.
  destruct (ps_remote s) eqn:E; by rewrite ?emit_ps_state, set_state_ps_state.
Qed.
Lemma complete_ps_local s : ps_local (complete s) = ps_local s.
Proof.
  unfold complete. rewrite set_state_ps_remote.
  destruct (ps_remote s) eqn:E; by rewrite ?emit_ps_local, set_state_ps_local.
Qed.
Lemma complete_ps_remote s : ps_remote (complete s) = ps_remote s.
Proof.
  unfold complete. rewrite set_state_ps_remote.
  destruct (ps_remote s) eqn:E; by rewrite ?emit_ps_remote, set_state_ps_remote.
Qed.
Lemma complete_ps_pairing_id s : ps_pairing_id (complete s) = ps_pairing_id s.
Proof.
  unfold complete. rewrite set_state_ps_remote.
  destruct (ps_remote s) eqn:E; by rewrite ?emit_ps_pairing_id, set_state_ps_pairing_id.
Qed.
Lemma complete_ps_protocol_version s : ps_protocol_version (complete s) = ps_protocol_version s.
Proof.
  unfold complete. rewrite set_state_ps_remote.
  destruct (ps_remote s) eqn:E; by rewrite ?emit_ps_protocol_version, set_state_ps_protocol_version.
Qed.
Lemma complete_ps_challenge s : ps_challenge (complete s) = ps_challenge s.
Proof.
  unfold complete. rewrite set_state_ps_remote.
  destruct (ps_remote s) eqn:E; by rewrite ?emit_ps_challenge, set_state_ps_challenge.
Qed.
Lemma complete_ps_method s : ps_method (complete s) = ps_method s.
Proof.
  unfold complete. rewrite set_state_ps_remote.
  destruct (ps_remote s) eqn:E; by rewrite ?emit_ps_method, set_state_ps_method.
Qed.
Lemma complete_ps_expires_at_unix_ms s : ps_expires_at_unix_ms (complete s) = ps_expires_at_unix_ms s.
Proof.
  unfold complete. rewrite set_state_ps_remote.
  destruct (ps_remote s) eqn:E; by rewrite ?emit_ps_expires_at_unix_ms, set_state_ps_expires_at_unix_ms.
Qed.
Lemma complete_ps_transcript_hash s : ps_transcript_hash (complete s) = ps_transcript_hash s.
Proof.
  unfold complete. rewrite set_state_ps_remote.
  destruct (ps_remote s) eqn:E; by rewrite ?emit_ps_transcript_hash, set_state_ps_transcript_hash.
Qed.
Lemma complete_ps_short_code s : ps_short_code (complete s) = ps_short_code s.
Proof.
  unfold complete. rewrite set_state_ps_remote.
  destruct (ps_remote s) eqn:E; by rewrite ?emit_ps_short_code, set_state_ps_short_code.
Qed.
Lemma complete_local_confirmed s : local_confirmed (complete s) = local_confirmed s.
Proof.
  unfold complete. rewrite set_state_ps_remote.
  destruct (ps_remote s) eqn:E; by rewrite ?emit_local_confirmed, set_state_local_confirmed.
Qed.
Lemma complete_remote_confirmed s : remote_confirmed (complete s) = remote_confirmed s.
Proof.
  unfold complete. rewrite set_state_ps_remote.
  destruct (ps_remote s) eqn:E; by rewrite ?emit_remote_confirmed, set_state_remote_confirmed.
Qed.
Create Rewrite HintDb emit.
#[export] Hint Rewrite emit_ps_role emit_ps_state emit_ps_local emit_ps_remote
  emit_ps_pairing_id emit_ps_protocol_version emit_ps_challenge emit_ps_method
  emit_ps_expires_at_unix_ms emit_ps_transcript_hash emit_ps_short_code emit_local_confirmed
  emit_remote_confirmed set_state_ps_role set_state_ps_state set_state_ps_local
  set_state_ps_remote set_state_ps_pairing_id set_state_ps_protocol_version
  set_state_ps_challenge set_state_ps_method set_state_ps_expires_at_unix_ms
  set_state_ps_transcript_hash set_state_ps_short_code set_state_local_confirmed
  set_state_remote_confirmed complete_ps_role complete_ps_state complete_ps_local
  complete_ps_remote complete_ps_pairing_id complete_ps_protocol_version complete_ps_challenge
  complete_ps_method complete_ps_expires_at_unix_ms complete_ps_transcript_hash
  complete_ps_short_code complete_local_confirmed complete_remote_confirmed : emit.

(** Read a field of a session through the operations that built it. *)
Ltac fields :=
  autorewrite with emit;
  repeat (progress (cbn [put_state put_confirmed put_remote ps_role ps_state ps_local ps_remote
    ps_pairing_id ps_protocol_version ps_challenge ps_method ps_expires_at_unix_ms
    ps_transcript_hash ps_short_code local_confirmed remote_confirmed fst snd]; autorewrite with emit)).

(** ** Two honest sides *)

#[local] Arguments short_code : simpl never.
#[local] Arguments transcript_hash : simpl never.

Section agreement.
Context `{Sha256}.

(** A side that shows the transcript of its pairing and waits for its user. *)
Record awaiting (s : PairingSession) (remote : LongTermIdentity) (hash : vec byte 32) : Prop := {
  aw_state : ps_state s = PairingState.AwaitingUserConfirmation;
  aw_remote : ps_remote s = Some remote;
  aw_hash : ps_transcript_hash s = Some hash;
  aw_code : ps_short_code s = Some (short_code hash);
  aw_local : local_confirmed s = false;
  aw_peer : remote_confirmed s = false;
}.

(** The confirmation a side signs. *)
Definition confirmation_of (s : PairingSession) (hash : vec byte 32) (signature : list byte)
    : PairingConfirmation :=
  mkPairingConfirmation (ps_pairing_id s) (lt_peer_id (ps_local s)) hash signature.

(** The user confirms and the peer's confirmation arrives, in either order. *)
Definition finish (user_first : bool) (code : list byte) (crypto : PairingCrypto)
    (c : PairingConfirmation) (t1 t2 : N) (s : PairingSession) : PairingSession :=
  if user_first then (receive_confirmation c crypto t2 (confirm code crypto t1 s).1).1
  else (confirm code crypto t2 (receive_confirmation c crypto t1 s).1).1.

Lemma check_time_ok now s : now < ps_expires_at_unix_ms s -> check_time now s = (s, Ok ()).
Proof. intros Hlt. unfold check_time. by rewrite (proj2 (N.leb_gt _ _)). Qed.

Lemma confirm_awaiting s remote hash crypto t sg :
  awaiting s remote hash -> t < ps_expires_at_unix_ms s -> sign_transcript crypto hash = Ok sg ->
  (confirm (short_code hash) crypto t s).2 = Ok (confirmation_of s hash sg).
Proof.
  intros [H1 H2 H3 H4 H5 H6] Ht Hs. unfold confirm. rewrite check_time_ok by done.
  rewrite H1, H4, H3, !bool_decide_eq_true_2 by done. cbn. rewrite Hs, H6. by fields.
Qed.

Lemma finish_paired first s remote hash crypto t1 t2 sg c :
  awaiting s remote hash -> t1 < ps_expires_at_unix_ms s -> t2 < ps_expires_at_unix_ms s ->
  sign_transcript crypto hash = Ok sg ->
  pc_pairing_id c = ps_pairing_id s -> pc_signer_peer_id c = lt_peer_id remote ->
  pc_transcript_hash c = hash ->
  verify_transcript crypto (lt_public_key remote) hash (pc_signature c) = true ->
  let s' := finish first (short_code hash) crypto c t1 t2 s in
  ps_state s' = PairingState.Paired /\ ps_remote s' = Some remote /\ ps_challenge s' = ps_challenge s.
Proof.
  intros [H1 H2 H3 H4 H5 H6] Ht1 Ht2 Hs Hc1 Hc2 Hc3 Hv. unfold finish. destruct first.
  - unfold confirm. rewrite check_time_ok by done.
    rewrite H1, H4, H3, !bool_decide_eq_true_2 by done. cbn. rewrite Hs, H6. cbn [fst put_confirmed remote_confirmed].
    unfold receive_confirmation. rewrite check_time_ok by by fields. fields.
    rewrite (bool_decide_eq_false_2 (PairingState.AwaitingPeerConfirmation = _)) by done.
    rewrite H2, H3, Hc1, Hc2, Hc3, !bool_decide_eq_true_2 by done. cbn. rewrite Hv. cbn.
    split_and!; fields; done.
  - unfold receive_confirmation. rewrite check_time_ok by done.
    rewrite H1, H2, H3, Hc1, Hc2, Hc3.
    rewrite (bool_decide_eq_true_2 (PairingState.AwaitingUserConfirmation = _)) by done.
    cbn [orb negb]. rewrite !bool_decide_eq_true_2 by done. cbn. rewrite Hv, H5. cbn.
    unfold confirm. rewrite check_time_ok by by fields. fields.
    rewrite H1, H3, H4, !bool_decide_eq_true_2 by done. cbn. rewrite Hs. cbn.
    split_and!; fields; done.
Qed.

Lemma finish_record first s remote hash crypto t1 t2 sg c alias perms t :
  awaiting s remote hash -> t1 < ps_expires_at_unix_ms s -> t2 < ps_expires_at_unix_ms s ->
  sign_transcript crypto hash = Ok sg ->
  pc_pairing_id c = ps_pairing_id s -> pc_signer_peer_id c = lt_peer_id remote ->
  pc_transcript_hash c = hash ->
  verify_transcript crypto (lt_public_key remote) hash (pc_signature c) = true -> alias <> [] ->
  trust_record alias perms t (finish first (short_code hash) crypto c t1 t2 s)
  = Ok (mkTrustRecord (lt_peer_id remote) (lt_public_key remote) alias t perms KeyActive
          (sha256 (vec_to_list (ps_challenge s))) []).
Proof.
  intros. unfold trust_record.
  destruct (finish_paired first s remote hash crypto t1 t2 sg c) as (-> & -> & ->); [done..|].
  rewrite bool_decide_eq_true_2 by done. by rewrite bool_decide_eq_false_2.
Qed.

Lemma initiator_offer li id version challenge m expires cap s0 offer :
  pairing_initiator li id version challenge m expires false cap = Ok s0 ->
  pairing_offer s0 = Ok offer ->
  s0 = mkPairingSession PairInitiator PairingState.AwaitingResponse li None id version challenge m
         expires None None false false [] cap 0
  /\ offer = mkPairingOffer id li version challenge m expires.
Proof.
  unfold pairing_initiator. intros Hi Ho. inv_ok. unfold pairing_offer in Ho. cbn in Ho.
  rewrite !bool_decide_eq_true_2 in Ho by done. cbn in Ho. by inv_ok.
Qed.

Lemma responder_answers lr o now cap r0 resp :
  pairing_responder lr o now false cap = Ok (r0, resp) ->
  let hash := transcript_hash (po_initiator o) lr (po_protocol_version o) (po_challenge o)
                (po_method o) in
  awaiting r0 (po_initiator o) hash /\ validate_identity lr = Ok ()
  /\ ps_local r0 = lr /\ ps_pairing_id r0 = po_pairing_id o
  /\ ps_challenge r0 = po_challenge o /\ ps_expires_at_unix_ms r0 = po_expires_at_unix_ms o
  /\ resp = mkPairingResponse (po_pairing_id o) lr hash (short_code hash).
Proof.
  unfold pairing_responder. intros Hr. inv_ok. cbv zeta. split; [split; by fields|].
  split_and!; by fields.
Qed.

Lemma initiator_accepts li lr id version challenge m expires cap t :
  t < expires -> validate_identity lr = Ok () ->
  let hash := transcript_hash li lr version challenge m in
  exists s1, receive_response (mkPairingResponse id lr hash (short_code hash)) t
      (mkPairingSession PairInitiator PairingState.AwaitingResponse li None id version challenge m
         expires None None false false [] cap 0) = (s1, Ok ())
    /\ awaiting s1 lr hash /\ ps_local s1 = li /\ ps_pairing_id s1 = id
    /\ ps_challenge s1 = challenge /\ ps_expires_at_unix_ms s1 = expires.
Proof.
  intros Ht Hv hash. unfold receive_response. rewrite check_time_ok by done.
  cbn [ps_role ps_state ps_pairing_id pr_pairing_id pr_responder ps_local ps_protocol_version
       ps_challenge ps_method pr_transcript_hash pr_short_code]. fold hash.
  rewrite !bool_decide_eq_true_2 by done. cbn [negb orb]. rewrite Hv.
  unfold presentation. fields. cbn [ok_or mbind result_bind]. eexists. split; [done|].
  split; [split; by fields|]. split_and!; by fields.
Qed.

Lemma awaiting_presentation s remote hash :
  awaiting s remote hash -> presentation s = Ok (presentation_of remote (short_code hash)).
Proof. intros [_ H2 _ H4 _ _]. unfold presentation. by rewrite H2, H4. Qed.

(** C28: Honest sides pair.  If an initiator's offer reaches a responder who
    answers it, and everything happens before the offer expires, the initiator
    accepts the response, both sides show the same short code, and once each
    user confirms it and each side receives the other's confirmation, in any
    order, both are paired and record each other's identity and key with the
    same challenge; the signatures need only verify under the signer's key. *)
Theorem pairing_agreement li lr id version challenge m expires cap_i cap_r s0 offer now r0 resp :
  pairing_initiator li id version challenge m expires false cap_i = Ok s0 ->
  pairing_offer s0 = Ok offer ->
  pairing_responder lr offer now false cap_r = Ok (r0, resp) ->
  forall t0 t1 t2 t3 t4 ci cr sg_i sg_r first_i first_r alias_i alias_r perms,
    Forall (fun t => t < expires) [t0; t1; t2; t3; t4] ->
    let hash := transcript_hash li lr version challenge m in
    sign_transcript ci hash = Ok sg_i -> verify_transcript cr (lt_public_key li) hash sg_i = true ->
    sign_transcript cr hash = Ok sg_r -> verify_transcript ci (lt_public_key lr) hash sg_r = true ->
    alias_i <> [] -> alias_r <> [] ->
    exists s1, receive_response resp t0 s0 = (s1, Ok ())
      /\ presentation s1 = Ok (presentation_of lr (short_code hash))
      /\ presentation r0 = Ok (presentation_of li (short_code hash))
      /\ exists c_i c_r, (confirm (short_code hash) ci t1 s1).2 = Ok c_i
         /\ (confirm (short_code hash) cr t2 r0).2 = Ok c_r
         /\ trust_record alias_i perms t3 (finish first_i (short_code hash) ci c_r t1 t3 s1)
            = Ok (mkTrustRecord (lt_peer_id lr) (lt_public_key lr) alias_i t3 perms KeyActive
                    (sha256 (vec_to_list challenge)) [])
         /\ trust_record alias_r perms t4 (finish first_r (short_code hash) cr c_i t2 t4 r0)
            = Ok (mkTrustRecord (lt_peer_id li) (lt_public_key li) alias_r t4 perms KeyActive
                    (sha256 (vec_to_list challenge)) []).
Proof.
  intros Hi Ho Hr t0 t1 t2 t3 t4 ci cr sg_i sg_r first_i first_r alias_i alias_r perms Ht hash
    Hsi Hvi Hsr Hvr Hai Har.
  repeat (apply Forall_cons in Ht as [? Ht]). clear Ht.
  destruct (initiator_offer _ _ _ _ _ _ _ _ _ Hi Ho) as [-> ->]. clear Hi Ho.
  apply responder_answers in Hr as (Hr & Hv & Hrl & Hrid & Hrc & Hre & ->). cbn in Hr, Hrid, Hrc, Hre |- *.
  destruct (initiator_accepts li lr id version challenge m expires cap_i t0)
    as (s1 & Hs1 & Hi & Hil & Hiid & Hic & Hie); [done..|]. fold hash in Hr, Hi |- *.
  exists s1. split; [exact Hs1|]. split; [by apply awaiting_presentation|].
  split; [by apply awaiting_presentation|].
  exists (confirmation_of s1 hash sg_i), (confirmation_of r0 hash sg_r).
  split; [eapply confirm_awaiting; [done|lia|done]|].
  split; [eapply confirm_awaiting; [done|lia|done]|].
  rewrite <- Hic at 1. rewrite <- Hrc.
  split; (eapply finish_record; [done|lia|lia|done|cbn; congruence|cbn; congruence|done|done|done]).
Qed.
End agreement.

(** ** Any peer, any events *)

Inductive pairing_op :=
| PoResponse (r : PairingResponse) (now : N)
| PoConfirm (code : list byte) (now : N)
| PoConfirmation (c : PairingConfirmation) (now : N)
| PoReject
| PoCancel
| PoTermination (t : PairingTermination)
| PoTick (now : N)
| PoDrain.

Definition succeeded {A} (r : result PairingError A) : bool :=
  match r with Ok _ => true | Err _ => false end.

Section safety.
Context `{Sha256} (crypto : PairingCrypto).

(** One event, and whether it succeeded. *)
Definition pairing_step (s : PairingSession) (op : pairing_op) : PairingSession * bool :=
  match op with
  | PoResponse r now => let '(s, o) := receive_response r now s in (s, succeeded o)
  | PoConfirm code now => let '(s, o) := confirm code crypto now s in (s, succeeded o)
  | PoConfirmation c now => let '(s, o) := receive_confirmation c crypto now s in (s, succeeded o)
  | PoReject => let '(s, o) := pairing_reject s in (s, succeeded o)
  | PoCancel => let '(s, o) := pairing_cancel s in (s, succeeded o)
  | PoTermination t => let '(s, o) := receive_termination t s in (s, succeeded o)
  | PoTick now => let '(s, o) := pairing_tick now s in (s, succeeded o)
  | PoDrain => ((drain_events s).1, true)
  end.

Abbreviation pairing_history := (list (pairing_op * bool)).
Fixpoint pairing_run (s : PairingSession) (ops : list pairing_op) : PairingSession * pairing_history :=
  match ops with
  | [] => (s, [])
  | op :: ops =>
    let '(s, b) := pairing_step s op in
    let '(s, h) := pairing_run s ops in (s, (op, b) :: h)
  end.

(** The transcript of a session with a given remote. *)
Definition hash_with (s : PairingSession) (remote : LongTermIdentity) : vec byte 32 :=
  match ps_role s with
  | PairInitiator =>
    transcript_hash (ps_local s) remote (ps_protocol_version s) (ps_challenge s) (ps_method s)
  | PairResponder =>
    transcript_hash remote (ps_local s) (ps_protocol_version s) (ps_challenge s) (ps_method s)
  end.

(** The local user confirmed the code of the session in time. *)
Definition user_confirmed (h : pairing_history) (s : PairingSession) : Prop :=
  exists code now, (PoConfirm code now, true) ∈ h /\ now < ps_expires_at_unix_ms s
    /\ ps_short_code s = Some code.
(** The remote proved its key over the session's transcript in time. *)
Definition peer_proved (h : pairing_history) (s : PairingSession) : Prop :=
  exists c now remote, (PoConfirmation c now, true) ∈ h /\ now < ps_expires_at_unix_ms s
    /\ ps_remote s = Some remote /\ pc_pairing_id c = ps_pairing_id s
    /\ pc_signer_peer_id c = lt_peer_id remote
    /\ verify_transcript crypto (lt_public_key remote) (hash_with s remote) (pc_signature c) = true.

(** What a session is created with and keeps. *)
Definition origin (s : PairingSession) :=
  (ps_role s, ps_local s, ps_pairing_id s, ps_protocol_version s, ps_challenge s, ps_method s,
   ps_expires_at_unix_ms s).

Record session_inv (s0 : PairingSession) (h : pairing_history) (s : PairingSession) : Prop := {
  inv_origin : origin s = origin s0;
  inv_remote : match ps_remote s with
               | Some r => ps_transcript_hash s = Some (hash_with s r)
                           /\ ps_short_code s = Some (short_code (hash_with s r))
               | None => ps_transcript_hash s = None /\ local_confirmed s = false
                         /\ remote_confirmed s = false
               end;
  inv_awaiting : ps_state s = PairingState.AwaitingResponse -> ps_remote s = None;
  inv_user : local_confirmed s = true -> user_confirmed h s;
  inv_peer : remote_confirmed s = true -> peer_proved h s;
  inv_paired : ps_state s = PairingState.Paired ->
               local_confirmed s = true /\ remote_confirmed s = true;
}.

(** Everything the invariant reads of a session. *)
Definition core (s : PairingSession) :=
  (origin s, ps_remote s, ps_transcript_hash s, ps_short_code s, local_confirmed s, remote_confirmed s).

Lemma session_inv_core s0 h s s' :
  session_inv s0 h s -> core s' = core s ->
  (ps_state s' = PairingState.AwaitingResponse -> ps_state s = PairingState.AwaitingResponse) ->
  (ps_state s' = PairingState.Paired -> local_confirmed s = true /\ remote_confirmed s = true) ->
  session_inv s0 h s'.
Proof.
  intros [H1 H2 H3 H4 H5 H6] Hc Hw Hp. unfold core, origin in *.
  injection Hc as E1 E2 E3 E4 E5 E6 E7 E8 E9 E10 E11 E12.
  assert (forall r, hash_with s' r = hash_with s r) as Hh.
  { intros r. unfold hash_with. by rewrite E1, E2, E4, E5, E6. }
  split.
  - unfold origin. congruence.
  - rewrite E8, E9, E10, E11, E12. destruct (ps_remote s); [by rewrite Hh|done].
  - rewrite E8. auto.
  - rewrite E11. intros Hl. destruct (H4 Hl) as (code & now & ? & ? & ?). exists code, now.
    by rewrite E7, E10.
  - rewrite E12. intros Hl. destruct (H5 Hl) as (c & now & r & ? & ? & ? & ? & ? & ?).
    exists c, now, r. by rewrite E7, E8, E3, Hh.
  - rewrite E11, E12. auto.
Qed.

Lemma session_inv_quiet s0 h e s : session_inv s0 h s -> session_inv s0 (h ++ [e]) s.
Proof.
  intros [H1 H2 H3 H4 H5 H6]. split; try done.
  - intros Hl. destruct (H4 Hl) as (code & now & ? & ?). exists code, now. split; [|done].
    apply elem_of_app. by left.
  - intros Hl. destruct (H5 Hl) as (c & now & r & ? & ?). exists c, now, r. split; [|done].
    apply elem_of_app. by left.
Qed.

Lemma core_emit e s : core (emit e s) = core s.
Proof. unfold core, origin. by fields. Qed.
Lemma core_set_state x s : core (set_state x s) = core s.
Proof. unfold core, origin. by fields. Qed.
Lemma core_complete s : core (complete s) = core s.
Proof. unfold core, origin. by fields. Qed.

Lemma session_inv_set s0 h s x :
  session_inv s0 h s -> x <> PairingState.AwaitingResponse -> x <> PairingState.Paired ->
  session_inv s0 h (set_state x s).
Proof.
  intros Hi Hx Hp. apply (session_inv_core s0 h s); [done|apply core_set_state|..]; by fields.
Qed.
Lemma session_inv_state s0 h e s x :
  session_inv s0 h s -> x <> PairingState.AwaitingResponse -> x <> PairingState.Paired ->
  session_inv s0 (h ++ [e]) (set_state x s).
Proof. intros. by apply session_inv_quiet, session_inv_set. Qed.
Lemma session_inv_complete s0 h s :
  session_inv s0 h s -> local_confirmed s = true -> remote_confirmed s = true ->
  session_inv s0 h (complete s).
Proof.
  intros Hi Hl Hr. apply (session_inv_core s0 h s); [done|apply core_complete|..]; by fields.
Qed.

Lemma check_time_cases now s s' r :
  check_time now s = (s', r) ->
  (r = Ok () /\ s' = s /\ now < ps_expires_at_unix_ms s)
  \/ (exists err, r = Err err) /\ (s' = s \/ s' = set_state PairingState.TimedOut s).
Proof.
  unfold check_time. destruct (N.leb_spec (ps_expires_at_unix_ms s) now); intros; simplify_eq.
  - right. split; [by eexists|]. destruct (is_terminal _); auto.
  - by left.
Qed.

Ltac quiet := first [ by apply session_inv_quiet | by apply session_inv_state ].

Lemma step_time s0 h e now s s' r :
  session_inv s0 h s -> check_time now s = (s', r) ->
  (r = Ok () /\ s' = s /\ now < ps_expires_at_unix_ms s)
  \/ (exists err, r = Err err) /\ session_inv s0 (h ++ [e]) s'.
Proof.
  intros Hi Ht. apply check_time_cases in Ht as [?|[? [->| ->]]]; [by left|right..]; (split; [done|]); quiet.
Qed.

Lemma step_response s0 h r now s :
  session_inv s0 h s ->
  session_inv s0 (h ++ [(PoResponse r now, succeeded (receive_response r now s).2)])
    (receive_response r now s).1.
Proof.
  intros Hi. unfold receive_response. destruct (check_time now s) as [s1 t] eqn:Ht.
  apply (step_time s0 h (PoResponse r now, false)) in Ht as [(-> & -> & _)|[[err ->] Hi1]];
    [|done..].
  destruct (_ || _) eqn:Hexp; [quiet|]. guards.
  destruct (validate_identity _); [|quiet]. destruct (_ || _) eqn:Hm; [quiet|]. guards.
  unfold presentation. fields. cbn [ok_or mbind result_bind succeeded fst snd].
  pose proof Hi as [I1 I2 I3 I4 I5 I6].
  rewrite (I3 ltac:(done)) in I2. destruct I2 as (_ & Hl & Hr).
  match goal with |- session_inv _ (_ ++ [?e]) ?x => set (s' := x); set (ev := e) end.
  split; unfold s'.
  - unfold origin in *. fields. done.
  - fields. unfold hash_with. fields.
    match goal with H : ps_role s = _ |- _ => rewrite H end. split; congruence.
  - by fields.
  - fields. congruence.
  - fields. congruence.
  - by fields.
Qed.

Lemma elem_of_snoc {A} (x : A) l : x ∈ l ++ [x].
Proof. apply elem_of_app. right. by apply list_elem_of_singleton. Qed.

(** Setting a confirmation flag, with its evidence. *)
Lemma session_inv_confirm s0 h e s l r :
  session_inv s0 h s -> is_Some (ps_remote s) -> ps_state s <> PairingState.Paired ->
  (l = true -> local_confirmed s = true \/ user_confirmed [e] s) ->
  (r = true -> remote_confirmed s = true \/ peer_proved [e] s) ->
  session_inv s0 (h ++ [e]) (put_confirmed l r s).
Proof.
  intros [H1 H2 H3 H4 H5 H6] [rem Hrem] Hnp Hl Hr. rewrite Hrem in H2.
  assert (forall x, x ∈ h -> x ∈ h ++ [e]) as Hh by (intros; apply elem_of_app; by left).
  assert (forall x, x ∈ [e] -> x ∈ h ++ [e]) as He by (intros; apply elem_of_app; by right).
  split; cbn.
  - done.
  - by rewrite Hrem.
  - intros E. rewrite (H3 E) in Hrem. done.
  - intros E. destruct (Hl E) as [E'|(code & now & ? & ? & ?)].
    + destruct (H4 E') as (code & now & ? & ? & ?). exists code, now. split_and!; auto.
    + exists code, now. split_and!; auto.
  - intros E. destruct (Hr E) as [E'|(c & now & rr & ? & ?)].
    + destruct (H5 E') as (c & now & rr & ? & ?). exists c, now, rr. split; auto.
    + exists c, now, rr. split; auto.
  - done.
Qed.

Lemma step_confirm s0 h code now s :
  session_inv s0 h s ->
  session_inv s0 (h ++ [(PoConfirm code now, succeeded (confirm code crypto now s).2)])
    (confirm code crypto now s).1.
Proof.
  intros Hi. unfold confirm. destruct (check_time now s) as [s1 t] eqn:Ht.
  apply (step_time s0 h (PoConfirm code now, false)) in Ht as [(-> & -> & Hnow)|[[err ->] Hi1]];
    [|done..].
  destruct (negb (bool_decide (ps_state s = _))) eqn:Hst; [quiet|].
  destruct (negb (bool_decide (ps_short_code s = _))) eqn:Hcode; [quiet|]. guards.
  destruct (ps_transcript_hash s) as [hash|] eqn:Hhash; [|quiet].
  destruct (sign_transcript crypto hash); [|quiet]. cbn [fst snd succeeded].
  pose proof Hi as [I1 I2 I3 I4 I5 I6].
  destruct (ps_remote s) as [rem|] eqn:Hrem.
  2:{ destruct I2 as [? _]. congruence. }
  assert (session_inv s0 (h ++ [(PoConfirm code now, true)])
    (put_confirmed true (remote_confirmed s) s)) as Hc.
  { apply session_inv_confirm; [done|by rewrite Hrem|by rewrite Hst| |by left].
    intros _. right. exists code, now. split_and!; try done. by left. }
  cbn. destruct (remote_confirmed s) eqn:Hrc; cbn.
  - by apply session_inv_complete.
  - by apply session_inv_set.
Qed.

Lemma step_confirmation s0 h c now s :
  session_inv s0 h s ->
  session_inv s0 (h ++ [(PoConfirmation c now, succeeded (receive_confirmation c crypto now s).2)])
    (receive_confirmation c crypto now s).1.
Proof.
  intros Hi. unfold receive_confirmation. destruct (check_time now s) as [s1 t] eqn:Ht.
  apply (step_time s0 h (PoConfirmation c now, false)) in Ht as [(-> & -> & Hnow)|[[err ->] Hi1]];
    [|done..].
  destruct (negb (_ || _)) eqn:Hst; [quiet|]. apply negb_false_iff, orb_true_iff in Hst.
  assert (ps_state s <> PairingState.Paired) as Hnp.
  { intros E. rewrite E in Hst. by destruct Hst as [Hst|Hst]. }
  pose proof Hi as [I1 I2 I3 I4 I5 I6].
  destruct (ps_remote s) as [rem|] eqn:Hrem; [|quiet].
  destruct (ps_transcript_hash s) as [hash|]; [|quiet].
  destruct (negb _ || _ || _) eqn:Hm; [quiet|]. guards.
  destruct (negb (verify_transcript _ _ _ _)) eqn:Hv; [quiet|]. guards. cbn [fst snd succeeded].
  destruct I2 as [[= ->] _].
  assert (session_inv s0 (h ++ [(PoConfirmation c now, true)])
    (put_confirmed (local_confirmed s) true s)) as Hc.
  { apply session_inv_confirm; [done|by rewrite Hrem|done|by left|].
    intros _. right. exists c, now, rem. split_and!; try done. by left. }
  cbn. destruct (local_confirmed s) eqn:Hlc; cbn; [by apply session_inv_complete|done].
Qed.

Lemma pairing_step_inv s0 h s op :
  session_inv s0 h s -> session_inv s0 (h ++ [(op, (pairing_step s op).2)]) (pairing_step s op).1.
Proof.
  intros Hi. destruct op as [r now|code now|c now| | |t|now|]; cbn.
  - pose proof (step_response s0 h r now s Hi) as Hs. by destruct (receive_response r now s).
  - pose proof (step_confirm s0 h code now s Hi) as Hs. by destruct (confirm code crypto now s).
  - pose proof (step_confirmation s0 h c now s Hi) as Hs. by destruct (receive_confirmation c crypto now s).
  - unfold pairing_reject, ensure_nonterminal. destruct (is_terminal _); quiet.
  - unfold pairing_cancel, ensure_nonterminal. destruct (is_terminal _); quiet.
  - unfold receive_termination, ensure_nonterminal. destruct (is_terminal _); [quiet|].
    destruct (negb _); [quiet|]. destruct (pt_reason t); quiet.
  - unfold pairing_tick. destruct (check_time now s) as [s1 r] eqn:Ht.
    apply (step_time s0 h (PoTick now, succeeded r)) in Ht as [(-> & -> & _)|[_ ?]]; [quiet|done|done].
  - apply session_inv_quiet. apply (session_inv_core s0 h s); [done..|]. apply Hi.
Qed.

Lemma pairing_run_inv s0 ops h s :
  session_inv s0 h s ->
  session_inv s0 (h ++ (pairing_run s ops).2) (pairing_run s ops).1.
Proof.
  revert h s. induction ops as [|op ops IH]; intros h s Hi; cbn; [by rewrite app_nil_r|].
  pose proof (pairing_step_inv s0 h s op Hi) as Hs. destruct (pairing_step s op) as [s1 b]. cbn in Hs.
  specialize (IH _ _ Hs). destruct (pairing_run s1 ops) as [s2 h2]. cbn in *. by rewrite <- app_assoc in IH.
Qed.

(** A session as either side creates it. *)
Definition created (s : PairingSession) : Prop :=
  (exists li id version challenge m expires trusted cap,
     pairing_initiator li id version challenge m expires trusted cap = Ok s)
  \/ (exists lr o now trusted cap resp, pairing_responder lr o now trusted cap = Ok (s, resp)).

Lemma created_inv s : created s -> session_inv s [] s.
Proof.
  intros [(li & id & v & ch & m & ex & tr & cap & Hs)|(lr & o & now & tr & cap & resp & Hs)].
  - unfold pairing_initiator in Hs. inv_ok. by split.
  - unfold pairing_responder in Hs. inv_ok. split; unfold origin, hash_with; by fields.
Qed.

(** C4: Nothing pairs without both confirmations.  Whatever a session is
    sent and asked, it records a peer as trusted only if, before it expired,
    the local user confirmed the short code of the transcript that names both
    identities, the version, the challenge and the method, and a confirmation
    of that very peer carried a signature that verifies, under the key that
    is recorded, over that transcript. *)
Theorem pairing_sound s0 ops alias perms now r :
  created s0 ->
  let '(s, h) := pairing_run s0 ops in
  trust_record alias perms now s = Ok r ->
  exists remote, tr_peer_id r = lt_peer_id remote /\ tr_public_key r = lt_public_key remote
    /\ (exists t, (PoConfirm (short_code (hash_with s0 remote)) t, true) ∈ h
                  /\ t < ps_expires_at_unix_ms s0)
    /\ (exists c t, (PoConfirmation c t, true) ∈ h /\ t < ps_expires_at_unix_ms s0
         /\ pc_pairing_id c = ps_pairing_id s0 /\ pc_signer_peer_id c = lt_peer_id remote
         /\ verify_transcript crypto (lt_public_key remote) (hash_with s0 remote) (pc_signature c)
            = true).
Proof.
  intros Hcr%created_inv. pose proof (pairing_run_inv s0 ops [] s0 Hcr) as Hi.
  destruct (pairing_run s0 ops) as [s h]. cbn in Hi. intros Hr. unfold trust_record in Hr. inv_ok. guards.
  destruct Hi as [H1' H2' H3' H4' H5' H6'].
  match goal with H : ps_state s = _ |- _ => destruct (H6' H) as [Hl Hp] end.
  match goal with H : ps_remote s = Some ?x |- _ => rename x into remote; rewrite H in H2'; rename H into Hrem end.
  destruct H2' as [_ Hcode]. unfold origin in H1'.
  injection H1' as E1 E2 E3 E4 E5 E6 E7.
  assert (hash_with s0 remote = hash_with s remote) as Hh
    by (unfold hash_with; by rewrite E1, E2, E4, E5, E6).
  exists remote. split; [done|]. split; [done|]. rewrite Hh, <- E3, <- E7. split.
  - destruct (H4' Hl) as (code & t & Hin & Ht & Hc). rewrite Hcode in Hc. injection Hc as <-. by exists t.
  - destruct (H5' Hp) as (c & t & rem & Hin & Ht & Hr & Hid & Hsig & Hv). rewrite Hrem in Hr.
    injection Hr as <-. by exists c, t.
Qed.
End safety.

(** ** Witnesses *)

Definition toy_crypto : PairingCrypto :=
  mkPairingCrypto (fun hash => Ok (vec_to_list hash))
    (fun _ hash signature => bool_decide (signature = vec_to_list hash)).
Definition toy_identity (n : N) (name : string) : LongTermIdentity :=
  mkLongTerm (id_of PeerKind n) (str "0123456789abcdef" ++ [byte_of_n n]) (str name).
Definition toy_pairing_id : PairingId := mkPairingId (vreplicate 16 Byte.x05).
Definition toy_challenge : vec byte 32 := vreplicate 32 Byte.x09.
Definition toy_initiator : PairingSession :=
  mkPairingSession PairInitiator PairingState.AwaitingResponse (toy_identity 1 "phone") None
    toy_pairing_id (mkVersion 1 0) toy_challenge ShortCode 1000 None None false false [] 4 0.
Definition toy_offer : PairingOffer :=
  mkPairingOffer toy_pairing_id (toy_identity 1 "phone") (mkVersion 1 0) toy_challenge ShortCode 1000.
Definition toy_hash : vec byte 32 :=
  @transcript_hash toy_sha256 (toy_identity 1 "phone") (toy_identity 2 "desk") (mkVersion 1 0)
    toy_challenge ShortCode.
Definition toy_answer : PairingResponse :=
  mkPairingResponse toy_pairing_id (toy_identity 2 "desk") toy_hash (short_code toy_hash).
Definition toy_responder : PairingSession :=
  match @pairing_responder toy_sha256 (toy_identity 2 "desk") toy_offer 5 false 4 with
  | Ok (s, _) => s
  | Err _ => toy_initiator
  end.

Lemma pairing_agreement_witness :
  exists s1 c_r, @receive_response toy_sha256 toy_answer 10 toy_initiator = (s1, Ok ())
  /\ (confirm (short_code toy_hash) toy_crypto 30 toy_responder).2 = Ok c_r
  /\ @trust_record toy_sha256 (str "desk") ∅ 40
       (finish true (short_code toy_hash) toy_crypto c_r 20 40 s1)
     = Ok (mkTrustRecord (id_of PeerKind 2) (str "0123456789abcdef" ++ [byte_of_n 2]) (str "desk") 40 ∅
             KeyActive (@sha256 toy_sha256 (vec_to_list toy_challenge)) []).
Proof.
  destruct (@pairing_agreement toy_sha256 (toy_identity 1 "phone") (toy_identity 2 "desk")
    toy_pairing_id (mkVersion 1 0) toy_challenge ShortCode 1000 4 4 toy_initiator toy_offer 5
    toy_responder toy_answer eq_refl eq_refl ltac:(vm_compute; exact eq_refl)
    10 20 30 40 50 toy_crypto toy_crypto (vec_to_list toy_hash) (vec_to_list toy_hash) true false
    (str "desk") (str "phone") ∅)
    as (s1 & H1 & _ & _ & c_i & c_r & _ & H2 & H3 & _).
  - repeat constructor.
  - exact eq_refl.
  - vm_compute. exact eq_refl.
  - exact eq_refl.
  - vm_compute. exact eq_refl.
  - discriminate.
  - discriminate.
  - exists s1, c_r. split; [exact H1|]. split; [exact H2|]. exact H3.
Defined.

Definition toy_ops : list pairing_op :=
  [PoResponse toy_answer 10; PoConfirm (short_code toy_hash) 20;
   PoConfirmation (mkPairingConfirmation toy_pairing_id (id_of PeerKind 2) toy_hash
                     (vec_to_list toy_hash)) 30].
Lemma pairing_sound_witness :
  match @trust_record toy_sha256 (str "desk") ∅ 40
          (@pairing_run toy_sha256 toy_crypto toy_initiator toy_ops).1 with
  | Ok r => exists remote, tr_peer_id r = lt_peer_id remote
      /\ exists t, (PoConfirm (short_code (@hash_with toy_sha256 toy_initiator remote)) t, true)
                   ∈ (@pairing_run toy_sha256 toy_crypto toy_initiator toy_ops).2
  | Err _ => False
  end.
Proof.
  assert (@created toy_sha256 toy_initiator) as Hc.
  { left. exists (toy_identity 1 "phone"), toy_pairing_id, (mkVersion 1 0), toy_challenge, ShortCode,
      1000, false, 4. exact eq_refl. }
  assert (ps_state (@pairing_run toy_sha256 toy_crypto toy_initiator toy_ops).1 = PairingState.Paired)
    as Hp by (vm_compute; exact eq_refl).
  assert (ps_remote (@pairing_run toy_sha256 toy_crypto toy_initiator toy_ops).1
    = Some (toy_identity 2 "desk")) as Hr by (vm_compute; exact eq_refl).
  pose proof (fun r => @pairing_sound toy_sha256 toy_crypto toy_initiator toy_ops (str "desk") ∅ 40 r Hc)
    as H.
  destruct (@pairing_run toy_sha256 toy_crypto toy_initiator toy_ops) as [s h]. cbn [fst snd] in *.
  destruct (trust_record (str "desk") ∅ 40 s) as [r|e] eqn:E.
  - destruct (H r eq_refl) as (remote & H1 & _ & (t & H2 & _) & _). exists remote. split; [exact H1|].
    exists t. exact H2.
  - unfold trust_record in E. rewrite Hp, Hr in E. cbn in E. discriminate E.
Defined.

(** A response that arrives after the pairing completed undoes it: the session
    reports an unexpected response and fails. *)
Lemma paired_session_fails :
  let s := (@pairing_run toy_sha256 toy_crypto toy_initiator toy_ops).1 in
  ps_state s = PairingState.Paired
  /\ ps_state (@receive_response toy_sha256 toy_answer 40 s).1 = PairingState.Failed.
Proof. split; vm_compute; reflexivity. Qed.
