(* ===== verification/NtpBinding.v ===== *)
(** * The NTP binding: errors, configuration and authorisation

    Models the declarations of [ntp-mutsuki-link/src/lib.rs] that its parts
    share, and [auth.rs].  The errors of the crate [nana_tracking_protocol] and
    its stream policy are parameters; durations are counted in nanoseconds. *)

From S2P Require Export Security Trust Transport.
Local Open Scope N_scope.

(** What the binding uses of [nana_tracking_protocol] here. *)
Class NanaTracking := {
  CodecError : Type;
  ContractError : Type;
  LayoutError : Type;
  NtpHandshakeError : Type;
  CompactFrameError : Type;
  CompactStreamError : Type;
  StreamError : Type;
  CompactStreamPolicy : Type;
}.

(** The least of it, for examples. *)
Definition unit_tracking : NanaTracking := {|
  CodecError := (); ContractError := (); LayoutError := (); NtpHandshakeError := ();
  CompactFrameError := (); CompactStreamError := (); StreamError := (); CompactStreamPolicy := ();
|}.

Inductive BindingError `{NanaTracking} :=
| BeTransport (error : TransportError)
| BeCodec (error : CodecError)
| BeContract (error : ContractError)
| BeLayout (error : LayoutError)
| BeHandshake (error : NtpHandshakeError)
| BeCompact (error : CompactFrameError)
| BeCompactStream (error : CompactStreamError)
| BeStream (error : StreamError)
| InvalidConfig | InvalidControl | InvalidFragment | InvalidState | IncompatibleVersion
| ControlLimit | PayloadLimit | DatagramsUnsupported | BeUnauthorized | SessionBindingMismatch
| LayoutMismatch | BeRateLimited | ChannelFused | PeerRevoked | ReplayOrDuplicate | StaleResult.

Definition COMPACT_RIG_FLOW : N := 19984.
Definition CORE_RESULT_FLOW : N := 19985.
Definition GEOMETRY_FLOW : N := 19986.

Record BindingConfig `{NanaTracking} := mkBindingConfig {
  result_deadline : N;
  max_result_age : N;
  max_reassembly_bytes : N;
  max_fragments : N;
  max_control_bytes : N;
  max_pending_control : N;
  max_tracking_frame_bytes : N;
  max_target_fps : N;
  max_burst_fps : N;
  max_reconfigure_per_minute : N;
  max_receive_frames_per_poll : N;
  max_protocol_violations : N;
  geometry_cadence : option N;
  compact_policy : CompactStreamPolicy;
}.
Arguments mkBindingConfig {_} _ _ _ _ _ _ _ _ _ _ _ _ _ _.

Section binding.
Context `{NanaTracking}.

(** [BindingConfig::default] but for the stream policy. *)
Definition default_binding_config (policy : CompactStreamPolicy) : BindingConfig :=
  mkBindingConfig 50000000 100000000 (8 * 1024 * 1024) 8192 (64 * 1024) 16 (8 * 1024 * 1024)
    120 240 6 32 8 (Some 15) policy.

Definition binding_config_validate (c : BindingConfig) : result BindingError BindingConfig :=
  reject (result_deadline c =? 0) || (max_result_age c =? 0)
         || (max_reassembly_bytes c =? 0) || (u32_max <? max_reassembly_bytes c)
         || (max_fragments c =? 0) || (u16_max <? max_fragments c)
         || (max_control_bytes c =? 0) || (max_pending_control c =? 0)
         || (max_tracking_frame_bytes c =? 0) || (u32_max <? max_tracking_frame_bytes c)
         || (max_target_fps c =? 0) || (max_burst_fps c <? max_target_fps c)
         || (max_reconfigure_per_minute c =? 0) || (max_receive_frames_per_poll c =? 0)
         || (max_protocol_violations c =? 0) || bool_decide (geometry_cadence c = Some 0)
    with InvalidConfig;
  Ok c.
Definition max_result_age_ns (c : BindingConfig) : N := N.min u64_max (max_result_age c).

Record FragmentBatchOutcome := mkBatch {
  fb_fragments : N;
  fb_enqueued : N;
  fb_replaced : N;
  fb_expired : N;
  fb_congested : N;
}.
Definition default_batch : FragmentBatchOutcome := mkBatch 0 0 0 0 0.
Definition delivered_to_transport (o : FragmentBatchOutcome) : bool :=
  (0 <? fb_fragments o) && (fb_expired o =? 0) && (fb_congested o =? 0).

(** ** Authorisation *)

Inductive NtpRole := Publisher | Subscriber.
Inductive NtpPermission := NtpPublish | NtpSubscribe | NtpNegotiate | NtpCalibrationWrite.

(** The [u8] of flags. *)
Record NtpPermissions := mkNtpPermissions { permission_bits : N }.
Definition ntp_empty : NtpPermissions := mkNtpPermissions 0.
Definition permission_flag (p : NtpPermission) : N :=
  match p with
  | NtpPublish => N.shiftl 1 0
  | NtpSubscribe => N.shiftl 1 1
  | NtpNegotiate => N.shiftl 1 2
  | NtpCalibrationWrite => N.shiftl 1 3
  end.
Definition ntp_with (s : NtpPermissions) (p : NtpPermission) : NtpPermissions :=
  mkNtpPermissions (N.lor (permission_bits s) (permission_flag p)).
Definition ntp_contains (s : NtpPermissions) (p : NtpPermission) : bool :=
  negb (N.land (permission_bits s) (permission_flag p) =? 0).

Definition from_link_permissions (l : list LinkPermission) : NtpPermissions :=
  fold_left (fun s p =>
      match p with
      | PermTrackingPublish => ntp_with s NtpPublish
      | PermTrackingSubscribe => ntp_with s NtpSubscribe
      | PermTrackingNegotiate => ntp_with s NtpNegotiate
      | PermTrackingCalibrationWrite => ntp_with s NtpCalibrationWrite
      | PermConnect | PermOpenNamespace _ | PermDatagram => s
      end) l ntp_empty.

Record NtpPermissionGrant := mkGrant { grant_permissions : NtpPermissions; gr_revision : N }.
Record NtpAuthorization := mkAuthorization {
  au_peer_id : PeerId;
  au_link_session_id : SessionId;
  au_key_epoch : N;
  au_grant_revision : N;
  au_role : NtpRole;
}.

Definition authorize_ntp_session (session : AuthenticatedSession) (role : NtpRole)
    (grant : NtpPermissionGrant) : result BindingError NtpAuthorization :=
  let allowed :=
    ntp_contains (grant_permissions grant) NtpNegotiate
    && match role with
       | Publisher => ntp_contains (grant_permissions grant) NtpPublish
       | Subscriber => ntp_contains (grant_permissions grant) NtpSubscribe
       end in
  reject negb allowed with BeUnauthorized;
  Ok (mkAuthorization (info_peer_id (as_session session)) (info_session_id (as_session session))
        (ie_key_epoch (ev_identity (as_evidence session))) (gr_revision grant) role).

(** [BTreeSet] iterates in order. *)
Definition authorize_trusted_ntp_session `{Sha256} (session : AuthenticatedSession) (role : NtpRole)
    (record : TrustRecord) (grant_revision : N) : result BindingError NtpAuthorization :=
  reject negb (trust_is_active record) with PeerRevoked;
  reject negb (bool_decide (tr_peer_id record = info_peer_id (as_session session)))
         || negb (bool_decide (public_key_fingerprint record
                               = ie_public_key_fingerprint (ev_identity (as_evidence session))))
    with BeUnauthorized;
  authorize_ntp_session session role
    (mkGrant (from_link_permissions (merge_sort key_le (elements (tr_permissions record))))
       grant_revision).
End binding.

(** ** What authorisation means *)

Lemma permission_with_contains s p q :
  ntp_contains (ntp_with s p) q = bool_decide (permission_flag p = permission_flag q) || ntp_contains s q.
Proof.
  unfold ntp_contains, ntp_with. cbn [permission_bits]. rewrite N.land_lor_distr_l.
  destruct (N.eqb_spec (N.land (permission_bits s) (permission_flag q)) 0) as [->|Hne].
  - rewrite N.lor_0_l. by destruct p, q.
  - rewrite orb_true_r. apply negb_true_iff, N.eqb_neq. intros [? _]%N.lor_eq_0_iff. done.
Qed.

(** The permission of the application that a trusted peer's permission grants. *)
Definition granted_by (p : NtpPermission) : LinkPermission :=
  match p with
  | NtpPublish => PermTrackingPublish
  | NtpSubscribe => PermTrackingSubscribe
  | NtpNegotiate => PermTrackingNegotiate
  | NtpCalibrationWrite => PermTrackingCalibrationWrite
  end.

Lemma from_link_permissions_contains l p :
  ntp_contains (from_link_permissions l) p = true <-> granted_by p ∈ l.
Proof.
  unfold from_link_permissions.
  enough (forall s, ntp_contains (fold_left (fun s p =>
      match p with
      | PermTrackingPublish => ntp_with s NtpPublish
      | PermTrackingSubscribe => ntp_with s NtpSubscribe
      | PermTrackingNegotiate => ntp_with s NtpNegotiate
      | PermTrackingCalibrationWrite => ntp_with s NtpCalibrationWrite
      | PermConnect | PermOpenNamespace _ | PermDatagram => s
      end) l s) p = true <-> granted_by p ∈ l \/ ntp_contains s p = true) as ->.
  { split; [intros [?|?]; [done|by destruct p]|by left]. }
  induction l as [|x l IH]; intros s; cbn [fold_left].
  - split; [by right|by intros [?%not_elem_of_nil|]].
  - rewrite IH, elem_of_cons.
    destruct x; rewrite ?permission_with_contains, ?orb_true_iff; destruct p; cbn;
      split; intros; destruct_or?; auto; try discriminate.
Qed.

(** C36: Only a trusted peer with the role's permissions is authorised.  A
    session is authorised for a role exactly when the trust record is active,
    is that of the session's peer with the key the transport verified, and
    grants negotiation and the role's own permission; the authorisation then
    names the session, its key epoch, the revision of the grant and the role. *)
Theorem ntp_authorization_sound `{NanaTracking} `{Sha256} session role record revision a :
  authorize_trusted_ntp_session session role record revision = Ok a <->
  tr_key_state record = KeyActive
  /\ tr_peer_id record = info_peer_id (as_session session)
  /\ public_key_fingerprint record = ie_public_key_fingerprint (ev_identity (as_evidence session))
  /\ PermTrackingNegotiate ∈ tr_permissions record
  /\ match role with
     | Publisher => PermTrackingPublish ∈ tr_permissions record
     | Subscriber => PermTrackingSubscribe ∈ tr_permissions record
     end
  /\ a = mkAuthorization (info_peer_id (as_session session)) (info_session_id (as_session session))
           (ie_key_epoch (ev_identity (as_evidence session))) revision role.
Proof.
  unfold authorize_trusted_ntp_session, authorize_ntp_session, trust_is_active.
  cbn [grant_permissions gr_revision].
  set (l := merge_sort key_le (elements (tr_permissions record))).
  assert (forall p, ntp_contains (from_link_permissions l) p = true <-> granted_by p ∈ tr_permissions record)
    as Hp.
  { intros p. rewrite from_link_permissions_contains. unfold l.
    by rewrite merge_sort_Permutation, elem_of_elements. }
  clearbody l. split.
  - intros H1. inv_ok. guards. rewrite Hp in *. split_and!; try done. destruct role; [apply (Hp NtpPublish)|apply (Hp NtpSubscribe)]; done.
  - intros (-> & -> & -> & Hn & Hr & ->). rewrite !bool_decide_eq_true_2 by done.
    rewrite (proj2 (Hp NtpNegotiate) Hn).
    destruct role; [rewrite (proj2 (Hp NtpPublish) Hr)|rewrite (proj2 (Hp NtpSubscribe) Hr)]; done.
Qed.
