(* ===== verification/Fragment.v ===== *)
(** * Fragmentation of tracking results

    Models [ntp-mutsuki-link/src/fragment.rs]: a result is cut into fragments
    that travel as real-time datagrams of one group, and put together at the
    other end in any order.  The scratch buffer of [send_fragmented] is not
    observable.  An operation that can panic on a slice returns [None] there;
    [usize] has 64 bits. *)

From S2P Require Export NtpBinding.
Local Open Scope N_scope.

Definition FRAGMENT_MAGIC : list byte := str "NTF1".
Definition FRAGMENT_VERSION : N := 1.
Definition FRAGMENT_HEADER_LEN : N := 18.

(** The real-time methods of the trait [Connection] that the binding calls. *)
Class RealtimeConnection (C W : Type) := {
  max_datagram_payload : C -> W -> option N;
  try_send_latest : C -> RealtimeDatagram -> W -> W * result TransportError SendOutcome;
  try_receive_realtime : C -> W -> W * result TransportError (option ReceivedRealtimeDatagram);
}.
(** The in-memory transport keeps the provided ones. *)
Definition memory_realtime : RealtimeConnection MemoryConnection MemoryPair := {|
  max_datagram_payload _ _ := default_max_datagram_payload;
  try_send_latest _ _ := default_try_send_latest;
  try_receive_realtime _ := default_try_receive_realtime;
|}.
#[export] Existing Instance memory_realtime.

(** [slice::chunks]. *)
Fixpoint chunks_fuel {A} (fuel n : nat) (l : list A) : list (list A) :=
  match fuel, l with
  | S fuel, _ :: _ => take n l :: chunks_fuel fuel n (drop n l)
  | _, _ => []
  end.
Definition chunks {A} (n : N) (l : list A) : list (list A) :=
  chunks_fuel (length l) (N.to_nat n) l.

Section fragment.
Context `{NanaTracking}.

(** ** Sending *)

Record FragmentSend := mkFragmentSend {
  fr_flow : N;
  fr_generation : N;
  fr_sequence : N;
  fr_deadline : N;
  fr_priority : RealtimePriority.t;
  fr_payload : list byte;
  fr_config : BindingConfig;
}.

Definition fragment_wire (index count chunk_bytes total : N) (chunk : list byte)
    : result BindingError (list byte) :=
  reject usize_max <? index * chunk_bytes with PayloadLimit;
  let offset := index * chunk_bytes in
  reject u16_max <? index with PayloadLimit;
  reject u16_max <? count with PayloadLimit;
  reject u32_max <? offset with PayloadLimit;
  reject u32_max <? total with PayloadLimit;
  Ok (FRAGMENT_MAGIC ++ [byte_of_n FRAGMENT_VERSION] ++ [byte_of_n 0] ++ be_bytes 2 index
      ++ be_bytes 2 count ++ be_bytes 4 offset ++ be_bytes 4 total ++ chunk).

Definition add_outcome (o : SendOutcome) (a : FragmentBatchOutcome) : FragmentBatchOutcome :=
  let fragments := sat_add usize_max (fb_fragments a) 1 in
  let one x := sat_add usize_max x 1 in
  match o with
  | Enqueued => mkBatch fragments (one (fb_enqueued a)) (fb_replaced a) (fb_expired a) (fb_congested a)
  | ReplacedOlder =>
    mkBatch fragments (fb_enqueued a) (one (fb_replaced a)) (fb_expired a) (fb_congested a)
  | DroppedExpired =>
    mkBatch fragments (fb_enqueued a) (fb_replaced a) (one (fb_expired a)) (fb_congested a)
  | DroppedCongested =>
    mkBatch fragments (fb_enqueued a) (fb_replaced a) (fb_expired a) (one (fb_congested a))
  | Unsupported => mkBatch fragments (fb_enqueued a) (fb_replaced a) (fb_expired a) (fb_congested a)
  end.

Section send.
Context {C W : Type} `{RealtimeConnection C W}.

Fixpoint send_chunks (r : FragmentSend) (count chunk_bytes index : N) (l : list (list byte))
    (a : FragmentBatchOutcome) (c : C) (w : W) : W * result BindingError FragmentBatchOutcome :=
  match l with
  | [] => (w, Ok a)
  | chunk :: l =>
    match fragment_wire index count chunk_bytes (len (fr_payload r)) chunk with
    | Err e => (w, Err e)
    | Ok wire =>
      let '(w, sent) :=
        try_send_latest c (mkDatagram (fr_flow r) (fr_generation r) (fr_sequence r)
                             (fr_deadline r) (fr_priority r) wire) w in
      match sent with
      | Err e => (w, Err (BeTransport e))
      | Ok o =>
        match o with
        | Enqueued | ReplacedOlder =>
          send_chunks r count chunk_bytes (index + 1) l (add_outcome o a) c w
        | DroppedExpired | DroppedCongested => (w, Ok (add_outcome o a))
        | Unsupported => (w, Err DatagramsUnsupported)
        end
      end
    end
  end.

Definition send_fragmented (c : C) (r : FragmentSend) (w : W)
    : W * result BindingError FragmentBatchOutcome :=
  if bool_decide (fr_payload r = []) || (max_reassembly_bytes (fr_config r) <? len (fr_payload r))
  then (w, Err PayloadLimit)
  else
    match max_datagram_payload c w with
    | None => (w, Err DatagramsUnsupported)
    | Some max_payload =>
      if max_payload <=? FRAGMENT_HEADER_LEN then (w, Err PayloadLimit)
      else
        let chunk_bytes := max_payload - FRAGMENT_HEADER_LEN in
        let fragment_count := div_ceil (len (fr_payload r)) chunk_bytes in
        if (max_fragments (fr_config r) <? fragment_count) || (u16_max <? fragment_count)
        then (w, Err PayloadLimit)
        else
          send_chunks r fragment_count chunk_bytes 0 (chunks chunk_bytes (fr_payload r))
            default_batch c w
    end.
End send.

(** ** Reassembly *)

Record Fragment := mkFragment {
  fg_index : N;
  fg_count : N;
  fg_offset : N;
  fg_total_len : N;
  fg_payload : list byte;
}.
#[export] Instance Fragment_eq_dec : EqDecision Fragment.
Proof. solve_decision. Defined.

Definition fragment_decode (bytes : list byte) (config : BindingConfig)
    : result BindingError Fragment :=
  reject (len bytes <=? FRAGMENT_HEADER_LEN)
         || negb (bool_decide (field 0 4 bytes = FRAGMENT_MAGIC))
         || negb (from_be_bytes (field 4 5 bytes) =? FRAGMENT_VERSION)
         || negb (from_be_bytes (field 5 6 bytes) =? 0)
    with InvalidFragment;
  let index := from_be_bytes (field 6 8 bytes) in
  let count := from_be_bytes (field 8 10 bytes) in
  let offset := from_be_bytes (field 10 14 bytes) in
  let total_len := from_be_bytes (field 14 18 bytes) in
  let payload := drop 18 bytes in
  reject (count =? 0) || (max_fragments config <? count) || (count <=? index) || (total_len =? 0)
         || (max_reassembly_bytes config <? total_len)
         || match checked_add usize_max offset (len payload) with
            | Some e => total_len <? e
            | None => true
            end
    with InvalidFragment;
  Ok (mkFragment index count offset total_len payload).

Record Reassembly := mkReassembly {
  ra_generation : N;
  ra_sequence : N;
  ra_fragment_count : N;
  ra_total_len : N;
  ra_slots : list (option (N * N));
  ra_received : N;
  ra_bytes : list byte;
}.

(** [bytes[offset..offset + payload.len()].copy_from_slice(payload)]. *)
Definition copy_at (offset : N) (payload bytes : list byte) : list byte :=
  take (N.to_nat offset) bytes ++ payload ++ drop (N.to_nat (offset + len payload)) bytes.

(** [Reassembly::insert]. *)
Definition reassembly_insert (f : Fragment) (s : Reassembly)
    : option (Reassembly * result BindingError ()) :=
  match ra_slots s !! N.to_nat (fg_index f) with
  | None => Some (s, Err InvalidFragment)
  | Some slot =>
    let range := (fg_offset f, len (fg_payload f)) in
    match slot with
    | Some existing =>
      if negb (bool_decide (existing = range)) then Some (s, Err InvalidFragment)
      else
        present ← slice_get (fg_offset f) (fg_offset f + len (fg_payload f)) (ra_bytes s);
        Some (s, if negb (bool_decide (present = fg_payload f)) then Err InvalidFragment else Ok ())
    | None =>
      _ ← slice_get (fg_offset f) (fg_offset f + len (fg_payload f)) (ra_bytes s);
      Some (mkReassembly (ra_generation s) (ra_sequence s) (ra_fragment_count s) (ra_total_len s)
              (<[N.to_nat (fg_index f) := Some range]> (ra_slots s))
              (sat_add usize_max (ra_received s) 1)
              (copy_at (fg_offset f) (fg_payload f) (ra_bytes s)), Ok ())
    end
  end.

(** [Reassembly::new]. *)
Definition reassembly_new (generation sequence : N) (first : Fragment)
    : option (result BindingError Reassembly) :=
  r ← reassembly_insert first
        (mkReassembly generation sequence (fg_count first) (fg_total_len first)
           (replicate (N.to_nat (fg_count first)) None) 0
           (replicate (N.to_nat (fg_total_len first)) (byte_of_n 0)));
  Some (_ ← r.2; Ok r.1).

Definition reassembly_complete (s : Reassembly) : bool := ra_received s =? ra_fragment_count s.

(** The loop of [finish] over the sorted ranges. *)
Fixpoint contiguous (cursor : N) (ranges : list (N * N)) : result BindingError N :=
  match ranges with
  | [] => Ok cursor
  | (offset, length) :: ranges =>
    reject negb (offset =? cursor) with InvalidFragment;
    cursor ← ok_or InvalidFragment (checked_add usize_max cursor length);
    contiguous cursor ranges
  end.
Definition range_le : relation (N * N) := fun r1 r2 => r1.1 <= r2.1.
#[export] Instance range_le_dec : RelDecision range_le.
Proof. intros ? ?. unfold range_le. apply _. Defined.

(** [Reassembly::finish].  The sort is unstable in the source: no order of
    equal offsets is contiguous, as no range is empty. *)
Definition finish (s : Reassembly) : result BindingError (list byte) :=
  ranges ← ok_or InvalidFragment (mapM id (ra_slots s));
  cursor ← contiguous 0 (merge_sort range_le ranges);
  reject negb (cursor =? ra_total_len s) with InvalidFragment;
  Ok (ra_bytes s).

Record Reassembler := mkReassembler {
  rs_state : option Reassembly;
  last_completed : option (N * N);
}.
Definition reassembler_new : Reassembler := mkReassembler None None.
Definition reassembler_clear (r : Reassembler) : Reassembler := mkReassembler None None.

Inductive ReassemblyOutcome :=
| RePending (replaced_incomplete : bool)
| ReComplete (generation sequence : N) (payload : list byte) (replaced_incomplete : bool)
| IgnoredOld.

(** Whether a message precedes or repeats another. *)
Definition not_newer (generation sequence : N) (last : N * N) : bool :=
  (generation <? last.1) || ((generation =? last.1) && (sequence <=? last.2)).

(** The rest of [push], once the state is that of the fragment's message. *)
Definition push_state (fragment : Fragment) (replaced_incomplete : bool) (s : Reassembly)
    (last : option (N * N)) : option (Reassembler * result BindingError ReassemblyOutcome) :=
  if negb (ra_fragment_count s =? fg_count fragment) || negb (ra_total_len s =? fg_total_len fragment)
  then Some (mkReassembler (Some s) last, Err InvalidFragment)
  else
    '(s, inserted) ← reassembly_insert fragment s;
    match inserted with
    | Err e => Some (mkReassembler (Some s) last, Err e)
    | Ok _ =>
      if negb (reassembly_complete s) then
        Some (mkReassembler (Some s) last, Ok (RePending replaced_incomplete))
      else
        Some (mkReassembler None (Some (ra_generation s, ra_sequence s)),
              payload ← finish s;
              Ok (ReComplete (ra_generation s) (ra_sequence s) payload replaced_incomplete))
    end.

Definition reassembler_push (generation sequence : N) (payload : list byte) (config : BindingConfig)
    (r : Reassembler) : option (Reassembler * result BindingError ReassemblyOutcome) :=
  if match last_completed r with Some l => not_newer generation sequence l | None => false end
  then Some (r, Ok IgnoredOld)
  else
    match fragment_decode payload config with
    | Err e => Some (r, Err e)
    | Ok fragment =>
      let fresh (replaced : bool) :=
        n ← reassembly_new generation sequence fragment;
        match n with
        | Err e => Some (r, Err e)
        | Ok s => push_state fragment replaced s (last_completed r)
        end in
      match rs_state r with
      | None => fresh false
      | Some current =>
        if generation <? ra_generation current then Some (r, Ok IgnoredOld)
        else if (generation =? ra_generation current) && (sequence <? ra_sequence current)
        then Some (r, Ok IgnoredOld)
        else if (generation =? ra_generation current) && (sequence =? ra_sequence current)
        then push_state fragment false current (last_completed r)
        else fresh true
      end
    end.
End fragment.
