(* ===== verification/FragmentFacts.v ===== *)
(** * Fragmentation: what is put together is what was sent

    The state of a reassembly is the effect of a list of accepted fragments,
    one an index; contiguous ranges make its buffer their concatenation. *)

From S2P Require Export Fragment RealtimeWire.
Local Open Scope N_scope.

(** ** Copying into a buffer *)

(** [payload] is what [b] holds from [offset] on. *)
Definition holds (offset : N) (payload b : list byte) : Prop :=
  slice_get offset (offset + len payload) b = Some payload.

Lemma holds_split o p b :
  holds o p b <-> exists l1 l2, b = l1 ++ p ++ l2 /\ len l1 = o.
Proof.
  unfold holds. split.
  - unfold slice_get. intros H. case_decide as Hd; [|done]. simplify_eq.
    exists (take (N.to_nat o) b), (drop (N.to_nat (o + len p)) b). split; [|rewrite length_take; lia].
    rewrite <- (take_drop (N.to_nat o) b) at 1. f_equal.
    rewrite <- (take_drop (N.to_nat (o + len p - o)) (drop (N.to_nat o) b)) at 1.
    rewrite drop_drop, H. do 2 f_equal. lia.
  - intros (l1 & l2 & -> & <-). by apply slice_get_app.
Qed.

Lemma copy_at_length o p b : o + len p <= len b -> length (copy_at o p b) = length b.
Proof. unfold copy_at. intros. rewrite !length_app, length_take, length_drop. lia. Qed.

Lemma copy_at_holds o p b : o + len p <= len b -> holds o p (copy_at o p b).
Proof.
  intros. apply holds_split. unfold copy_at. eexists _, _. split; [done|]. rewrite length_take. lia.
Qed.

Lemma copy_at_other o p o' p' b :
  o + len p <= len b -> o' + len p' <= o \/ o + len p <= o' ->
  holds o' p' b -> holds o' p' (copy_at o p b).
Proof.
  unfold holds. intros Hb Hd H.
  assert (o' + len p' <= len b) as Hb'
    by (unfold slice_get in H; case_decide; [lia|done]).
  rewrite <- H. unfold slice_get. rewrite copy_at_length, !decide_True by lia. f_equal.
  apply list_eq. intros i. destruct (decide (i < N.to_nat (o' + len p' - o'))%nat) as [Hi|Hi].
  2:{ rewrite !lookup_take_ge by lia. done. }
  rewrite !lookup_take_lt, !lookup_drop by lia. unfold copy_at.
  destruct Hd as [Hd|Hd].
  - rewrite lookup_app_l by (rewrite length_take; lia). by rewrite lookup_take_lt by lia.
  - rewrite lookup_app_r by (rewrite length_take; lia).
    rewrite lookup_app_r by (rewrite length_take; lia).
    rewrite lookup_drop, length_take. f_equal. lia.
Qed.

(** ** Contiguous ranges *)

Definition range_of (f : Fragment) : N * N := (fg_offset f, len (fg_payload f)).
Fixpoint payloads (fs : list Fragment) : list byte :=
  match fs with [] => [] | f :: fs => fg_payload f ++ payloads fs end.

(** Fragments in offset order from [cursor] on, without a gap. *)
Fixpoint chained (cursor : N) (fs : list Fragment) : Prop :=
  match fs with
  | [] => True
  | f :: fs => fg_offset f = cursor /\ chained (cursor + len (fg_payload f)) fs
  end.

Lemma contiguous_chained `{NanaTracking} fs cursor e :
  contiguous cursor (range_of <$> fs) = Ok e ->
  chained cursor fs /\ e = cursor + len (payloads fs).
Proof.
  revert cursor. induction fs as [|f fs IH]; cbn; intros cursor Hc; [simplify_eq; split; [done|lia]|].
  inv_ok. guards. unfold checked_add in *. case_decide; [|done]. cbn in *. simplify_eq.
  destruct (IH _ Hc) as [Hch ->]. split; [done|]. rewrite length_app. lia.
Qed.

Lemma chained_contiguous `{NanaTracking} fs cursor :
  chained cursor fs -> cursor + len (payloads fs) <= usize_max ->
  contiguous cursor (range_of <$> fs) = Ok (cursor + len (payloads fs)).
Proof.
  revert cursor. induction fs as [|f fs IH]; cbn; intros cursor Hc Hm; [do 2 f_equal; lia|].
  destruct Hc as [<- Hc]. rewrite N.eqb_refl. cbn. rewrite length_app in *.
  unfold checked_add. rewrite decide_True by lia. cbn. rewrite IH by (done || lia). f_equal. lia.
Qed.

Lemma chained_from fs cursor f : chained cursor fs -> f ∈ fs -> cursor <= fg_offset f.
Proof.
  revert cursor. induction fs as [|g fs IH]; [by intros ? ? ?%not_elem_of_nil|].
  intros cursor [<- Hc] [->|Hf]%elem_of_cons; [done|]. specialize (IH _ Hc Hf). lia.
Qed.

(** Two fragments that do not overlap. *)
Definition disjoint_fragments (f g : Fragment) : Prop :=
  fg_offset f + len (fg_payload f) <= fg_offset g
  \/ fg_offset g + len (fg_payload g) <= fg_offset f.

Lemma chained_disjoint fs cursor f g :
  chained cursor fs -> f ∈ fs -> g ∈ fs -> f <> g -> disjoint_fragments f g.
Proof.
  revert cursor. induction fs as [|x fs IH]; [by intros ? ? ?%not_elem_of_nil|].
  intros cursor [<- Hc] [->|Hf]%elem_of_cons [->|Hg]%elem_of_cons Hne; [done|left|right|by eapply IH];
    by eapply chained_from.
Qed.

Lemma chained_concat fs cursor b :
  chained cursor fs -> Forall (fun f => holds (fg_offset f) (fg_payload f) b) fs ->
  cursor + len (payloads fs) = len b -> drop (N.to_nat cursor) b = payloads fs.
Proof.
  revert cursor. induction fs as [|f fs IH]; intros cursor Hc Hf Hl.
  - cbn in *. apply nil_length_inv. rewrite length_drop. lia.
  - destruct Hc as [<- Hc]. inversion Hf as [|? ? Hh Hfs]; subst.
    cbn [payloads] in *. rewrite length_app in Hl.
    rewrite <- (IH _ Hc Hfs) by lia. apply holds_split in Hh as (l1 & l2 & -> & <-).
    rewrite Nat2N.id, drop_app_length.
    replace (N.to_nat (len l1 + len (fg_payload f))) with (length (l1 ++ fg_payload f))
      by (rewrite length_app; lia).
    by rewrite app_assoc, drop_app_length.
Qed.

(** ** The state of a reassembly *)

Definition fragment_ok (count total : N) (f : Fragment) : Prop :=
  fg_count f = count /\ fg_total_len f = total /\ fg_index f < count /\ fg_payload f <> []
  /\ fg_offset f + len (fg_payload f) <= total.

(** [s] is the effect of the accepted fragments [fs] of the message
    [generation], [sequence]. *)
Record assembled (generation sequence count total : N) (fs : list Fragment) (s : Reassembly) := {
  as_generation : ra_generation s = generation;
  as_sequence : ra_sequence s = sequence;
  as_count : ra_fragment_count s = count;
  as_total : ra_total_len s = total;
  as_received : ra_received s = len fs;
  as_slots : len (ra_slots s) = count;
  as_bytes : len (ra_bytes s) = total;
  as_fragments : Forall (fragment_ok count total) fs;
  as_indices : NoDup (fg_index <$> fs);
  as_taken f : f ∈ fs -> ra_slots s !! N.to_nat (fg_index f) = Some (Some (range_of f));
  as_free i r : ra_slots s !! i = Some (Some r) ->
    exists f, f ∈ fs /\ N.to_nat (fg_index f) = i /\ r = range_of f;
  as_holds f : f ∈ fs ->
    (forall g, g ∈ fs -> fg_index g <> fg_index f -> disjoint_fragments f g) ->
    holds (fg_offset f) (fg_payload f) (ra_bytes s);
}.

Section assembled.
Context `{NanaTracking} (generation sequence count total : N).
Abbreviation assembled := (assembled generation sequence count total).
Abbreviation fragment_ok := (fragment_ok count total).

Lemma assembled_new :
  assembled [] (mkReassembly generation sequence count total (replicate (N.to_nat count) None) 0
                  (replicate (N.to_nat total) (byte_of_n 0))).
Proof.
  split; cbn; rewrite ?length_replicate; try done; try lia; try constructor.
  - by intros ? ?%not_elem_of_nil.
  - intros i r [? _]%lookup_replicate. done.
  - by intros ? ?%not_elem_of_nil.
Qed.

Lemma insert_new fs s f :
  assembled fs s -> fragment_ok f -> fg_index f ∉ fg_index <$> fs -> len fs < usize_max ->
  exists s', reassembly_insert f s = Some (s', Ok ()) /\ assembled (f :: fs) s'.
Proof.
  intros Hs Hf Hnew Hmax. pose proof Hf as (Hc & Ht & Hi & Hp & Hb). destruct Hs.
  unfold reassembly_insert.
  destruct (lookup_lt_is_Some_2 (ra_slots s) (N.to_nat (fg_index f))) as [slot Hslot]; [lia|].
  rewrite Hslot. destruct slot as [r|].
  { exfalso. apply Hnew. destruct (as_free0 _ _ Hslot) as (g & Hg & Heq & _).
    apply N2Nat.inj in Heq as <-. by apply list_elem_of_fmap_2. }
  unfold slice_get at 1. rewrite decide_True by lia. cbn [mbind option_bind].
  eexists. split; [done|]. split; cbn; try done.
  - rewrite as_received0. unfold sat_add. lia.
  - by rewrite length_insert.
  - rewrite copy_at_length; lia.
  - by constructor.
  - by constructor.
  - intros g [->|Hg]%elem_of_cons; [by rewrite list_lookup_insert_eq by lia|].
    rewrite list_lookup_insert_ne; [by apply as_taken0|]. intros Heq%N2Nat.inj.
    apply Hnew. rewrite Heq. by apply list_elem_of_fmap_2.
  - intros i r Hr. destruct (decide (i = N.to_nat (fg_index f))) as [->|Hne].
    + rewrite list_lookup_insert_eq in Hr by lia. simplify_eq. exists f. by rewrite elem_of_cons; auto.
    + rewrite list_lookup_insert_ne in Hr by done. destruct (as_free0 _ _ Hr) as (g & ? & ? & ->).
      exists g. by rewrite elem_of_cons; auto.
  - intros g [->|Hg]%elem_of_cons Hd; [apply copy_at_holds; lia|].
    assert (fg_index f <> fg_index g) as Hne
      by (intros Heq; apply Hnew; rewrite Heq; by apply list_elem_of_fmap_2).
    apply copy_at_other; [lia| |].
    + destruct (Hd f) as [?|?]; [by apply elem_of_cons; left|done|..]; lia.
    + apply as_holds0; [done|]. intros x Hx. apply Hd. by apply elem_of_cons; right.
Qed.

(** Whatever else is inserted changes nothing. *)
Lemma insert_taken fs s f :
  assembled fs s -> fragment_ok f -> fg_index f ∈ fg_index <$> fs ->
  exists r, reassembly_insert f s = Some (s, r) /\ (r = Ok () \/ r = Err InvalidFragment)
    /\ (f ∈ fs -> holds (fg_offset f) (fg_payload f) (ra_bytes s) -> r = Ok ()).
Proof.
  intros Hs Hf (g & Heq & Hg)%list_elem_of_fmap. pose proof Hf as (Hc & Ht & Hi & Hp & Hb). destruct Hs.
  unfold reassembly_insert. rewrite Heq, (as_taken0 _ Hg). case_bool_decide as Hr; cbn.
  - unfold slice_get. rewrite decide_True by lia. cbn. eexists. split; [done|].
    split; [case_bool_decide; auto|]. intros _ Hh. unfold holds, slice_get in Hh. case_decide; [|done].
    simplify_eq. by rewrite Hh, bool_decide_eq_true_2.
  - eexists. split; [done|]. split; [auto|]. intros Hfs _.
    pose proof (as_taken0 _ Hfs) as Ht'. rewrite Heq, (as_taken0 _ Hg) in Ht'. by simplify_eq.
Qed.

(** ** The end of a reassembly *)

Lemma assembled_bound fs s : assembled fs s -> len fs <= count.
Proof.
  intros []. enough (length (fg_index <$> fs) <= length (N.of_nat <$> seq 0 (N.to_nat count)))%nat as Hl
    by (rewrite !length_fmap, length_seq in Hl; lia).
  apply submseteq_length, NoDup_submseteq; [done|]. intros i (f & -> & Hf)%list_elem_of_fmap.
  rewrite Forall_forall in as_fragments0. destruct (as_fragments0 _ Hf) as (_ & _ & Hi & _).
  apply list_elem_of_fmap. exists (N.to_nat (fg_index f)). rewrite N2Nat.id, elem_of_seq. lia.
Qed.

(** With every index present, the slots list the ranges. *)
Lemma slots_full fs s :
  assembled fs s -> len fs = count ->
  exists gs, gs ≡ₚ fs /\ mapM id (ra_slots s) = Some (range_of <$> gs).
Proof.
  intros Hs Hl. pose proof Hs as [].
  assert (seq 0 (N.to_nat count) ≡ₚ map (N.to_nat ∘ fg_index) fs) as Hp.
  { symmetry. apply submseteq_length_Permutation.
    - apply NoDup_submseteq.
      + rewrite list_fmap_compose. apply NoDup_fmap_2; [apply _|done].
      + intros i (f & -> & Hf)%list_elem_of_fmap. rewrite Forall_forall in as_fragments0.
        destruct (as_fragments0 _ Hf) as (_ & _ & Hi & _). apply elem_of_seq. cbn. lia.
    - rewrite length_map, length_seq. lia. }
  apply Permutation_map_inv in Hp as (gs & Hgs & Hp). exists gs. split; [done|].
  assert (ra_slots s = Some <$> (range_of <$> gs)) as ->.
  2:{ clear. induction gs as [|g gs IH]; [done|]. cbn. cbn in IH. by rewrite IH. }
  assert (length gs = N.to_nat count) as Hlen by (apply Permutation_length in Hp; lia).
  apply list_eq. intros i. rewrite !list_lookup_fmap.
  destruct (gs !! i) as [g|] eqn:Hg.
  - assert ((N.to_nat ∘ fg_index) g = i) as <-.
    { apply (f_equal (.!! i)) in Hgs. change (map ?f gs) with (f <$> gs) in Hgs.
      rewrite list_lookup_fmap, Hg in Hgs. cbn in Hgs. apply lookup_seq in Hgs. cbn. lia. }
    cbn. apply as_taken0. rewrite Hp. by eapply list_elem_of_lookup_2.
  - cbn. apply lookup_ge_None in Hg. apply lookup_ge_None. lia.
Qed.

Lemma finish_ranges fs s :
  assembled fs s -> len fs = count ->
  exists gs, gs ≡ₚ fs /\ StronglySorted range_le (range_of <$> gs)
    /\ finish s = (cursor ← contiguous 0 (range_of <$> gs);
                   reject negb (cursor =? total) with InvalidFragment;
                   Ok (ra_bytes s)).
Proof.
  intros Hs Hl. destruct (slots_full _ _ Hs Hl) as (gs & Hp & Hm).
  destruct (Permutation_map_inv range_of (l1 := merge_sort range_le (range_of <$> gs)) gs)
    as (hs & Hh & Hp'); [by rewrite merge_sort_Permutation|].
  exists hs. change (map ?f hs) with (f <$> hs) in Hh. rewrite <- Hh.
  split; [by rewrite <- Hp, Hp'|]. split.
  { apply (@StronglySorted_merge_sort _ _ _).
    - intros ? ? ?. unfold range_le. lia.
    - intros ? ?. unfold range_le. lia. }
  unfold finish. rewrite Hm. cbn [ok_or mbind result_bind]. by rewrite (as_total _ _ _ _ _ _ Hs).
Qed.

Lemma finish_sound fs s p :
  assembled fs s -> len fs = count -> finish s = Ok p ->
  exists gs, gs ≡ₚ fs /\ chained 0 gs /\ p = payloads gs /\ len p = total.
Proof.
  intros Hs Hl Hf. destruct (finish_ranges _ _ Hs Hl) as (gs & Hp & _ & Heq). rewrite Heq in Hf.
  destruct (contiguous _ _) as [cursor|] eqn:Hcur; [|done]. cbn in Hf. inv_ok. guards.
  apply contiguous_chained in Hcur as [Hc Ht]. exists gs. split; [done|]. split; [done|].
  destruct Hs. split; [|lia]. rewrite <- (chained_concat gs 0 (ra_bytes s)); [by rewrite drop_0|done| |lia].
  apply Forall_forall. intros f Hf. apply as_holds0; [by rewrite <- Hp|]. intros g Hg Hne.
  eapply (chained_disjoint gs); [done|done|by rewrite Hp|by intros ->].
Qed.

Lemma finish_complete fs s gs :
  assembled fs s -> len fs = count -> fs ≡ₚ gs -> chained 0 gs -> len (payloads gs) = total ->
  total <= usize_max -> finish s = Ok (payloads gs).
Proof.
  intros Hs Hl Hp Hc Ht Hmax. destruct (finish_ranges _ _ Hs Hl) as (hs & Hp' & Hsort & Heq).
  assert (Forall (fun f => fg_payload f <> []) gs) as Hne.
  { rewrite <- Hp. eapply Forall_impl; [apply (as_fragments _ _ _ _ _ _ Hs)|]. by intros ? (?&?&?&?&?). }
  assert (range_of <$> hs = range_of <$> gs) as Hr.
  { apply (StronglySorted_unique_strong range_le); [|done| |by rewrite Hp', Hp].
    - intros r1 r2 (f & -> & Hf)%list_elem_of_fmap (g & -> & Hg)%list_elem_of_fmap H1 H2.
      rewrite Hp', Hp in Hf. unfold range_le in *. cbn in *.
      destruct (decide (f = g)) as [->|Hfg]; [done|].
      rewrite Forall_forall in Hne. pose proof (Hne _ Hf) as Hf0. pose proof (Hne _ Hg) as Hg0.
      destruct (chained_disjoint _ _ _ _ Hc Hf Hg Hfg) as [?|?];
        destruct (fg_payload f), (fg_payload g); cbn in *; (done || lia).
    - clear -Hc. revert Hc. generalize 0. induction gs as [|g gs IH]; intros n Hc; [constructor|].
      destruct Hc as [<- Hc]. cbn. constructor; [by eapply IH|]. apply Forall_fmap, Forall_forall.
      intros f Hf. pose proof (chained_from _ _ _ Hc Hf). unfold range_le. cbn. lia. }
  rewrite Heq, Hr, (chained_contiguous gs 0) by (done || lia). cbn [mbind result_bind].
  rewrite N.add_0_l, Ht, N.eqb_refl. cbn. f_equal. destruct Hs.
  rewrite <- (chained_concat gs 0 (ra_bytes s)); [by rewrite drop_0|done| |lia].
  apply Forall_forall. intros f Hf. apply as_holds0; [by rewrite Hp|]. intros g Hg Hne'.
  eapply (chained_disjoint gs); [done|done|by rewrite <- Hp|by intros ->].
Qed.
End assembled.
