(* ===== verification/FragmentProps.v ===== *)
(** * Fragmentation: soundness of reassembly and the round trip *)

From S2P Require Export FragmentFacts.
Local Open Scope N_scope.

(** ** Histories of a reassembler *)

Section history.
Context `{NanaTracking} (config : BindingConfig).

Record push_event := mkPush {
  pu_generation : N;
  pu_sequence : N;
  pu_bytes : list byte;
  pu_outcome : result BindingError ReassemblyOutcome;
}.

(** The calls of [push] since the reassembler was made or cleared, latest
    first. *)
Inductive reassembler_reaches : list push_event -> Reassembler -> Prop :=
| reaches_new : reassembler_reaches [] reassembler_new
| reaches_clear h r : reassembler_reaches h r -> reassembler_reaches [] (reassembler_clear r)
| reaches_push h r r' generation sequence bytes outcome :
    reassembler_reaches h r ->
    reassembler_push generation sequence bytes config r = Some (r', outcome) ->
    reassembler_reaches (mkPush generation sequence bytes outcome :: h) r'.

(** Fragment [f] of message [generation], [sequence] arrived in [h]. *)
Definition arrived (generation sequence : N) (h : list push_event) (f : Fragment) : Prop :=
  exists e, e ∈ h /\ pu_generation e = generation /\ pu_sequence e = sequence
            /\ fragment_decode (pu_bytes e) config = Ok f.

Definition newer_than (generation sequence : N) (l : option (N * N)) : Prop :=
  match l with Some l => not_newer generation sequence l = false | None => True end.

(** The message of [e] was completed by [e]. *)
Definition completed (e : push_event) : Prop :=
  exists p b, pu_outcome e = Ok (ReComplete (pu_generation e) (pu_sequence e) p b).

Definition state_ok (h : list push_event) (last : option (N * N)) (s : Reassembly) : Prop :=
  exists fs, assembled (ra_generation s) (ra_sequence s) (ra_fragment_count s) (ra_total_len s) fs s
    /\ Forall (arrived (ra_generation s) (ra_sequence s) h) fs
    /\ ra_fragment_count s <= max_fragments config /\ ra_fragment_count s <= u16_max
    /\ ra_total_len s <= max_reassembly_bytes config /\ ra_total_len s <= u32_max
    /\ newer_than (ra_generation s) (ra_sequence s) last /\ 0 < ra_total_len s.

Definition reassembler_ok (h : list push_event) (r : Reassembler) : Prop :=
  (forall s, rs_state r = Some s -> state_ok h (last_completed r) s)
  /\ (forall e, e ∈ h -> completed e ->
      exists l, last_completed r = Some l /\ not_newer (pu_generation e) (pu_sequence e) l = true).

(** What [push] may answer. *)
Definition outcome_ok (h : list push_event) (generation sequence : N)
    (outcome : result BindingError ReassemblyOutcome) : Prop :=
  match outcome with
  | Ok (ReComplete g s payload _) =>
    g = generation /\ s = sequence
    /\ (exists fs, chained 0 fs /\ payload = payloads fs /\ Forall (arrived g s h) fs
          /\ Forall (fun f => fg_total_len f = len payload /\ fg_count f = len fs) fs)
    /\ 0 < len payload <= max_reassembly_bytes config
  | Ok _ => True
  | Err e => e = InvalidFragment
  end.

Lemma fragment_decode_ok b f :
  fragment_decode b config = Ok f ->
  fragment_ok (fg_count f) (fg_total_len f) f /\ 0 < fg_count f
  /\ fg_count f <= max_fragments config /\ fg_count f <= u16_max
  /\ fg_total_len f <= max_reassembly_bytes config /\ fg_total_len f <= u32_max.
Proof.
  unfold fragment_decode. intros H0. inv_ok. guards. unfold fragment_ok, FRAGMENT_HEADER_LEN in *.
  cbn [fg_index fg_count fg_offset fg_total_len fg_payload].
  pose proof (from_be_bytes_bound (field 8 10 b)) as Hc.
  pose proof (from_be_bytes_bound (field 14 18 b)) as Ht.
  rewrite field_length in Hc, Ht by lia.
  change (256 ^ N.of_nat (10 - 8)) with 65536 in Hc. change (256 ^ N.of_nat (18 - 14)) with 4294967296 in Ht.
  assert (drop 18 b <> []) as Hne.
  { intros Hn%(f_equal length). rewrite length_drop in Hn. cbn in Hn. lia. }
  unfold checked_add in *. case_decide; [|done]. guards. split_and!; try done; lia.
Qed.

Lemma reject_err {E A} (c : bool) (e x : E) (m : result E A) :
  (reject c with e; m) = Err x -> x = e \/ m = Err x.
Proof. destruct c; [intros [= ->]; by left|by right]. Qed.

Lemma fragment_decode_err b e : fragment_decode b config = Err e -> e = InvalidFragment.
Proof. by intros [?|[?|?]%reject_err]%reject_err. Qed.

(** ** One call *)

Lemma state_ok_weaken h e last s : state_ok h last s -> state_ok (e :: h) last s.
Proof.
  intros (fs & Hs & Hf & Hrest). exists fs. split; [done|]. split; [|done].
  eapply Forall_impl; [done|]. intros f (x & Hx & Hrest'). exists x.
  split; [by apply elem_of_cons; right|done].
Qed.

Lemma state_insert h f s last :
  state_ok h last s -> arrived (ra_generation s) (ra_sequence s) h f ->
  fg_count f = ra_fragment_count s -> fg_total_len f = ra_total_len s ->
  exists s' r, reassembly_insert f s = Some (s', r) /\ (r = Ok () \/ r = Err InvalidFragment)
    /\ state_ok h last s'
    /\ ra_generation s' = ra_generation s /\ ra_sequence s' = ra_sequence s.
Proof.
  intros Hst Hf Hc Ht. pose proof Hst as (fs & Has & Hfs & Hb & Hu & Hrest).
  pose proof Hf as (x & _ & _ & _ & Hd). apply fragment_decode_ok in Hd as (Hok & _).
  rewrite Hc, Ht in Hok. destruct (decide (fg_index f ∈ fg_index <$> fs)) as [Hin|Hin].
  - destruct (insert_taken _ _ _ _ _ _ _ Has Hok Hin) as (r & -> & Hr & _). eauto 7.
  - pose proof (assembled_bound _ _ _ _ _ _ Has) as Hl.
    destruct (insert_new _ _ _ _ _ _ _ Has Hok Hin) as (s' & -> & Has'); [lia|].
    eexists _, _. split; [done|]. split; [by left|]. pose proof Has' as [Hg Hq Hn Hn' _ _ _ _ _ _ _ _].
    split; [|done]. exists (f :: fs). rewrite Hg, Hq, Hn, Hn'. split; [done|]. split; [by constructor|]. auto.
Qed.

Lemma state_finish h last s :
  state_ok h last s -> reassembly_complete s = true ->
  outcome_ok h (ra_generation s) (ra_sequence s)
    (payload ← finish s; Ok (ReComplete (ra_generation s) (ra_sequence s) payload false)).
Proof.
  intros (fs & Has & Hfs & Hb & Hu & Ht & Ht' & _ & Hpos) Hc. unfold reassembly_complete in Hc. guards.
  assert (len fs = ra_fragment_count s) as Hl by (rewrite <- Hc; symmetry; apply Has).
  destruct (finish s) as [p|e] eqn:Hp; cbn.
  - destruct (finish_sound _ _ _ _ _ _ _ Has Hl Hp) as (gs & Hperm & Hch & -> & Hlen).
    split_and!; [done..| |lia|lia]. exists gs. split_and!; [done|done|by rewrite Hperm|].
    assert (len gs = ra_fragment_count s) as -> by (rewrite <- Hl; by rewrite Hperm).
    rewrite Hlen, Hperm.
    eapply Forall_impl; [apply (as_fragments _ _ _ _ _ _ Has)|]. by intros g (?&?&?).
  - destruct (finish_ranges _ _ _ _ _ _ Has Hl) as (gs & _ & _ & Heq). rewrite Heq in Hp.
    clear -Hp. destruct (contiguous 0 _) as [c|e'] eqn:Hc.
    + cbn in Hp. apply reject_err in Hp as [?|?]; done.
    + cbn in Hp. simplify_eq. revert Hc. generalize 0. induction (range_of <$> gs) as [|[o l] rs IH]; cbn;
        intros n Hc; [done|]. apply reject_err in Hc as [?|Hc]; [done|].
      unfold checked_add in Hc. case_decide; cbn in Hc; [by eapply IH|by simplify_eq].
Qed.

Lemma outcome_replaced h g q (r : result BindingError (list byte)) x y b b' :
  outcome_ok h g q (payload ← r; Ok (ReComplete x y payload b)) ->
  outcome_ok h g q (payload ← r; Ok (ReComplete x y payload b')).
Proof. by destruct r. Qed.

(** The message of the state meets fragment [f], which arrived. *)
Lemma push_state_ok h f rep s last :
  state_ok h last s -> arrived (ra_generation s) (ra_sequence s) h f ->
  exists r' out, push_state f rep s last = Some (r', out)
    /\ outcome_ok h (ra_generation s) (ra_sequence s) out
    /\ (forall s', rs_state r' = Some s' -> state_ok h (last_completed r') s')
    /\ (last_completed r' = Some (ra_generation s, ra_sequence s)
        \/ last_completed r' = last /\ forall g q p b, out <> Ok (ReComplete g q p b)).
Proof.
  intros Hst Hf. unfold push_state. destruct (negb _ || negb _) eqn:Hm.
  { eexists _, _. split; [done|]. split_and!; cbn; [done|by intros; simplify_eq|by right]. }
  guards. destruct (state_insert _ _ _ _ Hst Hf) as (s' & r & -> & Hr & Hst' & Hg & Hq); [done..|].
  cbn [mbind option_bind]. destruct Hr as [-> | ->].
  2:{ eexists _, _. split; [done|]. split_and!; cbn; [done|by intros; simplify_eq|by right]. }
  destruct (reassembly_complete s') eqn:Hcmp; cbn [negb].
  - eexists _, _. split; [done|]. rewrite <- Hg, <- Hq.
    split_and!; cbn; [by eapply outcome_replaced, state_finish|done|by left].
  - eexists _, _. split; [done|]. split_and!; cbn; [done|by intros; simplify_eq|by right].
Qed.

Lemma state_new h g q f b last :
  fragment_decode b config = Ok f -> arrived g q h f -> newer_than g q last ->
  exists s, reassembly_new g q f = Some (Ok s) /\ state_ok h last s
    /\ assembled g q (fg_count f) (fg_total_len f) [f] s.
Proof.
  intros Hd Ha Hn. apply fragment_decode_ok in Hd as (Hok & Hp & Hc & Hu & Ht & Hu').
  unfold reassembly_new.
  destruct (insert_new _ _ _ _ [] _ f (assembled_new g q (fg_count f) (fg_total_len f)) Hok)
    as (s & -> & Has); [by apply not_elem_of_nil|cbn; lia|].
  cbn. exists s. split; [done|]. split; [|done]. pose proof Has as [Hg Hq Hn' Ht' _ _ _ _ _ _ _ _].
  exists [f]. rewrite Hg, Hq, Hn', Ht'. split; [done|]. split; [by repeat constructor|].
  destruct Hok as (_ & _ & _ & Hne & Hlen). destruct (fg_payload f); [done|]. cbn [length] in Hlen.
  split_and!; try done; lia.
Qed.

Lemma not_newer_spec g q l : not_newer g q l = true <-> g < l.1 \/ g = l.1 /\ q <= l.2.
Proof.
  unfold not_newer.
  by rewrite orb_true_iff, andb_true_iff, N.ltb_lt, N.eqb_eq, N.leb_le.
Qed.
Lemma newer_not_newer g q l l' :
  not_newer g q l = false -> not_newer l'.1 l'.2 l = true -> not_newer l'.1 l'.2 (g, q) = true.
Proof.
  rewrite <- not_true_iff_false, !not_newer_spec. cbn. intros Hn Hl.
  destruct (decide (l'.1 < g)); [lia|]. right. split; [lia|]. destruct (decide (g = l.1)); lia.
Qed.

Lemma arrived_now h g q b f out :
  fragment_decode b config = Ok f -> arrived g q (mkPush g q b out :: h) f.
Proof. intros. eexists. split; [by apply elem_of_cons; left|]. done. Qed.

(** The outcome of an event says nothing of what arrived. *)
Lemma arrived_outcome h g q b out out' g' q' f :
  arrived g' q' (mkPush g q b out :: h) f -> arrived g' q' (mkPush g q b out' :: h) f.
Proof.
  intros (e & [->|He]%elem_of_cons & ?); [|exists e; by rewrite elem_of_cons; auto].
  eexists. split; [by apply elem_of_cons; left|done].
Qed.
Lemma state_ok_outcome h g q b out out' last s :
  state_ok (mkPush g q b out :: h) last s -> state_ok (mkPush g q b out' :: h) last s.
Proof.
  intros (fs & Hs & Hf & Hrest). exists fs. split; [done|]. split; [|done].
  eapply Forall_impl; [done|]. intros; by eapply arrived_outcome.
Qed.
Lemma outcome_ok_outcome h g q b out out' g' q' r :
  outcome_ok (mkPush g q b out :: h) g' q' r -> outcome_ok (mkPush g q b out' :: h) g' q' r.
Proof.
  destruct r as [[| |]|]; cbn; [done| |done..].
  intros (-> & -> & (fs & Hc & Hp & Hf & Ht) & Hl). split_and!; [done..| |lia|lia]. exists fs.
  split_and!; [done..| |done]. eapply Forall_impl; [exact Hf|]. intros; by eapply arrived_outcome.
Qed.

(** What one call owes its caller and its history. *)
Definition push_spec (h : list push_event) (r : Reassembler) (g q : N) (b : list byte)
    (res : option (Reassembler * result BindingError ReassemblyOutcome)) : Prop :=
  exists r' out, res = Some (r', out)
    /\ outcome_ok (mkPush g q b out :: h) g q out
    /\ reassembler_ok (mkPush g q b out :: h) r'
    /\ (forall p x, out = Ok (ReComplete g q p x) -> newer_than g q (last_completed r)).

(** A call that leaves the reassembler alone. *)
Lemma push_unchanged h r g q b out :
  reassembler_ok h r -> outcome_ok [] g q out -> (forall g q p x, out <> Ok (ReComplete g q p x)) ->
  push_spec h r g q b (Some (r, out)).
Proof.
  intros [Hst Hlast] Ho Hout. eexists _, _. split; [done|]. split_and!.
  - destruct out as [[| |]|]; try done. by edestruct Hout.
  - split; [intros; by apply state_ok_weaken, Hst|].
    intros e [->|He]%elem_of_cons Hc; [|by apply Hlast]. destruct Hc as (p & x & Hc). cbn in Hc.
    by apply Hout in Hc.
  - intros p x ->. by edestruct Hout.
Qed.

(** A call that reaches the state of its message. *)
Lemma push_reaches_state h r b f rep s out0 :
  reassembler_ok h r -> fragment_decode b config = Ok f ->
  state_ok (mkPush (ra_generation s) (ra_sequence s) b out0 :: h) (last_completed r) s ->
  newer_than (ra_generation s) (ra_sequence s) (last_completed r) ->
  push_spec h r (ra_generation s) (ra_sequence s) b (push_state f rep s (last_completed r)).
Proof.
  intros [_ Hlast] Hd Hs Hnew.
  destruct (push_state_ok _ f rep s _ Hs) as (r' & out & -> & Ho & Hs' & Hl); [by apply arrived_now|].
  eexists _, _. split; [done|]. split_and!; [by eapply outcome_ok_outcome| |done]. split.
  - intros s' Hs''. by eapply state_ok_outcome, Hs'.
  - intros e [->|He]%elem_of_cons Hc; cbn.
    + destruct Hc as (p & x & Hc). cbn in Hc. destruct Hl as [Hl|[_ Hl]]; [|by apply Hl in Hc].
      rewrite Hl. eexists. split; [done|]. apply not_newer_spec. cbn. lia.
    + destruct (Hlast _ He Hc) as (l & Hl' & Hle). destruct Hl as [Hl|[Hl _]]; rewrite Hl; [|eauto].
      eexists. split; [done|]. rewrite Hl' in Hnew. by eapply (newer_not_newer _ _ l (_, _)).
Qed.

(** One call from a reachable state: it returns, answers correctly and keeps
    the invariant. *)
Lemma push_ok h r g q b :
  reassembler_ok h r -> push_spec h r g q b (reassembler_push g q b config r).
Proof.
  intros Hr. unfold reassembler_push.
  destruct (match last_completed r with Some _ => _ | None => _ end) eqn:Hn.
  { by apply push_unchanged. }
  assert (newer_than g q (last_completed r)) as Hnew by (by destruct (last_completed r)).
  destruct (fragment_decode b config) as [f|e] eqn:Hd.
  2:{ apply fragment_decode_err in Hd as ->. by apply push_unchanged. }
  assert (forall rep, push_spec h r g q b
            (n ← reassembly_new g q f;
             match n with
             | Err e => Some (r, Err e)
             | Ok s => push_state f rep s (last_completed r)
             end)) as Hfresh.
  { intros rep. destruct (state_new (mkPush g q b (Ok IgnoredOld) :: h) g q f b (last_completed r) Hd)
      as (s & -> & Hs & [<- <- _ _ _ _ _ _ _ _ _ _]); [by apply arrived_now|done|].
    by eapply push_reaches_state. }
  destruct (rs_state r) as [s|] eqn:Hs; [|apply Hfresh].
  destruct (g <? ra_generation s) eqn:Hg; [by apply push_unchanged|].
  destruct ((g =? ra_generation s) && (q <? ra_sequence s)) eqn:Hq; [by apply push_unchanged|].
  destruct ((g =? ra_generation s) && (q =? ra_sequence s)) eqn:He; [|apply Hfresh].
  apply andb_true_iff in He as [->%N.eqb_eq ->%N.eqb_eq].
  eapply (push_reaches_state _ _ _ _ _ _ (Ok IgnoredOld)); [done..| |done].
  by apply state_ok_weaken, Hr.
Qed.

Lemma reaches_ok h r : reassembler_reaches h r -> reassembler_ok h r.
Proof.
  induction 1 as [| |h r r' g q b out Hr IH Hp].
  1, 2: split; [done|by intros ? ?%not_elem_of_nil].
  destruct (push_ok h r g q b IH) as (r1 & out1 & Heq & _ & Hok & _). rewrite Heq in Hp. by simplify_eq.
Qed.
End history.

(** C24: Reassembly is sound for any input.  However bytes arrive, in any order
    and for any messages, [push] never panics.  What it completes is for the
    message it was called for, not empty and within the configured size, and is the
    concatenation without gap or overlap of fragments of that very message
    that arrived since the reassembler was made or cleared, as many as they
    announced; and no message at or before one completed is completed again. *)
Theorem reassembly_sound `{NanaTracking} config h r g q b :
  reassembler_reaches config h r ->
  exists r' out, reassembler_push g q b config r = Some (r', out)
    /\ forall g' q' p x, out = Ok (ReComplete g' q' p x) ->
       g' = g /\ q' = q /\ 0 < len p <= max_reassembly_bytes config
       /\ (exists fs, chained 0 fs /\ p = payloads fs
             /\ Forall (arrived config g q (mkPush g q b out :: h)) fs
             /\ Forall (fun f => fg_total_len f = len p /\ fg_count f = len fs) fs)
       /\ forall e, e ∈ h -> completed e ->
            not_newer g q (pu_generation e, pu_sequence e) = false.
Proof.
  intros Hr%reaches_ok. destruct (push_ok config h r g q b Hr) as (r' & out & -> & Ho & _ & Hnew).
  eexists _, _. split; [done|]. intros g' q' p x ->. destruct Ho as (-> & -> & Hfs & Hl & Hmax).
  split_and!; [done..|]. intros e He Hc. destruct Hr as [_ Hlast].
  destruct (Hlast _ He Hc) as (l & Hl' & Hle). specialize (Hnew _ _ eq_refl). rewrite Hl' in Hnew. cbn in Hnew.
  destruct (not_newer g q (pu_generation e, pu_sequence e)) eqn:Hx; [|done]. exfalso.
  apply not_true_iff_false in Hnew. apply Hnew. rewrite not_newer_spec in *. cbn in *. lia.
Qed.
