(* ===== verification/FragmentRoundtrip.v ===== *)
(** * Fragmentation: a result that is sent is put together again *)

From S2P Require Export FragmentProps.
Local Open Scope N_scope.

(** ** Cutting *)

(** The fragments of the chunks [l], the first with index [index]. *)
Fixpoint frags (count chunk_bytes total index : N) (l : list (list byte)) : list Fragment :=
  match l with
  | [] => []
  | c :: l => mkFragment index count (index * chunk_bytes) total c
              :: frags count chunk_bytes total (index + 1) l
  end.

Section cutting.
Context (count n total : N) (Hn : 0 < n).

Lemma frags_length index l : length (frags count n total index l) = length l.
Proof. revert index. induction l; intros; cbn; [done|]. by rewrite IHl. Qed.

Lemma frags_indices index l f :
  f ∈ frags count n total index l -> index <= fg_index f < index + len l.
Proof.
  revert index. induction l as [|c l IH]; intros index; cbn; [by intros ?%not_elem_of_nil|].
  intros [->|Hf]%elem_of_cons; [cbn; lia|]. specialize (IH _ Hf). lia.
Qed.

Lemma frags_shape index l f :
  f ∈ frags count n total index l ->
  f = mkFragment (fg_index f) count (fg_index f * n) total (fg_payload f).
Proof.
  revert index. induction l as [|c l IH]; intros index; cbn; [by intros ?%not_elem_of_nil|].
  intros [->|Hf]%elem_of_cons; [done|by eapply IH].
Qed.

Lemma frags_nodup index l : NoDup (fg_index <$> frags count n total index l).
Proof.
  revert index. induction l as [|c l IH]; intros index; cbn; constructor; [|apply IH].
  intros (f & Hf & Hin)%list_elem_of_fmap. apply frags_indices in Hin. lia.
Qed.

Lemma chunks_fuel_length fuel (l : list byte) :
  (length l <= fuel)%nat -> len (chunks_fuel fuel (N.to_nat n) l) = div_ceil (len l) n.
Proof.
  revert l. induction fuel as [|fuel IH]; intros [|x l] Hl; cbn [chunks_fuel length] in *;
    unfold div_ceil in *.
  1, 3: rewrite N.div_small by lia; done.
  1: lia.
  rewrite Nat2N.inj_succ, IH by (rewrite length_drop; cbn; lia). rewrite length_drop. cbn [length].
  destruct (decide (S (length l) <= N.to_nat n)%nat) as [Hs|Hs].
  - replace (S (length l) - N.to_nat n)%nat with 0%nat by lia. rewrite (N.div_small (N.of_nat 0 + _ - 1)) by lia.
    apply (N.div_unique _ _ _ (N.of_nat (length l))); lia.
  - rewrite <- N.add_1_r, <- N.div_add by lia. f_equal. lia.
Qed.

(** The fragments of a payload follow each other and carry all of it. *)
Lemma frags_chained fuel l index :
  (length l <= fuel)%nat ->
  let fs := frags count n total index (chunks_fuel fuel (N.to_nat n) l) in
  chained (index * n) fs /\ payloads fs = l.
Proof.
  revert l index. induction fuel as [|fuel IH]; intros [|x l] index Hl; cbn -[take drop] in *; [done|lia|done|].
  destruct (IH (drop (N.to_nat n) (x :: l)) (index + 1)) as [Hc Hp]; [rewrite length_drop; cbn; lia|].
  split; [split; [done|]|by rewrite Hp, take_drop].
  destruct (drop (N.to_nat n) (x :: l)) as [|y d] eqn:Hd; [by destruct fuel|].
  rewrite length_take. apply (f_equal length) in Hd. rewrite length_drop in Hd. cbn in Hd.
  replace (index * n + _) with ((index + 1) * n) by (cbn; lia). done.
Qed.

Lemma frags_ok fuel l index :
  (length l <= fuel)%nat -> index * n + len l <= total ->
  index + len (chunks_fuel fuel (N.to_nat n) l) <= count ->
  Forall (fragment_ok count total) (frags count n total index (chunks_fuel fuel (N.to_nat n) l)).
Proof.
  revert l index. induction fuel as [|fuel IH]; intros [|x l] index Hl Ht Hc;
    cbn -[take drop] in *; [constructor| |constructor|].
  1: lia.
  constructor.
  - unfold fragment_ok. cbn -[take]. split_and!; [done..|lia| |].
    + destruct (N.to_nat n) eqn:?; [lia|done].
    + rewrite length_take. cbn. lia.
  - destruct (decide (S (length l) <= N.to_nat n)%nat) as [Hs|Hs].
    + rewrite (drop_ge (x :: l)) by (cbn; lia). by destruct fuel; constructor.
    + apply IH; [rewrite length_drop; cbn; lia|rewrite length_drop; cbn; lia|lia].
Qed.
End cutting.

(** The message is newer than all the reassembler holds or completed. *)
Definition fresh_for `{NanaTracking} (g q : N) (r : Reassembler) : Prop :=
  newer_than g q (last_completed r)
  /\ match rs_state r with
     | Some s => not_newer g q (ra_generation s, ra_sequence s) = false
     | None => True
     end.

(** What the next wire of the message is answered. *)
Definition expected `{NanaTracking} (g q : N) (wires : list (list byte)) (payload : list byte)
    (r : Reassembler) (arrivals : list (list byte)) (w : list byte) : ReassemblyOutcome :=
  if decide (wires ⊆ arrivals) then IgnoredOld
  else
    let replaced := bool_decide (arrivals = []) && bool_decide (is_Some (rs_state r)) in
    if decide (wires ⊆ arrivals ++ [w]) then ReComplete g q payload replaced
    else RePending replaced.

(** ** The wires of the fragments *)

Section wires.
Context `{NanaTracking} (config : BindingConfig).

Lemma fragment_wire_decode i count n total chunk wire :
  fragment_wire i count n total chunk = Ok wire ->
  fragment_ok count total (mkFragment i count (i * n) total chunk) ->
  count <= max_fragments config -> total <= max_reassembly_bytes config -> total <= usize_max ->
  fragment_decode wire config = Ok (mkFragment i count (i * n) total chunk).
Proof.
  unfold fragment_wire. intros H0 (_ & _ & Hi & Hp & Hb) Hc Ht Hm. inv_ok. guards.
  cbn [fg_index fg_payload fg_offset] in *.
  match goal with |- fragment_decode ?b _ = _ => set (bs := b) end. unfold fragment_decode.
  assert (len bs = 18 + len chunk) as Hl.
  { unfold bs. cbn [length]. lia. }
  assert (field 0 4 bs = FRAGMENT_MAGIC) as -> by reflexivity.
  assert (field 4 5 bs = [byte_of_n FRAGMENT_VERSION]) as -> by reflexivity.
  assert (field 5 6 bs = [byte_of_n 0]) as -> by reflexivity.
  assert (field 6 8 bs = be_bytes 2 i) as -> by reflexivity.
  assert (field 8 10 bs = be_bytes 2 count) as -> by reflexivity.
  assert (field 10 14 bs = be_bytes 4 (i * n)) as -> by reflexivity.
  assert (field 14 18 bs = be_bytes 4 total) as -> by reflexivity.
  assert (drop 18 bs = chunk) as -> by reflexivity.
  clearbody bs. assert (0 < len chunk) by (destruct chunk; [done|cbn; lia]).
  rewrite bool_decide_eq_true_2 by done. cbn [negb].
  change (from_be_bytes [byte_of_n FRAGMENT_VERSION]) with 1.
  change (from_be_bytes [byte_of_n 0]) with 0.
  rewrite !from_be_bytes_small by (cbn; lia). unfold FRAGMENT_HEADER_LEN, FRAGMENT_VERSION, checked_add.
  rewrite decide_True by lia. rewrite !reject_pass; [done| |]; by tests.
Qed.

(** ** Putting together *)

(** The calls of [push] for the arriving [wires] of one message. *)
Fixpoint push_all (g q : N) (wires : list (list byte)) (r : Reassembler) : option Reassembler :=
  match wires with
  | [] => Some r
  | b :: wires => '(r, _) ← reassembler_push g q b config r; push_all g q wires r
  end.

Lemma push_all_app g q l1 l2 r :
  push_all g q (l1 ++ l2) r = (r ← push_all g q l1 r; push_all g q l2 r).
Proof.
  revert r. induction l1 as [|b l1 IH]; intros r; [done|]. cbn.
  destruct (reassembler_push g q b config r) as [[r1 o]|]; cbn; [apply IH|done].
Qed.

Section message.
Context (g q count total : N) (wires : list (list byte)) (fs : list Fragment).
Abbreviation fresh_for := (fresh_for g q).
Abbreviation expected := (expected g q wires (payloads fs)).
Hypothesis Hwires : Forall2 (fun w f => fragment_decode w config = Ok f) wires fs.
Hypothesis Hsome : wires <> [].
Hypothesis Hok : Forall (fragment_ok count total) fs.
Hypothesis Hindices : NoDup (fg_index <$> fs).
Hypothesis Hlen : len fs = count.
Hypothesis Hchain : chained 0 fs.
Hypothesis Htotal : len (payloads fs) = total.
Hypothesis Hcount_max : count <= u16_max.
Hypothesis Htotal_max : total <= usize_max.

Lemma same_index f f' : f ∈ fs -> f' ∈ fs -> fg_index f = fg_index f' -> f = f'.
Proof.
  intros Hf Hf' He. apply list_elem_of_lookup in Hf as [i Hi], Hf' as [j Hj].
  assert (i = j) as ->; [|by simplify_eq]. eapply (NoDup_lookup (fg_index <$> fs)); [done|..];
    rewrite list_lookup_fmap; [by rewrite Hi|by rewrite Hj; cbn; rewrite He].
Qed.

Lemma insert_own gs s f :
  assembled g q count total gs s -> gs ⊆ fs -> f ∈ fs ->
  exists s' gs', reassembly_insert f s = Some (s', Ok ()) /\ assembled g q count total gs' s'
    /\ gs' ⊆ fs /\ forall x, x ∈ gs' <-> x = f \/ x ∈ gs.
Proof.
  intros Has Hsub Hf. pose proof Hok as Hok'. rewrite Forall_forall in Hok'.
  destruct (decide (fg_index f ∈ fg_index <$> gs)) as [Hin|Hin].
  - assert (f ∈ gs) as Hfg.
    { apply list_elem_of_fmap in Hin as (f' & He & Hf'). by rewrite (same_index f f' Hf (Hsub _ Hf') He). }
    destruct (insert_taken _ _ _ _ _ _ _ Has (Hok' _ Hf) Hin) as (r & -> & _ & Hr). exists s, gs.
    rewrite Hr; [|done|].
    + split_and!; [done..|]. intros x. split; [by right|by intros [->|?]].
    + apply (as_holds _ _ _ _ _ _ Has); [done|]. intros x Hx Hne.
      eapply chained_disjoint; [done..|by apply Hsub|by intros ->].
  - destruct (insert_new _ _ _ _ _ _ _ Has (Hok' _ Hf) Hin) as (s' & -> & Has').
    { pose proof (assembled_bound _ _ _ _ _ _ Has). lia. }
    exists s', (f :: gs). split_and!; [done..| |]; [|by intros x; rewrite elem_of_cons].
    by intros x [->|Hx]%elem_of_cons; [|apply Hsub].
Qed.

Lemma complete_iff gs s :
  assembled g q count total gs s -> gs ⊆ fs -> reassembly_complete s = true <-> fs ⊆ gs.
Proof.
  intros Has Hsub. unfold reassembly_complete. rewrite N.eqb_eq, (as_received _ _ _ _ _ _ Has),
    (as_count _ _ _ _ _ _ Has), <- Hlen.
  assert (gs ⊆+ fs) as Hsm.
  { apply NoDup_submseteq; [|done]. eapply NoDup_fmap_1, (as_indices _ _ _ _ _ _ Has). }
  split.
  - intros Hl f Hf. by rewrite (submseteq_length_Permutation _ _ Hsm) by lia.
  - intros Hsup. assert (fs ⊆+ gs) as Hsm' by (apply NoDup_submseteq; [by eapply NoDup_fmap_1|done]).
    apply submseteq_length in Hsm, Hsm'. lia.
Qed.

Lemma finish_own gs s :
  assembled g q count total gs s -> gs ⊆ fs -> fs ⊆ gs -> finish s = Ok (payloads fs).
Proof.
  intros Has Hsub Hsup. assert (gs ≡ₚ fs) as Hp.
  { apply NoDup_Permutation; [eapply NoDup_fmap_1, (as_indices _ _ _ _ _ _ Has)|by eapply NoDup_fmap_1|].
    intros x. split; [apply Hsub|apply Hsup]. }
  eapply finish_complete; [done|by rewrite Hp|done..].
Qed.

(** A fragment of the message meets its state. *)
Lemma push_state_own gs s f rep last :
  assembled g q count total gs s -> gs ⊆ fs -> f ∈ fs ->
  exists s' gs', assembled g q count total gs' s' /\ gs' ⊆ fs /\ (forall x, x ∈ gs' <-> x = f \/ x ∈ gs)
    /\ push_state f rep s last =
       if decide (fs ⊆ gs')
       then Some (mkReassembler None (Some (g, q)), Ok (ReComplete g q (payloads fs) rep))
       else Some (mkReassembler (Some s') last, Ok (RePending rep)).
Proof.
  intros Has Hsub Hf. pose proof Hok as Hok'. rewrite Forall_forall in Hok'.
  destruct (Hok' _ Hf) as (Hc & Ht & _).
  destruct (insert_own _ _ _ Has Hsub Hf) as (s' & gs' & Hi & Has' & Hsub' & Hgs').
  exists s', gs'. split_and!; [done..|]. unfold push_state.
  rewrite (as_count _ _ _ _ _ _ Has), (as_total _ _ _ _ _ _ Has), Hc, Ht, !N.eqb_refl, Hi.
  cbn [negb orb mbind option_bind]. pose proof (complete_iff _ _ Has' Hsub') as Hcmp.
  destruct (decide (fs ⊆ gs')) as [Hsup|Hsup].
  - rewrite (proj2 Hcmp Hsup). cbn [negb]. rewrite (finish_own _ _ Has' Hsub' Hsup).
    by rewrite (as_generation _ _ _ _ _ _ Has'), (as_sequence _ _ _ _ _ _ Has').
  - by destruct (reassembly_complete s'); [destruct Hsup; apply Hcmp|].
Qed.

(** Which fragments the wires carry. *)
Lemma wires_decode w : w ∈ wires -> exists f, f ∈ fs /\ fragment_decode w config = Ok f.
Proof.
  intros [i Hi]%list_elem_of_lookup. destruct (Forall2_lookup_l _ _ _ _ _ Hwires Hi) as (f & Hf & Hd).
  exists f. split; [by eapply list_elem_of_lookup_2|done].
Qed.
Lemma wires_injective w w' f :
  w ∈ wires -> w' ∈ wires -> fragment_decode w config = Ok f -> fragment_decode w' config = Ok f -> w = w'.
Proof.
  intros [i Hi]%list_elem_of_lookup [j Hj]%list_elem_of_lookup Hf Hf'.
  destruct (Forall2_lookup_l _ _ _ _ _ Hwires Hi) as (x & Hx & Hdx).
  destruct (Forall2_lookup_l _ _ _ _ _ Hwires Hj) as (y & Hy & Hdy). assert (x = f) as -> by congruence.
  assert (y = f) as -> by congruence.
  assert (i = j) as ->; [|by simplify_eq]. eapply (NoDup_lookup fs); [by eapply NoDup_fmap_1|done|done].
Qed.
Lemma wires_arrived gs arrivals :
  arrivals ⊆ wires -> (forall f, f ∈ gs <-> exists w, w ∈ arrivals /\ fragment_decode w config = Ok f) ->
  fs ⊆ gs <-> wires ⊆ arrivals.
Proof.
  intros Ha Hgs. split.
  - intros Hsup w Hw. destruct (wires_decode _ Hw) as (f & Hf & Hd).
    apply Hsup, Hgs in Hf as (w' & Hw' & Hd'). by rewrite (wires_injective w w' f Hw (Ha _ Hw') Hd Hd').
  - intros Hsup f [i Hf]%list_elem_of_lookup.
    destruct (Forall2_lookup_r _ _ _ _ _ Hwires Hf) as (w & Hw & Hd).
    apply Hgs. exists w. split; [by eapply Hsup, list_elem_of_lookup_2|done].
Qed.

Definition receiving (r0 : Reassembler) (arrivals : list (list byte)) (r : Reassembler) : Prop :=
  if decide (wires ⊆ arrivals) then last_completed r = Some (g, q)
  else if decide (arrivals = []) then r = r0
  else exists s gs, r = mkReassembler (Some s) (last_completed r0)
    /\ assembled g q count total gs s /\ gs ⊆ fs
    /\ forall f, f ∈ gs <-> exists w, w ∈ arrivals /\ fragment_decode w config = Ok f.

(** A wire of the message meets the message's state. *)
Lemma receiving_state r0 arrivals w f gs s rep :
  arrivals ⊆ wires -> w ∈ wires -> ~ wires ⊆ arrivals -> fragment_decode w config = Ok f -> f ∈ fs ->
  assembled g q count total gs s -> gs ⊆ fs ->
  (forall x, x = f \/ x ∈ gs <-> exists v, v ∈ arrivals ++ [w] /\ fragment_decode v config = Ok x) ->
  rep = bool_decide (arrivals = []) && bool_decide (is_Some (rs_state r0)) ->
  exists r', push_state f rep s (last_completed r0) = Some (r', Ok (expected r0 arrivals w))
    /\ receiving r0 (arrivals ++ [w]) r'.
Proof.
  intros Ha Hw Hn Hd Hf Has Hsub Hgs ->.
  destruct (push_state_own _ _ _ (bool_decide (arrivals = []) && bool_decide (is_Some (rs_state r0)))
              (last_completed r0) Has Hsub Hf) as (s' & gs' & Has' & Hsub' & Hgs' & ->).
  assert (fs ⊆ gs' <-> wires ⊆ arrivals ++ [w]) as Hiff.
  { apply wires_arrived; [by intros v [?| ->%list_elem_of_singleton]%elem_of_app; [apply Ha|]|].
    intros x. by rewrite Hgs', Hgs. }
  unfold receiving, expected. rewrite (decide_False (P := wires ⊆ arrivals)) by done.
  destruct (decide (wires ⊆ arrivals ++ [w])) as [Hc|Hc].
  - rewrite decide_True by (by apply Hiff). by eexists.
  - rewrite decide_False by (by rewrite Hiff). eexists. split; [done|].
    rewrite decide_False by (by destruct arrivals). exists s', gs'. split_and!; [done..|].
    intros x. by rewrite Hgs', Hgs.
Qed.

Lemma receiving_step r0 arrivals w r :
  fresh_for r0 -> arrivals ⊆ wires -> w ∈ wires -> receiving r0 arrivals r ->
  exists r', reassembler_push g q w config r = Some (r', Ok (expected r0 arrivals w))
    /\ receiving r0 (arrivals ++ [w]) r'.
Proof.
  intros [Hnew Hst] Ha Hw Hr. destruct (wires_decode _ Hw) as (f & Hf & Hd).
  unfold receiving in Hr. destruct (decide (wires ⊆ arrivals)) as [Hc|Hc].
  { exists r. unfold reassembler_push, expected, receiving. rewrite Hr, decide_True by done.
    rewrite decide_True by (etrans; [done|by apply list_subseteq_app_l]).
    replace (not_newer g q (g, q)) with true; [done|]. symmetry. apply not_newer_spec. cbn. lia. }
  unfold reassembler_push. destruct (decide (arrivals = [])) as [->|Hne].
  - subst r. replace (match last_completed r0 with Some _ => _ | None => _ end) with false
      by (by destruct (last_completed r0)).
    rewrite Hd. assert (fg_count f = count /\ fg_total_len f = total) as [Hcf Htf].
    { rewrite Forall_forall in Hok. by destruct (Hok _ Hf) as (?&?&?). }
    destruct (state_new config [mkPush g q w (Ok IgnoredOld)] g q f w None Hd)
      as (s & -> & _ & Has); [by apply arrived_now|done|]. rewrite Hcf, Htf in Has. cbn [mbind option_bind].
    assert (forall rep, rep = bool_decide (is_Some (rs_state r0)) ->
              exists r', push_state f rep s (last_completed r0) = Some (r', Ok (expected r0 [] w))
                /\ receiving r0 [w] r') as Hpush.
    { intros rep Hrep. apply (receiving_state r0 [] w f [f] s rep); try done.
      - by intros x ->%list_elem_of_singleton.
      - intros x. rewrite list_elem_of_singleton. split.
        + intros [-> | ->]; exists w; (split; [by apply elem_of_cons; left|done]).
        + intros (v & ->%list_elem_of_singleton & Hv). left. congruence. }
    destruct (rs_state r0) as [s0|] eqn:Hs0; [|by apply Hpush].
    apply not_true_iff_false in Hst. rewrite not_newer_spec in Hst. cbn in Hst. tests.
    all: try (by apply Hpush). all: exfalso; lia.
  - destruct Hr as (s & gs & -> & Has & Hsub & Hgs). cbn [last_completed rs_state].
    replace (match last_completed r0 with Some _ => _ | None => _ end) with false
      by (by destruct (last_completed r0)).
    rewrite Hd, (as_generation _ _ _ _ _ _ Has), (as_sequence _ _ _ _ _ _ Has), !N.ltb_irrefl, !N.eqb_refl.
    cbn [andb]. eapply receiving_state; [done..| |by rewrite bool_decide_eq_false_2].
    intros x. rewrite Hgs. split.
    + intros [->|(v & Hv & Hdv)]; [exists w|exists v]; rewrite elem_of_app, list_elem_of_singleton; auto.
    + intros (v & [Hv| ->%list_elem_of_singleton]%elem_of_app & Hdv); [by right; exists v|left; congruence].
Qed.

Lemma receiving_all r0 arrivals :
  fresh_for r0 -> arrivals ⊆ wires ->
  exists r, push_all g q arrivals r0 = Some r /\ receiving r0 arrivals r.
Proof.
  intros Hfr. induction arrivals as [|w arrivals IH] using rev_ind; intros Ha.
  - exists r0. split; [done|]. unfold receiving. rewrite decide_False, decide_True; [done..|].
    intros Hn. destruct wires as [|w ws]; [done|].
    by apply (not_elem_of_nil w), Hn, elem_of_cons; left.
  - destruct IH as (r & Hr & Hrec); [set_solver|].
    destruct (receiving_step r0 arrivals w r) as (r' & Hp & Hrec'); [done|set_solver..|done|].
    exists r'. split; [|done]. rewrite push_all_app, Hr. cbn. by rewrite Hp.
Qed.
End message.
End wires.

(** The wires of a result decode to its fragments. *)
Lemma wires_fragments `{NanaTracking} config n count payload wires :
  0 < n -> payload <> [] -> len payload <= max_reassembly_bytes config -> count <= max_fragments config ->
  len (chunks n payload) = count ->
  let fs := frags count n (len payload) 0 (chunks n payload) in
  Forall2 (fun wire f => fragment_wire (fg_index f) count n (len payload) (fg_payload f) = Ok wire)
    wires fs ->
  Forall2 (fun w f => fragment_decode w config = Ok f) wires fs
  /\ Forall (fragment_ok count (len payload)) fs /\ len payload <= usize_max /\ wires <> [].
Proof.
  intros Hn Hne Hp Hm Hc fs Hw.
  assert (Forall (fragment_ok count (len payload)) fs) as Hok
    by (apply (frags_ok _ _ _ Hn); [done|lia|fold (chunks n payload); lia]).
  assert (wires <> []) as Hsome.
  { intros ->. apply Forall2_length in Hw. unfold fs in Hw. rewrite frags_length in Hw. cbn in Hw.
    unfold chunks in Hw. destruct payload; [done|]. cbn in Hw. lia. }
  assert (len payload <= usize_max) as Hmax.
  { destruct Hw as [|wire f ws fs' Hw _]; [done|]. unfold fragment_wire in Hw. inv_ok. guards. lia. }
  split_and!; [|done..]. apply Forall2_same_length_lookup. split; [by eapply Forall2_length|].
  intros i wire f Hwi Hfi. pose proof (Forall2_lookup_lr _ _ _ _ _ _ Hw Hwi Hfi) as Hwire.
  apply list_elem_of_lookup_2 in Hfi. pose proof (frags_shape _ _ _ _ _ _ Hfi) as Hshape.
  rewrite Forall_forall in Hok. specialize (Hok _ Hfi). rewrite Hshape in Hok |- *.
  by apply fragment_wire_decode.
Qed.

(** ** Sending *)

Section sending.
Context `{NanaTracking} {C W : Type} `{RealtimeConnection C W} (c : C).

(** The connection takes [ds] one after the other and accepts each. *)
Inductive sent_all : list RealtimeDatagram -> W -> W -> Prop :=
| sent_none w : sent_all [] w w
| sent_more d ds w w1 w2 o :
    try_send_latest c d w = (w1, Ok o) -> o = Enqueued \/ o = ReplacedOlder ->
    sent_all ds w1 w2 -> sent_all (d :: ds) w w2.

Definition fragment_datagram (r : FragmentSend) (wire : list byte) : RealtimeDatagram :=
  mkDatagram (fr_flow r) (fr_generation r) (fr_sequence r) (fr_deadline r) (fr_priority r) wire.

Lemma send_chunks_delivered r count n index l a w w' o :
  fb_fragments a + len l <= usize_max -> 
  send_chunks r count n index l a c w = (w', Ok o) -> fb_expired o = 0 -> fb_congested o = 0 ->
  exists wires, sent_all (fragment_datagram r <$> wires) w w'
    /\ Forall2 (fun wire f => fragment_wire (fg_index f) count n (len (fr_payload r)) (fg_payload f) = Ok wire)
         wires (frags count n (len (fr_payload r)) index l)
    /\ fb_fragments o = fb_fragments a + len wires.
Proof.
  revert index a w. induction l as [|ch l IH]; intros index a w Hm Hs He Hc; cbn in Hs.
  - simplify_eq. exists []. split_and!; [constructor..|cbn; lia].
  - cbn [length] in Hm. destruct (fragment_wire _ _ _ _ _) as [wire|] eqn:Hw; [|done].
    destruct (try_send_latest c _ w) as [w1 [x|]] eqn:Ht; [|done].
    assert ((x = Enqueued \/ x = ReplacedOlder)
            /\ send_chunks r count n (index + 1) l (add_outcome x a) c w1 = (w', Ok o)) as [Hx Hrest].
    { destruct x; simplify_eq; auto; cbn in He, Hc; unfold sat_add in *; exfalso; lia. }
    assert (fb_fragments (add_outcome x a) = fb_fragments a + 1) as Hadd
      by (destruct Hx as [-> | ->]; cbn [add_outcome fb_fragments]; unfold sat_add; lia).
    destruct (IH (index + 1) (add_outcome x a) w1) as (wires & Hsent & Hf & Hl); [lia|done..|].
    exists (wire :: wires). split_and!; [by econstructor|by constructor|].
    rewrite Hl, Hadd. cbn [length]. lia.
Qed.
End sending.

(** C8: Fragments put a result together again.  When [send_fragmented] reports
    a result as delivered to the transport, the connection accepted exactly its
    fragments, in order, at most the configured number.  Whatever of them
    arrives at a reassembler that holds and completed nothing as new, in any
    order and any number of times, the next one is answered as it should be:
    pending until every fragment has arrived, then complete with exactly the
    payload that was sent, and ignored from then on.  A partial older message
    is reported as replaced by the first fragment. *)
Theorem fragment_roundtrip `{NanaTracking} {C W} `{RealtimeConnection C W} (c : C) r w w' o :
  send_fragmented c r w = (w', Ok o) -> delivered_to_transport o = true ->
  exists wires, sent_all c (fragment_datagram r <$> wires) w w'
    /\ fb_fragments o = len wires /\ 0 < len wires <= max_fragments (fr_config r)
    /\ forall g q rs arrivals a, fresh_for g q rs -> arrivals ⊆ wires -> a ∈ wires ->
       exists rs1 rs2, push_all (fr_config r) g q arrivals rs = Some rs1
         /\ reassembler_push g q a (fr_config r) rs1
            = Some (rs2, Ok (expected g q wires (fr_payload r) rs arrivals a)).
Proof.
  unfold send_fragmented, delivered_to_transport. intros Hs Ho. guards.
  destruct (bool_decide _ || _) eqn:Hp; [done|]. guards.
  destruct (max_datagram_payload c w) as [mp|]; [|done]. case_match eqn:Hmp; [done|]. guards.
  set (n := mp - FRAGMENT_HEADER_LEN) in *. assert (0 < n) as Hn by lia. clearbody n.
  set (payload := fr_payload r) in *. set (count := div_ceil (len payload) n) in *.
  destruct ((_ <? count) || _) eqn:Hc; [done|]. guards.
  assert (len (chunks n payload) = count) as Hchunks by (by apply chunks_fuel_length).
  apply (send_chunks_delivered c r) in Hs as (wires & Hsent & Hw & Hl); [|cbn; lia|done|done].
  fold payload in Hw. set (fs := frags count n (len payload) 0 (chunks n payload)) in *.
  assert (len fs = count) as Hfs by (unfold fs; by rewrite frags_length).
  assert (len wires = count) as Hlw by (rewrite (Forall2_length _ _ _ Hw); done).
  destruct (frags_chained count n (len payload) Hn _ payload 0 ltac:(done)) as [Hch Hpay].
  cbn [default_batch fb_fragments] in Hl. exists wires. split_and!; [done|lia|lia|lia|].
  intros g q rs arrivals a Hfr Ha Hin.
  destruct (wires_fragments (fr_config r) n count payload wires) as (Hd & Hok & Hmax & Hsome); [done..|].
  fold fs in Hd, Hok. change (payloads fs = payload) in Hpay.
  assert (chained 0 fs) as Hch' by done. assert (len (payloads fs) = len payload) as Hlen by (by rewrite Hpay).
  assert (NoDup (fg_index <$> fs)) as Hnd by (by apply frags_nodup).
  destruct (receiving_all (fr_config r) g q count (len payload) wires fs) with (r0 := rs) (arrivals := arrivals)
    as (rs1 & Hrs1 & Hrec); [done..|].
  destruct (receiving_step (fr_config r) g q count (len payload) wires fs) with (r0 := rs)
    (arrivals := arrivals) (w := a) (r := rs1) as (rs2 & Hrs2 & _); [done..|].
  rewrite Hpay in Hrs2. by exists rs1, rs2.
Qed.

(** ** Witnesses *)

Section fragment_witness.
#[local] Existing Instance unit_tracking.
(** A connection that accepts every datagram and records it. *)
#[local] Instance recording : RealtimeConnection () (list RealtimeDatagram) := {|
  max_datagram_payload _ _ := Some 20;
  try_send_latest _ d w := (w ++ [d], Ok Enqueued);
  try_receive_realtime _ w := (w, Ok None);
|}.
Definition sample_send : FragmentSend :=
  mkFragmentSend CORE_RESULT_FLOW 1 7 50 RealtimePriority.High (str "hello")
    (default_binding_config (H := unit_tracking) ()).

Lemma fragment_roundtrip_witness :
  exists w' o a b c rs1 rs2,
    send_fragmented () sample_send [] = (w', Ok o)
    /\ sent_all () (fragment_datagram sample_send <$> [a; b; c]) [] w'
    /\ push_all (fr_config sample_send) 1 7 [c; a; c] reassembler_new = Some rs1
    /\ reassembler_push 1 7 b (fr_config sample_send) rs1
       = Some (rs2, Ok (expected 1 7 [a; b; c] (str "hello") reassembler_new [c; a; c] b)).
Proof.
  set (w' := (send_fragmented () sample_send []).1).
  destruct (fragment_roundtrip () sample_send [] w' (mkBatch 3 3 0 0 0)) as (wires & Hs & Hl & _ & Hr);
    [vm_compute; reflexivity|reflexivity|].
  destruct wires as [|a [|b [|c [|d wires]]]]; cbn in Hl; try lia.
  destruct (Hr 1 7 reassembler_new [c; a; c] b) as (rs1 & rs2 & H1 & H2);
    [by split|set_solver|set_solver|].
  exists w', (mkBatch 3 3 0 0 0), a, b, c, rs1, rs2. split_and!; [vm_compute; reflexivity|done..].
Defined.

Definition sample_old : list byte :=
  FRAGMENT_MAGIC ++ [byte_of_n 1; byte_of_n 0] ++ be_bytes 2 0 ++ be_bytes 2 2
    ++ be_bytes 4 0 ++ be_bytes 4 6 ++ str "old".
Definition sample_new : list byte :=
  FRAGMENT_MAGIC ++ [byte_of_n 1; byte_of_n 0] ++ be_bytes 2 0 ++ be_bytes 2 1
    ++ be_bytes 4 0 ++ be_bytes 4 3 ++ str "new".

Lemma reassembly_sound_witness :
  let config := fr_config sample_send in
  exists r r' fs, reassembler_push 1 1 sample_old config reassembler_new = Some (r, Ok (RePending false))
    /\ reassembler_push 1 2 sample_new config r = Some (r', Ok (ReComplete 1 2 (str "new") true))
    /\ chained 0 fs /\ str "new" = payloads fs.
Proof.
  intros config.
  set (r := (default (reassembler_new, Err InvalidFragment)
               (reassembler_push 1 1 sample_old config reassembler_new)).1).
  destruct (reassembly_sound config [mkPush 1 1 sample_old (Ok (RePending false))] r 1 2 sample_new)
    as (r2 & out & Hp & Hc).
  { eapply reaches_push; [apply reaches_new|vm_compute; reflexivity]. }
  assert (out = Ok (ReComplete 1 2 (str "new") true)) as -> by (vm_compute in Hp; injection Hp as _ <-; reflexivity).
  destruct (Hc _ _ _ _ eq_refl) as (_ & _ & _ & (fs & Hch & Hpay & _) & _).
  exists r, r2, fs. split_and!; [vm_compute; reflexivity|done..].
Defined.
End fragment_witness.
