(* ===== verification/Reliable.v ===== *)
(** * The reliable latest-only lane

    Models [ntp-mutsuki-link/src/reliable.rs]: without datagrams, each flow
    keeps at most one frame waiting for the ordered transport, and the receiver
    keeps the newest frame of each flow.  The capacities of the reused buffers
    ([buffer_growths]) depend on the allocator and are left out.  The loop of
    [flush] has fuel; the instants at which frames are decoded are a clock. *)

From S2P Require Export NtpBinding.
Local Open Scope N_scope.

Definition LATEST_MAGIC : list byte := str "NTLF".
Definition LATEST_VERSION : N := 1.
Definition LATEST_HEADER_LEN : N := 23.

Record PendingFrame := mkPendingFrame {
  pf_pending : bool;
  pf_priority : RealtimePriority.t;
  pf_wire : list byte;
}.
Record ReliableLatestSender := mkLatestSender {
  ls_pending : gmap N PendingFrame;
  ls_replacements : N;
}.
Definition default_latest_sender : ReliableLatestSender := mkLatestSender ∅ 0.
Record ReliableLatestReceiver := mkLatestReceiver {
  lr_pending : gmap N ReceivedRealtimeDatagram;
  lr_replacements : N;
  stale_discarded : N;
}.
Definition default_latest_receiver : ReliableLatestReceiver := mkLatestReceiver ∅ 0 0.

Definition latest_wire (flow generation sequence : N) (payload : list byte) : list byte :=
  LATEST_MAGIC ++ [byte_of_n LATEST_VERSION] ++ be_bytes 2 flow ++ be_bytes 4 generation
  ++ be_bytes 8 sequence ++ be_bytes 4 (len payload) ++ payload.

Section reliable.
Context `{NanaTracking}.

Definition latest_enqueue (flow generation sequence : N) (priority : RealtimePriority.t)
    (payload : list byte) (max_frame_bytes : N) (s : ReliableLatestSender)
    : ReliableLatestSender * result BindingError SendOutcome :=
  match checked_add usize_max LATEST_HEADER_LEN (len payload) with
  | None => (s, Err PayloadLimit)
  | Some wire_len =>
    if (max_frame_bytes <? wire_len) || (u32_max <? len payload) then (s, Err PayloadLimit)
    else
      let replaced :=
        match ls_pending s !! flow with Some frame => pf_pending frame | None => false end in
      let frame := mkPendingFrame true priority (latest_wire flow generation sequence payload) in
      (mkLatestSender (<[flow := frame]> (ls_pending s))
         (if replaced then sat_add u64_max (ls_replacements s) 1 else ls_replacements s),
       Ok (if replaced then ReplacedOlder else Enqueued))
  end.

(** The frames that wait, in flow order, and the first of least priority. *)
Definition waiting_frames (s : ReliableLatestSender) : list (N * PendingFrame) :=
  List.filter (fun e => pf_pending e.2) (btree_iter (ls_pending s)).
Definition frame_lt (e1 e2 : N * PendingFrame) : bool :=
  RealtimePriority.code (pf_priority e1.2) <? RealtimePriority.code (pf_priority e2.2).
Definition mark_sent (flow : N) (s : ReliableLatestSender) : ReliableLatestSender :=
  mkLatestSender
    (alter (fun f => mkPendingFrame false (pf_priority f) (pf_wire f)) flow (ls_pending s))
    (ls_replacements s).

Fixpoint latest_flush {C W} `{Connection C W} (fuel : nat) (c : C) (s : ReliableLatestSender) (w : W)
    : option (W * ReliableLatestSender * result BindingError ()) :=
  match fuel with
  | O => None
  | S fuel =>
    match min_by frame_lt (waiting_frames s) with
    | None => Some (w, s, Ok ())
    | Some (flow, frame) =>
      let '(w, r) := try_send c (pf_wire frame) w in
      match r with
      | Ok _ => latest_flush fuel c (mark_sent flow s) w
      | Err e =>
        if bool_decide (te_kind e = TransportErrorKind.WouldBlock) then Some (w, s, Ok ())
        else Some (w, s, Err (BeTransport e))
      end
    end
  end.

Definition latest_clear (s : ReliableLatestSender) : ReliableLatestSender :=
  mkLatestSender ∅ (ls_replacements s).
Definition latest_pending (s : ReliableLatestSender) : N := len (waiting_frames s).

(** ** The receiver *)

Definition flow_priority (flow : N) : option RealtimePriority.t :=
  if flow =? COMPACT_RIG_FLOW then Some RealtimePriority.Critical
  else if flow =? CORE_RESULT_FLOW then Some RealtimePriority.High
  else if flow =? GEOMETRY_FLOW then Some RealtimePriority.Disposable
  else None.

Definition latest_decode (wire : list byte) (max_frame_bytes now : N)
    : result BindingError ReceivedRealtimeDatagram :=
  reject (len wire <? LATEST_HEADER_LEN) || (max_frame_bytes <? len wire)
         || negb (bool_decide (field 0 4 wire = LATEST_MAGIC))
         || negb (from_be_bytes (field 4 5 wire) =? LATEST_VERSION)
    with InvalidFragment;
  let flow := from_be_bytes (field 5 7 wire) in
  let generation := from_be_bytes (field 7 11 wire) in
  let sequence := from_be_bytes (field 11 19 wire) in
  let payload_len := from_be_bytes (field 19 23 wire) in
  reject negb (payload_len =? len wire - LATEST_HEADER_LEN) with InvalidFragment;
  priority ← ok_or InvalidFragment (flow_priority flow);
  Ok (mkReceived flow generation sequence priority now (drop 23 wire)).

Definition keep_latest (frame : ReceivedRealtimeDatagram) (r : ReliableLatestReceiver)
    : ReliableLatestReceiver :=
  let previous := lr_pending r !! rx_flow frame in
  let replace :=
    match previous with Some p => rx_sequence p <? rx_sequence frame | None => true end in
  if replace then
    mkLatestReceiver (<[rx_flow frame := frame]> (lr_pending r))
      (match previous with
       | Some _ => sat_add u64_max (lr_replacements r) 1
       | None => lr_replacements r
       end) (stale_discarded r)
  else
    mkLatestReceiver (lr_pending r) (lr_replacements r) (sat_add u64_max (stale_discarded r) 1).

(** The loop of [poll], at most [max_drain] messages. *)
Fixpoint latest_drain {C W} `{Connection C W} (max_drain : nat) (c : C) (max_frame_bytes : N)
    (clock : nat -> N) (r : ReliableLatestReceiver) (w : W)
    : W * ReliableLatestReceiver * result BindingError () :=
  match max_drain with
  | O => (w, r, Ok ())
  | S n =>
    let '(w, received) := try_receive c w in
    match received with
    | Ok (Some wire) =>
      match latest_decode wire max_frame_bytes (clock n) with
      | Ok frame => latest_drain n c max_frame_bytes clock (keep_latest frame r) w
      | Err e => (w, r, Err e)
      end
    | Ok None => (w, r, Ok ())
    | Err e =>
      if bool_decide (te_kind e = TransportErrorKind.WouldBlock) then (w, r, Ok ())
      else (w, r, Err (BeTransport e))
    end
  end.

(** The key [(priority, sequence)]. *)
Definition received_lt (e1 e2 : N * ReceivedRealtimeDatagram) : bool :=
  let code e := RealtimePriority.code (rx_priority e.2) in
  (code e1 <? code e2) || (code e1 =? code e2) && (rx_sequence e1.2 <? rx_sequence e2.2).

Definition latest_poll {C W} `{Connection C W} (c : C) (max_frame_bytes max_drain : N)
    (clock : nat -> N) (r : ReliableLatestReceiver) (w : W)
    : W * ReliableLatestReceiver * result BindingError (option ReceivedRealtimeDatagram) :=
  let '(w, r, drained) := latest_drain (N.to_nat max_drain) c max_frame_bytes clock r w in
  match drained with
  | Err e => (w, r, Err e)
  | Ok _ =>
    match min_by received_lt (btree_iter (lr_pending r)) with
    | None => (w, r, Ok None)
    | Some (flow, _) =>
      (w, mkLatestReceiver (delete flow (lr_pending r)) (lr_replacements r) (stale_discarded r),
       Ok (lr_pending r !! flow))
    end
  end.
Definition latest_receiver_clear (r : ReliableLatestReceiver) : ReliableLatestReceiver :=
  mkLatestReceiver ∅ (lr_replacements r) (stale_discarded r).
End reliable.
