(* ===== verification/ReliableFacts.v ===== *)
(** * The reliable latest-only lane: flushing ends, and keeps the order *)

From S2P Require Export Reliable RealtimeWire.
Local Open Scope N_scope.

(** ** The least frame that waits *)

(** [min_by] chooses the first least element. *)
Lemma min_by_first {A} (lt : A -> A -> bool) (l : list A) x :
  (forall x y z, lt x y = false -> lt y z = false -> lt x z = false) ->
  (forall x y, lt x y = true -> lt y x = false) ->
  min_by lt l = Some x -> exists l1 l2, l = l1 ++ x :: l2 /\ forall y, y ∈ l1 -> lt x y = true.
Proof.
  intros Htrans Hasym. revert x. induction l as [|z l IH] using rev_ind; intros x Hx; [done|].
  unfold min_by in Hx. rewrite fold_left_app in Hx. cbn in Hx. fold (min_by lt l) in Hx.
  destruct (min_by lt l) as [y|] eqn:Hy.
  - destruct (lt z y) eqn:Hz; simplify_eq.
    + exists l, []. split; [done|]. intros v Hv.
      pose proof (min_by_least lt Htrans Hasym _ _ Hy v Hv) as Hvy.
      destruct (lt x v) eqn:Hxv; [done|]. by rewrite (Htrans _ _ _ Hxv Hvy) in Hz.
    + destruct (IH x eq_refl) as (l1 & l2 & -> & Hl). exists l1, (l2 ++ [z]).
      split; [by rewrite <- app_assoc|done].
  - simplify_eq. destruct l as [|v l]; [by exists [], []; split; [|intros ? ?%not_elem_of_nil]|].
    by destruct (min_by_some lt (v :: l)) as [? Hn]; [|rewrite Hn in Hy].
Qed.

(** Frames by priority, then by flow. *)
Definition frame_order : relation (N * PendingFrame) := fun e1 e2 =>
  frame_lt e1 e2 = true
  \/ frame_lt e2 e1 = false /\ e1.1 <= e2.1.
#[export] Instance frame_order_dec : RelDecision frame_order.
Proof. intros ? ?. unfold frame_order. apply _. Defined.
Lemma frame_order_spec e1 e2 :
  frame_order e1 e2 <->
  RealtimePriority.code (pf_priority e1.2) < RealtimePriority.code (pf_priority e2.2)
  \/ RealtimePriority.code (pf_priority e1.2) = RealtimePriority.code (pf_priority e2.2) /\ e1.1 <= e2.1.
Proof. unfold frame_order, frame_lt. rewrite N.ltb_lt, N.ltb_ge. lia. Qed.
#[export] Instance frame_order_total : Total frame_order.
Proof. intros ? ?. rewrite !frame_order_spec. lia. Qed.
#[export] Instance frame_order_trans : Transitive frame_order.
Proof. intros ? ? ?. rewrite !frame_order_spec. lia. Qed.

(** The frames that wait, in the order in which they are to be sent. *)
Definition sending_order (s : ReliableLatestSender) : list (N * PendingFrame) :=
  merge_sort frame_order (waiting_frames s).

Lemma waiting_perm s :
  waiting_frames s ≡ₚ filter (fun e => pf_pending e.2 = true) (map_to_list (ls_pending s)).
Proof.
  unfold waiting_frames. rewrite <- (btree_iter_perm (ls_pending s)).
  induction (btree_iter (ls_pending s)) as [|e l IH]; cbn; [done|].
  case_decide as He; [by rewrite He, IH|]. by apply not_true_is_false in He as ->.
Qed.

Lemma elem_of_waiting s flow f :
  (flow, f) ∈ waiting_frames s <-> ls_pending s !! flow = Some f /\ pf_pending f = true.
Proof. rewrite waiting_perm, list_elem_of_filter, elem_of_map_to_list. cbn. tauto. Qed.

(** Sending a frame takes it off the frames that wait. *)
Lemma waiting_mark_sent s flow f :
  (flow, f) ∈ waiting_frames s -> waiting_frames s ≡ₚ (flow, f) :: waiting_frames (mark_sent flow s).
Proof.
  rewrite elem_of_waiting, !waiting_perm. intros [Hf Hp]. cbn [mark_sent ls_pending].
  rewrite (alter_alt_Some _ _ _ f) by done. rewrite <- insert_delete_eq.
  rewrite map_to_list_insert by apply lookup_delete_eq.
  rewrite <- (map_to_list_delete (ls_pending s) flow f) by done.
  by rewrite filter_cons_True, filter_cons_False by done.
Qed.

(** The frames are listed in flow order. *)
Lemma waiting_sorted s : StronglySorted entry_le (waiting_frames s).
Proof.
  unfold waiting_frames. pose proof (btree_iter_sorted (ls_pending s)) as Hs.
  induction Hs as [|e l Hs IH Hf]; cbn; [constructor|]. destruct (pf_pending e.2); [|done].
  constructor; [done|]. apply Forall_forall. intros x Hx. rewrite Forall_forall in Hf. apply Hf.
  apply list_elem_of_In, filter_In in Hx as [Hx _]. by apply list_elem_of_In.
Qed.

Lemma frame_lt_trans e1 e2 e3 : frame_lt e1 e2 = false -> frame_lt e2 e3 = false -> frame_lt e1 e3 = false.
Proof. unfold frame_lt. rewrite !N.ltb_ge. lia. Qed.
Lemma frame_lt_asym e1 e2 : frame_lt e1 e2 = true -> frame_lt e2 e1 = false.
Proof. unfold frame_lt. rewrite N.ltb_lt, N.ltb_ge. lia. Qed.

(** The frame chosen is the first in the sending order. *)
Lemma chosen_first s x y :
  min_by frame_lt (waiting_frames s) = Some x -> y ∈ waiting_frames s -> frame_order x y.
Proof.
  intros Hmin Hy. pose proof (min_by_least frame_lt frame_lt_trans frame_lt_asym _ _ Hmin _ Hy) as Hyx.
  pose proof (waiting_sorted s) as Hs.
  destruct (min_by_first frame_lt _ _ frame_lt_trans frame_lt_asym Hmin) as (l1 & l2 & Hl & Hfirst).
  rewrite Hl in Hy, Hs. apply elem_of_app in Hy as [Hy|[->|Hy]%elem_of_cons].
  - left. by apply Hfirst.
  - apply frame_order_spec. lia.
  - right. split; [done|]. apply StronglySorted_app in Hs as (_ & _ & Hs). inversion Hs as [|? ? ? Hf].
    rewrite Forall_forall in Hf. by apply (Hf y).
Qed.

Lemma sending_order_cons s x :
  min_by frame_lt (waiting_frames s) = Some x ->
  sending_order s = x :: sending_order (mark_sent x.1 s).
Proof.
  intros Hmin. apply min_by_elem in Hmin as Hin. destruct x as [flow f].
  apply (StronglySorted_unique_strong frame_order).
  - intros [k1 f1] [k2 f2]. unfold sending_order. rewrite !merge_sort_Permutation.
    rewrite <- (waiting_mark_sent _ _ _ Hin), !elem_of_waiting, !frame_order_spec. cbn.
    intros [H1 _] [H2 _] ? ?. assert (k1 = k2) as -> by lia. congruence.
  - apply (StronglySorted_merge_sort _).
  - constructor; [apply (StronglySorted_merge_sort _)|]. apply Forall_forall. intros y.
    unfold sending_order. rewrite merge_sort_Permutation. intros Hy. eapply chosen_first; [done|].
    rewrite (waiting_mark_sent _ _ _ Hin). by apply elem_of_cons; right.
  - unfold sending_order. rewrite !merge_sort_Permutation. by apply waiting_mark_sent.
Qed.

(** ** Flushing *)

(** Send the frames [l] in turn until the connection refuses one. *)
Fixpoint send_in_order `{NanaTracking} {C W} `{Connection C W} (c : C) (l : list (N * PendingFrame))
    (s : ReliableLatestSender) (w : W) : W * ReliableLatestSender * result BindingError () :=
  match l with
  | [] => (w, s, Ok ())
  | (flow, frame) :: l =>
    let '(w, r) := try_send c (pf_wire frame) w in
    match r with
    | Ok _ => send_in_order c l (mark_sent flow s) w
    | Err e => (w, s, if bool_decide (te_kind e = TransportErrorKind.WouldBlock) then Ok ()
                      else Err (BeTransport e))
    end
  end.

(** C19: Flushing ends, in order.  For any connection and any sender, the loop
    of [flush] returns after at most one attempt for each frame that waits and
    one last look, whatever the connection answers; and it does exactly this:
    it offers the frames that wait once each, by priority and then by flow,
    marks those sent that the connection accepts, and stops at the first it
    refuses, without an error when the refusal is back-pressure. *)
Theorem flush_terminates `{NanaTracking} {C W} `{Connection C W} (c : C) fuel s w :
  latest_pending s < N.of_nat fuel ->
  latest_flush fuel c s w = Some (send_in_order c (sending_order s) s w).
Proof.
  unfold latest_pending. revert s w. induction fuel as [|fuel IH]; intros s w Hf; [lia|].
  cbn [latest_flush]. destruct (min_by frame_lt (waiting_frames s)) as [[flow f]|] eqn:Hmin.
  - rewrite (sending_order_cons _ _ Hmin). cbn [send_in_order fst].
    destruct (try_send c (pf_wire f) w) as [w' [u|e]]; [|by case_bool_decide]. apply IH.
    apply min_by_elem in Hmin. rewrite (waiting_mark_sent _ _ _ Hmin) in Hf. cbn in Hf. lia.
  - assert (waiting_frames s = []) as Hn.
    { destruct (waiting_frames s) as [|e l]; [done|].
      by destruct (min_by_some frame_lt (e :: l)) as [? Hx]; [|rewrite Hx in Hmin]. }
    unfold sending_order. by rewrite Hn.
Qed.

(** ** The wire form *)

Lemma latest_fields l :
  l = field 0 4 l ++ field 4 5 l ++ field 5 7 l ++ field 7 11 l ++ field 11 19 l ++ field 19 23 l
        ++ drop 23 l.
Proof. rewrite <- !wire_field_split by lia. by rewrite drop_0. Qed.

(** What is queued is what the other end decodes, with the priority of its flow. *)
Lemma latest_roundtrip `{NanaTracking} flow generation sequence payload max now priority :
  flow <= u16_max -> generation <= u32_max -> sequence <= u64_max -> len payload <= u32_max ->
  LATEST_HEADER_LEN + len payload <= max -> flow_priority flow = Some priority ->
  latest_decode (latest_wire flow generation sequence payload) max now
  = Ok (mkReceived flow generation sequence priority now payload).
Proof.
  intros Hf Hg Hs Hp Hm Hpr. set (bs := latest_wire _ _ _ _). unfold latest_decode.
  assert (len bs = 23 + len payload) as Hl.
  { unfold bs, latest_wire. rewrite !length_app, !be_bytes_length. cbn [length LATEST_MAGIC]. cbn. lia. }
  assert (field 0 4 bs = LATEST_MAGIC) as -> by reflexivity.
  assert (field 4 5 bs = [byte_of_n LATEST_VERSION]) as -> by reflexivity.
  assert (field 5 7 bs = be_bytes 2 flow) as -> by reflexivity.
  assert (field 7 11 bs = be_bytes 4 generation) as -> by reflexivity.
  assert (field 11 19 bs = be_bytes 8 sequence) as -> by reflexivity.
  assert (field 19 23 bs = be_bytes 4 (len payload)) as -> by reflexivity.
  assert (drop 23 bs = payload) as -> by reflexivity.
  clearbody bs. rewrite bool_decide_eq_true_2 by done. rewrite !from_be_bytes_small by (cbn; lia).
  change (from_be_bytes [byte_of_n LATEST_VERSION]) with LATEST_VERSION. unfold LATEST_HEADER_LEN in *.
  rewrite N.eqb_refl, Hpr. rewrite !reject_pass; [done|by tests|by tests].
Qed.

(** ** Receiving *)

Section poll.
Context `{NanaTracking} {C W} `{Connection C W} (c : C) (max_frame_bytes : N) (clock : nat -> N).

(** The connection yields messages that decode to [frames]. *)
Inductive yields : list ReceivedRealtimeDatagram -> W -> W -> Prop :=
| yields_none w : yields [] w w
| yields_more wire n d ds w w1 w2 :
    try_receive c w = (w1, Ok (Some wire)) -> latest_decode wire max_frame_bytes (clock n) = Ok d ->
    yields ds w1 w2 -> yields (d :: ds) w w2.

Lemma drain_yields n r w w' r' :
  latest_drain n c max_frame_bytes clock r w = (w', r', Ok ()) ->
  exists ds w1, yields ds w w1 /\ (length ds <= n)%nat /\ r' = fold_left (fun r d => keep_latest d r) ds r.
Proof.
  revert r w. induction n as [|n IH]; intros r w; cbn.
  - intros [= <- <-]. exists [], w. split_and!; [constructor|done..].
  - destruct (try_receive c w) as [w1 [[wire|]|e]] eqn:Hr.
    + destruct (latest_decode _ _ _) as [d|e] eqn:Hd; [|done].
      intros (ds & w2 & Hy & Hn & ->)%IH. exists (d :: ds), w2. split_and!; [by econstructor|cbn; lia|done].
    + intros [= <- <-]. exists [], w. split_and!; [constructor|cbn; lia|done].
    + case_bool_decide; [|done]. intros [= <- <-]. exists [], w. split_and!; [constructor|cbn; lia|done].
Qed.

(** A flow never goes back to an older frame. *)
Lemma keep_latest_le x r k p :
  lr_pending r !! k = Some p ->
  exists f, lr_pending (keep_latest x r) !! k = Some f /\ rx_sequence p <= rx_sequence f.
Proof.
  intros Hp. unfold keep_latest. destruct (decide (rx_flow x = k)) as [->|Hne].
  - rewrite Hp. destruct (N.ltb_spec (rx_sequence p) (rx_sequence x)); cbn; [|by exists p].
    exists x. rewrite lookup_insert_eq. split; [done|lia].
  - exists p. split; [|done]. case_match; cbn; [by rewrite lookup_insert_ne|done].
Qed.
Lemma keep_latest_self x r :
  exists f, lr_pending (keep_latest x r) !! rx_flow x = Some f /\ rx_sequence x <= rx_sequence f.
Proof.
  unfold keep_latest. destruct (lr_pending r !! rx_flow x) as [p|] eqn:Hp.
  - destruct (N.ltb_spec (rx_sequence p) (rx_sequence x)); cbn; [exists x|by exists p].
    by rewrite lookup_insert_eq.
  - exists x. cbn. by rewrite lookup_insert_eq.
Qed.

Abbreviation keep_all ds r := (fold_left (fun r d => keep_latest d r) ds r).

Lemma keep_all_le ds r k p :
  lr_pending r !! k = Some p ->
  exists f, lr_pending (keep_all ds r) !! k = Some f /\ rx_sequence p <= rx_sequence f.
Proof.
  revert r p. induction ds as [|x ds IH]; intros r p Hp; cbn; [by exists p|].
  destruct (keep_latest_le x r k p Hp) as (y & Hy & Hle). destruct (IH _ _ Hy) as (f & Hf & ?).
  exists f. split; [done|lia].
Qed.
Lemma keep_all_self ds r d :
  d ∈ ds -> exists f, lr_pending (keep_all ds r) !! rx_flow d = Some f /\ rx_sequence d <= rx_sequence f.
Proof.
  revert r. induction ds as [|x ds IH]; intros r; [by intros ?%not_elem_of_nil|].
  intros [->|Hd]%elem_of_cons; cbn; [|by apply IH].
  destruct (keep_latest_self x r) as (y & Hy & Hle). destruct (keep_all_le ds _ _ _ Hy) as (f & Hf & ?).
  exists f. split; [done|lia].
Qed.
(** Nothing is made up. *)
Lemma keep_all_from ds r k f :
  lr_pending (keep_all ds r) !! k = Some f -> f ∈ ds /\ rx_flow f = k \/ lr_pending r !! k = Some f.
Proof.
  revert r. induction ds as [|x ds IH]; intros r; cbn; [by right|].
  intros [[Hf Hk]|Hf]%IH; [left; split; [by apply elem_of_cons; right|done]|].
  unfold keep_latest in Hf. case_match; cbn in Hf; [|by right].
  apply lookup_insert_Some in Hf as [[<- <-]|[_ Hf]]; [left|by right].
  split; [by apply elem_of_cons; left|done].
Qed.

Lemma received_lt_spec e1 e2 :
  received_lt e1 e2 = true <->
  RealtimePriority.code (rx_priority e1.2) < RealtimePriority.code (rx_priority e2.2)
  \/ RealtimePriority.code (rx_priority e1.2) = RealtimePriority.code (rx_priority e2.2)
     /\ rx_sequence e1.2 < rx_sequence e2.2.
Proof. unfold received_lt. by rewrite orb_true_iff, andb_true_iff, !N.ltb_lt, N.eqb_eq. Qed.
Lemma received_lt_trans e1 e2 e3 :
  received_lt e1 e2 = false -> received_lt e2 e3 = false -> received_lt e1 e3 = false.
Proof. rewrite <- !not_true_iff_false, !received_lt_spec. lia. Qed.
Lemma received_lt_asym e1 e2 : received_lt e1 e2 = true -> received_lt e2 e1 = false.
Proof. rewrite <- not_true_iff_false, !received_lt_spec. lia. Qed.
End poll.

(** A poll returns the newest frame of the most urgent flow.  What it
    returns was received, now or in an earlier poll, from at most the
    configured number of messages; no frame of its flow that was received or
    held is newer, nothing that stays is more urgent, or as urgent and older;
    the frame is taken out, and nothing of its flow remains. *)
Theorem poll_latest `{NanaTracking} {C W} `{Connection C W} (c : C) max_frame_bytes max_drain clock r w w' r' f :
  (forall k d, lr_pending r !! k = Some d -> rx_flow d = k) ->
  latest_poll c max_frame_bytes max_drain clock r w = (w', r', Ok (Some f)) ->
  exists ds w1, yields c max_frame_bytes clock ds w w1 /\ len ds <= max_drain
    /\ (f ∈ ds \/ lr_pending r !! rx_flow f = Some f)
    /\ (forall d, d ∈ ds \/ lr_pending r !! rx_flow d = Some d ->
        if decide (rx_flow d = rx_flow f) then rx_sequence d <= rx_sequence f
        else exists g, lr_pending r' !! rx_flow d = Some g /\ rx_sequence d <= rx_sequence g)
    /\ (forall k g, lr_pending r' !! k = Some g -> rx_flow g = k /\ k <> rx_flow f
        /\ received_lt (k, g) (rx_flow f, f) = false).
Proof.
  intros Hflow. unfold latest_poll.
  destruct (latest_drain _ _ _ _ _ _) as [[w2 r2] [[]|e]] eqn:Hd; [|done].
  apply drain_yields in Hd as (ds & w1 & Hy & Hn & ->). set (r2 := fold_left (fun r d => keep_latest d r) ds r).
  destruct (min_by _ _) as [[k x]|] eqn:Hmin; [|done]. intros [= <- <- Hf].
  pose proof (min_by_least _ received_lt_trans received_lt_asym _ _ Hmin) as Hleast.
  apply min_by_elem, elem_of_btree_iter in Hmin. fold r2 in Hmin, Hleast. rewrite Hmin in Hf. simplify_eq.
  assert (forall k g, lr_pending r2 !! k = Some g -> rx_flow g = k) as Hflow2.
  { intros k' g [[_ ?]|?]%keep_all_from; [done|by apply Hflow]. }
  pose proof (Hflow2 _ _ Hmin) as <-. exists ds, w1. split_and!; [done|lia| | |].
  - apply keep_all_from in Hmin as [[? _]|?]; auto.
  - intros d Hd. assert (exists g, lr_pending r2 !! rx_flow d = Some g /\ rx_sequence d <= rx_sequence g)
      as (g & Hg & Hle) by (destruct Hd; [by apply keep_all_self|by apply keep_all_le]).
    cbn [lr_pending]. case_decide as Hfd; [rewrite Hfd in Hg; by simplify_eq|].
    exists g. by rewrite lookup_delete_ne.
  - cbn. intros k g [Hne Hg]%lookup_delete_Some. split_and!; [by apply Hflow2|done|].
    apply Hleast. by apply elem_of_btree_iter.
Qed.

(** ** Witnesses *)

Section reliable_witness.
#[local] Existing Instance unit_tracking.
Definition lane_metadata : ConnectionMetadata :=
  mkMetadata (from_bytes (k := EndpointKind) (vreplicate _ Byte.x01))
    (from_bytes (k := EndpointKind) (vreplicate _ Byte.x02)) None true false.
Definition lane_left : MemoryConnection :=
  mkMemory lane_metadata LeftEnd RightEnd default_memory_config.
Definition lane_right : MemoryConnection :=
  mkMemory lane_metadata RightEnd LeftEnd default_memory_config.
Definition lane_sender : ReliableLatestSender :=
  let s := (latest_enqueue GEOMETRY_FLOW 1 4 RealtimePriority.Disposable (str "mesh") 1024
              default_latest_sender).1 in
  (latest_enqueue COMPACT_RIG_FLOW 1 5 RealtimePriority.Critical (str "rig") 1024 s).1.
Definition lane_wires : list (list byte) :=
  [latest_wire COMPACT_RIG_FLOW 1 5 (str "rig"); latest_wire GEOMETRY_FLOW 1 4 (str "mesh")].
Definition lane_pair : MemoryPair :=
  mkPair memory_side_new (mkSide [] lane_wires [] false false false).

Lemma flush_terminates_witness :
  latest_flush 3 lane_left lane_sender (mkPair memory_side_new memory_side_new)
  = Some (send_in_order lane_left (sending_order lane_sender) lane_sender
            (mkPair memory_side_new memory_side_new))
  /\ (send_in_order lane_left (sending_order lane_sender) lane_sender
        (mkPair memory_side_new memory_side_new)).1.1 = lane_pair.
Proof. split; [apply (flush_terminates lane_left 3); vm_compute; reflexivity|vm_compute; reflexivity]. Defined.

Lemma poll_latest_witness :
  exists r' w' ds w1,
    latest_poll lane_right 1024 32 (fun _ => 9) default_latest_receiver lane_pair
    = (w', r', Ok (Some (mkReceived COMPACT_RIG_FLOW 1 5 RealtimePriority.Critical 9 (str "rig"))))
    /\ yields lane_right 1024 (fun _ => 9) ds lane_pair w1
    /\ exists g, lr_pending r' !! GEOMETRY_FLOW = Some g.
Proof.
  set (res := latest_poll lane_right 1024 32 (fun _ => 9) default_latest_receiver lane_pair).
  destruct (poll_latest lane_right 1024 32 (fun _ => 9) default_latest_receiver lane_pair res.1.1 res.1.2
    (mkReceived COMPACT_RIG_FLOW 1 5 RealtimePriority.Critical 9 (str "rig"))) as (ds & w1 & Hy & _).
  - intros k d Hd. cbn in Hd. by rewrite lookup_empty in Hd.
  - vm_compute. reflexivity.
  - exists res.1.2, res.1.1, ds, w1. split_and!; [vm_compute; reflexivity|done|].
    eexists. vm_compute. reflexivity.
Defined.
End reliable_witness.

(** Only the sequence is compared: the first frame of a new generation, whose
    sequence starts over, is discarded as stale while one of the generation
    before is held. *)
Lemma new_generation_discarded :
  let held := mkReceived CORE_RESULT_FLOW 1 9 RealtimePriority.High 0 [] in
  let r := mkLatestReceiver {[CORE_RESULT_FLOW := held]} 0 0 in
  keep_latest (mkReceived CORE_RESULT_FLOW 2 1 RealtimePriority.High 0 []) r
  = mkLatestReceiver {[CORE_RESULT_FLOW := held]} 0 1.
Proof. reflexivity. Qed.
