(* ===== verification/Pool.v ===== *)
(** * The peer session pool

    Models [mutsuki-link-runtime]: [pool.rs], [peer_session.rs], [config.rs],
    [events.rs] and [error.rs].  A QUIC connection is a parameter; all the pool
    does with it is to ask its address and to abort it, which dropping it does
    too and which has an effect once.  What the listener and the connector
    answer, and the time a session is made, are arguments. *)

From S2P Require Export Liveness Reconnect Session TransportBase.
Local Open Scope N_scope.

Inductive DuplicatePeerPolicy := ReplaceExisting | RejectDuplicate.
#[export] Instance DuplicatePeerPolicy_eq_dec : EqDecision DuplicatePeerPolicy.
Proof. solve_decision. Defined.

(** What the pool uses of [QuicConnection], [SocketAddr] and [QuicOptions]. *)
Class PoolTransport := {
  QuicConnection : Type;
  quic_connection_eq_dec :: EqDecision QuicConnection;
  SocketAddr : Type;
  QuicOptions : Type;
  remote_address : QuicConnection -> SocketAddr;
}.

Inductive PoolError :=
| PoolInvalidConfig (reason : string)
| PoolTransportError (error : TransportError)
| PeerLimit
| DuplicatePeer (p : PeerId)
| UnknownPeer (p : PeerId).

Definition pool_error_kind (e : PoolError) : option TransportErrorKind.t :=
  match e with
  | PoolTransportError e => Some (te_kind e)
  | PeerLimit => Some TransportErrorKind.WouldBlock
  | _ => None
  end.

Section pool.
Context `{PoolTransport}.

Inductive PoolEvent :=
| InboundAwaitingAuth (id : ConnectionId) (addr : SocketAddr)
| PeerConnected (p : PeerId)
| PeerDisconnected (p : PeerId) (reason : CloseReason)
| ReconnectScheduled (p : PeerId) (unix_ms attempt : N)
| PoolHeartbeat (p : PeerId) (action : HeartbeatAction) (profile : ConnectionActivityProfile)
| BudgetExceeded
| ReconnectStopped (p : PeerId) (action : ReconnectAction).

Record LinkEndpointConfig := mkEndpointConfig {
  ec_local_endpoint : EndpointId;
  ec_bind : SocketAddr;
  ec_quic : QuicOptions;
  ec_heartbeat : HeartbeatPolicy;
  ec_reconnect : ReconnectPolicy;
  ec_max_peers : N;
  ec_duplicate_peer : DuplicatePeerPolicy;
  ec_server_name : list byte;
  ec_connect_timeout : N;
}.
Definition endpoint_config_validate (c : LinkEndpointConfig) : result string () :=
  reject ec_max_peers c =? 0 with "max_peers must be positive"%string;
  reject negb (heartbeat_policy_valid (ec_heartbeat c)) with "heartbeat policy is invalid"%string;
  reject bool_decide (ec_server_name c = []) with "server_name must not be empty"%string;
  reject ec_connect_timeout c =? 0 with "connect_timeout must be positive"%string;
  reject negb (policy_valid (ec_reconnect c)) with "reconnect policy is invalid"%string;
  Ok ().

(** ** Sessions of peers *)

Record PeerSessionHandle := mkHandle {
  ph_peer_id : PeerId;
  ph_remote_endpoint : EndpointId;
  ph_remote_addr : SocketAddr;
  ph_connection : QuicConnection;
  ph_heartbeat : HeartbeatController;
  ph_reconnect : ReconnectController;
}.
Definition handle_new (p : PeerId) (remote_endpoint : EndpointId) (addr : SocketAddr)
    (connection : QuicConnection) (hb : HeartbeatPolicy) (rc : ReconnectPolicy) (now : N)
    : result PoolError PeerSessionHandle :=
  h ← map_err PoolInvalidConfig (heartbeat_new hb now);
  r ← map_err PoolInvalidConfig (reconnect_new rc);
  Ok (mkHandle p remote_endpoint addr connection h r).

Definition with_heartbeat (h : PeerSessionHandle) (hb : HeartbeatController) : PeerSessionHandle :=
  mkHandle (ph_peer_id h) (ph_remote_endpoint h) (ph_remote_addr h) (ph_connection h) hb
    (ph_reconnect h).
Definition with_reconnect (h : PeerSessionHandle) (rc : ReconnectController) : PeerSessionHandle :=
  mkHandle (ph_peer_id h) (ph_remote_endpoint h) (ph_remote_addr h) (ph_connection h)
    (ph_heartbeat h) rc.

Definition tick_heartbeat (h : PeerSessionHandle) (now : N) (profile : ConnectionActivityProfile)
    : PeerSessionHandle * HeartbeatAction :=
  let '(hb, a) := tick (ph_heartbeat h) now profile in (with_heartbeat h hb, a).
Definition handle_transport_ack (h : PeerSessionHandle) (now : N) : PeerSessionHandle :=
  with_heartbeat h (observe_transport_ack (ph_heartbeat h) now).
Definition handle_probe_ack (h : PeerSessionHandle) (now : N) : PeerSessionHandle :=
  with_heartbeat h (observe_probe_ack (ph_heartbeat h) now).
Definition after_transport_failure (h : PeerSessionHandle) (cancelled : bool)
    (failure : ReconnectFailure) (now jitter_sample : N) : PeerSessionHandle * ReconnectAction :=
  let '(rc, a) := after_failure (ph_reconnect h) cancelled failure now jitter_sample in
  (with_reconnect h rc, a).
Definition reset_reconnect (h : PeerSessionHandle) : PeerSessionHandle :=
  with_reconnect h (reconnect_reset (ph_reconnect h)).

(** The connections that were aborted, in order. *)
Abbreviation aborts := (list QuicConnection).
Definition abort_connection (c : QuicConnection) (l : aborts) : aborts :=
  if bool_decide (c ∈ l) then l else l ++ [c].
Definition disconnect (h : PeerSessionHandle) (l : aborts) : aborts :=
  abort_connection (ph_connection h) l.

(** ** The pool *)

Record InboundConnect := mkInbound {
  in_connection_id : ConnectionId;
  in_remote_addr : SocketAddr;
  in_provisional : EndpointId;
  in_connection : option QuicConnection;
}.
(** [InboundConnect::drop]. *)
Definition inbound_drop (i : InboundConnect) (l : aborts) : aborts :=
  match in_connection i with Some c => abort_connection c l | None => l end.

Record PeerSessionPool := mkPool {
  pool_config : LinkEndpointConfig;
  pool_sessions : gmap PeerId PeerSessionHandle;
  inbound_seq : N;
}.
Definition with_sessions (p : PeerSessionPool) (m : gmap PeerId PeerSessionHandle)
    : PeerSessionPool := mkPool (pool_config p) m (inbound_seq p).

Definition pool_bind (listener connector : result TransportError ()) (c : LinkEndpointConfig)
    : result PoolError PeerSessionPool :=
  _ ← map_err PoolInvalidConfig (endpoint_config_validate c);
  _ ← map_err PoolTransportError listener;
  _ ← map_err PoolTransportError connector;
  Ok (mkPool c ∅ 1).

(** [next_connection_id]. *)
Definition next_connection_id (seq now : N) : ConnectionId :=
  from_bytes (k := ConnectionKind)
    (default (vreplicate _ Byte.x00) (to_array _ (be_bytes 8 seq ++ be_bytes 8 now))).
Definition accept_inbound (accepted : result TransportError QuicConnection)
    (provisional : EndpointId) (now : N) (p : PeerSessionPool)
    : PeerSessionPool * result PoolError InboundConnect :=
  match accepted with
  | Err e => (p, Err (PoolTransportError e))
  | Ok c =>
    (mkPool (pool_config p) (pool_sessions p) ((inbound_seq p + 1) mod 2 ^ 64),
     Ok (mkInbound (next_connection_id (inbound_seq p) now) (remote_address c) provisional (Some c)))
  end.

Definition ensure_capacity_for (peer : PeerId) (p : PeerSessionPool) : result PoolError () :=
  match pool_sessions p !! peer with
  | Some _ =>
    match ec_duplicate_peer (pool_config p) with
    | ReplaceExisting => Ok ()
    | RejectDuplicate => Err (DuplicatePeer peer)
    end
  | None =>
    reject ec_max_peers (pool_config p) <=? card (pool_sessions p) with PeerLimit; Ok ()
  end.

(** [insert_session]; on an error the connection is dropped.  The source asks
    for the capacity and the policy once more after [ensure_capacity_for]; the
    answers are the same. *)
Definition insert_session (peer : PeerId) (remote_endpoint : EndpointId) (addr : SocketAddr)
    (c : QuicConnection) (now : N) (p : PeerSessionPool) (l : aborts)
    : PeerSessionPool * aborts * result PoolError () :=
  match ensure_capacity_for peer p with
  | Err e => (p, abort_connection c l, Err e)
  | Ok _ =>
    let '(p, l) :=
      match pool_sessions p !! peer with
      | Some previous =>
        (with_sessions p (delete peer (pool_sessions p)), disconnect previous l)
      | None => (p, l)
      end in
    match handle_new peer remote_endpoint addr c (ec_heartbeat (pool_config p))
            (ec_reconnect (pool_config p)) now with
    | Err e => (p, abort_connection c l, Err e)
    | Ok handle => (with_sessions p (<[peer := handle]> (pool_sessions p)), l, Ok ())
    end
  end.

Definition admit_inbound (inbound : InboundConnect) (peer : PeerId) (remote_endpoint : EndpointId)
    (now : N) (p : PeerSessionPool) (l : aborts) : PeerSessionPool * aborts * result PoolError () :=
  match in_connection inbound with
  | None => (p, l, Err (PoolInvalidConfig "inbound connection already consumed"))
  | Some c => insert_session peer remote_endpoint (in_remote_addr inbound) c now p l
  end.

Definition connect_outbound (peer : PeerId) (connected : result TransportError QuicConnection)
    (remote_endpoint : EndpointId) (now : N) (p : PeerSessionPool) (l : aborts)
    : PeerSessionPool * aborts * result PoolError () :=
  match ensure_capacity_for peer p with
  | Err e => (p, l, Err e)
  | Ok _ =>
    match connected with
    | Err e => (p, l, Err (PoolTransportError e))
    | Ok c => insert_session peer remote_endpoint (remote_address c) c now p l
    end
  end.

Definition pool_remove (peer : PeerId) (p : PeerSessionPool) (l : aborts)
    : PeerSessionPool * aborts * bool :=
  match pool_sessions p !! peer with
  | None => (p, l, false)
  | Some handle => (with_sessions p (delete peer (pool_sessions p)), disconnect handle l, true)
  end.

(** The loop of [maintenance_tick] over the peers. *)
Fixpoint tick_peers (peers : list PeerId) (now : N) (profile : ConnectionActivityProfile)
    (p : PeerSessionPool) : PeerSessionPool * list PoolEvent :=
  match peers with
  | [] => (p, [])
  | peer :: peers =>
    match pool_sessions p !! peer with
    | None => tick_peers peers now profile p
    | Some handle =>
      let '(handle, action) := tick_heartbeat handle now profile in
      let '(p, events) :=
        tick_peers peers now profile
          (with_sessions p (<[peer := handle]> (pool_sessions p))) in
      (p, match action with
          | NoAction => events
          | _ => PoolHeartbeat peer action profile :: events
          end)
    end
  end.
Definition maintenance_tick (now : N) (profile : ConnectionActivityProfile) (p : PeerSessionPool)
    : PeerSessionPool * list PoolEvent :=
  tick_peers (btree_iter (pool_sessions p)).*1 now profile p.

Definition note_transport_failure (peer : PeerId) (cancelled : bool) (failure : ReconnectFailure)
    (now jitter_sample : N) (p : PeerSessionPool)
    : PeerSessionPool * result PoolError (list PoolEvent) :=
  match pool_sessions p !! peer with
  | None => (p, Err (UnknownPeer peer))
  | Some handle =>
    let '(handle, action) := after_transport_failure handle cancelled failure now jitter_sample in
    (with_sessions p (<[peer := handle]> (pool_sessions p)),
     Ok [match action with
         | AttemptAt unix_ms attempt => ReconnectScheduled peer unix_ms attempt
         | _ => ReconnectStopped peer action
         end])
  end.
End pool.
