(* ===== verification/PoolFacts.v ===== *)
(** * The pool holds one live connection a peer and loses none *)

From S2P Require Export Pool.
Local Open Scope N_scope.

Section pool_facts.
Context `{PoolTransport}.

(** ** Runs of a pool *)

Inductive pool_op :=
| OpAdmit (inbound : InboundConnect) (peer : PeerId) (endpoint : EndpointId) (now : N)
| OpConnect (peer : PeerId) (connected : result TransportError QuicConnection)
    (endpoint : EndpointId) (now : N)
| OpRemove (peer : PeerId)
| OpTick (now : N) (profile : ConnectionActivityProfile)
| OpFailure (peer : PeerId) (cancelled : bool) (failure : ReconnectFailure) (now jitter : N).

(** The connections an operation hands to the pool: the connector is called
    only when there is room. *)
Definition handed (p : PeerSessionPool) (o : pool_op) : list QuicConnection :=
  match o with
  | OpAdmit i _ _ _ => match in_connection i with Some c => [c] | None => [] end
  | OpConnect peer (Ok c) _ _ => match ensure_capacity_for peer p with Ok _ => [c] | Err _ => [] end
  | _ => []
  end.
Definition pool_step (s : PeerSessionPool * list QuicConnection) (o : pool_op) : PeerSessionPool * list QuicConnection :=
  let '(p, l) := s in
  match o with
  | OpAdmit i peer endpoint now => (admit_inbound i peer endpoint now p l).1
  | OpConnect peer connected endpoint now => (connect_outbound peer connected endpoint now p l).1
  | OpRemove peer => (pool_remove peer p l).1
  | OpTick now profile => ((maintenance_tick now profile p).1, l)
  | OpFailure peer cancelled failure now jitter =>
    ((note_transport_failure peer cancelled failure now jitter p).1, l)
  end.
Fixpoint pool_run (s : PeerSessionPool * list QuicConnection) (ops : list pool_op)
    : PeerSessionPool * list QuicConnection * list QuicConnection :=
  match ops with
  | [] => (s, [])
  | o :: ops => let '(s', given) := pool_run (pool_step s o) ops in (s', handed s.1 o ++ given)
  end.

(** ** The invariant *)

Definition held (p : PeerSessionPool) : list QuicConnection :=
  (fun e => ph_connection e.2) <$> map_to_list (pool_sessions p).

Record pool_ok (cfg : LinkEndpointConfig) (p : PeerSessionPool) : Prop := {
  po_config : pool_config p = cfg;
  po_bound : card (pool_sessions p) <= ec_max_peers cfg;
  po_keys k h : pool_sessions p !! k = Some h -> ph_peer_id h = k;
}.

Lemma held_insert p k h :
  pool_sessions p !! k = None ->
  held (with_sessions p (<[k := h]> (pool_sessions p))) ≡ₚ ph_connection h :: held p.
Proof. intros Hk. unfold held. cbn. by rewrite map_to_list_insert. Qed.
Lemma held_delete p k h :
  pool_sessions p !! k = Some h ->
  held p ≡ₚ ph_connection h :: held (with_sessions p (delete k (pool_sessions p))).
Proof. intros Hk. unfold held. cbn. by rewrite <- (map_to_list_delete (pool_sessions p) k h). Qed.

(** A session that is changed keeps its connection. *)
Lemma held_update p k h h' :
  pool_sessions p !! k = Some h -> ph_connection h' = ph_connection h ->
  held (with_sessions p (<[k := h']> (pool_sessions p))) ≡ₚ held p.
Proof.
  intros Hk Hc. rewrite (held_delete p k h Hk), <- Hc. unfold held at 1. cbn.
  rewrite <- insert_delete_eq. by rewrite map_to_list_insert by apply lookup_delete_eq.
Qed.

Lemma abort_new (c : QuicConnection) l : c ∉ l -> abort_connection c l = l ++ [c].
Proof. intros. unfold abort_connection. by rewrite bool_decide_eq_false_2. Qed.

Lemma handle_new_ok cfg peer endpoint addr c now :
  endpoint_config_validate cfg = Ok () ->
  exists h, handle_new peer endpoint addr c (ec_heartbeat cfg) (ec_reconnect cfg) now = Ok h
    /\ ph_peer_id h = peer /\ ph_connection h = c.
Proof.
  intros Hv. unfold endpoint_config_validate in Hv. inv_ok.
  unfold handle_new, heartbeat_new, reconnect_new. rewrite !reject_pass by done. cbn. by eexists.
Qed.

Lemma update_ok cfg p k h h' :
  pool_ok cfg p -> pool_sessions p !! k = Some h -> ph_peer_id h' = ph_peer_id h ->
  pool_ok cfg (with_sessions p (<[k := h']> (pool_sessions p))).
Proof.
  intros [Hc Hb Hk] Hh Hp. split; [done| |].
  - cbn. rewrite map_size_insert_Some by (by rewrite Hh). done.
  - cbn. intros k' h'' [[<- <-]|[_ ?]]%lookup_insert_Some; [rewrite Hp|]; by apply Hk.
Qed.

(** ** Every operation keeps the connections *)

Lemma ensure_capacity_ok peer p :
  ensure_capacity_for peer p = Ok () <->
  match pool_sessions p !! peer with
  | Some _ => ec_duplicate_peer (pool_config p) = ReplaceExisting
  | None => card (pool_sessions p) < ec_max_peers (pool_config p)
  end.
Proof.
  unfold ensure_capacity_for. destruct (pool_sessions p !! peer).
  - by destruct (ec_duplicate_peer _).
  - destruct (N.leb_spec (ec_max_peers (pool_config p)) (card (pool_sessions p))); cbn; split; (done || lia).
Qed.

(** What [insert_session] does when there is room. *)
Lemma insert_session_room cfg peer endpoint addr c now p l :
  endpoint_config_validate cfg = Ok () -> pool_ok cfg p -> ensure_capacity_for peer p = Ok () ->
  exists h, ph_peer_id h = peer /\ ph_connection h = c
    /\ insert_session peer endpoint addr c now p l
       = (with_sessions p (<[peer := h]> (pool_sessions p)),
          match pool_sessions p !! peer with Some h0 => disconnect h0 l | None => l end, Ok ()).
Proof.
  intros Hv [Hc _ _] Hr. unfold insert_session. rewrite Hr.
  destruct (handle_new_ok (pool_config p) peer endpoint addr c now) as (h & Hh & ? & ?); [by rewrite Hc|].
  exists h. split_and!; [done..|]. destruct (pool_sessions p !! peer) as [h0|]; cbn; rewrite Hh; [|done].
  cbn. unfold with_sessions. cbn. by rewrite insert_delete_eq.
Qed.

Lemma insert_session_kept cfg peer endpoint addr c now p l :
  endpoint_config_validate cfg = Ok () -> pool_ok cfg p -> NoDup (c :: held p ++ l) ->
  let '(p', l', _) := insert_session peer endpoint addr c now p l in
  pool_ok cfg p' /\ held p' ++ l' ≡ₚ c :: held p ++ l.
Proof.
  intros Hv Hp Hnd. apply NoDup_cons in Hnd as [Hc Hnd]. apply not_elem_of_app in Hc as [Hch Hcl].
  destruct (ensure_capacity_for peer p) as [[]|e] eqn:Hr.
  2:{ unfold insert_session. rewrite Hr. split; [done|]. rewrite abort_new by done. solve_Permutation. }
  destruct (insert_session_room cfg peer endpoint addr c now p l Hv Hp Hr) as (h & Hid & Hcn & ->).
  apply ensure_capacity_ok in Hr. destruct (pool_sessions p !! peer) as [h0|] eqn:Hpeer.
  - assert (ph_connection h0 ∉ l) as Hn.
    { rewrite (held_delete p peer h0 Hpeer) in Hnd. cbn in Hnd. apply NoDup_cons in Hnd as [Hn _].
      by apply not_elem_of_app in Hn as [_ Hn]. }
    split; [eapply update_ok; [done..|]; rewrite Hid; symmetry; by eapply (po_keys _ _ Hp)|].
    unfold disconnect. rewrite abort_new by done. rewrite <- insert_delete_eq.
    change (with_sessions p (<[peer := h]> (delete peer (pool_sessions p))))
      with (with_sessions (with_sessions p (delete peer (pool_sessions p)))
              (<[peer := h]> (pool_sessions (with_sessions p (delete peer (pool_sessions p)))))).
    rewrite held_insert by apply lookup_delete_eq. rewrite (held_delete p peer h0 Hpeer), Hcn. solve_Permutation.
  - destruct Hp as [Hcf Hb Hk]. split; [|rewrite held_insert by done; by rewrite Hcn].
    split; [done| |]; cbn.
    + rewrite map_size_insert_None by done. rewrite Hcf in Hr. lia.
    + intros k' h' [[<- <-]|[_ ?]]%lookup_insert_Some; [done|by apply Hk].
Qed.

Lemma tick_peers_kept cfg peers now profile p :
  pool_ok cfg p ->
  pool_ok cfg (tick_peers peers now profile p).1 /\ held (tick_peers peers now profile p).1 ≡ₚ held p.
Proof.
  revert p. induction peers as [|peer peers IH]; intros p Hp; cbn; [done|].
  destruct (pool_sessions p !! peer) as [h|] eqn:Hh; [|by apply IH].
  unfold tick_heartbeat. destruct (tick _ _ _) as [hb a].
  destruct (IH (with_sessions p (<[peer := with_heartbeat h hb]> (pool_sessions p)))) as [Hok Hheld];
    [by eapply update_ok|].
  destruct (tick_peers peers now profile _) as [p' evs]. cbn in *. split; [done|].
  rewrite Hheld. by eapply held_update.
Qed.

Lemma pool_step_kept cfg p l o :
  endpoint_config_validate cfg = Ok () -> pool_ok cfg p -> NoDup (handed p o ++ held p ++ l) ->
  let '(p', l') := pool_step (p, l) o in
  pool_ok cfg p' /\ held p' ++ l' ≡ₚ handed p o ++ held p ++ l.
Proof.
  intros Hv Hp Hnd. destruct o as [i peer ep now|peer r ep now|peer|now profile|peer b f now j]; cbn in *.
  - unfold admit_inbound. destruct (in_connection i) as [c|]; [|done]. cbn in *.
    pose proof (insert_session_kept cfg peer ep (in_remote_addr i) c now p l Hv Hp Hnd) as Hk.
    by destruct (insert_session _ _ _ _ _ _ _) as [[p' l'] r].
  - unfold connect_outbound. destruct (ensure_capacity_for peer p) as [u|e], r as [c|e']; try done. cbn in *.
    pose proof (insert_session_kept cfg peer ep (remote_address c) c now p l Hv Hp Hnd) as Hk.
    by destruct (insert_session _ _ _ _ _ _ _) as [[p' l'] r].
  - unfold pool_remove. destruct (pool_sessions p !! peer) as [h|] eqn:Hh; [|done]. cbn.
    rewrite (held_delete p peer h Hh) in Hnd |- *. cbn in Hnd. apply NoDup_cons in Hnd as [Hn _].
    apply not_elem_of_app in Hn as [_ Hn]. unfold disconnect. rewrite abort_new by done.
    split; [|solve_Permutation]. destruct Hp as [Hc Hb Hk]. split; [done| |]; cbn.
    + rewrite map_size_delete_Some by done. lia.
    + intros k h' [_ ?]%lookup_delete_Some. by apply Hk.
  - unfold maintenance_tick. destruct (tick_peers_kept cfg (btree_iter (pool_sessions p)).*1 now profile p Hp)
      as [? Hh]. split; [done|]. by rewrite Hh.
  - unfold note_transport_failure. destruct (pool_sessions p !! peer) as [h|] eqn:Hh; [|done].
    unfold after_transport_failure. destruct (after_failure _ _ _ _ _) as [rc a]. cbn.
    split; [by eapply update_ok|]. by rewrite held_update.
Qed.

Lemma pool_run_kept cfg ops p l :
  endpoint_config_validate cfg = Ok () -> pool_ok cfg p ->
  let '(p', l', given) := pool_run (p, l) ops in
  NoDup (given ++ held p ++ l) -> pool_ok cfg p' /\ held p' ++ l' ≡ₚ given ++ held p ++ l.
Proof.
  intros Hv. revert p l. induction ops as [|o ops IH]; intros p l Hp; cbn [pool_run fst]; [done|].
  pose proof (pool_step_kept cfg p l o Hv Hp) as Hs. destruct (pool_step (p, l) o) as [p1 l1].
  assert (pool_ok cfg p1 -> let '(p', l', given) := pool_run (p1, l1) ops in
            NoDup (given ++ held p1 ++ l1) -> pool_ok cfg p' /\ held p' ++ l' ≡ₚ given ++ held p1 ++ l1) as IH'
    by apply IH.
  destruct (pool_run (p1, l1) ops) as [[p' l'] given]. intros Hnd.
  assert (NoDup (given ++ handed p o ++ held p ++ l)) as Hnd'.
  { assert (given ++ handed p o ++ held p ++ l ≡ₚ (handed p o ++ given) ++ held p ++ l) as ->;
      [solve_Permutation|done]. }
  pose proof Hnd' as (_ & _ & Hnd1)%NoDup_app. destruct (Hs Hnd1) as [Hp1 Hh1].
  destruct (IH' Hp1) as [Hp' Hh']; [by rewrite Hh1|]. split; [done|]. rewrite Hh', Hh1. solve_Permutation.
Qed.
End pool_facts.

(** C37: The pool never loses a connection.  After any operations on a pool
    that was bound, with connections that are all different, there are at most
    [max_peers] sessions, each under its own peer, and every connection the
    pool was ever given is in exactly one place: held by one session, or
    aborted once.  A further connection is accepted for a peer exactly when the
    peer has none and there is room, or has one and the policy is to replace
    it; then it is that peer's, what it replaces is aborted, and no other
    peer's session is touched; otherwise it is aborted and nothing changes. *)
Theorem pool_conserves `{PoolTransport} listener connector cfg p0 ops :
  pool_bind listener connector cfg = Ok p0 ->
  let '(p, l, given) := pool_run (p0, []) ops in
  NoDup given ->
  card (pool_sessions p) <= ec_max_peers cfg
  /\ (forall k h, pool_sessions p !! k = Some h -> ph_peer_id h = k)
  /\ held p ++ l ≡ₚ given
  /\ forall peer endpoint addr c now,
     let '(p', l', r) := insert_session peer endpoint addr c now p l in
     if match pool_sessions p !! peer with
        | Some _ => bool_decide (ec_duplicate_peer cfg = ReplaceExisting)
        | None => card (pool_sessions p) <? ec_max_peers cfg
        end
     then r = Ok ()
       /\ (exists h, ph_connection h = c /\ pool_sessions p' = <[peer := h]> (pool_sessions p))
       /\ l' = match pool_sessions p !! peer with Some h => abort_connection (ph_connection h) l | None => l end
     else r <> Ok () /\ p' = p /\ l' = abort_connection c l.
Proof.
  intros Hb. unfold pool_bind in Hb. inv_ok.
  pose proof (pool_run_kept cfg ops (mkPool cfg ∅ 1) [] Hb0) as Hrun.
  destruct (pool_run _ ops) as [[p l] given]. intros Hnd. destruct Hrun as [Hp Hh].
  - split; cbn [pool_sessions]; [done|rewrite map_size_empty; lia|]. intros k h Hk. by rewrite lookup_empty in Hk.
  - unfold held. cbn. by rewrite map_to_list_empty, app_nil_r.
  - pose proof Hp as [Hc Hbd Hk]. split_and!; [done..| |].
    { rewrite Hh. unfold held. cbn. by rewrite map_to_list_empty, app_nil_r. }
    intros peer ep addr c now. pose proof (ensure_capacity_ok peer p) as Hcap. rewrite Hc in Hcap.
    match goal with |- let '(_, _) := ?x in _ => destruct x as [[p' l'] r] eqn:Hins end.
    assert (forall b : bool, (b = true <-> ensure_capacity_for peer p = Ok ()) ->
      if b then r = Ok ()
         /\ (exists h, ph_connection h = c /\ pool_sessions p' = <[peer := h]> (pool_sessions p))
         /\ l' = match pool_sessions p !! peer with
                 | Some h => abort_connection (ph_connection h) l | None => l end
      else r <> Ok () /\ p' = p /\ l' = abort_connection c l) as Hgo.
    { intros [] Hiff.
      - destruct (insert_session_room cfg peer ep addr c now p l Hb0 Hp (proj1 Hiff eq_refl))
          as (h & _ & Hcn & Heq). rewrite Heq in Hins. simplify_eq. split_and!; [done| |done].
        by exists h.
      - unfold insert_session in Hins. destruct (ensure_capacity_for peer p) as [[]|e]; [|by simplify_eq].
        by destruct Hiff as [_ Hiff]; specialize (Hiff eq_refl). }
    apply Hgo. rewrite Hcap. destruct (pool_sessions p !! peer); [apply bool_decide_eq_true|apply N.ltb_lt].
Qed.

(** ** Witness *)

Section pool_witness.
#[local] Instance numbered_transport : PoolTransport := {|
  QuicConnection := N; SocketAddr := N; QuicOptions := (); remote_address c := c;
|}.
Definition sample_endpoint : LinkEndpointConfig :=
  mkEndpointConfig (id_of EndpointKind 1) 0 () default_heartbeat_policy PolicyDisabled 1 ReplaceExisting
    (str "localhost") 10000.
Definition sample_pool_ops : list pool_op :=
  [OpConnect (id_of PeerKind 1) (Ok 10) (id_of EndpointKind 2) 0;
   OpConnect (id_of PeerKind 2) (Ok 20) (id_of EndpointKind 2) 0;
   OpConnect (id_of PeerKind 1) (Ok 11) (id_of EndpointKind 2) 5;
   OpTick 60000 Active;
   OpAdmit (mkInbound (id_of ConnectionKind 1) 30 (id_of EndpointKind 3) (Some 30)) (id_of PeerKind 3)
     (id_of EndpointKind 3) 7].

Lemma pool_conserves_witness :
  exists p0 p, pool_bind (Ok ()) (Ok ()) sample_endpoint = Ok p0
    /\ pool_run (p0, []) sample_pool_ops = (p, [10; 30], [10; 11; 30])
    /\ held p ++ [10; 30] ≡ₚ [10; 11; 30].
Proof.
  set (p0 := mkPool sample_endpoint ∅ 1). set (p := (pool_run (p0, []) sample_pool_ops).1.1).
  assert (pool_run (p0, []) sample_pool_ops = (p, [10; 30], [10; 11; 30])) as Hrun by (vm_compute; reflexivity).
  pose proof (pool_conserves (Ok ()) (Ok ()) sample_endpoint p0 sample_pool_ops eq_refl) as Hc.
  rewrite Hrun in Hc. destruct Hc as (_ & _ & Hp & _); [apply (bool_decide_unpack _); vm_compute; exact I|].
  exists p0, p. split_and!; [reflexivity|exact Hrun|exact Hp].
Defined.
End pool_witness.
