(* ===== verification/Discovery.v ===== *)
(** * Discovery of endpoint candidates

    Models [mutsuki-link-discovery]: the attempt limiter and manual discovery.
    What discovery finds are untrusted candidates.  The mDNS provider is in
    [Mdns].  Instants are points of a monotonic clock. *)

From S2P Require Export Security Selection.
Local Open Scope N_scope.

Record DiscoveryId := mkDiscoveryId { discovery_bytes : vec byte 16 }.
#[export] Instance DiscoveryId_eq_dec : EqDecision DiscoveryId.
Proof. solve_decision. Defined.
#[export] Instance DiscoveryId_countable : Countable DiscoveryId.
Proof. by refine (inj_countable' discovery_bytes mkDiscoveryId _); intros []. Defined.
Definition discovery_key (i : DiscoveryId) : list byte := vec_to_list (discovery_bytes i).
#[export] Instance discovery_key_inj : Inj (=) (=) discovery_key.
Proof. intros [] [] H%vec_to_list_inj2. cbn in H. by subst. Qed.
#[export] Instance DiscoveryId_order : KeyOrder DiscoveryId := bytes_key_order discovery_key.

Record DiscoveredEndpoint := mkDiscoveredEndpoint {
  de_address : EndpointAddress;
  de_priority : N;
  advertised_security : SecurityLevel;
}.
Record DiscoveredPeer := mkDiscoveredPeer {
  dp_discovery_id : DiscoveryId;
  dp_service_type : list byte;
  dp_endpoints : list DiscoveredEndpoint;
  dp_expires_at : N;
}.
Inductive DiscoveryEvent :=
| DeFound (p : DiscoveredPeer)
| DeExpired (id : DiscoveryId)
| DeStopped.
Record DiscoveryRequest := mkDiscoveryRequest {
  dr_service_type : list byte;
  max_results_per_poll : N;
}.
Inductive DiscoveryErrorKind :=
| DiInvalidInput | DiRateLimited | AlreadyRunning | NotRunning | ProviderFailure.
Record DiscoveryError := mkDiscoveryError { di_kind : DiscoveryErrorKind; di_message : string }.

Definition discovery_validate_request (r : DiscoveryRequest) : result DiscoveryError () :=
  reject bool_decide (dr_service_type r = []) || (max_results_per_poll r =? 0)
    with mkDiscoveryError DiInvalidInput "discovery request is invalid";
  Ok ().

(** ** The attempt limiter *)

Record RateLimit := mkLimit {
  li_attempts : N;
  li_window : N;
  li_max_sources : N;
  li_max_candidates : N;
}.
Record AttemptRateLimiter := mkAttemptLimiter {
  al_limit : RateLimit;
  al_attempts : gmap (list byte) (list N);
}.
Definition attempt_limiter_new (l : RateLimit) : result DiscoveryError AttemptRateLimiter :=
  reject (li_attempts l =? 0) || (li_window l =? 0) || (li_max_sources l =? 0)
         || (li_max_candidates l =? 0)
    with mkDiscoveryError DiInvalidInput "rate limit must be positive";
  Ok (mkAttemptLimiter l ∅).

(** [attempts.back()] within the window, and the loop over the front. *)
Definition recent_attempt (window now : N) (entries : list N) : bool :=
  match last entries with Some t => now - t <? window | None => false end.
Fixpoint drop_old_attempts (window now : N) (entries : list N) : list N :=
  match entries with
  | t :: rest => if window <=? now - t then drop_old_attempts window now rest else entries
  | [] => []
  end.
Definition allow (source : list byte) (now : N) (l : AttemptRateLimiter) : AttemptRateLimiter * bool :=
  let limit := al_limit l in
  let m := filter (fun e => recent_attempt (li_window limit) now e.2 = true) (al_attempts l) in
  if bool_decide (m !! source = None) && (li_max_sources limit <=? card m)
  then (mkAttemptLimiter limit m, false)
  else
    let entries := drop_old_attempts (li_window limit) now (default [] (m !! source)) in
    if li_attempts limit <=? len entries
    then (mkAttemptLimiter limit (<[source := entries]> m), false)
    else (mkAttemptLimiter limit (<[source := entries ++ [now]]> m), true).

(** ** Manual discovery *)

Record ManualDiscovery := mkManual {
  md_request : option DiscoveryRequest;
  md_pending : list DiscoveryEvent;
  md_active : gmap DiscoveryId N;
  md_limiter : AttemptRateLimiter;
}.
Definition manual_new (l : RateLimit) : result DiscoveryError ManualDiscovery :=
  limiter ← attempt_limiter_new l; Ok (mkManual None [] ∅ limiter).
Definition not_running : DiscoveryError :=
  mkDiscoveryError NotRunning "manual discovery is not running".

(** Whether an event announces [id]. *)
Definition announces (id : DiscoveryId) (e : DiscoveryEvent) : bool :=
  match e with DeFound p => bool_decide (dp_discovery_id p = id) | _ => false end.
Definition retain_pending (id : DiscoveryId) (l : list DiscoveryEvent) : list DiscoveryEvent :=
  List.filter (fun e => negb (announces id e)) l.

(** [add_address]; [None] when the instant of expiry overflows, which panics
    after the limiter has counted the attempt. *)
Definition add_address (source : list byte) (id : DiscoveryId) (endpoint : DiscoveredEndpoint)
    (ttl now : N) (d : ManualDiscovery) : ManualDiscovery * option (result DiscoveryError ()) :=
  match md_request d with
  | None => (d, Some (Err not_running))
  | Some request =>
    let at_capacity := bool_decide (md_active d !! id = None)
      && (li_max_candidates (al_limit (md_limiter d)) <=? card (md_active d)) in
    let refused := mkDiscoveryError (if ttl =? 0 then DiInvalidInput else DiRateLimited)
                     "manual discovery candidate was rejected" in
    if (ttl =? 0) || at_capacity then (d, Some (Err refused))
    else
      let '(limiter, allowed) := allow source now (md_limiter d) in
      if negb allowed
      then (mkManual (md_request d) (md_pending d) (md_active d) limiter, Some (Err refused))
      else
        match instant_add now ttl with
        | None => (mkManual (md_request d) (md_pending d) (md_active d) limiter, None)
        | Some expires_at =>
          (mkManual (md_request d)
             (retain_pending id (md_pending d)
              ++ [DeFound (mkDiscoveredPeer id (dr_service_type request) [endpoint] expires_at)])
             (<[id := expires_at]> (md_active d)) limiter, Some (Ok ()))
        end
  end.

Definition manual_start (r : DiscoveryRequest) (d : ManualDiscovery)
    : ManualDiscovery * result DiscoveryError () :=
  match md_request d with
  | Some _ =>
    (d, Err (mkDiscoveryError AlreadyRunning "manual discovery is already running"))
  | None =>
    match discovery_validate_request r with
    | Err e => (d, Err e)
    | Ok _ => (mkManual (Some r) (md_pending d) (md_active d) (md_limiter d), Ok ())
    end
  end.

(** The candidates to expire first, and the loop that expires them. *)
Definition expired_ids (now limit : N) (active : gmap DiscoveryId N) : list DiscoveryId :=
  take (N.to_nat limit) (List.filter (fun e => e.2 <=? now) (btree_iter active)).*1.
Fixpoint expire_ids (ids : list DiscoveryId) (pending : list DiscoveryEvent)
    (active : gmap DiscoveryId N) : list DiscoveryEvent * gmap DiscoveryId N :=
  match ids with
  | [] => (pending, active)
  | id :: ids => expire_ids ids (retain_pending id pending) (delete id active)
  end.
(** The loop over the pending events, for at most [room] more. *)
Fixpoint take_pending (room : nat) (now : N) (pending : list DiscoveryEvent)
    (active : gmap DiscoveryId N)
    : list DiscoveryEvent * gmap DiscoveryId N * list DiscoveryEvent :=
  match room, pending with
  | S room, e :: pending =>
    let '(active, e) :=
      match e with
      | DeFound p =>
        if dp_expires_at p <=? now
        then (delete (dp_discovery_id p) active, DeExpired (dp_discovery_id p))
        else (active, e)
      | _ => (active, e)
      end in
    let '(pending, active, events) := take_pending room now pending active in
    (pending, active, e :: events)
  | _, _ => (pending, active, [])
  end.

Definition manual_poll (now : N) (d : ManualDiscovery)
    : ManualDiscovery * result DiscoveryError (list DiscoveryEvent) :=
  match md_request d with
  | None => (d, Err not_running)
  | Some request =>
    let expired := expired_ids now (max_results_per_poll request) (md_active d) in
    let '(pending, active) := expire_ids expired (md_pending d) (md_active d) in
    let '(pending, active, events) :=
      take_pending (N.to_nat (max_results_per_poll request) - length expired) now pending active in
    (mkManual (md_request d) pending active (md_limiter d), Ok ((DeExpired <$> expired) ++ events))
  end.

Definition manual_stop (d : ManualDiscovery) : ManualDiscovery * result DiscoveryError () :=
  match md_request d with
  | None => (d, Err not_running)
  | Some _ => (mkManual None [] ∅ (md_limiter d), Ok ())
  end.
