(* ===== verification/DiscoveryFacts.v ===== *)
(** * Manual discovery announces live candidates, bounded, and forgets the rest *)

From S2P Require Export Discovery.
Local Open Scope N_scope.

(** The candidate an event is about. *)
Definition event_id (e : DiscoveryEvent) : option DiscoveryId :=
  match e with DeFound p => Some (dp_discovery_id p) | DeExpired id => Some id | DeStopped => None end.

(** A pending event announces an active candidate, with its expiry. *)
Definition announced (service : list byte) (active : gmap DiscoveryId N) (e : DiscoveryEvent) : Prop :=
  exists p, e = DeFound p /\ active !! dp_discovery_id p = Some (dp_expires_at p)
            /\ dp_service_type p = service.
Record pending_ok (service : list byte) (active : gmap DiscoveryId N) (l : list DiscoveryEvent) : Prop := {
  pe_announced : Forall (announced service active) l;
  pe_distinct : NoDup (event_id <$> l);
}.

(** ** Expiring *)

Lemma elem_of_retain id l e : e ∈ retain_pending id l <-> e ∈ l /\ announces id e = false.
Proof.
  unfold retain_pending. rewrite list_elem_of_In, filter_In, <- list_elem_of_In. by rewrite negb_true_iff.
Qed.
Lemma retain_sublist id l : retain_pending id l `sublist_of` l.
Proof.
  unfold retain_pending. induction l as [|e l IH]; cbn; [constructor|]. destruct (negb _); by constructor.
Qed.
Lemma announces_found id p : announces id (DeFound p) = bool_decide (dp_discovery_id p = id).
Proof. done. Qed.

Lemma retain_ok service id l active :
  pending_ok service active l -> pending_ok service (delete id active) (retain_pending id l).
Proof.
  intros [Ha Hd]. split.
  - apply Forall_forall. intros e [He Hn]%elem_of_retain. rewrite Forall_forall in Ha.
    destruct (Ha _ He) as (p & -> & Hp & Hs). rewrite announces_found in Hn. guards.
    exists p. by rewrite lookup_delete_ne.
  - eapply sublist_NoDup; [exact Hd|]. apply (fmap_sublist event_id), retain_sublist.
Qed.

Lemma expire_ids_ok service ids l active :
  pending_ok service active l ->
  let '(l', active') := expire_ids ids l active in
  pending_ok service active' l'
  /\ forall k, active' !! k = if decide (k ∈ ids) then None else active !! k.
Proof.
  revert l active. induction ids as [|id ids IH]; intros l active Hl; cbn.
  - split; [done|]. intros k. by rewrite decide_False by (by apply not_elem_of_nil).
  - specialize (IH _ _ (retain_ok _ id _ _ Hl)). destruct (expire_ids ids _ _) as [l' active'].
    destruct IH as [Hok Ha]. split; [done|]. intros k. rewrite Ha, lookup_delete.
    repeat case_decide; set_solver.
Qed.

(** ** Announcing *)

(** What an event of a poll at [now] says of the candidates before and after. *)
Definition event_ok (service : list byte) (now : N) (before after : gmap DiscoveryId N)
    (e : DiscoveryEvent) : Prop :=
  match e with
  | DeFound p => now < dp_expires_at p /\ after !! dp_discovery_id p = Some (dp_expires_at p)
                 /\ dp_service_type p = service
  | DeExpired id => (exists t, before !! id = Some t /\ t <= now) /\ after !! id = None
  | DeStopped => False
  end.

Lemma take_pending_ok service room now l active :
  pending_ok service active l ->
  let '(l', active', events) := take_pending room now l active in
  pending_ok service active' l'
  /\ event_id <$> (events ++ l') = event_id <$> l
  /\ (length events <= room)%nat
  /\ Forall (event_ok service now active active') events
  /\ (forall k t, active !! k = Some t -> active' !! k = Some t \/ DeExpired k ∈ events)
  /\ (forall k t, active' !! k = Some t -> active !! k = Some t)
  /\ ((length events < room)%nat -> l' = []).
Proof.
  revert l active. induction room as [|room IH]; intros [|e l] active Hl.
  1-3: cbn; split_and!; try done; try lia; try (by constructor); by left.
  pose proof Hl as [Ha Hd]. cbn in Hd. apply NoDup_cons in Hd as [Hn Hd].
  inversion Ha as [|? ? (p & -> & Hp & Hs) Hrest]; subst. cbn [take_pending event_id] in *.
  destruct (N.leb_spec (dp_expires_at p) now) as [Hx|Hx].
  - assert (pending_ok (dp_service_type p) (delete (dp_discovery_id p) active) l) as Hl'.
    { split; [|done]. apply Forall_forall. intros e He. rewrite Forall_forall in Hrest.
      destruct (Hrest _ He) as (q & -> & Hq & Hqs). exists q. split; [done|]. rewrite lookup_delete_ne; [done|].
      intros Heq. apply Hn. apply list_elem_of_fmap. exists (DeFound q). cbn. by rewrite Heq. }
    specialize (IH _ _ Hl'). destruct (take_pending room now l _) as [[l' active'] events].
    destruct IH as (Hok & Hid & Hlen & Hev & Hkeep & Hsub & Hend).
    assert (active' !! dp_discovery_id p = None) as Hgone.
    { destruct (active' !! dp_discovery_id p) eqn:Hx'; [|done]. apply Hsub in Hx'.
      by rewrite lookup_delete_eq in Hx'. }
    split_and!; [done|cbn; by f_equal|cbn; lia| | | |cbn; intros; apply Hend; lia].
    + constructor; [split; [by eexists|done]|]. eapply Forall_impl; [exact Hev|].
      intros [q|id|]; cbn; [done| |done]. intros [(t & Ht & ?) ?]. apply lookup_delete_Some in Ht as [_ Ht]. eauto.
    + intros k t Hk. destruct (decide (k = dp_discovery_id p)) as [->|Hne]; [right; by apply elem_of_cons; left|].
      destruct (Hkeep k t) as [?|?]; [by rewrite lookup_delete_ne|by left|right; by apply elem_of_cons; right].
    + intros k t Hk. apply Hsub in Hk. by apply lookup_delete_Some in Hk as [_ ?].
  - assert (pending_ok (dp_service_type p) active l) as Hl' by (by split).
    specialize (IH _ _ Hl'). destruct (take_pending room now l active) as [[l' active'] events].
    destruct IH as (Hok & Hid & Hlen & Hev & Hkeep & Hsub & Hend).
    split_and!; [done|cbn; by f_equal|cbn; lia| | |done|cbn; intros; apply Hend; lia].
    + constructor; [|done]. split_and!; [done| |done]. destruct (Hkeep _ _ Hp) as [?|Hin]; [done|].
      exfalso. apply Hn. rewrite <- Hid, fmap_app. apply elem_of_app. left.
      apply list_elem_of_fmap. by exists (DeExpired (dp_discovery_id p)).
    + intros k t Hk. destruct (Hkeep k t Hk); [by left|right; by apply elem_of_cons; right].
Qed.

(** ** Runs *)

Inductive manual_op :=
| MStart (r : DiscoveryRequest)
| MAdd (source : list byte) (id : DiscoveryId) (endpoint : DiscoveredEndpoint) (ttl now : N)
| MPoll (now : N)
| MStop.
Definition manual_step (d : ManualDiscovery) (o : manual_op) : ManualDiscovery :=
  match o with
  | MStart r => (manual_start r d).1
  | MAdd source id endpoint ttl now => (add_address source id endpoint ttl now d).1
  | MPoll now => (manual_poll now d).1
  | MStop => (manual_stop d).1
  end.

Record manual_ok (limit : RateLimit) (d : ManualDiscovery) : Prop := {
  mo_limit : al_limit (md_limiter d) = limit;
  mo_bound : card (md_active d) <= li_max_candidates limit;
  mo_state : match md_request d with
             | Some r => pending_ok (dr_service_type r) (md_active d) (md_pending d)
             | None => md_pending d = [] /\ md_active d = ∅
             end;
}.

Lemma allow_limit source now l : al_limit (allow source now l).1 = al_limit l.
Proof. unfold allow. by repeat case_match. Qed.

Lemma pending_add service active l id endpoint expires :
  pending_ok service active l ->
  pending_ok service (<[id := expires]> active)
    (retain_pending id l ++ [DeFound (mkDiscoveredPeer id service [endpoint] expires)]).
Proof.
  intros Hl. destruct (retain_ok _ id _ _ Hl) as [Ha Hd]. split.
  - apply Forall_app. split.
    + eapply Forall_impl; [exact Ha|]. intros e (p & -> & [Hne Hp]%lookup_delete_Some & Hs).
      exists p. by rewrite lookup_insert_ne.
    + constructor; [|constructor]. eexists. split; [done|]. cbn. by rewrite lookup_insert_eq.
  - rewrite fmap_app. apply NoDup_app. split_and!; [done| |apply NoDup_singleton].
    intros x (e & -> & He)%list_elem_of_fmap Hx%list_elem_of_singleton. cbn in Hx.
    apply elem_of_retain in He as [He Hn]. destruct Hl as [Hann _]. rewrite Forall_forall in Hann.
    destruct (Hann _ He) as (p & -> & _). cbn in *. guards. congruence.
Qed.

(** The candidates expired first are active and past their expiry; when fewer
    than the limit are, they are all of those. *)
Lemma expired_ids_ok now limit active :
  (forall k, k ∈ expired_ids now limit active -> exists t, active !! k = Some t /\ t <= now)
  /\ len (expired_ids now limit active) <= limit
  /\ (len (expired_ids now limit active) < limit ->
      forall k t, active !! k = Some t -> t <= now -> k ∈ expired_ids now limit active).
Proof.
  unfold expired_ids. set (l := (List.filter (fun e => e.2 <=? now) (btree_iter active)).*1).
  assert (forall k, k ∈ l <-> exists t, active !! k = Some t /\ t <= now) as Hl.
  { intros k. unfold l. rewrite list_elem_of_fmap. split.
    - intros ([k' t] & -> & [Hk Ht]%list_elem_of_In%filter_In).
      apply list_elem_of_In, elem_of_btree_iter in Hk. exists t. cbn in *. split; [done|]. by apply N.leb_le.
    - intros (t & Hk & Ht). exists (k, t). split; [done|]. apply list_elem_of_In, filter_In.
      split; [by apply list_elem_of_In, elem_of_btree_iter|by apply N.leb_le]. }
  clearbody l. split_and!.
  - intros k Hk%subseteq_take. by apply Hl.
  - rewrite length_take. lia.
  - rewrite length_take. intros Hn k t Hk Ht. rewrite take_ge by lia. apply Hl. eauto.
Qed.

Lemma event_ok_before service now before before' after e :
  (forall k t, before' !! k = Some t -> before !! k = Some t) ->
  event_ok service now before' after e -> event_ok service now before after e.
Proof. intros Hsub. destruct e; cbn; [done| |done]. intros [(t & Ht & ?) ?]. eauto. Qed.

(** What a poll of a well-formed provider does. *)
Lemma manual_poll_ok limit d r now :
  manual_ok limit d -> md_request d = Some r ->
  let '(d', res) := manual_poll now d in
  manual_ok limit d' /\ md_request d' = Some r
  /\ exists events, res = Ok events /\ len events <= max_results_per_poll r
    /\ Forall (event_ok (dr_service_type r) now (md_active d) (md_active d')) events
    /\ (len events < max_results_per_poll r ->
        md_pending d' = [] /\ forall k t, md_active d' !! k = Some t -> now < t).
Proof.
  intros [Hlim Hb Hst] Hr. rewrite Hr in Hst. unfold manual_poll. rewrite Hr.
  destruct (expired_ids_ok now (max_results_per_poll r) (md_active d)) as (Hids & Hlen & Hall).
  set (ids := expired_ids _ _ _) in *. clearbody ids.
  pose proof (expire_ids_ok _ ids _ _ Hst) as He. destruct (expire_ids ids _ _) as [l1 a1].
  destruct He as [Hl1 Ha1].
  pose proof (take_pending_ok _ (N.to_nat (max_results_per_poll r) - length ids) now _ _ Hl1) as Ht.
  destruct (take_pending _ now l1 a1) as [[l2 a2] events].
  destruct Ht as (Hl2 & _ & Hroom & Hev & _ & Hsub & Hend).
  assert (forall k t, a1 !! k = Some t -> md_active d !! k = Some t) as Hsub1.
  { intros k t. rewrite Ha1. by case_decide. }
  split; [|split; [done|]].
  { split; cbn; [done| |by rewrite ?Hr]. etrans; [|exact Hb].
    assert (a2 ⊆ md_active d) as Hss by (apply map_subseteq_spec; intros k t ?; by apply Hsub1, Hsub).
    apply map_size_subseteq in Hss || apply map_subseteq_size in Hss. lia. }
  eexists. split; [done|]. rewrite length_app, length_fmap. split_and!; [lia| |].
  - apply Forall_app. split.
    + apply Forall_fmap, Forall_forall. intros k Hk. cbn. split; [by apply Hids|].
      destruct (a2 !! k) eqn:Hx; [|done]. apply Hsub in Hx. rewrite Ha1, decide_True in Hx by done. done.
    + eapply Forall_impl; [exact Hev|]. intros e. by apply event_ok_before.
  - intros Hless. split; [apply Hend; lia|]. cbn. intros k t Hk. apply Hsub in Hk. rewrite Ha1 in Hk.
    case_decide as Hin; [done|]. destruct (N.lt_ge_cases now t) as [?|Hle]; [done|].
    exfalso. apply Hin. eapply Hall; [lia|done|done].
Qed.

Lemma manual_step_ok limit d o : manual_ok limit d -> manual_ok limit (manual_step d o).
Proof.
  intros Hd. pose proof Hd as [Hlim Hb Hst]. destruct o as [r|source id e ttl now|now|]; cbn.
  - unfold manual_start. destruct (md_request d) eqn:Hr; [done|]. rewrite ?Hr in Hst.
    destruct (discovery_validate_request r); [|done]. destruct Hst as [Hp Ha]. split; cbn; [done..|].
    rewrite Hp. split; constructor.
  - unfold add_address. destruct (md_request d) as [r|] eqn:Hr; [|done]. rewrite ?Hr in Hst.
    destruct (_ || _) eqn:Hg; [done|].
    pose proof (allow_limit source now (md_limiter d)) as Hl.
    destruct (allow source now (md_limiter d)) as [limiter [|]]; cbn in *; apply orb_false_iff in Hg as [_ Hc].
    + destruct (instant_add now ttl) as [expires_at|]; [|split; cbn; [by rewrite Hl|done|by rewrite ?Hr]].
      split; cbn; [by rewrite Hl| |rewrite ?Hr; by apply pending_add]. apply andb_false_iff in Hc.
      rewrite Hlim in Hc. destruct (md_active d !! id) as [t|] eqn:Hid.
      * rewrite map_size_insert_Some; [done|by eexists].
      * rewrite map_size_insert_None by done. destruct Hc as [Hc|Hc]; guards; [done|lia].
    + split; cbn; [by rewrite Hl|done|by rewrite ?Hr].
  - destruct (md_request d) as [r|] eqn:Hr; [|unfold manual_poll; by rewrite Hr].
    pose proof (manual_poll_ok limit d r now Hd Hr) as Hp. by destruct (manual_poll now d) as [d' res], Hp.
  - unfold manual_stop. destruct (md_request d); [|done]. split; cbn; [done| |done].
    rewrite map_size_empty. lia.
Qed.

(** Discovery is bounded and announces only live candidates.  Whatever was
    started, added, polled and stopped before, a running provider holds at most
    the configured candidates and no more announcements than candidates.  A
    poll returns at most the requested number of events: it announces only
    candidates of the requested service that are held and have not expired,
    reports as expired only candidates that were held and have, and forgets
    these; and when it returns fewer events than requested, nothing is left to
    announce and no expired candidate is held. *)
Theorem manual_discovery_sound limit d0 ops r now :
  manual_new limit = Ok d0 ->
  let d := fold_left manual_step ops d0 in
  md_request d = Some r ->
  let '(d', res) := manual_poll now d in
  card (md_active d) <= li_max_candidates limit /\ len (md_pending d) <= card (md_active d)
  /\ exists events, res = Ok events /\ len events <= max_results_per_poll r
    /\ Forall (event_ok (dr_service_type r) now (md_active d) (md_active d')) events
    /\ (len events < max_results_per_poll r ->
        md_pending d' = [] /\ forall k t, md_active d' !! k = Some t -> now < t).
Proof.
  intros Hnew. cbv zeta. assert (manual_ok limit (fold_left manual_step ops d0)) as Hd.
  { assert (manual_ok limit d0) as Hd0.
    { unfold manual_new, attempt_limiter_new in Hnew. inv_ok. split; cbn; [done| |done].
      rewrite map_size_empty. lia. }
    clear Hnew. revert d0 Hd0. induction ops as [|o ops IH]; intros d0 Hd0; [done|]. by apply IH, manual_step_ok. }
  clear Hnew. generalize dependent (fold_left manual_step ops d0). intros d Hd Hr.
  pose proof (manual_poll_ok limit d r now Hd Hr) as Hp. destruct (manual_poll now d) as [d' res].
  destruct Hp as (_ & _ & Hp). destruct Hd as [_ Hb Hst]. rewrite Hr in Hst. destruct Hst as [Ha Hdist].
  split_and!; [done| |done].
  enough (length (event_id <$> md_pending d) <= length (Some <$> (map_to_list (md_active d)).*1))%nat as Hl
    by (rewrite !length_fmap, length_map_to_list in Hl; lia).
  apply submseteq_length, NoDup_submseteq; [done|]. intros x (e & -> & He)%list_elem_of_fmap.
  rewrite Forall_forall in Ha. destruct (Ha _ He) as (p & -> & Hp' & _). cbn.
  apply list_elem_of_fmap. exists (dp_discovery_id p). split; [done|]. apply list_elem_of_fmap.
  exists (dp_discovery_id p, dp_expires_at p). split; [done|]. by apply elem_of_map_to_list.
Qed.

(** ** Witness *)

Definition sample_id (n : N) : DiscoveryId := mkDiscoveryId (vreplicate 16 (byte_of_n n)).
Definition sample_candidate : DiscoveredEndpoint :=
  mkDiscoveredEndpoint (mkEndpoint (str "quic") (str "10.0.0.1:4433")) 10 AuthenticatedEncrypted.
Definition sample_manual_ops : list manual_op :=
  [MStart (mkDiscoveryRequest (str "_link._udp") 8);
   MAdd (str "user") (sample_id 1) sample_candidate 50 0;
   MAdd (str "user") (sample_id 2) sample_candidate 500 10].

Lemma manual_discovery_sound_witness :
  exists d0 d r, manual_new (mkLimit 5 1000 4 4) = Ok d0
    /\ fold_left manual_step sample_manual_ops d0 = d /\ md_request d = Some r
    /\ (manual_poll 100 d).2
       = Ok [DeExpired (sample_id 1);
             DeFound (mkDiscoveredPeer (sample_id 2) (str "_link._udp") [sample_candidate] 510)]
    /\ md_pending (manual_poll 100 d).1 = [].
Proof.
  set (d0 := mkManual None [] ∅ (mkAttemptLimiter (mkLimit 5 1000 4 4) ∅)).
  set (d := fold_left manual_step sample_manual_ops d0).
  set (r := mkDiscoveryRequest (str "_link._udp") 8).
  assert (md_request d = Some r) as Hr by (vm_compute; reflexivity).
  pose proof (manual_discovery_sound (mkLimit 5 1000 4 4) d0 sample_manual_ops r 100 eq_refl Hr) as Hs.
  fold d in Hs.
  assert ((manual_poll 100 d).2 = Ok [DeExpired (sample_id 1);
    DeFound (mkDiscoveredPeer (sample_id 2) (str "_link._udp") [sample_candidate] 510)]) as He
    by (vm_compute; reflexivity).
  exists d0, d, r. split_and!; [reflexivity|reflexivity|exact Hr|exact He|].
  destruct (manual_poll 100 d) as [d' res]. cbn in He. subst res.
  destruct Hs as (_ & _ & events & [= <-] & _ & _ & Hend). by apply Hend.
Defined.
