(* ===== verification/Keyring.v ===== *)
(** * The trust store over the system credential service

    Models [keyring_store.rs].  The credential service is a parameter of the
    runs: it keeps one secret for each peer and one for the index, and answers
    each call with success or an error that is not foreseen, so the outcomes of
    the calls to come are part of the world.  The secrets are kept parsed; a
    record that does not parse is an outcome too.  A panic is [None]. *)

From S2P Require Export Trust.
Local Open Scope N_scope.

Definition keyring_error : TrustStoreError :=
  mkTrustError TrustStoreErrorKind.Unavailable "system credential store operation failed".
Definition keyring_corrupt : TrustStoreError :=
  mkTrustError TrustStoreErrorKind.Corrupt "system credential trust record is invalid".
Definition keyring_unknown_peer : TrustStoreError :=
  mkTrustError TrustStoreErrorKind.UnknownPeer "peer has no trust record".
Definition keyring_limit_error : TrustStoreError :=
  mkTrustError TrustStoreErrorKind.LimitExceeded "system credential trust store limit exceeded".

(** The outcome of a call: it succeeds, or fails having taken effect or not. *)
Inductive CallOutcome := CallSucceeds | CallFails (applied : bool) (e : TrustStoreError).

(** The credential service and the outcomes of the calls to come; with none
    given a call succeeds.  The entry of the index holds text. *)
Record Credentials := mkCredentials {
  cr_records : gmap PeerId RecordDto;
  cr_index : option (list byte);
  cr_outcomes : list CallOutcome;
}.
Definition next_outcome (w : Credentials) : Credentials * CallOutcome :=
  match cr_outcomes w with
  | [] => (w, CallSucceeds)
  | o :: l => (mkCredentials (cr_records w) (cr_index w) l, o)
  end.

(** A call that reads, and one that writes. *)
Definition keyring_read (w : Credentials) : Credentials * result TrustStoreError () :=
  match next_outcome w with
  | (w, CallSucceeds) => (w, Ok ())
  | (w, CallFails _ e) => (w, Err e)
  end.
Definition keyring_write (effect : Credentials -> Credentials) (w : Credentials)
    : Credentials * result TrustStoreError () :=
  match next_outcome w with
  | (w, CallSucceeds) => (effect w, Ok ())
  | (w, CallFails applied e) => (if applied then effect w else w, Err e)
  end.

(** [serde_json] on the index: the text of a list of strings, and its parse. *)
Class SerdeStrings := {
  strings_to_string : list (list byte) -> list byte;
  strings_from_str : list byte -> option (list (list byte));
}.

Record SystemKeyringTrustStore := mkKeyring {
  known_peers : gset PeerId;
  kr_max_records : N;
}.

(** Decode the peers of the index, up to the first error. *)
Fixpoint decode_peers (l : list (list byte)) : option (result TrustStoreError (gset PeerId)) :=
  match l with
  | [] => Some (Ok ∅)
  | v :: l =>
    r ← decode_peer_id v;
    match r with
    | Err e => Some (Err e)
    | Ok p => r ← decode_peers l; Some (peers ← r; Ok ({[p]} ∪ peers))
    end
  end.

(** [open_with_limit]. *)
Definition keyring_open `{SerdeStrings} (service : list byte) (max_records : N) (w : Credentials)
    : option (Credentials * result TrustStoreError SystemKeyringTrustStore) :=
  if bool_decide (service = []) || (max_records =? 0) then
    Some (w, Err (mkTrustError TrustStoreErrorKind.Unavailable "system keyring service name is empty"))
  else
    let '(w, o) := keyring_read w in
    match o with
    | Err e => Some (w, Err e)
    | Ok _ =>
      match cr_index w with
      | None => Some (w, Ok (mkKeyring ∅ max_records))
      | Some encoded =>
        if sat_add usize_max (sat_mul usize_max max_records 70) 2 <? len encoded then Some (w, Err keyring_limit_error)
        else
          match strings_from_str encoded with
          | None => Some (w, Err keyring_corrupt)
          | Some values =>
            if max_records <? len values then Some (w, Err keyring_limit_error)
            else r ← decode_peers values; Some (w, peers ← r; Ok (mkKeyring peers max_records))
          end
      end
    end.

(** A state-passing computation that may panic. *)
Definition keyring_bind {S A B} (m : option (S * result TrustStoreError A))
    (f : S -> A -> option (S * result TrustStoreError B)) : option (S * result TrustStoreError B) :=
  '(s, r) ← m; match r with Ok a => f s a | Err e => Some (s, Err e) end.

(** [get]: the entry is looked up, parsed and validated. *)
Definition keyring_get (p : PeerId) (w : Credentials)
    : option (Credentials * result TrustStoreError (option TrustRecord)) :=
  let '(w, o) := keyring_read w in
  match o with
  | Err e => Some (w, Err e)
  | Ok _ =>
    match cr_records w !! p with
    | None => Some (w, Ok None)
    | Some dto => r ← record_try_from dto; Some (w, record ← r; Ok (Some record))
    end
  end.

(** [list]: the records of the known peers in order, up to the first error; a
    peer without a record is passed over. *)
Fixpoint list_peers (l : list PeerId) (w : Credentials)
    : option (Credentials * result TrustStoreError (list TrustRecord)) :=
  match l with
  | [] => Some (w, Ok [])
  | p :: l =>
    keyring_bind (keyring_get p w) (fun w found =>
      keyring_bind (list_peers l w) (fun w records => Some (w, Ok (option_list found ++ records))))
  end.
Definition keyring_list (s : SystemKeyringTrustStore) (w : Credentials)
    : option (Credentials * result TrustStoreError (list TrustRecord)) :=
  list_peers (merge_sort key_le (elements (known_peers s))) w.

(** [persist_index]. *)
Definition index_values (peers : gset PeerId) : list (list byte) :=
  (fun p => hex_encode (vec_to_list (as_bytes p))) <$> merge_sort key_le (elements peers).
Definition persist_index `{SerdeStrings} (peers : gset PeerId) (w : Credentials)
    : Credentials * result TrustStoreError () :=
  keyring_write (fun w =>
    mkCredentials (cr_records w) (Some (strings_to_string (index_values peers))) (cr_outcomes w)) w.

(** [set_password] and [delete_credential] of a peer's entry. *)
Definition set_entry (p : PeerId) (d : option RecordDto) (w : Credentials)
    : Credentials * result TrustStoreError () :=
  keyring_write (fun w =>
    mkCredentials (partial_alter (fun _ => d) p (cr_records w)) (cr_index w) (cr_outcomes w)) w.

(** The result of changing an entry and then the index. *)
Definition set_and_index `{SerdeStrings} {A} (p : PeerId) (d : option RecordDto) (peers : gset PeerId) (a : A)
    (s : SystemKeyringTrustStore) (w : Credentials)
    : SystemKeyringTrustStore * Credentials * result TrustStoreError A :=
  match set_entry p d w with
  | (w, Err e) => (s, w, Err e)
  | (w, Ok _) =>
    match persist_index peers w with
    | (w, Err e) => (s, w, Err e)
    | (w, Ok _) => (mkKeyring peers (kr_max_records s), w, Ok a)
    end
  end.

Definition keyring_upsert `{SerdeStrings} (record : TrustRecord) (s : SystemKeyringTrustStore) (w : Credentials)
    : SystemKeyringTrustStore * Credentials * result TrustStoreError () :=
  match validate_record record with
  | Err e => (s, w, Err e)
  | Ok _ =>
    if negb (bool_decide (tr_peer_id record ∈ known_peers s)) && (kr_max_records s <=? card (known_peers s))
    then (s, w, Err keyring_limit_error)
    else
      set_and_index (tr_peer_id record) (Some (dto_from record)) ({[tr_peer_id record]} ∪ known_peers s)
        () s w
  end.

Definition keyring_remove `{SerdeStrings} (p : PeerId) (s : SystemKeyringTrustStore) (w : Credentials)
    : option (SystemKeyringTrustStore * Credentials * result TrustStoreError bool) :=
  '(w, existed) ← (if bool_decide (p ∈ known_peers s) then Some (w, Ok true)
                   else keyring_bind (keyring_get p w) (fun w r => Some (w, Ok (bool_decide (is_Some r)))));
  match existed with
  | Err e => Some (s, w, Err e)
  | Ok false => Some (s, w, Ok false)
  | Ok true => Some (set_and_index p None (known_peers s ∖ {[p]}) true s w)
  end.

Definition keyring_revoke `{SerdeStrings} (p : PeerId) (now : N) (s : SystemKeyringTrustStore) (w : Credentials)
    : option (SystemKeyringTrustStore * Credentials * result TrustStoreError ()) :=
  '(w, r) ← keyring_get p w;
  match r with
  | Err e => Some (s, w, Err e)
  | Ok None => Some (s, w, Err keyring_unknown_peer)
  | Ok (Some record) => Some (keyring_upsert (with_key_state (KeyRevoked now) record) s w)
  end.

(** [rotate], once the old record is known to be active. *)
Definition rotate_active `{Sha256} `{SerdeStrings} (old : TrustRecord) (new_peer : PeerId) (new_key : list byte)
    (challenge_hash : vec byte 32) (now : N) (s : SystemKeyringTrustStore) (w : Credentials)
    : SystemKeyringTrustStore * Credentials * result TrustStoreError TrustRecord :=
  let replacement :=
    mkTrustRecord new_peer new_key (tr_alias old) (tr_first_paired_at_unix_ms old) (tr_permissions old)
      KeyActive challenge_hash (tr_previous_key_fingerprints old ++ [public_key_fingerprint old]) in
  match keyring_upsert (with_key_state (KeyRotated now new_peer) old) s w with
  | (s, w, Err e) => (s, w, Err e)
  | (s, w, Ok _) =>
    match keyring_upsert replacement s w with
    | (s, w, Err e) => (s, w, Err e)
    | (s, w, Ok _) => (s, w, Ok replacement)
    end
  end.

Definition keyring_rotate `{Sha256} `{SerdeStrings} (old_peer new_peer : PeerId) (new_key : list byte)
    (challenge_hash : vec byte 32) (now : N) (s : SystemKeyringTrustStore) (w : Credentials)
    : option (SystemKeyringTrustStore * Credentials * result TrustStoreError TrustRecord) :=
  '(w, found) ← keyring_get new_peer w;
  match found with
  | Err e => Some (s, w, Err e)
  | Ok found =>
    if bool_decide (is_Some found) || bool_decide (new_key = []) then
      Some (s, w, Err (mkTrustError TrustStoreErrorKind.Conflict
                         "new peer identity conflicts with trust store"))
    else if kr_max_records s <=? card (known_peers s) then Some (s, w, Err keyring_limit_error)
    else
      '(w, found) ← keyring_get old_peer w;
      match found with
      | Err e => Some (s, w, Err e)
      | Ok None => Some (s, w, Err keyring_unknown_peer)
      | Ok (Some old) =>
        if negb (trust_is_active old) then
          Some (s, w, Err (mkTrustError TrustStoreErrorKind.Conflict "only an active identity can rotate"))
        else Some (rotate_active old new_peer new_key challenge_hash now s w)
      end
  end.
