(* ===== verification/KeyringFacts.v ===== *)
(** * A rotation over the credential service fails closed *)

From S2P Require Export Keyring TrustFacts.
Local Open Scope N_scope.

(** The entries of the service, as a client sees them. *)
Definition entry_state (w : Credentials) (p : PeerId) : option KeyStateDto :=
  dto_key_state <$> cr_records w !! p.

(** Each entry that parses is that of its peer. *)
Definition entries_match (w : Credentials) : Prop :=
  forall p d r, cr_records w !! p = Some d -> record_try_from d = Some (Ok r) -> tr_peer_id r = p.

Section keyring.
Context `{SerdeStrings}.

(** ** Single calls *)

Lemma keyring_read_spec w w' o : keyring_read w = (w', o) ->
  cr_records w' = cr_records w /\ cr_index w' = cr_index w.
Proof.
  unfold keyring_read, next_outcome. destruct (cr_outcomes w) as [|[|] ?]; intros; by simplify_eq.
Qed.

Lemma keyring_write_spec effect w w' o : keyring_write effect w = (w', o) ->
  exists u, cr_records u = cr_records w /\ cr_index u = cr_index w
    /\ (w' = effect u \/ w' = u /\ ~ is_ok o).
Proof.
  intros Hw. exists (next_outcome w).1. unfold keyring_write, next_outcome in *.
  destruct (cr_outcomes w) as [|[|[] e] l]; simplify_eq; cbn; split_and!; try done; try (by left);
    right; split; [done|by intros [??]].
Qed.

(** A panic apart, [get] answers from the entry and changes none. *)
Lemma keyring_get_spec p w w' r : keyring_get p w = Some (w', r) ->
  cr_records w' = cr_records w
  /\ match r with
     | Ok None => cr_records w !! p = None
     | Ok (Some x) => exists d, cr_records w !! p = Some d /\ record_try_from d = Some (Ok x)
     | Err _ => True
     end.
Proof.
  unfold keyring_get. destruct (keyring_read w) as [w1 o] eqn:Hr.
  apply keyring_read_spec in Hr as [Hr _]. destruct o; [|by intros; simplify_eq].
  rewrite Hr. destruct (cr_records w !! p) as [d|] eqn:Hd; [|intros; by simplify_eq].
  destruct (record_try_from d) as [x|] eqn:Hx; [|done]. cbn. intros; simplify_eq. split; [done|].
  destruct x; cbn; [by exists d|done].
Qed.

Lemma set_entry_spec p d w w' o : set_entry p d w = (w', o) ->
  cr_records w' = partial_alter (fun _ => d) p (cr_records w) \/ cr_records w' = cr_records w /\ ~ is_ok o.
Proof.
  intros (u & Hu & _ & Hw)%keyring_write_spec. rewrite <- Hu.
  destruct Hw as [-> | [-> ?]]; [by left|by right].
Qed.

Lemma persist_index_spec peers w w' o : persist_index peers w = (w', o) ->
  cr_records w' = cr_records w
  /\ (is_ok o -> cr_index w' = Some (strings_to_string (index_values peers))).
Proof.
  intros (u & Hu & _ & Hw)%keyring_write_spec. rewrite <- Hu.
  by destruct Hw as [-> | [-> ?]].
Qed.

(** ** Changing an entry *)

(** Whatever the service answers, an upsert stores a valid record under its
    own peer or leaves the entries as they are; it forgets nothing when it
    fails. *)
Lemma keyring_upsert_spec x s w s' w' r : keyring_upsert x s w = (s', w', r) ->
  (cr_records w' = cr_records w /\ ~ is_ok r
   \/ cr_records w' = <[tr_peer_id x := dto_from x]> (cr_records w) /\ validate_record x = Ok ())
  /\ match r with
     | Ok _ => known_peers s' = {[tr_peer_id x]} ∪ known_peers s
               /\ cr_index w' = Some (strings_to_string (index_values (known_peers s')))
     | Err _ => s' = s
     end.
Proof.
  assert (forall e : TrustStoreError, ~ is_ok (A := ()) (Err e)) as Herr by by intros ? [??].
  unfold keyring_upsert. destruct (validate_record x) as [[]|] eqn:Hv; [|intros; simplify_eq; eauto].
  destruct (_ && _); [intros; simplify_eq; eauto|].
  unfold set_and_index. destruct (set_entry _ _ w) as [w1 o] eqn:Hs. apply set_entry_spec in Hs.
  destruct o; [|intros; simplify_eq; destruct Hs as [?|[??]]; eauto].
  destruct (persist_index _ w1) as [w2 o] eqn:Hp. apply persist_index_spec in Hp as [Hp Hi].
  assert (cr_records w2 = <[tr_peer_id x := dto_from x]> (cr_records w)).
  { rewrite Hp. destruct Hs as [? | [? []]]; [done|by eexists]. }
  destruct o; intros; simplify_eq; split; try (right; done); try done.
  split; [done|]. apply Hi. by eexists.
Qed.

Lemma keyring_upsert_match x s w s' w' r :
  keyring_upsert x s w = (s', w', r) -> entries_match w -> entries_match w'.
Proof.
  intros [[[Hw _]|[Hw Hv]] _]%keyring_upsert_spec Hm; intros p d y; rewrite Hw; [by apply Hm|].
  intros [[<- <-]|[_ ?]]%lookup_insert_Some; [|by eapply Hm].
  rewrite record_round_trip by done. by intros [= ->].
Qed.

Lemma parsed_state d r : record_try_from d = Some (Ok r) ->
  dto_key_state d = DtoActive <-> trust_is_active r = true.
Proof.
  unfold record_try_from, trust_is_active. destruct (decode_peer_id _) as [[p|]|]; cbn; try done.
  destruct (decode_32 _); cbn; [|done]. destruct (mapM_result _ _); cbn; [|done].
  rewrite bool_decide_eq_true.
  destruct (dto_key_state d) as [|t|t q]; cbn; [|..|destruct (decode_peer_id q) as [[]|]; cbn; try done];
    destruct (validate_record _); cbn; intros; simplify_eq; by cbn.
Qed.

(** ** The index survives a restart *)

Lemma decode_peers_index l :
  decode_peers ((fun p : PeerId => hex_encode (vec_to_list (as_bytes p))) <$> l) = Some (Ok (list_to_set l)).
Proof.
  induction l as [|p l IH]; [done|]. cbn [fmap list_fmap decode_peers].
  rewrite decode_peer_encode. cbn [mbind option_bind]. by rewrite IH.
Qed.

Definition hex_char (b : byte) : Prop := exists n, n < 16 /\ b = hex_digit n.
Lemma hex_encode_chars l : Forall hex_char (hex_encode l).
Proof.
  induction l as [|b l IH]; [constructor|].
  change (hex_encode (b :: l))
    with (hex_digit (n_of_byte b / 16) :: hex_digit (n_of_byte b mod 16) :: hex_encode l).
  pose proof (n_of_byte_bound b) as Hb. constructor; [|constructor]; [eexists; split; [|done]..|done].
  - apply N.Div0.div_lt_upper_bound; lia.
  - by apply N.mod_lt.
Qed.

Lemma index_values_length peers : length (index_values peers) = size peers.
Proof. unfold index_values. by rewrite length_fmap, merge_sort_Permutation. Qed.
Lemma index_values_chars peers : Forall (Forall hex_char) (index_values peers).
Proof. apply Forall_fmap, Forall_true. intros p. apply hex_encode_chars. Qed.
Lemma index_values_sum peers :
  sum_list_with (fun v => 3 + length v)%nat (index_values peers) = (67 * size peers)%nat.
Proof.
  rewrite <- index_values_length. unfold index_values.
  induction (merge_sort _ _) as [|p l IH]; [done|]. cbn [fmap list_fmap sum_list_with].
  rewrite IH, hex_encode_length, length_vec_to_list. change (id_size PeerKind) with 32%nat.
  cbn [length]. lia.
Qed.

(** What is relied on of [serde_json]: it parses what it writes, and the
    compact text of a list of hexadecimal strings has their characters, their
    quotes, a comma between two and a pair of brackets. *)
Lemma keyring_reopen service max w peers :
  (forall l, strings_from_str (strings_to_string l) = Some l) ->
  (forall l, Forall (Forall hex_char) l ->
     len (strings_to_string l) <= 2 + N.of_nat (sum_list_with (fun v => 3 + length v)%nat l)) ->
  service <> [] -> 0 < max -> card peers <= max ->
  cr_index w = Some (strings_to_string (index_values peers)) ->
  len (strings_to_string (index_values peers)) <= usize_max -> cr_outcomes w = [] ->
  keyring_open service max w = Some (w, Ok (mkKeyring peers max)).
Proof.
  intros Hjson Hlen Hs Hmax Hcard Hi Hu Ho. unfold keyring_open, keyring_read, next_outcome.
  rewrite bool_decide_false, Ho by done. tests. rewrite Hi, Hjson.
  pose proof (Hlen _ (index_values_chars peers)) as Ht. rewrite index_values_sum in Ht.
  pose proof (index_values_length peers).
  unfold sat_add, sat_mul. tests.
  unfold index_values. rewrite decode_peers_index. cbn. do 4 f_equal. apply set_eq. intros p.
  rewrite elem_of_list_to_set, merge_sort_Permutation. apply elem_of_elements.
Qed.

(** ** Rotation *)

Context `{Sha256}.

(** A rotation fails and changes nothing, or the old record is active. *)
Lemma keyring_rotate_cases old new key ch now s w s' w' r :
  keyring_rotate old new key ch now s w = Some (s', w', r) ->
  (cr_records w' = cr_records w /\ s' = s /\ ~ is_ok r)
  \/ exists d x u, cr_records w !! old = Some d /\ record_try_from d = Some (Ok x)
       /\ trust_is_active x = true /\ cr_records u = cr_records w
       /\ rotate_active x new key ch now s u = (s', w', r).
Proof.
  assert (forall e : TrustStoreError, ~ is_ok (A := TrustRecord) (Err e)) as Herr by by intros ? [??].
  unfold keyring_rotate. intros Hr.
  destruct (keyring_get new w) as [[w1 f]|] eqn:Hn; [|done]. apply keyring_get_spec in Hn as [Hw1 _].
  cbn in Hr. destruct f; [|simplify_eq; by left].
  destruct (_ || _); [simplify_eq; by left|]. destruct (_ <=? _); [simplify_eq; by left|].
  destruct (keyring_get old w1) as [[w2 g]|] eqn:Ho; [|done]. cbn in Hr.
  apply keyring_get_spec in Ho as [Hw2 Hg]. rewrite Hw1 in *.
  destruct g as [[x|]|]; [|simplify_eq; by left..].
  destruct (trust_is_active x) eqn:Hx; cbn in Hr; [|simplify_eq; by left].
  destruct Hg as (d & Hd & Hp). right. exists d, x, w2. by simplify_eq.
Qed.

(** An identity that is not active is not rotated again. *)
Lemma keyring_retry_refused old new key ch now s w s' w' r :
  keyring_rotate old new key ch now s w = Some (s', w', r) ->
  entry_state w old <> Some DtoActive -> cr_records w' = cr_records w /\ s' = s /\ ~ is_ok r.
Proof.
  intros [?|(d & x & u & Hd & Hp & Hx & _)]%keyring_rotate_cases Hold; [done|].
  destruct Hold. unfold entry_state. rewrite Hd. cbn. f_equal. by apply (parsed_state d x).
Qed.

(** The last part of a rotation, from an old record that parses. *)
Lemma rotate_active_spec x new key ch now s w s' w' r :
  rotate_active x new key ch now s w = (s', w', r) ->
  tr_peer_id x <> new -> cr_records w !! new = None ->
  (forall q, q <> tr_peer_id x -> q <> new -> cr_records w' !! q = cr_records w !! q)
  /\ (cr_records w' = cr_records w /\ ~ is_ok r
      \/ entry_state w' (tr_peer_id x) = Some (DtoRotated now (hex_encode (vec_to_list (as_bytes new)))))
  /\ match r with
     | Ok y => cr_records w' !! new = Some (dto_from y) /\ tr_peer_id y = new /\ trust_is_active y = true
               /\ tr_permissions y = tr_permissions x
               /\ tr_previous_key_fingerprints y = tr_previous_key_fingerprints x ++ [public_key_fingerprint x]
               /\ known_peers s' = {[new]} ∪ ({[tr_peer_id x]} ∪ known_peers s)
     | Err _ => True
     end.
Proof.
  intros Hr Hne Hnew. unfold rotate_active in Hr.
  destruct (keyring_upsert (with_key_state _ x) s w) as [[s1 w1] o1] eqn:H1.
  apply keyring_upsert_spec in H1 as [Hw1 Hs1]. change (tr_peer_id (with_key_state _ x)) with (tr_peer_id x) in *.
  destruct o1 as [[]|e]; cycle 1.
  { simplify_eq. destruct Hw1 as [[Hw Hok]|[Hw _]]; rewrite Hw; split_and!; try done.
    - left. split; [done|by intros [??]].
    - intros q Hq _. by rewrite lookup_insert_ne.
    - right. unfold entry_state. rewrite Hw. by rewrite lookup_insert_eq. }
  destruct Hw1 as [[_ []]|[Hw1 _]]; [by eexists|]. destruct Hs1 as [Hs1 _].
  set (y := mkTrustRecord _ _ _ _ _ _ _ _) in Hr.
  destruct (keyring_upsert y s1 w1) as [[s2 w2] o2] eqn:H2. apply keyring_upsert_spec in H2 as [Hw2 Hs2].
  change (tr_peer_id y) with new in *.
  assert (forall m, cr_records w2 = m -> (m = cr_records w1 \/ m = <[new := dto_from y]> (cr_records w1)) ->
    (forall q, q <> tr_peer_id x -> q <> new -> cr_records w2 !! q = cr_records w !! q)
    /\ entry_state w2 (tr_peer_id x) = Some (DtoRotated now (hex_encode (vec_to_list (as_bytes new))))) as Hfin.
  { intros m Em Hm. unfold entry_state. rewrite Em.
    split; [intros q Hq1 Hq2|]; destruct Hm as [-> | ->]; rewrite ?lookup_insert_ne by done; rewrite Hw1;
      by rewrite ?lookup_insert_eq, ?lookup_insert_ne by done. }
  edestruct Hfin as [Hq Ho]; [reflexivity|destruct Hw2 as [[-> _]|[-> _]]; auto|].
  destruct o2 as [[]|e]; simplify_eq; split_and!; auto.
  - destruct Hw2 as [[_ []]|[-> _]]; [by eexists|]. by rewrite lookup_insert_eq.
  - destruct Hs2 as [-> _]. by rewrite Hs1.
Qed.

(** C38: Suppose that every record the credential service holds is stored under
    its own identity ([entries_match]) and that it holds none under the new
    identity.  Then, whichever of its calls fail, a rotation touches the
    entries of the two identities only and never leaves both active: it changes nothing, or the old identity's entry
    names its replacement.  On success the replacement is stored active with
    the old identity's permissions and key history; on failure the old
    identity, once disabled, is never accepted by another rotation. *)
Theorem keyring_rotate_fail_closed old new key ch now s w s' w' r :
  keyring_rotate old new key ch now s w = Some (s', w', r) ->
  entries_match w -> cr_records w !! new = None ->
  ~ (entry_state w' old = Some DtoActive /\ entry_state w' new = Some DtoActive)
  /\ (forall q, q <> old -> q <> new -> cr_records w' !! q = cr_records w !! q)
  /\ (cr_records w' = cr_records w
      \/ entry_state w' old = Some (DtoRotated now (hex_encode (vec_to_list (as_bytes new)))))
  /\ match r with
     | Ok y => exists d x, cr_records w !! old = Some d /\ record_try_from d = Some (Ok x)
         /\ trust_is_active x = true
         /\ cr_records w' !! new = Some (dto_from y) /\ tr_peer_id y = new /\ trust_is_active y = true
         /\ tr_permissions y = tr_permissions x
         /\ tr_previous_key_fingerprints y = tr_previous_key_fingerprints x ++ [public_key_fingerprint x]
         /\ known_peers s' = {[new]} ∪ ({[old]} ∪ known_peers s)
     | Err _ => cr_records w' <> cr_records w ->
         forall new' key' ch' now' t u t' u' r', cr_records u !! old = cr_records w' !! old ->
         keyring_rotate old new' key' ch' now' t u = Some (t', u', r') -> ~ is_ok r'
     end.
Proof.
  intros [(Hw & -> & Hok)|(d & x & u & Hd & Hp & Hx & Hu & Hr)]%keyring_rotate_cases Hm Hnew.
  { unfold entry_state. rewrite Hw, Hnew. split_and!; auto; [by intros [_ ?]|].
    destruct r; [by destruct Hok; eexists|done]. }
  pose proof (Hm _ _ _ Hd Hp) as <-.
  assert (tr_peer_id x <> new) as Hne by (intros E; rewrite E in Hd; by simplify_eq).
  apply rotate_active_spec in Hr as (Hq & Ho & Hy); [|done|by rewrite Hu]. rewrite Hu in *.
  assert (cr_records w' = cr_records w
    \/ entry_state w' (tr_peer_id x) = Some (DtoRotated now (hex_encode (vec_to_list (as_bytes new))))) as Ho'
    by (destruct Ho as [[? _]|?]; auto).
  split_and!; try done.
  - unfold entry_state. destruct Ho' as [-> | Ho']; [rewrite Hnew; by intros [_ ?]|].
    unfold entry_state in Ho'. rewrite Ho'. by intros [? _].
  - destruct r as [y|]; [|].
    + exists d, x. by destruct Hy as (?&?&?&?&?&?).
    + intros Hch new' key' ch' now' t v t' v' r' Hv Hr.
      apply keyring_retry_refused in Hr as (_ & _ & Hr); [done|].
      destruct Ho' as [?|Ho']; [done|]. unfold entry_state in *. by rewrite Hv, Ho'.
Qed.

End keyring.

(** ** Examples *)

(** A stand-in for the text of a list of strings: a comma ends each string,
    and a backslash quotes one character. *)
Definition quote_char (b : byte) : list byte :=
  if bool_decide (b = chr ",") || bool_decide (b = chr "\") then [chr "\"; b] else [b].
Definition quote_strings (l : list (list byte)) : list byte :=
  concat ((fun v => concat (quote_char <$> v) ++ [chr ","]) <$> l).
Fixpoint parse_strings (acc l : list byte) : option (list (list byte)) :=
  match l with
  | [] => if bool_decide (acc = []) then Some [] else None
  | b :: l =>
    if bool_decide (b = chr ",") then cons acc <$> parse_strings [] l
    else if bool_decide (b = chr "\") then
      match l with [] => None | c :: l => parse_strings (acc ++ [c]) l end
    else parse_strings (acc ++ [b]) l
  end.
Definition toy_strings : SerdeStrings :=
  {| strings_to_string := quote_strings; strings_from_str := parse_strings [] |}.

Lemma parse_quoted v acc l :
  parse_strings acc (concat (quote_char <$> v) ++ chr "," :: l) = cons (acc ++ v) <$> parse_strings [] l.
Proof.
  revert acc. induction v as [|b v IH]; intros acc; [by rewrite app_nil_r|].
  cbn [fmap list_fmap concat]. rewrite <- app_assoc. unfold quote_char at 1.
  rewrite (cons_middle b acc v), (app_assoc acc [b] v), <- IH.
  destruct (bool_decide_reflect (b = chr ",")) as [->|H1]; [done|].
  destruct (bool_decide_reflect (b = chr "\")) as [->|H2]; [done|].
  cbn [orb app parse_strings]. by rewrite !bool_decide_false by done.
Qed.
Lemma parse_quote_strings l : parse_strings [] (quote_strings l) = Some l.
Proof.
  induction l as [|v l IH]; [done|]. unfold quote_strings in *. cbn [fmap list_fmap concat].
  rewrite <- app_assoc. cbn [app]. rewrite parse_quoted. cbn [app]. by rewrite IH.
Qed.

(** The stand-in has what [keyring_reopen] relies on. *)
Lemma toy_reopen peers : card peers <= 8 ->
  @keyring_open toy_strings (str "link") 8 (mkCredentials ∅ (Some (quote_strings (index_values peers))) [])
  = Some (mkCredentials ∅ (Some (quote_strings (index_values peers))) [], Ok (mkKeyring peers 8)).
Proof.
  assert (forall v, Forall hex_char v -> length (concat (quote_char <$> v)) = length v) as Hv.
  { induction 1 as [|b v (n & Hn & ->) _ IH]; [done|]. cbn [fmap list_fmap concat].
    rewrite length_app, IH.
    destruct n as [|n]; [done|]. do 5 (destruct n as [n|n|]; try done; try lia). }
  assert (forall l, Forall (Forall hex_char) l ->
    len (quote_strings l) <= 2 + N.of_nat (sum_list_with (fun v => 3 + length v)%nat l)) as Hl.
  { induction 1 as [|v l Hh _ IH]; [done|]. unfold quote_strings in *.
    cbn [fmap list_fmap concat sum_list_with]. rewrite !length_app, Hv by done. cbn [length]. lia. }
  intros Hcard. eapply (@keyring_reopen toy_strings); try done; [apply parse_quote_strings|].
  cbn. etrans; [apply Hl, index_values_chars|]. rewrite index_values_sum. lia.
Qed.

Definition one_entry (r : TrustRecord) (outcomes : list CallOutcome) : Credentials :=
  mkCredentials {[tr_peer_id r := dto_from r]} None outcomes.
Definition sample_keyring : SystemKeyringTrustStore := mkKeyring {[id_of PeerKind 1]} 4.
Definition sample_rotate outcomes :=
  @keyring_rotate toy_sha256 toy_strings (id_of PeerKind 1) (id_of PeerKind 3) (str "fedcba9876543210")
    (vreplicate 32 Byte.x01) 9 sample_keyring (one_entry (sample_record 1) outcomes).
(** What a rotation returns, and the entries of the two identities after it. *)
Definition rotated outcomes : option (bool * option KeyStateDto * option KeyStateDto) :=
  '(_, w, r) ← sample_rotate outcomes;
  Some (match r with Ok _ => true | Err _ => false end,
        entry_state w (id_of PeerKind 1), entry_state w (id_of PeerKind 3)).

Lemma one_entry_matches r outcomes : validate_record r = Ok () -> entries_match (one_entry r outcomes).
Proof.
  intros Hv p d x Hd. cbn in Hd. apply lookup_singleton_Some in Hd as [<- <-].
  rewrite record_round_trip by done. by intros [= ->].
Qed.

(** The rotation succeeds when the service does; when its fifth call, the one
    that stores the replacement, fails, the old identity stays disabled. *)
Definition replacement_fails : list CallOutcome := replicate 4 CallSucceeds ++ [CallFails false keyring_error].
Definition disabled : KeyStateDto :=
  DtoRotated 9 (hex_encode (vec_to_list (as_bytes (id_of PeerKind 3)))).
Lemma keyring_rotate_fail_closed_witness :
  rotated [] = Some (true, Some disabled, Some DtoActive)
  /\ rotated replacement_fails = Some (false, Some disabled, None)
  /\ match sample_rotate replacement_fails with
     | Some (_, w, _) =>
       ~ (entry_state w (id_of PeerKind 1) = Some DtoActive /\ entry_state w (id_of PeerKind 3) = Some DtoActive)
     | None => False
     end.
Proof.
  split; [vm_compute; reflexivity|]. split; [vm_compute; reflexivity|].
  assert (is_Some (sample_rotate replacement_fails)) as [[[s w] r] Hr].
  { vm_compute. by eexists. }
  rewrite Hr. apply keyring_rotate_fail_closed in Hr as [Hn _]; [done|..].
  - apply one_entry_matches. vm_compute. reflexivity.
  - vm_compute. reflexivity.
Defined.

(** An identity whose key history is full: the rotation disables it and then
    refuses the replacement, though every call succeeds. *)
Definition full_history : TrustRecord :=
  mkTrustRecord (id_of PeerKind 1) (str "0123456789abcdef") (str "laptop") 5 ∅ KeyActive
    (vreplicate 32 Byte.x07) (replicate 64 (vreplicate 32 Byte.x02)).
Lemma keyring_rotation_strands :
  validate_record full_history = Ok ()
  /\ match @keyring_rotate toy_sha256 toy_strings (id_of PeerKind 1) (id_of PeerKind 3)
             (str "fedcba9876543210") (vreplicate 32 Byte.x01) 9 sample_keyring (one_entry full_history []) with
     | Some (_, w, Err e) =>
       ts_kind e = TrustStoreErrorKind.LimitExceeded /\ entry_state w (id_of PeerKind 1) = Some disabled
       /\ entry_state w (id_of PeerKind 3) = None
     | _ => False
     end.
Proof. split; vm_compute; done. Qed.
