(* ===== verification/Framed.v ===== *)
(** * The framed I/O bridge

    Models [mutsuki-link-io]: two lanes of messages over one byte stream.  A
    connection has two tasks.  The writer takes frames from the two send
    queues, control first, and writes them to the stream; the reader cuts the
    stream into frames and sorts them into the two receive queues.  The tasks
    and the callers of the connection interleave: an [action] is what one of
    them does between two points where it may wait.  The stream is the
    operating system's: it takes and gives any number of bytes at a time, and
    a call on it may fail at any time. *)

From S2P Require Export Transport.
Local Open Scope N_scope.
Import TransportErrorKind.

(** ** The connection counter *)

(** The counter is atomic; a permit gives its unit back when dropped. *)
Definition try_acquire (limit current : N) : N * bool :=
  if current <? limit then (current + 1, true) else (current, false).
Definition drop_permit (current : N) : N := (current + usize_max) mod (usize_max + 1).

(** ** State *)

Inductive FramedLane := ControlLane | DataLane.
#[export] Instance FramedLane_eq_dec : EqDecision FramedLane.
Proof. solve_decision. Defined.

(** Where the writer waits: in [select!], in [throttle] before a message, with
    bytes of a frame to write, in [shutdown]; or its task has ended. *)
Inductive writer_at :=
| AtSelect
| AtSendThrottle (message : list byte) (nanos : N)
| AtWrite (rest : list byte)
| AtShutdown
| WriterEnded.
#[export] Instance writer_at_eq_dec : EqDecision writer_at.
Proof. solve_decision. Defined.

(** Where the reader waits: with part of a length, with part of a message, in
    [throttle] after it, or for room in its queue; or its task has ended. *)
Inductive reader_at :=
| AtLength (got : list byte)
| AtMessage (length : N) (got : list byte)
| AtReceiveThrottle (message : list byte) (nanos : N)
| AtDeliver (message : list byte)
| ReaderEnded.
#[export] Instance reader_at_eq_dec : EqDecision reader_at.
Proof. solve_decision. Defined.

(** The halves of [FramedConnection] and of its tasks; its metadata are those
    of the handle below.  The senders of both
    send queues are there, or taken; [abort] asks a task to end. *)
Record SendHalf := mkSendHalf {
  control_tx : bool;
  data_tx : bool;
  control_queue : list (list byte);
  data_queue : list (list byte);
  control_open : bool;
  data_open : bool;
  writer : writer_at;
  writer_aborted : bool;
  fc_write_closed : bool;
}.
Record ReceiveHalf := mkReceiveHalf {
  control_receive_queue : list (list byte);
  data_receive_queue : list (list byte);
  reader : reader_at;
  reader_aborted : bool;
  fc_read_closed : bool;
}.
Record FramedConnection := mkFramed {
  fc_budget : TransportBudget;
  send_half : SendHalf;
  receive_half : ReceiveHalf;
  terminal_error : option TransportError;
}.

(** One direction of a stream: the bytes on their way, and whether it ends
    after them. *)
Record pipe := mkPipe { pipe_bytes : list byte; pipe_ended : bool }.

Definition with_send (h : SendHalf) (c : FramedConnection) : FramedConnection :=
  mkFramed (fc_budget c) h (receive_half c) (terminal_error c).
Definition with_receive (h : ReceiveHalf) (c : FramedConnection) : FramedConnection :=
  mkFramed (fc_budget c) (send_half c) h (terminal_error c).
Definition with_writer (x : writer_at) (h : SendHalf) : SendHalf :=
  mkSendHalf (control_tx h) (data_tx h) (control_queue h) (data_queue h) (control_open h) (data_open h)
    x (writer_aborted h) (fc_write_closed h).
Definition with_reader (x : reader_at) (h : ReceiveHalf) : ReceiveHalf :=
  mkReceiveHalf (control_receive_queue h) (data_receive_queue h) x (reader_aborted h) (fc_read_closed h).
Definition send_queue (l : FramedLane) (h : SendHalf) : list (list byte) :=
  match l with ControlLane => control_queue h | DataLane => data_queue h end.
Definition with_send_queue (l : FramedLane) (q : list (list byte)) (h : SendHalf) : SendHalf :=
  match l with
  | ControlLane =>
    mkSendHalf (control_tx h) (data_tx h) q (data_queue h) (control_open h) (data_open h)
      (writer h) (writer_aborted h) (fc_write_closed h)
  | DataLane =>
    mkSendHalf (control_tx h) (data_tx h) (control_queue h) q (control_open h) (data_open h)
      (writer h) (writer_aborted h) (fc_write_closed h)
  end.
Definition receive_queue (l : FramedLane) (h : ReceiveHalf) : list (list byte) :=
  match l with ControlLane => control_receive_queue h | DataLane => data_receive_queue h end.
Definition with_receive_queue (l : FramedLane) (q : list (list byte)) (h : ReceiveHalf) : ReceiveHalf :=
  match l with
  | ControlLane =>
    mkReceiveHalf q (data_receive_queue h) (reader h) (reader_aborted h) (fc_read_closed h)
  | DataLane =>
    mkReceiveHalf (control_receive_queue h) q (reader h) (reader_aborted h) (fc_read_closed h)
  end.

(** [spawn_framed_halves], inside a Tokio runtime or not. *)
Definition spawn_framed_halves (runtime : bool) (b : TransportBudget)
    : result TransportError FramedConnection :=
  b ← transport_budget_validate b;
  reject negb runtime
    with transport_error Other "a Tokio runtime is required to start this transport";
  Ok (mkFramed b (mkSendHalf true true [] [] true true AtSelect false false)
        (mkReceiveHalf [] [] (AtLength []) false false) None).

(** ** Errors *)

(** [io::ErrorKind], as far as the transports tell its values apart. *)
Inductive IoErrorKind :=
| IoTimedOut | IoWouldBlock | IoConnectionAborted | IoConnectionReset | IoBrokenPipe | IoUnexpectedEof
| IoAddrInUse | IoNotFound | IoConnectionRefused
| IoInvalidInput | IoOther.
#[export] Instance IoErrorKind_eq_dec : EqDecision IoErrorKind.
Proof. solve_decision. Defined.

Definition io_error (e : IoErrorKind) : TransportError :=
  transport_error
    match e with
    | IoTimedOut => TimedOut
    | IoWouldBlock => WouldBlock
    | IoConnectionAborted | IoConnectionReset => Aborted
    | IoBrokenPipe | IoUnexpectedEof => Closed
    | _ => Other
    end "transport I/O failed".
Definition write_closed_error : TransportError :=
  transport_error Closed "transport write side is closed".
Definition read_closed_error : TransportError :=
  transport_error Closed "transport read side is closed".

Definition set_terminal_error (e : TransportError) (c : FramedConnection) : FramedConnection :=
  mkFramed (fc_budget c) (send_half c) (receive_half c)
    (Some (default e (terminal_error c))).
Definition terminal_or (fallback : TransportError) (c : FramedConnection) : TransportError :=
  default fallback (terminal_error c).

(** ** The methods of the connection *)

Definition framed_enqueue (l : FramedLane) (message : list byte) (c : FramedConnection)
    : FramedConnection * result TransportError () :=
  let h := send_half c in
  let capacity := match l with
                  | ControlLane => control_queue_capacity (fc_budget c)
                  | DataLane => data_queue_capacity (fc_budget c)
                  end in
  if max_frame_bytes (fc_budget c) <? len message then
    (c, Err (transport_error MessageTooLarge "message exceeds transport frame limit"))
  else if bool_decide (writer h = WriterEnded) then (c, Err write_closed_error)
  else if capacity <=? len (send_queue l h) then
    (c, Err (transport_error WouldBlock "transport send queue is full"))
  else (with_send (with_send_queue l (send_queue l h ++ [message]) h) c, Ok ()).

(** [try_send] and [try_send_control]. *)
Definition framed_try_send (l : FramedLane) (message : list byte) (c : FramedConnection)
    : FramedConnection * result TransportError () :=
  let h := send_half c in
  if fc_write_closed h then (c, Err write_closed_error)
  else if negb (match l with ControlLane => control_tx h | DataLane => data_tx h end)
  then (c, Err write_closed_error)
  else framed_enqueue l message c.

(** [try_receive] and [try_receive_control]: the receive queue is polled, and
    when it is empty the reader is looked at.  The reader's task drops its
    senders when it ends.  The reader may act between the two. *)
Inductive polled := PolledMessage (message : list byte) | PolledEmpty | PolledDisconnected.

Definition framed_poll (l : FramedLane) (c : FramedConnection) : FramedConnection * polled :=
  let h := receive_half c in
  match receive_queue l h with
  | message :: q => (with_receive (with_receive_queue l q h) c, PolledMessage message)
  | [] => (c, if bool_decide (reader h = ReaderEnded) then PolledDisconnected else PolledEmpty)
  end.
Definition framed_settle (l : FramedLane) (p : polled) (c : FramedConnection)
    : result TransportError (option (list byte)) :=
  match p with
  | PolledMessage message => Ok (Some message)
  | PolledEmpty =>
    if bool_decide (reader (receive_half c) = ReaderEnded) then Err (terminal_or read_closed_error c)
    else Err (transport_error WouldBlock
                match l with
                | ControlLane => "no control message is ready"
                | DataLane => "no transport message is ready"
                end)
  | PolledDisconnected => Err (terminal_or read_closed_error c)
  end.
Definition framed_try_receive (l : FramedLane) (c : FramedConnection)
    : FramedConnection * result TransportError (option (list byte)) :=
  if fc_read_closed (receive_half c) then (c, Err read_closed_error)
  else let '(c, p) := framed_poll l c in (c, framed_settle l p c).

Definition framed_close_write (c : FramedConnection) : FramedConnection :=
  let h := send_half c in
  if fc_write_closed h then c
  else
    with_send (mkSendHalf false false (control_queue h) (data_queue h) (control_open h) (data_open h)
                 (writer h) (writer_aborted h) true) c.
Definition framed_close_read (c : FramedConnection) : FramedConnection :=
  let h := receive_half c in
  with_receive (mkReceiveHalf (control_receive_queue h) (data_receive_queue h) (reader h) true true) c.
Definition framed_abort (c : FramedConnection) : FramedConnection :=
  let s := send_half c in
  let h := receive_half c in
  mkFramed (fc_budget c)
    (mkSendHalf (control_tx s) (data_tx s) (control_queue s) (data_queue s) (control_open s) (data_open s)
       (writer s) true true)
    (mkReceiveHalf (control_receive_queue h) (data_receive_queue h) (reader h) true true)
    (terminal_error c).

(** ** The writer's task *)

(** [throttle]: how long it sleeps. *)
Definition throttle_nanos (rate bytes : N) : N :=
  N.min u64_max ((bytes * 1000000000 + (rate - 1)) / rate).

(** [write_frame] after [throttle]. *)
Definition start_frame (message : list byte) (c : FramedConnection) : FramedConnection :=
  if u32_max <? len message then
    with_send (with_writer WriterEnded (send_half c)) (set_terminal_error (io_error IoInvalidInput) c)
  else with_send (with_writer (AtWrite (be_bytes 4 (len message) ++ message)) (send_half c)) c.
Definition write_frame (rate : option N) (message : list byte) (c : FramedConnection) : FramedConnection :=
  match rate with
  | Some rate =>
    with_send (with_writer (AtSendThrottle message (throttle_nanos rate (len message))) (send_half c)) c
  | None => start_frame message c
  end.

(** The turn of [write_loop] in [select!]: the control queue comes first; a
    queue that is empty is ready when its sender is gone. *)
Definition close_lane (l : FramedLane) (h : SendHalf) : SendHalf :=
  mkSendHalf (control_tx h) (data_tx h) (control_queue h) (data_queue h)
    (match l with ControlLane => false | DataLane => control_open h end)
    (match l with ControlLane => data_open h | DataLane => false end)
    (writer h) (writer_aborted h) (fc_write_closed h).
Definition take_frame (l : FramedLane) (c : FramedConnection) : option FramedConnection :=
  let h := send_half c in
  let '(open, tx, rate) :=
    match l with
    | ControlLane => (control_open h, control_tx h, control_bytes_per_second (fc_budget c))
    | DataLane => (data_open h, data_tx h, data_bytes_per_second (fc_budget c))
    end in
  if negb open then None
  else
    match send_queue l h with
    | message :: q => Some (write_frame rate message (with_send (with_send_queue l q h) c))
    | [] => if tx then None else Some (with_send (close_lane l h) c)
    end.
Definition writer_select (c : FramedConnection) : FramedConnection :=
  let h := send_half c in
  if negb (control_open h) && negb (data_open h) then with_send (with_writer AtShutdown h) c
  else
    match take_frame ControlLane c with
    | Some c => c
    | None => default c (take_frame DataLane c)
    end.

Inductive task_event :=
| Run (bytes : nat)
| Wake (elapsed : N)
| IoFails (e : IoErrorKind)
| TaskCancelled.

(** What the writer does when it is scheduled.  With no bytes left to write it
    waits for [flush]; the stream ends when it has shut down. *)
Definition writer_step (x : task_event) (c : FramedConnection) (out : pipe) : FramedConnection * pipe :=
  let h := send_half c in
  match x, writer h with
  | TaskCancelled, WriterEnded => (c, out)
  | TaskCancelled, _ =>
    if writer_aborted h then (with_send (with_writer WriterEnded h) c, out) else (c, out)
  | Run _, AtSelect => (writer_select c, out)
  | Wake elapsed, AtSendThrottle message nanos =>
    (if nanos <=? elapsed then start_frame message c else c, out)
  | Run _, AtWrite [] => (with_send (with_writer AtSelect h) c, out)
  | Run n, AtWrite rest =>
    (with_send (with_writer (AtWrite (drop n rest)) h) c,
     mkPipe (pipe_bytes out ++ take n rest) (pipe_ended out))
  | IoFails e, AtWrite _ =>
    (with_send (with_writer WriterEnded h) (set_terminal_error (io_error e) c), out)
  | Run _, AtShutdown => (with_send (with_writer WriterEnded h) c, mkPipe (pipe_bytes out) true)
  | IoFails _, AtShutdown => (with_send (with_writer WriterEnded h) c, out)
  | _, _ => (c, out)
  end.

(** ** The reader's task *)

Definition reader_ends (e : option TransportError) (c : FramedConnection) : FramedConnection :=
  let c := match e with Some e => set_terminal_error e c | None => c end in
  with_receive (with_reader ReaderEnded (receive_half c)) c.

(** The prefix says which lane a message is for. *)
Definition CONTROL_STREAM_PREFIX : list byte := str "MLCS".
Definition lane_of (message : list byte) : FramedLane :=
  if bool_decide (take (length CONTROL_STREAM_PREFIX) message = CONTROL_STREAM_PREFIX)
  then ControlLane else DataLane.

(** [read_loop] when the length is complete, and when the message is. *)
Definition got_length (got : list byte) (c : FramedConnection) : FramedConnection :=
  let length := from_be_bytes got in
  if max_frame_bytes (fc_budget c) <? length then
    reader_ends (Some (transport_error MessageTooLarge "received frame exceeds transport limit")) c
  else with_receive (with_reader (AtMessage length []) (receive_half c)) c.
Definition got_message (message : list byte) (c : FramedConnection) : FramedConnection :=
  with_receive
    (with_reader match receive_bytes_per_second (fc_budget c) with
                 | Some rate => AtReceiveThrottle message (throttle_nanos rate (len message))
                 | None => AtDeliver message
                 end (receive_half c)) c.
Definition deliver_message (message : list byte) (c : FramedConnection) : FramedConnection :=
  let h := receive_half c in
  let l := lane_of message in
  let capacity := match l with
                  | ControlLane => control_queue_capacity (fc_budget c)
                  | DataLane => receive_queue_capacity (fc_budget c)
                  end in
  if capacity <=? len (receive_queue l h) then c
  else with_receive (with_reader (AtLength []) (with_receive_queue l (receive_queue l h ++ [message]) h)) c.

(** The bytes [read] gives when up to [n] are asked for, of the [wanted]. *)
Definition read_pipe (n wanted : nat) (p : pipe) : list byte * pipe :=
  let n := Nat.min n wanted in (take n (pipe_bytes p), mkPipe (drop n (pipe_bytes p)) (pipe_ended p)).

(** What the reader does when it is scheduled.  The end of the stream between
    two frames, or within a length, is no error. *)
Definition reader_fails (e : IoErrorKind) (c : FramedConnection) : FramedConnection :=
  match reader (receive_half c) with
  | AtLength _ => reader_ends (if bool_decide (e = IoUnexpectedEof) then None else Some (io_error e)) c
  | AtMessage _ _ => reader_ends (Some (io_error e)) c
  | _ => c
  end.
Definition reader_step (x : task_event) (c : FramedConnection) (inp : pipe) : FramedConnection * pipe :=
  let h := receive_half c in
  match x, reader h with
  | TaskCancelled, ReaderEnded => (c, inp)
  | TaskCancelled, _ =>
    if reader_aborted h then (with_receive (with_reader ReaderEnded h) c, inp) else (c, inp)
  | Run n, AtLength got =>
    if bool_decide (pipe_bytes inp = []) && pipe_ended inp then (reader_fails IoUnexpectedEof c, inp)
    else
      let '(bytes, inp) := read_pipe n (4 - length got) inp in
      let got := got ++ bytes in
      (if len got =? 4 then got_length got c
       else with_receive (with_reader (AtLength got) h) c, inp)
  | Run n, AtMessage size got =>
    if (len got <? size) && bool_decide (pipe_bytes inp = []) && pipe_ended inp
    then (reader_fails IoUnexpectedEof c, inp)
    else
      let '(bytes, inp) := read_pipe n (N.to_nat size - length got) inp in
      let got := got ++ bytes in
      (if len got =? size then got_message got c
       else with_receive (with_reader (AtMessage size got) h) c, inp)
  | Wake elapsed, AtReceiveThrottle message nanos =>
    (if nanos <=? elapsed then with_receive (with_reader (AtDeliver message) h) c else c, inp)
  | Run _, AtDeliver message => (deliver_message message c, inp)
  | IoFails e, _ => (reader_fails e c, inp)
  | _, _ => (c, inp)
  end.

(** ** Two connections over one stream *)

Record FramedWorld := mkFramedWorld {
  left_end : FramedConnection;
  right_end : FramedConnection;
  from_left : pipe;
  from_right : pipe;
}.
Definition framed_end (e : pair_end) (w : FramedWorld) : FramedConnection :=
  match e with LeftEnd => left_end w | RightEnd => right_end w end.
Definition pipe_from (e : pair_end) (w : FramedWorld) : pipe :=
  match e with LeftEnd => from_left w | RightEnd => from_right w end.
Definition set_framed (e : pair_end) (c : FramedConnection) (w : FramedWorld) : FramedWorld :=
  match e with
  | LeftEnd => mkFramedWorld c (right_end w) (from_left w) (from_right w)
  | RightEnd => mkFramedWorld (left_end w) c (from_left w) (from_right w)
  end.
Definition set_pipe (e : pair_end) (p : pipe) (w : FramedWorld) : FramedWorld :=
  match e with
  | LeftEnd => mkFramedWorld (left_end w) (right_end w) p (from_right w)
  | RightEnd => mkFramedWorld (left_end w) (right_end w) (from_left w) p
  end.

(** A handle: the metadata and the end it stands for. *)
Record FramedHandle := mkFramedHandle { fh_metadata : ConnectionMetadata; fh_end : pair_end }.
Definition at_end {A} (e : pair_end) (f : FramedConnection -> FramedConnection * A) (w : FramedWorld)
    : FramedWorld * A :=
  let '(c, r) := f (framed_end e w) in (set_framed e c w, r).

Definition framed_connection : Connection FramedHandle FramedWorld := {|
  metadata := fh_metadata;
  try_send c m := at_end (fh_end c) (framed_try_send DataLane m);
  try_receive c := at_end (fh_end c) (framed_try_receive DataLane);
  try_send_control c m := at_end (fh_end c) (framed_try_send ControlLane m);
  try_receive_control c := at_end (fh_end c) (framed_try_receive ControlLane);
  try_send_datagram _ _ := default_datagram;
  try_receive_datagram _ := default_datagram;
  close_write c := at_end (fh_end c) (fun c => (framed_close_write c, Ok ()));
  close_read c := at_end (fh_end c) (fun c => (framed_close_read c, Ok ()));
  connection_abort c w := (at_end (fh_end c) (fun c => (framed_abort c, ())) w).1;
|}.
#[export] Existing Instance framed_connection.

(** A turn of a task.  The pipe of an end may also end when its writer has. *)
Inductive framed_task := WriterOf (e : pair_end) | ReaderOf (e : pair_end).
Definition task_step (t : framed_task) (x : task_event) (w : FramedWorld) : FramedWorld :=
  match t with
  | WriterOf e =>
    let '(c, p) := writer_step x (framed_end e w) (pipe_from e w) in set_pipe e p (set_framed e c w)
  | ReaderOf e =>
    let '(c, p) := reader_step x (framed_end e w) (pipe_from (other e) w) in
    set_pipe (other e) p (set_framed e c w)
  end.
Definition pipe_ends (e : pair_end) (w : FramedWorld) : FramedWorld :=
  if bool_decide (writer (send_half (framed_end e w)) = WriterEnded)
  then set_pipe e (mkPipe (pipe_bytes (pipe_from e w)) true) w else w.
