(* ===== verification/FramedFacts.v ===== *)
(** * The framed bridge keeps the order of each lane *)

From S2P Require Export Framed TransportFacts.
Local Open Scope N_scope.
Import TransportErrorKind.

(** ** The connection counter *)

(** Calls of [try_acquire], and drops of permits that are held. *)
Inductive permit_op := Acquire (limit : N) | DropPermit.
Definition permit_step (s : N * N) (x : permit_op) : N * N :=
  let '(current, held) := s in
  match x with
  | Acquire limit =>
    match try_acquire limit current with (current, true) => (current, held + 1) | (current, false) => (current, held) end
  | DropPermit => if held =? 0 then s else (drop_permit current, held - 1)
  end.

(** The counter is the number of permits held, and within the limits asked for. *)
Lemma counter_exact limit ops :
  limit <= usize_max -> Forall (fun x => match x with Acquire l => l <= limit | DropPermit => True end) ops ->
  let '(current, held) := fold_left permit_step ops (0, 0) in current = held /\ held <= limit.
Proof.
  intros Hl Hops. assert (forall n, n <= limit ->
    let '(current, held) := fold_left permit_step ops (n, n) in current = held /\ held <= limit) as H.
  { induction Hops as [|x ops Hx _ IH]; intros n Hn; [done|]. cbn [fold_left].
    destruct x as [l|]; cbn [permit_step].
    - unfold try_acquire. destruct (N.ltb_spec n l); [apply IH; lia|by apply IH].
    - destruct (N.eqb_spec n 0); [by apply IH|]. unfold drop_permit.
      replace (n + usize_max) with (n - 1 + 1 * (usize_max + 1)) by lia.
      rewrite N.Div0.mod_add, N.mod_small by lia. apply IH. lia. }
  apply H. lia.
Qed.

(** ** Frames on the stream *)

Definition frame_of (m : list byte) : list byte := be_bytes 4 (len m) ++ m.
Definition frames (l : list (list byte)) : list byte := concat (frame_of <$> l).
Definition small (m : list byte) : Prop := len m <= u32_max.

Lemma frames_app l1 l2 : frames (l1 ++ l2) = frames l1 ++ frames l2.
Proof. unfold frames. by rewrite fmap_app, concat_app. Qed.
Lemma frames_cons m l : frames (m :: l) = be_bytes 4 (len m) ++ m ++ frames l.
Proof. unfold frames, frame_of. cbn [fmap list_fmap concat]. by rewrite <- app_assoc. Qed.
Lemma frames_one m : frames [m] = frame_of m.
Proof. unfold frames. cbn. by rewrite app_nil_r. Qed.

Lemma from_frame_length m : small m -> from_be_bytes (be_bytes 4 (len m)) = len m.
Proof. intros Hm. apply from_be_bytes_small. unfold small in Hm. change (256 ^ N.of_nat 4) with (u32_max + 1). lia. Qed.

(** Frames are a prefix code. *)
Lemma frames_split d x sent :
  Forall small d -> Forall small sent -> frames d ++ x = frames sent ->
  exists rest, sent = d ++ rest /\ x = frames rest.
Proof.
  intros Hd. revert sent. induction Hd as [|m d Hm _ IH]; intros sent Hs Heq; [by exists sent|].
  rewrite frames_cons, <- !app_assoc in Heq. destruct Hs as [|m' sent Hm' Hs]; [discriminate Heq|].
  rewrite frames_cons in Heq. apply app_inj_1 in Heq as [Hl Heq]; [|by rewrite !be_bytes_length].
  apply (f_equal from_be_bytes) in Hl. rewrite !from_frame_length in Hl by done.
  apply app_inj_1 in Heq as [-> Heq]; [|lia].
  apply IH in Heq as (rest & -> & ->); [|done]. by exists rest.
Qed.

(** ** What the halves keep *)

(** The messages of a lane, among those that were taken in order. *)
Definition lane_messages (l : FramedLane) (taken : list (FramedLane * list byte)) : list (list byte) :=
  (filter (fun x => x.1 = l) taken).*2.

(** The writer's half: what was accepted for a lane was taken or is queued;
    what was taken is on the stream in whole frames, up to what is still to be
    written, or was lost with the task. *)
Definition writer_at_inv (clean : bool) (x : writer_at) (lost : list (list byte)) (rest : list byte) : Prop :=
  match x with
  | AtSelect | AtShutdown => rest = [] /\ lost = []
  | AtSendThrottle m _ => rest = [] /\ lost = [m]
  | AtWrite r => rest = r /\ lost = []
  | WriterEnded => clean = true -> rest = [] /\ lost = []
  end.
Definition writer_inv (clean : bool) (limit : N) (h : SendHalf) (acc : FramedLane -> list (list byte))
    (written : list byte) : Prop :=
  exists taken sent lost rest,
    (forall l, acc l = lane_messages l taken ++ send_queue l h)
    /\ (forall l, Forall (fun m => len m <= limit) (acc l))
    /\ taken.*2 = sent ++ lost /\ Forall small sent
    /\ written ++ rest = frames sent
    /\ writer_at_inv clean (writer h) lost rest.

(** The reader's half: the stream so far is cut into whole frames and what is
    held of the next; the lanes hold them in order. *)
Definition reader_at_inv (x : reader_at) (d : list (list byte)) (consumed : list byte) : Prop :=
  match x with
  | AtLength got => consumed = frames d ++ got /\ (length got < 4)%nat
  | AtMessage n got =>
    exists hd, length hd = 4%nat /\ from_be_bytes hd = n /\ consumed = frames d ++ hd ++ got /\ len got <= n
  | AtReceiveThrottle m _ | AtDeliver m => small m /\ consumed = frames (d ++ [m])
  | ReaderEnded => exists rest, consumed = frames d ++ rest
  end.
Definition reader_inv (h : ReceiveHalf) (rcv : FramedLane -> list (list byte)) (consumed : list byte) : Prop :=
  exists d,
    (forall l, rcv l ++ receive_queue l h = filter (fun m => lane_of m = l) d)
    /\ Forall small d /\ reader_at_inv (reader h) d consumed.

(** ** The writer's turns *)

Lemma lane_messages_snoc l taken l' m :
  lane_messages l (taken ++ [(l', m)]) = lane_messages l taken ++ if decide (l' = l) then [m] else [].
Proof.
  unfold lane_messages. rewrite filter_app, fmap_app. f_equal.
  rewrite filter_cons. cbn. by destruct (decide (l' = l)).
Qed.

Lemma send_queue_with_writer l x h : send_queue l (with_writer x h) = send_queue l h.
Proof. by destruct l. Qed.
Lemma send_queue_with_queue l l' q h :
  send_queue l (with_send_queue l' q h) = if decide (l = l') then q else send_queue l h.
Proof. by destruct l, l'. Qed.

(** [start_frame], on a message that was taken last. *)
Lemma start_frame_inv clean limit m c acc written taken sent :
  (forall l, acc l = lane_messages l taken ++ send_queue l (send_half c)) ->
  (forall l, Forall (fun m => len m <= limit) (acc l)) ->
  (clean = true -> limit <= u32_max) -> m ∈ taken.*2 ->
  taken.*2 = sent ++ [m] -> Forall small sent -> written = frames sent ->
  writer_inv clean limit (send_half (start_frame m c)) acc written.
Proof.
  intros Hacc Hlim Hcl Hin Ht Hs ->.
  assert (len m <= limit) as Hm.
  { apply list_elem_of_fmap in Hin as ([l m'] & -> & Hin). cbn.
    specialize (Hlim l). rewrite Forall_forall in Hlim. apply Hlim. rewrite Hacc.
    apply elem_of_app. left. apply list_elem_of_fmap. exists (l, m'). split; [done|].
    by apply list_elem_of_filter. }
  unfold start_frame. destruct (N.ltb_spec u32_max (len m)).
  - exists taken, sent, [m], []. cbn. split_and!; try done.
    + by rewrite app_nil_r.
    + intros Hc. specialize (Hcl Hc). lia.
  - exists taken, (sent ++ [m]), [], (frame_of m). cbn. split_and!; try done.
    + by rewrite app_nil_r.
    + apply Forall_app. split; [done|]. by constructor.
    + by rewrite frames_app, frames_one.
Qed.

Lemma write_frame_inv clean limit rate m c acc written taken sent :
  (forall l, acc l = lane_messages l taken ++ send_queue l (send_half c)) ->
  (forall l, Forall (fun m => len m <= limit) (acc l)) ->
  (clean = true -> limit <= u32_max) -> taken.*2 = sent ++ [m] -> Forall small sent -> written = frames sent ->
  writer_inv clean limit (send_half (write_frame rate m c)) acc written.
Proof.
  intros Hacc Hlim Hcl Ht Hs ->. destruct rate as [r|]; cbn.
  - exists taken, sent, [m], []. cbn. split_and!; try done. by rewrite app_nil_r.
  - eapply start_frame_inv; try done. rewrite Ht. apply elem_of_app. right. by apply list_elem_of_singleton.
Qed.

(** A turn in [select!]. *)
Lemma take_frame_inv clean limit l c c' acc written :
  (clean = true -> limit <= u32_max) -> writer (send_half c) = AtSelect ->
  writer_inv clean limit (send_half c) acc written -> take_frame l c = Some c' ->
  writer_inv clean limit (send_half c') acc written.
Proof.
  intros Hcl Hw (taken & sent & lost & rest & Hacc & Hlim & Ht & Hs & Hwr & Hat) Htake.
  rewrite Hw in Hat. destruct Hat as [-> ->]. rewrite app_nil_r in Ht, Hwr.
  unfold take_frame in Htake. destruct (match l with ControlLane => _ | DataLane => _ end) as [[open tx] rate].
  destruct open; [|done]. cbn [negb] in Htake.
  destruct (send_queue l (send_half c)) as [|m q] eqn:Hq.
  - destruct tx; [done|]. simplify_eq. exists taken, taken.*2, [], []. rewrite !app_nil_r. split_and!; try done.
    + unfold close_lane, with_send. cbn. by rewrite Hw.
  - simplify_eq. eapply (write_frame_inv _ _ _ _ _ _ _ (taken ++ [(l, m)]) (taken.*2)); try done.
    + intros l'. rewrite lane_messages_snoc, <- app_assoc, Hacc. f_equal. cbn.
      rewrite send_queue_with_queue. destruct (decide (l = l')) as [<-|Hl].
      * by rewrite decide_True, Hq.
      * by rewrite decide_False by done.
    + by rewrite fmap_app.
Qed.

Lemma writer_select_inv clean limit c acc written :
  (clean = true -> limit <= u32_max) -> writer (send_half c) = AtSelect ->
  writer_inv clean limit (send_half c) acc written ->
  writer_inv clean limit (send_half (writer_select c)) acc written.
Proof.
  intros Hcl Hw Hi. unfold writer_select. destruct (_ && _).
  - destruct Hi as (taken & sent & lost & rest & Hacc & Hlim & Ht & Hs & Hwr & Hat).
    rewrite Hw in Hat. by exists taken, sent, lost, rest.
  - destruct (take_frame ControlLane c) eqn:H1; [by eapply take_frame_inv|].
    destruct (take_frame DataLane c) eqn:H2; [by eapply take_frame_inv|done].
Qed.

(** The writer loses what it holds when it ends before its time. *)
Lemma writer_ended_inv limit h acc written :
  writer_inv false limit h acc written -> writer_inv false limit (with_writer WriterEnded h) acc written.
Proof.
  intros (taken & sent & lost & rest & Hacc & Hlim & Ht & Hs & Hwr & _).
  by exists taken, sent, lost, rest.
Qed.

(** A turn that is the program's own: no failure of the stream, no [abort]. *)
Definition own_turn (x : task_event) : Prop :=
  match x with Run _ | Wake _ => True | IoFails _ | TaskCancelled => False end.

Lemma writer_step_inv clean limit x c out c' out' acc written :
  (clean = true -> limit <= u32_max /\ own_turn x) ->
  writer_inv clean limit (send_half c) acc written -> writer_step x c out = (c', out') ->
  exists new, pipe_bytes out' = pipe_bytes out ++ new /\ writer_inv clean limit (send_half c') acc (written ++ new).
Proof.
  intros Hcl Hi Hstep.
  assert (forall y, c' = y -> out' = out -> writer_inv clean limit (send_half y) acc written ->
    exists new, pipe_bytes out' = pipe_bytes out ++ new
      /\ writer_inv clean limit (send_half c') acc (written ++ new)) as Hsame.
  { intros y -> -> H. exists []. by rewrite !app_nil_r. }
  assert (~ own_turn x -> clean = false) as Hf by (destruct clean; [|done]; by intros []; apply Hcl).
  pose proof Hi as (taken & sent & lost & rest & Hacc & Hlim & Ht & Hs & Hwr & Hat).
  unfold writer_step in Hstep.
  destruct x as [n|elapsed|e|], (writer (send_half c)) as [|m t|r| |] eqn:Hw;
    try (simplify_eq; by eapply Hsame).
  { simplify_eq. eapply Hsame; [done..|]. apply writer_select_inv; try done. intros Hc. by apply Hcl. }
  { destruct Hat as [-> ->]. destruct r as [|b r]; simplify_eq.
    + eapply Hsame; [done..|]. by exists taken, sent, [], [].
    + exists (take n (b :: r)). split; [done|]. exists taken, sent, [], (drop n (b :: r)). split_and!; try done.
      by rewrite <- app_assoc, take_drop. }
  { simplify_eq. exists []. rewrite !app_nil_r. split; [done|]. destruct Hat as [-> ->].
    by exists taken, sent, [], []. }
  { destruct (t <=? elapsed); simplify_eq; (eapply Hsame; [done..|]); [|done].
    destruct Hat as [-> ->]. rewrite app_nil_r in Hwr.
    eapply start_frame_inv; try done; [intros Hc; by apply Hcl|].
    rewrite Ht. apply elem_of_app. right. by apply list_elem_of_singleton. }
  all: rewrite Hf in * by by intros [].
  all: try destruct (writer_aborted _); simplify_eq; (eapply Hsame; [done..|]);
    first [done | by apply writer_ended_inv].
Qed.

(** ** The reader's turns *)

Lemma reader_ended_inv h d rcv consumed :
  (forall l, rcv l ++ receive_queue l h = filter (fun m => lane_of m = l) d) -> Forall small d ->
  (exists rest, consumed = frames d ++ rest) ->
  reader_inv (with_reader ReaderEnded h) rcv consumed.
Proof. intros Hr Hd Hc. by exists d. Qed.

Lemma reader_at_prefix x d consumed :
  reader_at_inv x d consumed -> exists rest, consumed = frames d ++ rest.
Proof.
  destruct x; cbn.
  - intros [-> _]. by eexists.
  - intros (hd & _ & _ & -> & _). by eexists.
  - rewrite frames_app. intros [_ ->]. by eexists.
  - rewrite frames_app. intros [_ ->]. by eexists.
  - done.
Qed.

Lemma reader_ends_inv e c rcv consumed :
  reader_inv (receive_half c) rcv consumed -> reader_inv (receive_half (reader_ends e c)) rcv consumed.
Proof.
  intros (d & Hr & Hd & Hat). assert (receive_half (reader_ends e c)
    = with_reader ReaderEnded (receive_half c)) as -> by by destruct e.
  eapply reader_ended_inv; try done. by eapply reader_at_prefix.
Qed.
Lemma reader_fails_inv e c rcv consumed :
  reader_inv (receive_half c) rcv consumed -> reader_inv (receive_half (reader_fails e c)) rcv consumed.
Proof. intros Hi. unfold reader_fails. destruct (reader _); try done; by apply reader_ends_inv. Qed.

Lemma got_length_inv hd c rcv d :
  (forall l, rcv l ++ receive_queue l (receive_half c) = filter (fun m => lane_of m = l) d) ->
  Forall small d -> length hd = 4%nat ->
  reader_inv (receive_half (got_length hd c)) rcv (frames d ++ hd).
Proof.
  intros Hr Hd Hl. unfold got_length. destruct (_ <? _).
  - eapply reader_ended_inv; try done. by eexists.
  - exists d. split_and!; try done. exists hd. rewrite app_nil_r. cbn. split_and!; try done. lia.
Qed.

Lemma frame_of_parts hd m :
  length hd = 4%nat -> from_be_bytes hd = len m -> small m /\ frame_of m = hd ++ m.
Proof.
  intros Hl Hb. unfold small, frame_of. rewrite <- Hb. split.
  - pose proof (from_be_bytes_bound hd) as Hbound. rewrite Hl in Hbound.
    change (256 ^ N.of_nat 4) with (u32_max + 1) in Hbound. lia.
  - by rewrite (be_bytes_from hd 4).
Qed.

Lemma got_message_inv m hd c rcv d :
  (forall l, rcv l ++ receive_queue l (receive_half c) = filter (fun m => lane_of m = l) d) ->
  Forall small d -> length hd = 4%nat -> from_be_bytes hd = len m ->
  reader_inv (receive_half (got_message m c)) rcv (frames d ++ hd ++ m).
Proof.
  intros Hr Hd Hl Hb. destruct (frame_of_parts hd m Hl Hb) as [Hm Hf].
  exists d. split_and!; try done. unfold got_message. cbn.
  destruct (receive_bytes_per_second _); cbn; by rewrite frames_app, frames_one, Hf.
Qed.

Lemma deliver_message_inv m c rcv d :
  (forall l, rcv l ++ receive_queue l (receive_half c) = filter (fun m => lane_of m = l) d) ->
  Forall small d -> small m -> reader (receive_half c) = AtDeliver m ->
  reader_inv (receive_half (deliver_message m c)) rcv (frames (d ++ [m])).
Proof.
  intros Hr Hd Hm Hrd. unfold deliver_message. destruct (_ <=? _).
  - exists d. rewrite Hrd. by split_and!.
  - exists (d ++ [m]). split_and!.
    + intros l. rewrite filter_app, <- Hr, <- app_assoc. f_equal. rewrite filter_cons. cbn.
      destruct (lane_of m), l; cbn; by rewrite ?app_nil_r.
    + apply Forall_app. split; [done|by constructor].
    + cbn. rewrite app_nil_r. split; [done|lia].
Qed.

Lemma read_pipe_spec n wanted p bytes p' : read_pipe n wanted p = (bytes, p') ->
  pipe_bytes p = bytes ++ pipe_bytes p' /\ (length bytes <= wanted)%nat /\ pipe_ended p' = pipe_ended p.
Proof.
  unfold read_pipe. intros; simplify_eq. cbn. rewrite take_drop, length_take. split_and!; try done. lia.
Qed.

Lemma reader_step_inv x c inp c' inp' rcv consumed :
  reader_inv (receive_half c) rcv consumed -> reader_step x c inp = (c', inp') ->
  exists got, pipe_bytes inp = got ++ pipe_bytes inp' /\ reader_inv (receive_half c') rcv (consumed ++ got).
Proof.
  intros Hi Hstep.
  assert (forall y, c' = y -> inp' = inp -> reader_inv (receive_half y) rcv consumed ->
    exists got, pipe_bytes inp = got ++ pipe_bytes inp'
      /\ reader_inv (receive_half c') rcv (consumed ++ got)) as Hsame.
  { intros y -> -> H. exists []. by rewrite app_nil_r. }
  pose proof Hi as (d & Hr & Hd & Hat). pose proof (reader_at_prefix _ _ _ Hat) as Hpre.
  unfold reader_step in Hstep.
  destruct x as [n|elapsed|e|], (reader (receive_half c)) as [got|size got|m t|m|] eqn:Hrd;
    try (simplify_eq; eapply Hsame; try done; by apply reader_fails_inv).
  { destruct (_ && _); [simplify_eq; eapply Hsame; try done; by apply reader_fails_inv|].
    destruct (read_pipe _ _ inp) as [bytes p] eqn:Hp. apply read_pipe_spec in Hp as (Hp & Hn & _).
    destruct Hat as [-> Hl]. simplify_eq. exists bytes. split; [done|]. rewrite <- app_assoc.
    destruct (N.eqb_spec (len (got ++ bytes)) 4) as [E|E]; [apply got_length_inv; try done; lia|].
    exists d. split_and!; try done. cbn. split; [done|]. rewrite length_app in *. lia. }
  { destruct (_ && _); [simplify_eq; eapply Hsame; try done; by apply reader_fails_inv|].
    destruct (read_pipe _ _ inp) as [bytes p] eqn:Hp. apply read_pipe_spec in Hp as (Hp & Hn & _).
    destruct Hat as (hd & Hl & Hb & -> & Hg). simplify_eq. exists bytes. split; [done|].
    rewrite <- !app_assoc.
    destruct (N.eqb_spec (len (got ++ bytes)) (from_be_bytes hd)) as [E|E]; [by apply got_message_inv|].
    exists d. split_and!; try done. exists hd. split_and!; try done. rewrite length_app. lia. }
  { simplify_eq. eapply Hsame; try done. destruct Hat as [Hm ->]. by apply deliver_message_inv. }
  { destruct (t <=? elapsed); simplify_eq; (eapply Hsame; [done..|]); [|done]. by exists d. }
  all: destruct (reader_aborted _); simplify_eq; (eapply Hsame; [done..|]);
    first [done | by eapply reader_ended_inv].
Qed.

(** ** Runs *)

Inductive framed_action :=
| FSend (e : pair_end) (l : FramedLane) (m : list byte)
| FPoll (e : pair_end) (l : FramedLane)
| FCloseWrite (e : pair_end)
| FCloseRead (e : pair_end)
| FAbort (e : pair_end)
| FTurn (t : framed_task) (x : task_event)
| FPipeEnds (e : pair_end).
Inductive framed_out :=
| OSent (r : result TransportError ())
| OPolled (p : option polled)
| ONone.

(** [FPoll] is a receiving call up to its look at the reader, which changes
    nothing; a call on a closed read side ends before it. *)
Definition poll_end (l : FramedLane) (c : FramedConnection) : FramedConnection * option polled :=
  if fc_read_closed (receive_half c) then (c, None)
  else let '(c, p) := framed_poll l c in (c, Some p).
Lemma try_receive_poll l c :
  framed_try_receive l c =
  let '(c, p) := poll_end l c in
  (c, match p with Some p => framed_settle l p c | None => Err read_closed_error end).
Proof. unfold framed_try_receive, poll_end. destruct (fc_read_closed _); [done|]. by destruct (framed_poll l c). Qed.

Definition framed_act (a : framed_action) (w : FramedWorld) : FramedWorld * framed_out :=
  match a with
  | FSend e l m => let '(w, r) := at_end e (framed_try_send l m) w in (w, OSent r)
  | FPoll e l => let '(w, p) := at_end e (poll_end l) w in (w, OPolled p)
  | FCloseWrite e => (set_framed e (framed_close_write (framed_end e w)) w, ONone)
  | FCloseRead e => (set_framed e (framed_close_read (framed_end e w)) w, ONone)
  | FAbort e => (set_framed e (framed_abort (framed_end e w)) w, ONone)
  | FTurn t x => (task_step t x w, ONone)
  | FPipeEnds e => (pipe_ends e w, ONone)
  end.
Fixpoint framed_run (w : FramedWorld) (acts : list framed_action)
    : FramedWorld * list (framed_action * framed_out) :=
  match acts with
  | [] => (w, [])
  | a :: acts =>
    let '(w, o) := framed_act a w in
    let '(w, h) := framed_run w acts in (w, (a, o) :: h)
  end.

(** What an end's calls accepted for a lane, and what they received from one. *)
Definition accepted_by (e : pair_end) (l : FramedLane) (x : framed_action * framed_out) : option (list byte) :=
  match x with
  | (FSend e' l' m, OSent (Ok _)) => if bool_decide (e' = e /\ l' = l) then Some m else None
  | _ => None
  end.
Definition received_by (e : pair_end) (l : FramedLane) (x : framed_action * framed_out) : option (list byte) :=
  match x with
  | (FPoll e' l', OPolled (Some (PolledMessage m))) => if bool_decide (e' = e /\ l' = l) then Some m else None
  | _ => None
  end.
Definition accepted (e : pair_end) (h : list (framed_action * framed_out)) (l : FramedLane) : list (list byte) :=
  omap (accepted_by e l) h.
Definition received (e : pair_end) (h : list (framed_action * framed_out)) (l : FramedLane) : list (list byte) :=
  omap (received_by e l) h.

(** The direction from an end keeps its invariant, with what its calls
    accepted and the other end's received so far. *)
Definition direction_inv (clean : bool) (e : pair_end) (w : FramedWorld)
    (acc rcv : FramedLane -> list (list byte)) : Prop :=
  exists written consumed,
    written = consumed ++ pipe_bytes (pipe_from e w)
    /\ writer_inv clean (max_frame_bytes (fc_budget (framed_end e w))) (send_half (framed_end e w)) acc written
    /\ reader_inv (receive_half (framed_end (other e) w)) rcv consumed.

Lemma framed_end_set e e' c w :
  framed_end e (set_framed e' c w) = if decide (e = e') then c else framed_end e w.
Proof. by destruct e, e'. Qed.
Lemma pipe_from_set e e' p w :
  pipe_from e (set_pipe e' p w) = if decide (e = e') then p else pipe_from e w.
Proof. by destruct e, e'. Qed.
Lemma framed_end_set_pipe e e' p w : framed_end e (set_pipe e' p w) = framed_end e w.
Proof. by destruct e, e'. Qed.
Lemma pipe_from_set_framed e e' c w : pipe_from e (set_framed e' c w) = pipe_from e w.
Proof. by destruct e, e'. Qed.
Lemma framed_end_same e c w : framed_end e (set_framed e c w) = c.
Proof. by destruct e. Qed.
Lemma framed_end_near e c w : framed_end e (set_framed (other e) c w) = framed_end e w.
Proof. by destruct e. Qed.
Lemma framed_end_far e c w : framed_end (other e) (set_framed e c w) = framed_end (other e) w.
Proof. by destruct e. Qed.
Lemma pipe_from_same e p w : pipe_from e (set_pipe e p w) = p.
Proof. by destruct e. Qed.
Lemma pipe_from_near e p w : pipe_from e (set_pipe (other e) p w) = pipe_from e w.
Proof. by destruct e. Qed.
Lemma pipe_from_far e p w : pipe_from (other e) (set_pipe e p w) = pipe_from (other e) w.
Proof. by destruct e. Qed.
Create Rewrite HintDb framed.
#[export] Hint Rewrite framed_end_same framed_end_near framed_end_far pipe_from_same pipe_from_near
  pipe_from_far framed_end_set_pipe pipe_from_set_framed other_other : framed.
Lemma ne_other e : e <> other e.
Proof. by destruct e. Qed.
Lemma other_inv e e' : e' = e \/ e' = other e.
Proof. destruct e, e'; auto. Qed.

(** What each turn leaves alone. *)
Lemma writer_step_frame x c out c' out' : writer_step x c out = (c', out') ->
  receive_half c' = receive_half c /\ fc_budget c' = fc_budget c.
Proof.
  assert (forall m, receive_half (start_frame m c) = receive_half c /\ fc_budget (start_frame m c) = fc_budget c)
    as Hstart by (intros m; unfold start_frame; by destruct (_ <? _)).
  assert (forall l y, take_frame l c = Some y -> receive_half y = receive_half c /\ fc_budget y = fc_budget c) as Htake.
  { intros l y. unfold take_frame. destruct (match l with ControlLane => _ | DataLane => _ end) as [[[] tx] rate]; [|done].
    cbn. destruct (send_queue _ _); [destruct tx; [done|]; by intros [= <-]|]. intros [= <-].
    destruct rate; [done|]. cbn. unfold start_frame. by destruct (_ <? _). }
  unfold writer_step, writer_select.
  destruct x as [n|elapsed|e|], (writer (send_half c)) as [|m t|[]| |]; try (by intros; simplify_eq).
  - destruct (_ && _); [by intros; simplify_eq|].
    destruct (take_frame ControlLane c) eqn:H1; [intros; simplify_eq; by eapply Htake|].
    destruct (take_frame DataLane c) eqn:H2; [intros; simplify_eq; by eapply Htake|by intros; simplify_eq].
  - destruct (_ <=? _); intros; simplify_eq; [apply Hstart|done].
  - destruct (writer_aborted _); by intros; simplify_eq.
  - destruct (writer_aborted _); by intros; simplify_eq.
  - destruct (writer_aborted _); by intros; simplify_eq.
  - destruct (writer_aborted _); by intros; simplify_eq.
  - destruct (writer_aborted _); by intros; simplify_eq.
Qed.

Lemma reader_ends_frame e c : send_half (reader_ends e c) = send_half c /\ fc_budget (reader_ends e c) = fc_budget c.
Proof. by destruct e. Qed.
Lemma reader_fails_frame e c : send_half (reader_fails e c) = send_half c /\ fc_budget (reader_fails e c) = fc_budget c.
Proof. unfold reader_fails. destruct (reader _); try done; apply reader_ends_frame. Qed.

Lemma reader_step_frame x c inp c' inp' : reader_step x c inp = (c', inp') ->
  send_half c' = send_half c /\ fc_budget c' = fc_budget c.
Proof.
  unfold reader_step. intros Hs.
  destruct x as [n|elapsed|e|], (reader (receive_half c)) as [got|size got|m t|m|];
    try (simplify_eq; first [done | apply reader_fails_frame]).
  - destruct (_ && _); [simplify_eq; apply reader_fails_frame|].
    destruct (read_pipe _ _ inp) as [bytes p]. simplify_eq. destruct (_ =? _); [|done].
    unfold got_length. destruct (_ <? _); [apply reader_ends_frame|done].
  - destruct (_ && _); [simplify_eq; apply reader_fails_frame|].
    destruct (read_pipe _ _ inp) as [bytes p]. simplify_eq. by destruct (_ =? _).
  - simplify_eq. unfold deliver_message. by destruct (_ <=? _).
  - destruct (_ <=? _); by simplify_eq.
  - destruct (reader_aborted _); by simplify_eq.
  - destruct (reader_aborted _); by simplify_eq.
  - destruct (reader_aborted _); by simplify_eq.
  - destruct (reader_aborted _); by simplify_eq.
Qed.

(** [try_send], on every path. *)
Lemma framed_try_send_spec l m c c' r : framed_try_send l m c = (c', r) ->
  match r with
  | Ok _ => c' = with_send (with_send_queue l (send_queue l (send_half c) ++ [m]) (send_half c)) c
      /\ len m <= max_frame_bytes (fc_budget c) /\ fc_write_closed (send_half c) = false
  | Err _ => c' = c
  end.
Proof.
  unfold framed_try_send, framed_enqueue. destruct (fc_write_closed _) eqn:Hw; [intros; by simplify_eq|].
  destruct (negb _); [intros; by simplify_eq|].
  destruct (N.ltb_spec (max_frame_bytes (fc_budget c)) (len m)); [intros; by simplify_eq|].
  destruct (bool_decide _); [intros; by simplify_eq|].
  destruct (match l with ControlLane => _ | DataLane => _ end <=? _); intros; by simplify_eq.
Qed.

Lemma poll_end_spec l c c' p : poll_end l c = (c', p) ->
  match p with
  | Some (PolledMessage m) => exists q, receive_queue l (receive_half c) = m :: q
      /\ c' = with_receive (with_receive_queue l q (receive_half c)) c
  | _ => c' = c
  end.
Proof.
  unfold poll_end, framed_poll. destruct (fc_read_closed _); [intros; by simplify_eq|].
  destruct (receive_queue l _) as [|m q]; intros; simplify_eq; [by destruct (bool_decide _)|by exists q].
Qed.

Lemma receive_queue_with_queue l l' q h :
  receive_queue l (with_receive_queue l' q h) = if decide (l = l') then q else receive_queue l h.
Proof. by destruct l, l'. Qed.

(** A call extends what was accepted or received by its lane. *)
Definition extended (f : FramedLane -> list (list byte)) (g : FramedLane -> option (list byte))
    (l : FramedLane) : list (list byte) := f l ++ option_list (g l).

Lemma writer_inv_send clean limit l m h acc written :
  writer_inv clean limit h acc written -> len m <= limit ->
  writer_inv clean limit (with_send_queue l (send_queue l h ++ [m]) h)
    (extended acc (fun l' => if bool_decide (l = l') then Some m else None)) written.
Proof.
  intros (taken & sent & lost & rest & Hacc & Hlim & Ht & Hs & Hwr & Hat) Hm.
  exists taken, sent, lost, rest. unfold extended. split_and!; try done.
  - intros l'. rewrite Hacc, send_queue_with_queue, <- app_assoc. f_equal.
    destruct (decide (l' = l)) as [->|Hl]; [by rewrite bool_decide_true|].
    rewrite bool_decide_false by congruence. by rewrite app_nil_r.
  - intros l'. apply Forall_app. split; [done|]. destruct (bool_decide _); cbn; by repeat constructor.
  - by destruct l.
Qed.
Lemma reader_inv_poll l m q h rcv consumed :
  reader_inv h rcv consumed -> receive_queue l h = m :: q ->
  reader_inv (with_receive_queue l q h)
    (extended rcv (fun l' => if bool_decide (l = l') then Some m else None)) consumed.
Proof.
  intros (d & Hr & Hd & Hat) Hq. exists d. unfold extended. split_and!; try done; [|by destruct l].
  intros l'. rewrite <- Hr, receive_queue_with_queue, <- app_assoc.
  destruct (decide (l' = l)) as [->|Hl]; [rewrite bool_decide_true by done; by rewrite Hq|].
  by rewrite bool_decide_false by congruence.
Qed.
Lemma direction_inv_ext clean e w acc acc' rcv rcv' :
  direction_inv clean e w acc rcv -> (forall l, acc l = acc' l) -> (forall l, rcv l = rcv' l) ->
  direction_inv clean e w acc' rcv'.
Proof.
  intros (written & consumed & Hwc & (taken & sent & lost & rest & Hacc & Hlim & Hw) & (d & Hr & Hd)) Ha Hb.
  exists written, consumed. split; [done|]. split.
  - exists taken, sent, lost, rest. split_and!; try apply Hw; intros l; rewrite <- Ha; [apply Hacc|apply Hlim].
  - exists d. split; [|done]. intros l. by rewrite <- Hb.
Qed.

Definition own_action (a : framed_action) : Prop :=
  match a with FTurn _ x => own_turn x | FCloseRead _ | FAbort _ => False | _ => True end.

(** A change of one connection keeps a direction when it keeps its half. *)
Lemma direction_inv_set clean e e' c w acc rcv :
  direction_inv clean e w acc rcv -> fc_budget c = fc_budget (framed_end e' w) ->
  (e' = e -> forall written, writer_inv clean (max_frame_bytes (fc_budget c)) (send_half (framed_end e' w)) acc written ->
     writer_inv clean (max_frame_bytes (fc_budget c)) (send_half c) acc written) ->
  (e' = other e -> forall consumed, reader_inv (receive_half (framed_end e' w)) rcv consumed ->
     reader_inv (receive_half c) rcv consumed) ->
  direction_inv clean e (set_framed e' c w) acc rcv.
Proof.
  intros (written & consumed & Hwc & Hw & Hr) Hb Hsend Hrecv. exists written, consumed.
  rewrite pipe_from_set_framed, !framed_end_set. split; [done|]. split.
  - destruct (decide (e = e')) as [->|]; [|done]. rewrite Hb. rewrite Hb in Hsend. by apply Hsend.
  - destruct (decide (other e = e')) as [<-|]; [|done]. by apply Hrecv.
Qed.

Lemma accepted_by_same e l l' m :
  accepted_by e l' (FSend e l m, OSent (Ok ())) = if bool_decide (l = l') then Some m else None.
Proof. cbn. do 2 case_bool_decide; naive_solver. Qed.
Lemma received_by_same e l l' m :
  received_by e l' (FPoll e l, OPolled (Some (PolledMessage m))) = if bool_decide (l = l') then Some m else None.
Proof. cbn. do 2 case_bool_decide; naive_solver. Qed.

Lemma direction_send clean e e' l m w w' r acc rcv :
  direction_inv clean e w acc rcv -> at_end e' (framed_try_send l m) w = (w', r) ->
  direction_inv clean e w' (extended acc (fun l' => accepted_by e l' (FSend e' l m, OSent r))) rcv.
Proof.
  intros Hi Hs. unfold at_end in Hs. destruct (framed_try_send l m _) as [c r'] eqn:Ht.
  apply framed_try_send_spec in Ht. simplify_eq.
  assert (forall y, direction_inv clean e y acc rcv ->
    (forall l', accepted_by e l' (FSend e' l m, OSent r) = None) ->
    direction_inv clean e y (extended acc (fun l' => accepted_by e l' (FSend e' l m, OSent r))) rcv) as Hnone.
  { intros y H Hn. eapply direction_inv_ext; [exact H| |done]. intros l'. unfold extended. by rewrite Hn, app_nil_r. }
  destruct r as [[]|err].
  - destruct Ht as (-> & Hm & _). destruct (other_inv e e') as [->| ->].
    + eapply direction_inv_ext; [|intros l'; unfold extended; by rewrite accepted_by_same|done].
      destruct Hi as (written & consumed & Hwc & Hw & Hr). exists written, consumed.
      autorewrite with framed. split_and!; try done. by eapply writer_inv_send.
    + apply Hnone; [|intros l'; cbn; rewrite bool_decide_false; [done|by intros [? _]; eapply other_ne]].
      apply direction_inv_set; auto. by intros ?%other_ne.
  - subst c. apply Hnone; [|done]. apply direction_inv_set; auto.
Qed.

Lemma direction_poll clean e e' l w w' p acc rcv :
  direction_inv clean e w acc rcv -> at_end e' (poll_end l) w = (w', p) ->
  direction_inv clean e w' acc (extended rcv (fun l' => received_by (other e) l' (FPoll e' l, OPolled p))).
Proof.
  intros Hi Hs. unfold at_end in Hs. destruct (poll_end l _) as [c p'] eqn:Hp.
  apply poll_end_spec in Hp. simplify_eq.
  assert (forall y, direction_inv clean e y acc rcv ->
    (forall l', received_by (other e) l' (FPoll e' l, OPolled p) = None) ->
    direction_inv clean e y acc (extended rcv (fun l' => received_by (other e) l' (FPoll e' l, OPolled p)))) as Hnone.
  { intros y H Hn. eapply direction_inv_ext; [exact H|done|]. intros l'. unfold extended. by rewrite Hn, app_nil_r. }
  destruct p as [[m| |]|]; [|subst c; apply Hnone; [apply direction_inv_set; auto|done]..].
  destruct Hp as (q & Hq & ->). destruct (other_inv e e') as [->| ->].
  - apply Hnone; [|intros l'; cbn; rewrite bool_decide_false; [done|by intros [?%ne_other _]]].
    apply direction_inv_set; auto. by intros ?%ne_other.
  - eapply direction_inv_ext; [|done|intros l'; unfold extended; by rewrite received_by_same].
    destruct Hi as (written & consumed & Hwc & Hw & Hr). exists written, consumed.
    autorewrite with framed. split_and!; try done. by eapply reader_inv_poll.
Qed.

Lemma direction_turn clean e t x w acc rcv :
  (clean = true -> max_frame_bytes (fc_budget (framed_end e w)) <= u32_max /\ own_turn x) ->
  direction_inv clean e w acc rcv -> direction_inv clean e (task_step t x w) acc rcv.
Proof.
  intros Hcl Hi. pose proof Hi as (written & consumed & Hwc & Hw & Hr). destruct t as [e'|e']; unfold task_step.
  - destruct (writer_step x _ _) as [c p] eqn:Hs. pose proof (writer_step_frame _ _ _ _ _ Hs) as [Hf Hb].
    destruct (other_inv e e') as [->| ->].
    + eapply writer_step_inv in Hs as (new & Hp & Hw'); [|exact Hcl|exact Hw].
      exists (written ++ new), consumed. autorewrite with framed.
      rewrite Hp, Hwc, app_assoc, Hb. by rewrite Hwc in Hw'.
    + exists written, consumed. autorewrite with framed. by rewrite Hf.
  - destruct (reader_step x _ _) as [c p] eqn:Hs. pose proof (reader_step_frame _ _ _ _ _ Hs) as [Hf Hb].
    destruct (other_inv e e') as [->| ->].
    + exists written, consumed. autorewrite with framed. by rewrite Hf, Hb.
    + autorewrite with framed in Hs. eapply reader_step_inv in Hs as (got & Hp & Hr'); [|exact Hr].
      exists written, (consumed ++ got). autorewrite with framed. by rewrite Hwc, Hp, <- app_assoc in *.
Qed.

Lemma direction_act clean e a w w' o acc rcv :
  (clean = true -> max_frame_bytes (fc_budget (framed_end e w)) <= u32_max /\ own_action a) ->
  direction_inv clean e w acc rcv -> framed_act a w = (w', o) ->
  direction_inv clean e w' (extended acc (fun l => accepted_by e l (a, o)))
    (extended rcv (fun l => received_by (other e) l (a, o))).
Proof.
  intros Hcl Hi Ha.
  assert (forall y, direction_inv clean e y acc rcv -> (forall l, accepted_by e l (a, o) = None) ->
    (forall l, received_by (other e) l (a, o) = None) ->
    direction_inv clean e y (extended acc (fun l => accepted_by e l (a, o)))
      (extended rcv (fun l => received_by (other e) l (a, o)))) as Hnone.
  { intros y Hy H1 H2. eapply direction_inv_ext; [exact Hy|..]; intros l; unfold extended;
      by rewrite ?H1, ?H2, app_nil_r. }
  assert (forall f, (forall l, f l = None (A := list byte)) -> forall l, extended rcv f l = rcv l) as Hrcv.
  { intros f Hf l. unfold extended. by rewrite Hf, app_nil_r. }
  assert (forall f, (forall l, f l = None (A := list byte)) -> forall l, extended acc f l = acc l) as Hacc.
  { intros f Hf l. unfold extended. by rewrite Hf, app_nil_r. }
  destruct a as [e' l m|e' l|e'|e'|e'|t x|e']; cbn [framed_act] in Ha.
  - destruct (at_end _ _ w) as [v r] eqn:Hs. simplify_eq. eapply direction_inv_ext;
      [by eapply direction_send|done|]. intros l'. by rewrite Hrcv.
  - destruct (at_end _ _ w) as [v p] eqn:Hs. simplify_eq. eapply direction_inv_ext;
      [by eapply direction_poll|..|done]. intros l'. by rewrite Hacc.
  - simplify_eq. apply Hnone; try done. apply direction_inv_set; try done;
      unfold framed_close_write; destruct (fc_write_closed _); auto.
  - simplify_eq. apply Hnone; try done. by apply direction_inv_set.
  - simplify_eq. apply Hnone; try done. by apply direction_inv_set.
  - simplify_eq. apply Hnone; try done. by apply direction_turn.
  - simplify_eq. apply Hnone; try done. unfold pipe_ends. destruct (bool_decide _); [|done].
    destruct Hi as (written & consumed & Hwc & Hw & Hr). exists written, consumed.
    by destruct (other_inv e e') as [->| ->]; autorewrite with framed.
Qed.

Lemma framed_act_budget e a w w' o : framed_act a w = (w', o) ->
  fc_budget (framed_end e w') = fc_budget (framed_end e w).
Proof.
  assert (forall e' c, fc_budget c = fc_budget (framed_end e' w) ->
    fc_budget (framed_end e (set_framed e' c w)) = fc_budget (framed_end e w)) as Hset.
  { intros e' c Hc. rewrite framed_end_set. by destruct (decide _) as [->|]. }
  destruct a as [e' l m|e' l|e'|e'|e'|[e'|e'] x|e']; cbn; unfold at_end.
  - destruct (framed_try_send l m _) as [c [[]|]] eqn:Ht; apply framed_try_send_spec in Ht; intros; simplify_eq;
      apply Hset; [by destruct Ht as [-> _]|done].
  - destruct (poll_end l _) as [c [[m| |]|]] eqn:Ht; apply poll_end_spec in Ht; intros; simplify_eq;
      apply Hset; try done. by destruct Ht as (q & _ & ->).
  - intros; simplify_eq. apply Hset. unfold framed_close_write. by destruct (fc_write_closed _).
  - intros; simplify_eq. by apply Hset.
  - intros; simplify_eq. by apply Hset.
  - destruct (writer_step x _ _) as [c p] eqn:Hs. apply writer_step_frame in Hs. intros; simplify_eq.
    rewrite framed_end_set_pipe. apply Hset, Hs.
  - destruct (reader_step x _ _) as [c p] eqn:Hs. apply reader_step_frame in Hs. intros; simplify_eq.
    rewrite framed_end_set_pipe. apply Hset, Hs.
  - intros; simplify_eq. unfold pipe_ends. destruct (bool_decide _); [by rewrite framed_end_set_pipe|done].
Qed.

Lemma direction_run clean e acts w w' h acc rcv :
  (clean = true -> max_frame_bytes (fc_budget (framed_end e w)) <= u32_max /\ Forall own_action acts) ->
  direction_inv clean e w acc rcv -> framed_run w acts = (w', h) ->
  direction_inv clean e w' (fun l => acc l ++ accepted e h l) (fun l => rcv l ++ received (other e) h l).
Proof.
  revert w acc rcv h. induction acts as [|a acts IH]; intros w acc rcv h Hcl Hi Hrun; cbn in Hrun.
  { simplify_eq. eapply direction_inv_ext; [exact Hi|..]; intros l; by rewrite app_nil_r. }
  destruct (framed_act a w) as [w1 o] eqn:Ha. destruct (framed_run w1 acts) as [w2 h2] eqn:Hr. simplify_eq.
  eapply direction_inv_ext; [eapply IH; [|eapply direction_act; [|exact Hi|exact Ha]|exact Hr]|..].
  - intros Hc. rewrite (framed_act_budget _ _ _ _ _ Ha). destruct (Hcl Hc) as [? [? ?]%Forall_cons]. done.
  - intros Hc. by destruct (Hcl Hc) as [? [? ?]%Forall_cons].
  - intros l. unfold extended, accepted. cbn [omap list_omap]. rewrite <- app_assoc.
    by destruct (accepted_by e l (a, o)).
  - intros l. unfold extended, received. cbn [omap list_omap]. rewrite <- app_assoc.
    by destruct (received_by (other e) l (a, o)).
Qed.

(** A fresh pair over a stream. *)
Definition framed_pair (left right : FramedConnection) : FramedWorld :=
  mkFramedWorld left right (mkPipe [] false) (mkPipe [] false).
Lemma spawn_spec runtime b c : spawn_framed_halves runtime b = Ok c ->
  c = mkFramed b (mkSendHalf true true [] [] true true AtSelect false false)
        (mkReceiveHalf [] [] (AtLength []) false false) None
  /\ transport_budget_validate b = Ok b.
Proof.
  assert (forall a, transport_budget_validate b = Ok a -> a = b) as Hv.
  { unfold transport_budget_validate. intros a Ha. by inv_ok. }
  unfold spawn_framed_halves. intros Hs. inv_ok. by match goal with H : _ = Ok ?a |- _ => pose proof (Hv a H); subst a end.
Qed.
Lemma framed_pair_inv clean bl br left right e :
  spawn_framed_halves true bl = Ok left -> spawn_framed_halves true br = Ok right ->
  direction_inv clean e (framed_pair left right) (fun _ => []) (fun _ => []).
Proof.
  intros [-> _]%spawn_spec [-> _]%spawn_spec. exists [], [].
  split; [by destruct e|]. split.
  - exists [], [], [], []. destruct e; cbn; split_and!; try done; by intros [].
  - exists []. destruct e; cbn; split_and!; try done; try lia; by intros [].
Qed.

(** What a direction's invariant says of the messages. *)
Lemma direction_prefix clean e w acc rcv : direction_inv clean e w acc rcv ->
  exists taken, (forall l, lane_messages l taken `prefix_of` acc l)
    /\ (forall l, rcv l `prefix_of` filter (fun m => lane_of m = l) taken.*2).
Proof.
  intros (written & consumed & Hwc & (taken & sent & lost & rest & Hacc & _ & Ht & Hs & Hwr & _) & (d & Hr & Hd & Hat)).
  exists taken. split; [intros l; rewrite Hacc; by apply prefix_app_r|]. intros l.
  destruct (reader_at_prefix _ _ _ Hat) as [x ->]. rewrite Hwc, <- !app_assoc in Hwr.
  apply frames_split in Hwr as (more & -> & _); [|done..].
  rewrite Ht, <- app_assoc, filter_app, <- Hr, <- app_assoc. by apply prefix_app_r.
Qed.

Lemma lane_messages_tagged taken l :
  (forall l m, m ∈ lane_messages l taken -> lane_of m = l) ->
  filter (fun m => lane_of m = l) taken.*2 = lane_messages l taken.
Proof.
  intros Htag. assert (forall x, x ∈ taken -> lane_of x.2 = x.1) as Hx.
  { intros [l' m] Hin. apply Htag. unfold lane_messages. apply list_elem_of_fmap. exists (l', m). split; [done|].
    by apply list_elem_of_filter. }
  clear Htag. unfold lane_messages. induction taken as [|[l' m] taken IH]; [done|]. cbn [fmap list_fmap].
  rewrite !filter_cons. cbn. pose proof (Hx (l', m) ltac:(left)) as E. cbn in E.
  rewrite IH by (intros y Hy; apply Hx; by right).
  destruct (decide (lane_of m = l)), (decide (l' = l)); cbn; congruence.
Qed.

(** C11: Whatever the tasks, the callers and the stream do, and however they
    interleave, what one end receives are messages the other end's calls
    accepted, each at most once and whole: the writer takes the messages of a
    lane in the order of acceptance, and each receive queue gets, in order,
    those whose prefix says so.  When control messages, and they only, carry
    the control prefix, each lane receives a prefix of what it was given. *)
Theorem framed_lane_fifo bl br left right acts w h e :
  spawn_framed_halves true bl = Ok left -> spawn_framed_halves true br = Ok right ->
  framed_run (framed_pair left right) acts = (w, h) ->
  (exists taken, (forall l, lane_messages l taken `prefix_of` accepted e h l)
     /\ (forall l, received (other e) h l `prefix_of` filter (fun m => lane_of m = l) taken.*2))
  /\ ((forall l m, m ∈ accepted e h l -> lane_of m = l) ->
      forall l, received (other e) h l `prefix_of` accepted e h l).
Proof.
  intros Hl Hr Hrun. eapply (direction_run false e) in Hrun; [|done|by eapply framed_pair_inv].
  cbn in Hrun. apply direction_prefix in Hrun as (taken & Ht & Hd). split; [by exists taken|].
  intros Htag l. etrans; [apply Hd|]. rewrite lane_messages_tagged; [apply Ht|].
  intros l' m Hin. apply Htag. destruct (Ht l') as [k ->]. apply elem_of_app. by left.
Qed.
