(* ===== verification/FramedProps.v ===== *)
(** * A half-close of the framed bridge flushes every accepted frame *)

From S2P Require Export FramedFacts.
Local Open Scope N_scope.
Import TransportErrorKind.

(** ** Runs without failures *)

Definition lane_open (l : FramedLane) (h : SendHalf) : bool :=
  match l with ControlLane => control_open h | DataLane => data_open h end.

(** The writer's half and its pipe when nothing fails. *)
Record send_clean (h : SendHalf) (p : pipe) : Prop := {
  clean_writer : writer_aborted h = false;
  clean_tx : control_tx h = negb (fc_write_closed h) /\ data_tx h = negb (fc_write_closed h);
  clean_open : forall l, lane_open l h = false -> send_queue l h = [] /\ fc_write_closed h = true;
  clean_shut : writer h = AtShutdown \/ writer h = WriterEnded -> forall l, lane_open l h = false;
  clean_ended : pipe_ended p = bool_decide (writer h = WriterEnded);
}.

(** Everything accepted has been received or waits for the caller. *)
Definition all_delivered (h : ReceiveHalf) (acc rcv : FramedLane -> list (list byte)) : Prop :=
  exists taken, (forall l, acc l = lane_messages l taken)
    /\ (forall l, rcv l ++ receive_queue l h = filter (fun m => lane_of m = l) taken.*2).

Record direction_clean (e : pair_end) (w : FramedWorld) (acc rcv : FramedLane -> list (list byte)) : Prop := {
  dc_send : send_clean (send_half (framed_end e w)) (pipe_from e w);
  dc_reader : reader_aborted (receive_half (framed_end (other e) w)) = false;
  dc_open : fc_read_closed (receive_half (framed_end (other e) w)) = false;
  dc_ended : reader (receive_half (framed_end (other e) w)) = ReaderEnded ->
    writer (send_half (framed_end e w)) = WriterEnded /\ pipe_bytes (pipe_from e w) = []
    /\ all_delivered (receive_half (framed_end (other e) w)) acc rcv;
}.

(** ** The writer *)

Lemma start_frame_clean m c : len m <= u32_max ->
  start_frame m c = with_send (with_writer (AtWrite (frame_of m)) (send_half c)) c.
Proof. intros Hm. unfold start_frame. destruct (N.ltb_spec u32_max (len m)); [lia|done]. Qed.

(** Moving the writer between its places of work. *)
Definition working (x : writer_at) : Prop := x <> AtShutdown /\ x <> WriterEnded.
Lemma send_clean_move h p p' x :
  send_clean h p -> working (writer h) -> working x -> pipe_ended p' = pipe_ended p ->
  send_clean (with_writer x h) p'.
Proof.
  intros [H1 H2 H3 H4 H5] [Hw1 Hw2] [Hx1 Hx2] Hp. constructor; try done.
  - cbn. by intros [?|?].
  - cbn. rewrite Hp, H5. by rewrite !bool_decide_false.
Qed.
Lemma write_frame_clean rate m h p c :
  send_clean h p -> writer h = AtSelect -> len m <= u32_max ->
  send_clean (send_half (write_frame rate m (with_send h c))) p.
Proof.
  intros Hc Hw Hm. destruct rate as [r|]; cbn [write_frame]; [|rewrite start_frame_clean by done];
    cbn; eapply send_clean_move; try done; by rewrite Hw.
Qed.
Lemma send_clean_queue l q h p : send_clean h p -> lane_open l h = true ->
  send_clean (with_send_queue l q h) p.
Proof.
  intros [H1 H2 H3 H4 H5] Hl. constructor; try by destruct l.
  - intros l' Hl'. pose proof (H3 ControlLane). pose proof (H3 DataLane). destruct l, l'; cbn in *; auto; congruence.
Qed.

Lemma take_frame_clean l c c' p :
  send_clean (send_half c) p -> writer (send_half c) = AtSelect -> 
  Forall (fun m => len m <= u32_max) (send_queue l (send_half c)) -> take_frame l c = Some c' ->
  send_clean (send_half c') p.
Proof.
  intros Hc Hw Hq Htake. pose proof Hc as [H1 H2 H3 H4 H5]. unfold take_frame in Htake.
  destruct (lane_open l (send_half c)) eqn:Hopen; [|by destruct l; cbn in Hopen, Htake; rewrite Hopen in Htake].
  destruct (send_queue l (send_half c)) as [|m q] eqn:Hl.
  - assert (fc_write_closed (send_half c) = true /\ c' = with_send (close_lane l (send_half c)) c) as [Hclosed ->].
    { destruct H2 as [E1 E2]. destruct l; cbn in Hopen, Htake; rewrite Hopen, ?E1, ?E2 in Htake;
        destruct (fc_write_closed _); cbn in Htake; by simplify_eq. }
    constructor; try done.
    + intros l' Hl'. pose proof (H3 ControlLane). pose proof (H3 DataLane). destruct l, l'; cbn in *; auto.
    + cbn. rewrite Hw. by intros [?|?].
  - apply Forall_cons in Hq as [Hm Hq].
    assert (exists rate, c' = write_frame rate m (with_send (with_send_queue l q (send_half c)) c)) as [rate ->].
    { destruct l; cbn in Hopen; cbn -[write_frame] in Htake; rewrite Hopen in Htake; cbn -[write_frame] in Htake;
        injection Htake as <-; eexists; cbn -[write_frame]; by rewrite Hopen. }
    apply write_frame_clean; [by apply send_clean_queue|by destruct l|done].
Qed.

Lemma writer_select_clean c p :
  send_clean (send_half c) p -> writer (send_half c) = AtSelect ->
  (forall l, Forall (fun m => len m <= u32_max) (send_queue l (send_half c))) ->
  send_clean (send_half (writer_select c)) p.
Proof.
  intros Hc Hw Hq. unfold writer_select.
  destruct (negb (control_open _) && negb (data_open _)) eqn:Ho.
  - apply andb_true_iff in Ho as [H1%negb_true_iff H2%negb_true_iff]. destruct Hc as [C1 C2 C3 C4 C5].
    constructor; try done.
    + intros _ []; [exact H1|exact H2].
    + cbn. by rewrite C5, Hw.
  - destruct (take_frame ControlLane c) eqn:H1; [by eapply take_frame_clean|].
    destruct (take_frame DataLane c) eqn:H2; [by eapply take_frame_clean|done].
Qed.

Lemma writer_step_clean x c out c' out' :
  own_turn x -> send_clean (send_half c) out ->
  (forall l, Forall (fun m => len m <= u32_max) (send_queue l (send_half c))) ->
  (forall m t, writer (send_half c) = AtSendThrottle m t -> len m <= u32_max) ->
  writer_step x c out = (c', out') -> send_clean (send_half c') out'.
Proof.
  intros Hx Hc Hq Hm Hs. unfold writer_step in Hs.
  destruct x as [n|elapsed|e|], (writer (send_half c)) as [|m t|[|b r]| |] eqn:Hw;
    try done; simplify_eq; try done.
  - by apply writer_select_clean.
  - eapply send_clean_move; try done; by rewrite Hw.
  - eapply send_clean_move; try done; by rewrite Hw.
  - destruct Hc as [C1 C2 C3 C4 C5]. constructor; try done. intros _. apply C4. by left.
  - destruct (_ <=? _); [|done]. rewrite start_frame_clean by by eapply Hm.
    eapply send_clean_move; try done; by rewrite Hw.
Qed.

(** ** What the invariant says of a clean stream *)

Lemma taken_bound limit h acc taken l m :
  (forall l, acc l = lane_messages l taken ++ send_queue l h) ->
  (forall l, Forall (fun m => len m <= limit) (acc l)) -> (l, m) ∈ taken -> len m <= limit.
Proof.
  intros Hacc Hlim Hin. specialize (Hlim l). rewrite Forall_forall in Hlim. apply Hlim. rewrite Hacc.
  apply elem_of_app. left. apply list_elem_of_fmap. exists (l, m). split; [done|]. by apply list_elem_of_filter.
Qed.

(** After whole frames, the stream goes on with whole frames of accepted
    messages, up to what is still to be written. *)
Lemma stream_split limit h acc d x :
  writer_inv true limit h acc (frames d ++ x) -> Forall small d ->
  exists more rest, Forall small more /\ Forall (fun m => len m <= limit) more /\ x ++ rest = frames more
    /\ (writer h = WriterEnded -> rest = []
        /\ exists taken, taken.*2 = d ++ more /\ forall l, acc l = lane_messages l taken ++ send_queue l h).
Proof.
  intros Hi Hd. pose proof Hi as (taken & sent & lost & rest & Hacc & Hlim & Ht & Hs & Hwr & Hat).
  rewrite <- app_assoc in Hwr. apply frames_split in Hwr as (more & -> & Hx); [|done..].
  exists more, rest. apply Forall_app in Hs as [_ Hs]. split_and!; try done.
  - apply Forall_forall. intros m Hm. assert (m ∈ taken.*2) as Hin.
    { rewrite Ht. apply elem_of_app. left. apply elem_of_app. by right. }
    apply list_elem_of_fmap in Hin as ([l m'] & -> & Hin). by eapply taken_bound.
  - intros Hw. rewrite Hw in Hat. destruct Hat as [-> ->]; [done|]. split; [done|].
    exists taken. by rewrite app_nil_r in Ht.
Qed.

Lemma writer_inv_bounds limit h acc written :
  writer_inv true limit h acc written ->
  (forall l, Forall (fun m => len m <= limit) (send_queue l h))
  /\ (forall m t, writer h = AtSendThrottle m t -> len m <= limit).
Proof.
  intros Hi. pose proof Hi as (taken & sent & lost & rest & Hacc & Hlim & Ht & Hs & Hwr & Hat). split.
  - intros l. specialize (Hlim l). rewrite Hacc in Hlim. by apply Forall_app in Hlim as [_ ?].
  - intros m t Hw. rewrite Hw in Hat. destruct Hat as [-> ->].
    assert (m ∈ taken.*2) as Hin by (rewrite Ht; apply elem_of_app; right; by apply list_elem_of_singleton).
    apply list_elem_of_fmap in Hin as ([l m'] & -> & Hin). by eapply taken_bound.
Qed.

(** A short tail of the stream is no frame, and a header is that of a message. *)
Lemma frames_short l : (length (frames l) < 4)%nat -> l = [].
Proof. destruct l as [|m l]; [done|]. rewrite frames_cons, !length_app, be_bytes_length. lia. Qed.
Lemma frames_header hd x more : length hd = 4%nat -> hd ++ x = frames more -> Forall small more ->
  exists m tail, more = m :: tail /\ from_be_bytes hd = len m /\ x = m ++ frames tail.
Proof.
  intros Hl Heq Hs. destruct Hs as [|m tail Hm _]; [by apply (f_equal length) in Heq; rewrite length_app, Hl in Heq|].
  rewrite frames_cons in Heq. apply app_inj_1 in Heq as [-> ->]; [|by rewrite be_bytes_length].
  exists m, tail. split_and!; try done. by apply from_frame_length.
Qed.

(** ** The reader *)

(** The writer has ended and the stream is exhausted. *)
Definition exhausted (h : SendHalf) (p : pipe) : Prop := writer h = WriterEnded /\ pipe_bytes p = [].

Lemma exhausted_at_length limit h p r acc rcv d got :
  send_clean h p -> exhausted h p -> Forall small d -> (length got < 4)%nat ->
  (forall l, rcv l ++ receive_queue l r = filter (fun m => lane_of m = l) d) ->
  writer_inv true limit h acc (frames d ++ got) -> all_delivered (with_reader ReaderEnded r) acc rcv.
Proof.
  intros Hc [Hw _] Hd Hg Hr Hi. apply stream_split in Hi as (more & rest & _ & _ & Hx & Hend); [|done].
  destruct (Hend Hw) as [-> (taken & Ht & Hacc)]. rewrite app_nil_r in Hx.
  assert (more = []) as -> by (apply frames_short; by rewrite <- Hx). rewrite app_nil_r in Ht.
  exists taken. split; [|by rewrite Ht]. intros l. rewrite Hacc.
  destruct (clean_open _ _ Hc l) as [-> _]; [|by rewrite app_nil_r]. apply (clean_shut _ _ Hc). by right.
Qed.
Lemma exhausted_at_message limit h acc d hd got :
  writer h = WriterEnded -> Forall small d -> length hd = 4%nat -> len got < from_be_bytes hd ->
  writer_inv true limit h acc (frames d ++ hd ++ got) -> False.
Proof.
  intros Hw Hd Hl Hg Hi. apply stream_split in Hi as (more & rest & Hs & _ & Hx & Hend); [|done].
  destruct (Hend Hw) as [-> _]. rewrite app_nil_r in Hx.
  apply frames_header in Hx as (m & tail & -> & Hm & ->); [|done..]. rewrite length_app in Hg. lia.
Qed.
Lemma header_bound limit h acc d hd x :
  Forall small d -> length hd = 4%nat -> writer_inv true limit h acc (frames d ++ hd ++ x) ->
  from_be_bytes hd <= limit.
Proof.
  intros Hd Hl Hi. apply stream_split in Hi as (more & rest & Hs & Hlim & Hx & _); [|done].
  rewrite <- app_assoc in Hx. apply frames_header in Hx as (m & tail & -> & -> & _); [|done..].
  by apply Forall_cons in Hlim as [? _].
Qed.

(** The reader ends only when everything was delivered. *)
Lemma reader_step_clean limit h x c p c' p' acc rcv consumed :
  own_turn x -> limit <= max_frame_bytes (fc_budget c) -> send_clean h p ->
  writer_inv true limit h acc (consumed ++ pipe_bytes p) -> reader_inv (receive_half c) rcv consumed ->
  reader_aborted (receive_half c) = false -> fc_read_closed (receive_half c) = false ->
  reader_step x c p = (c', p') ->
  reader_aborted (receive_half c') = false /\ fc_read_closed (receive_half c') = false
  /\ pipe_ended p' = pipe_ended p
  /\ (reader (receive_half c') = ReaderEnded -> reader (receive_half c) = ReaderEnded /\ c' = c /\ p' = p
      \/ exhausted h p /\ all_delivered (receive_half c') acc rcv /\ p' = p).
Proof.
  intros Hx Hmax Hc Hw (d & Hr & Hd & Hat) Ha Ho Hs.
  assert (pipe_bytes p = [] -> pipe_ended p = true -> exhausted h p) as Hex.
  { intros He Hp. split; [|done]. rewrite (clean_ended _ _ Hc) in Hp. by apply bool_decide_eq_true in Hp. }
  unfold reader_step in Hs.
  destruct x as [n|elapsed|e|], (reader (receive_half c)) as [got|size got|m t|m|] eqn:Hrd;
    try done; simplify_eq; try (split_and!; try done; by intros; left); try (split_and!; try done; by rewrite Hrd).
  - destruct Hat as [-> Hg].
    destruct (bool_decide (pipe_bytes p = []) && pipe_ended p) eqn:He.
    + apply andb_true_iff in He as [He%bool_decide_eq_true Hp]. simplify_eq. unfold reader_fails. rewrite Hrd.
      split_and!; try done. intros _. right. split; [auto|]. split; [|done].
      cbn. rewrite He, app_nil_r in Hw. eapply exhausted_at_length; try done. by apply Hex.
    + destruct (read_pipe _ _ p) as [bytes q] eqn:Hp. apply read_pipe_spec in Hp as (Hp & Hn & Hq). simplify_eq.
      rewrite Hp in Hw. destruct (N.eqb_spec (len (got ++ bytes)) 4) as [E|E]; [|by split_and!].
      unfold got_length. destruct (N.ltb_spec (max_frame_bytes (fc_budget c)) (from_be_bytes (got ++ bytes))) as [Hb|];
        [|by split_and!].
      rewrite <- app_assoc, (app_assoc got) in Hw. eapply header_bound in Hw; [lia|done|lia].
  - destruct Hat as (hd & Hl & <- & -> & Hg).
    destruct ((len got <? _) && bool_decide (pipe_bytes p = []) && pipe_ended p) eqn:He.
    + apply andb_true_iff in He as [[He%N.ltb_lt He'%bool_decide_eq_true]%andb_true_iff Hp].
      rewrite He', app_nil_r in Hw. destruct (Hex He' Hp) as [Hend _].
      exfalso. by eapply exhausted_at_message.
    + destruct (read_pipe _ _ p) as [bytes q] eqn:Hp. apply read_pipe_spec in Hp as (Hp & Hn & Hq). simplify_eq.
      destruct (_ =? _); split_and!; try done. cbn. by destruct (receive_bytes_per_second _).
  - unfold deliver_message. destruct (_ <=? _); split_and!; try done; [by rewrite Hrd|by destruct (lane_of m)..].
  - destruct (_ <=? _); simplify_eq; split_and!; try done. by rewrite Hrd.
Qed.

(** ** The invariant of a run without failures *)

Lemma all_delivered_ext h h' acc acc' rcv rcv' :
  all_delivered h acc rcv -> (forall l, acc l = acc' l) ->
  (forall l, rcv l ++ receive_queue l h = rcv' l ++ receive_queue l h') -> all_delivered h' acc' rcv'.
Proof.
  intros (taken & Ha & Hr) Hacc Hrcv. exists taken. split; intros l; [by rewrite <- Hacc|by rewrite <- Hrcv].
Qed.
Lemma direction_clean_ext e w acc acc' rcv rcv' :
  direction_clean e w acc rcv -> (forall l, acc l = acc' l) -> (forall l, rcv l = rcv' l) ->
  direction_clean e w acc' rcv'.
Proof.
  intros [H1 H2 H3 H4] Ha Hr. constructor; try done. intros He. destruct (H4 He) as (? & ? & Hd). split_and!; try done.
  eapply all_delivered_ext; try done. intros l. by rewrite Hr.
Qed.
(** A change of one connection that keeps the halves of the direction. *)
Lemma direction_clean_set e e' c w acc rcv :
  direction_clean e w acc rcv ->
  (e' = e -> send_half c = send_half (framed_end e w)) ->
  (e' = other e -> receive_half c = receive_half (framed_end (other e) w)) ->
  direction_clean e (set_framed e' c w) acc rcv.
Proof.
  intros [H1 H2 H3 H4] Hs Hr. destruct (other_inv e e') as [->| ->]; constructor; autorewrite with framed;
    rewrite ?Hs, ?Hr by done; done.
Qed.

Lemma closed_when_ended h p : send_clean h p -> writer h = WriterEnded -> fc_write_closed h = true.
Proof.
  intros Hc Hw. apply (clean_open _ _ Hc ControlLane). apply (clean_shut _ _ Hc). by right.
Qed.

Lemma clean_send e e' l m w w' r acc rcv :
  direction_clean e w acc rcv -> at_end e' (framed_try_send l m) w = (w', r) ->
  direction_clean e w' (extended acc (fun l' => accepted_by e l' (FSend e' l m, OSent r))) rcv.
Proof.
  intros Hi Hs. unfold at_end in Hs. destruct (framed_try_send l m _) as [c r'] eqn:Ht.
  apply framed_try_send_spec in Ht. simplify_eq.
  assert (forall y, direction_clean e y acc rcv ->
    (forall l', accepted_by e l' (FSend e' l m, OSent r) = None) ->
    direction_clean e y (extended acc (fun l' => accepted_by e l' (FSend e' l m, OSent r))) rcv) as Hnone.
  { intros y H Hn. eapply direction_clean_ext; [exact H| |done]. intros l'. unfold extended. by rewrite Hn, app_nil_r. }
  destruct r as [[]|err]; [|subst c; apply Hnone; [|done]; apply direction_clean_set; [done|by intros ->..]].
  destruct Ht as (-> & Hm & Hopen). destruct (other_inv e e') as [->| ->].
  - destruct Hi as [Hc Ha Ho He]. constructor; autorewrite with framed; try done.
    + apply send_clean_queue; [done|]. destruct (lane_open l _) eqn:Hl; [done|].
      apply (clean_open _ _ Hc) in Hl as [_ Hl]. by rewrite Hl in Hopen.
    + intros Hr. destruct (He Hr) as [Hw _]. eapply closed_when_ended in Hw; [|done]. by rewrite Hw in Hopen.
  - apply Hnone; [|intros l'; cbn; rewrite bool_decide_false; [done|by intros [? _]; eapply other_ne]].
    apply direction_clean_set; [done|by intros ?%other_ne|done].
Qed.

Lemma clean_poll e e' l w w' p acc rcv :
  direction_clean e w acc rcv -> at_end e' (poll_end l) w = (w', p) ->
  direction_clean e w' acc (extended rcv (fun l' => received_by (other e) l' (FPoll e' l, OPolled p))).
Proof.
  intros Hi Hs. unfold at_end in Hs. destruct (poll_end l _) as [c p'] eqn:Hp.
  apply poll_end_spec in Hp. simplify_eq.
  assert (forall y, direction_clean e y acc rcv ->
    (forall l', received_by (other e) l' (FPoll e' l, OPolled p) = None) ->
    direction_clean e y acc (extended rcv (fun l' => received_by (other e) l' (FPoll e' l, OPolled p)))) as Hnone.
  { intros y H Hn. eapply direction_clean_ext; [exact H|done|]. intros l'. unfold extended. by rewrite Hn, app_nil_r. }
  destruct p as [[m| |]|];
    [|subst c; apply Hnone; [apply direction_clean_set; [done|by intros ->..]|done]..].
  destruct Hp as (q & Hq & ->). destruct (other_inv e e') as [->| ->].
  - apply Hnone; [|intros l'; cbn; rewrite bool_decide_false; [done|by intros [?%ne_other _]]].
    apply direction_clean_set; [done|done|by intros ?%ne_other].
  - destruct Hi as [Hc Ha Ho He]. constructor; autorewrite with framed; try done; [by destruct l..|].
    intros Hr. destruct He as (Hw & Hp & Hd); [by destruct l|]. split_and!; try done.
    eapply all_delivered_ext; try done. intros l'. unfold extended. rewrite received_by_same, <- app_assoc.
    cbn [receive_half with_receive]. rewrite receive_queue_with_queue. f_equal. destruct (decide (l' = l)) as [->|Hl].
    + rewrite bool_decide_true by done. by rewrite Hq.
    + by rewrite bool_decide_false by congruence.
Qed.

Lemma clean_turn e t x w acc rcv :
  own_turn x -> max_frame_bytes (fc_budget (framed_end e w)) <= u32_max ->
  max_frame_bytes (fc_budget (framed_end e w)) <= max_frame_bytes (fc_budget (framed_end (other e) w)) ->
  direction_inv true e w acc rcv -> direction_clean e w acc rcv -> direction_clean e (task_step t x w) acc rcv.
Proof.
  intros Hx Hu Hm (written & consumed & -> & Hw & Hr) Hi. pose proof Hi as [Hc Ha Ho He].
  destruct t as [e'|e']; unfold task_step.
  - destruct (writer_step x _ _) as [c p] eqn:Hs. pose proof (writer_step_frame _ _ _ _ _ Hs) as [Hf _].
    destruct (other_inv e e') as [->| ->]; constructor; autorewrite with framed; rewrite ?Hf; try done.
    + destruct (writer_inv_bounds _ _ _ _ Hw) as [Hq Ht].
      eapply writer_step_clean; try done.
      * intros l. eapply Forall_impl; [apply Hq|]. cbn. lia.
      * intros m t ?%Ht. lia.
    + intros Hr'. destruct (He Hr') as (Hend & Hp & Hd). unfold writer_step in Hs. rewrite Hend in Hs.
      destruct x; try done; by simplify_eq.
  - destruct (reader_step x _ _) as [c p] eqn:Hs. pose proof (reader_step_frame _ _ _ _ _ Hs) as [Hf _].
    destruct (other_inv e e') as [->| ->]; [constructor; autorewrite with framed; by rewrite ?Hf|].
    autorewrite with framed in Hs.
    eapply reader_step_clean in Hs as (Ha' & Ho' & Hp & Hend); try done.
    constructor; autorewrite with framed; try done.
    + destruct Hc as [C1 C2 C3 C4 C5]. constructor; try done. by rewrite Hp.
    + intros Hr'. destruct (Hend Hr') as [(Hr1 & -> & ->)|([H1 H2] & H3 & ->)]; [by apply He|done].
Qed.

Lemma clean_act e a w w' o acc rcv :
  own_action a -> max_frame_bytes (fc_budget (framed_end e w)) <= u32_max ->
  max_frame_bytes (fc_budget (framed_end e w)) <= max_frame_bytes (fc_budget (framed_end (other e) w)) ->
  direction_inv true e w acc rcv -> direction_clean e w acc rcv -> framed_act a w = (w', o) ->
  direction_clean e w' (extended acc (fun l => accepted_by e l (a, o)))
    (extended rcv (fun l => received_by (other e) l (a, o))).
Proof.
  intros Hown Hu Hm Hinv Hi Ha.
  assert (forall f (g : FramedLane -> list (list byte)),
    (forall l, f l = None) -> forall l, g l = extended g f l) as Hext.
  { intros f g Hf l. unfold extended. by rewrite Hf, app_nil_r. }
  destruct a as [e' l m|e' l|e'|e'|e'|t x|e']; cbn [framed_act] in Ha; try done.
  - destruct (at_end _ _ w) as [v r] eqn:Hs. simplify_eq.
    eapply direction_clean_ext; [by eapply clean_send|done|by apply Hext].
  - destruct (at_end _ _ w) as [v p] eqn:Hs. simplify_eq.
    eapply direction_clean_ext; [by eapply clean_poll|by apply Hext|done].
  - simplify_eq. eapply direction_clean_ext; [|by apply Hext..].
    unfold framed_close_write. destruct (fc_write_closed _) eqn:Hcl; [apply direction_clean_set; [done|by intros ->..]|].
    destruct (other_inv e e') as [->| ->]; [|apply direction_clean_set; [done|by intros ?%other_ne|done]].
    destruct Hi as [[C1 C2 C3 C4 C5] H2 H3 H4]. constructor; autorewrite with framed; try done.
    constructor; try done. intros l Hl. split; [|done]. destruct l; [by apply (C3 ControlLane)|by apply (C3 DataLane)].
  - simplify_eq. eapply direction_clean_ext; [by apply clean_turn|by apply Hext..].
  - simplify_eq. eapply direction_clean_ext; [|by apply Hext..]. unfold pipe_ends.
    case_bool_decide as Hw; [|done]. destruct Hi as [[C1 C2 C3 C4 C5] H2 H3 H4].
    destruct (other_inv e e') as [->| ->]; constructor; autorewrite with framed; try done.
    constructor; try done. by rewrite bool_decide_true.
Qed.

(** ** The work left *)

Definition frame_work (m : list byte) : nat := 7 * (4 + length m) + 5.
Definition writer_work (x : writer_at) : nat :=
  match x with
  | AtSelect => 2
  | AtSendThrottle m _ => 7 * (4 + length m) + 4
  | AtWrite rest => 7 * length rest + 3
  | AtShutdown => 1
  | WriterEnded => 0
  end.
Definition send_work (h : SendHalf) : nat :=
  sum_list_with frame_work (control_queue h) + sum_list_with frame_work (data_queue h)
  + (if control_open h then 1 else 0) + (if data_open h then 1 else 0) + writer_work (writer h).
Definition reader_work (x : reader_at) : nat :=
  match x with
  | AtLength _ => 1
  | AtMessage _ _ => 5
  | AtReceiveThrottle _ _ => 4
  | AtDeliver _ => 3
  | ReaderEnded => 0
  end.
Definition receive_work (h : ReceiveHalf) : nat :=
  length (control_receive_queue h) + length (data_receive_queue h) + reader_work (reader h).

(** The work of a direction, down to the calls that receive. *)
Definition direction_work (e : pair_end) (w : FramedWorld) : nat :=
  send_work (send_half (framed_end e w)) + 6 * length (pipe_bytes (pipe_from e w))
  + receive_work (receive_half (framed_end (other e) w)).

Lemma start_frame_work m c :
  (send_work (send_half (start_frame m c)) + writer_work (writer (send_half c))
   <= send_work (send_half c) + 7 * (4 + length m) + 3)%nat.
Proof.
  unfold start_frame, send_work. destruct (_ <? _); [cbn; lia|].
  cbn [send_half with_send with_writer control_queue data_queue control_open data_open writer writer_work].
  rewrite length_app, be_bytes_length. lia.
Qed.
Lemma take_frame_work l c c' : writer (send_half c) = AtSelect -> take_frame l c = Some c' ->
  (send_work (send_half c') < send_work (send_half c))%nat.
Proof.
  intros Hw Ht. unfold take_frame in Ht.
  destruct (match l with ControlLane => _ | DataLane => _ end) as [[[] tx] rate] eqn:Ho; [|done].
  cbn [negb] in Ht. destruct (send_queue l _) as [|m q] eqn:Hq.
  - destruct tx; [done|]. injection Ht as <-. unfold send_work. destruct l; cbn in *; simplify_eq;
      rewrite Hw; repeat case_match; simplify_eq; lia.
  - injection Ht as <-.
    assert (send_work (with_send_queue l q (send_half c)) + frame_work m = send_work (send_half c))%nat as Hs.
    { unfold send_work. destruct l; cbn [send_queue] in Hq; cbn; rewrite Hq; cbn; lia. }
    assert (writer (with_send_queue l q (send_half c)) = AtSelect) as Hw' by by destruct l.
    set (d := with_send _ c). assert (send_half d = with_send_queue l q (send_half c)) as Hd by done.
    rewrite <- Hd in Hs, Hw'. unfold frame_work in Hs. clearbody d. destruct rate as [r|]; cbn [write_frame].
    + unfold send_work in *. cbn [send_half with_send with_writer control_queue data_queue control_open data_open writer].
      rewrite Hw' in Hs. cbn [writer_work] in *. lia.
    + pose proof (start_frame_work m d) as Hf. rewrite Hw' in Hf. cbn [writer_work] in Hf. lia.
Qed.

Lemma with_writer_same c x : writer (send_half c) = x -> with_send (with_writer x (send_half c)) c = c.
Proof. intros <-. by destruct c as [? [] ? ?]. Qed.
Lemma with_reader_same c x : reader (receive_half c) = x -> with_receive (with_reader x (receive_half c)) c = c.
Proof. intros <-. by destruct c as [? ? [] ?]. Qed.
Lemma pipe_same p : mkPipe (pipe_bytes p ++ []) (pipe_ended p) = p.
Proof. destruct p. cbn. by rewrite app_nil_r. Qed.

Lemma writer_select_work c : writer (send_half c) = AtSelect ->
  writer_select c = c \/ (send_work (send_half (writer_select c)) < send_work (send_half c))%nat.
Proof.
  intros Hw. unfold writer_select. destruct (_ && _).
  { right. unfold send_work. cbn. rewrite Hw. cbn. lia. }
  destruct (take_frame ControlLane c) eqn:H1; [right; by eapply take_frame_work|].
  destruct (take_frame DataLane c) eqn:H2; [right; by eapply take_frame_work|by left].
Qed.

Lemma writer_step_work x c out c' out' : own_turn x -> writer_step x c out = (c', out') ->
  c' = c /\ out' = out
  \/ (send_work (send_half c') + 6 * length (pipe_bytes out')
      < send_work (send_half c) + 6 * length (pipe_bytes out))%nat.
Proof.
  intros Hx Hs. unfold writer_step in Hs.
  destruct x as [n|elapsed|e|], (writer (send_half c)) as [|m t|[|b r]| |] eqn:Hw;
    try done; simplify_eq; try by left.
  - destruct (writer_select_work c Hw) as [->|?]; [by left|right; lia].
  - right. unfold send_work. cbn. rewrite Hw. cbn. lia.
  - destruct n as [|n].
    + left. cbn [take drop]. by rewrite pipe_same, with_writer_same.
    + right. unfold send_work. cbn. rewrite Hw, !length_app. cbn. rewrite length_take, length_drop. lia.
  - right. unfold send_work. cbn. rewrite Hw. cbn. lia.
  - destruct (_ <=? _); simplify_eq; [|by left]. right. pose proof (start_frame_work m c) as Hf.
    rewrite Hw in Hf. cbn in Hf. lia.
Qed.

Lemma reader_ends_work e c : reader (receive_half c) <> ReaderEnded ->
  (receive_work (receive_half (reader_ends e c)) < receive_work (receive_half c))%nat.
Proof.
  intros Hr. assert (receive_half (reader_ends e c) = with_reader ReaderEnded (receive_half c)) as -> by by destruct e.
  unfold receive_work. cbn. destruct (reader _); cbn; try lia. done.
Qed.
Lemma reader_fails_work e c :
  reader_fails e c = c \/ (receive_work (receive_half (reader_fails e c)) < receive_work (receive_half c))%nat.
Proof.
  unfold reader_fails. destruct (reader _) eqn:Hr; try (by left); right; apply reader_ends_work; by rewrite Hr.
Qed.
Lemma reader_fails_less e c :
  match reader (receive_half c) with AtLength _ | AtMessage _ _ => True | _ => False end ->
  (receive_work (receive_half (reader_fails e c)) < receive_work (receive_half c))%nat.
Proof.
  unfold reader_fails. destruct (reader _) eqn:Hr; try done; intros _; apply reader_ends_work; by rewrite Hr.
Qed.
Lemma read_pipe_work n wanted p bytes p' : read_pipe n wanted p = (bytes, p') ->
  bytes = [] /\ p' = p \/ (length (pipe_bytes p') < length (pipe_bytes p))%nat.
Proof.
  unfold read_pipe. intros; simplify_eq. destruct (Nat.min n wanted) as [|k].
  - left. split; [done|]. by destruct p.
  - destruct p as [[|b l] x]; [by left|]. right. cbn. rewrite length_drop. lia.
Qed.
Lemma got_length_work hd c got : reader (receive_half c) = AtLength got ->
  (receive_work (receive_half (got_length hd c)) <= receive_work (receive_half c) + 4)%nat.
Proof.
  intros Hr. unfold got_length. destruct (_ <? _).
  - pose proof (reader_ends_work (Some (transport_error MessageTooLarge "received frame exceeds transport limit")) c).
    rewrite Hr in H. specialize (H ltac:(done)). lia.
  - unfold receive_work. cbn. rewrite Hr. cbn. lia.
Qed.
Lemma got_message_work m c size got : reader (receive_half c) = AtMessage size got ->
  (receive_work (receive_half (got_message m c)) < receive_work (receive_half c))%nat.
Proof.
  intros Hr. unfold got_message, receive_work. cbn. rewrite Hr. destruct (receive_bytes_per_second _); cbn; lia.
Qed.

Lemma reader_step_work x c inp c' inp' : own_turn x ->
  (forall got, reader (receive_half c) = AtLength got -> (length got < 4)%nat) -> reader_step x c inp = (c', inp') ->
  c' = c /\ inp' = inp
  \/ (receive_work (receive_half c') + 6 * length (pipe_bytes inp')
      < receive_work (receive_half c) + 6 * length (pipe_bytes inp))%nat.
Proof.
  intros Hx Hg Hs. unfold reader_step in Hs.
  destruct x as [n|elapsed|e|], (reader (receive_half c)) as [got|size got|m t|m|] eqn:Hr;
    try done; simplify_eq; try by left.
  - destruct (_ && _); [simplify_eq; destruct (reader_fails_work IoUnexpectedEof c) as [->|?]; [by left|right; lia]|].
    destruct (read_pipe _ _ inp) as [bytes p] eqn:Hp. apply read_pipe_work in Hp as [[-> ->]|Hp].
    + rewrite app_nil_r in Hs. specialize (Hg got eq_refl). destruct (N.eqb_spec (len got) 4); [lia|].
      simplify_eq. left. by rewrite with_reader_same.
    + right. simplify_eq. destruct (_ =? _).
      * pose proof (got_length_work (got ++ bytes) c got Hr). lia.
      * unfold receive_work. cbn. rewrite Hr. cbn. lia.
  - destruct (_ && _); [simplify_eq; destruct (reader_fails_work IoUnexpectedEof c) as [->|?]; [by left|right; lia]|].
    destruct (read_pipe _ _ inp) as [bytes p] eqn:Hp. apply read_pipe_work in Hp as Hp'. simplify_eq.
    destruct (len (got ++ bytes) =? size) eqn:He; simplify_eq.
    + right. pose proof (got_message_work (got ++ bytes) c size got Hr).
      destruct Hp' as [[_ ->]|?]; lia.
    + destruct Hp' as [[-> ->]|?]; [left|right].
      * by rewrite app_nil_r, with_reader_same.
      * unfold receive_work. cbn. rewrite Hr. cbn. lia.
  - unfold deliver_message. destruct (_ <=? _); [by left|right]. unfold receive_work.
    rewrite Hr. destruct (lane_of m); cbn; rewrite length_app; cbn; lia.
  - destruct (_ <=? _); simplify_eq; [|by left]. right. unfold receive_work. cbn. rewrite Hr. cbn. lia.
Qed.

Lemma turn_work e t x w acc rcv clean : own_turn x -> direction_inv clean e w acc rcv ->
  t = WriterOf e \/ t = ReaderOf (other e) ->
  task_step t x w = w \/ (direction_work e (task_step t x w) < direction_work e w)%nat.
Proof.
  intros Hx (written & consumed & _ & _ & (d & _ & _ & Hat)) [->| ->]; unfold task_step, direction_work.
  - destruct (writer_step x _ _) as [c p] eqn:Hs. pose proof (writer_step_frame _ _ _ _ _ Hs) as [Hf _].
    apply writer_step_work in Hs as [[-> ->]|Hs]; [left; by destruct e, w|right|done].
    autorewrite with framed. lia.
  - destruct (reader_step x _ _) as [c p] eqn:Hs. pose proof (reader_step_frame _ _ _ _ _ Hs) as [Hf _].
    autorewrite with framed in Hs. apply reader_step_work in Hs as [[-> ->]|Hs]; [| |done|].
    + left. by destruct e, w.
    + right. autorewrite with framed. lia.
    + intros got Hr. rewrite Hr in Hat. apply Hat.
Qed.

(** ** Progress *)

Lemma writer_progress c out :
  send_clean (send_half c) out -> fc_write_closed (send_half c) = true -> writer (send_half c) <> WriterEnded ->
  exists x, own_turn x /\ (send_work (send_half (writer_step x c out).1) + 6 * length (pipe_bytes (writer_step x c out).2)
    < send_work (send_half c) + 6 * length (pipe_bytes out))%nat.
Proof.
  intros Hc Hcl Hne. destruct (writer (send_half c)) as [|m t|r| |] eqn:Hw; [..|done].
  - exists (Run 1). split; [done|]. cbn [writer_step]. rewrite Hw. cbn [fst snd].
    enough (send_work (send_half (writer_select c)) < send_work (send_half c))%nat by lia.
    destruct (writer_select_work c Hw) as [Hs|?]; [exfalso|done]. unfold writer_select in Hs.
    destruct (clean_tx _ _ Hc) as [T1 T2]. rewrite Hcl in T1, T2. cbn in T1, T2.
    destruct (negb (control_open _) && _) eqn:Ho;
      [apply (f_equal (fun c => writer (send_half c))) in Hs; cbn in Hs; by rewrite Hw in Hs|].
    assert (forall l, take_frame l c = None -> lane_open l (send_half c) = false) as Hnone.
    { intros l Hl. destruct (lane_open l (send_half c)) eqn:Hlo; [exfalso|done]. unfold take_frame in Hl.
      destruct l; cbn in Hlo; cbn -[write_frame] in Hl; rewrite Hlo, ?T1, ?T2 in Hl; cbn -[write_frame] in Hl;
        by repeat case_match. }
    assert (forall l d, take_frame l c = Some d -> d <> c) as Hsome.
    { intros l d Hd ->. apply take_frame_work in Hd; [lia|done]. }
    destruct (take_frame ControlLane c) eqn:H1; [by eapply Hsome|].
    destruct (take_frame DataLane c) eqn:H2; [by eapply Hsome|].
    apply Hnone in H1, H2. cbn in H1, H2. by rewrite H1, H2 in Ho.
  - exists (Wake t). split; [done|]. cbn [writer_step]. rewrite Hw, N.leb_refl. cbn [fst snd].
    pose proof (start_frame_work m c) as Hf. rewrite Hw in Hf. cbn [writer_work] in Hf. lia.
  - exists (Run 1). split; [done|]. cbn [writer_step]. rewrite Hw.
    destruct r as [|b r]; unfold send_work; cbn; rewrite Hw; cbn; [lia|].
    rewrite length_app. cbn. rewrite take_0, drop_0. cbn. lia.
  - exists (Run 1). split; [done|]. cbn [writer_step]. rewrite Hw. unfold send_work. cbn. rewrite Hw. cbn. lia.
Qed.

Lemma read_one wanted b l ended : (0 < wanted)%nat ->
  read_pipe 1 wanted (mkPipe (b :: l) ended) = ([b], mkPipe l ended).
Proof. intros Hw. unfold read_pipe. by destruct wanted; [lia|]. Qed.

Lemma reader_progress d c inp consumed :
  pipe_ended inp = true -> reader (receive_half c) <> ReaderEnded ->
  reader_at_inv (reader (receive_half c)) d consumed ->
  (forall l, receive_queue l (receive_half c) = []) ->
  0 < control_queue_capacity (fc_budget c) -> 0 < receive_queue_capacity (fc_budget c) ->
  exists x, own_turn x
    /\ (receive_work (receive_half (reader_step x c inp).1) + 6 * length (pipe_bytes (reader_step x c inp).2)
        < receive_work (receive_half c) + 6 * length (pipe_bytes inp))%nat.
Proof.
  intros He Hne Hat Hq H1 H2. destruct inp as [bytes ended]. cbn in He. subst ended.
  destruct (reader (receive_half c)) as [got|size got|m t|m|] eqn:Hr; [..|done].
  - exists (Run 1). split; [done|]. cbn [reader_step]. rewrite Hr. destruct Hat as [_ Hg].
    destruct bytes as [|b bytes]; cbn [pipe_bytes pipe_ended].
    + rewrite bool_decide_true by done. cbn [andb fst snd pipe_bytes].
      apply Nat.add_lt_mono_r, reader_fails_less. by rewrite Hr.
    + rewrite bool_decide_false, read_one by (done || lia). cbn [andb].
      destruct (_ =? _); cbn [fst snd pipe_bytes length].
      * pose proof (got_length_work (got ++ [b]) c got Hr). lia.
      * unfold receive_work. cbn. rewrite Hr. cbn. lia.
  - exists (Run 1). split; [done|]. cbn [reader_step]. rewrite Hr. destruct Hat as (_ & _ & _ & _ & Hg).
    destruct (N.ltb_spec (len got) size) as [Hlt|Hge]; cbn [andb].
    + destruct bytes as [|b bytes]; cbn [pipe_bytes pipe_ended].
      * rewrite bool_decide_true by done. cbn [andb fst snd pipe_bytes].
        apply Nat.add_lt_mono_r, reader_fails_less. by rewrite Hr.
      * rewrite bool_decide_false, read_one by (done || lia). cbn [andb].
        destruct (_ =? _); cbn [fst snd pipe_bytes length].
        -- pose proof (got_message_work (got ++ [b]) c size got Hr). lia.
        -- unfold receive_work. cbn. rewrite Hr. cbn. lia.
    + replace (N.to_nat size - length got)%nat with 0%nat by lia. cbn [read_pipe Nat.min take drop].
      rewrite app_nil_r. destruct (N.eqb_spec (len got) size); [|lia]. cbn [fst snd pipe_bytes]. rewrite drop_0.
      pose proof (got_message_work got c size got Hr). lia.
  - exists (Wake t). split; [done|]. cbn [reader_step]. rewrite Hr, N.leb_refl. unfold receive_work. cbn.
    rewrite Hr. cbn. lia.
  - exists (Run 1). split; [done|]. cbn [reader_step fst snd]. rewrite Hr. unfold deliver_message. rewrite Hq.
    cbn [length]. destruct (_ <=? _) eqn:Hcap; [destruct (lane_of m); apply N.leb_le in Hcap; lia|].
    pose proof (Hq ControlLane) as Q1. pose proof (Hq DataLane) as Q2. cbn in Q1, Q2.
    unfold receive_work. rewrite Hr. destruct (lane_of m); cbn; rewrite ?Q1, ?Q2; cbn; lia.
Qed.

(** ** The whole run *)

Lemma clean_run e acts w w' h acc rcv :
  Forall own_action acts -> max_frame_bytes (fc_budget (framed_end e w)) <= u32_max ->
  max_frame_bytes (fc_budget (framed_end e w)) <= max_frame_bytes (fc_budget (framed_end (other e) w)) ->
  direction_inv true e w acc rcv -> direction_clean e w acc rcv -> framed_run w acts = (w', h) ->
  direction_inv true e w' (fun l => acc l ++ accepted e h l) (fun l => rcv l ++ received (other e) h l)
  /\ direction_clean e w' (fun l => acc l ++ accepted e h l) (fun l => rcv l ++ received (other e) h l)
  /\ fc_budget (framed_end (other e) w') = fc_budget (framed_end (other e) w).
Proof.
  intros Hacts. revert w acc rcv h. induction Hacts as [|a acts Ha Hacts IH]; intros w acc rcv h Hu Hm Hi Hc Hrun.
  { cbn in Hrun. simplify_eq. split_and!; [| |done].
    - eapply direction_inv_ext; [exact Hi|..]; intros l; by rewrite app_nil_r.
    - eapply direction_clean_ext; [exact Hc|..]; intros l; by rewrite app_nil_r. }
  cbn in Hrun. destruct (framed_act a w) as [w1 o] eqn:Hact. destruct (framed_run w1 acts) as [w2 h2] eqn:Hr.
  simplify_eq. pose proof (framed_act_budget e _ _ _ _ Hact) as B1.
  pose proof (framed_act_budget (other e) _ _ _ _ Hact) as B2.
  edestruct (IH w1) as (I1 & I2 & I3); [by rewrite B1|by rewrite B1, B2| | |exact Hr|].
  { eapply direction_act; [|exact Hi|exact Hact]. done. }
  { by eapply clean_act. }
  rewrite I3, B2. split_and!; [| |done].
  - eapply direction_inv_ext; [exact I1|..]; intros l; unfold extended, accepted, received;
      cbn [omap list_omap]; rewrite <- app_assoc;
      [by destruct (accepted_by e l (a, o))|by destruct (received_by (other e) l (a, o))].
  - eapply direction_clean_ext; [exact I2|..]; intros l; unfold extended, accepted, received;
      cbn [omap list_omap]; rewrite <- app_assoc;
      [by destruct (accepted_by e l (a, o))|by destruct (received_by (other e) l (a, o))].
Qed.

Lemma framed_pair_clean bl br left right e :
  spawn_framed_halves true bl = Ok left -> spawn_framed_halves true br = Ok right ->
  direction_clean e (framed_pair left right) (fun _ => []) (fun _ => []).
Proof.
  intros [-> _]%spawn_spec [-> _]%spawn_spec. destruct e; constructor; try done; cbn;
    (constructor; [done|done|by intros []|by intros [?|?]|done]).
Qed.

(** Everything accepted in one direction was received, each lane by its prefix. *)
Definition flushed (e : pair_end) (h : list (framed_action * framed_out)) : Prop :=
  exists taken, (forall l, accepted e h l = lane_messages l taken)
    /\ (forall l, received (other e) h l = filter (fun m => lane_of m = l) taken.*2).

(** What keeps a direction from rest. *)
Lemma direction_progress e w acc rcv d consumed :
  direction_clean e w acc rcv -> fc_write_closed (send_half (framed_end e w)) = true ->
  reader_at_inv (reader (receive_half (framed_end (other e) w))) d consumed ->
  0 < control_queue_capacity (fc_budget (framed_end (other e) w)) ->
  0 < receive_queue_capacity (fc_budget (framed_end (other e) w)) ->
  (exists a, own_action a /\ (direction_work e (framed_act a w).1 < direction_work e w)%nat)
  \/ (forall l, receive_queue l (receive_half (framed_end (other e) w)) = [])
     /\ reader (receive_half (framed_end (other e) w)) = ReaderEnded.
Proof.
  intros Hc Hcl Hat H1 H2. pose proof Hc as [Hs Ha Ho _].
  assert ((exists l m q, receive_queue l (receive_half (framed_end (other e) w)) = m :: q)
    \/ (forall l, receive_queue l (receive_half (framed_end (other e) w)) = [])) as [(l & m & q & Hq)|Hq].
  { destruct (control_receive_queue (receive_half (framed_end (other e) w))) as [|m q] eqn:E1;
      [|left; by exists ControlLane, m, q].
    destruct (data_receive_queue (receive_half (framed_end (other e) w))) as [|m q] eqn:E2;
      [right; by intros []|left; by exists DataLane, m, q]. }
  { left. exists (FPoll (other e) l). split; [done|]. cbn [framed_act]. unfold at_end, poll_end, framed_poll.
    rewrite Ho, Hq. cbn [fst]. unfold direction_work. autorewrite with framed. unfold receive_work.
    destruct l; cbn in *; rewrite Hq; cbn; lia. }
  destruct (decide (writer (send_half (framed_end e w)) = WriterEnded)) as [Hw|Hw].
  - destruct (decide (reader (receive_half (framed_end (other e) w)) = ReaderEnded)) as [Hr|Hr]; [by right|left].
    pose proof (clean_ended _ _ Hs) as Hp. rewrite bool_decide_true in Hp by done.
    destruct (reader_progress d _ _ consumed Hp Hr Hat Hq H1 H2) as (x & Hx & Hlt).
    exists (FTurn (ReaderOf (other e)) x). split; [done|]. cbn [framed_act fst task_step].
    unfold direction_work. autorewrite with framed. destruct (reader_step x _ _) as [c p] eqn:Hst.
    autorewrite with framed. apply reader_step_frame in Hst as [Hf _]. cbn in Hlt. lia.
  - left. destruct (writer_progress _ _ Hs Hcl Hw) as (x & Hx & Hlt).
    exists (FTurn (WriterOf e) x). split; [done|]. cbn [framed_act fst task_step].
    unfold direction_work. destruct (writer_step x _ _) as [c p] eqn:Hst.
    autorewrite with framed. cbn in Hlt. lia.
Qed.

(** C12: A half-close is graceful.  Take two framed connections over one
    stream, the sending end's frame limit within 32 bits and within the
    receiving end's, and a run in which the stream does not fail and no call
    of either end aborts or closes a read side ([own_action]).  Once the
    sending end has closed its write side: every turn of the writer or of the peer's reader leaves all as
    it is or lowers the work left, so they come to rest; and either a turn or
    a receiving call can lower it, or everything accepted in this direction
    has been received, in order. *)
Theorem framed_flush bl br left right acts w h e :
  spawn_framed_halves true bl = Ok left -> spawn_framed_halves true br = Ok right ->
  max_frame_bytes (fc_budget (framed_end e (framed_pair left right))) <= u32_max ->
  max_frame_bytes (fc_budget (framed_end e (framed_pair left right)))
    <= max_frame_bytes (fc_budget (framed_end (other e) (framed_pair left right))) ->
  Forall own_action acts -> framed_run (framed_pair left right) acts = (w, h) ->
  fc_write_closed (send_half (framed_end e w)) = true ->
  (forall t x, own_turn x -> t = WriterOf e \/ t = ReaderOf (other e) ->
     task_step t x w = w \/ (direction_work e (task_step t x w) < direction_work e w)%nat)
  /\ ((exists a, own_action a /\ (direction_work e (framed_act a w).1 < direction_work e w)%nat) \/ flushed e h).
Proof.
  intros Hl Hr Hu Hm Hacts Hrun Hcl.
  eapply clean_run in Hrun as (Hi & Hc & Hb); try done; [|by eapply framed_pair_inv|by eapply framed_pair_clean].
  cbn in Hi, Hc. split.
  { intros t x Hx Ht. by eapply turn_work. }
  destruct Hi as (written & consumed & _ & _ & (d & _ & _ & Hat)).
  assert (0 < control_queue_capacity (fc_budget (framed_end (other e) w))
    /\ 0 < receive_queue_capacity (fc_budget (framed_end (other e) w))) as [H1 H2].
  { rewrite Hb. apply spawn_spec in Hl as [-> Hl]. apply spawn_spec in Hr as [-> Hr].
    unfold transport_budget_validate in Hl, Hr. inv_ok. guards. destruct e; cbn; lia. }
  destruct (direction_progress _ _ _ _ _ _ Hc Hcl Hat H1 H2) as [?|[Hq Hend]]; [by left|right].
  destruct (dc_ended _ _ _ _ Hc Hend) as (_ & _ & (taken & Hacc & Hrcv)). exists taken. split; [done|].
  intros l. by rewrite <- Hrcv, Hq, app_nil_r.
Qed.

(** ** Examples *)

Definition fresh (b : TransportBudget) : FramedConnection :=
  mkFramed b (mkSendHalf true true [] [] true true AtSelect false false)
    (mkReceiveHalf [] [] (AtLength []) false false) None.
Definition sample_pair : FramedWorld :=
  framed_pair (fresh default_transport_budget) (fresh default_transport_budget).
Definition sample_control : list byte := str "MLCSping".
Definition write_turns : list framed_action :=
  replicate 3 (FTurn (WriterOf LeftEnd) (Run 64)).
Definition read_turns : list framed_action :=
  replicate 3 (FTurn (ReaderOf RightEnd) (Run 64)).
(** Data is accepted first, and control overtakes it. *)
Definition sample_run : list framed_action :=
  [FSend LeftEnd DataLane (str "data"); FSend LeftEnd ControlLane sample_control; FCloseWrite LeftEnd]
  ++ write_turns ++ read_turns ++ [FPoll RightEnd ControlLane] ++ write_turns ++ read_turns
  ++ [FPoll RightEnd DataLane].

Lemma framed_lane_fifo_witness :
  let '(w, h) := framed_run sample_pair sample_run in
  accepted LeftEnd h ControlLane = [sample_control] /\ accepted LeftEnd h DataLane = [str "data"]
  /\ received RightEnd h ControlLane = [sample_control]
  /\ received RightEnd h DataLane `prefix_of` accepted LeftEnd h DataLane.
Proof.
  destruct (framed_run sample_pair sample_run) as [w h] eqn:Hrun.
  assert (accepted LeftEnd h ControlLane = [sample_control] /\ accepted LeftEnd h DataLane = [str "data"]
    /\ received RightEnd h ControlLane = [sample_control]) as (H1 & H2 & H3).
  { apply (f_equal snd) in Hrun. cbn [snd] in Hrun. rewrite <- Hrun. split_and!; vm_compute; reflexivity. }
  split; [exact H1|]. split; [exact H2|]. split; [exact H3|].
  apply (framed_lane_fifo default_transport_budget default_transport_budget _ _ _ _ _ LeftEnd eq_refl eq_refl Hrun).
  intros l m Hm. destruct l; [rewrite H1 in Hm|rewrite H2 in Hm]; apply list_elem_of_singleton in Hm as ->;
    vm_compute; reflexivity.
Defined.

Lemma framed_flush_witness :
  let '(w, h) := framed_run sample_pair sample_run in
  (forall x, own_turn x -> task_step (WriterOf LeftEnd) x w = w
     \/ (direction_work LeftEnd (task_step (WriterOf LeftEnd) x w) < direction_work LeftEnd w)%nat)
  /\ received RightEnd h DataLane = [str "data"].
Proof.
  destruct (framed_run sample_pair sample_run) as [w h] eqn:Hrun.
  assert (fc_write_closed (send_half (framed_end LeftEnd w)) = true /\ received RightEnd h DataLane = [str "data"])
    as [H1 H2].
  { pose proof (f_equal snd Hrun) as Hh. apply (f_equal fst) in Hrun. cbn [fst snd] in Hrun, Hh. rewrite <- Hrun, <- Hh.
    split; vm_compute; reflexivity. }
  split; [|exact H2]. intros x Hx.
  apply (framed_flush default_transport_budget default_transport_budget _ _ sample_run w h LeftEnd eq_refl eq_refl).
  - vm_compute. discriminate.
  - vm_compute. discriminate.
  - unfold sample_run, write_turns, read_turns. cbn [replicate app]. repeat (constructor; [exact I|]). constructor.
  - exact Hrun.
  - exact H1.
  - exact Hx.
  - left. exact eq_refl.
Defined.

(** The end of the reader between the poll and the look at it: a call reports
    the stream as closed while a message is in its queue. *)
Lemma receive_race :
  let w := (framed_run sample_pair ([FSend LeftEnd DataLane (str "data"); FCloseWrite LeftEnd]
              ++ write_turns ++ write_turns ++ write_turns ++ take 2 read_turns)).1 in
  let p := (poll_end DataLane (framed_end RightEnd w)).2 in
  let c := framed_end RightEnd (framed_run w (take 2 read_turns)).1 in
  p = Some PolledEmpty /\ receive_queue DataLane (receive_half c) = [str "data"]
  /\ framed_settle DataLane PolledEmpty c = Err read_closed_error.
Proof. vm_compute. done. Qed.

(** A data message that starts with the control prefix changes lanes. *)
Lemma data_changes_lane :
  let h := (framed_run sample_pair ([FSend LeftEnd DataLane sample_control] ++ write_turns ++ read_turns
              ++ [FPoll RightEnd ControlLane])).2 in
  accepted LeftEnd h ControlLane = [] /\ received RightEnd h ControlLane = [sample_control].
Proof. vm_compute. done. Qed.
