(* ===== verification/Step.v ===== *)
(** * Steps with state, errors and panics

    A method that takes [&mut self] and returns a [Result] is a step: an error
    keeps the changes made before it, and [None] is a panic or a loop without
    enough fuel.  [step_wp m s Q]: from [s] the step [m] ends, without a panic,
    in a state and a result that satisfy [Q]; [step_keeps R m]: however it ends,
    it keeps [R]. *)

From coqutil Require Export Datatypes.RecordSettersUsingExistingGetters.
From S2P Require Export Prelude.
Local Open Scope N_scope.

#[global] Arguments RecordSettersUsingExistingGetters.const {E} _ _ /.

Definition estep (E S A : Type) : Type := S -> option (S * result E A).

Section step.
Context {E S : Type}.

#[export] Instance step_ret : MRet (estep E S) := fun A a s => Some (s, Ok a).
#[export] Instance step_bind : MBind (estep E S) := fun A B f m s =>
  '(s', r) ← m s; match r with Ok a => f a s' | Err e => Some (s', Err e) end.

Definition fail_with {A} (e : E) : estep E S A := fun s => Some (s, Err e).
(** [?] on a value, and [if c { return Err(e) }]. *)
Definition try_with {A} (r : result E A) : estep E S A := fun s => Some (s, r).
Definition refuse (c : bool) (e : E) : estep E S () := if c then fail_with e else mret ().
Definition get_state {A} (f : S -> A) : estep E S A := fun s => Some (s, Ok (f s)).
Definition update (f : S -> S) : estep E S () := fun s => Some (f s, Ok ()).
(** A call of something outside, which answers at once. *)
Definition asks {A} (f : S -> S * A) : estep E S A := fun s => let '(s', a) := f s in Some (s', Ok a).
Definition panics {A} : estep E S A := fun _ => None.
Definition or_panic {A} (o : option A) : estep E S A := match o with Some a => mret a | None => panics end.
(** [o.map(f).transpose()?]. *)
Definition step_map {A B} (f : A -> estep E S B) (o : option A) : estep E S (option B) :=
  match o with Some a => b ← f a; mret (Some b) | None => mret None end.
End step.

(** ** Reasoning about steps *)

Section step_wp.
Context {E S : Type}.

Definition step_wp {A} (m : estep E S A) (s : S) (Q : S -> result E A -> Prop) : Prop :=
  match m s with Some (s', r) => Q s' r | None => False end.

Lemma step_wp_iff {A} (m : estep E S A) s Q :
  step_wp m s Q <-> exists s' r, m s = Some (s', r) /\ Q s' r.
Proof. unfold step_wp. destruct (m s) as [[s' r]|]; naive_solver. Qed.
Lemma step_wp_result {A} (m : estep E S A) s Q s' r : step_wp m s Q -> m s = Some (s', r) -> Q s' r.
Proof. unfold step_wp. intros Hw Hm. by rewrite Hm in Hw. Qed.
Lemma step_wp_mono {A} (m : estep E S A) s (Q Q' : S -> result E A -> Prop) :
  step_wp m s Q -> (forall s' r, Q s' r -> Q' s' r) -> step_wp m s Q'.
Proof. unfold step_wp. destruct (m s) as [[s' r]|]; auto. Qed.

Lemma wp_ret {A} (a : A) s (Q : _ -> _ -> Prop) : Q s (Ok a) -> step_wp (mret a) s Q.
Proof. done. Qed.
Lemma wp_bind {A B} (m : estep E S A) (f : A -> estep E S B) s (Q : _ -> _ -> Prop) :
  step_wp m s (fun s' r => match r with Ok a => step_wp (f a) s' Q | Err e => Q s' (Err e) end) ->
  step_wp (m ≫= f) s Q.
Proof.
  unfold step_wp, mbind, step_bind. destruct (m s) as [[s' [a|e]]|]; cbn; [|done..].
  by destruct (f a s') as [[??]|].
Qed.
Lemma wp_fail {A} e s (Q : S -> result E A -> Prop) : Q s (Err e) -> step_wp (fail_with e) s Q.
Proof. done. Qed.
Lemma wp_try {A} (r : result E A) s (Q : S -> _ -> Prop) : Q s r -> step_wp (try_with r) s Q.
Proof. done. Qed.
Lemma wp_refuse c e s (Q : S -> _ -> Prop) :
  (c = true -> Q s (Err e)) -> (c = false -> Q s (Ok ())) -> step_wp (refuse c e) s Q.
Proof. unfold refuse. destruct c; intros H1 H2; [by apply H1|by apply H2]. Qed.
Lemma wp_get {A} (f : S -> A) s (Q : S -> _ -> Prop) : Q s (Ok (f s)) -> step_wp (get_state f) s Q.
Proof. done. Qed.
Lemma wp_update f s (Q : S -> _ -> Prop) : Q (f s) (Ok ()) -> step_wp (update f) s Q.
Proof. done. Qed.
Lemma wp_asks {A} (f : S -> S * A) s (Q : S -> _ -> Prop) : Q (f s).1 (Ok (f s).2) -> step_wp (asks f) s Q.
Proof. unfold step_wp, asks. by destruct (f s). Qed.
Lemma wp_if {A} (c : bool) (m1 m2 : estep E S A) s Q :
  (c = true -> step_wp m1 s Q) -> (c = false -> step_wp m2 s Q) -> step_wp (if c then m1 else m2) s Q.
Proof. destruct c; intros H1 H2; [by apply H1|by apply H2]. Qed.
End step_wp.

(** What a step keeps however it ends. *)
Section step_keeps.
Context {E S : Type} (R : S -> Prop).

Definition step_keeps {A} (m : estep E S A) : Prop := forall s s' r, R s -> m s = Some (s', r) -> R s'.

Lemma keeps_ret {A} (a : A) : step_keeps (mret a).
Proof. by intros s s' r Hs [= <- _]. Qed.
Lemma keeps_bind {A B} (m : estep E S A) (f : A -> estep E S B) :
  step_keeps m -> (forall a, step_keeps (f a)) -> step_keeps (m ≫= f).
Proof.
  intros Hm Hf s s' r Hs. unfold mbind, step_bind. destruct (m s) as [[s1 [a|e]]|] eqn:Hm1; cbn; [|intros [= <- _]|done].
  - apply Hf. by eapply Hm.
  - by eapply Hm.
Qed.
Lemma keeps_fail {A} e : step_keeps (A := A) (fail_with e).
Proof. by intros s s' r Hs [= <- _]. Qed.
Lemma keeps_try {A} (x : result E A) : step_keeps (try_with x).
Proof. by intros s s' r Hs [= <- _]. Qed.
Lemma keeps_get {A} (f : S -> A) : step_keeps (get_state f).
Proof. by intros s s' r Hs [= <- _]. Qed.
Lemma keeps_asks {A} (f : S -> S * A) : (forall s, R s -> R (f s).1) -> step_keeps (asks f).
Proof. intros Hf s s' r Hs. specialize (Hf s Hs). unfold asks. destruct (f s). by intros [= <- _]. Qed.
Lemma keeps_panics {A} : step_keeps (A := A) panics.
Proof. done. Qed.
Lemma keeps_refuse c e : step_keeps (refuse c e).
Proof. unfold refuse. destruct c; [apply keeps_fail|apply keeps_ret]. Qed.
Lemma keeps_update f : (forall s, R s -> R (f s)) -> step_keeps (update f).
Proof. intros Hf s s' r Hs [= <- _]. by apply Hf. Qed.
End step_keeps.

(** Through the structure of a step, to its updates and its primitive steps. *)
Ltac keeps :=
  repeat lazymatch goal with
  | |- step_keeps _ (mret _) => apply keeps_ret
  | |- step_keeps _ (mbind _ _) => apply keeps_bind; [|intros ?]
  | |- step_keeps _ (fail_with _) => apply keeps_fail
  | |- step_keeps _ (try_with _) => apply keeps_try
  | |- step_keeps _ (get_state _) => apply keeps_get
  | |- step_keeps _ panics => apply keeps_panics
  | |- step_keeps _ (refuse _ _) => apply keeps_refuse
  | |- step_keeps _ (update _) => apply keeps_update; intros ? ?
  | |- step_keeps _ (match ?x with _ => _ end) => destruct x
  | |- step_keeps _ (step_map _ ?x) => destruct x; cbn [step_map]
  end.

(** Through the structure of a step, splitting its branches. *)
Ltac wp_split :=
  lazymatch goal with
  | |- step_wp (mret _) _ _ => apply wp_ret
  | |- step_wp (mbind _ _) _ _ => apply wp_bind
  | |- step_wp (fail_with _) _ _ => apply wp_fail
  | |- step_wp (refuse _ _) _ _ => apply wp_refuse; intros ?
  | |- step_wp (get_state _) _ _ => apply wp_get
  | |- step_wp (update _) _ _ => apply wp_update
  | |- step_wp (if _ then _ else _) _ _ => apply wp_if; intros ?
  end; cbv beta iota.
