(* ===== verification/NtpProtocol.v ===== *)
(** * What the NTP binding relies on of [nana_tracking_protocol]

    The crate is not part of the sources: its types and operations are the
    fields of the class [NanaProtocol].  An operation that can fail returns the
    [BindingError] that [?] makes of its error.  The structures that the
    binding builds field by field are records here; the others are types with
    the methods and fields the binding reads. *)

From S2P Require Export NtpBinding.
Local Open Scope N_scope.

(** [SessionId] of the protocol, a public array of 16 bytes. *)
Abbreviation NtpSessionId := (vec byte 16).

Record LayoutConfirm := mkLayoutConfirm {
  lc_layout_id : N;
  lc_layout_hash : vec byte 32;
}.
#[export] Instance LayoutConfirm_eq_dec : EqDecision LayoutConfirm.
Proof. solve_decision. Defined.

Record LayoutAccept := mkLayoutAccept {
  la_layout_id : N;
  la_layout_hash : vec byte 32;
  la_parameter_count : N;
  la_expected_payload_len : N;
}.
#[export] Instance LayoutAccept_eq_dec : EqDecision LayoutAccept.
Proof. solve_decision. Defined.

(** The types; enumerations with the constants and discriminants in use. *)
Class NanaTypes := {
  ContractRevisions : Type;
  TrackingProfile : Type;
  ProfilePartial : TrackingProfile;
  ProfileBasic : TrackingProfile;
  ProfileSpatial : TrackingProfile;
  ProfileFull : TrackingProfile;
  profile_as_u8 : TrackingProfile -> N;
  ValueEncoding : Type;
  I16Normalized : ValueEncoding;
  value_encoding_as_u8 : ValueEncoding -> N;
  QualityEncoding : Type;
  QualityNone : QualityEncoding;
  StateAndConfidenceU8 : QualityEncoding;
  quality_encoding_as_u8 : QualityEncoding -> N;
  SignalId : Type;
  signal_new : N -> option SignalId;
  signal_get : SignalId -> N;
  MAX_LAYOUT_SIGNALS : N;
  NanaTrackingDescriptor : Type;
  descriptor_revisions : NanaTrackingDescriptor -> ContractRevisions;
}.

Record LayoutProposal `{NanaTypes} := mkLayoutProposal {
  lp_revisions : ContractRevisions;
  lp_profile : TrackingProfile;
  lp_base_layout_version : N;
  lp_extra_signals : list SignalId;
  lp_value_encoding : ValueEncoding;
  lp_quality_encoding : QualityEncoding;
  lp_target_fps : N;
}.
Arguments mkLayoutProposal {_} _ _ _ _ _ _ _.

(** The operations.  Guards and negotiators change when they are used. *)
Class NanaProtocol := {
  nana_errors :: NanaTracking;
  nana_types :: NanaTypes;
  (** [CanonicalCodec::encode] and [WireDecode::decode_wire]. *)
  descriptor_encode : NanaTrackingDescriptor -> result BindingError (list byte);
  descriptor_decode : list byte -> result BindingError NanaTrackingDescriptor;
  accept_confirmation : LayoutAccept -> LayoutConfirm;
  (** [ActiveLayout], negotiated with the default limits. *)
  ActiveLayout : Type;
  layout_negotiate : N -> LayoutProposal -> NanaTrackingDescriptor -> result BindingError ActiveLayout;
  layout_confirmation : ActiveLayout -> LayoutConfirm;
  layout_signals : ActiveLayout -> list SignalId;
  layout_frame_len : ActiveLayout -> N;
  layout_layout_id : ActiveLayout -> N;
  layout_proposal : ActiveLayout -> LayoutProposal;
  (** [LayoutNegotiator], with the default limits. *)
  LayoutNegotiator : Type;
  negotiator_new : result BindingError LayoutNegotiator;
  negotiator_receive_proposal : N -> LayoutProposal -> NanaTrackingDescriptor -> N ->
    LayoutNegotiator -> LayoutNegotiator * result BindingError LayoutAccept;
  negotiator_confirm : LayoutConfirm -> LayoutNegotiator ->
    LayoutNegotiator * result BindingError ActiveLayout;
  (** [ProducerClockEstimate]. *)
  ProducerClockEstimate : Type;
  clock_synchronized : N -> N -> ProducerClockEstimate;
  clock_now_ns : ProducerClockEstimate -> N;
  clock_uncertainty_ns : ProducerClockEstimate -> N;
  (** [NanaTrackingResult]. *)
  NanaTrackingResult : Type;
  nr_session_id : NanaTrackingResult -> NtpSessionId;
  nr_generation : NanaTrackingResult -> N;
  nr_sequence : NanaTrackingResult -> N;
  nr_capture_timestamp_ns : NanaTrackingResult -> N;
  nr_produced_timestamp_ns : NanaTrackingResult -> N;
  FaceLandmark : Type;
  nr_face_landmarks : NanaTrackingResult -> list FaceLandmark;
  nr_with_landmarks : list FaceLandmark -> NanaTrackingResult -> NanaTrackingResult;
  result_encode : NanaTrackingResult -> result BindingError (list byte);
  result_decode : list byte -> result BindingError NanaTrackingResult;
  validate_result : NanaTrackingDescriptor -> NanaTrackingResult -> result BindingError ();
  (** [CompactSample] and the compact frames; a sample is that of a signal of
      the rig, or unavailable. *)
  CompactSample : Type;
  sample_unavailable : CompactSample;
  rig_sample : NanaTrackingResult -> SignalId -> option CompactSample;
  compact_encode_into : ActiveLayout -> NtpSessionId -> N -> N -> N -> N -> list CompactSample ->
    list byte -> list byte * result BindingError ();
  CompactFrame : Type;
  cf_sequence : CompactFrame -> N;
  cf_generation : CompactFrame -> N;
  cf_capture_timestamp_ns : CompactFrame -> N;
  CompactStreamGuard : Type;
  guard_confirmed : NtpSessionId -> N -> ActiveLayout -> LayoutConfirm -> CompactStreamPolicy ->
    result BindingError CompactStreamGuard;
  guard_accept : list byte -> ProducerClockEstimate -> CompactStreamGuard ->
    CompactStreamGuard * result BindingError CompactFrame;
  (** [ResultStreamGuard]; a result it accepts has the count of the missing
      sequences. *)
  ResultStreamGuard : Type;
  result_guard_new : NtpSessionId -> N -> ResultStreamGuard;
  result_guard_accept : NanaTrackingResult -> ResultStreamGuard ->
    ResultStreamGuard * result BindingError N;
}.

(** The documented behaviour of the wire form: the discriminants are those the
    decoder expects, signal ids and descriptors are read back as written and
    only from what is written. *)
Class NanaWireLaws `{NanaProtocol} := {
  profile_codes : profile_as_u8 ProfilePartial = 0 /\ profile_as_u8 ProfileBasic = 1
    /\ profile_as_u8 ProfileSpatial = 2 /\ profile_as_u8 ProfileFull = 3;
  profile_cases p : p = ProfilePartial \/ p = ProfileBasic \/ p = ProfileSpatial \/ p = ProfileFull;
  value_encoding_codes : value_encoding_as_u8 I16Normalized = 1;
  value_encoding_cases v : v = I16Normalized;
  quality_encoding_codes : quality_encoding_as_u8 QualityNone = 0
    /\ quality_encoding_as_u8 StateAndConfidenceU8 = 1;
  quality_encoding_cases q : q = QualityNone \/ q = StateAndConfidenceU8;
  signal_get_new s : signal_new (signal_get s) = Some s;
  signal_new_get n s : signal_new n = Some s -> signal_get s = n;
  signal_get_bound s : signal_get s <= u16_max;
  descriptor_codec d bs : descriptor_encode d = Ok bs <-> descriptor_decode bs = Ok d;
}.

(** A clock estimate has the instant and the uncertainty it is made of. *)
Class NanaClockLaws `{NanaProtocol} := {
  clock_now_synchronized now uncertainty : clock_now_ns (clock_synchronized now uncertainty) = now;
  clock_uncertainty_synchronized now uncertainty :
    clock_uncertainty_ns (clock_synchronized now uncertainty) = uncertainty;
}.

(** What the guard of a result stream remembers: its session, its generation and
    the last sequence accepted.  It accepts only newer results of its session,
    and never goes back. *)
Class NanaGuardLaws `{NanaProtocol} := {
  result_guard_view : ResultStreamGuard -> NtpSessionId * N;
  result_guard_last : ResultStreamGuard -> option N;
  result_guard_view_new id generation : result_guard_view (result_guard_new id generation) = (id, generation);
  result_guard_last_new id generation : result_guard_last (result_guard_new id generation) = None;
  result_guard_accepts r g g' n : result_guard_accept r g = (g', Ok n) ->
    result_guard_view g = (nr_session_id r, nr_generation r)
    /\ (forall q, result_guard_last g = Some q -> q < nr_sequence r)
    /\ result_guard_view g' = result_guard_view g /\ result_guard_last g' = Some (nr_sequence r);
  result_guard_refuses r g g' e : result_guard_accept r g = (g', Err e) ->
    result_guard_view g' = result_guard_view g /\ result_guard_last g' = result_guard_last g;
}.

(** What layouts and negotiators keep: a layout carries the id it was negotiated
    for, a [u32], and the one a negotiator confirms has the given confirmation. *)
Class NanaLayoutLaws `{NanaProtocol} := {
  layout_negotiate_id id p d l : layout_negotiate id p d = Ok l -> layout_layout_id l = id;
  layout_confirmation_id l : lc_layout_id (layout_confirmation l) <= u32_max;
  negotiator_confirm_layout c n n' l : negotiator_confirm c n = (n', Ok l) -> layout_confirmation l = c;
}.
