(* ===== verification/NtpControl.v ===== *)
(** * The control messages of the NTP binding

    Models [ntp-mutsuki-link/src/control.rs]: a header with the kind and the
    length of the payload, and the payload.  A [Reader] over a slice is the
    list of the bytes not yet read; the offset that overflows and the one
    beyond the end are the same error. *)

From S2P Require Export NtpProtocol Codec.
Local Open Scope N_scope.

Definition NTP_CONTROL_MAGIC : list byte := str "NTLC".
Definition NTP_CONTROL_VERSION : N := 1.
Definition NTP_HEADER_LEN : N := 10.
Definition MAX_REASON_BYTES : N := 256.
Definition MAX_CONTROL_BYTES : N := 64 * 1024.

Record ProtocolHello := mkHello {
  minimum_version : N;
  maximum_version : N;
  hello_link_session_id : SessionId;
}.
Definition protocol_hello_new (link_session_id : SessionId) : ProtocolHello :=
  mkHello 2 2 link_session_id.

Inductive SessionCommand := CommandStart | CommandStop | CommandPause | CommandResume.
Definition command_as_u8 (c : SessionCommand) : N :=
  match c with CommandStart => 1 | CommandStop => 2 | CommandPause => 3 | CommandResume => 4 end.

Record GeometryTopology := mkTopology {
  schema_revision : N;
  topology_hash : vec byte 32;
  landmark_count : N;
}.
Definition default_topology : GeometryTopology := mkTopology 1 (vreplicate 32 (byte_of_n 0)) 0.

Record ReceiverReport := mkReport {
  rr_received : N;
  rr_dropped : N;
  rr_stale : N;
  rr_jitter_ns : N;
  rr_result_age_ns : N;
  rr_clock_uncertainty_ns : N;
}.
Definition default_report : ReceiverReport := mkReport 0 0 0 0 0 0.

Record SessionProposal `{NanaTypes} := mkSessionProposal {
  sp_descriptor : NanaTrackingDescriptor;
  sp_session_id : NtpSessionId;
  sp_generation : N;
  sp_layout_id : N;
  sp_layout : LayoutProposal;
  sp_topology : GeometryTopology;
}.
Arguments mkSessionProposal {_} _ _ _ _ _ _.

Inductive NtpControlMessage `{NanaTypes} :=
| MHello (hello : ProtocolHello)
| MSessionProposal (proposal : SessionProposal)
| MLayoutAccepted (accept : LayoutAccept)
| MLayoutConfirmed (confirm : LayoutConfirm)
| MSessionReady (session_id : NtpSessionId) (generation layout_id : N)
| MCommand (command : SessionCommand)
| MReceiverReport (report : ReceiverReport)
| MPing (receiver_send_ns : N)
| MPong (receiver_send_ns producer_send_ns : N)
| MGeometryRequest
| MError (code : N) (reason : list byte)
| MClose (code : N) (reason : list byte).

Definition ntp_kind `{NanaTypes} (m : NtpControlMessage) : N :=
  match m with
  | MHello _ => 1 | MSessionProposal _ => 2 | MLayoutAccepted _ => 3 | MLayoutConfirmed _ => 4
  | MSessionReady _ _ _ => 5 | MCommand _ => 6 | MReceiverReport _ => 7 | MPing _ => 8 | MPong _ _ => 9
  | MGeometryRequest => 10 | MError _ _ => 11 | MClose _ _ => 12
  end.

Section control.
Context `{NanaProtocol}.
Abbreviation wr := (writer BindingError).
Abbreviation rd := (reader BindingError).

(** ** Writing *)

Definition wn_u8 : N -> wr := w_uint 1.
Definition wn_u16 : N -> wr := w_uint 2.
Definition wn_u32 : N -> wr := w_uint 4.
Definition wn_u64 : N -> wr := w_uint 8.
Definition wn_bytes (value : list byte) : wr := Ok value.
Definition wn_sized_bytes (value : list byte) : wr :=
  if u32_max <? len value then Err ControlLimit else wn_u32 (len value) >+> wn_bytes value.
Definition wn_string (value : list byte) : wr :=
  if MAX_REASON_BYTES <? len value then Err ControlLimit
  else if u16_max <? len value then Err ControlLimit
  else wn_u16 (len value) >+> wn_bytes value.

Definition wn_signals (l : list SignalId) : wr :=
  foldr (fun s w => wn_u16 (signal_get s) >+> w) (Ok []) l.
Definition wn_topology (t : GeometryTopology) : wr :=
  wn_u32 (schema_revision t) >+> w_array (topology_hash t) >+> wn_u32 (landmark_count t).
Definition wn_profile (p : TrackingProfile) : wr := wn_u8 (profile_as_u8 p).
Definition wn_value_encoding (v : ValueEncoding) : wr := wn_u8 (value_encoding_as_u8 v).
Definition wn_quality_encoding (q : QualityEncoding) : wr := wn_u8 (quality_encoding_as_u8 q).
Definition wn_layout (l : LayoutProposal) : wr :=
  wn_profile (lp_profile l) >+> wn_u16 (lp_base_layout_version l)
  >+> wn_value_encoding (lp_value_encoding l) >+> wn_quality_encoding (lp_quality_encoding l)
  >+> wn_u16 (lp_target_fps l)
  >+> (if u16_max <? len (lp_extra_signals l) then Err ControlLimit
       else wn_u16 (len (lp_extra_signals l)))
  >+> wn_signals (lp_extra_signals l).
Definition wn_proposal (p : SessionProposal) : wr :=
  w_array (sp_session_id p) >+> wn_u32 (sp_generation p) >+> wn_u32 (sp_layout_id p)
  >+> (d ← descriptor_encode (sp_descriptor p); wn_sized_bytes d)
  >+> wn_layout (sp_layout p) >+> wn_topology (sp_topology p).
Definition wn_accept (a : LayoutAccept) : wr :=
  wn_u32 (la_layout_id a) >+> w_array (la_layout_hash a) >+> wn_u16 (la_parameter_count a)
  >+> wn_u32 (la_expected_payload_len a).
Definition wn_confirm (c : LayoutConfirm) : wr := wn_u32 (lc_layout_id c) >+> w_array (lc_layout_hash c).
Definition wn_command (c : SessionCommand) : wr := wn_u8 (command_as_u8 c).
Definition wn_hello (h : ProtocolHello) : wr :=
  wn_u16 (minimum_version h) >+> wn_u16 (maximum_version h) >+> w_array (as_bytes (hello_link_session_id h)).
Definition wn_report (r : ReceiverReport) : wr :=
  wn_u64 (rr_received r) >+> wn_u64 (rr_dropped r) >+> wn_u64 (rr_stale r) >+> wn_u64 (rr_jitter_ns r)
  >+> wn_u64 (rr_result_age_ns r) >+> wn_u64 (rr_clock_uncertainty_ns r).

Definition ntp_payload (m : NtpControlMessage) : wr :=
  match m with
  | MHello h => wn_hello h
  | MSessionProposal p => wn_proposal p
  | MLayoutAccepted a => wn_accept a
  | MLayoutConfirmed c => wn_confirm c
  | MSessionReady s g l => w_array s >+> wn_u32 g >+> wn_u32 l
  | MCommand c => wn_command c
  | MReceiverReport r => wn_report r
  | MPing s => wn_u64 s
  | MPong s p => wn_u64 s >+> wn_u64 p
  | MGeometryRequest => Ok []
  | MError code reason | MClose code reason => wn_u16 code >+> wn_string reason
  end.

(** [Writer::new] and [Writer::finish] around the payload. *)
Definition writer_frame (kind : N) (payload : list byte) : list byte :=
  NTP_CONTROL_MAGIC ++ be_bytes 1 NTP_CONTROL_VERSION ++ be_bytes 1 kind ++ be_bytes 4 (len payload)
  ++ payload.
Definition writer_finish (kind : N) (payload : list byte) : result BindingError (list byte) :=
  reject u32_max <? len payload with ControlLimit;
  Ok (writer_frame kind payload).
Definition ntp_encode (m : NtpControlMessage) : result BindingError (list byte) :=
  payload ← ntp_payload m;
  writer_finish (ntp_kind m) payload.

(** ** Reading *)

Definition rn_u8 : rd N := r_uint InvalidControl 1.
Definition rn_u16 : rd N := r_uint InvalidControl 2.
Definition rn_u32 : rd N := r_uint InvalidControl 4.
Definition rn_u64 : rd N := r_uint InvalidControl 8.
Definition rn_array (n : nat) : rd (vec byte n) := r_array InvalidControl n.
Definition rn_sized_bytes : rd (list byte) := n ← rn_u32; r_take InvalidControl n.
Definition rn_string : rd (list byte) :=
  n ← rn_u16;
  reader_reject (MAX_REASON_BYTES <? n) ControlLimit
    (value ← r_take InvalidControl n;
     reader_reject (negb (utf8_valid value)) InvalidControl (mret value)).

Fixpoint rn_signals (count : nat) : rd (list SignalId) :=
  match count with
  | O => mret []
  | S count =>
    n ← rn_u16; s ← reader_lift (ok_or InvalidControl (signal_new n));
    l ← rn_signals count; mret (s :: l)
  end.
Definition rn_profile : rd TrackingProfile :=
  n ← rn_u8;
  match n with
  | 0 => mret ProfilePartial | 1 => mret ProfileBasic | 2 => mret ProfileSpatial | 3 => mret ProfileFull
  | _ => reader_fail InvalidControl
  end.
Definition rn_value_encoding : rd ValueEncoding :=
  n ← rn_u8; match n with 1 => mret I16Normalized | _ => reader_fail InvalidControl end.
Definition rn_quality_encoding : rd QualityEncoding :=
  n ← rn_u8;
  match n with 0 => mret QualityNone | 1 => mret StateAndConfidenceU8 | _ => reader_fail InvalidControl end.
Definition rn_topology : rd GeometryTopology :=
  revision ← rn_u32; hash ← rn_array 32; count ← rn_u32; mret (mkTopology revision hash count).
Definition rn_layout (revisions : ContractRevisions) : rd LayoutProposal :=
  profile ← rn_profile; base ← rn_u16; value_encoding ← rn_value_encoding; quality ← rn_quality_encoding;
  fps ← rn_u16; count ← rn_u16;
  reader_reject (MAX_LAYOUT_SIGNALS <? count) InvalidControl
    (signals ← rn_signals (N.to_nat count);
     mret (mkLayoutProposal revisions profile base signals value_encoding quality fps)).
Definition rn_proposal : rd SessionProposal :=
  session_id ← rn_array 16; generation ← rn_u32; layout_id ← rn_u32;
  bytes ← rn_sized_bytes; descriptor ← reader_lift (descriptor_decode bytes);
  layout ← rn_layout (descriptor_revisions descriptor); topology ← rn_topology;
  mret (mkSessionProposal descriptor session_id generation layout_id layout topology).
Definition rn_accept : rd LayoutAccept :=
  id ← rn_u32; hash ← rn_array 32; count ← rn_u16; expected ← rn_u32;
  mret (mkLayoutAccept id hash count expected).
Definition rn_confirm : rd LayoutConfirm := id ← rn_u32; hash ← rn_array 32; mret (mkLayoutConfirm id hash).
Definition rn_command : rd SessionCommand :=
  n ← rn_u8;
  match n with
  | 1 => mret CommandStart | 2 => mret CommandStop | 3 => mret CommandPause | 4 => mret CommandResume
  | _ => reader_fail InvalidControl
  end.
Definition rn_report : rd ReceiverReport :=
  received ← rn_u64; dropped ← rn_u64; stale ← rn_u64; jitter ← rn_u64; age ← rn_u64; uncertainty ← rn_u64;
  mret (mkReport received dropped stale jitter age uncertainty).
Definition rn_hello : rd ProtocolHello :=
  lo ← rn_u16; hi ← rn_u16; id ← rn_array 16; mret (mkHello lo hi (from_bytes (k := SessionKind) id)).

Definition rn_message (kind : N) : rd NtpControlMessage :=
  match kind with
  | 1 => h ← rn_hello; mret (MHello h)
  | 2 => p ← rn_proposal; mret (MSessionProposal p)
  | 3 => a ← rn_accept; mret (MLayoutAccepted a)
  | 4 => c ← rn_confirm; mret (MLayoutConfirmed c)
  | 5 => s ← rn_array 16; g ← rn_u32; l ← rn_u32; mret (MSessionReady s g l)
  | 6 => c ← rn_command; mret (MCommand c)
  | 7 => r ← rn_report; mret (MReceiverReport r)
  | 8 => s ← rn_u64; mret (MPing s)
  | 9 => s ← rn_u64; p ← rn_u64; mret (MPong s p)
  | 10 => mret MGeometryRequest
  | 11 => code ← rn_u16; reason ← rn_string; mret (MError code reason)
  | 12 => code ← rn_u16; reason ← rn_string; mret (MClose code reason)
  | _ => reader_fail InvalidControl
  end.

(** [Reader::framed]: the kind, and the bytes of the payload. *)
Definition reader_framed (bytes : list byte) : result BindingError (N * list byte) :=
  reject (len bytes <? NTP_HEADER_LEN) || (MAX_CONTROL_BYTES <? len bytes)
         || negb (bool_decide (field 0 4 bytes = NTP_CONTROL_MAGIC))
         || negb (from_be_bytes (field 4 5 bytes) =? NTP_CONTROL_VERSION)
    with InvalidControl;
  reject negb (from_be_bytes (field 6 10 bytes) =? len bytes - NTP_HEADER_LEN) with InvalidControl;
  Ok (from_be_bytes (field 5 6 bytes), drop 10 bytes).
Definition ntp_decode (bytes : list byte) : result BindingError NtpControlMessage :=
  '(kind, payload) ← reader_framed bytes;
  '(message, rest) ← rn_message kind payload;
  reject negb (bool_decide (rest = [])) with InvalidControl;
  Ok message.
End control.
