(* ===== verification/NtpControlFacts.v ===== *)
(** * Round trips of the NTP control messages *)

From S2P Require Export NtpControl RealtimeWire.
Local Open Scope N_scope.

Section facts.
Context `{NanaWireLaws}.

(** ** Integers, strings and enumerations *)

#[export] Instance n8_codec : Codec wn_u8 rn_u8 (fun x => x <= u8_max).
Proof. by apply uint_codec_le. Qed.
#[export] Instance n16_codec : Codec wn_u16 rn_u16 (fun x => x <= u16_max).
Proof. by apply uint_codec_le. Qed.
#[export] Instance n32_codec : Codec wn_u32 rn_u32 (fun x => x <= u32_max).
Proof. by apply uint_codec_le. Qed.
#[export] Instance n64_codec : Codec wn_u64 rn_u64 (fun x => x <= u64_max).
Proof. by apply uint_codec_le. Qed.
#[export] Instance narray_codec n : Codec w_array (rn_array n) (fun _ => True).
Proof. apply array_codec. Qed.
#[local] Typeclasses Opaque wn_u8 wn_u16 wn_u32 wn_u64 rn_u8 rn_u16 rn_u32 rn_u64 rn_array.

#[export] Instance sized_bytes_codec : Codec wn_sized_bytes rn_sized_bytes (fun _ => True).
Proof.
  split.
  - intros v bs rest He _. unfold wn_sized_bytes, wn_bytes, rn_sized_bytes in *.
    destruct (N.ltb_spec u32_max (len v)); [done|]. inv_codec. read_back. apply r_take_app.
  - intros l v rest Hr. unfold rn_sized_bytes in Hr. inv_codec.
    apply r_take_ok in Hr as [-> Hn]. write_back. unfold wn_sized_bytes, wn_bytes. rewrite Hn.
    tests. by written.
Qed.
#[export] Instance nstring_codec : Codec wn_string rn_string (fun s => utf8_valid s = true).
Proof.
  split.
  - intros v bs rest He Hv. unfold wn_string, wn_bytes, rn_string in *.
    destruct (N.ltb_spec MAX_REASON_BYTES (len v)); [done|]. destruct (N.ltb_spec u16_max (len v)); [done|].
    inv_codec. read_back. tests. cbn [reader_reject].
    erewrite reader_bind_eq by apply r_take_app. by rewrite Hv.
  - intros l v rest Hr. unfold rn_string in Hr. inv_codec. guards.
    apply r_take_ok in Hr1 as [-> Hn]. write_back. unfold wn_string, wn_bytes. rewrite Hn. tests.
    unfold MAX_REASON_BYTES in *. tests. written. by destruct (utf8_valid _).
Qed.

#[export] Instance profile_codec : Codec wn_profile rn_profile (fun _ => True).
Proof.
  destruct profile_codes as (E0 & E1 & E2 & E3). split.
  - intros p bs rest He _. unfold wn_profile, rn_profile in *.
    destruct (profile_cases p) as [->|[->|[->| ->]]]; rewrite ?E0, ?E1, ?E2, ?E3 in He; by read_back.
  - intros l p rest Hr. unfold wn_profile, rn_profile in *. inv_codec. write_back.
    destruct a as [|[[a|a|]|[a|a|]|]]; inv_codec; exists bs; by rewrite ?E0, ?E1, ?E2, ?E3.
Qed.
#[export] Instance value_encoding_codec :
  Codec wn_value_encoding rn_value_encoding (fun _ => True).
Proof.
  split.
  - intros v bs rest He _. unfold wn_value_encoding, rn_value_encoding in *. rewrite (value_encoding_cases v) in *.
    rewrite value_encoding_codes in He. by read_back.
  - intros l v rest Hr. unfold wn_value_encoding, rn_value_encoding in *. inv_codec. write_back.
    destruct a as [|[a|a|]]; inv_codec. exists bs. by rewrite value_encoding_codes.
Qed.
#[export] Instance quality_encoding_codec :
  Codec wn_quality_encoding rn_quality_encoding (fun _ => True).
Proof.
  destruct quality_encoding_codes as [E0 E1]. split.
  - intros q bs rest He _. unfold wn_quality_encoding, rn_quality_encoding in *.
    destruct (quality_encoding_cases q) as [->| ->]; rewrite ?E0, ?E1 in He; by read_back.
  - intros l q rest Hr. unfold wn_quality_encoding, rn_quality_encoding in *. inv_codec. write_back.
    destruct a as [|[a|a|]]; inv_codec; exists bs; by rewrite ?E0, ?E1.
Qed.
#[export] Instance command_codec : Codec wn_command rn_command (fun _ => True).
Proof.
  split.
  - intros c bs rest He _. unfold wn_command, rn_command in *. destruct c; cbn [command_as_u8] in He; by read_back.
  - intros l c rest Hr. unfold wn_command, rn_command in *. inv_codec. write_back.
    destruct a as [|[[a|a|]|[a|[]|]|]]; inv_codec; by exists bs.
Qed.

(** ** Composites *)

#[export] Instance signals_codec n : Codec wn_signals (rn_signals n) (fun l => length l = n).
Proof.
  split.
  - intros l. revert n. induction l as [|s l IH]; intros n bs rest He Hn; cbn in *.
    + subst n. by injection He as <-.
    + destruct n as [|n]; [done|]. inv_codec. pose proof (signal_get_bound s). cbn. read_back.
      erewrite reader_bind_lift by by rewrite signal_get_new.
      by erewrite reader_bind_eq by (apply IH; [done|lia]).
  - induction n as [|n IH]; intros l v rest Hr; cbn in Hr; inv_codec.
    + by exists [].
    + inv_ok. apply IH in Hr2 as (bs & E & -> & <-). write_back.
      match goal with Hs : signal_new _ = Some _ |- _ => apply signal_new_get in Hs as <- end.
      change (wn_signals (a0 :: a1)) with (wn_u16 (signal_get a0) >+> wn_signals a1). written. done.
Qed.

#[local] Arguments wn_signals _ : simpl never.
#[local] Typeclasses Opaque wn_profile wn_value_encoding wn_quality_encoding wn_command wn_signals.

Definition topology_wf (t : GeometryTopology) : Prop :=
  schema_revision t <= u32_max /\ landmark_count t <= u32_max.
#[export] Instance topology_codec : Codec wn_topology rn_topology topology_wf.
Proof.
  split.
  - intros [r h c] bs rest He [??]. unfold wn_topology, rn_topology in *. cbn in *. inv_codec. by read_back.
  - intros l t rest Hr. unfold rn_topology in Hr. inv_codec. write_back. unfold wn_topology. cbn. written. done.
Qed.

(** A layout that can be proposed; its revisions are not sent. *)
Definition layout_wf (revisions : ContractRevisions) (l : LayoutProposal) : Prop :=
  lp_revisions l = revisions /\ lp_base_layout_version l <= u16_max /\ lp_target_fps l <= u16_max
  /\ len (lp_extra_signals l) <= MAX_LAYOUT_SIGNALS.
#[export] Instance layout_codec revisions : Codec wn_layout (rn_layout revisions) (layout_wf revisions).
Proof.
  split.
  - intros [r p b s v q f] bs rest He (Hrev & Hb & Hf & Hs). unfold wn_layout, rn_layout in *. cbn in *.
    subst revisions.
    destruct (N.ltb_spec u16_max (len s)); inv_codec. read_back.
    destruct (N.ltb_spec MAX_LAYOUT_SIGNALS (len s)); [lia|]. cbn [reader_reject].
    by erewrite reader_bind_eq by (eapply codec_read; [done|apply _|cbn; lia]).
  - intros l v rest Hr. unfold rn_layout in Hr. inv_codec. write_back. guards.
    unfold wn_layout. cbn. cbv beta in *. rename select (length _ = _) into Hlen.
    rewrite Hlen, N2Nat.id. tests. written. split_and!; try done. cbn. lia.
Qed.
#[local] Typeclasses Opaque wn_topology wn_layout.

Definition accept_wf (a : LayoutAccept) : Prop :=
  la_layout_id a <= u32_max /\ la_parameter_count a <= u16_max /\ la_expected_payload_len a <= u32_max.
#[export] Instance accept_codec : Codec wn_accept rn_accept accept_wf.
Proof.
  split.
  - intros [i h c e] bs rest He (?&?&?). unfold wn_accept, rn_accept in *. cbn in *. inv_codec. by read_back.
  - intros l t rest Hr. unfold rn_accept in Hr. inv_codec. write_back. unfold wn_accept. cbn. by written.
Qed.
Definition confirm_wf (c : LayoutConfirm) : Prop := lc_layout_id c <= u32_max.
#[export] Instance confirm_codec : Codec wn_confirm rn_confirm confirm_wf.
Proof.
  split.
  - intros [i h] bs rest He ?. unfold confirm_wf, wn_confirm, rn_confirm in *. cbn in *. inv_codec. by read_back.
  - intros l t rest Hr. unfold rn_confirm in Hr. inv_codec. write_back. unfold wn_confirm. cbn. by written.
Qed.
Definition report_wf (r : ReceiverReport) : Prop :=
  rr_received r <= u64_max /\ rr_dropped r <= u64_max /\ rr_stale r <= u64_max /\ rr_jitter_ns r <= u64_max
  /\ rr_result_age_ns r <= u64_max /\ rr_clock_uncertainty_ns r <= u64_max.
#[export] Instance report_codec : Codec wn_report rn_report report_wf.
Proof.
  split.
  - intros [] bs rest He (?&?&?&?&?&?). unfold wn_report, rn_report in *. cbn in *. inv_codec. by read_back.
  - intros l t rest Hr. unfold rn_report in Hr. inv_codec. write_back. unfold wn_report. cbn. by written.
Qed.
Definition hello_wf (h : ProtocolHello) : Prop := minimum_version h <= u16_max /\ maximum_version h <= u16_max.
#[export] Instance hello_codec : Codec wn_hello rn_hello hello_wf.
Proof.
  split.
  - intros [lo hi [id]] bs rest He [??]. unfold wn_hello, rn_hello in *. cbn in *. inv_codec. by read_back.
  - intros l t rest Hr. unfold rn_hello in Hr. inv_codec. write_back. unfold wn_hello. cbn. by written.
Qed.

Definition proposal_wf (p : SessionProposal) : Prop :=
  sp_generation p <= u32_max /\ sp_layout_id p <= u32_max
  /\ layout_wf (descriptor_revisions (sp_descriptor p)) (sp_layout p) /\ topology_wf (sp_topology p).
#[export] Instance proposal_codec : Codec wn_proposal rn_proposal proposal_wf.
Proof.
  split.
  - intros [d s g i l t] bs rest He (?&?&?&?). unfold wn_proposal, rn_proposal in *. cbn in *.
    destruct (descriptor_encode d) as [db|] eqn:Hd; cbn in He; [|inv_codec].
    inv_codec. apply descriptor_codec in Hd. read_back.
    erewrite reader_bind_lift by done. by read_back.
  - intros l p rest Hr. unfold rn_proposal in Hr. inv_codec.
    rename select (descriptor_decode _ = _) into Hd. apply descriptor_codec in Hd.
    write_back. unfold wn_proposal. cbn. rewrite Hd. cbn. by written.
Qed.
#[local] Typeclasses Opaque wn_accept wn_confirm wn_report wn_hello wn_proposal.

(** ** Messages *)

(** The fields a message carries fit their widths; a reason is a string. *)
Definition message_wf (m : NtpControlMessage) : Prop :=
  match m with
  | MHello h => hello_wf h
  | MSessionProposal p => proposal_wf p
  | MLayoutAccepted a => accept_wf a
  | MLayoutConfirmed c => confirm_wf c
  | MSessionReady _ g l => g <= u32_max /\ l <= u32_max
  | MCommand _ | MGeometryRequest => True
  | MReceiverReport r => report_wf r
  | MPing s => s <= u64_max
  | MPong s p => s <= u64_max /\ p <= u64_max
  | MError c reason | MClose c reason => c <= u16_max /\ utf8_valid reason = true
  end.

Lemma ntp_payload_read m bs rest :
  ntp_payload m = Ok bs -> message_wf m -> rn_message (ntp_kind m) (bs ++ rest) = Ok (m, rest).
Proof.
  intros He Hm. destruct m; cbn in *; inv_codec; destruct_and?; unfold rn_message; cbv iota; read_back; done.
Qed.

Lemma ntp_payload_written kind l m rest :
  rn_message kind l = Ok (m, rest) ->
  exists bs, ntp_payload m = Ok bs /\ l = bs ++ rest /\ message_wf m /\ kind = ntp_kind m.
Proof.
  intros Hr. unfold rn_message in Hr.
  repeat (destruct kind as [|kind]; [try (inv_codec; fail)|]); try (inv_codec; fail).
  all: repeat match type of Hr with context [match ?p with xI _ => _ | xO _ => _ | xH => _ end] =>
    destruct p end; inv_codec; write_back; cbn [ntp_payload ntp_kind message_wf].
  all: by written.
Qed.

Lemma ntp_kind_bound m : ntp_kind m < 256.
Proof. by destruct m. Qed.

(** ** The frame *)

Lemma framed_read kind payload :
  kind < 256 -> len payload + NTP_HEADER_LEN <= MAX_CONTROL_BYTES ->
  reader_framed (writer_frame kind payload) = Ok (kind, payload).
Proof.
  intros Hk Hlen. unfold NTP_HEADER_LEN, MAX_CONTROL_BYTES in *. set (bytes := writer_frame _ _).
  assert (len bytes = 10 + len payload) as Hb.
  { unfold bytes, writer_frame. rewrite !length_app, !be_bytes_length. cbn. lia. }
  assert (from_be_bytes (field 5 6 bytes) = kind) as Hf by exact (from_be_bytes_small 1 kind Hk).
  assert (from_be_bytes (field 6 10 bytes) = len payload) as Hn.
  { apply (from_be_bytes_small 4). cbn. lia. }
  assert (drop 10 bytes = payload) as Hd by reflexivity.
  unfold reader_framed. rewrite Hf, Hn, Hd, Hb.
  rewrite bool_decide_eq_true_2 by reflexivity.
  change (from_be_bytes (field 4 5 bytes)) with 1. unfold NTP_HEADER_LEN, MAX_CONTROL_BYTES.
  replace (10 + len payload - 10) with (len payload) by lia. by tests.
Qed.

Lemma framed_written bytes kind payload :
  reader_framed bytes = Ok (kind, payload) ->
  bytes = writer_frame kind payload /\ len bytes = 10 + len payload /\ len bytes <= MAX_CONTROL_BYTES.
Proof.
  unfold reader_framed, writer_frame. intros H1. inv_ok. guards. rename H1 into Hm, H2 into Hv, H3 into Hn.
  unfold NTP_HEADER_LEN, MAX_CONTROL_BYTES in *.
  split; [|rewrite length_drop; split; [lia|done]].
  rewrite <- Hv, <- Hm. rewrite length_drop, Nat2N.inj_sub. change (N.of_nat 10) with 10. rewrite <- Hn.
  rewrite !be_bytes_from by (rewrite field_length; lia).
  rewrite <- !wire_field_split by lia. by rewrite drop_0.
Qed.

(** C20: the decoder of control messages accepts exactly the encoder's output
    for the messages whose fields fit, within the limit of 64 KiB: what is
    encoded is decoded to the same message, and no other bytes are read. *)
Theorem ntp_control_codec m wire :
  ntp_decode wire = Ok m <->
  ntp_encode m = Ok wire /\ message_wf m /\ len wire <= MAX_CONTROL_BYTES.
Proof.
  unfold ntp_decode, ntp_encode, writer_finish. split.
  - destruct (reader_framed wire) as [[kind payload]|] eqn:Hf; cbn; [|done].
    destruct (rn_message kind payload) as [[m' rest]|] eqn:Hr; cbn; [|done].
    case_bool_decide; [|done]. intros [= ->]. subst rest.
    apply framed_written in Hf as (-> & Hlen & Hmax). apply ntp_payload_written in Hr as (bs & Hp & -> & Hm & ->).
    rewrite app_nil_r in *. rewrite Hp. cbn. unfold MAX_CONTROL_BYTES in *. by tests.
  - intros (He & Hm & Hlen). destruct (ntp_payload m) as [payload|] eqn:Hp; cbn [mbind result_bind] in He; [|done].
    inv_ok. rewrite framed_read; [|apply ntp_kind_bound|].
    + cbn. rewrite <- (app_nil_r payload). by erewrite ntp_payload_read.
    + revert Hlen. unfold writer_frame. rewrite !length_app, !be_bytes_length. unfold NTP_HEADER_LEN. cbn. lia.
Qed.
End facts.
