(* ===== verification/NtpSession.v ===== *)
(** * What the two ends of an NTP session share

    Models the declarations and helper functions of
    [ntp-mutsuki-link/src/lib.rs] that the publisher and the subscriber use:
    events, outcomes, session definitions, the control queue, and the clock
    synchronizer.  A method that takes [&mut self] is a [step] over the state
    of its object and of the connection: an error keeps the changes made
    before it, and [None] is a panic or a loop without enough fuel.  [Vec] and
    [VecDeque] are lists; capacities are not observable. *)

From S2P Require Export Step NtpControl Fragment Reliable.
Local Open Scope N_scope.

(** The steps of the binding fail with a [BindingError]. *)
Abbreviation step := (estep BindingError).

(** ** Modes, sessions and telemetry *)

Inductive TrackingTransportMode := ModeReliableLatestOnly | ModeDatagram.
#[export] Instance TrackingTransportMode_eq_dec : EqDecision TrackingTransportMode.
Proof. solve_decision. Defined.

Inductive PlaybackState := PlaybackStopped | PlaybackPaused | PlaybackRunning.
#[export] Instance PlaybackState_eq_dec : EqDecision PlaybackState.
Proof. solve_decision. Defined.

Inductive ReceiveOutcome := ReceiveIdle | ReceiveProgress.

(** [TrackingTelemetry] without the growths of buffers. *)
Record TrackingTelemetry := mkTelemetry {
  tt_reliable_pending : N;
  tt_queue_replacements : N;
  tt_rate_limited : N;
  tt_malformed_frames : N;
  tt_fuse_tripped : bool;
  tt_replay_dropped : N;
}.
Definition default_tracking_telemetry : TrackingTelemetry := mkTelemetry 0 0 0 0 false 0.

Inductive PublisherEvent :=
| PubHelloAccepted | PubLayoutAccepted | PubSessionReady
| PubPlaybackChanged (command : SessionCommand)
| PubReceiverReport (report : ReceiverReport)
| PubGeometryRequested
| PubRemoteError (code : N) | PubRemoteClosed (code : N).

Inductive SubscriberEvent :=
| SubHelloAccepted | SubProposalAccepted | SubSessionReady | SubClockSynchronized
| SubRemoteError (code : N) | SubRemoteClosed (code : N).

Record PublishOutcome := mkPublishOutcome {
  po_compact : SendOutcome;
  po_core : FragmentBatchOutcome;
  po_geometry : option FragmentBatchOutcome;
}.

Definition single_frame_batch (outcome : SendOutcome) : FragmentBatchOutcome :=
  let one (b : bool) : N := if b then 1 else 0 in
  mkBatch 1 (one match outcome with Enqueued => true | _ => false end)
    (one match outcome with ReplacedOlder => true | _ => false end)
    (one match outcome with DroppedExpired => true | _ => false end)
    (one match outcome with DroppedCongested | Unsupported => true | _ => false end).

Definition CONTROL_PROTOCOL : list byte := str "nana.tracking.remote.v2".
Definition ntp_protocol : ProtocolId := mkProtocolId CONTROL_PROTOCOL.
(** The [expect] of [protocol()] holds. *)
Lemma ntp_protocol_valid : protocol_id_new CONTROL_PROTOCOL = Ok ntp_protocol.
Proof. reflexivity. Qed.

Section session.
Context `{NanaProtocol}.

Record SessionDefinition := mkDefinition {
  sd_descriptor : NanaTrackingDescriptor;
  sd_session_id : NtpSessionId;
  sd_generation : N;
  sd_layout : ActiveLayout;
  sd_topology : GeometryTopology;
}.

Record BoundNtpSession := mkBound {
  bs_peer_id : PeerId;
  bs_link_session_id : SessionId;
  bs_ntp_session_id : NtpSessionId;
  bs_generation : N;
  bs_layout_id : N;
  bs_layout_hash : vec byte 32;
  bs_expected_frame_len : N;
  bs_value_encoding : ValueEncoding;
  bs_target_fps : N;
  bs_transport_mode : TrackingTransportMode;
}.

(** [None] when the length of a frame does not fit [u32]. *)
Definition bound_session (a : NtpAuthorization) (session_id : NtpSessionId) (generation : N)
    (layout : ActiveLayout) (mode : TrackingTransportMode) : option BoundNtpSession :=
  if layout_frame_len layout <=? u32_max then
    Some (mkBound (au_peer_id a) (au_link_session_id a) session_id generation (layout_layout_id layout)
            (lc_layout_hash (layout_confirmation layout)) (layout_frame_len layout)
            (lp_value_encoding (layout_proposal layout)) (lp_target_fps (layout_proposal layout)) mode)
  else None.

(** ** The control queue *)

Definition queue_control (outbox : list (list byte)) (message : NtpControlMessage)
    (config : BindingConfig) : result BindingError (list (list byte)) :=
  reject max_pending_control config <=? len outbox with ControlLimit;
  encoded ← ntp_encode message;
  reject max_control_bytes config <? len encoded with ControlLimit;
  Ok (outbox ++ [encoded]).

Definition validate_hello (hello : ProtocolHello) (expected : SessionId) : result BindingError () :=
  if (2 <? minimum_version hello) || (maximum_version hello <? 2) then Err IncompatibleVersion
  else if bool_decide (hello_link_session_id hello = expected) then Ok ()
  else Err SessionBindingMismatch.

Definition is_protocol_violation (e : BindingError) : bool :=
  match e with
  | BeCodec _ | BeContract _ | BeCompact _ | BeCompactStream _ | BeStream _
  | InvalidFragment | LayoutMismatch | PayloadLimit => true
  | _ => false
  end.

Section connection.
Context {C W : Type} `{Connection C W} `{RealtimeConnection C W}.

Fixpoint flush_control (c : C) (outbox : list (list byte)) (w : W)
    : W * list (list byte) * result BindingError () :=
  match outbox with
  | [] => (w, [], Ok ())
  | message :: rest =>
    match open_control_stream c ntp_protocol with
    | Err e => (w, outbox, Err (BeTransport e))
    | Ok stream =>
      let '(w, sent) := control_try_send stream message w in
      match sent with
      | Ok _ => flush_control c rest w
      | Err e =>
        if bool_decide (te_kind e = TransportErrorKind.WouldBlock) then (w, outbox, Ok ())
        else (w, outbox, Err (BeTransport e))
      end
    end
  end.

Definition receive_control (c : C) (config : BindingConfig) (w : W)
    : W * result BindingError (option NtpControlMessage) :=
  match open_control_stream c ntp_protocol with
  | Err e => (w, Err (BeTransport e))
  | Ok stream =>
    let '(w, received) := control_try_receive stream w in
    (w, match received with
        | Ok (Some bytes) =>
          if len bytes <=? max_control_bytes config then message ← ntp_decode bytes; Ok (Some message)
          else Err ControlLimit
        | Ok None => Ok None
        | Err e =>
          if bool_decide (te_kind e = TransportErrorKind.WouldBlock) then Ok None
          else Err (BeTransport e)
        end)
  end.

Definition validate_connection_authorization (c : C) (a : NtpAuthorization) (expected_role : NtpRole)
    : result BindingError () :=
  reject match au_role a, expected_role with
         | Publisher, Publisher | Subscriber, Subscriber => false
         | _, _ => true
         end with BeUnauthorized;
  reject match peer_hint (metadata c) with
         | Some peer => negb (bool_decide (peer = au_peer_id a))
         | None => false
         end with SessionBindingMismatch;
  Ok ().

(** How the two ends choose their mode. *)
Definition transport_mode_of (c : C) (w : W) : TrackingTransportMode :=
  match max_datagram_payload c w with Some _ => ModeDatagram | None => ModeReliableLatestOnly end.
End connection.

(** ** Rate limits *)

(** Whether a session may not replace the active one: it had the generation. *)
Definition stale_generation (active : option (NtpSessionId * N)) (session_id : NtpSessionId) (generation : N)
    : bool :=
  match active with
  | Some (id, g) => bool_decide (id = session_id) && (generation <=? g)
  | None => false
  end.

(** The cutoff of [note_reconfigure]: [checked_sub] fails within a minute of
    the clock's origin. *)
Definition reconfigure_cutoff (now : N) : N :=
  if now <? 60 * 1000000000 then now else now - 60 * 1000000000.
Fixpoint drop_until (cutoff : N) (times : list N) : list N :=
  match times with
  | t :: rest => if t <=? cutoff then drop_until cutoff rest else times
  | [] => []
  end.
(** The times kept, and whether the reconfiguration is admitted. *)
Definition note_reconfigure (max_per_minute now : N) (times : list N) : list N * bool :=
  let times := drop_until (reconfigure_cutoff now) times in
  if max_per_minute <=? len times then (times, false) else (times ++ [now], true).

(** The windows of one second and of ten: when each began, and its count. *)
Record FrameWindows := mkWindows {
  fw_started : N;
  fw_count : N;
  fw_sustained_started : N;
  fw_sustained_count : N;
}.
(** [duration_since] is zero when the instant is later. *)
Definition note_frame (max_burst target_fps now : N) (s : FrameWindows) : FrameWindows * bool :=
  let s := if 1000000000 <=? now - fw_started s then s <|fw_started := now|> <|fw_count := 0|> else s in
  if max_burst <=? fw_count s then (s, false)
  else
    let s := if 10 * 1000000000 <=? now - fw_sustained_started s
             then s <|fw_sustained_started := now|> <|fw_sustained_count := 0|> else s in
    if sat_mul u32_max target_fps 10 <=? fw_sustained_count s then (s, false)
    else (s <|fw_count := sat_add u16_max (fw_count s) 1|>
            <|fw_sustained_count := sat_add u32_max (fw_sustained_count s) 1|>, true).

(** ** The clock of the producer *)

(** The offset is an [i128]; differences of [u64]s stay far from its bounds. *)
Record ClockSynchronizer := mkClock {
  pending_ping : option N;
  clock_offset : option Z;
  clock_uncertainty : option N;
}.
Definition default_clock : ClockSynchronizer := mkClock None None None.

Definition note_ping (receiver_send_ns : N) (k : ClockSynchronizer) : ClockSynchronizer :=
  mkClock (Some receiver_send_ns) (clock_offset k) (clock_uncertainty k).
Definition note_pong (receiver_send_ns producer_send_ns receiver_receive_ns : N) (k : ClockSynchronizer)
    : result BindingError ClockSynchronizer :=
  reject negb (bool_decide (pending_ping k = Some receiver_send_ns))
         || (receiver_receive_ns <? receiver_send_ns) with InvalidControl;
  let uncertainty_ns := (receiver_receive_ns - receiver_send_ns) / 2 in
  let producer_at_receive := sat_add u64_max producer_send_ns uncertainty_ns in
  Ok (mkClock None (Some (Z.of_N producer_at_receive - Z.of_N receiver_receive_ns)%Z)
        (Some uncertainty_ns)).
Definition clock_estimate (receiver_now_ns : N) (k : ClockSynchronizer) : option ProducerClockEstimate :=
  offset ← clock_offset k;
  let mapped := (Z.of_N receiver_now_ns + offset)%Z in
  let now_ns := if (mapped <=? 0)%Z then 0 else N.min u64_max (Z.to_N mapped) in
  uncertainty ← clock_uncertainty k;
  Some (clock_synchronized now_ns uncertainty).
End session.
