(* ===== verification/NtpPublisher.v ===== *)
(** * The publisher of an NTP session

    Models [Publisher] of [ntp-mutsuki-link/src/lib.rs].  The scratch buffer of
    the fragments is not observable; each call of [Instant::now] is an argument,
    in nanoseconds. *)

From S2P Require Export NtpSession.
Local Open Scope N_scope.

Section publisher.
Context `{NanaProtocol} {C W : Type} `{Connection C W} `{RealtimeConnection C W}.

Record NtpPublisher := mkPublisher {
  p_connection : C;
  p_authorization : NtpAuthorization;
  p_transport_mode : TrackingTransportMode;
  p_config : BindingConfig;
  p_remote_hello : bool;
  p_pending : option SessionDefinition;
  p_pending_accepted : bool;
  p_active : option SessionDefinition;
  p_playback : PlaybackState;
  p_outbox : list (list byte);
  p_compact_samples : list CompactSample;
  p_compact_bytes : list byte;
  p_reliable : ReliableLatestSender;
  p_reconfigure_times : list N;
  p_windows : FrameWindows;
  p_rate_limited : N;
  p_last_published_sequence : option N;
  p_geometry_requested : bool;
  p_last_report : option ReceiverReport;
}.

Definition publisher_new (connection : C) (authorization : NtpAuthorization) (config : BindingConfig)
    (now1 now2 : N) (w : W) : result BindingError NtpPublisher :=
  config ← binding_config_validate config;
  _ ← validate_connection_authorization connection authorization Publisher;
  let mode := transport_mode_of connection w in
  reject negb (reliable (metadata connection)) with InvalidState;
  Ok (mkPublisher connection authorization mode config false None false None PlaybackStopped [] [] []
        default_latest_sender [] (mkWindows now1 0 now2 0) 0 None false None).

Definition p_descriptor (s : NtpPublisher) : option NanaTrackingDescriptor := sd_descriptor <$> p_active s.
Definition p_topology (s : NtpPublisher) : option GeometryTopology := sd_topology <$> p_active s.
(** The outer [None] is the panic. *)
Definition p_bound_session (s : NtpPublisher) : option (option BoundNtpSession) :=
  match p_active s with
  | None => Some None
  | Some a =>
    b ← bound_session (p_authorization s) (sd_session_id a) (sd_generation a) (sd_layout a)
          (p_transport_mode s);
    Some (Some b)
  end.
Definition p_telemetry (s : NtpPublisher) : TrackingTelemetry :=
  mkTelemetry (latest_pending (p_reliable s)) (ls_replacements (p_reliable s)) (p_rate_limited s) 0 false 0.

(** ** Steps of the publisher *)

Definition p_get {A} (f : NtpPublisher -> A) : step (NtpPublisher * W) A := get_state (fun s => f s.1).
Definition p_set (f : NtpPublisher -> NtpPublisher) : step (NtpPublisher * W) () :=
  update (fun s => (f s.1, s.2)).

Definition p_queue (message : NtpControlMessage) : step (NtpPublisher * W) () :=
  outbox ← p_get p_outbox; config ← p_get p_config;
  outbox ← try_with (queue_control outbox message config);
  p_set (fun s => s <|p_outbox := outbox|>).
Definition p_flush_control : step (NtpPublisher * W) () := fun '(s, w) =>
  let '(w, outbox, r) := flush_control (p_connection s) (p_outbox s) w in
  Some (s <|p_outbox := outbox|>, w, r).
Definition p_receive_control : step (NtpPublisher * W) (option NtpControlMessage) := fun '(s, w) =>
  let '(w, r) := receive_control (p_connection s) (p_config s) w in Some (s, w, r).
(** One iteration more than there are frames waiting is enough. *)
Definition p_flush_reliable : step (NtpPublisher * W) () := fun '(s, w) =>
  '(w, reliable, r) ← latest_flush (S (length (waiting_frames (p_reliable s)))) (p_connection s) (p_reliable s) w;
  Some (s <|p_reliable := reliable|>, w, r).
Definition p_enqueue (flow generation sequence : N) (priority : RealtimePriority.t) (payload : list byte)
    : step (NtpPublisher * W) SendOutcome := fun '(s, w) =>
  let '(reliable, r) :=
    latest_enqueue flow generation sequence priority payload (max_tracking_frame_bytes (p_config s))
      (p_reliable s) in
  Some (s <|p_reliable := reliable|>, w, r).
Definition p_send_latest (d : RealtimeDatagram) : step (NtpPublisher * W) SendOutcome := fun '(s, w) =>
  let '(w, r) := try_send_latest (p_connection s) d w in Some (s, w, map_err BeTransport r).
Definition p_send_fragmented (flow generation sequence deadline : N) (priority : RealtimePriority.t)
    (payload : list byte) : step (NtpPublisher * W) FragmentBatchOutcome := fun '(s, w) =>
  let '(w, r) :=
    send_fragmented (p_connection s)
      (mkFragmentSend flow generation sequence deadline priority payload (p_config s)) w in
  Some (s, w, r).

Definition p_count_rate_limited : step (NtpPublisher * W) () :=
  p_set (fun s => s <|p_rate_limited := sat_add u64_max (p_rate_limited s) 1|>).

Definition p_note_reconfigure (now : N) : step (NtpPublisher * W) () :=
  times ← p_get p_reconfigure_times; config ← p_get p_config;
  let '(times, admitted) := note_reconfigure (max_reconfigure_per_minute config) now times in
  p_set (fun s => s <|p_reconfigure_times := times|>);;
  if admitted then mret () else p_count_rate_limited;; fail_with BeRateLimited.
Definition p_note_frame (now target_fps : N) : step (NtpPublisher * W) () :=
  windows ← p_get p_windows; config ← p_get p_config;
  let '(windows, admitted) := note_frame (max_burst_fps config) target_fps now windows in
  p_set (fun s => s <|p_windows := windows|>);;
  if admitted then mret () else p_count_rate_limited;; fail_with BeRateLimited.

Definition p_try_send_hello : step (NtpPublisher * W) () :=
  authorization ← p_get p_authorization;
  p_queue (MHello (protocol_hello_new (au_link_session_id authorization)));;
  p_flush_control.

Definition definition_key (d : SessionDefinition) : NtpSessionId * N := (sd_session_id d, sd_generation d).

Definition publish_descriptor (descriptor : NanaTrackingDescriptor) (session_id : NtpSessionId)
    (generation layout_id : N) (layout : LayoutProposal) (topology : GeometryTopology) (now : N)
    : step (NtpPublisher * W) () :=
  remote_hello ← p_get p_remote_hello; pending ← p_get p_pending;
  refuse (negb remote_hello || bool_decide (is_Some pending)) InvalidState;;
  active ← p_get p_active; config ← p_get p_config;
  refuse (stale_generation (definition_key <$> active) session_id generation) InvalidState;;
  refuse ((lp_target_fps layout =? 0) || (max_target_fps config <? lp_target_fps layout)) BeRateLimited;;
  (if bool_decide (is_Some active) then p_note_reconfigure now else mret ());;
  active_layout ← try_with (layout_negotiate layout_id layout descriptor);
  p_queue (MSessionProposal (mkSessionProposal descriptor session_id generation layout_id layout topology));;
  p_set (fun s => s <|p_pending := Some (mkDefinition descriptor session_id generation active_layout topology)|>
                    <|p_pending_accepted := false|>);;
  p_flush_control.

(** [poll_control] once a message is received; [Ping] returns no event. *)
Definition p_handle (producer_now_ns : N) (message : NtpControlMessage)
    : step (NtpPublisher * W) (option PublisherEvent) :=
  match message with
  | MHello hello =>
    authorization ← p_get p_authorization;
    try_with (validate_hello hello (au_link_session_id authorization));;
    p_set (fun s => s <|p_remote_hello := true|>);; mret (Some PubHelloAccepted)
  | MLayoutAccepted accept =>
    accepted ← p_get p_pending_accepted; refuse accepted InvalidState;;
    pending ← p_get p_pending; pending ← try_with (ok_or InvalidState pending);
    refuse (negb (bool_decide (accept_confirmation accept = layout_confirmation (sd_layout pending)))
            || negb (la_parameter_count accept =? len (layout_signals (sd_layout pending)))
            || negb (la_expected_payload_len accept =? layout_frame_len (sd_layout pending))) InvalidControl;;
    p_queue (MLayoutConfirmed (accept_confirmation accept));;
    p_set (fun s => s <|p_pending_accepted := true|>);; mret (Some PubLayoutAccepted)
  | MSessionReady session_id generation layout_id =>
    pending ← p_get p_pending; pending ← try_with (ok_or InvalidState pending);
    accepted ← p_get p_pending_accepted;
    refuse (negb accepted || negb (bool_decide (sd_session_id pending = session_id))
            || negb (sd_generation pending =? generation)
            || negb (layout_layout_id (sd_layout pending) =? layout_id)) InvalidControl;;
    p_set (fun s =>
      let frame_len := N.to_nat (layout_frame_len (sd_layout pending)) in
      s <|p_pending := None|> <|p_pending_accepted := false|>
        <|p_compact_samples := replicate (length (layout_signals (sd_layout pending))) sample_unavailable|>
        <|p_compact_bytes :=
            take frame_len (p_compact_bytes s)
            ++ replicate (frame_len - length (p_compact_bytes s)) (byte_of_n 0)|>
        <|p_active := Some pending|> <|p_last_published_sequence := None|>
        <|p_playback := PlaybackPaused|>);;
    mret (Some PubSessionReady)
  | MCommand command =>
    active ← p_get p_active; refuse (negb (bool_decide (is_Some active))) InvalidState;;
    p_set (fun s => s <|p_playback := match command with
                                      | CommandStart | CommandResume => PlaybackRunning
                                      | CommandPause => PlaybackPaused
                                      | CommandStop => PlaybackStopped
                                      end|>);;
    mret (Some (PubPlaybackChanged command))
  | MPing receiver_send_ns => p_queue (MPong receiver_send_ns producer_now_ns);; mret None
  | MReceiverReport report =>
    p_set (fun s => s <|p_last_report := Some report|>);; mret (Some (PubReceiverReport report))
  | MGeometryRequest => p_set (fun s => s <|p_geometry_requested := true|>);; mret (Some PubGeometryRequested)
  | MError code _ => mret (Some (PubRemoteError code))
  | MClose code _ => mret (Some (PubRemoteClosed code))
  | MSessionProposal _ | MLayoutConfirmed _ | MPong _ _ => fail_with InvalidControl
  end.

Definition p_poll_control (producer_now_ns : N) : step (NtpPublisher * W) (option PublisherEvent) :=
  p_flush_control;;
  mode ← p_get p_transport_mode;
  (if bool_decide (mode = ModeReliableLatestOnly) then p_flush_reliable else mret ());;
  message ← p_receive_control;
  match message with
  | None => mret None
  | Some message => event ← p_handle producer_now_ns message; p_flush_control;; mret event
  end.

(** ** Sending a result *)

(** The loop over the samples and the signals: the samples written so far. *)
Fixpoint fill_samples (samples : list CompactSample) (signals : list SignalId) (r : NanaTrackingResult)
    : list CompactSample * result BindingError () :=
  match samples, signals with
  | sample :: samples, signal :: signals =>
    match rig_sample r signal with
    | None => (sample :: samples, Err InvalidState)
    | Some sample => let '(samples, filled) := fill_samples samples signals r in (sample :: samples, filled)
    end
  | _, _ => (samples, Ok ())
  end.
Definition p_fill_samples (layout : ActiveLayout) (r : NanaTrackingResult) : step (NtpPublisher * W) () :=
  samples ← p_get p_compact_samples;
  let '(samples, filled) := fill_samples samples (layout_signals layout) r in
  p_set (fun s => s <|p_compact_samples := samples|>);; try_with filled.
Definition p_encode_compact (layout : ActiveLayout) (r : NanaTrackingResult) : step (NtpPublisher * W) () :=
  samples ← p_get p_compact_samples; bytes ← p_get p_compact_bytes;
  let '(bytes, encoded) :=
    compact_encode_into layout (nr_session_id r) (nr_generation r) (nr_sequence r)
      (nr_capture_timestamp_ns r) (nr_produced_timestamp_ns r) samples bytes in
  p_set (fun s => s <|p_compact_bytes := bytes|>);; try_with encoded.

(** The wires of the core result and, when it is due, of the geometry; a
    remainder by zero panics. *)
Definition p_geometry_wire (r : NanaTrackingResult) : step (NtpPublisher * W) (option (list byte)) :=
  config ← p_get p_config; requested ← p_get p_geometry_requested;
  cadence_due ← match geometry_cadence config with
                | Some 0 => panics
                | Some cadence => mret (nr_sequence r mod cadence =? 0)
                | None => mret false
                end;
  if requested || cadence_due then
    p_set (fun s => s <|p_geometry_requested := false|>);;
    wire ← try_with (result_encode r); mret (Some wire)
  else mret None.
Definition core_wire (r : NanaTrackingResult) : result BindingError (list byte) :=
  match nr_face_landmarks r with
  | [] => result_encode r
  | _ :: _ => result_encode (nr_with_landmarks [] r)
  end.

Definition p_send_reliable (r : NanaTrackingResult) (core : list byte) (geometry : option (list byte))
    : step (NtpPublisher * W) PublishOutcome :=
  p_flush_reliable;;
  bytes ← p_get p_compact_bytes;
  compact ← p_enqueue COMPACT_RIG_FLOW (nr_generation r) (nr_sequence r) RealtimePriority.Critical bytes;
  core ← p_enqueue CORE_RESULT_FLOW (nr_generation r) (nr_sequence r) RealtimePriority.High core;
  geometry ← step_map (p_enqueue GEOMETRY_FLOW (nr_generation r) (nr_sequence r) RealtimePriority.Disposable)
               geometry;
  p_flush_reliable;;
  mret (mkPublishOutcome compact (single_frame_batch core) (single_frame_batch <$> geometry)).
Definition p_send_datagrams (r : NanaTrackingResult) (deadline : N) (core : list byte)
    (geometry : option (list byte)) : step (NtpPublisher * W) PublishOutcome :=
  max_payload ← get_state (fun s : NtpPublisher * W => max_datagram_payload (p_connection s.1) s.2);
  max_payload ← try_with (ok_or DatagramsUnsupported max_payload);
  bytes ← p_get p_compact_bytes; refuse (max_payload <? len bytes) PayloadLimit;;
  compact ← p_send_latest (mkDatagram COMPACT_RIG_FLOW (nr_generation r) (nr_sequence r) deadline
                             RealtimePriority.Critical bytes);
  core ← p_send_fragmented CORE_RESULT_FLOW (nr_generation r) (nr_sequence r) deadline
           RealtimePriority.High core;
  geometry ← step_map (p_send_fragmented GEOMETRY_FLOW (nr_generation r) (nr_sequence r) deadline
                         RealtimePriority.Disposable) geometry;
  mret (mkPublishOutcome compact core geometry).

(** [Instant + Duration]; the configuration does not bound the deadline. *)
Definition p_deadline (now : N) : step (NtpPublisher * W) N :=
  config ← p_get p_config; or_panic (instant_add now (result_deadline config)).

(** Up to the deadline: the result is checked, sampled and encoded. *)
Definition p_prepare (r : NanaTrackingResult) (now : N) : step (NtpPublisher * W) () :=
  playback ← p_get p_playback; refuse (negb (bool_decide (playback = PlaybackRunning))) InvalidState;;
  active ← p_get p_active; active ← try_with (ok_or InvalidState active);
  p_note_frame now (lp_target_fps (layout_proposal (sd_layout active)));;
  refuse (negb (bool_decide (nr_session_id r = sd_session_id active))
          || negb (nr_generation r =? sd_generation active)) InvalidState;;
  last ← p_get p_last_published_sequence;
  refuse match last with Some sequence => nr_sequence r <=? sequence | None => false end ReplayOrDuplicate;;
  try_with (validate_result (sd_descriptor active) r);;
  p_fill_samples (sd_layout active) r;;
  p_encode_compact (sd_layout active) r.
(** After it: the wires go to the transport. *)
Definition p_send_prepared (r : NanaTrackingResult) (deadline : N) : step (NtpPublisher * W) PublishOutcome :=
  core ← try_with (core_wire r);
  geometry ← p_geometry_wire r;
  mode ← p_get p_transport_mode;
  outcome ← (if bool_decide (mode = ModeReliableLatestOnly) then p_send_reliable r core geometry
             else p_send_datagrams r deadline core geometry);
  p_set (fun s => s <|p_last_published_sequence := Some (nr_sequence r)|>);;
  mret outcome.

(** [now1] is the instant of the rate limit, [now2] that of the deadline. *)
Definition p_try_send_latest (r : NanaTrackingResult) (now1 now2 : N)
    : step (NtpPublisher * W) PublishOutcome :=
  p_prepare r now1;; deadline ← p_deadline now2; p_send_prepared r deadline.

Definition p_reset_for_reconnect (connection : C) (authorization : NtpAuthorization) (now1 now2 : N)
    : step (NtpPublisher * W) () :=
  try_with (validate_connection_authorization connection authorization Publisher);;
  former ← p_get p_authorization;
  refuse (bool_decide (au_link_session_id authorization = au_link_session_id former)) SessionBindingMismatch;;
  mode ← get_state (fun s : NtpPublisher * W => transport_mode_of connection s.2);
  p_set (fun s =>
    mkPublisher connection authorization mode (p_config s) false None false None PlaybackStopped []
      (p_compact_samples s) (p_compact_bytes s) (latest_clear (p_reliable s)) [] (mkWindows now1 0 now2 0)
      0 None false None).
End publisher.
Arguments NtpPublisher {_} _.
