(* ===== verification/NtpSubscriber.v ===== *)
(** * The subscriber of an NTP session

    Models [Subscriber] of [ntp-mutsuki-link/src/lib.rs].  The callback of
    [poll_realtime] is called at most once: the compact frame it is called with
    is part of what a poll returns.  Each call of [Instant::now] is an argument,
    in nanoseconds. *)

From S2P Require Export NtpSession.
Local Open Scope N_scope.

Section subscriber.
Context `{NanaProtocol} {C W : Type} `{Connection C W} `{RealtimeConnection C W}.

Record SubscriberSession := mkSubscriberSession {
  ss_descriptor : NanaTrackingDescriptor;
  ss_session_id : NtpSessionId;
  ss_generation : N;
  ss_layout : ActiveLayout;
  ss_topology : GeometryTopology;
  ss_compact_guard : CompactStreamGuard;
  ss_result_guard : ResultStreamGuard;
}.

Record GeometryCache := mkGeometryCache {
  gc_session_id : NtpSessionId;
  gc_generation : N;
  gc_sequence : N;
  gc_landmarks : list FaceLandmark;
}.

Record NtpSubscriber := mkSubscriber {
  s_connection : C;
  s_authorization : NtpAuthorization;
  s_transport_mode : TrackingTransportMode;
  s_config : BindingConfig;
  s_remote_hello : bool;
  s_negotiator : LayoutNegotiator;
  s_pending : option SessionProposal;
  s_active : option SubscriberSession;
  s_outbox : list (list byte);
  s_core_reassembly : Reassembler;
  s_geometry_reassembly : Reassembler;
  s_reliable : ReliableLatestReceiver;
  s_geometry_cache : option GeometryCache;
  s_report : ReceiverReport;
  s_previous_age_ns : option N;
  s_clock : ClockSynchronizer;
  s_reconfigure_times : list N;
  s_windows : FrameWindows;
  s_rate_limited : N;
  s_protocol_violations : N;
  s_malformed_frames : N;
  s_fused : bool;
}.

Definition subscriber_new (connection : C) (authorization : NtpAuthorization) (config : BindingConfig)
    (now1 now2 : N) (w : W) : result BindingError NtpSubscriber :=
  config ← binding_config_validate config;
  _ ← validate_connection_authorization connection authorization Subscriber;
  let mode := transport_mode_of connection w in
  reject negb (reliable (metadata connection)) with InvalidState;
  negotiator ← negotiator_new;
  Ok (mkSubscriber connection authorization mode config false negotiator None None [] reassembler_new
        reassembler_new default_latest_receiver None default_report None default_clock []
        (mkWindows now1 0 now2 0) 0 0 0 false).

Definition s_descriptor (s : NtpSubscriber) : option NanaTrackingDescriptor := ss_descriptor <$> s_active s.
Definition s_topology (s : NtpSubscriber) : option GeometryTopology := ss_topology <$> s_active s.
(** The outer [None] is the panic. *)
Definition s_bound_session (s : NtpSubscriber) : option (option BoundNtpSession) :=
  match s_active s with
  | None => Some None
  | Some a =>
    b ← bound_session (s_authorization s) (ss_session_id a) (ss_generation a) (ss_layout a)
          (s_transport_mode s);
    Some (Some b)
  end.
Definition s_telemetry (s : NtpSubscriber) : TrackingTelemetry :=
  mkTelemetry 0 (lr_replacements (s_reliable s)) (s_rate_limited s) (s_malformed_frames s) (s_fused s)
    (stale_discarded (s_reliable s)).
Definition producer_clock (receiver_now_ns : N) (s : NtpSubscriber) : option ProducerClockEstimate :=
  clock_estimate receiver_now_ns (s_clock s).

(** ** Control *)

Definition s_get {A} (f : NtpSubscriber -> A) : step (NtpSubscriber * W) A := get_state (fun s => f s.1).
Definition s_set (f : NtpSubscriber -> NtpSubscriber) : step (NtpSubscriber * W) () :=
  update (fun s => (f s.1, s.2)).

Definition s_queue (message : NtpControlMessage) : step (NtpSubscriber * W) () :=
  outbox ← s_get s_outbox; config ← s_get s_config;
  outbox ← try_with (queue_control outbox message config);
  s_set (fun s => s <|s_outbox := outbox|>).
Definition s_flush_control : step (NtpSubscriber * W) () := fun '(s, w) =>
  let '(w, outbox, r) := flush_control (s_connection s) (s_outbox s) w in
  Some (s <|s_outbox := outbox|>, w, r).
Definition s_receive_control : step (NtpSubscriber * W) (option NtpControlMessage) := fun '(s, w) =>
  let '(w, r) := receive_control (s_connection s) (s_config s) w in Some (s, w, r).

Definition s_send (message : NtpControlMessage) : step (NtpSubscriber * W) () :=
  s_queue message;; s_flush_control.
Definition s_try_send_hello : step (NtpSubscriber * W) () :=
  authorization ← s_get s_authorization;
  s_send (MHello (protocol_hello_new (au_link_session_id authorization))).
Definition s_require_active : step (NtpSubscriber * W) () :=
  active ← s_get s_active; refuse (negb (bool_decide (is_Some active))) InvalidState.
Definition s_try_send_command (command : SessionCommand) : step (NtpSubscriber * W) () :=
  s_require_active;; s_send (MCommand command).
Definition s_try_request_geometry : step (NtpSubscriber * W) () :=
  s_require_active;; s_send MGeometryRequest.
Definition s_try_send_ping (receiver_now_ns : N) : step (NtpSubscriber * W) () :=
  s_set (fun s => s <|s_clock := note_ping receiver_now_ns (s_clock s)|>);;
  s_send (MPing receiver_now_ns).
Definition s_try_send_receiver_report : step (NtpSubscriber * W) () :=
  report ← s_get s_report; s_send (MReceiverReport report).

Definition s_count_rate_limited : step (NtpSubscriber * W) () :=
  s_set (fun s => s <|s_rate_limited := sat_add u64_max (s_rate_limited s) 1|>).
(** [self.report.dropped.saturating_add(n)]. *)
Definition s_count_dropped (n : N) : step (NtpSubscriber * W) () :=
  s_set (fun s => s <|s_report ::= fun r => r <|rr_dropped := sat_add u64_max (rr_dropped r) n|>|>).

Definition s_note_reconfigure (now : N) : step (NtpSubscriber * W) () :=
  times ← s_get s_reconfigure_times; config ← s_get s_config;
  let '(times, admitted) := note_reconfigure (max_reconfigure_per_minute config) now times in
  s_set (fun s => s <|s_reconfigure_times := times|>);;
  if admitted then mret () else s_count_rate_limited;; fail_with BeRateLimited.
Definition note_received_frame (now target_fps : N) : step (NtpSubscriber * W) () :=
  windows ← s_get s_windows; config ← s_get s_config;
  let '(windows, admitted) := note_frame (max_burst_fps config) target_fps now windows in
  s_set (fun s => s <|s_windows := windows|>);;
  if admitted then mret () else s_count_rate_limited;; s_count_dropped 1;; fail_with BeRateLimited.

Definition session_key (d : SubscriberSession) : NtpSessionId * N := (ss_session_id d, ss_generation d).
Definition s_receive_proposal (p : SessionProposal) (receiver_now_ns now : N)
    : step (NtpSubscriber * W) SubscriberEvent :=
  remote_hello ← s_get s_remote_hello; pending ← s_get s_pending;
  refuse (negb remote_hello || bool_decide (is_Some pending)) InvalidState;;
  active ← s_get s_active;
  (if bool_decide (is_Some active) then s_note_reconfigure now else mret ());;
  refuse (stale_generation (session_key <$> active) (sp_session_id p) (sp_generation p)) InvalidState;;
  negotiator ← s_get s_negotiator;
  let '(negotiator, accept) :=
    negotiator_receive_proposal (sp_layout_id p) (sp_layout p) (sp_descriptor p) receiver_now_ns negotiator in
  s_set (fun s => s <|s_negotiator := negotiator|>);;
  accept ← try_with accept;
  s_queue (MLayoutAccepted accept);;
  s_set (fun s => s <|s_pending := Some p|>);; mret SubProposalAccepted.

Definition s_receive_confirm (confirm : LayoutConfirm) : step (NtpSubscriber * W) SubscriberEvent :=
  pending ← s_get s_pending; s_set (fun s => s <|s_pending := None|>);;
  p ← try_with (ok_or InvalidState pending);
  negotiator ← s_get s_negotiator;
  let '(negotiator, layout) := negotiator_confirm confirm negotiator in
  s_set (fun s => s <|s_negotiator := negotiator|>);;
  layout ← try_with layout;
  config ← s_get s_config;
  compact_guard ← try_with (guard_confirmed (sp_session_id p) (sp_generation p) layout confirm
                              (compact_policy config));
  let result_guard := result_guard_new (sp_session_id p) (sp_generation p) in
  s_set (fun s =>
    s <|s_active := Some (mkSubscriberSession (sp_descriptor p) (sp_session_id p) (sp_generation p) layout
                            (sp_topology p) compact_guard result_guard)|>
      <|s_core_reassembly := reassembler_clear (s_core_reassembly s)|>
      <|s_geometry_reassembly := reassembler_clear (s_geometry_reassembly s)|>
      <|s_geometry_cache := None|> <|s_previous_age_ns := None|>);;
  s_queue (MSessionReady (sp_session_id p) (sp_generation p) (sp_layout_id p));;
  mret SubSessionReady.

(** [poll_control] once a message is received; [now] is the instant of
    [note_reconfigure]. *)
Definition s_handle (receiver_now_ns now : N) (message : NtpControlMessage)
    : step (NtpSubscriber * W) SubscriberEvent :=
  match message with
  | MHello hello =>
    authorization ← s_get s_authorization;
    try_with (validate_hello hello (au_link_session_id authorization));;
    s_set (fun s => s <|s_remote_hello := true|>);; mret SubHelloAccepted
  | MSessionProposal p => s_receive_proposal p receiver_now_ns now
  | MLayoutConfirmed confirm => s_receive_confirm confirm
  | MPong receiver_send_ns producer_send_ns =>
    clock ← s_get s_clock;
    clock ← try_with (note_pong receiver_send_ns producer_send_ns receiver_now_ns clock);
    s_set (fun s => s <|s_clock := clock|>
                      <|s_report ::= fun r =>
                          r <|rr_clock_uncertainty_ns := default 0 (clock_uncertainty clock)|>|>);;
    mret SubClockSynchronized
  | MError code _ => mret (SubRemoteError code)
  | MClose code _ => mret (SubRemoteClosed code)
  | MLayoutAccepted _ | MSessionReady _ _ _ | MCommand _ | MReceiverReport _ | MPing _ | MGeometryRequest =>
    fail_with InvalidControl
  end.

Definition s_poll_control (receiver_now_ns now : N) : step (NtpSubscriber * W) (option SubscriberEvent) :=
  s_flush_control;;
  message ← s_receive_control;
  match message with
  | None => mret None
  | Some message => event ← s_handle receiver_now_ns now message; s_flush_control;; mret (Some event)
  end.

(** ** Real-time frames *)

(** What [poll_realtime] returns, with the frame its callback is given. *)
Record Polled := mkPolled {
  pl_outcome : ReceiveOutcome;
  pl_result : option NanaTrackingResult;
  pl_compact : option CompactFrame;
}.
Definition progress : Polled := mkPolled ReceiveProgress None None.

(** [frames] is the clock read as frames are decoded. *)
Definition s_receive_message (frames : nat -> N)
    : step (NtpSubscriber * W) (option ReceivedRealtimeDatagram) := fun '(s, w) =>
  if bool_decide (s_transport_mode s = ModeDatagram) then
    let '(w, r) := try_receive_realtime (s_connection s) w in
    Some (s, w, match r with
                | Ok message => Ok message
                | Err e =>
                  if bool_decide (te_kind e = TransportErrorKind.WouldBlock) then Ok None
                  else Err (BeTransport e)
                end)
  else
    let '(w, reliable, r) :=
      latest_poll (s_connection s) (max_tracking_frame_bytes (s_config s))
        (max_receive_frames_per_poll (s_config s)) frames (s_reliable s) w in
    Some (s <|s_reliable := reliable|>, w, r).

Definition s_active_session : step (NtpSubscriber * W) SubscriberSession :=
  active ← s_get s_active; try_with (ok_or InvalidState active).

Definition note_age (age_ns : N) : step (NtpSubscriber * W) () :=
  s_set (fun s =>
    (match s_previous_age_ns s with
     | Some previous =>
       let sample := abs_diff age_ns previous in
       s <|s_report ::= fun r =>
             r <|rr_jitter_ns := if rr_jitter_ns r =? 0 then sample
                                 else sat_add u64_max (sat_mul u64_max (rr_jitter_ns r) 7) sample / 8|>|>
     | None => s
     end) <|s_previous_age_ns := Some age_ns|>
          <|s_report ::= fun r => r <|rr_result_age_ns := age_ns|>|>).

Definition note_reassembly_replacement (o : ReassemblyOutcome) : step (NtpSubscriber * W) () :=
  let replaced :=
    match o with
    | RePending replaced_incomplete | ReComplete _ _ _ replaced_incomplete => replaced_incomplete
    | IgnoredOld => true
    end in
  if replaced then s_count_dropped 1 else mret ().

Definition s_push_core (m : ReceivedRealtimeDatagram) : step (NtpSubscriber * W) ReassemblyOutcome :=
  fun '(s, w) =>
  '(reassembly, r) ← reassembler_push (rx_generation m) (rx_sequence m) (rx_payload m) (s_config s)
                       (s_core_reassembly s);
  Some (s <|s_core_reassembly := reassembly|>, w, r).
Definition s_push_geometry (m : ReceivedRealtimeDatagram) : step (NtpSubscriber * W) ReassemblyOutcome :=
  fun '(s, w) =>
  '(reassembly, r) ← reassembler_push (rx_generation m) (rx_sequence m) (rx_payload m) (s_config s)
                       (s_geometry_reassembly s);
  Some (s <|s_geometry_reassembly := reassembly|>, w, r).

(** The generation, sequence and bytes of a complete result, if the message
    completes one. *)
Definition s_complete (push : ReceivedRealtimeDatagram -> step (NtpSubscriber * W) ReassemblyOutcome)
    (m : ReceivedRealtimeDatagram) : step (NtpSubscriber * W) (option (N * N * list byte)) :=
  mode ← s_get s_transport_mode;
  if bool_decide (mode = ModeReliableLatestOnly) then
    mret (Some (rx_generation m, rx_sequence m, rx_payload m))
  else
    outcome ← push m; note_reassembly_replacement outcome;;
    mret match outcome with
         | ReComplete generation sequence payload _ => Some (generation, sequence, payload)
         | RePending _ | IgnoredOld => None
         end.

Definition s_poll_compact (clock : ProducerClockEstimate) (m : ReceivedRealtimeDatagram)
    : step (NtpSubscriber * W) Polled :=
  active ← s_active_session;
  (if negb (len (rx_payload m) =? layout_frame_len (ss_layout active)) then
     s_count_dropped 1;; fail_with LayoutMismatch
   else mret ());;
  let '(guard, frame) := guard_accept (rx_payload m) clock (ss_compact_guard active) in
  s_set (fun s => s <|s_active := Some (active <|ss_compact_guard := guard|>)|>);;
  frame ← try_with frame;
  refuse (negb (cf_sequence frame =? rx_sequence m) || negb (cf_generation frame =? rx_generation m))
    InvalidFragment;;
  note_age (clock_now_ns clock - cf_capture_timestamp_ns frame);;
  mret (mkPolled ReceiveProgress None (Some frame)).

(** The landmarks of the cached geometry, when it is no newer. *)
Definition with_cached_geometry (cache : option GeometryCache) (r : NanaTrackingResult)
    : NanaTrackingResult :=
  match cache with
  | Some cache =>
    if bool_decide (gc_session_id cache = nr_session_id r) && (gc_generation cache =? nr_generation r)
       && (gc_sequence cache <=? nr_sequence r)
    then nr_with_landmarks (gc_landmarks cache) r else r
  | None => r
  end.

Definition s_poll_core (clock : ProducerClockEstimate) (m : ReceivedRealtimeDatagram)
    : step (NtpSubscriber * W) Polled :=
  complete ← s_complete s_push_core m;
  match complete with
  | None => mret progress
  | Some (generation, sequence, payload) =>
    decoded ← try_with (result_decode payload);
    refuse (negb (nr_generation decoded =? generation) || negb (nr_sequence decoded =? sequence))
      InvalidFragment;;
    cache ← s_get s_geometry_cache; config ← s_get s_config;
    let r := with_cached_geometry cache decoded in
    let age := clock_now_ns clock - nr_capture_timestamp_ns r in
    if sat_add u64_max (max_result_age_ns config) (clock_uncertainty_ns clock) <? age then
      s_set (fun s => s <|s_report ::= fun r => r <|rr_stale := sat_add u64_max (rr_stale r) 1|>|>);;
      note_age age;; mret progress
    else
      active ← s_active_session;
      try_with (validate_result (ss_descriptor active) r);;
      let '(guard, accepted) := result_guard_accept r (ss_result_guard active) in
      s_set (fun s => s <|s_active := Some (active <|ss_result_guard := guard|>)|>);;
      missing_sequences ← try_with accepted;
      s_set (fun s => s <|s_report ::= fun r => r <|rr_received := sat_add u64_max (rr_received r) 1|>|>);;
      s_count_dropped missing_sequences;;
      note_age age;; mret (mkPolled ReceiveProgress (Some r) None)
  end.

Definition s_poll_geometry (m : ReceivedRealtimeDatagram) : step (NtpSubscriber * W) Polled :=
  complete ← s_complete s_push_geometry m;
  match complete with
  | None => mret progress
  | Some (generation, sequence, payload) =>
    r ← try_with (result_decode payload);
    active ← s_active_session;
    refuse (negb (bool_decide (nr_session_id r = ss_session_id active))
            || negb (nr_generation r =? generation) || negb (nr_sequence r =? sequence)) InvalidFragment;;
    try_with (validate_result (ss_descriptor active) r);;
    s_set (fun s =>
      s <|s_geometry_cache := Some (mkGeometryCache (nr_session_id r) generation sequence
                                      (nr_face_landmarks r))|>);;
    mret progress
  end.

Definition poll_realtime_inner (clock : ProducerClockEstimate) (frames : nat -> N) (now : N)
    : step (NtpSubscriber * W) Polled :=
  message ← s_receive_message frames;
  match message with
  | None => mret (mkPolled ReceiveIdle None None)
  | Some m =>
    (if rx_flow m =? COMPACT_RIG_FLOW then
       active ← s_active_session; note_received_frame now (lp_target_fps (layout_proposal (ss_layout active)))
     else mret ());;
    config ← s_get s_config;
    (if max_tracking_frame_bytes config <? len (rx_payload m) then
       s_count_dropped 1;; fail_with PayloadLimit
     else mret ());;
    active ← s_active_session;
    if negb (rx_generation m =? ss_generation active) then s_count_dropped 1;; mret progress
    else if rx_flow m =? COMPACT_RIG_FLOW then s_poll_compact clock m
    else if rx_flow m =? CORE_RESULT_FLOW then s_poll_core clock m
    else if rx_flow m =? GEOMETRY_FLOW then s_poll_geometry m
    else mret progress
  end.

Definition note_violation (s : NtpSubscriber) : NtpSubscriber :=
  let s := s <|s_protocol_violations := sat_add u16_max (s_protocol_violations s) 1|>
             <|s_malformed_frames := sat_add u64_max (s_malformed_frames s) 1|> in
  if max_protocol_violations (s_config s) <=? s_protocol_violations s then s <|s_fused := true|> else s.
Definition s_poll_realtime (clock : ProducerClockEstimate) (frames : nat -> N) (now : N)
    : step (NtpSubscriber * W) Polled := fun s =>
  if s_fused s.1 then Some (s, Err ChannelFused)
  else
    '(s, r) ← poll_realtime_inner clock frames now s;
    Some (match r with
          | Err e => if is_protocol_violation e then (note_violation s.1, s.2) else s
          | Ok _ => s
          end, r).

Definition s_reset_for_reconnect (connection : C) (authorization : NtpAuthorization) (now1 now2 : N)
    : step (NtpSubscriber * W) () :=
  try_with (validate_connection_authorization connection authorization Subscriber);;
  former ← s_get s_authorization;
  refuse (bool_decide (au_link_session_id authorization = au_link_session_id former)) SessionBindingMismatch;;
  mode ← get_state (fun s : NtpSubscriber * W => transport_mode_of connection s.2);
  s_set (fun s => s <|s_connection := connection|> <|s_authorization := authorization|>
                    <|s_transport_mode := mode|> <|s_remote_hello := false|>);;
  negotiator ← try_with negotiator_new;
  s_set (fun s =>
    mkSubscriber (s_connection s) (s_authorization s) (s_transport_mode s) (s_config s) (s_remote_hello s)
      negotiator None None [] (reassembler_clear (s_core_reassembly s))
      (reassembler_clear (s_geometry_reassembly s)) (latest_receiver_clear (s_reliable s)) None
      default_report None default_clock [] (mkWindows now1 0 now2 0) 0 0 0 false).
End subscriber.
Arguments NtpSubscriber {_} _.
