(* ===== verification/NtpSessionFacts.v ===== *)
(** * Reasoning about steps, the control queue, the rates and the clock *)

From S2P Require Export NtpSession NtpControlFacts.
Local Open Scope N_scope.

(** ** The control queue *)

Section control_queue.
Context `{NanaProtocol}.

(** The queue keeps within the configured number and size. *)
Definition outbox_ok (config : BindingConfig) (outbox : list (list byte)) : Prop :=
  len outbox <= max_pending_control config
  /\ Forall (fun m => len m <= max_control_bytes config) outbox.

Lemma queue_control_ok outbox m config outbox' :
  queue_control outbox m config = Ok outbox' ->
  exists wire, ntp_encode m = Ok wire /\ outbox' = outbox ++ [wire] /\ len wire <= max_control_bytes config.
Proof.
  unfold queue_control. intros H1. inv_ok. guards. eauto.
Qed.
Lemma queue_control_outbox outbox m config outbox' :
  outbox_ok config outbox -> queue_control outbox m config = Ok outbox' -> outbox_ok config outbox'.
Proof.
  intros [Hl Hf] Hq. pose proof Hq as (wire & _ & -> & Hw)%queue_control_ok.
  unfold queue_control in Hq. inv_ok. guards.
  split; [rewrite length_app; cbn; lia|]. apply Forall_app. split; [done|by constructor].
Qed.

Section flush.
Context {C W : Type} `{Connection C W}.

(** A flush sends the messages in order, up to where it stops. *)
Lemma flush_control_suffix (c : C) outbox (w : W) w' rest r :
  flush_control c outbox w = (w', rest, r) -> exists sent, outbox = sent ++ rest.
Proof.
  revert w. induction outbox as [|m outbox IH]; intros w; cbn.
  - intros [= <- <- <-]. by exists [].
  - destruct (open_control_stream c ntp_protocol) as [stream|e]; [|intros [= <- <- <-]; by exists []].
    destruct (control_try_send stream m w) as [w1 [[]|e]].
    + intros (sent & ->)%IH. by exists (m :: sent).
    + case_bool_decide; intros [= <- <- <-]; by exists [].
Qed.
Lemma flush_control_outbox config (c : C) outbox (w : W) w' rest r :
  outbox_ok config outbox -> flush_control c outbox w = (w', rest, r) -> outbox_ok config rest.
Proof.
  intros [Hl Hf] (sent & ->)%flush_control_suffix. rewrite length_app in Hl.
  apply Forall_app in Hf as [_ Hf]. split; [lia|done].
Qed.
End flush.
End control_queue.

(** ** Rates *)

Lemma drop_until_suffix cutoff times : exists old, times = old ++ drop_until cutoff times
  /\ Forall (fun t => t <= cutoff) old.
Proof.
  induction times as [|t times (old & IH & Hold)]; cbn; [by exists []|].
  destruct (N.leb_spec t cutoff); [|by exists []]. exists (t :: old). cbn. split; [congruence|by constructor].
Qed.
Lemma note_reconfigure_length max now times times' admitted :
  len times <= max -> note_reconfigure max now times = (times', admitted) -> len times' <= max.
Proof.
  intros Hl. unfold note_reconfigure.
  destruct (drop_until_suffix (reconfigure_cutoff now) times) as (old & Ht & _).
  apply (f_equal length) in Ht. rewrite length_app in Ht.
  destruct (N.leb_spec max (len (drop_until (reconfigure_cutoff now) times))); intros [= <- <-].
  - lia.
  - rewrite length_app. cbn. lia.
Qed.

(** The instants admitted of a sequence of requests. *)
Fixpoint reconfigure_run (max : N) (times requests : list N) : list N :=
  match requests with
  | [] => []
  | now :: requests =>
    let '(times, admitted) := note_reconfigure max now times in
    (if admitted then [now] else []) ++ reconfigure_run max times requests
  end.

Definition MINUTE : N := 60 * 1000000000.

(** [max] places apart is a minute apart. *)
Definition minute_apart (max : N) (h : list N) : Prop := forall i t t',
  h !! i = Some t -> h !! (i + N.to_nat max)%nat = Some t' -> t + MINUTE <= t'.

Lemma minute_apart_snoc max h past now :
  minute_apart max h -> length h = (length past + (length h - length past))%nat ->
  take (length past) h = past -> Forall (fun t => t + MINUTE <= now) past ->
  len h < len past + max -> minute_apart max (h ++ [now]).
Proof.
  intros Hh Hl Hp Hpast Hlen i t t' Hi Hj.
  destruct (decide (i + N.to_nat max < length h)%nat).
  - rewrite lookup_app_l in Hi, Hj by lia. by eapply Hh.
  - pose proof (lookup_lt_Some _ _ _ Hj) as Hb. rewrite length_app in Hb. cbn in Hb.
    rewrite lookup_app_r in Hj by lia. replace (_ - _)%nat with 0%nat in Hj by lia. injection Hj as <-.
    rewrite Forall_lookup in Hpast. apply (Hpast i). rewrite <- Hp, lookup_take_lt by lia.
    destruct (decide (i < length h)%nat); [by rewrite lookup_app_l in Hi by lia|]. lia.
Qed.

(** Beyond the first minute of the clock, an admitted reconfiguration is at
    least a minute later than the one [max] places before it. *)
Lemma reconfigure_limited max requests times old :
  0 < max -> StronglySorted N.le requests -> Forall (fun now => MINUTE <= now) requests ->
  len times <= max -> minute_apart max (old ++ times) ->
  Forall (fun t => Forall (fun now => t + MINUTE <= now) requests) old ->
  minute_apart max (old ++ times ++ reconfigure_run max times requests).
Proof.
  intros Hmax Hs. revert times old.
  induction Hs as [|now requests Hs IH Hle]; intros times old Hr Hlen Ha Hold.
  { cbn. by rewrite app_nil_r. }
  inversion_clear Hr as [|?? Hnow Hr']. cbn [reconfigure_run].
  destruct (note_reconfigure max now times) as [times' admitted] eqn:Hn.
  pose proof (note_reconfigure_length _ _ _ _ _ Hlen Hn) as Hlen'. unfold note_reconfigure in Hn.
  destruct (drop_until_suffix (reconfigure_cutoff now) times) as (gone & Ht & Hgone).
  set (kept := drop_until (reconfigure_cutoff now) times) in *.
  assert (Forall (fun t => Forall (fun n => t + MINUTE <= n) (now :: requests)) (old ++ gone)) as Hpast.
  { apply Forall_app. split; [done|]. eapply Forall_impl; [exact Hgone|]. intros t Htc. cbv beta in *.
    unfold reconfigure_cutoff in Htc. destruct (N.ltb_spec now (60 * 1000000000)); [unfold MINUTE in *; lia|].
    assert (t + MINUTE <= now) by (unfold MINUTE; lia). constructor; [done|].
    eapply Forall_impl; [exact Hle|]. intros; cbv beta in *; lia. }
  assert (Forall (fun t => Forall (fun n => t + MINUTE <= n) requests) (old ++ gone)) as Hpast'.
  { eapply Forall_impl; [exact Hpast|]. by intros t [_ ?]%Forall_cons. }
  rewrite Ht, <- app_assoc, app_assoc in *. destruct (N.leb_spec max (len kept)); injection Hn as <- <-.
  - cbn [app]. by apply IH.
  - replace ((old ++ gone) ++ kept ++ [now] ++ _)
      with ((old ++ gone) ++ (kept ++ [now]) ++ reconfigure_run max (kept ++ [now]) requests)
      by by rewrite <- !app_assoc.
    apply IH; [done..| |done]. rewrite app_assoc. apply (minute_apart_snoc _ _ (old ++ gone)).
    + done.
    + rewrite length_app. lia.
    + by rewrite take_app_length.
    + eapply Forall_impl; [exact Hpast|]. by intros t [? _]%Forall_cons.
    + rewrite (length_app _ kept). lia.
Qed.

(** Within it nothing is limited. *)
Lemma reconfigure_unlimited_early max now times :
  0 < max -> now < MINUTE -> Forall (fun t => t <= now) times ->
  note_reconfigure max now times = ([now], true).
Proof.
  intros Hmax Hnow Ht. assert (drop_until now times = []) as Hd.
  { induction Ht as [|t times Hle _ IH]; cbn; [done|]. by tests. }
  unfold note_reconfigure, reconfigure_cutoff, MINUTE in *. rewrite (proj2 (N.ltb_lt _ _) Hnow), Hd. cbn. by tests.
Qed.


(** ** The clock of the producer *)

(** C39: The estimate of the producer's clock is sound.  When a ping sent at
    [r0] was answered at the producer's [p], and the answer arrives at [r1], the
    answer is accepted, and the estimate made at any [t] differs from the
    producer's clock, which runs [delta] ahead, by at most the uncertainty that
    is reported, or by one nanosecond more when the round trip is odd; an answer
    to another ping, or one from before the ping, is refused and changes nothing. *)
Theorem clock_estimate_sound `{NanaClockLaws} (delta : Z) r0 p r1 t k :
  pending_ping k = Some r0 -> r0 <= r1 ->
  (Z.of_N r0 + delta <= Z.of_N p <= Z.of_N r1 + delta)%Z ->
  p + (r1 - r0) <= u64_max -> (0 <= Z.of_N t + delta <= Z.of_N u64_max)%Z ->
  (exists k' e, note_pong r0 p r1 k = Ok k' /\ clock_estimate t k' = Some e
    /\ (Z.abs (Z.of_N (clock_now_ns e) - (Z.of_N t + delta))
          <= Z.of_N (clock_uncertainty_ns e + (r1 - r0) mod 2))%Z
    /\ pending_ping k' = None)
  /\ forall r0' p' r1', r0' <> r0 \/ r1' < r0' -> note_pong r0' p' r1' k = Err InvalidControl.
Proof.
  intros Hk Hr Hp Hmax Ht. split.
  - unfold note_pong. rewrite Hk, bool_decide_eq_true_2 by done. rewrite (proj2 (N.ltb_ge _ _) Hr). cbn.
    eexists _, _. split; [done|]. split; [done|]. split; [|done].
    rewrite clock_now_synchronized, clock_uncertainty_synchronized.
    pose proof (N.div_mod (r1 - r0) 2 ltac:(done)). pose proof (N.mod_lt (r1 - r0) 2 ltac:(done)).
    unfold sat_add. set (q := (r1 - r0) / 2) in *. set (m := (r1 - r0) mod 2) in *. clearbody q m.
    rewrite N.min_r by lia. destruct (Z.leb_spec (Z.of_N t + (Z.of_N (p + q) - Z.of_N r1)) 0); [lia|].
    rewrite N2Z.inj_min, Z2N.id by lia. lia.
  - intros r0' p' r1' Hne. unfold note_pong. rewrite Hk.
    destruct (decide (r0' = r0)) as [->|Hd].
    + destruct Hne as [?|?]; [done|]. by rewrite (proj2 (N.ltb_lt _ _)), orb_true_r by done.
    + by rewrite bool_decide_eq_false_2 by (by intros [= ->]).
Qed.
