(* ===== verification/NtpPublisherFacts.v ===== *)
(** * The publisher never panics, keeps its invariant and publishes soundly *)

From S2P Require Export NtpPublisher NtpSessionFacts ReliableFacts.
Local Open Scope N_scope.

Lemma latest_flush_ends `{NanaTracking} {C W} `{Connection C W} (c : C) (P : W -> Prop) fuel s w :
  (forall m w, P w -> P (try_send c m w).1) -> P w -> latest_pending s < N.of_nat fuel ->
  exists w' s' r, latest_flush fuel c s w = Some (w', s', r) /\ P w'.
Proof.
  intros HP. unfold latest_pending. revert s w. induction fuel as [|fuel IH]; intros s w Hw Hf; [lia|].
  cbn [latest_flush]. destruct (min_by frame_lt (waiting_frames s)) as [[flow f]|] eqn:Hmin; [|eauto].
  specialize (HP (pf_wire f) w Hw). destruct (try_send c (pf_wire f) w) as [w' [u|e]]; [|case_bool_decide; eauto].
  apply IH; [done|]. apply min_by_elem in Hmin. rewrite (waiting_mark_sent _ _ _ Hmin) in Hf. cbn in Hf. lia.
Qed.

Section primitives.
Context `{NanaProtocol} {C W : Type} `{Connection C W} `{RealtimeConnection C W}.
Implicit Types (s : NtpPublisher C) (w : W).

(** ** What the primitive steps do *)

Lemma wp_p_get {A} (f : NtpPublisher C -> A) s w (Q : _ -> _ -> Prop) :
  Q (s, w) (Ok (f s)) -> step_wp (p_get (W := W) f) (s, w) Q.
Proof. done. Qed.
Lemma wp_p_set f s w (Q : _ -> _ -> Prop) : Q (f s, w) (Ok ()) -> step_wp (p_set (W := W) f) (s, w) Q.
Proof. done. Qed.
Lemma wp_p_queue m s w (Q : _ -> _ -> Prop) :
  (forall e, Q (s, w) (Err e)) ->
  (forall wire, ntp_encode m = Ok wire -> queue_control (p_outbox s) m (p_config s) = Ok (p_outbox s ++ [wire]) ->
     Q (s <|p_outbox := p_outbox s ++ [wire]|>, w) (Ok ())) ->
  step_wp (p_queue m) (s, w) Q.
Proof.
  intros He Hok. unfold p_queue. apply wp_bind, wp_p_get, wp_bind, wp_p_get, wp_bind, wp_try.
  destruct (queue_control _ _ _) as [o|e] eqn:Hq; [|apply He]. apply wp_p_set.
  pose proof Hq as (wire & Hw & -> & _)%queue_control_ok. by apply Hok.
Qed.
Lemma wp_p_flush_control s w (Q : _ -> _ -> Prop) :
  (forall w' rest r, flush_control (p_connection s) (p_outbox s) w = (w', rest, r) ->
     Q (s <|p_outbox := rest|>, w') r) ->
  step_wp p_flush_control (s, w) Q.
Proof.
  intros HQ. unfold p_flush_control, step_wp. destruct (flush_control _ _ _) as [[w' rest] r]. by apply HQ.
Qed.
Lemma wp_p_receive_control s w (Q : _ -> _ -> Prop) :
  (forall w' r, receive_control (p_connection s) (p_config s) w = (w', r) -> Q (s, w') r) ->
  step_wp p_receive_control (s, w) Q.
Proof. intros HQ. unfold p_receive_control, step_wp. destruct (receive_control _ _ _). by apply HQ. Qed.
Lemma wp_p_flush_reliable (P : W -> Prop) s w (Q : _ -> _ -> Prop) :
  (forall m w, P w -> P (try_send (p_connection s) m w).1) -> P w ->
  (forall w' reliable r, P w' -> Q (s <|p_reliable := reliable|>, w') r) -> step_wp p_flush_reliable (s, w) Q.
Proof.
  intros HP Hw HQ. unfold p_flush_reliable.
  destruct (latest_flush_ends (p_connection s) P (S (length (waiting_frames (p_reliable s)))) (p_reliable s) w)
    as (w' & l & r & E & Hw'); [done..|unfold latest_pending; lia|].
  unfold step_wp. rewrite E. cbn. by apply HQ.
Qed.
Lemma wp_p_enqueue flow g q pr payload s w (Q : _ -> _ -> Prop) :
  (forall reliable r, Q (s <|p_reliable := reliable|>, w) r) ->
  step_wp (p_enqueue flow g q pr payload) (s, w) Q.
Proof. intros HQ. unfold p_enqueue, step_wp. destruct (latest_enqueue _ _ _ _ _ _ _). by apply HQ. Qed.
Lemma wp_p_send_latest d s w (Q : _ -> _ -> Prop) :
  (forall r, Q (s, (try_send_latest (p_connection s) d w).1) r) -> step_wp (p_send_latest d) (s, w) Q.
Proof.
  intros HQ. unfold p_send_latest, step_wp. destruct (try_send_latest _ _ _) as [w' r]. by apply HQ.
Qed.

End primitives.

(** Through the structure of a step of the publisher. *)
Ltac p_steps :=
  repeat lazymatch goal with
  | |- step_wp (p_get _) _ _ => apply wp_p_get
  | |- step_wp (p_set _) _ _ => apply wp_p_set
  | |- step_wp (try_with _) _ _ => apply wp_try; cbv beta iota
  | |- step_wp (if _ then _ else _) _ _ => fail
  | _ => wp_split
  end.

Section facts.
Context `{NanaProtocol} {C W : Type} `{Connection C W} `{RealtimeConnection C W}.
Implicit Types (s : NtpPublisher C) (w : W).
Abbreviation pstep := (step (NtpPublisher C * W)).

(** ** The invariant *)

Record publisher_ok (s : NtpPublisher C) : Prop := {
  po_config : binding_config_validate (p_config s) = Ok (p_config s);
  po_outbox : outbox_ok (p_config s) (p_outbox s);
  po_accepted : p_pending_accepted s = true -> is_Some (p_pending s);
  po_playback : p_playback s <> PlaybackStopped -> is_Some (p_active s);
  po_samples d : p_active s = Some d -> length (p_compact_samples s) = length (layout_signals (sd_layout d));
  po_published : is_Some (p_last_published_sequence s) -> is_Some (p_active s);
  po_reconfigure : len (p_reconfigure_times s) <= max_reconfigure_per_minute (p_config s);
  po_windows : fw_count (p_windows s) <= max_burst_fps (p_config s);
}.

Lemma validate_positive c :
  binding_config_validate c = Ok c ->
  0 < max_burst_fps c /\ 0 < max_reconfigure_per_minute c /\ geometry_cadence c <> Some 0.
Proof. unfold binding_config_validate. intros Hv. inv_ok. guards. split_and!; try lia. done. Qed.

Lemma note_frame_count max fps now u u' admitted :
  note_frame max fps now u = (u', admitted) -> fw_count u <= max -> fw_count u' <= max.
Proof.
  unfold note_frame. intros Hn Hs.
  set (v := if 1000000000 <=? now - fw_started u then _ else u) in Hn.
  assert (fw_count v <= max) as Hv by (unfold v; destruct (_ <=? _); cbn; [lia|done]). clearbody v.
  destruct (N.leb_spec max (fw_count v)); [by injection Hn as <- <-|].
  set (x := if 10 * 1000000000 <=? _ then _ else v) in Hn.
  assert (fw_count x = fw_count v) as Hx by (unfold x; by destruct (_ <=? _)). clearbody x.
  destruct (_ <=? fw_sustained_count x); injection Hn as <- <-; cbn; unfold sat_add; lia.
Qed.

(** The session that is published, and how far. *)
Definition p_stream (s : NtpPublisher C) := (p_active s, p_last_published_sequence s).
(** What most steps keep: the invariant and the stream. *)
Definition p_kept s s' : Prop :=
  publisher_ok s' /\ p_stream s' = p_stream s /\ p_playback s' = p_playback s /\ p_pending s' = p_pending s.

Lemma publisher_new_ok c a cfg now1 now2 w s : publisher_new c a cfg now1 now2 w = Ok s -> publisher_ok s.
Proof.
  unfold publisher_new. intros Hn. inv_ok.
  assert (a0 = cfg) as -> by (unfold binding_config_validate in *; inv_ok; done).
  constructor; cbn; try done; try lia. by split; [cbn; lia|].
Qed.

Lemma ok_outbox s o : publisher_ok s -> outbox_ok (p_config s) o -> p_kept s (s <|p_outbox := o|>).
Proof. intros [] Ho. split; [by constructor|done]. Qed.
Lemma wp_kept_queue m s w (Q : _ -> _ -> Prop) :
  publisher_ok s -> (forall s' r, p_kept s s' -> Q (s', w) r) -> step_wp (p_queue m) (s, w) Q.
Proof.
  intros Hs HQ. apply wp_p_queue; [intros e; by apply HQ|]. intros wire _ Hq. apply HQ, ok_outbox; [done|].
  eapply queue_control_outbox; [apply Hs|done].
Qed.
Lemma wp_kept_flush s w (Q : _ -> _ -> Prop) :
  publisher_ok s -> (forall s' w' r, p_kept s s' -> Q (s', w') r) -> step_wp p_flush_control (s, w) Q.
Proof.
  intros Hs HQ. apply wp_p_flush_control. intros w' rest r Hf. apply HQ, ok_outbox; [done|].
  eapply flush_control_outbox; [apply Hs|done].
Qed.
Lemma wp_kept_flush_reliable s w (Q : _ -> _ -> Prop) :
  publisher_ok s -> (forall s' w' r, p_kept s s' -> Q (s', w') r) -> step_wp p_flush_reliable (s, w) Q.
Proof.
  intros Hs HQ. apply (wp_p_flush_reliable (fun _ => True)); [done..|]. intros w' l r _. apply HQ.
  destruct Hs. split; [by constructor|done].
Qed.
Lemma wp_kept_enqueue flow g q pr payload s w (Q : _ -> _ -> Prop) :
  publisher_ok s -> (forall s' r, p_kept s s' -> Q (s', w) r) ->
  step_wp (p_enqueue flow g q pr payload) (s, w) Q.
Proof.
  intros Hs HQ. apply wp_p_enqueue. intros l r. apply HQ. destruct Hs. split; [by constructor|done].
Qed.
Lemma p_kept_trans s1 s2 s3 : p_kept s1 s2 -> p_kept s2 s3 -> p_kept s1 s3.
Proof. unfold p_kept. intros (?&?&?&?) (?&?&?&?). split; [done|]. split_and!; congruence. Qed.
Lemma p_kept_refl s : publisher_ok s -> p_kept s s.
Proof. by split. Qed.
Hint Resolve p_kept_refl p_kept_trans : core.

Lemma wp_kept_rate (admitted : bool) s w (Q : _ -> _ -> Prop) :
  publisher_ok s -> (forall s' r, p_kept s s' -> Q (s', w) r) ->
  step_wp (if admitted then mret () else p_count_rate_limited;; fail_with BeRateLimited : pstep ()) (s, w) Q.
Proof.
  intros Hs HQ. apply wp_if; intros _; [by apply wp_ret, HQ, p_kept_refl|].
  apply wp_bind, wp_p_set, wp_fail, HQ. destruct Hs. split; [by constructor|done].
Qed.
Lemma wp_kept_note_reconfigure now s w (Q : _ -> _ -> Prop) :
  publisher_ok s -> (forall s' r, p_kept s s' -> Q (s', w) r) -> step_wp (p_note_reconfigure now) (s, w) Q.
Proof.
  intros Hs HQ. apply wp_bind, wp_p_get, wp_bind, wp_p_get.
  destruct (note_reconfigure _ _ _) as [times admitted] eqn:Hn. apply wp_bind, wp_p_set.
  apply note_reconfigure_length in Hn; [|apply Hs].
  assert (p_kept s (s <|p_reconfigure_times := times|>)) as Hk by (destruct Hs; split; [by constructor|done]).
  apply wp_kept_rate; [by apply Hk|]. eauto.
Qed.
Lemma wp_kept_note_frame now fps s w (Q : _ -> _ -> Prop) :
  publisher_ok s -> (forall s' r, p_kept s s' -> Q (s', w) r) -> step_wp (p_note_frame now fps) (s, w) Q.
Proof.
  intros Hs HQ. apply wp_bind, wp_p_get, wp_bind, wp_p_get.
  destruct (note_frame _ _ _ _) as [windows admitted] eqn:Hn. apply wp_bind, wp_p_set.
  apply note_frame_count in Hn; [|apply Hs].
  assert (p_kept s (s <|p_windows := windows|>)) as Hk by (destruct Hs; split; [by constructor|done]).
  apply wp_kept_rate; [by apply Hk|]. eauto.
Qed.

(** ** The calls *)

(** What a call that sends no result does: nothing to the stream, or the
    session changes and nothing of it is published yet. *)
Definition p_moved s s' : Prop :=
  publisher_ok s' /\ (p_stream s' = p_stream s \/ p_last_published_sequence s' = None).
Lemma p_kept_moved s s' : p_kept s s' -> p_moved s s'.
Proof. intros (?&?&?&?). split; auto. Qed.
Lemma p_kept_ok s s' : p_kept s s' -> publisher_ok s'.
Proof. by intros []. Qed.
Lemma p_moved_kept s1 s2 s3 : p_moved s1 s2 -> p_kept s2 s3 -> p_moved s1 s3.
Proof.
  intros [_ Hm] (Hok & Hst & _ & _). split; [done|].
  destruct Hm as [<-|Hm]; [by left|right]. revert Hst. unfold p_stream. congruence.
Qed.
Hint Resolve p_kept_moved p_kept_ok p_moved_kept : core.

Lemma wp_handle now m s w :
  publisher_ok s -> step_wp (p_handle now m) (s, w) (fun x _ => p_moved s x.1).
Proof.
  intros Hs. assert (p_moved s s) as Hm by eauto.
  destruct m; cbn [p_handle]; p_steps; try done.
  - destruct (validate_hello _ _); [|done]. p_steps. destruct Hs. split; [by constructor|by left].
  - destruct (p_pending s) as [d|] eqn:Hd; cbn [ok_or]; [|done]. p_steps; [done|].
    apply wp_kept_queue; [done|]. intros s' [|] Hk; [|by eauto]. p_steps.
    destruct Hk as ([] & Hst & Hpb & Hp). split; [|by left]. constructor; cbn; try done.
    intros _. rewrite Hp, Hd. by eexists.
  - destruct (p_pending s) as [d|] eqn:Hd; cbn [ok_or]; [|done]. p_steps; [done|]. p_steps.
    destruct Hs. split; [|by right]. constructor; cbn; try done.
    intros d' [= <-]. by rewrite length_replicate.
  - destruct Hs. split; [|by left]. constructor; cbn; try done. intros _.
    destruct (p_active s); [eauto|done].
  - destruct Hs. split; [by constructor|by left].
  - apply wp_kept_queue; [done|]. intros s' [|] Hk; p_steps; eauto.
  - destruct Hs. split; [by constructor|by left].
Qed.

Lemma wp_poll_control now s w :
  publisher_ok s -> step_wp (p_poll_control now) (s, w) (fun x _ => p_moved s x.1).
Proof.
  intros Hs. unfold p_poll_control. wp_split. apply wp_kept_flush; [done|].
  intros s1 w1 [_|e] K1; [|by eauto]. wp_split. apply wp_p_get. wp_split.
  assert (forall Q : _ -> _ -> Prop, (forall s2 w2 r, p_kept s s2 -> Q (s2, w2) r) ->
    step_wp (if bool_decide (p_transport_mode s1 = ModeReliableLatestOnly)
             then p_flush_reliable else mret ()) (s1, w1) Q) as Hflush.
  { intros Q HQ. wp_split; [|apply wp_ret; by eauto]. apply wp_kept_flush_reliable; [by eauto|].
    intros s2 w2 r Hk. apply HQ. by eauto. }
  apply Hflush. intros s2 w2 [_|e] K2; [|by eauto]. wp_split. apply wp_p_receive_control.
  intros w3 [[m|]|e] _; [|by p_steps; eauto..]. wp_split.
  eapply step_wp_mono; [apply wp_handle; by eauto|]. intros [s3 w4] [ev|e] K3; cbn in K3.
  - assert (p_moved s s3) as K4.
    { destruct K2 as (? & Hst & _ & _), K3 as [? Hst']. split; [done|]. rewrite <- Hst. done. }
    wp_split. apply wp_kept_flush; [apply K4|]. intros s4 w5 [_|e] K5; p_steps; eauto.
  - destruct K2 as (? & Hst & _ & _), K3 as [? Hst']. split; [done|]. rewrite <- Hst. done.
Qed.

Lemma wp_publish_descriptor d id g l layout topology now s w :
  publisher_ok s ->
  step_wp (publish_descriptor d id g l layout topology now) (s, w) (fun x _ => p_moved s x.1).
Proof.
  intros Hs. assert (p_moved s s) as Hm by eauto. unfold publish_descriptor. p_steps; try done.
  assert (forall Q : _ -> _ -> Prop, (forall s' r, p_kept s s' -> Q (s', w) r) ->
    step_wp (if bool_decide (is_Some (p_active s)) then p_note_reconfigure now else mret ()) (s, w) Q) as Hr.
  { intros Q HQ. wp_split; [by apply wp_kept_note_reconfigure|]. apply wp_ret. by eauto. }
  apply Hr. intros s1 [_|e] K1; [|by eauto]. p_steps. destruct (layout_negotiate _ _ _) as [al|e]; [|by eauto].
  wp_split. apply wp_kept_queue; [by eauto|]. intros s2 [_|e] K2; [|by eauto]. p_steps.
  assert (p_moved s (s2 <|p_pending := Some (mkDefinition d id g al topology)|> <|p_pending_accepted := false|>))
    as K3.
  { destruct (p_kept_trans _ _ _ K1 K2) as ([] & ? & _). split; [|by left]. by constructor. }
  apply wp_kept_flush; [apply K3|]. intros. by eauto.
Qed.

Lemma wp_send_hello s w :
  publisher_ok s -> step_wp p_try_send_hello (s, w) (fun x _ => p_moved s x.1).
Proof.
  intros Hs. unfold p_try_send_hello. p_steps. apply wp_kept_queue; [done|]. intros s1 [_|e] K1; [|by eauto].
  apply wp_kept_flush; by eauto.
Qed.

Lemma wp_reset c a now1 now2 s w :
  publisher_ok s -> step_wp (p_reset_for_reconnect c a now1 now2) (s, w) (fun x _ => p_moved s x.1).
Proof.
  intros Hs. assert (p_moved s s) as Hm by eauto. unfold p_reset_for_reconnect. p_steps.
  destruct (validate_connection_authorization _ _ _); [|done]. p_steps; [done|].
  destruct Hs. split; [|by right]. constructor; cbn; try done; try lia. by split; [cbn; lia|].
Qed.

(** ** Sending a result *)

Lemma wp_kept_send_reliable r core geometry s w :
  publisher_ok s -> step_wp (p_send_reliable r core geometry) (s, w) (fun x _ => p_kept s x.1).
Proof.
  intros Hs. unfold p_send_reliable. wp_split. apply wp_kept_flush_reliable; [done|].
  intros s1 w1 [_|e] K1; [|done]. p_steps. apply wp_kept_enqueue; [by eauto|]. intros s2 [o|e] K2; [|by eauto].
  wp_split. apply wp_kept_enqueue; [by eauto|]. intros s3 [o3|e] K3; [|by eauto]. wp_split.
  assert (p_kept s s3) as K4 by eauto. destruct geometry as [g|]; cbn [step_map]; p_steps.
  - apply wp_kept_enqueue; [by eauto|]. intros s5 [o5|e] K5; [|by eauto]. p_steps.
    apply wp_kept_flush_reliable; [by eauto|]. intros s6 w6 [_|e] K6; p_steps; eauto.
  - apply wp_kept_flush_reliable; [by eauto|]. intros s6 w6 [_|e] K6; p_steps; eauto.
Qed.

Lemma wp_p_send_fragmented flow g q deadline pr payload s w (Q : _ -> _ -> Prop) :
  (forall w' r, Q (s, w') r) -> step_wp (p_send_fragmented flow g q deadline pr payload) (s, w) Q.
Proof. intros HQ. unfold p_send_fragmented, step_wp. destruct (send_fragmented _ _ _) as [w' r]. by apply HQ. Qed.
Lemma wp_kept_send_datagrams r deadline core geometry s w :
  publisher_ok s -> step_wp (p_send_datagrams r deadline core geometry) (s, w) (fun x _ => p_kept s x.1).
Proof.
  intros Hs. assert (p_kept s s) as Hk by done. unfold p_send_datagrams. wp_split. apply wp_get. cbn [fst snd].
  p_steps. destruct (max_datagram_payload _ _); cbn [ok_or]; [|done]. p_steps; [done|].
  apply wp_p_send_latest. intros [o|e]; [|done]. p_steps. apply wp_p_send_fragmented. intros w2 [o2|e]; [|done].
  wp_split. destruct geometry as [g|]; cbn [step_map]; p_steps; [|done].
  apply wp_p_send_fragmented. intros w3 [o3|e]; [|done]. by p_steps.
Qed.

(** What a result must be for the publisher to send it. *)
Definition publishable s (r : NanaTrackingResult) : Prop :=
  p_playback s = PlaybackRunning
  /\ (exists d, p_active s = Some d /\ nr_session_id r = sd_session_id d /\ nr_generation r = sd_generation d
        /\ validate_result (sd_descriptor d) r = Ok ())
  /\ forall q, p_last_published_sequence s = Some q -> q < nr_sequence r.
Definition sent_as s s' (r : NanaTrackingResult) : Prop :=
  publishable s r /\ publisher_ok s' /\ p_stream s' = (p_active s, Some (nr_sequence r)).

Lemma fill_samples_length samples signals r : length (fill_samples samples signals r).1 = length samples.
Proof.
  revert signals. induction samples as [|x samples IH]; intros [|g signals]; cbn; try done.
  destruct (rig_sample r g); [|done]. specialize (IH signals).
  destruct (fill_samples samples signals r). cbn in *. by rewrite IH.
Qed.

Lemma wp_kept_fill layout r s w (Q : _ -> _ -> Prop) :
  publisher_ok s -> (forall s' x, p_kept s s' -> Q (s', w) x) -> step_wp (p_fill_samples layout r) (s, w) Q.
Proof.
  intros Hs HQ. unfold p_fill_samples. p_steps.
  pose proof (fill_samples_length (p_compact_samples s) (layout_signals layout) r) as Hl.
  destruct (fill_samples _ _ _) as [samples filled]. p_steps. apply HQ.
  destruct Hs. split; [|done]. constructor; cbn in *; try done. intros d Hd. rewrite Hl. by eauto.
Qed.
Lemma wp_kept_encode layout r s w (Q : _ -> _ -> Prop) :
  publisher_ok s -> (forall s' x, p_kept s s' -> Q (s', w) x) -> step_wp (p_encode_compact layout r) (s, w) Q.
Proof.
  intros Hs HQ. unfold p_encode_compact. p_steps. destruct (compact_encode_into _ _ _ _ _ _ _ _) as [b x].
  p_steps. apply HQ. destruct Hs. split; [by constructor|done].
Qed.
Lemma wp_kept_geometry r s w (Q : _ -> _ -> Prop) :
  publisher_ok s -> (forall s' x, p_kept s s' -> Q (s', w) x) -> step_wp (p_geometry_wire r) (s, w) Q.
Proof.
  intros Hs HQ. unfold p_geometry_wire. p_steps.
  destruct (validate_positive _ (po_config _ Hs)) as (_ & _ & Hc).
  assert (forall due : bool, step_wp (if p_geometry_requested s || due then
      p_set (fun s => s <|p_geometry_requested := false|>);;
      wire ← try_with (result_encode r); mret (Some wire) else mret None : pstep _) (s, w) Q) as Hd.
  { intros due. wp_split; [|by apply HQ]. p_steps.
    assert (p_kept s (s <|p_geometry_requested := false|>)) as Hk by (destruct Hs; split; [by constructor|done]).
    destruct (result_encode r); p_steps; by apply HQ. }
  destruct (geometry_cadence (p_config s)) as [[|p]|]; [done|p_steps; apply Hd..].
Qed.

Lemma wp_prepare r now s w :
  publisher_ok s ->
  step_wp (p_prepare r now) (s, w) (fun x o =>
    p_kept s x.1 /\ match o with Ok _ => publishable s r | Err _ => True end).
Proof.
  intros Hs. assert (p_kept s s) as Hk by done. unfold p_prepare. p_steps; [done|].
  destruct (p_active s) as [d|] eqn:Hd; cbn [ok_or]; [|done]. p_steps.
  apply wp_kept_note_frame; [done|]. intros s1 [_|e] K1; [|by eauto]. p_steps; [by eauto|by eauto|].
  destruct (validate_result (sd_descriptor d) r) as [[]|e] eqn:Hv; [|by eauto]. p_steps.
  apply wp_kept_fill; [by eauto|]. intros s2 [_|e] K2; [|by eauto]. p_steps.
  apply wp_kept_encode; [by eauto|]. intros s3 [_|e] K3; [|by eauto]. split; [by eauto|].
  destruct K1 as (_ & Hst1 & _ & _). unfold p_stream in *.
  rename select (negb (bool_decide (p_playback s = _)) = false) into Hrun.
  rename select (negb _ || negb _ = false) into Hid. guards. split; [done|]. split; [by exists d|].
  intros q Hq. replace (p_last_published_sequence s1) with (Some q) in * by congruence. guards. lia.
Qed.
Lemma keeps_prepare_config r now cfg :
  step_keeps (fun x : NtpPublisher C * W => p_config x.1 = cfg) (p_prepare r now).
Proof.
  unfold p_prepare, p_note_frame, p_fill_samples, p_encode_compact, p_count_rate_limited, p_get, p_set.
  by keeps.
Qed.
Lemma wp_send_prepared r deadline s0 s w :
  publishable s0 r -> p_kept s0 s ->
  step_wp (p_send_prepared r deadline) (s, w) (fun x o =>
    match o with Ok _ => sent_as s0 x.1 r | Err _ => p_kept s0 x.1 end).
Proof.
  intros Hr K. unfold p_send_prepared. p_steps. destruct (core_wire r) as [core|e]; [|done]. p_steps.
  apply wp_kept_geometry; [by eauto|]. intros s4 [geometry|e] K4; [|by eauto]. p_steps.
  assert (step_wp (if bool_decide (p_transport_mode s4 = ModeReliableLatestOnly)
      then p_send_reliable r core geometry else p_send_datagrams r deadline core geometry) (s4, w)
      (fun x _ => p_kept s4 x.1)) as K6.
  { wp_split; [apply wp_kept_send_reliable|apply wp_kept_send_datagrams]; by eauto. }
  eapply step_wp_mono; [exact K6|]. intros [s5 w5] [o|e] K7; cbn in K7; [|by eauto]. p_steps.
  destruct (p_kept_trans _ _ _ K (p_kept_trans _ _ _ K4 K7)) as (Hok & Hst & _ & _).
  unfold p_stream in *. injection Hst as Ha _. split; [done|]. split.
  - destruct Hok. constructor; cbn; try done. intros _. rewrite Ha. destruct Hr as (_ & (d & -> & _) & _). by eexists.
  - unfold p_stream. cbn. by rewrite Ha.
Qed.

(** The deadline of a result sent at [now] is an instant. *)
Definition deadline_fits s (now : N) : Prop := now + result_deadline (p_config s) <= INSTANT_MAX.
#[local] Abbreviation send_post s r :=
  (fun x o => match o with Ok _ => sent_as s x.1 r | Err _ => p_kept s x.1 end).
Lemma wp_try_send_latest r now1 now2 s w :
  publisher_ok s -> deadline_fits s now2 -> step_wp (p_try_send_latest r now1 now2) (s, w) (send_post s r).
Proof.
  intros Hs Hfit. unfold p_try_send_latest. wp_split.
  pose proof (wp_prepare r now1 s w Hs) as Hp. apply step_wp_iff in Hp as ([s1 w1] & o & E & Hk & Ho).
  pose proof (keeps_prepare_config r now1 (p_config s) (s, w) _ _ eq_refl E) as Hc. cbn in Hk, Hc.
  apply step_wp_iff. exists (s1, w1), o. split; [done|]. destruct o as [[]|e]; [|done]. unfold p_deadline. p_steps.
  rewrite Hc. unfold instant_add, checked_add, or_panic. rewrite decide_True by done. apply wp_ret. by apply wp_send_prepared.
Qed.
(** Whatever the deadline, a call that does not panic is as it should be. *)
Lemma try_send_latest_post r now1 now2 s w x o :
  publisher_ok s -> p_try_send_latest r now1 now2 (s, w) = Some (x, o) -> send_post s r x o.
Proof.
  intros Hs Hx. destruct (decide (now2 + result_deadline (p_config s) <= INSTANT_MAX)) as [Hfit|Hfit].
  { exact (step_wp_result _ _ _ _ _ (wp_try_send_latest r now1 now2 s w Hs Hfit) Hx). }
  pose proof (wp_prepare r now1 s w Hs) as Hp. apply step_wp_iff in Hp as ([s1 w1] & o1 & E & Hk & Ho).
  pose proof (keeps_prepare_config r now1 (p_config s) (s, w) _ _ eq_refl E) as Hc. cbn in Hk, Hc.
  unfold p_try_send_latest, mbind, step_bind in Hx. rewrite E in Hx. destruct o1 as [[]|e]; [|by injection Hx as <- <-].
  exfalso. revert Hx. unfold p_deadline, p_get, get_state, mbind, step_bind. cbn. rewrite Hc.
  unfold instant_add, checked_add. by rewrite decide_False.
Qed.

(** ** The life of a publisher *)

(** Calls with their arguments; their answers matter only for a result. *)
Inductive PublisherCall :=
| CallHello
| CallPublish (d : NanaTrackingDescriptor) (id : NtpSessionId) (generation layout_id : N)
    (layout : LayoutProposal) (topology : GeometryTopology) (now : N)
| CallPollControl (producer_now_ns : N)
| CallSend (r : NanaTrackingResult) (now1 now2 : N)
| CallReset (connection : C) (authorization : NtpAuthorization) (now1 now2 : N).
Definition publisher_call (c : PublisherCall) : pstep (option NanaTrackingResult) :=
  match c with
  | CallHello => p_try_send_hello;; mret None
  | CallPublish d id generation layout_id layout topology now =>
    publish_descriptor d id generation layout_id layout topology now;; mret None
  | CallPollControl now => p_poll_control now;; mret None
  | CallSend r now1 now2 => p_try_send_latest r now1 now2;; mret (Some r)
  | CallReset c a now1 now2 => p_reset_for_reconnect c a now1 now2;; mret None
  end.

(** The publishers reachable by calls, each in any state of the connection,
    with the results sent since the session became active, in order. *)
Inductive publishes : NtpPublisher C -> list NanaTrackingResult -> Prop :=
| publishes_new c a config now1 now2 w s :
    publisher_new c a config now1 now2 w = Ok s -> publishes s []
| publishes_call s sent c w s' w' answer :
    publishes s sent -> publisher_call c (s, w) = Some (s', w', answer) ->
    publishes s' (match p_last_published_sequence s', answer with
                  | None, _ => []
                  | Some _, Ok (Some r) => sent ++ [r]
                  | Some _, _ => sent
                  end).

(** The deadline of what the call sends is an instant. *)
Definition call_fits s (c : PublisherCall) : Prop :=
  match c with CallSend _ _ now2 => deadline_fits s now2 | _ => True end.
#[local] Abbreviation call_post s :=
  (fun x o => match o with Ok (Some r) => sent_as s x.1 r | _ => p_moved s x.1 end).
Lemma publisher_call_total c s w :
  publisher_ok s -> call_fits s c -> step_wp (publisher_call c) (s, w) (call_post s).
Proof.
  intros Hs Hc.
  assert (forall A (m : pstep A),
            step_wp m (s, w) (fun x _ => p_moved s x.1) -> step_wp (m;; mret None) (s, w) (call_post s)) as Hother.
  { intros A m Hm. apply wp_bind. eapply step_wp_mono; [exact Hm|]. by intros x [a|e]. }
  destruct c; cbn [publisher_call].
  - by apply Hother, wp_send_hello.
  - by apply Hother, wp_publish_descriptor.
  - by apply Hother, wp_poll_control.
  - apply wp_bind. eapply step_wp_mono; [by apply wp_try_send_latest|]. intros x [o|e] Hx; [done|by eauto].
  - by apply Hother, wp_reset.
Qed.
Lemma publisher_call_post c s w x o :
  publisher_ok s -> publisher_call c (s, w) = Some (x, o) -> call_post s x o.
Proof.
  intros Hs Hx.
  assert (call_fits s c -> call_post s x o) as Hfits.
  { intros Hc. exact (step_wp_result _ _ _ _ _ (publisher_call_total c s w Hs Hc) Hx). }
  destruct c as [| | |r now1 now2|]; try by apply Hfits. clear Hfits. cbn [publisher_call] in Hx.
  unfold mbind, step_bind in Hx. destruct (p_try_send_latest r now1 now2 (s, w)) as [[y [a|e]]|] eqn:E; [..|done];
    apply try_send_latest_post in E; try done; injection Hx as <- <-; [done|by eauto].
Qed.
Definition of_active s (r : NanaTrackingResult) : Prop :=
  exists d, p_active s = Some d /\ nr_session_id r = sd_session_id d /\ nr_generation r = sd_generation d
    /\ validate_result (sd_descriptor d) r = Ok ().
Definition seq_lt (r1 r2 : NanaTrackingResult) : Prop := nr_sequence r1 < nr_sequence r2.
Definition stream_ok s (sent : list NanaTrackingResult) : Prop :=
  publisher_ok s /\ StronglySorted seq_lt sent
  /\ Forall (fun r => of_active s r /\ exists q, p_last_published_sequence s = Some q /\ nr_sequence r <= q) sent.

Lemma sorted_snoc (sent : list NanaTrackingResult) r :
  StronglySorted seq_lt sent -> Forall (fun x => seq_lt x r) sent -> StronglySorted seq_lt (sent ++ [r]).
Proof.
  induction 1 as [|x sent Hs IH Hx]; cbn; [by repeat constructor|].
  intros [Hr Hf]%Forall_cons. constructor; [by apply IH|]. apply Forall_app. split; [done|by constructor].
Qed.

Lemma stream_moved s s' sent : stream_ok s sent -> p_moved s s' ->
  stream_ok s' (match p_last_published_sequence s' with None => [] | Some _ => sent end).
Proof.
  intros (_ & Hsort & Hf) [Hok [Hst| ->]]; [|by split; [|split]; [|constructor..]].
  injection Hst as Ha Hl. rewrite Hl. destruct (p_last_published_sequence s) as [q|] eqn:Hq.
  - split; [done|]. split; [done|]. eapply Forall_impl; [exact Hf|]. intros r [Hr Hx]. cbv beta in *.
    unfold of_active. rewrite Ha, Hl. done.
  - by split; [|split]; [|constructor..].
Qed.
Lemma stream_sent s s' sent r : stream_ok s sent -> sent_as s s' r ->
  stream_ok s' (match p_last_published_sequence s' with None => [] | Some _ => sent ++ [r] end).
Proof.
  intros (_ & Hsort & Hf) ((_ & Hd & Hq) & Hok & Hst). injection Hst as Ha Hl. rewrite Hl.
  assert (Forall (fun x => seq_lt x r) sent) as Hlt.
  { eapply Forall_impl; [exact Hf|]. intros x (_ & q & Hx & Hle). apply Hq in Hx. unfold seq_lt. lia. }
  split; [done|]. split; [by apply sorted_snoc|]. apply Forall_app. unfold of_active. rewrite Ha, Hl. split.
  - rewrite Forall_forall in *. intros x Hx. destruct (Hf _ Hx) as [Hof _]. specialize (Hlt _ Hx).
    split; [done|]. eexists. split; [done|]. unfold seq_lt in Hlt. lia.
  - constructor; [|constructor]. split; [done|]. eexists. split; [done|lia].
Qed.
Lemma publishes_ok s sent : publishes s sent -> stream_ok s sent.
Proof.
  induction 1 as [c a config now1 now2 w s Hn|s sent c w s' w' answer _ IH Hc].
  - split; [by eapply publisher_new_ok|]. by split; constructor.
  - pose proof (publisher_call_post c s w _ _ (proj1 IH) Hc) as Hx. cbn in Hx.
    destruct answer as [[r|]|e]; [by apply (stream_sent s)|by apply (stream_moved s)..].
Qed.
End facts.

(** C17: Whatever is asked of a publisher and whatever its connection answers,
    its invariant holds; the results it has published since its session became
    active belong to the active session and generation, were accepted by the
    session's descriptor, and have strictly increasing sequence numbers; and no
    call panics or loops, as long as the deadline of what it sends - now plus
    the configured duration - is an instant that the clock can represent. *)
Theorem publisher_stream_sound `{NanaProtocol} {C W} `{Connection C W} `{RealtimeConnection C W}
    (s : NtpPublisher C) sent :
  publishes s sent ->
  publisher_ok s
  /\ StronglySorted (fun r1 r2 => nr_sequence r1 < nr_sequence r2) sent
  /\ Forall (fun r => exists d, p_active s = Some d /\ nr_session_id r = sd_session_id d
        /\ nr_generation r = sd_generation d /\ validate_result (sd_descriptor d) r = Ok ()) sent
  /\ forall c (w : W), call_fits s c -> exists x, publisher_call c (s, w) = Some x.
Proof.
  intros Hp. destruct (publishes_ok s sent Hp) as (Hs & Hsort & Hf). split_and!; [done..| |].
  - eapply Forall_impl; [exact Hf|]. by intros r [Hr _].
  - intros c w Hc. apply (publisher_call_total c s w) in Hs; [|done]. unfold step_wp in Hs.
    destruct (publisher_call c (s, w)); [by eexists|done].
Qed.
