(* ===== verification/NtpSubscriberFacts.v ===== *)
(** * The subscriber never panics, delivers soundly and fuses *)

From S2P Require Export NtpSubscriber NtpSessionFacts FragmentProps.
Local Open Scope N_scope.

Section primitives.
Context `{NanaProtocol} {C W : Type} `{Connection C W} `{RealtimeConnection C W}.
Implicit Types (s : NtpSubscriber C) (w : W).

(** ** What the primitive steps do *)

Lemma wp_s_get {A} (f : NtpSubscriber C -> A) s w (Q : _ -> _ -> Prop) :
  Q (s, w) (Ok (f s)) -> step_wp (s_get (W := W) f) (s, w) Q.
Proof. done. Qed.
Lemma wp_s_set f s w (Q : _ -> _ -> Prop) : Q (f s, w) (Ok ()) -> step_wp (s_set (W := W) f) (s, w) Q.
Proof. done. Qed.
Lemma wp_s_queue m s w (Q : _ -> _ -> Prop) :
  (forall e, Q (s, w) (Err e)) ->
  (forall wire, ntp_encode m = Ok wire -> queue_control (s_outbox s) m (s_config s) = Ok (s_outbox s ++ [wire]) ->
     Q (s <|s_outbox := s_outbox s ++ [wire]|>, w) (Ok ())) ->
  step_wp (s_queue m) (s, w) Q.
Proof.
  intros He Hok. unfold s_queue. apply wp_bind, wp_s_get, wp_bind, wp_s_get, wp_bind, wp_try.
  destruct (queue_control _ _ _) as [o|e] eqn:Hq; [|apply He]. apply wp_s_set.
  pose proof Hq as (wire & Hw & -> & _)%queue_control_ok. by apply Hok.
Qed.
Lemma wp_s_flush_control s w (Q : _ -> _ -> Prop) :
  (forall w' rest r, flush_control (s_connection s) (s_outbox s) w = (w', rest, r) ->
     Q (s <|s_outbox := rest|>, w') r) ->
  step_wp s_flush_control (s, w) Q.
Proof.
  intros HQ. unfold s_flush_control, step_wp. destruct (flush_control _ _ _) as [[w' rest] r]. by apply HQ.
Qed.
Lemma wp_s_receive_control s w (Q : _ -> _ -> Prop) :
  (forall w' r, receive_control (s_connection s) (s_config s) w = (w', r) -> Q (s, w') r) ->
  step_wp s_receive_control (s, w) Q.
Proof. intros HQ. unfold s_receive_control, step_wp. destruct (receive_control _ _ _). by apply HQ. Qed.

End primitives.

(** Through the structure of a step of the subscriber. *)
Ltac s_steps :=
  repeat lazymatch goal with
  | |- step_wp (s_get _) _ _ => apply wp_s_get
  | |- step_wp (s_set _) _ _ => apply wp_s_set
  | |- step_wp (try_with _) _ _ => apply wp_try; cbv beta iota
  | |- step_wp (if _ then _ else _) _ _ => fail
  | _ => wp_split
  end.

Section facts.
Context `{NanaGuardLaws} {C W : Type} `{Connection C W} `{RealtimeConnection C W}.
Implicit Types (s : NtpSubscriber C) (w : W).
Abbreviation sstep := (step (NtpSubscriber C * W)).

(** ** The invariant *)

Definition reassembler_sane (config : BindingConfig) (r : Reassembler) : Prop :=
  exists h, reassembler_ok config h r.

Record subscriber_ok (s : NtpSubscriber C) : Prop := {
  so_outbox : outbox_ok (s_config s) (s_outbox s);
  so_core : reassembler_sane (s_config s) (s_core_reassembly s);
  so_geometry : reassembler_sane (s_config s) (s_geometry_reassembly s);
  so_guard a : s_active s = Some a ->
    result_guard_view (ss_result_guard a) = (ss_session_id a, ss_generation a);
  so_reconfigure : len (s_reconfigure_times s) <= max_reconfigure_per_minute (s_config s);
}.

Lemma reassembler_new_sane config : reassembler_sane config reassembler_new.
Proof. exists []. apply (reaches_ok config). constructor. Qed.
Lemma reassembler_push_sane config g q b r :
  reassembler_sane config r ->
  exists r' out, reassembler_push g q b config r = Some (r', out) /\ reassembler_sane config r'.
Proof.
  intros [h Hr]. destruct (push_ok config h r g q b Hr) as (r' & out & -> & _ & Hok & _).
  exists r', out. split; [done|]. by eexists.
Qed.

(** The active session, whose guards change as frames arrive. *)
Definition s_session (a : SubscriberSession) :=
  (ss_descriptor a, ss_session_id a, ss_generation a, ss_layout a, ss_topology a).
Definition s_fuse s := (s_fused s, s_protocol_violations s).
(** What the steps of control keep but when they change the session. *)
Definition s_kept s s' : Prop :=
  subscriber_ok s' /\ s_active s' = s_active s /\ s_fuse s' = s_fuse s /\ s_pending s' = s_pending s
  /\ s_config s' = s_config s.
Lemma s_kept_refl s : subscriber_ok s -> s_kept s s.
Proof. by split. Qed.
Lemma s_kept_trans s1 s2 s3 : s_kept s1 s2 -> s_kept s2 s3 -> s_kept s1 s3.
Proof. unfold s_kept. intros (?&?&?&?&?) (?&?&?&?&?). split; [done|]. split_and!; congruence. Qed.
Lemma s_kept_ok s s' : s_kept s s' -> subscriber_ok s'.
Proof. by intros []. Qed.
Hint Resolve s_kept_refl s_kept_trans s_kept_ok : core.

Lemma subscriber_new_ok c a cfg now1 now2 w s : subscriber_new c a cfg now1 now2 w = Ok s -> subscriber_ok s.
Proof.
  unfold subscriber_new. intros Hn. inv_ok. constructor; cbn; try apply reassembler_new_sane; try done; [|lia].
  by split; [cbn; lia|].
Qed.
Lemma s_ok_outbox s o : subscriber_ok s -> outbox_ok (s_config s) o -> s_kept s (s <|s_outbox := o|>).
Proof. intros [] Ho. split; [by constructor|done]. Qed.
Lemma wp_s_kept_queue m s w (Q : _ -> _ -> Prop) :
  subscriber_ok s -> (forall s' r, s_kept s s' -> Q (s', w) r) -> step_wp (s_queue m) (s, w) Q.
Proof.
  intros Hs HQ. apply wp_s_queue; [intros e; by apply HQ, s_kept_refl|]. intros wire _ Hq.
  apply HQ, s_ok_outbox; [done|]. eapply queue_control_outbox; [apply Hs|done].
Qed.
Lemma wp_s_kept_flush s w (Q : _ -> _ -> Prop) :
  subscriber_ok s -> (forall s' w' r, s_kept s s' -> Q (s', w') r) -> step_wp s_flush_control (s, w) Q.
Proof.
  intros Hs HQ. apply wp_s_flush_control. intros w' rest r Hf. apply HQ, s_ok_outbox; [done|].
  eapply flush_control_outbox; [apply Hs|done].
Qed.

(** ** Polling *)

(** Changes of counters, windows, ages and caches keep everything. *)
Ltac s_keep := match goal with Hs : subscriber_ok ?s |- s_kept ?s _ =>
  destruct Hs; split; [by constructor|done] end.

Lemma s_kept_note_age_state age s : subscriber_ok s ->
  forall w (Q : _ -> _ -> Prop), (forall s', s_kept s s' -> Q (s', w) (Ok ())) ->
  step_wp (note_age age) (s, w) Q.
Proof.
  intros Hs w Q HQ. unfold note_age. s_steps. apply HQ. destruct (s_previous_age_ns s); s_keep.
Qed.
Lemma wp_count_dropped n s w (Q : _ -> _ -> Prop) :
  subscriber_ok s -> (forall s', s_kept s s' -> Q (s', w) (Ok ())) -> step_wp (s_count_dropped n) (s, w) Q.
Proof. intros Hs HQ. unfold s_count_dropped. s_steps. apply HQ. s_keep. Qed.
Lemma wp_active_session s w (Q : _ -> _ -> Prop) :
  (forall e, Q (s, w) (Err e)) -> (forall a, s_active s = Some a -> Q (s, w) (Ok a)) ->
  step_wp s_active_session (s, w) Q.
Proof.
  intros Hn Ha. unfold s_active_session. s_steps. destruct (s_active s) as [a|]; cbn [ok_or]; auto.
Qed.

Lemma wp_receive_message frames s w (Q : _ -> _ -> Prop) :
  subscriber_ok s -> (forall s' w' r, s_kept s s' -> Q (s', w') r) ->
  step_wp (s_receive_message frames) (s, w) Q.
Proof.
  intros Hs HQ. unfold s_receive_message, step_wp. case_bool_decide.
  - destruct (try_receive_realtime _ _) as [w' r]. apply HQ. by apply s_kept_refl.
  - destruct (latest_poll _ _ _ _ _ _) as [[w' l] r]. apply HQ. s_keep.
Qed.
Lemma wp_note_received_frame now fps s w (Q : _ -> _ -> Prop) :
  subscriber_ok s -> (forall s' r, s_kept s s' -> Q (s', w) r) ->
  step_wp (note_received_frame now fps) (s, w) Q.
Proof.
  intros Hs HQ. unfold note_received_frame. s_steps. destruct (note_frame _ _ _ _) as [u admitted]. s_steps.
  apply wp_if; intros _; [apply wp_ret, HQ; s_keep|]. unfold s_count_rate_limited. s_steps.
  apply wp_count_dropped; [by destruct Hs; constructor|]. intros s1 K1. apply wp_fail, HQ.
  eapply s_kept_trans; [|exact K1]. s_keep.
Qed.
Lemma wp_note_replacement o s w (Q : _ -> _ -> Prop) :
  subscriber_ok s -> (forall s' r, s_kept s s' -> Q (s', w) r) ->
  step_wp (note_reassembly_replacement o) (s, w) Q.
Proof.
  intros Hs HQ. unfold note_reassembly_replacement. apply wp_if; intros _.
  { apply wp_count_dropped; [done|]. intros s' K. by apply HQ. }
  apply wp_ret, HQ. by apply s_kept_refl.
Qed.
Lemma wp_push_core m s w (Q : _ -> _ -> Prop) :
  subscriber_ok s -> (forall s' r, s_kept s s' -> Q (s', w) r) -> step_wp (s_push_core m) (s, w) Q.
Proof.
  intros Hs HQ. unfold s_push_core, step_wp.
  destruct (reassembler_push_sane (s_config s) (rx_generation m) (rx_sequence m) (rx_payload m)
              (s_core_reassembly s)) as (r' & out & -> & Hr); [apply Hs|]. apply HQ. s_keep.
Qed.
Lemma wp_push_geometry m s w (Q : _ -> _ -> Prop) :
  subscriber_ok s -> (forall s' r, s_kept s s' -> Q (s', w) r) -> step_wp (s_push_geometry m) (s, w) Q.
Proof.
  intros Hs HQ. unfold s_push_geometry, step_wp.
  destruct (reassembler_push_sane (s_config s) (rx_generation m) (rx_sequence m) (rx_payload m)
              (s_geometry_reassembly s)) as (r' & out & -> & Hr); [apply Hs|]. apply HQ. s_keep.
Qed.
Lemma wp_complete push m s w (Q : _ -> _ -> Prop) :
  (forall Q' : _ -> _ -> Prop, (forall s' r, s_kept s s' -> Q' (s', w) r) -> step_wp (push m) (s, w) Q') ->
  subscriber_ok s -> (forall s' r, s_kept s s' -> Q (s', w) r) -> step_wp (s_complete push m) (s, w) Q.
Proof.
  intros Hpush Hs HQ. unfold s_complete. s_steps. apply wp_if; intros _; [by apply wp_ret, HQ, s_kept_refl|].
  wp_split. apply Hpush. intros s1 [o|e] K1; [|by apply HQ]. wp_split.
  apply wp_note_replacement; [by eapply s_kept_ok|]. intros s2 [_|e] K2; s_steps; eauto.
Qed.

(** The guard of the results stands still. *)
Definition guard_same (a a' : SubscriberSession) : Prop :=
  s_session a' = s_session a
  /\ result_guard_view (ss_result_guard a') = result_guard_view (ss_result_guard a)
  /\ result_guard_last (ss_result_guard a') = result_guard_last (ss_result_guard a).
(** A result is delivered under a session. *)
Definition delivered (clock : ProducerClockEstimate) (config : BindingConfig) (a a' : SubscriberSession)
    (r : NanaTrackingResult) : Prop :=
  s_session a' = s_session a /\ nr_session_id r = ss_session_id a /\ nr_generation r = ss_generation a
  /\ validate_result (ss_descriptor a) r = Ok ()
  /\ clock_now_ns clock - nr_capture_timestamp_ns r
       <= sat_add u64_max (max_result_age_ns config) (clock_uncertainty_ns clock)
  /\ (forall q, result_guard_last (ss_result_guard a) = Some q -> q < nr_sequence r)
  /\ result_guard_last (ss_result_guard a') = Some (nr_sequence r).
Definition s_polled (clock : ProducerClockEstimate) s s' (o : result BindingError Polled) : Prop :=
  subscriber_ok s' /\ s_fuse s' = s_fuse s /\ s_pending s' = s_pending s /\ s_config s' = s_config s
  /\ match o with
     | Ok (mkPolled _ (Some r) _) =>
       exists a a', s_active s = Some a /\ s_active s' = Some a' /\ delivered clock (s_config s) a a' r
     | _ => s_active s' = s_active s
            \/ exists a a', s_active s = Some a /\ s_active s' = Some a' /\ guard_same a a'
     end.
Lemma s_kept_polled clock s s' o :
  s_kept s s' -> match o with Ok p => pl_result p = None | Err _ => True end -> s_polled clock s s' o.
Proof.
  intros (Hok & Ha & Hf & Hp & Hc) Ho. split_and!; [done..|].
  destruct o as [[o [r|] c]|e]; [done|by left..].
Qed.
Lemma s_polled_kept clock s1 s2 s3 o : s_polled clock s1 s2 o -> s_kept s2 s3 -> s_polled clock s1 s3 o.
Proof.
  intros (_ & Hf & Hp & Hc & Ho) (Hok & Ha & Hf' & Hp' & Hc'). split_and!; try congruence. by rewrite Ha.
Qed.
Lemma s_kept_polled_trans clock s1 s2 s3 o : s_kept s1 s2 -> s_polled clock s2 s3 o -> s_polled clock s1 s3 o.
Proof.
  intros (_ & Ha & Hf & Hp & Hc) (Hok & Hf' & Hp' & Hc' & Ho). split_and!; try congruence.
  by rewrite <- Ha, <- Hc.
Qed.
Hint Resolve s_polled_kept s_kept_polled_trans : core.

Ltac s_fails := apply s_kept_polled; [by eauto|done].

Lemma wp_poll_compact clock m s w :
  subscriber_ok s -> step_wp (s_poll_compact clock m) (s, w) (fun x o => s_polled clock s x.1 o).
Proof.
  intros Hs. unfold s_poll_compact. wp_split. apply wp_active_session; [intros e; s_fails|]. intros a Ha.
  wp_split. apply wp_if; intros _.
  { wp_split. apply wp_count_dropped; [done|]. intros s1 K1. s_steps. s_fails. }
  s_steps. destruct (guard_accept _ _ _) as [guard frame]. s_steps.
  set (s1 := s <|s_active := Some _|>).
  assert (forall o, match o with Ok p => pl_result p = None | Err _ => True end -> s_polled clock s s1 o) as Hp.
  { intros o Ho. unfold s_polled, s1. destruct Hs. split_and!; try done.
    - constructor; try done. cbn. intros ? [= <-]. cbn. by apply so_guard0.
    - destruct o as [[o [r|] c]|e]; [done|right..]; by exists a, (a <|ss_compact_guard := guard|>). }
  destruct frame as [f|e]; [|by apply Hp]. s_steps; [by apply Hp|].
  eapply s_kept_note_age_state; [by apply (Hp (Ok progress))|]. intros s2 K2. s_steps. eapply s_polled_kept; [by apply Hp|done].
Qed.

Lemma wp_poll_core clock m s w :
  subscriber_ok s -> step_wp (s_poll_core clock m) (s, w) (fun x o => s_polled clock s x.1 o).
Proof.
  intros Hs. unfold s_poll_core. wp_split. apply wp_complete; [intros Q HQ; by apply wp_push_core|done|].
  intros s1 [[[[g q] payload]|]|e] K1; [|s_steps; s_fails|s_fails]. s_steps.
  destruct (result_decode payload) as [decoded|e]; [|s_fails]. s_steps; [s_fails|]. cbv zeta.
  set (r := with_cached_geometry _ _). set (age := _ - _). apply wp_if; intros Hage.
  { wp_split. apply wp_s_set. cbv beta iota. wp_split. eapply s_kept_note_age_state.
    { destruct K1 as ([] & _). by constructor. }
    intros s2 K2. s_steps. apply s_kept_polled; [|done]. eapply s_kept_trans; [exact K1|].
    eapply s_kept_trans; [|exact K2]. destruct K1 as ([] & _). by split; [constructor|]. }
  wp_split. apply wp_active_session; [intros e; s_fails|]. intros a Ha. s_steps.
  destruct (validate_result _ r) as [[]|e] eqn:Hv; [|s_fails]. s_steps.
  destruct (result_guard_accept r (ss_result_guard a)) as [guard accepted] eqn:Hg. s_steps.
  set (s2 := s1 <|s_active := Some _|>). pose proof K1 as ([] & Ha1 & Hf1 & Hp1 & Hc1). assert (so_guard0 := so_guard0 _ Ha).
  destruct accepted as [missing|e].
  - apply result_guard_accepts in Hg as (Hview & Hlast & Hview' & Hlast'). s_steps.
    assert (subscriber_ok s2) as Hs2.
    { constructor; cbn; try done. intros ? [= <-]. cbn. by rewrite Hview'. }
    assert (forall s', s_kept s2 s' -> s_polled clock s1 s' (Ok (mkPolled ReceiveProgress (Some r) None))) as Hd.
    { intros s' (Hok & Ha' & Hf' & Hp' & Hc'). split_and!; [done..|].
      exists a, (a <|ss_result_guard := guard|>). split; [done|]. split; [done|].
      rewrite so_guard0 in Hview. injection Hview as Hid Hgen. split_and!; try done.
      by apply N.ltb_ge in Hage. }
    apply wp_count_dropped; [by destruct Hs2; constructor|]. intros s4 K4. s_steps.
    eapply s_kept_note_age_state; [by eapply s_kept_ok|]. intros s5 K5. s_steps.
    eapply s_kept_polled_trans; [exact K1|]. apply Hd. eapply s_kept_trans; [|exact K5]. eapply s_kept_trans; [|exact K4].
    destruct Hs2. by split; [constructor|].
  - apply result_guard_refuses in Hg as (Hview & Hlast). eapply s_kept_polled_trans; [exact K1|].
    split_and!; try done.
    + constructor; cbn; try done. intros ? [= <-]. cbn. by rewrite Hview.
    + right. by exists a, (a <|ss_result_guard := guard|>).
Qed.

Lemma wp_poll_geometry clock m s w :
  subscriber_ok s -> step_wp (s_poll_geometry m) (s, w) (fun x o => s_polled clock s x.1 o).
Proof.
  intros Hs. unfold s_poll_geometry. wp_split.
  apply wp_complete; [intros Q HQ; by apply wp_push_geometry|done|].
  intros s1 [[[[g q] payload]|]|e] K1; [|s_steps; s_fails|s_fails]. s_steps.
  destruct (result_decode payload) as [r|e]; [|s_fails]. s_steps. apply wp_active_session; [intros e; s_fails|].
  intros a Ha. s_steps; [s_fails|]. destruct (validate_result _ r) as [[]|e]; [|s_fails]. s_steps.
  apply s_kept_polled; [|done]. eapply s_kept_trans; [exact K1|]. destruct K1 as ([] & _).
  by split; [constructor|].
Qed.

Lemma wp_poll_realtime_inner clock frames now s w :
  subscriber_ok s ->
  step_wp (poll_realtime_inner clock frames now) (s, w) (fun x o => s_polled clock s x.1 o).
Proof.
  intros Hs. unfold poll_realtime_inner. wp_split. apply wp_receive_message; [done|].
  intros s1 w1 [[m|]|e] K1; [|s_steps; s_fails|s_fails]. wp_split.
  assert (forall Q : _ -> _ -> Prop, (forall s' r, s_kept s s' -> Q (s', w1) r) ->
    step_wp (if rx_flow m =? COMPACT_RIG_FLOW then
               active ← s_active_session;
               note_received_frame now (lp_target_fps (layout_proposal (ss_layout active)))
             else mret ()) (s1, w1) Q) as Hnote.
  { intros Q HQ. apply wp_if; intros _; [|by apply wp_ret, HQ]. wp_split.
    apply wp_active_session; [intros e; by apply HQ|]. intros a Ha.
    apply wp_note_received_frame; [by eauto|]. intros s2 r K2. apply HQ. by eauto. }
  apply Hnote. intros s2 [_|e] K2; [|s_fails]. s_steps. apply wp_if; intros _.
  { wp_split. apply wp_count_dropped; [by eauto|]. intros s3 K3. s_steps. s_fails. }
  s_steps. apply wp_active_session; [intros e; s_fails|]. intros a Ha. apply wp_if; intros _.
  { wp_split. apply wp_count_dropped; [by eauto|]. intros s3 K3. s_steps. s_fails. }
  assert (forall m' : sstep Polled, step_wp m' (s2, w1) (fun x o => s_polled clock s2 x.1 o) ->
            step_wp m' (s2, w1) (fun x o => s_polled clock s x.1 o)) as Ht.
  { intros m' Hm. eapply step_wp_mono; [exact Hm|]. cbv beta. by eauto. }
  apply wp_if; intros _; [apply Ht, wp_poll_compact; by eauto|].
  apply wp_if; intros _; [apply Ht, wp_poll_core; by eauto|].
  apply wp_if; intros _; [apply Ht, wp_poll_geometry; by eauto|]. s_steps. s_fails.
Qed.

(** The fuse: a count of the violations, which trips at the configured number. *)
Definition violates (o : result BindingError Polled) : bool :=
  match o with Err e => is_protocol_violation e | Ok _ => false end.
Definition fuse_ok s : Prop :=
  s_fused s = (max_protocol_violations (s_config s) <=? s_protocol_violations s)
  /\ s_protocol_violations s <= max_protocol_violations (s_config s).

Lemma note_violation_fuse s :
  subscriber_ok s -> fuse_ok s -> s_fused s = false -> max_protocol_violations (s_config s) <= u16_max ->
  subscriber_ok (note_violation s) /\ fuse_ok (note_violation s)
  /\ s_protocol_violations (note_violation s) = s_protocol_violations s + 1
  /\ s_active (note_violation s) = s_active s /\ s_pending (note_violation s) = s_pending s
  /\ s_config (note_violation s) = s_config s.
Proof.
  intros [] [Hf Hle] Hn Hmax. rewrite Hn in Hf. symmetry in Hf. apply N.leb_gt in Hf.
  unfold note_violation, fuse_ok. cbv zeta.
  assert (sat_add u16_max (s_protocol_violations s) 1 = s_protocol_violations s + 1) as E
    by (unfold sat_add; lia).
  cbn. rewrite E.
  destruct (max_protocol_violations (s_config s) <=? s_protocol_violations s + 1) eqn:Ht; cbn; rewrite ?E, ?Ht;
    (split; [by constructor|]); split_and!; try done; lia.
Qed.

(** A poll from a sane state. *)
Lemma wp_poll_realtime clock frames now s w :
  subscriber_ok s -> fuse_ok s -> max_protocol_violations (s_config s) <= u16_max ->
  step_wp (s_poll_realtime clock frames now) (s, w) (fun x o =>
    if s_fused s then x.1 = s /\ o = Err ChannelFused
    else subscriber_ok x.1 /\ fuse_ok x.1 /\ s_pending x.1 = s_pending s /\ s_config x.1 = s_config s
         /\ s_protocol_violations x.1 = s_protocol_violations s + (if violates o then 1 else 0)
         /\ exists s1, s_active s1 = s_active x.1 /\ s_polled clock s s1 o).
Proof.
  intros Hs Hf Hmax. unfold s_poll_realtime, step_wp. cbn [fst]. destruct (s_fused s) eqn:Hn; [done|].
  pose proof (wp_poll_realtime_inner clock frames now s w Hs) as Hp. unfold step_wp in Hp.
  destruct (poll_realtime_inner clock frames now (s, w)) as [[[s1 w1] o]|]; [|done]. cbn in *.
  pose proof Hp as (Hok & Hfuse & Hpend & Hc & _). unfold s_fuse in Hfuse. injection Hfuse as Hf1 Hv1.
  assert (fuse_ok s1) as Hf' by (unfold fuse_ok in *; by rewrite Hf1, Hv1, Hc).
  destruct o as [p|e]; cbn [violates].
  - cbn [fst]. split_and!; try done; [lia|]. by exists s1.
  - destruct (is_protocol_violation e); cbn [fst].
    + destruct (note_violation_fuse s1) as (? & ? & ? & Ha & ? & ?); [done|done|congruence|by rewrite Hc|].
      split_and!; try congruence; try done. by exists s1.
    + cbn [fst]. split_and!; try done; [lia|]. by exists s1.
Qed.

(** ** Control *)

(** The results accepted last under the active session. *)
Definition last_delivered s : option N := a ← s_active s; result_guard_last (ss_result_guard a).
(** What control does: it keeps the session, or starts one. *)
Definition s_moved s s' : Prop :=
  subscriber_ok s' /\ s_fuse s' = s_fuse s /\ s_config s' = s_config s
  /\ (s_active s' = s_active s \/ last_delivered s' = None).
Lemma s_kept_moved s s' : s_kept s s' -> s_moved s s'.
Proof. intros (?&?&?&?&?). split_and!; auto. Qed.
Lemma s_moved_trans s1 s2 s3 : s_moved s1 s2 -> s_moved s2 s3 -> s_moved s1 s3.
Proof.
  intros (? & Hf & Hc & Ha) (? & Hf' & Hc' & Ha'). split_and!; [done|congruence..|].
  destruct Ha' as [Ha'|?]; [|by right]. unfold last_delivered in *. rewrite Ha'. naive_solver.
Qed.
Lemma s_moved_ok s s' : s_moved s s' -> subscriber_ok s'.
Proof. by intros []. Qed.
Lemma s_moved_kept s1 s2 s3 : s_moved s1 s2 -> s_kept s2 s3 -> s_moved s1 s3.
Proof. intros. by eapply s_moved_trans, s_kept_moved. Qed.
Hint Resolve s_kept_moved s_moved_ok s_moved_trans s_moved_kept : core.

Lemma wp_s_note_reconfigure now s w (Q : _ -> _ -> Prop) :
  subscriber_ok s -> (forall s' r, s_kept s s' -> Q (s', w) r) -> step_wp (s_note_reconfigure now) (s, w) Q.
Proof.
  intros Hs HQ. unfold s_note_reconfigure. s_steps.
  destruct (note_reconfigure _ _ _) as [times admitted] eqn:Hn. s_steps.
  apply note_reconfigure_length in Hn; [|apply Hs].
  apply wp_if; intros _; [apply wp_ret|unfold s_count_rate_limited; s_steps]; apply HQ; s_keep.
Qed.

Lemma wp_receive_proposal p now1 now s w (Q : _ -> _ -> Prop) :
  subscriber_ok s -> (forall s' r, s_moved s s' -> Q (s', w) r) ->
  step_wp (s_receive_proposal p now1 now) (s, w) Q.
Proof.
  intros Hs HQ. unfold s_receive_proposal. s_steps; [by eauto|].
  assert (forall Q : _ -> _ -> Prop, (forall s' r, s_kept s s' -> Q (s', w) r) ->
    step_wp (if bool_decide (is_Some (s_active s)) then s_note_reconfigure now else mret ()) (s, w) Q) as Hr.
  { intros Q' HQ'. apply wp_if; intros _; [by apply wp_s_note_reconfigure|]. by apply wp_ret, HQ', s_kept_refl. }
  apply Hr. intros s1 [_|e] K1; [|by eauto]. s_steps; [by eauto|].
  destruct (negotiator_receive_proposal _ _ _ _ _) as [n accept]. s_steps.
  set (s2 := s1 <|s_negotiator := n|>).
  assert (s_kept s1 s2) as K2 by (destruct K1 as ([] & _); split; [by constructor|done]).
  destruct accept as [accept|e]; [|by eauto 6]. s_steps. apply wp_s_kept_queue; [by eauto|].
  intros s3 [_|e] K3; [|by eauto 6]. s_steps. apply HQ.
  assert (s_moved s s3) as ([] & Hf & Hc & Ha) by eauto 6.
  split_and!; try done; by constructor.
Qed.

Lemma wp_receive_confirm c s w (Q : _ -> _ -> Prop) :
  subscriber_ok s -> (forall s' r, s_moved s s' -> Q (s', w) r) ->
  step_wp (s_receive_confirm c) (s, w) Q.
Proof.
  intros Hs HQ. unfold s_receive_confirm. s_steps. set (s1 := s <|s_pending := None|>).
  assert (s_moved s s1) as K1 by (destruct Hs; split_and!; [by constructor|done..|by left]).
  destruct (s_pending s) as [p|]; cbn [ok_or]; [|by eauto]. s_steps.
  destruct (negotiator_confirm _ _) as [n layout]. s_steps. set (s2 := s1 <|s_negotiator := n|>).
  assert (s_moved s s2) as K2 by (destruct Hs; split_and!; [by constructor|done..|by left]).
  destruct layout as [layout|e]; [|by eauto]. s_steps.
  destruct (guard_confirmed _ _ _ _ _) as [guard|e]; [|by eauto]. s_steps. set (s3 := s2 <|s_active := _|> <|_ := _|> <|_ := _|> <|_ := _|> <|_ := _|>).
  assert (s_moved s s3) as K3.
  { destruct Hs. split_and!; [|done..|right; apply result_guard_last_new]. constructor; cbn; try done.
    - apply reassembler_new_sane.
    - apply reassembler_new_sane.
    - intros ? [= <-]. apply result_guard_view_new. }
  apply wp_s_kept_queue; [by eauto|]. intros s4 [_|e] K4; s_steps; eauto.
Qed.

Lemma wp_s_handle now1 now m s w (Q : _ -> _ -> Prop) :
  subscriber_ok s -> (forall s' r, s_moved s s' -> Q (s', w) r) -> step_wp (s_handle now1 now m) (s, w) Q.
Proof.
  intros Hs HQ. assert (s_moved s s) as Hm by eauto.
  destruct m; cbn [s_handle]; try (s_steps; by apply HQ).
  - s_steps. destruct (validate_hello _ _); [|by apply HQ]. s_steps. apply HQ, s_kept_moved. s_keep.
  - by apply wp_receive_proposal.
  - by apply wp_receive_confirm.
  - s_steps. destruct (note_pong _ _ _ _); [|by apply HQ]. s_steps. apply HQ, s_kept_moved. s_keep.
Qed.
Lemma wp_s_poll_control now1 now s w :
  subscriber_ok s -> step_wp (s_poll_control now1 now) (s, w) (fun x _ => s_moved s x.1).
Proof.
  intros Hs. unfold s_poll_control. s_steps. apply wp_s_kept_flush; [done|]. intros s1 w1 [_|e] K1; [|by eauto].
  s_steps. apply wp_s_receive_control. intros w2 [[m|]|e] _; [|by s_steps; eauto..]. s_steps.
  apply wp_s_handle; [by eauto|]. intros s2 [ev|e] K2; [|by eauto]. s_steps.
  apply wp_s_kept_flush; [by eauto|]. intros s3 w3 [_|e] K3; s_steps; eauto.
Qed.
Lemma wp_s_send m s w :
  subscriber_ok s -> step_wp (s_send m) (s, w) (fun x _ => s_moved s x.1).
Proof.
  intros Hs. unfold s_send. s_steps. apply wp_s_kept_queue; [done|]. intros s1 [_|e] K1; [|by eauto].
  apply wp_s_kept_flush; by eauto.
Qed.
Lemma wp_require_active (m : NtpControlMessage) s w :
  subscriber_ok s -> step_wp (s_require_active;; s_send m) (s, w) (fun x _ => s_moved s x.1).
Proof. intros Hs. unfold s_require_active. s_steps; [by eauto|by apply wp_s_send]. Qed.
Lemma wp_s_ping now s w :
  subscriber_ok s -> step_wp (s_try_send_ping now) (s, w) (fun x _ => s_moved s x.1).
Proof.
  intros Hs. unfold s_try_send_ping. s_steps.
  set (s1 := s <|s_clock := _|>). assert (s_kept s s1) as K1 by s_keep.
  eapply step_wp_mono; [apply wp_s_send; by eauto|]. intros [s2 w2] r K2. by eauto.
Qed.

(** A reset clears the fuse; when no negotiator can be made it keeps the rest. *)
Lemma wp_s_reset c a now1 now2 s w :
  subscriber_ok s -> step_wp (s_reset_for_reconnect c a now1 now2) (s, w) (fun x o =>
    s_config x.1 = s_config s
    /\ match o with
       | Ok _ => subscriber_ok x.1 /\ s_active x.1 = None /\ s_fuse x.1 = (false, 0)
       | Err _ => s_moved s x.1
       end).
Proof.
  intros Hs. unfold s_reset_for_reconnect. s_steps.
  destruct (validate_connection_authorization _ _ _); [|split; [done|by eauto]]. s_steps; [split; [done|by eauto]|].
  destruct negotiator_new as [n|e]; cbn.
  - split; [done|]. destruct Hs. split_and!; try done. constructor; cbn; try done; try lia.
    + by split; [cbn; lia|].
    + apply reassembler_new_sane.
    + apply reassembler_new_sane.
  - split; [done|]. apply s_kept_moved. destruct Hs. by split; [constructor|].
Qed.

(** ** The life of a subscriber *)

Inductive SubscriberCall :=
| SCallHello
| SCallCommand (command : SessionCommand)
| SCallGeometry
| SCallPing (receiver_now_ns : N)
| SCallReport
| SCallPollControl (receiver_now_ns now : N)
| SCallPollRealtime (clock : ProducerClockEstimate) (frames : nat -> N) (now : N)
| SCallReset (connection : C) (authorization : NtpAuthorization) (now1 now2 : N).
Definition subscriber_call (c : SubscriberCall) : sstep (option Polled) :=
  match c with
  | SCallHello => s_try_send_hello;; mret None
  | SCallCommand command => s_try_send_command command;; mret None
  | SCallGeometry => s_try_request_geometry;; mret None
  | SCallPing now => s_try_send_ping now;; mret None
  | SCallReport => s_try_send_receiver_report;; mret None
  | SCallPollControl now1 now => s_poll_control now1 now;; mret None
  | SCallPollRealtime clock frames now => p ← s_poll_realtime clock frames now; mret (Some p)
  | SCallReset c a now1 now2 => s_reset_for_reconnect c a now1 now2;; mret None
  end.

(** What a call delivers, and the violations on record after it. *)
Definition delivery (c : SubscriberCall) (o : result BindingError (option Polled))
    : list (ProducerClockEstimate * NanaTrackingResult) :=
  match c, o with
  | SCallPollRealtime clock _ _, Ok (Some p) => match pl_result p with Some r => [(clock, r)] | None => [] end
  | _, _ => []
  end.
Definition violations (c : SubscriberCall) (o : result BindingError (option Polled)) (v : N) : N :=
  match c, o with
  | SCallPollRealtime _ _ _, Err e => if is_protocol_violation e then v + 1 else v
  | SCallReset _ _ _ _, Ok _ => 0
  | _, _ => v
  end.

(** The subscribers reachable by calls, each in any state of the connection,
    with what was delivered since the session became active, in order, and the
    violations that polls reported since the last reset; the limit of these is
    a [u16]. *)
Inductive subscribes :
    NtpSubscriber C -> list (ProducerClockEstimate * NanaTrackingResult) -> N -> Prop :=
| subscribes_new c a config now1 now2 w s :
    max_protocol_violations config <= u16_max ->
    subscriber_new c a config now1 now2 w = Ok s -> subscribes s [] 0
| subscribes_call s got v c w s' w' o :
    subscribes s got v -> subscriber_call c (s, w) = Some (s', w', o) ->
    subscribes s' (match last_delivered s' with None => [] | Some _ => got ++ delivery c o end)
      (violations c o v).

Definition of_session (a : SubscriberSession) config (d : ProducerClockEstimate * NanaTrackingResult) : Prop :=
  nr_session_id d.2 = ss_session_id a /\ nr_generation d.2 = ss_generation a
  /\ validate_result (ss_descriptor a) d.2 = Ok ()
  /\ clock_now_ns d.1 - nr_capture_timestamp_ns d.2
       <= sat_add u64_max (max_result_age_ns config) (clock_uncertainty_ns d.1).
Definition delivery_lt (d1 d2 : ProducerClockEstimate * NanaTrackingResult) : Prop :=
  nr_sequence d1.2 < nr_sequence d2.2.
(** What was delivered is of the active session and in order. *)
Definition received_ok s (got : list (ProducerClockEstimate * NanaTrackingResult)) : Prop :=
  StronglySorted delivery_lt got
  /\ Forall (fun d => exists a q, s_active s = Some a /\ of_session a (s_config s) d
        /\ result_guard_last (ss_result_guard a) = Some q /\ nr_sequence d.2 <= q) got.
Definition life_ok s got v : Prop :=
  subscriber_ok s /\ received_ok s got /\ fuse_ok s /\ s_protocol_violations s = v
  /\ 0 < max_protocol_violations (s_config s) <= u16_max.

Lemma delivery_sorted_snoc got d :
  StronglySorted delivery_lt got -> Forall (fun x => delivery_lt x d) got ->
  StronglySorted delivery_lt (got ++ [d]).
Proof.
  induction 1 as [|x got Hs IH Hx]; cbn; [by repeat constructor|].
  intros [Hd Hf]%Forall_cons. constructor; [by apply IH|]. apply Forall_app. split; [done|by constructor].
Qed.
Lemma last_delivered_active s a : s_active s = Some a -> last_delivered s = result_guard_last (ss_result_guard a).
Proof. unfold last_delivered. by intros ->. Qed.

Lemma received_none s : received_ok s [].
Proof. by split; constructor. Qed.
Lemma received_moved s s' got :
  received_ok s got -> s_config s' = s_config s -> s_active s' = s_active s \/ last_delivered s' = None ->
  received_ok s' (match last_delivered s' with None => [] | Some _ => got end).
Proof.
  intros [Hs Hf] Hc [Ha| ->]; [|apply received_none]. destruct (last_delivered s'); [|apply received_none].
  split; [done|]. by rewrite Ha, Hc.
Qed.
Lemma of_session_same a a' config d : s_session a' = s_session a -> of_session a config d -> of_session a' config d.
Proof. unfold s_session, of_session. intros [= -> -> -> _ _]. done. Qed.
Lemma received_guard s s' a a' got :
  received_ok s got -> s_config s' = s_config s -> s_active s = Some a -> s_active s' = Some a' ->
  guard_same a a' -> received_ok s' (match last_delivered s' with None => [] | Some _ => got end).
Proof.
  intros [Hs Hf] Hc Ha Ha' (Hsame & _ & Hl). destruct (last_delivered s'); [|apply received_none].
  split; [done|]. eapply Forall_impl; [exact Hf|]. intros d (b & q & Hb & Hd & Hq). cbv beta.
  assert (b = a) as -> by congruence. exists a', q. rewrite Hc, Hl. split; [done|].
  split; [by eapply of_session_same|done].
Qed.
Lemma received_delivered clock s s' a a' got r :
  received_ok s got -> s_config s' = s_config s -> s_active s = Some a -> s_active s' = Some a' ->
  delivered clock (s_config s) a a' r ->
  received_ok s' (match last_delivered s' with None => [] | Some _ => got ++ [(clock, r)] end).
Proof.
  intros [Hs Hf] Hc Ha Ha' (Hsame & Hid & Hg & Hv & Hage & Hlt & Hl).
  rewrite (last_delivered_active _ _ Ha'), Hl.
  assert (Forall (fun x => delivery_lt x (clock, r)) got) as Hx.
  { eapply Forall_impl; [exact Hf|]. intros d (b & q & Hb & _ & Hq & Hle). assert (b = a) as -> by congruence.
    apply Hlt in Hq. unfold delivery_lt. cbn. lia. }
  split; [by apply delivery_sorted_snoc|]. apply Forall_app. rewrite Ha', Hc. split; [|constructor; [|constructor]].
  - rewrite Forall_forall in *. intros d Hd. destruct (Hf _ Hd) as (b & q & Hb & Hod & _).
    assert (b = a) as -> by congruence. exists a', (nr_sequence r). split; [done|].
    split; [by eapply of_session_same|]. split; [done|]. specialize (Hx _ Hd). unfold delivery_lt in Hx. cbn in Hx. lia.
  - exists a', (nr_sequence r). split; [done|]. split; [by eapply of_session_same|]. by split.
Qed.
Lemma received_ext s s' got : s_active s' = s_active s -> s_config s' = s_config s ->
  received_ok s' got -> received_ok s got.
Proof. unfold received_ok. by intros -> ->. Qed.

Lemma life_moved s s' got v : life_ok s got v -> s_moved s s' ->
  life_ok s' (match last_delivered s' with None => [] | Some _ => got ++ [] end) v.
Proof.
  intros (_ & Hr & Hf & Hv & Hmax) (Hok & Hfuse & Hc & Ha). rewrite app_nil_r.
  unfold s_fuse in Hfuse. injection Hfuse as Hf1 Hv1. unfold life_ok, fuse_ok in *. rewrite Hf1, Hv1, Hc.
  split; [done|]. split; [by apply (received_moved s)|done].
Qed.

Lemma subscriber_call_moves {A} (m : sstep A) s w got v :
  life_ok s got v -> step_wp m (s, w) (fun x _ => s_moved s x.1) ->
  step_wp (m;; mret None : sstep (option Polled)) (s, w) (fun x o => match o with Ok (Some _) => False | _ =>
    life_ok x.1 (match last_delivered x.1 with None => [] | Some _ => got ++ [] end) v end).
Proof.
  intros Hl Hm. apply wp_bind. eapply step_wp_mono; [exact Hm|].
  intros x [u|e] Hx; by eapply life_moved.
Qed.

Lemma life_polled clock frames now s w got v :
  life_ok s got v ->
  step_wp (s_poll_realtime clock frames now) (s, w) (fun x o => 
    let o' := p ← o; Ok (Some p) in
    life_ok x.1 (match last_delivered x.1 with
                 | None => []
                 | Some _ => got ++ delivery (SCallPollRealtime clock frames now) o'
                 end) (violations (SCallPollRealtime clock frames now) o' v)).
Proof.
  intros (Hs & Hr & Hf & Hv & Hmax). eapply step_wp_mono; [by apply wp_poll_realtime; try lia|].
  intros [s' w'] o Hx. cbn [fst] in *. destruct (s_fused s) eqn:Hfused.
  { destruct Hx as [-> ->]. cbn. apply (life_moved s s got v); [done|by eauto]. }
  destruct Hx as (Hok & Hf' & _ & Hc & Hv' & s1 & Ha1 & _ & _ & _ & Hc1 & Hpoll).
  assert (received_ok s' (match last_delivered s' with None => [] | Some _ =>
    got ++ delivery (SCallPollRealtime clock frames now) (p ← o; Ok (Some p)) end)) as Hrec.
  { assert (s_active s' = s_active s \/ (exists a a', s_active s = Some a /\ s_active s' = Some a' /\ guard_same a a') ->
      received_ok s' (match last_delivered s' with None => [] | Some _ => got ++ [] end)) as Hno.
    { rewrite app_nil_r. intros [Ha|(a & a' & Ha & Ha' & Hg)];
        [apply (received_moved s); auto|by apply (received_guard s _ a a')]. }
    destruct o as [[o [r|] f]|e]; cbn; rewrite <- ?Ha1 in *; [|by apply Hno..].
    destruct Hpoll as (a & a' & Ha & Ha' & Hd). rewrite Ha1 in Ha'. by apply (received_delivered clock s _ a a'). }
  split; [done|]. split; [done|]. split; [done|]. rewrite Hc. split; [|done].
  rewrite Hv', Hv. destruct o as [p|e]; cbn; [lia|]. destruct (is_protocol_violation e); lia.
Qed.

Lemma subscriber_call_life c s w got v :
  life_ok s got v ->
  step_wp (subscriber_call c) (s, w) (fun x o =>
    life_ok x.1 (match last_delivered x.1 with None => [] | Some _ => got ++ delivery c o end)
      (violations c o v)).
Proof.
  intros Hl. pose proof Hl as (Hs & _).
  assert (forall A (m : sstep A), (forall o, delivery c o = [] \/ exists p, o = Ok (Some p)) ->
    (forall o, violations c o v = v) -> step_wp m (s, w) (fun x _ => s_moved s x.1) ->
    step_wp (m;; mret None : sstep (option Polled)) (s, w) (fun x o =>
      life_ok x.1 (match last_delivered x.1 with None => [] | Some _ => got ++ delivery c o end)
        (violations c o v))) as Hother.
  { intros A m Hd Hv Hm. eapply step_wp_mono; [by apply (subscriber_call_moves m s w got v)|].
    intros x o Hx. rewrite Hv. destruct o as [[p|]|e]; [done|..].
    - destruct (Hd (Ok None)) as [->|[? ?]]; done.
    - destruct (Hd (Err e)) as [->|[? ?]]; done. }
  destruct c; cbn [subscriber_call]; try (apply Hother; [by left|done|]).
  - unfold s_try_send_hello. s_steps. by apply wp_s_send.
  - by apply wp_require_active.
  - by apply wp_require_active.
  - by apply wp_s_ping.
  - unfold s_try_send_receiver_report. s_steps. by apply wp_s_send.
  - by apply wp_s_poll_control.
  - apply wp_bind. eapply step_wp_mono; [by apply life_polled|]. by intros x [p|e].
  - apply wp_bind. eapply step_wp_mono; [by apply wp_s_reset|]. intros [s' w'] [u|e] Hx; cbn in *.
    + destruct Hx as (Hc & Hok & Ha & Hf). unfold s_fuse in Hf. injection Hf as Hf Hv.
      destruct Hl as (_ & _ & _ & _ & Hmax). unfold life_ok, fuse_ok, last_delivered. rewrite Ha, Hf, Hv, Hc.
      split; [done|]. split; [apply received_none|]. split_and!; try done; try lia.
      symmetry. apply N.leb_gt. lia.
    + destruct Hx as [_ Hx]. by apply (life_moved s).
Qed.

Lemma subscribes_ok s got v : subscribes s got v -> life_ok s got v.
Proof.
  induction 1 as [c a config now1 now2 w s Hmax Hn|s got v c w s' w' o _ IH Hc].
  - pose proof (subscriber_new_ok _ _ _ _ _ _ _ Hn) as Hok. unfold subscriber_new in Hn. inv_ok.
    rename select (binding_config_validate _ = _) into Hv. unfold binding_config_validate in Hv. inv_ok. guards.
    split; [done|]. split; [apply received_none|]. split; [|cbn; lia].
    unfold fuse_ok. cbn. split; [symmetry; apply N.leb_gt|]; lia.
  - pose proof (subscriber_call_life c s w got v IH) as Hx. unfold step_wp in Hx. by rewrite Hc in Hx.
Qed.
End facts.

(** C16: Whatever is asked of a subscriber and whatever its connection
    delivers, no call panics or loops and its invariant holds; and the results
    it has delivered since its session became active belong to that session and
    its generation, were accepted by its descriptor, were no older at delivery
    than the configured age and the clock's uncertainty allow, and have strictly
    increasing sequence numbers. *)
Theorem subscriber_delivery_sound `{NanaGuardLaws} {C W} `{Connection C W} `{RealtimeConnection C W}
    (s : NtpSubscriber C) got v :
  subscribes s got v ->
  subscriber_ok s
  /\ StronglySorted (fun d1 d2 => nr_sequence d1.2 < nr_sequence d2.2) got
  /\ Forall (fun d => exists a, s_active s = Some a
        /\ nr_session_id d.2 = ss_session_id a /\ nr_generation d.2 = ss_generation a
        /\ validate_result (ss_descriptor a) d.2 = Ok ()
        /\ clock_now_ns d.1 - nr_capture_timestamp_ns d.2
             <= sat_add u64_max (max_result_age_ns (s_config s)) (clock_uncertainty_ns d.1)) got
  /\ forall c (w : W), exists x, subscriber_call c (s, w) = Some x.
Proof.
  intros Hs%subscribes_ok. pose proof Hs as (Hok & [Hsort Hf] & _). split_and!; [done..| |].
  - eapply Forall_impl; [exact Hf|]. intros d (a & q & Ha & Hd & _). by exists a.
  - intros c w. apply (subscriber_call_life c s w) in Hs. unfold step_wp in Hs.
    destruct (subscriber_call c (s, w)); [by eexists|done].
Qed.

(** The fuse bounds what malformed frames can cost.  Since the subscriber
    was made or reset, its polls have reported at most the configured number of
    protocol violations; the channel is fused exactly when that number is
    reached, and a poll of a fused channel is refused without looking at the
    connection or changing anything. *)
Theorem subscriber_fuse `{NanaGuardLaws} {C W} `{Connection C W} `{RealtimeConnection C W}
    (s : NtpSubscriber C) got v :
  subscribes s got v ->
  v <= max_protocol_violations (s_config s)
  /\ s_fused s = (max_protocol_violations (s_config s) <=? v)
  /\ forall clock frames now (w : W), s_fused s = true ->
       s_poll_realtime clock frames now (s, w) = Some ((s, w), Err ChannelFused).
Proof.
  intros (_ & _ & [Hf Hv] & <- & _)%subscribes_ok. split_and!; [done..|].
  intros clock frames now w Hfused. unfold s_poll_realtime. cbn [fst]. by rewrite Hfused.
Qed.
