(* ===== verification/NtpAgreement.v ===== *)
(** * Publisher and subscriber agree on the session

    The two ends of a connection whose control lanes keep what they accept,
    their calls interleaving in any way: the negotiation messages in flight tell the phase of the negotiation, and
    in each phase the sessions of the two ends agree. *)

From S2P Require Export NtpPublisherFacts NtpSubscriberFacts TransportFacts.
Local Open Scope N_scope.

(** ** Control messages in flight *)

Section wires.
Context `{NanaWireLaws}.

Lemma decode_encoded m wire m' :
  ntp_encode m = Ok wire -> ntp_decode wire = Ok m' ->
  exists payload, ntp_payload m = Ok payload /\ rn_message (ntp_kind m) payload = Ok (m', [])
    /\ message_wf m' /\ ntp_kind m' = ntp_kind m.
Proof.
  unfold ntp_encode, writer_finish, ntp_decode. intros He Hd.
  destruct (ntp_payload m) as [payload|] eqn:Hp; cbn [mbind result_bind] in He; [|done]. exists payload.
  apply result_bind_ok in He as (? & _ & He). injection He as <-. destruct (reader_framed _) as [[kind bytes]|] eqn:Hf; cbn [mbind result_bind] in Hd; [|done].
  pose proof Hf as (_ & _ & Hmax)%framed_written.
  rewrite framed_read in Hf; [|apply ntp_kind_bound|].
  2:{ revert Hmax. unfold writer_frame. rewrite !length_app, !be_bytes_length. unfold NTP_HEADER_LEN. cbn. lia. }
  injection Hf as <- <-. destruct (rn_message _ payload) as [[m1 rest]|] eqn:Hr; cbn in Hd; [|done].
  case_bool_decide; [|done]. injection Hd as ->. subst rest. split; [done|]. split; [done|].
  by apply ntp_payload_written in Hr as (bs & _ & _ & Hm & Hk).
Qed.
Lemma decode_encoded_wf m wire m' :
  ntp_encode m = Ok wire -> ntp_decode wire = Ok m' -> message_wf m -> m' = m.
Proof.
  intros He Hd Hm. destruct (decode_encoded _ _ _ He Hd) as (payload & Hp & Hr & _).
  apply (ntp_payload_read _ _ []) in Hp; [|done]. rewrite app_nil_r in Hp. congruence.
Qed.

(** The widths of a proposal's fields; its layout's revisions are not sent. *)
Definition proposal_fits (p : SessionProposal) : Prop :=
  sp_generation p <= u32_max /\ sp_layout_id p <= u32_max
  /\ lp_base_layout_version (sp_layout p) <= u16_max /\ lp_target_fps (sp_layout p) <= u16_max
  /\ topology_wf (sp_topology p).
Definition as_received (p : SessionProposal) : SessionProposal :=
  p <|sp_layout ::= fun l => l <|lp_revisions := descriptor_revisions (sp_descriptor p)|>|>.

Lemma too_many_signals p bs :
  wn_proposal p = Ok bs -> proposal_fits p -> MAX_LAYOUT_SIGNALS < len (lp_extra_signals (sp_layout p)) ->
  rn_proposal bs = Err InvalidControl.
Proof.
  destruct p as [d s g i [r pr b sg v q f] t]. intros He (Hg & Hi & Hb & Hf & Ht) Hmax.
  unfold wn_proposal, rn_proposal, wn_layout, rn_layout in *. cbn in *.
  destruct (descriptor_encode d) as [db|] eqn:Hd; cbn in He; [|inv_codec].
  destruct (N.ltb_spec u16_max (len sg)); inv_codec. apply descriptor_codec in Hd. read_back.
  erewrite reader_bind_lift by done. unfold mbind at 1, reader_bind at 1. read_back. by tests.
Qed.

Lemma decode_proposal p wire m :
  ntp_encode (MSessionProposal p) = Ok wire -> ntp_decode wire = Ok m -> proposal_fits p ->
  m = MSessionProposal (as_received p).
Proof.
  intros He Hd Hp. pose proof (decode_encoded _ _ _ He Hd) as (payload & Hw & Hr & _).
  cbn [ntp_payload] in Hw. destruct (N.ltb_spec MAX_LAYOUT_SIGNALS (len (lp_extra_signals (sp_layout p)))).
  - exfalso. unfold rn_message in Hr. cbn in Hr. inv_codec. by rewrite (too_many_signals p) in Hr0.
  - apply (decode_encoded_wf _ wire); [by destruct p as [??????]|done|].
    destruct p as [d s g i [] t], Hp as (?&?&?&?&?). by split_and!.
Qed.
End wires.

(** ** Connections whose control lanes keep what they accept *)

(** The interface of a connection whose two ends are in view: [lane e] holds
    the control messages on their way to the end [e].  A control message that
    an end sends enters the lane to its peer, one that it receives leaves the
    front of its own, and no other method changes a lane. *)
Class ControlLanes (C W : Type) `{Connection C W} `{RealtimeConnection C W} := {
  lane_local : C -> pair_end;
  lane_remote : C -> pair_end;
  lane : pair_end -> W -> list (list byte);
  lanes_send_control c m w e :
    lane e (try_send_control c m w).1
    = lane e w ++ match (try_send_control c m w).2 with
                  | Ok _ => if decide (e = lane_remote c) then [m] else []
                  | Err _ => []
                  end;
  lanes_receive_control c w e :
    lane e w = match (try_receive_control c w).2 with
               | Ok (Some m) => if decide (e = lane_local c) then [m] else []
               | _ => []
               end ++ lane e (try_receive_control c w).1;
  lanes_send c m w e : lane e (try_send c m w).1 = lane e w;
  lanes_receive c w e : lane e (try_receive c w).1 = lane e w;
  lanes_send_latest c d w e : lane e (try_send_latest c d w).1 = lane e w;
  lanes_receive_realtime c w e : lane e (try_receive_realtime c w).1 = lane e w;
}.

(** The in-memory connection is one. *)
Definition memory_lane (e : pair_end) (w : MemoryPair) : list (list byte) := control (side e w).
Lemma memory_lane_set e e' s w :
  memory_lane e (set_side e' s w) = if decide (e = e') then control s else memory_lane e w.
Proof. unfold memory_lane. rewrite side_set_side. by case_decide. Qed.
Lemma memory_send_lane c m l e w :
  memory_lane e (send_to_remote c m l w).1
  = memory_lane e w ++ match (send_to_remote c m l w).2, l with
                       | Ok _, LaneControl => if decide (e = memory_remote c) then [m] else []
                       | _, _ => []
                       end.
Proof.
  destruct l; unfold send_to_remote; repeat case_match; cbn; rewrite ?app_nil_r; try done;
    rewrite memory_lane_set; case_decide; subst; rewrite ?app_nil_r; done.
Qed.
Lemma memory_receive_lane c l e w :
  memory_lane e w
  = match (receive_local c l w).2, l with
    | Ok (Some m), LaneControl => if decide (e = memory_local c) then [m] else []
    | _, _ => []
    end ++ memory_lane e (receive_local c l w).1.
Proof.
  unfold receive_local, receive_poll, receive_settle.
  destruct (aborted _); [done|]. destruct (read_closed _); [done|].
  destruct (lane_queue l _) as [|m q] eqn:Hq; cbn [pop_front]; [by destruct (write_closed _)|].
  destruct l; cbn; rewrite memory_lane_set; case_decide; subst; try done; by unfold memory_lane; cbn in *; rewrite Hq.
Qed.
#[export] Program Instance memory_lanes : ControlLanes MemoryConnection MemoryPair := {|
  lane_local := memory_local;
  lane_remote := memory_remote;
  lane := memory_lane;
|}.
Next Obligation. intros c m w e. apply (memory_send_lane c m LaneControl e w). Qed.
Next Obligation. intros c w e. apply (memory_receive_lane c LaneControl e w). Qed.
Next Obligation.
  intros c m w e. pose proof (memory_send_lane c m LaneReliable e w) as Hl.
  change (try_send c m w) with (send_to_remote c m LaneReliable w).
  destruct (send_to_remote _ _ _ _) as [w1 [|]]; by rewrite app_nil_r in Hl.
Qed.
Next Obligation.
  intros c w e. pose proof (memory_receive_lane c LaneReliable e w) as Hl.
  change (try_receive c w) with (receive_local c LaneReliable w).
  by destruct (receive_local _ _ _) as [w1 [[|]|]].
Qed.
Next Obligation. done. Qed.
Next Obligation. done. Qed.

Section lanes.
Context `{NanaProtocol} {C W : Type} `{ControlLanes C W}.
Implicit Types (c : C) (w : W).

(** The wires that a lane carries as frames of the protocol. *)
Definition framed_as (wires frames : list (list byte)) : Prop :=
  Forall2 (fun wire frame => control_frame ntp_protocol wire = Ok frame) wires frames.

Lemma lane_send_frame c m w w' r :
  control_try_send (mkControlStream ntp_protocol c) m w = (w', r) ->
  exists frames, (forall e, lane e w' = lane e w ++ if decide (e = lane_remote c) then frames else [])
    /\ match r with Ok _ => framed_as [m] frames | Err _ => frames = [] end.
Proof.
  unfold control_try_send. cbn [cs_protocol cs_connection]. destruct (control_frame _ _) as [frame|err] eqn:Hf.
  - pose proof (lanes_send_control c frame w) as Hl. destruct (try_send_control c frame w) as [w1 r1].
    cbn in Hl. intros [= <- <-]. exists (match r1 with Ok _ => [frame] | Err _ => [] end). split.
    + intros e. rewrite Hl. destruct r1; [done|by case_decide].
    + destruct r1; [by repeat constructor|done].
  - intros [= <- <-]. exists []. split; [|done]. intros e. case_decide; by rewrite app_nil_r.
Qed.
Lemma lane_flush_control c outbox w w' rest r :
  flush_control c outbox w = (w', rest, r) ->
  exists sent frames, outbox = sent ++ rest /\ framed_as sent frames
    /\ forall e, lane e w' = lane e w ++ if decide (e = lane_remote c) then frames else [].
Proof.
  assert (forall w, exists frames, framed_as [] frames
    /\ forall e, lane e w = lane e w ++ if decide (e = lane_remote c) then frames else []) as Hnone.
  { intros w0. exists []. split; [constructor|]. intros e. case_decide; by rewrite app_nil_r. }
  revert w. induction outbox as [|m outbox IH]; intros w; cbn [flush_control].
  - intros [= <- <- <-]. exists []. destruct (Hnone w) as (fs & ? & ?). by exists fs.
  - destruct (open_control_stream c ntp_protocol) as [stream|err] eqn:Ho.
    2:{ intros [= <- <- <-]. exists []. destruct (Hnone w) as (fs & ? & ?). by exists fs. }
    assert (stream = mkControlStream ntp_protocol c) as -> by (unfold open_control_stream in Ho; by inv_ok).
    destruct (control_try_send _ m w) as [w1 sent] eqn:Hs.
    apply lane_send_frame in Hs as (frames & Hl & Hs). destruct sent as [[]|err].
    + intros (sent & frames' & -> & Hfr & Hl')%IH. exists (m :: sent), (frames ++ frames').
      split; [done|]. split; [by apply (Forall2_app (l1 := [m]))|]. intros e. rewrite Hl', Hl.
      case_decide; [by rewrite <- app_assoc|by rewrite !app_nil_r].
    + subst frames. case_bool_decide; intros [= <- <- <-]; exists [], []; (split; [done|]); (split; [constructor|done]).
Qed.

(** A receive takes the first message of the lane, or none. *)
Lemma lane_receive_control c config w w' r :
  receive_control c config w = (w', r) ->
  (forall e, e <> lane_local c -> lane e w' = lane e w)
  /\ ((lane (lane_local c) w' = lane (lane_local c) w /\ forall m, r <> Ok (Some m))
      \/ exists frame, lane (lane_local c) w = frame :: lane (lane_local c) w'
           /\ forall wire, control_frame ntp_protocol wire = Ok frame ->
              forall m, r = Ok (Some m) -> ntp_decode wire = Ok m).
Proof.
  unfold receive_control. destruct (open_control_stream c ntp_protocol) as [stream|err] eqn:Ho.
  2:{ intros [= <- <-]. split; [done|]. left. by split. }
  assert (stream = mkControlStream ntp_protocol c) as -> by (unfold open_control_stream in Ho; by inv_ok).
  unfold control_try_receive. cbn [cs_protocol cs_connection].
  pose proof (lanes_receive_control c w) as Hl. destruct (try_receive_control c w) as [w1 [[frame|]|err]]; cbn in Hl.
  2, 3: cbn; try case_bool_decide; intros [= <- <-]; (split; [by intros e _; rewrite Hl|]); left; (split; [by rewrite Hl|done]).
  cbn. intros [= <- <-]. split; [by intros e He; rewrite (Hl e), decide_False|]. right. exists frame.
  split; [by rewrite (Hl (lane_local c)), decide_True|]. intros wire Hw.
  rewrite (control_frame_payload _ _ _ Hw). cbn. intros m. case_match; [|done].
  destruct (ntp_decode wire); cbn; [|done]. by intros [= ->].
Qed.

(** Fragments and reliable frames leave the control lanes alone. *)
Lemma chunks_lanes r count size index l a c w w' o e :
  send_chunks r count size index l a c w = (w', o) -> lane e w' = lane e w.
Proof.
  revert index a w. induction l as [|chunk l IH]; intros index a w; cbn; [by intros [= <- _]|].
  destruct (fragment_wire _ _ _ _ _) as [wire|]; [|by intros [= <- _]].
  match goal with |- context [try_send_latest c ?d w] => pose proof (lanes_send_latest c d w e) as Hd end.
  destruct (try_send_latest c _ w) as [w1 [[]|]]; cbn in Hd; try (by intros [= <- _]); intros Hr%IH; by rewrite Hr.
Qed.
Lemma fragmented_lanes c r w w' o : send_fragmented c r w = (w', o) -> forall e, lane e w' = lane e w.
Proof.
  unfold send_fragmented. intros Hs e. repeat case_match; try (by injection Hs as <- _). by apply (chunks_lanes _ _ _ _ _ _ _ _ _ _ e) in Hs.
Qed.

(** The wires on their way to an end: framed in its lane, or in the outbox. *)
Definition carries (e : pair_end) (outbox : list (list byte)) (w : W) (wires : list (list byte)) : Prop :=
  exists sent, framed_as sent (lane e w) /\ wires = sent ++ outbox.

Lemma carries_lane e outbox w w' wires : lane e w' = lane e w -> carries e outbox w wires -> carries e outbox w' wires.
Proof. unfold carries. by intros ->. Qed.
Lemma carries_queue e outbox w wires wire :
  carries e outbox w wires -> carries e (outbox ++ [wire]) w (wires ++ [wire]).
Proof. intros (sent & Hs & ->). exists sent. by rewrite app_assoc. Qed.
Lemma carries_flush c outbox w w' rest r wires :
  flush_control c outbox w = (w', rest, r) -> carries (lane_remote c) outbox w wires ->
  carries (lane_remote c) rest w' wires.
Proof.
  intros (sent & frames & -> & Hf & Hl)%lane_flush_control (sent0 & Hs & ->). exists (sent0 ++ sent).
  rewrite Hl, decide_True by done. split; [by apply Forall2_app|by rewrite app_assoc].
Qed.
Lemma carries_flush_other c outbox w w' rest r e o wires :
  flush_control c outbox w = (w', rest, r) -> e <> lane_remote c -> carries e o w wires -> carries e o w' wires.
Proof.
  intros (sent & frames & _ & _ & Hl)%lane_flush_control He. apply carries_lane.
  by rewrite Hl, decide_False, app_nil_r.
Qed.
Lemma carries_receive c config w w' r outbox wires :
  receive_control c config w = (w', r) -> carries (lane_local c) outbox w wires ->
  (carries (lane_local c) outbox w' wires /\ forall m, r <> Ok (Some m))
  \/ exists wire wires', wires = wire :: wires' /\ carries (lane_local c) outbox w' wires'
       /\ forall m, r = Ok (Some m) -> ntp_decode wire = Ok m.
Proof.
  intros (_ & [[Hl Hr]|(frame & Hl & Hr)])%lane_receive_control Hc.
  - left. split; [by eapply carries_lane|done].
  - right. destruct Hc as (sent & Hs & ->). rewrite Hl in Hs.
    apply Forall2_cons_inv_r in Hs as (wire & sent' & Hw & Hs & ->). exists wire, (sent' ++ outbox).
    split; [done|]. split; [by exists sent'|by apply Hr].
Qed.
End lanes.

(** ** The phases of a negotiation *)

Section agreement.
Context `{NanaWireLaws} `{!NanaGuardLaws} `{!NanaLayoutLaws}.
Context {C W : Type} `{ControlLanes C W}.
Implicit Types (s : NtpPublisher C) (u : NtpSubscriber C) (w : W).

(** What the two ends must agree on: descriptor, session, generation, topology,
    and the layout's id and hash. *)
Definition published_key (d : SessionDefinition) :=
  (sd_descriptor d, sd_session_id d, sd_generation d, sd_topology d, layout_confirmation (sd_layout d)).
Definition subscribed_key (a : SubscriberSession) :=
  (ss_descriptor a, ss_session_id a, ss_generation a, ss_topology a, layout_confirmation (ss_layout a)).

(** The negotiation message that a wire carries, if it does. *)
Definition negotiation (wire : list byte) : option NtpControlMessage :=
  match ntp_decode wire with
  | Ok ((MSessionProposal _ | MLayoutAccepted _ | MLayoutConfirmed _ | MSessionReady _ _ _) as m) => Some m
  | _ => None
  end.
Definition proposes (p : SessionProposal) (d : SessionDefinition) : Prop :=
  sp_descriptor p = sd_descriptor d /\ sp_session_id p = sd_session_id d /\ sp_generation p = sd_generation d
  /\ sp_topology p = sd_topology d /\ sp_layout_id p = layout_layout_id (sd_layout d)
  /\ sp_generation p <= u32_max /\ sp_layout_id p <= u32_max.

(** The pending and the active session of each end, and the negotiation
    messages under way to the subscriber and to the publisher. *)
Inductive phase (pending : option SessionDefinition) (accepted : bool) (active : option SessionDefinition)
    (proposal : option SessionProposal) (subscribed : option SubscriberSession) :
    list NtpControlMessage -> list NtpControlMessage -> Prop :=
| phase_idle :
    pending = None -> proposal = None -> published_key <$> active = subscribed_key <$> subscribed ->
    phase pending accepted active proposal subscribed [] []
| phase_proposed d p :
    pending = Some d -> accepted = false -> proposal = None ->
    published_key <$> active = subscribed_key <$> subscribed -> proposes p d ->
    phase pending accepted active proposal subscribed [MSessionProposal p] []
| phase_accepted d p a :
    pending = Some d -> accepted = false -> proposal = Some p ->
    published_key <$> active = subscribed_key <$> subscribed -> proposes p d ->
    phase pending accepted active proposal subscribed [] [MLayoutAccepted a]
| phase_confirmed d p :
    pending = Some d -> accepted = true -> proposal = Some p ->
    published_key <$> active = subscribed_key <$> subscribed -> proposes p d ->
    phase pending accepted active proposal subscribed [MLayoutConfirmed (layout_confirmation (sd_layout d))] []
| phase_ready d :
    pending = Some d -> accepted = true -> proposal = None ->
    published_key <$> Some d = subscribed_key <$> subscribed ->
    phase pending accepted active proposal subscribed []
      [MSessionReady (sd_session_id d) (sd_generation d) (layout_layout_id (sd_layout d))]
(** A message of the negotiation was refused or could not be sent. *)
| phase_stuck d :
    pending = Some d ->
    published_key <$> active = subscribed_key <$> subscribed
    \/ published_key <$> Some d = subscribed_key <$> subscribed ->
    phase pending accepted active proposal subscribed [] [].

Definition phase_of s u (down up : list (list byte)) : Prop :=
  phase (p_pending s) (p_pending_accepted s) (p_active s) (s_pending u) (s_active u)
    (omap negotiation down) (omap negotiation up).

(** The wires under way in both directions. *)
Definition linked s u w (down up : list (list byte)) : Prop :=
  lane_local (p_connection s) = LeftEnd /\ lane_remote (p_connection s) = RightEnd
  /\ lane_local (s_connection u) = RightEnd /\ lane_remote (s_connection u) = LeftEnd
  /\ carries RightEnd (p_outbox s) w down /\ carries LeftEnd (s_outbox u) w up.
Definition agreeing s u w : Prop := exists down up, linked s u w down up /\ phase_of s u down up.

(** A message that is lost leaves the negotiation where it is, or stuck. *)
Lemma phase_drop_down s u wire down up : phase_of s u (wire :: down) up -> phase_of s u down up.
Proof.
  unfold phase_of. cbn [omap list_omap]. destruct (negotiation wire) as [m|]; [|done].
  remember (m :: omap negotiation down) as l eqn:El. destruct 1; try done; injection El as _ <-;
    eapply phase_stuck; eauto.
Qed.
Lemma phase_drop_up s u wire down up : phase_of s u down (wire :: up) -> phase_of s u down up.
Proof.
  unfold phase_of. cbn [omap list_omap]. destruct (negotiation wire) as [m|]; [|done].
  remember (m :: omap negotiation up) as l eqn:El. destruct 1; try done; injection El as _ <-;
    eapply phase_stuck; eauto.
Qed.

Lemma negotiation_other m wire :
  ntp_encode m = Ok wire ->
  (forall x, ntp_kind x = ntp_kind m ->
     match x with
     | MSessionProposal _ | MLayoutAccepted _ | MLayoutConfirmed _ | MSessionReady _ _ _ => False
     | _ => True
     end) -> negotiation wire = None.
Proof.
  intros He Hm. unfold negotiation. destruct (ntp_decode wire) as [x|] eqn:Hd; [|done].
  destruct (decode_encoded _ _ _ He Hd) as (_ & _ & _ & _ & Hk). specialize (Hm x Hk). by destruct x.
Qed.
Lemma phase_push_down s u down up wire :
  negotiation wire = None -> phase_of s u down up -> phase_of s u (down ++ [wire]) up.
Proof. unfold phase_of. rewrite omap_app. cbn. intros ->. by rewrite app_nil_r. Qed.
Lemma phase_push_up s u down up wire :
  negotiation wire = None -> phase_of s u down up -> phase_of s u down (up ++ [wire]).
Proof. unfold phase_of. rewrite omap_app. cbn. intros ->. by rewrite app_nil_r. Qed.

(** ** The publisher's side *)

(** What the other end sees of a publisher. *)
Definition p_view s := (p_connection s, p_pending s, p_pending_accepted s, p_active s).
Lemma phase_view s s' u down up : p_view s' = p_view s -> phase_of s u down up -> phase_of s' u down up.
Proof. unfold p_view, phase_of. by intros [= _ -> -> ->]. Qed.
Lemma linked_view s s' u w down up :
  p_connection s' = p_connection s -> p_outbox s' = p_outbox s -> linked s u w down up -> linked s' u w down up.
Proof. unfold linked. by intros -> ->. Qed.
Lemma p_view_connection s s' : p_view s' = p_view s -> p_connection s' = p_connection s.
Proof. by intros [=]. Qed.

Lemma wp_linked_queue m s u w down up (Q : _ -> _ -> Prop) :
  linked s u w down up -> (forall e, Q (s, w) (Err e)) ->
  (forall s' wire, ntp_encode m = Ok wire -> p_view s' = p_view s -> linked s' u w (down ++ [wire]) up ->
     Q (s', w) (Ok ())) ->
  step_wp (p_queue m) (s, w) Q.
Proof.
  intros (?&?&?&?&Hd&?) He HQ. apply wp_p_queue; [done|]. intros wire Hw _. eapply HQ; [done..|].
  split_and!; try done. by apply carries_queue.
Qed.
Lemma wp_linked_flush s u w down up (Q : _ -> _ -> Prop) :
  linked s u w down up -> (forall s' w' r, p_view s' = p_view s -> linked s' u w' down up -> Q (s', w') r) ->
  step_wp p_flush_control (s, w) Q.
Proof.
  intros (Hl&Hr&?&?&Hd&Hu) HQ. apply wp_p_flush_control. intros w' rest r Hf. apply HQ; [done|].
  split_and!; try done; rewrite <- ?Hr in *; [by eapply carries_flush|].
  eapply carries_flush_other; [done| |done]. by rewrite Hr.
Qed.
Lemma wp_linked_receive s u w down up (Q : _ -> _ -> Prop) :
  linked s u w down up ->
  (forall w' r, linked s u w' down up -> (forall m, r <> Ok (Some m)) -> Q (s, w') r) ->
  (forall w' r wire rest, up = wire :: rest -> linked s u w' down rest ->
     (forall m, r = Ok (Some m) -> ntp_decode wire = Ok m) -> Q (s, w') r) ->
  step_wp p_receive_control (s, w) Q.
Proof.
  intros (Hl&Hr&?&?&Hd&Hu) Hnone Hsome. apply wp_p_receive_control. intros w' r Hrec.
  assert (lane RightEnd w' = lane RightEnd w) as Hright.
  { apply lane_receive_control in Hrec as [Ho _]. apply Ho. by rewrite Hl. }
  rewrite <- Hl in Hu.
  destruct (carries_receive _ _ _ _ _ _ _ Hrec Hu) as [[Hc Hm]|(wire & rest & -> & Hc & Hm)]; rewrite Hl in Hc.
  - apply Hnone; [|done]. split_and!; try done. by eapply carries_lane.
  - eapply Hsome; [done| |done]. split_and!; try done. by eapply carries_lane.
Qed.

Lemma agreeing_intro s u w down up : linked s u w down up -> phase_of s u down up -> agreeing s u w.
Proof. by exists down, up. Qed.
Lemma agreeing_view s s' u w :
  p_view s' = p_view s -> p_outbox s' = p_outbox s -> agreeing s u w -> agreeing s' u w.
Proof.
  intros Hv Ho (down & up & Hl & Hp). exists down, up. split; [|by eapply phase_view].
  apply (linked_view s); [by apply p_view_connection|done..].
Qed.
Lemma linked_lanes s u w w' down up :
  (forall e, lane e w' = lane e w) -> linked s u w down up -> linked s u w' down up.
Proof. intros Hl (?&?&?&?&?&?). split_and!; try done; (eapply carries_lane; [apply Hl|done]). Qed.

Lemma negotiation_encoded m wire :
  ntp_encode m = Ok wire -> message_wf m -> forall x, negotiation wire = Some x -> x = m.
Proof.
  intros He Hm x. unfold negotiation. destruct (ntp_decode wire) as [y|] eqn:Hd; [|done].
  apply (decode_encoded_wf m) in Hd; [subst y|done..]. destruct m; by intros [= <-].
Qed.

(** The confirmation of an accepted layout is queued. *)
Lemma phase_confirm s u wire down up d a :
  phase_of s u down up -> omap negotiation up = [MLayoutAccepted a] -> p_pending s = Some d ->
  ntp_encode (MLayoutConfirmed (layout_confirmation (sd_layout d))) = Ok wire ->
  phase (Some d) true (p_active s) (s_pending u) (s_active u) (omap negotiation (down ++ [wire])) [].
Proof.
  unfold phase_of. intros Hp Hup Hd He. rewrite Hup, Hd in Hp. rewrite omap_app. cbn.
  inversion Hp as [| |d' p' a' Hd' _ Hu Hk Hpr Ed Ea| | |]. injection Hd' as <-. cbn.
  pose proof (negotiation_encoded _ _ He) as Hn. destruct (negotiation wire) as [x|].
  - rewrite (Hn (layout_confirmation_id _) _ eq_refl). by eapply phase_confirmed.
  - eapply phase_stuck; [done|by left].
Qed.
Lemma omap_cons_nil {A B} (f : A -> option B) x l y : f x = Some y -> omap f (x :: l) = y :: omap f l.
Proof. intros Hx. cbn. by rewrite Hx. Qed.

Lemma wp_agree_queue m s u w (Q : _ -> _ -> Prop) :
  agreeing s u w ->
  (forall x, ntp_kind x = ntp_kind m ->
     match x with
     | MSessionProposal _ | MLayoutAccepted _ | MLayoutConfirmed _ | MSessionReady _ _ _ => False
     | _ => True
     end) ->
  (forall s' r, agreeing s' u w -> Q (s', w) r) -> step_wp (p_queue m) (s, w) Q.
Proof.
  intros Ha Hm HQ. pose proof Ha as (down & up & Hl & Hp).
  apply (wp_linked_queue _ _ u _ down up); [done|by eauto|]. intros s' wire He Hv Hl'. apply HQ.
  exists (down ++ [wire]), up. split; [done|]. apply (phase_view s); [done|].
  apply phase_push_down; [by eapply negotiation_other|done].
Qed.
Lemma wp_agree_flush s u w (Q : _ -> _ -> Prop) :
  agreeing s u w -> (forall s' w' r, agreeing s' u w' -> Q (s', w') r) -> step_wp p_flush_control (s, w) Q.
Proof.
  intros (down & up & Hl & Hp) HQ. apply (wp_linked_flush _ u _ down up); [done|]. intros s' w' r Hv Hl'.
  apply HQ. exists down, up. split; [done|by apply (phase_view s)].
Qed.
Ltac other_kind := let x := fresh "x" in let Hx := fresh "Hx" in intros x Hx; by destruct x.

Lemma wp_agree_handle now m s u w wire down up :
  linked s u w down up -> phase_of s u down (wire :: up) -> ntp_decode wire = Ok m ->
  step_wp (p_handle now m) (s, w) (fun x _ => agreeing x.1 u x.2).
Proof.
  intros Hl Hp Hm. pose proof (phase_drop_up _ _ _ _ _ Hp) as Hdrop.
  assert (agreeing s u w) as Ha by by eapply agreeing_intro.
  assert (forall s', p_view s' = p_view s -> p_outbox s' = p_outbox s -> agreeing s' u w) as Hview.
  { intros s' Hv Ho. by eapply agreeing_view. }
  destruct m; cbn [p_handle]; p_steps; try done; try (by apply Hview).
  - destruct (validate_hello _ _); [|done]. p_steps. by apply Hview.
  - destruct (p_pending s) as [d|] eqn:Hd; cbn [ok_or]; [|done]. p_steps; [done|].
    rename select (_ || _ = false) into Hc. guards. rename select (accept_confirmation _ = _) into Hconf.
    rewrite Hconf.
    assert (omap negotiation (wire :: up) = MLayoutAccepted accept :: omap negotiation up) as Hw
      by (apply omap_cons_nil; unfold negotiation; by rewrite Hm).
    assert (omap negotiation up = []) as Hup by (unfold phase_of in Hp; rewrite Hw in Hp; by inversion Hp).
    rewrite Hup in Hw.
    apply (wp_linked_queue _ _ u _ down up); [done|done|]. intros s' wire' He Hv Hl'. p_steps.
    exists (down ++ [wire']), up. split; [by apply (linked_view s')|].
    unfold phase_of. cbn. unfold p_view in Hv. injection Hv as _ -> _ ->. rewrite Hup, Hd.
    by eapply (phase_confirm s u wire' down (wire :: up)).
  - destruct (p_pending s) as [d|] eqn:Hd; cbn [ok_or]; [|done]. p_steps; [done|]. p_steps.
    exists down, up. split; [by apply (linked_view s)|].
    assert (omap negotiation (wire :: up) = MSessionReady session_id generation layout_id :: omap negotiation up) as Hw
      by (apply omap_cons_nil; unfold negotiation; by rewrite Hm).
    unfold phase_of in *. rewrite Hw in Hp. inversion Hp as [| | | |d' Hd' _ Hu Hk Ed Ei|].
    cbn. rewrite Hd in Hd'. injection Hd' as <-. by apply phase_idle.
  - apply (wp_agree_queue _ _ u); [done|other_kind|]. intros s' [|] Ha'; by p_steps.
Qed.

Lemma wp_agree_flush_reliable s u w (Q : _ -> _ -> Prop) :
  agreeing s u w -> (forall s' w' r, agreeing s' u w' -> Q (s', w') r) -> step_wp p_flush_reliable (s, w) Q.
Proof.
  intros (down & up & Hl & Hp) HQ. apply (wp_p_flush_reliable (fun w' => forall e, lane e w' = lane e w)).
  - intros m w' Hw e. rewrite <- (Hw e). by apply lanes_send.
  - done.
  - intros w' l r Hw. apply HQ. exists down, up. split; [|done]. by apply (linked_lanes _ _ w).
Qed.

Lemma wp_agree_poll_control now s u w :
  agreeing s u w -> step_wp (p_poll_control now) (s, w) (fun x _ => agreeing x.1 u x.2).
Proof.
  intros Ha. unfold p_poll_control. p_steps. apply (wp_agree_flush _ u); [done|].
  intros s1 w1 [_|e] K1; [|done]. p_steps.
  assert (forall Q : _ -> _ -> Prop, (forall s2 w2 r, agreeing s2 u w2 -> Q (s2, w2) r) ->
    step_wp (if bool_decide (p_transport_mode s1 = ModeReliableLatestOnly)
             then p_flush_reliable else mret ()) (s1, w1) Q) as Hflush.
  { intros Q HQ. apply wp_if; intros _; [by apply (wp_agree_flush_reliable _ u)|by apply wp_ret, HQ]. }
  apply Hflush. intros s2 w2 [_|e] (down & up & Hl & Hp); [|by eapply agreeing_intro]. p_steps.
  apply (wp_linked_receive _ u _ down up); [done|..].
  - intros w3 [[m|]|e] Hl' Hm; [by destruct (Hm m)|by p_steps; eapply agreeing_intro|by eapply agreeing_intro].
  - intros w3 r wire rest -> Hl' Hm. destruct r as [[m|]|e].
    + p_steps. eapply step_wp_mono; [by eapply wp_agree_handle; [..|apply Hm]|].
      intros [s4 w4] [ev|e] K4; [|done]. p_steps. apply (wp_agree_flush _ u); [done|].
      intros s5 w5 [_|e] K5; by p_steps.
    + p_steps. eapply agreeing_intro; [done|by eapply phase_drop_up].
    + eapply agreeing_intro; [done|by eapply phase_drop_up].
Qed.

Lemma wp_agree_hello s u w :
  agreeing s u w -> step_wp p_try_send_hello (s, w) (fun x _ => agreeing x.1 u x.2).
Proof.
  intros Ha. unfold p_try_send_hello. p_steps. apply (wp_agree_queue _ _ u); [done|other_kind|].
  intros s1 [_|e] K1; [|done]. by apply (wp_agree_flush _ u).
Qed.

(** The widths of what is published. *)
Definition publish_fits (generation layout_id : N) (layout : LayoutProposal) (topology : GeometryTopology) : Prop :=
  generation <= u32_max /\ layout_id <= u32_max /\ lp_base_layout_version layout <= u16_max
  /\ lp_target_fps layout <= u16_max /\ topology_wf topology.

Lemma phase_publish s u down up d p wire al :
  phase_of s u down up -> p_pending s = None -> ntp_encode (MSessionProposal p) = Ok wire -> proposal_fits p ->
  layout_layout_id al = sp_layout_id p ->
  d = mkDefinition (sp_descriptor p) (sp_session_id p) (sp_generation p) al (sp_topology p) ->
  phase (Some d) false (p_active s) (s_pending u) (s_active u) (omap negotiation (down ++ [wire])) (omap negotiation up).
Proof.
  unfold phase_of. intros Hp Hn He Hf Hal ->. rewrite Hn in Hp. rewrite omap_app. cbn.
  inversion Hp as [_ Hu Hk Ed Eu| | | | |]; try done. cbn. unfold negotiation at 1.
  destruct (ntp_decode wire) as [m|] eqn:Hd; [|by eapply phase_stuck; [|left]].
  apply (decode_proposal p) in Hd; [subst m|done..]. eapply phase_proposed; try done.
  destruct Hf as (?&?&_), p. by split_and!.
Qed.

Lemma wp_agree_publish d id g l layout topology now s u w :
  agreeing s u w -> publish_fits g l layout topology ->
  step_wp (publish_descriptor d id g l layout topology now) (s, w) (fun x _ => agreeing x.1 u x.2).
Proof.
  intros Ha Hfit. unfold publish_descriptor. p_steps; try done.
  assert (p_pending s = None) as Hn.
  { rename select (negb _ || _ = false) into Hx. apply orb_false_iff in Hx as [_ Hx].
    apply bool_decide_eq_false in Hx. destruct (p_pending s); [|done]. by destruct Hx. }
  assert (forall Q : _ -> _ -> Prop, (forall s' r, p_view s' = p_view s -> p_outbox s' = p_outbox s -> Q (s', w) r) ->
    step_wp (if bool_decide (is_Some (p_active s)) then p_note_reconfigure now else mret ()) (s, w) Q) as Hr.
  { intros Q HQ. apply wp_if; intros _; [|by apply wp_ret, HQ]. unfold p_note_reconfigure. p_steps.
    destruct (note_reconfigure _ _ _) as [times admitted]. p_steps.
    apply wp_if; intros _; [by apply wp_ret, HQ|]. unfold p_count_rate_limited. p_steps. by apply HQ. }
  apply Hr. intros s1 [_|e] Hv Ho; [|by apply (agreeing_view s)].
  apply (agreeing_view s s1) in Ha as (down & up & Hl & Hp); [|done..].
  p_steps. destruct (layout_negotiate l layout d) as [al|e] eqn:Hal; [|by eapply agreeing_intro].
  apply layout_negotiate_id in Hal. p_steps. apply (wp_linked_queue _ _ u _ down up); [done|by eauto using agreeing_intro|].
  intros s2 wire He Hv2 Hl2. p_steps. apply (wp_agree_flush _ u); [|done].
  exists (down ++ [wire]), up. split; [by apply (linked_view s2)|]. unfold phase_of. cbn.
  destruct Hfit as (?&?&?&?&?).
  replace (p_active s2) with (p_active s1) by (unfold p_view in Hv2; congruence).
  eapply phase_publish; [done| |exact He|by split_and!|done|done].
  unfold p_view in Hv. congruence.
Qed.

(** Sending a result keeps what the other end sees. *)
Definition same_wiring s0 w0 (x : NtpPublisher C * W) : Prop :=
  p_view x.1 = p_view s0 /\ p_outbox x.1 = p_outbox s0 /\ forall e, lane e x.2 = lane e w0.
Lemma keeps_flush_reliable s0 w0 : step_keeps (same_wiring s0 w0) p_flush_reliable.
Proof.
  intros [s w] x r (?&?&Hw) Hx.
  pose proof (wp_p_flush_reliable (fun w' => forall e, lane e w' = lane e w0) s w
                (fun x _ => same_wiring s0 w0 x)) as Hf.
  unfold step_wp in Hf. rewrite Hx in Hf. apply Hf; [|done|].
  - intros m w' Hw' e. rewrite <- (Hw' e). by apply lanes_send.
  - intros w' l r' Hw'. by split_and!.
Qed.
Lemma keeps_enqueue s0 w0 flow g q pr payload : step_keeps (same_wiring s0 w0) (p_enqueue flow g q pr payload).
Proof. intros [s w] x r Hs. unfold p_enqueue. destruct (latest_enqueue _ _ _ _ _ _ _). by intros [= <- _]. Qed.
Lemma keeps_send_latest s0 w0 d : step_keeps (same_wiring s0 w0) (p_send_latest d).
Proof.
  intros [s w] x r (?&?&Hl). unfold p_send_latest. pose proof (lanes_send_latest (p_connection s) d w) as Hd.
  destruct (try_send_latest _ d w) as [w1 sent]. intros [= <- _]. split_and!; try done. intros e. cbn in *. by rewrite Hd.
Qed.
Lemma keeps_send_fragmented s0 w0 flow g q t pr payload :
  step_keeps (same_wiring s0 w0) (p_send_fragmented flow g q t pr payload).
Proof.
  intros [s w] x r (?&?&Hl). unfold p_send_fragmented.
  destruct (send_fragmented _ _ _) as [w1 sent] eqn:Hs. pose proof (fragmented_lanes _ _ _ _ _ Hs) as Hs'.
  intros [= <- _]. split_and!; try done. intros e. cbn in *. by rewrite Hs'.
Qed.

Lemma keeps_try_send_latest s0 w0 r now1 now2 : step_keeps (same_wiring s0 w0) (p_try_send_latest r now1 now2).
Proof.
  unfold p_try_send_latest, p_prepare, p_deadline, p_send_prepared, or_panic, p_note_frame, p_fill_samples, p_encode_compact, p_geometry_wire, p_send_reliable,
    p_send_datagrams, p_count_rate_limited, p_get, p_set.
  keeps; try done; auto using keeps_flush_reliable, keeps_enqueue, keeps_send_latest, keeps_send_fragmented.
Qed.

Definition publishes_here (c : PublisherCall (C := C)) : Prop :=
  match c with
  | CallPublish _ _ generation layout_id layout topology _ => publish_fits generation layout_id layout topology
  | CallReset _ _ _ _ => False
  | _ => True
  end.
Lemma publisher_call_agrees c s u w x o :
  agreeing s u w -> publishes_here c -> publisher_call c (s, w) = Some (x, o) -> agreeing x.1 u x.2.
Proof.
  intros Ha Hc Hx.
  assert (forall A (m : step (NtpPublisher C * W) A),
    publisher_call c = (m;; mret None) -> step_wp m (s, w) (fun x _ => agreeing x.1 u x.2) -> agreeing x.1 u x.2) as Hm.
  { intros A m Hcm Hwp. rewrite Hcm in Hx. unfold step_wp, mbind, step_bind in *.
    destruct (m (s, w)) as [[y [a|e]]|]; cbn in Hx; [..|done]; by injection Hx as <- _. }
  destruct c as [|d id g l layout topology now|now|r now1 now2|? ? ? ?]; [..|done].
  - by eapply Hm, wp_agree_hello.
  - by eapply Hm, wp_agree_publish.
  - by eapply Hm, wp_agree_poll_control.
  - assert (step_keeps (same_wiring s w) (publisher_call (CallSend r now1 now2))) as Hk.
    { cbn [publisher_call]. keeps. apply keeps_try_send_latest. }
    apply Hk in Hx as (Hv & Ho & Hl); [|done]. apply (agreeing_view s); [done..|].
    destruct Ha as (down & up & Hli & Hp). exists down, up. split; [by apply (linked_lanes _ _ w)|done].
Qed.

(** ** The subscriber's side *)

Definition s_view u := (s_connection u, s_pending u, s_active u).
Lemma phase_view_s s u u' down up :
  s_pending u' = s_pending u -> subscribed_key <$> s_active u' = subscribed_key <$> s_active u ->
  phase_of s u down up -> phase_of s u' down up.
Proof.
  unfold phase_of. intros -> Hk. destruct 1; [eapply phase_idle|eapply phase_proposed|eapply phase_accepted|
    eapply phase_confirmed|eapply phase_ready|eapply phase_stuck]; rewrite ?Hk; try done.
Qed.
Lemma linked_view_s s u u' w down up :
  s_connection u' = s_connection u -> s_outbox u' = s_outbox u -> linked s u w down up -> linked s u' w down up.
Proof. unfold linked. by intros -> ->. Qed.
Lemma agreeing_view_s s u u' w :
  s_view u' = s_view u -> s_outbox u' = s_outbox u -> agreeing s u w -> agreeing s u' w.
Proof.
  unfold s_view. intros [= Hc Hp Ha] Ho (down & up & Hl & Hph). exists down, up.
  split; [by apply (linked_view_s s u)|]. apply (phase_view_s s u); [done|by rewrite Ha|done].
Qed.

Lemma wp_linked_queue_s m s u w down up (Q : _ -> _ -> Prop) :
  linked s u w down up -> (forall e, Q (u, w) (Err e)) ->
  (forall u' wire, ntp_encode m = Ok wire -> s_view u' = s_view u -> linked s u' w down (up ++ [wire]) ->
     Q (u', w) (Ok ())) ->
  step_wp (s_queue m) (u, w) Q.
Proof.
  intros (?&?&?&?&?&Hu) He HQ. apply wp_s_queue; [done|]. intros wire Hw _. eapply HQ; [done..|].
  split_and!; try done. by apply carries_queue.
Qed.
Lemma wp_agree_flush_s s u w (Q : _ -> _ -> Prop) :
  agreeing s u w -> (forall u' w' r, agreeing s u' w' -> Q (u', w') r) -> step_wp s_flush_control (u, w) Q.
Proof.
  intros (down & up & (?&?&Hl&Hr&Hd&Hu) & Hp) HQ. apply wp_s_flush_control. intros w' rest r Hf. apply HQ.
  exists down, up. split; [|done]. split_and!; try done; rewrite <- ?Hr in *; [|by eapply carries_flush].
  eapply carries_flush_other; [done| |done]. by rewrite Hr.
Qed.
Lemma wp_linked_receive_s s u w down up (Q : _ -> _ -> Prop) :
  linked s u w down up ->
  (forall w' r, linked s u w' down up -> (forall m, r <> Ok (Some m)) -> Q (u, w') r) ->
  (forall w' r wire rest, down = wire :: rest -> linked s u w' rest up ->
     (forall m, r = Ok (Some m) -> ntp_decode wire = Ok m) -> Q (u, w') r) ->
  step_wp s_receive_control (u, w) Q.
Proof.
  intros (?&?&Hl&Hr&Hd&Hu) Hnone Hsome. apply wp_s_receive_control. intros w' r Hrec.
  assert (lane LeftEnd w' = lane LeftEnd w) as Hleft.
  { apply lane_receive_control in Hrec as [Ho _]. apply Ho. by rewrite Hl. }
  rewrite <- Hl in Hd.
  destruct (carries_receive _ _ _ _ _ _ _ Hrec Hd) as [[Hc Hm]|(wire & rest & -> & Hc & Hm)]; rewrite Hl in Hc.
  - apply Hnone; [|done]. split_and!; try done. by eapply carries_lane.
  - eapply Hsome; [done| |done]. split_and!; try done. by eapply carries_lane.
Qed.
Lemma wp_agree_queue_s m s u w (Q : _ -> _ -> Prop) :
  agreeing s u w ->
  (forall x, ntp_kind x = ntp_kind m ->
     match x with
     | MSessionProposal _ | MLayoutAccepted _ | MLayoutConfirmed _ | MSessionReady _ _ _ => False
     | _ => True
     end) ->
  (forall u' r, agreeing s u' w -> Q (u', w) r) -> step_wp (s_queue m) (u, w) Q.
Proof.
  intros Ha Hm HQ. pose proof Ha as (down & up & Hl & Hp).
  apply (wp_linked_queue_s _ s _ _ down up); [done|by eauto|]. intros u' wire He Hv Hl'. apply HQ.
  exists down, (up ++ [wire]). split; [done|]. unfold s_view in Hv.
  apply (phase_view_s s u); [congruence|f_equal; congruence|].
  apply phase_push_up; [by eapply negotiation_other|done].
Qed.

Lemma phase_inv_proposal s u down up p wire :
  phase_of s u (wire :: down) up -> negotiation wire = Some (MSessionProposal p) ->
  exists d, p_pending s = Some d /\ p_pending_accepted s = false /\ s_pending u = None
    /\ published_key <$> p_active s = subscribed_key <$> s_active u /\ proposes p d
    /\ omap negotiation down = [] /\ omap negotiation up = [].
Proof.
  unfold phase_of. intros Hp Hw. rewrite (omap_cons_nil _ _ _ _ Hw) in Hp.
  inversion Hp; subst; try done. by eexists.
Qed.
Lemma phase_inv_confirm s u down up c wire :
  phase_of s u (wire :: down) up -> negotiation wire = Some (MLayoutConfirmed c) ->
  exists d p, p_pending s = Some d /\ p_pending_accepted s = true /\ s_pending u = Some p
    /\ published_key <$> p_active s = subscribed_key <$> s_active u /\ proposes p d
    /\ c = layout_confirmation (sd_layout d) /\ omap negotiation down = [] /\ omap negotiation up = [].
Proof.
  unfold phase_of. intros Hp Hw. rewrite (omap_cons_nil _ _ _ _ Hw) in Hp.
  inversion Hp; subst; try done. by eexists _, _.
Qed.

Lemma wp_agree_proposal p now1 now s u w wire down up (Q : _ -> _ -> Prop) :
  linked s u w down up -> phase_of s u (wire :: down) up -> negotiation wire = Some (MSessionProposal p) ->
  (forall u' r, agreeing s u' w -> Q (u', w) r) -> step_wp (s_receive_proposal p now1 now) (u, w) Q.
Proof.
  intros Hl Hp Hw HQ. pose proof (phase_drop_down _ _ _ _ _ Hp) as Hdrop.
  destruct (phase_inv_proposal _ _ _ _ _ _ Hp Hw) as (d & Hd & Hacc & Hpend & Hk & Hpr & Hdn & Hup).
  assert (forall u', s_view u' = s_view u -> s_outbox u' = s_outbox u -> agreeing s u' w) as Hview.
  { intros u' Hv Ho. apply (agreeing_view_s s u); [done..|]. by eapply agreeing_intro. }
  unfold s_receive_proposal. s_steps; [by apply HQ, Hview|].
  assert (forall Q : _ -> _ -> Prop, (forall u' r, s_view u' = s_view u -> s_outbox u' = s_outbox u -> Q (u', w) r) ->
    step_wp (if bool_decide (is_Some (s_active u)) then s_note_reconfigure now else mret ()) (u, w) Q) as Hr.
  { intros Q' HQ'. apply wp_if; intros _; [|by apply wp_ret, HQ']. unfold s_note_reconfigure. s_steps.
    destruct (note_reconfigure _ _ _) as [times admitted]. s_steps.
    apply wp_if; intros _; [by apply wp_ret, HQ'|]. unfold s_count_rate_limited. s_steps. by apply HQ'. }
  apply Hr. intros u1 [_|e] Hv1 Ho1; [|by apply HQ, Hview]. s_steps; [by apply HQ, Hview|].
  destruct (negotiator_receive_proposal _ _ _ _ _) as [n accept]. s_steps.
  set (u2 := u1 <|s_negotiator := n|>). assert (s_view u2 = s_view u) as Hv2 by done.
  destruct accept as [a|e]; [|by apply HQ, Hview]. s_steps.
  assert (linked s u2 w down up) as Hl2 by (apply (linked_view_s s u); [unfold s_view in Hv2; congruence|done|done]).
  apply (wp_linked_queue_s _ s _ _ down up); [done|intros e; by apply HQ, Hview|].
  intros u3 wire' He Hv3 Hl3. s_steps. apply HQ. exists down, (up ++ [wire']).
  split; [by apply (linked_view_s s u3)|]. unfold phase_of. cbn. rewrite omap_app, Hdn, Hup. cbn.
  assert (s_active u3 = s_active u) as -> by (unfold s_view in *; congruence).
  unfold negotiation. destruct (ntp_decode wire') as [m|] eqn:Hm; [|by eapply phase_stuck; [|left]].
  destruct (decode_encoded _ _ _ He Hm) as (_ & _ & _ & _ & Hkind). destruct m; try done.
  by eapply phase_accepted.
Qed.

Lemma wp_agree_confirm c s u w wire down up (Q : _ -> _ -> Prop) :
  linked s u w down up -> phase_of s u (wire :: down) up -> negotiation wire = Some (MLayoutConfirmed c) ->
  (forall u' r, agreeing s u' w -> Q (u', w) r) -> step_wp (s_receive_confirm c) (u, w) Q.
Proof.
  intros Hl Hp Hw HQ. destruct (phase_inv_confirm _ _ _ _ _ _ Hp Hw) as
    (d & p & Hd & Hacc & Hpend & Hk & (E1 & E2 & E3 & E4 & E5 & B1 & B2) & -> & Hdn & Hup).
  assert (forall u', s_connection u' = s_connection u -> s_outbox u' = s_outbox u ->
    published_key <$> p_active s = subscribed_key <$> s_active u'
    \/ published_key <$> Some d = subscribed_key <$> s_active u' -> agreeing s u' w) as Hstuck.
  { intros u' Hc Ho Hk'. exists down, up. split; [by apply (linked_view_s s u)|].
    unfold phase_of. rewrite Hdn, Hup. by eapply phase_stuck. }
  unfold s_receive_confirm. s_steps. rewrite Hpend. cbn [ok_or]. s_steps.
  destruct (negotiator_confirm _ _) as [n layout] eqn:Hn. s_steps.
  destruct layout as [layout|e]; [|by apply HQ, Hstuck; [..|left]].
  apply negotiator_confirm_layout in Hn. s_steps.
  destruct (guard_confirmed _ _ _ _ _) as [guard|e]; [|by apply HQ, Hstuck; [..|left]]. s_steps.
  set (u2 := u <|s_pending := _|> <|_ := _|> <|_ := _|> <|_ := _|> <|_ := _|> <|_ := _|> <|_ := _|>).
  assert (published_key <$> Some d = subscribed_key <$> s_active u2) as Hk2.
  { cbn. unfold published_key, subscribed_key. cbn. by rewrite E1, E2, E3, E4, Hn. }
  apply (wp_linked_queue_s _ s _ _ down up); [by apply (linked_view_s s u)|intros e; by apply HQ, Hstuck; [..|right]|].
  intros u3 wire' He Hv3 Hl3. s_steps. apply HQ. exists down, (up ++ [wire']).
  split; [done|]. unfold phase_of. rewrite omap_app, Hdn, Hup. cbn.
  assert (s_active u3 = s_active u2 /\ s_pending u3 = None) as [-> ->].
  { unfold s_view in Hv3. by injection Hv3 as _ -> ->. }
  pose proof (negotiation_encoded _ _ He) as Hneg. rewrite Hacc, Hd.
  destruct (negotiation wire') as [m|]; [|by eapply phase_stuck; [|right]].
  rewrite (Hneg (conj B1 B2) _ eq_refl), E2, E3, E5. by apply phase_ready.
Qed.

Lemma wp_agree_handle_s now1 now m s u w wire down up (Q : _ -> _ -> Prop) :
  linked s u w down up -> phase_of s u (wire :: down) up -> ntp_decode wire = Ok m ->
  (forall u' r, agreeing s u' w -> Q (u', w) r) -> step_wp (s_handle now1 now m) (u, w) Q.
Proof.
  intros Hl Hp Hm HQ. pose proof (phase_drop_down _ _ _ _ _ Hp) as Hdrop.
  assert (forall u', s_view u' = s_view u -> s_outbox u' = s_outbox u -> agreeing s u' w) as Hview.
  { intros u' Hv Ho. apply (agreeing_view_s s u); [done..|]. by eapply agreeing_intro. }
  destruct m; cbn [s_handle]; try (s_steps; by apply HQ, Hview).
  - s_steps. destruct (validate_hello _ _); [|by apply HQ, Hview]. s_steps. by apply HQ, Hview.
  - eapply wp_agree_proposal; [done..|unfold negotiation; by rewrite Hm|done].
  - eapply wp_agree_confirm; [done..|unfold negotiation; by rewrite Hm|done].
  - s_steps. destruct (note_pong _ _ _ _); [|by apply HQ, Hview]. s_steps. by apply HQ, Hview.
Qed.
Lemma wp_agree_poll_control_s now1 now s u w :
  agreeing s u w -> step_wp (s_poll_control now1 now) (u, w) (fun x _ => agreeing s x.1 x.2).
Proof.
  intros Ha. unfold s_poll_control. s_steps. apply (wp_agree_flush_s s); [done|].
  intros u1 w1 [_|e] (down & up & Hl & Hp); [|by eapply agreeing_intro]. s_steps.
  apply (wp_linked_receive_s s _ _ down up); [done|..].
  - intros w2 [[m|]|e] Hl' Hm; [by destruct (Hm m)|by s_steps; eapply agreeing_intro|by eapply agreeing_intro].
  - intros w2 r wire rest -> Hl' Hm. destruct r as [[m|]|e].
    + s_steps. eapply wp_agree_handle_s; [done..|by apply Hm|]. intros u2 [ev|e] K2; [|done]. s_steps.
      apply (wp_agree_flush_s s); [done|]. intros u3 w3 [_|e] K3; by s_steps.
    + s_steps. eapply agreeing_intro; [done|by eapply phase_drop_down].
    + eapply agreeing_intro; [done|by eapply phase_drop_down].
Qed.
Lemma wp_agree_send_s m s u w :
  agreeing s u w ->
  (forall x, ntp_kind x = ntp_kind m ->
     match x with
     | MSessionProposal _ | MLayoutAccepted _ | MLayoutConfirmed _ | MSessionReady _ _ _ => False
     | _ => True
     end) ->
  step_wp (s_send m) (u, w) (fun x _ => agreeing s x.1 x.2).
Proof.
  intros Ha Hm. unfold s_send. s_steps. apply (wp_agree_queue_s _ s); [done..|].
  intros u1 [_|e] K1; [|done]. by apply (wp_agree_flush_s s).
Qed.

(** Polling the frames keeps the session, and what is under way. *)
Definition same_lanes u0 w0 (x : NtpSubscriber C * W) : Prop :=
  s_connection x.1 = s_connection u0 /\ s_outbox x.1 = s_outbox u0 /\ forall e, lane e x.2 = lane e w0.
Lemma drain_lanes n (c : C) max clock r w e : lane e (latest_drain n c max clock r w).1.1 = lane e w.
Proof.
  revert r w. induction n as [|n IH]; intros r w; [done|]. cbn.
  pose proof (lanes_receive c w e) as Hl.
  destruct (try_receive c w) as [w' [[wire|]|err]]; cbn in *; [|done|by case_bool_decide].
  destruct (latest_decode _ _ _); [|done]. by rewrite IH.
Qed.
Lemma keeps_receive_message u0 w0 frames : step_keeps (same_lanes u0 w0) (s_receive_message frames).
Proof.
  intros [u w] x r (Hc & Ho & Hl). unfold s_receive_message. case_bool_decide.
  { pose proof (lanes_receive_realtime (s_connection u) w) as Hd. destruct (try_receive_realtime _ _) as [w1 r1].
    intros [= <- _]. split_and!; try done. intros e. cbn in *. by rewrite Hd. }
  unfold latest_poll.
  pose proof (drain_lanes (N.to_nat (max_receive_frames_per_poll (s_config u))) (s_connection u)
    (max_tracking_frame_bytes (s_config u)) frames (s_reliable u) w) as Hd.
  destruct (latest_drain _ _ _ _ _ _) as [[w1 l] d]. cbn in Hd.
  assert (forall e, lane e w1 = lane e w0) as Hl1 by (intros e; by rewrite Hd).
  destruct d as [[]|err]; [|by intros [= <- _]].
  destruct (min_by _ _) as [[flow f]|]; by intros [= <- _].
Qed.
Lemma keeps_push_core u0 w0 m : step_keeps (same_lanes u0 w0) (s_push_core m).
Proof.
  intros [u w] x r Hs. unfold s_push_core. destruct (reassembler_push _ _ _ _ _) as [[]|]; cbn; [|done].
  by intros [= <- _].
Qed.
Lemma keeps_push_geometry u0 w0 m : step_keeps (same_lanes u0 w0) (s_push_geometry m).
Proof.
  intros [u w] x r Hs. unfold s_push_geometry. destruct (reassembler_push _ _ _ _ _) as [[]|]; cbn; [|done].
  by intros [= <- _].
Qed.
Lemma keeps_poll_inner u0 w0 clock frames now :
  step_keeps (same_lanes u0 w0) (poll_realtime_inner clock frames now).
Proof.
  unfold poll_realtime_inner, note_received_frame, s_poll_compact, s_poll_core, s_poll_geometry, s_complete,
    note_reassembly_replacement, note_age, s_active_session, s_count_dropped, s_count_rate_limited, s_get, s_set.
  keeps; try done; auto using keeps_receive_message, keeps_push_core, keeps_push_geometry.
  all: by case_match.
Qed.

(** A poll keeps what the publisher sees, and what is under way. *)
Lemma subscriber_polled_key clock u u' o :
  s_polled clock u u' o -> s_pending u' = s_pending u /\ subscribed_key <$> s_active u' = subscribed_key <$> s_active u.
Proof.
  assert (forall a a', s_session a' = s_session a -> subscribed_key a' = subscribed_key a) as Hs.
  { unfold s_session, subscribed_key. by intros a a' [= -> -> -> -> ->]. }
  intros (_ & _ & Hp & _ & Ho). split; [done|].
  destruct o as [[o [r|] f]|e]; [|destruct Ho as [->|Ho]; [done|]..];
    destruct Ho as (a & a' & -> & -> & Hd); cbn; f_equal; by apply Hs, Hd.
Qed.
Lemma subscriber_poll_agrees clock frames now s u w x o :
  subscriber_ok u -> agreeing s u w -> s_poll_realtime clock frames now (u, w) = Some (x, o) -> agreeing s x.1 x.2.
Proof.
  intros Hu Ha. unfold s_poll_realtime. cbn [fst]. destruct (s_fused u); [by intros [= <- _]|].
  pose proof (wp_poll_realtime_inner clock frames now u w Hu) as Hp. unfold step_wp in Hp.
  destruct (poll_realtime_inner clock frames now (u, w)) as [[[u1 w1] o1]|] eqn:E; [|done].
  apply (keeps_poll_inner u w) in E as (Hc & Ho & Hl); [|done]. cbn in Hp, Hc, Ho, Hl.
  apply subscriber_polled_key in Hp as [Hpend Hk].
  assert (forall u', s_connection u' = s_connection u1 -> s_outbox u' = s_outbox u1 ->
    s_pending u' = s_pending u1 -> s_active u' = s_active u1 -> agreeing s u' w1) as Hagree.
  { intros u' Ec Eo Ep Ea. destruct Ha as (down & up & Hli & Hph). exists down, up. split.
    - apply (linked_view_s s u); [congruence..|]. by apply (linked_lanes _ _ w).
    - apply (phase_view_s s u); [congruence|by rewrite Ea|done]. }
  cbn. intros [= <- _]. destruct o1 as [p|e]; [by apply Hagree|].
  destruct (is_protocol_violation e); cbn; [|by apply Hagree].
  unfold note_violation. cbv zeta. by destruct (_ <=? _); apply Hagree.
Qed.

Definition subscribes_here (c : SubscriberCall (C := C)) : Prop :=
  match c with SCallReset _ _ _ _ => False | _ => True end.
Lemma subscriber_call_agrees c s u w x o :
  subscriber_ok u -> agreeing s u w -> subscribes_here c -> subscriber_call c (u, w) = Some (x, o) ->
  agreeing s x.1 x.2.
Proof.
  intros Hu Ha Hc Hx.
  assert (forall A B (m : step (NtpSubscriber C * W) A) (f : A -> B),
    (forall y r, m (u, w) = Some (y, r) -> agreeing s y.1 y.2) ->
    forall x o, (a ← m; mret (f a)) (u, w) = Some (x, o) -> agreeing s x.1 x.2) as Hm.
  { intros A B m f Hwp y r. unfold mbind, step_bind.
    destruct (m (u, w)) as [[z [a|e]]|] eqn:E; cbn; [..|done]; intros [= <- _]; by eapply Hwp. }
  assert (forall A (m : step (NtpSubscriber C * W) A),
    step_wp m (u, w) (fun y _ => agreeing s y.1 y.2) ->
    forall y r, m (u, w) = Some (y, r) -> agreeing s y.1 y.2) as Hwp.
  { intros A m Hw y r E. unfold step_wp in Hw. by rewrite E in Hw. }
  assert (forall m, (forall x, ntp_kind x = ntp_kind m ->
     match x with
     | MSessionProposal _ | MLayoutAccepted _ | MLayoutConfirmed _ | MSessionReady _ _ _ => False
     | _ => True
     end) -> step_wp (s_require_active;; s_send m) (u, w) (fun y _ => agreeing s y.1 y.2)) as Hreq.
  { intros m Hk. unfold s_require_active. s_steps; [done|by apply wp_agree_send_s]. }
  destruct c; cbn [subscriber_call] in Hx; [..|done]; (eapply Hm; [|exact Hx]); clear Hx x o;
    [apply Hwp..|].
  - unfold s_try_send_hello. s_steps. apply wp_agree_send_s; [done|other_kind].
  - apply Hreq. other_kind.
  - apply Hreq. other_kind.
  - unfold s_try_send_ping. s_steps. apply wp_agree_send_s; [|other_kind]. by apply (agreeing_view_s s u).
  - unfold s_try_send_receiver_report. s_steps. apply wp_agree_send_s; [done|other_kind].
  - by apply wp_agree_poll_control_s.
  - intros y r. by apply subscriber_poll_agrees.
Qed.

(** ** The two ends *)

(** An end that starts on a connection: one just created, or one that ran on
    another connection before and has been reset for this one. *)
Inductive publisher_starts (c : C) : NtpPublisher C -> Prop :=
| publisher_created a config now1 now2 w s :
    publisher_new c a config now1 now2 w = Ok s -> publisher_starts c s
| publisher_reset s a now1 now2 w s' w' o :
    publisher_ok s -> publisher_call (CallReset c a now1 now2) (s, w) = Some (s', w', Ok o) ->
    publisher_starts c s'.
Inductive subscriber_starts (c : C) : NtpSubscriber C -> Prop :=
| subscriber_created a config now1 now2 w u :
    max_protocol_violations config <= u16_max ->
    subscriber_new c a config now1 now2 w = Ok u -> subscriber_starts c u
| subscriber_reset u got v a now1 now2 w u' w' o :
    life_ok u got v -> subscriber_call (SCallReset c a now1 now2) (u, w) = Some (u', w', Ok o) ->
    subscriber_starts c u'.

(** What the two ends of one connection reach by calls that interleave in any
    way, while the connection may do anything of its own that keeps what its
    control lanes hold.  [reset_for_reconnect] leaves the connection, so it
    is where an end starts and not one of the calls. *)
Inductive duplex :
    NtpPublisher C -> NtpSubscriber C -> W -> Prop :=
| duplex_new left right w s u :
    lane_local left = LeftEnd -> lane_remote left = RightEnd ->
    lane_local right = RightEnd -> lane_remote right = LeftEnd -> (forall e, lane e w = []) ->
    publisher_starts left s -> subscriber_starts right u -> duplex s u w
| duplex_publisher s u w c s' w' o :
    duplex s u w -> publishes_here c -> publisher_call c (s, w) = Some (s', w', o) -> duplex s' u w'
| duplex_subscriber s u w c u' w' o :
    duplex s u w -> subscribes_here c -> subscriber_call c (u, w) = Some (u', w', o) -> duplex s u' w'
| duplex_transport s u w w' : duplex s u w -> (forall e, lane e w' = lane e w) -> duplex s u w'.

Lemma publisher_starts_idle c s :
  publisher_starts c s ->
  publisher_ok s /\ p_connection s = c /\ p_outbox s = [] /\ p_pending s = None /\ p_active s = None.
Proof.
  destruct 1 as [a config n1 n2 w s Hs|s a n1 n2 w s' w' o Hs Hx].
  - split; [by eapply publisher_new_ok|]. unfold publisher_new in Hs. by inv_ok.
  - pose proof (publisher_call_post _ s w _ _ Hs Hx) as Hok. split.
    { destruct o as [r|]; [destruct Hok as (_ & Hok & _)|destruct Hok as [Hok _]]; done. }
    assert (step_wp (publisher_call (CallReset c a n1 n2)) (s, w) (fun x r => match r with
      | Ok _ => p_connection x.1 = c /\ p_outbox x.1 = [] /\ p_pending x.1 = None /\ p_active x.1 = None
      | Err _ => True
      end)) as Hwp.
    { cbn [publisher_call]. unfold p_reset_for_reconnect. p_steps.
      destruct (validate_connection_authorization _ _ _); [|done]. p_steps; done. }
    unfold step_wp in Hwp. by rewrite Hx in Hwp.
Qed.
Lemma subscriber_starts_idle c u :
  subscriber_starts c u ->
  (exists got v, life_ok u got v)
  /\ s_connection u = c /\ s_outbox u = [] /\ s_pending u = None /\ s_active u = None.
Proof.
  destruct 1 as [a config n1 n2 w u Hm Hu|u got v a n1 n2 w u' w' o Hu Hx].
  - split; [by eexists _, _; eapply subscribes_ok, subscribes_new|]. unfold subscriber_new in Hu. by inv_ok.
  - split.
    { pose proof (subscriber_call_life (SCallReset c a n1 n2) u w got v Hu) as Hl.
      unfold step_wp in Hl. rewrite Hx in Hl. by eexists _, _. }
    assert (step_wp (subscriber_call (SCallReset c a n1 n2)) (u, w) (fun x r => match r with
      | Ok _ => s_connection x.1 = c /\ s_outbox x.1 = [] /\ s_pending x.1 = None /\ s_active x.1 = None
      | Err _ => True
      end)) as Hwp.
    { cbn [subscriber_call]. unfold s_reset_for_reconnect. s_steps.
      destruct (validate_connection_authorization _ _ _); [|done]. s_steps; [done|].
      destruct negotiator_new; s_steps; done. }
    unfold step_wp in Hwp. by rewrite Hx in Hwp.
Qed.

Lemma duplex_agreeing s u w : duplex s u w -> publisher_ok s /\ (exists got v, life_ok u got v) /\ agreeing s u w.
Proof.
  induction 1 as [left right w s u L1 L2 L3 L4 Hw (Hs & Hc & Ho & Hp & Ha)%publisher_starts_idle
      (Hu & Hc' & Ho' & Hp' & Ha')%subscriber_starts_idle
    |s u w c s' w' o _ (Hs & Hu & Ha) Hc Hx|s u w c u' w' o _ (Hs & (got & v & Hu) & Ha) Hc Hx
    |s u w w' _ (Hs & Hu & down & up & Hl & Hp) Hw].
  - split; [done|]. split; [done|]. exists [], []. split.
    + unfold linked, carries. rewrite Hc, Hc', Ho, Ho', !Hw. split_and!; try done; exists []; by split; [constructor|].
    + unfold phase_of. rewrite Hp', Ha', Ha. by apply phase_idle.
  - pose proof (publisher_call_post c s w _ _ Hs Hx) as Hok. cbn in Hok.
    apply (publisher_call_agrees c s u) in Hx; [|done..]. split; [|done].
    destruct o as [[r|]|e]; [destruct Hok as (_ & Hok & _)|destruct Hok as [Hok _]..]; done.
  - pose proof Hu as [Hok _]. apply (subscriber_call_agrees c s u) in Hx as Ha'; [|done..].
    split; [done|]. split; [|done]. pose proof (subscriber_call_life c u w got v Hu) as Hl.
    unfold step_wp in Hl. rewrite Hx in Hl. by eexists _, _.
  - split; [done|]. split; [done|]. exists down, up. split; [by apply (linked_lanes _ _ w)|done].
Qed.
End agreement.

(** C5: Publisher and subscriber agree on the session.  Take one connection
    whose control lanes keep what they accept (the interface [ControlLanes],
    which the in-memory connection implements), its lanes empty, and a
    publisher and a subscriber that start on its two ends, created there or
    reset there after an earlier connection.  However their other calls then
    interleave, each call as a whole, and whichever of them fail, provided
    that what is published fits its fields ([publish_fits]): while no
    negotiation is under way both have no session or have the same one, the
    same descriptor, session, generation, topology, layout and layout hash;
    and while one is, the subscriber's session is the publisher's or the one
    the publisher has proposed. *)
Theorem ntp_session_agreement `{NanaWireLaws} `{!NanaGuardLaws} `{!NanaLayoutLaws} {C W} `{ControlLanes C W}
    (s : NtpPublisher C) (u : NtpSubscriber C) (w : W) :
  duplex s u w ->
  match p_pending s with
  | None => published_key <$> p_active s = subscribed_key <$> s_active u
  | Some d => published_key <$> p_active s = subscribed_key <$> s_active u
              \/ Some (published_key d) = subscribed_key <$> s_active u
  end.
Proof.
  intros (_ & _ & down & up & _ & Hp)%duplex_agreeing. unfold phase_of in Hp.
  destruct (p_pending s) as [d|] eqn:Hd; inversion Hp; simplify_eq; auto.
Qed.
