(* ===== verification/NtpExample.v ===== *)
(** * A protocol to run the binding with

    The least [nana_tracking_protocol] that satisfies every law, two ends over
    an in-memory connection that negotiate a session and exchange results, and
    from these the witnesses of the theorems about the NTP binding. *)

From S2P Require Export NtpAgreement.
Local Open Scope N_scope.

Module NtpExample.
#[local] Existing Instance unit_tracking.

Inductive Profile := Partial | Basic | Spatial | Full.
Definition example_types : NanaTypes := {|
  ContractRevisions := ();
  TrackingProfile := Profile; ProfilePartial := Partial; ProfileBasic := Basic;
  ProfileSpatial := Spatial; ProfileFull := Full;
  profile_as_u8 p := match p with Partial => 0 | Basic => 1 | Spatial => 2 | Full => 3 end;
  ValueEncoding := (); I16Normalized := (); value_encoding_as_u8 _ := 1;
  QualityEncoding := bool; QualityNone := false; StateAndConfidenceU8 := true;
  quality_encoding_as_u8 q := if q then 1 else 0;
  SignalId := bool; signal_new n := match n with 0 => Some false | 1 => Some true | _ => None end;
  signal_get s := if s then 1 else 0;
  MAX_LAYOUT_SIGNALS := 4;
  NanaTrackingDescriptor := list byte; descriptor_revisions _ := ();
|}.
#[local] Existing Instance example_types.

Record Result := mkResult {
  re_session_id : NtpSessionId; re_generation : N; re_sequence : N; re_capture : N; re_produced : N;
  re_landmarks : list byte;
}.
Definition encode_result (r : Result) : list byte :=
  re_session_id r ++ be_bytes 4 (re_generation r) ++ be_bytes 8 (re_sequence r) ++ be_bytes 8 (re_capture r)
  ++ be_bytes 8 (re_produced r) ++ re_landmarks r.
Definition decode_result (l : list byte) : result BindingError Result :=
  id ← ok_or (BeCodec ()) (to_array 16 (field 0 16 l));
  reject (len l <? 44) with BeCodec ();
  Ok (mkResult id (from_be_bytes (field 16 20 l)) (from_be_bytes (field 20 28 l))
        (from_be_bytes (field 28 36 l)) (from_be_bytes (field 36 44 l)) (drop 44 l)).

Definition confirmation_of (l : N * LayoutProposal) : LayoutConfirm :=
  mkLayoutConfirm (N.min u32_max l.1) (vreplicate 32 (byte_of_n (lp_target_fps l.2))).
Definition guard_step (r : Result) (g : NtpSessionId * N * option N)
    : NtpSessionId * N * option N * result BindingError N :=
  let '(id, generation, last) := g in
  if bool_decide (re_session_id r = id) && (re_generation r =? generation)
     && match last with Some q => q <? re_sequence r | None => true end
  then (id, generation, Some (re_sequence r),
        Ok match last with Some q => re_sequence r - q - 1 | None => 0 end)
  else (g, Err (BeStream ())).

Definition example_protocol : NanaProtocol := {|
  nana_errors := unit_tracking; nana_types := example_types;
  descriptor_encode d := Ok d; descriptor_decode d := Ok d;
  accept_confirmation a := mkLayoutConfirm (la_layout_id a) (la_layout_hash a);
  ActiveLayout := N * LayoutProposal;
  layout_negotiate id p _ := Ok (id, p);
  layout_confirmation := confirmation_of;
  layout_signals l := lp_extra_signals l.2; layout_frame_len _ := 20; layout_layout_id l := l.1;
  layout_proposal l := l.2;
  LayoutNegotiator := option (N * LayoutProposal);
  negotiator_new := Ok None;
  negotiator_receive_proposal id p _ _ _ :=
    let c := confirmation_of (id, p) in
    (Some (id, p), Ok (mkLayoutAccept (lc_layout_id c) (lc_layout_hash c) (len (lp_extra_signals p)) 20));
  negotiator_confirm c n :=
    match n with
    | Some l => if bool_decide (confirmation_of l = c) then (None, Ok l) else (n, Err (BeHandshake ()))
    | None => (n, Err (BeHandshake ()))
    end;
  ProducerClockEstimate := N * N; clock_synchronized now u := (now, u); clock_now_ns := fst;
  clock_uncertainty_ns := snd;
  NanaTrackingResult := Result; nr_session_id := re_session_id; nr_generation := re_generation;
  nr_sequence := re_sequence; nr_capture_timestamp_ns := re_capture; nr_produced_timestamp_ns := re_produced;
  FaceLandmark := byte; nr_face_landmarks := re_landmarks;
  nr_with_landmarks l r := mkResult (re_session_id r) (re_generation r) (re_sequence r) (re_capture r)
                             (re_produced r) l;
  result_encode r := Ok (encode_result r); result_decode := decode_result; validate_result _ _ := Ok ();
  CompactSample := N; sample_unavailable := 0; rig_sample _ _ := Some 1;
  compact_encode_into _ _ generation sequence capture _ _ _ :=
    (be_bytes 4 generation ++ be_bytes 8 sequence ++ be_bytes 8 capture, Ok ());
  CompactFrame := N * N * N; cf_sequence f := f.1.2; cf_generation f := f.1.1;
  cf_capture_timestamp_ns := snd;
  CompactStreamGuard := (); guard_confirmed _ _ _ _ _ := Ok ();
  guard_accept l _ g :=
    (g, Ok (from_be_bytes (field 0 4 l), from_be_bytes (field 4 12 l), from_be_bytes (field 12 20 l)));
  ResultStreamGuard := NtpSessionId * N * option N; result_guard_new id generation := (id, generation, None);
  result_guard_accept := guard_step;
|}.
#[local] Existing Instance example_protocol.

#[local] Instance example_wire : NanaWireLaws.
Proof.
  split; cbn; try done.
  - intros []; auto.
  - by intros [].
  - intros []; auto.
  - by intros [].
  - intros [|[]] s; by intros [= <-].
  - by intros [].
Defined.
#[local] Instance example_clock : NanaClockLaws.
Proof. by split. Defined.
#[local] Instance example_guard : NanaGuardLaws.
Proof.
  apply (Build_NanaGuardLaws example_protocol (fun g : NtpSessionId * N * option N => g.1)
           (fun g : NtpSessionId * N * option N => g.2)); [done..| |].
  - intros r [[id generation] last] g' n. cbn. unfold guard_step.
    destruct (_ && _) eqn:E; [|done]. intros [= <- _]. guards. split; [cbn; congruence|].
    split; [|done]. intros q [= ->]. by apply N.ltb_lt.
  - intros r [[id generation] last] g' e. cbn. unfold guard_step. destruct (_ && _); [done|]. by intros [= <- _].
Defined.
#[local] Instance example_layout : NanaLayoutLaws.
Proof.
  split; cbn.
  - by intros id p d l [= <-].
  - intros [id p]. cbn. lia.
  - intros c [l|] n' l'; [|done]. case_bool_decide; [|done]. by intros [= _ <-].
Defined.

(** ** Two ends *)

Definition link_id : SessionId := id_of SessionKind 7.
Definition authorization (role : NtpRole) : NtpAuthorization :=
  mkAuthorization (id_of PeerKind 1) link_id 1 1 role.
Definition config : BindingConfig := default_binding_config (H := unit_tracking) ().
Definition session_id : NtpSessionId := vreplicate 16 (byte_of_n 9).
Definition layout : LayoutProposal := mkLayoutProposal () Basic 1 [true] () false 60.
Definition descriptor : list byte := str "rig".
Definition pipe : option (MemoryConnection * MemoryConnection * MemoryPair) :=
  memory_transport_pair (id_of EndpointKind 1) (id_of EndpointKind 2) default_memory_config.
Definition topology : GeometryTopology := mkTopology 1 (vreplicate 32 (byte_of_n 3)) 5.
Definition SECOND : N := 1000000000.
Definition start : N := 100 * SECOND.

(** Both ends at the start, and a schedule of calls: what each end answers. *)
Definition ends : Type := NtpPublisher MemoryConnection * NtpSubscriber MemoryConnection * MemoryPair.
Definition opening (pc sc : BindingConfig) : option ends :=
  '(l, r, w) ← pipe;
  match publisher_new l (authorization Publisher) pc start start w,
        subscriber_new r (authorization Subscriber) sc start start w with
  | Ok p, Ok s => Some (p, s, w)
  | _, _ => None
  end.
Definition schedule : Type :=
  list (PublisherCall (C := MemoryConnection) + SubscriberCall (C := MemoryConnection)).
Definition turn (c : PublisherCall (C := MemoryConnection) + SubscriberCall (C := MemoryConnection)) (x : ends)
    : option ends :=
  let '(p, s, w) := x in
  match c with
  | inl c => '(p, w, _) ← publisher_call c (p, w); Some (p, s, w)
  | inr c => '(s, w, _) ← subscriber_call c (s, w); Some (p, s, w)
  end.
Fixpoint play (l : schedule) (x : ends) : option ends :=
  match l with [] => Some x | c :: l => x ← turn c x; play l x end.

Definition greeting : schedule :=
  [inl CallHello; inr SCallHello; inl (CallPollControl 0); inr (SCallPollControl 0 start)].
Definition negotiating (generation layout_id now : N) : schedule :=
  [inl (CallPublish descriptor session_id generation layout_id layout topology now);
   inr (SCallPollControl 0 now); inl (CallPollControl 0); inr (SCallPollControl 0 now);
   inl (CallPollControl 0)].
Definition a_result (generation sequence : N) : Result := mkResult session_id generation sequence 1000 1001 [].
Definition sending (generation sequence now : N) : schedule :=
  [inr (SCallCommand CommandStart); inl (CallPollControl 0);
   inl (CallSend (a_result generation sequence) now now);
   inr (SCallPollRealtime (2000, 10) (fun _ => now) now); inr (SCallPollRealtime (2000, 10) (fun _ => now) now)].

(** What the two ends hold after a schedule: pending and active generation of
    the publisher, the last sequence published, the pending and the active
    generation of the subscriber, and the results it received. *)
Definition outcome (x : option ends) : option (option N * option N * option N * (option N * option N * N)) :=
  '(p, s, _) ← x;
  Some (sd_generation <$> p_pending p, sd_generation <$> p_active p, p_last_published_sequence p,
        (sp_generation <$> s_pending s, ss_generation <$> s_active s, rr_received (s_report s))).

(** A refused proposal strands the publisher: when the subscriber limits the
    reconfiguration, no later descriptor is accepted, however long the wait. *)
Definition one_reconfiguration : BindingConfig := config <|max_reconfigure_per_minute := 1|>.
Definition wait : N := 600 * SECOND.
Lemma refused_proposal_strands :
  outcome (x ← opening config one_reconfiguration;
           play (greeting ++ negotiating 1 5 start ++ negotiating 2 6 start ++ negotiating 3 7 start
                 ++ negotiating 4 8 (start + wait) ++ negotiating 5 9 (start + 2 * wait)) x)
  = Some (Some 3, Some 2, None, (None, Some 2, 0)).
Proof. vm_compute. reflexivity. Qed.

(** The longest [Duration] is a valid deadline, and the first result panics. *)
Definition endless_deadline : BindingConfig := config <|result_deadline := 2 ^ 64 * 1000000000 - 1|>.
Definition send_panics (pc : BindingConfig) : option bool :=
  x ← opening pc config;
  '(p, _, w) ← play (greeting ++ negotiating 1 5 start ++ [inr (SCallCommand CommandStart); inl (CallPollControl 0)]) x;
  Some (match publisher_call (CallSend (a_result 1 10) start start) (p, w) with None => true | Some _ => false end).
Lemma deadline_panics :
  binding_config_validate endless_deadline = Ok endless_deadline
  /\ send_panics endless_deadline = Some true /\ send_panics config = Some false.
Proof. split; [reflexivity|]. split; vm_compute; reflexivity. Qed.

(** ** Runs with their history *)

Record history := mkHistory {
  hi_ends : ends;
  hi_sent : list Result;
  hi_got : list (N * N * Result);
  hi_violations : N;
}.
Definition turn_history (c : PublisherCall (C := MemoryConnection) + SubscriberCall (C := MemoryConnection))
    (h : history) : option history :=
  let '(p, s, w) := hi_ends h in
  match c with
  | inl c =>
    '(p, w, o) ← publisher_call c (p, w);
    Some (mkHistory (p, s, w)
            (match p_last_published_sequence p, o with
             | None, _ => []
             | Some _, Ok (Some r) => hi_sent h ++ [r]
             | Some _, _ => hi_sent h
             end) (hi_got h) (hi_violations h))
  | inr c =>
    '(s, w, o) ← subscriber_call c (s, w);
    Some (mkHistory (p, s, w) (hi_sent h)
            (match last_delivered s with None => [] | Some _ => hi_got h ++ delivery c o end)
            (violations c o (hi_violations h)))
  end.
Fixpoint play_history (l : schedule) (h : history) : option history :=
  match l with [] => Some h | c :: l => h ← turn_history c h; play_history l h end.
Definition begin (pc sc : BindingConfig) : option history :=
  x ← opening pc sc; Some (mkHistory x [] [] 0).

Definition historic (h : history) : Prop :=
  let '(p, s, w) := hi_ends h in
  publishes (W := MemoryPair) p (hi_sent h) /\ subscribes (W := MemoryPair) s (hi_got h) (hi_violations h)
  /\ duplex (C := MemoryConnection) p s w.
Definition call_here (c : PublisherCall (C := MemoryConnection) + SubscriberCall (C := MemoryConnection)) : Prop :=
  match c with inl c => publishes_here c | inr c => subscribes_here c end.

Lemma begin_historic pc sc h :
  max_protocol_violations sc <= u16_max -> begin pc sc = Some h -> historic h.
Proof.
  unfold begin, opening. destruct pipe as [[[l r] w]|] eqn:Hp; cbn; [|done].
  destruct (publisher_new (H := example_protocol) _ _ _ _ _ _) as [p|] eqn:E1; [|done].
  destruct (subscriber_new (H := example_protocol) _ _ _ _ _ _) as [s|] eqn:E2; [|done]. intros Hmax [= <-].
  unfold historic. cbn [hi_ends hi_sent hi_got hi_violations].
  split; [exact (publishes_new _ _ _ _ _ _ _ E1)|].
  split; [exact (subscribes_new _ _ _ _ _ _ _ Hmax E2)|].
  unfold pipe, memory_transport_pair in Hp. destruct (_ && _) in Hp; [|done]. injection Hp as <- <- <-.
  pose proof (publisher_created _ _ _ _ _ _ _ E1) as K1. pose proof (subscriber_created _ _ _ _ _ _ _ Hmax E2) as K2.
  eapply duplex_new; [| | | | |exact K1|exact K2]; try reflexivity. by intros [].
Qed.
Lemma play_historic l h h' :
  historic h -> Forall call_here l -> play_history l h = Some h' -> historic h'.
Proof.
  revert h. induction l as [|c l IH]; intros h Hh Hl; cbn [play_history]; [by intros [= <-]|].
  apply Forall_cons in Hl as [Hc Hl]. destruct (turn_history c h) as [h1|] eqn:E; cbn; [|done].
  apply IH; [|done]. destruct h as [[[p s] w] sent got v], Hh as (Hp & Hs & Hd).
  destruct c as [c|c]; cbn in E.
  - destruct (publisher_call c (p, w)) as [[[p1 w1] o]|] eqn:Ec; cbn in E; [|done]. injection E as <-. unfold historic.
    cbn [hi_ends hi_sent hi_got hi_violations].
    split; [exact (publishes_call _ _ _ _ _ _ _ Hp Ec)|]. split; [done|]. by eapply duplex_publisher.
  - destruct (subscriber_call c (s, w)) as [[[s1 w1] o]|] eqn:Ec; cbn in E; [|done]. injection E as <-. unfold historic.
    cbn [hi_ends hi_sent hi_got hi_violations].
    split; [done|]. split; [exact (subscribes_call _ _ _ _ _ _ _ _ Hs Ec)|]. by eapply duplex_subscriber.
Qed.

(** ** Witnesses *)

Definition a_proposal : NtpControlMessage :=
  MSessionProposal (mkSessionProposal descriptor session_id 1 5 layout topology).
Definition a_wire : list byte := match ntp_encode a_proposal with Ok wire => wire | Err _ => [] end.

Lemma ntp_control_codec_witness : len a_wire = 92 /\ ntp_decode a_wire = Ok a_proposal.
Proof.
  split; [vm_compute; reflexivity|]. apply (ntp_control_codec (H := example_protocol) a_proposal a_wire). split; [reflexivity|].
  split; [|vm_compute; discriminate]. cbn. unfold proposal_wf, layout_wf, topology_wf. cbn.
  repeat split; vm_compute; discriminate.
Defined.

Lemma clock_estimate_sound_witness :
  exists k' e, note_pong (H := example_protocol) 100 1053 107 (note_ping 100 default_clock) = Ok k'
    /\ clock_estimate 200 k' = Some e
    /\ (Z.abs (Z.of_N (clock_now_ns e) - 1150) <= Z.of_N (clock_uncertainty_ns e + 1))%Z.
Proof.
  destruct (proj1 (clock_estimate_sound 950 100 1053 107 200 (note_ping 100 default_clock) eq_refl
    ltac:(lia) ltac:(lia) ltac:(lia) ltac:(lia))) as (k' & e & H1 & H2 & H3 & _).
  exists k', e. split; [exact H1|]. split; [exact H2|exact H3].
Defined.

Definition full_run : schedule :=
  greeting ++ negotiating 1 5 start ++ sending 1 10 start ++ sending 1 11 start.
Definition run (pc sc : BindingConfig) (l : schedule) : option history :=
  h ← begin pc sc; play_history l h.
Lemma run_historic pc sc l h :
  max_protocol_violations sc <= u16_max -> Forall call_here l -> run pc sc l = Some h -> historic h.
Proof.
  unfold run. intros Hmax Hl. destruct (begin pc sc) as [h0|] eqn:E; cbn; [|done].
  by apply play_historic; [eapply begin_historic|].
Qed.
Lemma full_run_here : Forall call_here full_run.
Proof. repeat constructor; vm_compute; discriminate. Qed.

Lemma publisher_stream_sound_witness :
  match run config config full_run with
  | Some (mkHistory (p, _, _) [r1; r2] _ _) =>
    nr_sequence r1 < nr_sequence r2 /\ exists x, publisher_call CallHello (p, mkPair memory_side_new memory_side_new) = Some x
  | _ => False
  end.
Proof.
  pose proof (run_historic config config full_run) as Hh.
  destruct (run config config full_run) as [[[[p s] w] sent got v]|] eqn:E; [|vm_compute in E; discriminate E].
  assert (length <$> (hi_sent <$> run config config full_run) = Some 2%nat) as Hl by (vm_compute; reflexivity).
  rewrite E in Hl. cbn in Hl. clear E. destruct sent as [|r1 [|r2 [|]]]; [discriminate Hl|discriminate Hl| |discriminate Hl].
  specialize (Hh _ ltac:(vm_compute; discriminate) full_run_here eq_refl). destruct Hh as (Hp & _ & _).
  cbn [hi_sent] in Hp. destruct (publisher_stream_sound p [r1; r2] Hp) as (_ & Hs & _ & Hc). split.
  - inversion_clear Hs as [|? ? _ Hr]. inversion_clear Hr as [|? ? Hlt _]. exact Hlt.
  - exact (Hc CallHello _ I).
Defined.

Lemma subscriber_delivery_sound_witness :
  match run config config full_run with
  | Some (mkHistory (_, s, _) _ [d1; d2] v) =>
    nr_sequence d1.2 < nr_sequence d2.2 /\ exists a, s_active s = Some a /\ nr_session_id d1.2 = ss_session_id a
  | _ => False
  end.
Proof.
  pose proof (run_historic config config full_run) as Hh.
  destruct (run config config full_run) as [[[[p s] w] sent got v]|] eqn:E; [|vm_compute in E; discriminate E].
  assert (length <$> (hi_got <$> run config config full_run) = Some 2%nat) as Hl by (vm_compute; reflexivity).
  rewrite E in Hl. cbn in Hl. clear E. destruct got as [|d1 [|d2 [|]]]; [discriminate Hl|discriminate Hl| |discriminate Hl].
  specialize (Hh _ ltac:(vm_compute; discriminate) full_run_here eq_refl). destruct Hh as (_ & Hs & _).
  cbn [hi_got] in Hs. destruct (subscriber_delivery_sound s [d1; d2] v Hs) as (_ & Hsort & Hf & _). split.
  - inversion_clear Hsort as [|? ? _ Hr]. inversion_clear Hr as [|? ? Hlt _]. exact Hlt.
  - inversion_clear Hf as [|? ? Hd _]. destruct Hd as (a & Ha & Hid & _). exists a. split; [exact Ha|exact Hid].
Defined.

(** A subscriber that finds every frame too long, and tolerates two. *)
Definition strict : BindingConfig := config <|max_tracking_frame_bytes := 30|> <|max_protocol_violations := 2|>.
Lemma subscriber_fuse_witness :
  match run config strict full_run with
  | Some (mkHistory (_, s, w) _ _ v) =>
    v = 2 /\ s_fused s = true /\ s_poll_realtime (5, 5) (fun _ => 0) 0 (s, w) = Some ((s, w), Err ChannelFused)
  | None => False
  end.
Proof.
  pose proof (run_historic config strict full_run) as Hh.
  destruct (run config strict full_run) as [[[[p s] w] sent got v]|] eqn:E; [|vm_compute in E; discriminate E].
  assert ((fun h => (hi_violations h, s_fused (hi_ends h).1.2)) <$> run config strict full_run = Some (2, true)) as Hl
    by (vm_compute; reflexivity).
  rewrite E in Hl. clear E. cbn in Hl. injection Hl as Hv Hf.
  specialize (Hh _ ltac:(vm_compute; discriminate) full_run_here eq_refl). destruct Hh as (_ & Hs & _).
  cbn [hi_violations hi_got] in Hs. destruct (subscriber_fuse s got v Hs) as (_ & _ & Hp).
  split; [exact Hv|]. split; [exact Hf|]. exact (Hp (5, 5) (fun _ => 0) 0 w Hf).
Defined.

Lemma ntp_session_agreement_witness :
  match run config config full_run with
  | Some (mkHistory (p, s, _) _ _ _) =>
    exists d a, p_active p = Some d /\ s_active s = Some a /\ published_key d = subscribed_key a
  | None => False
  end.
Proof.
  pose proof (run_historic config config full_run) as Hh.
  destruct (run config config full_run) as [[[[p s] w] sent got v]|] eqn:E; [|vm_compute in E; discriminate E].
  assert ((fun h => (bool_decide (is_Some (p_active (hi_ends h).1.1)), bool_decide (is_Some (p_pending (hi_ends h).1.1))))
    <$> run config config full_run = Some (true, false)) as Hl by (vm_compute; reflexivity).
  rewrite E in Hl. clear E. cbn in Hl. injection Hl as Ha Hn.
  specialize (Hh _ ltac:(vm_compute; discriminate) full_run_here eq_refl). destruct Hh as (_ & _ & Hd).
  pose proof (ntp_session_agreement p s w Hd) as Hag.
  destruct (p_pending p) as [x|]; [discriminate Hn|].
  destruct (p_active p) as [d|]; [|discriminate Ha].
  destruct (s_active s) as [a|]; [|discriminate Hag]. exists d, a. split; [reflexivity|]. split; [reflexivity|].
  exact (f_equal (default (published_key d)) Hag).
Defined.
End NtpExample.
