(* ===== verification/StreamTransports.v ===== *)
(** * Listeners, and the TCP and the local transport

    What the listeners of TCP, local and QUIC connections share.  Their
    [accept] takes a permit before it waits for a connection; the permit goes
    into the connection, and is given back when the accept fails, when its
    future is dropped, or when the connection is.  A listener's own work, once
    a connection arrives, is the class [Acceptor].

    Then [mutsuki-link-tcp] and [mutsuki-link-local]: a framed connection
    over a stream of the operating system, with what accepting and connecting
    add.  What the system calls return is an argument; so is whether
    [tokio::time::timeout] elapsed.  Durations are in nanoseconds.  Local
    connections are modelled as on Unix. *)

From S2P Require Export Framed Security.
Local Open Scope N_scope.

(** ** Listeners *)

(** [Incoming] is what the operating system or quinn answers; an accept that
    these answers leave waiting has no result. *)
Class Acceptor (L Incoming Conn : Type) := {
  max_accepted : L -> N;
  accept_refused : TransportError;
  accept_connection : L -> EndpointId -> Incoming -> option (result TransportError Conn);
}.

Section listener.
Context {L Incoming Conn : Type} `{Acceptor L Incoming Conn} (listener : L).

(** The counter, the accepts that wait with a permit, and the connections that
    hold one. *)
Record Listening := mkListening {
  permits : N;
  accepting : N;
  accepted_connections : list Conn;
}.
Definition listening_new : Listening := mkListening 0 0 [].
Definition active_connections (s : Listening) : N := permits s.

Inductive listener_event :=
| AcceptCalled
| AcceptResumes (remote : EndpointId) (incoming : Incoming)
| AcceptDropped
| ConnectionDropped (i : nat).
Inductive listener_out :=
| Waits
| Returns (r : result TransportError Conn)
| Nothing.

Definition listener_step (x : listener_event) (s : Listening) : Listening * listener_out :=
  match x with
  | AcceptCalled =>
    match try_acquire (max_accepted listener) (permits s) with
    | (n, true) => (mkListening n (accepting s + 1) (accepted_connections s), Waits)
    | (n, false) => (mkListening n (accepting s) (accepted_connections s), Returns (Err accept_refused))
    end
  | AcceptResumes remote incoming =>
    if accepting s =? 0 then (s, Nothing)
    else
      match accept_connection listener remote incoming with
      | None => (s, Waits)
      | Some (Ok c) => (mkListening (permits s) (accepting s - 1) (accepted_connections s ++ [c]), Returns (Ok c))
      | Some (Err e) => (mkListening (drop_permit (permits s)) (accepting s - 1) (accepted_connections s), Returns (Err e))
      end
  | AcceptDropped =>
    if accepting s =? 0 then (s, Nothing)
    else (mkListening (drop_permit (permits s)) (accepting s - 1) (accepted_connections s), Nothing)
  | ConnectionDropped i =>
    match accepted_connections s !! i with
    | Some _ =>
      (mkListening (drop_permit (permits s)) (accepting s) (delete i (accepted_connections s)), Nothing)
    | None => (s, Nothing)
    end
  end.
Fixpoint listener_run (xs : list listener_event) (s : Listening)
    : Listening * list (listener_event * listener_out) :=
  match xs with
  | [] => (s, [])
  | x :: xs =>
    let '(s, o) := listener_step x s in
    let '(s, h) := listener_run xs s in (s, (x, o) :: h)
  end.
End listener.
#[global] Arguments listener_event : clear implicits.
#[global] Arguments listener_out : clear implicits.
#[global] Arguments Listening : clear implicits.

Import TransportErrorKind.

(** [std::net::SocketAddr]. *)
Inductive SocketAddr :=
| SocketAddrV4 (ip : vec byte 4) (port : N)
| SocketAddrV6 (ip : vec byte 16) (port flowinfo scope_id : N).
#[export] Instance SocketAddr_eq_dec : EqDecision SocketAddr.
Proof. solve_decision. Defined.

(** [context.deadline.saturating_duration_since(now)], at most the configured
    timeout. *)
Definition attempt_timeout (configured : N) (c : OperationContext) (now : N) : N :=
  match deadline c with Some d => N.min (d - now) configured | None => configured end.
(** The token may be cancelled between two looks at the context. *)
Definition later_context (c : OperationContext) (cancelled : bool) : OperationContext :=
  mkContext (deadline c) (is_cancelled (cancellation c) || cancelled).
Definition stream_metadata (local remote : EndpointId) : ConnectionMetadata :=
  mkMetadata local remote None true false.

(** ** TCP *)

Record TcpConfig := mkTcpConfig {
  tcp_budget : TransportBudget;
  tcp_connect_timeout : N;
  tcp_keepalive : option N;
  no_delay : bool;
}.
Definition default_tcp_config : TcpConfig :=
  mkTcpConfig default_transport_budget (10 * 1000000000) (Some (30 * 1000000000)) true.

Definition tcp_error (e : IoErrorKind) : TransportError :=
  transport_error
    match e with
    | IoAddrInUse => AddressInUse
    | IoTimedOut => TimedOut
    | IoWouldBlock => WouldBlock
    | IoConnectionAborted | IoConnectionReset => Aborted
    | IoBrokenPipe | IoConnectionRefused | IoUnexpectedEof => Closed
    | _ => Other
    end "TCP transport operation failed".
Definition tcp_connection_limit : TransportError := transport_error WouldBlock "TCP connection limit reached".

(** [C] is the framed connection. *)
Record TcpConnection (C : Type) := mkTcp {
  tcp_inner : C;
  peer_address : SocketAddr;
}.
#[global] Arguments mkTcp {C} _ _.
#[global] Arguments tcp_inner {C} _.
#[global] Arguments peer_address {C} _.
Definition tcp_security_level : SecurityLevel := Plaintext.

Definition tcp_connection {C W : Type} `{Connection C W} : Connection (TcpConnection C) W := {|
  metadata c := metadata (tcp_inner c);
  try_send c := try_send (tcp_inner c);
  try_receive c := try_receive (tcp_inner c);
  try_send_control c := try_send_control (tcp_inner c);
  try_receive_control c := try_receive_control (tcp_inner c);
  try_send_datagram _ _ := default_datagram;
  try_receive_datagram _ := default_datagram;
  close_write c := close_write (tcp_inner c);
  close_read c := close_read (tcp_inner c);
  connection_abort c := connection_abort (tcp_inner c);
|}.
#[export] Existing Instance tcp_connection.

(** The results of the calls that configure a socket. *)
Record SocketCalls := mkSocketCalls {
  set_nodelay : result IoErrorKind ();
  set_tcp_keepalive : result IoErrorKind ();
}.
Definition configure_stream (c : TcpConfig) (calls : SocketCalls) : result TransportError () :=
  _ ← map_err tcp_error (set_nodelay calls);
  match tcp_keepalive c with
  | Some _ => map_err tcp_error (set_tcp_keepalive calls)
  | None => Ok ()
  end.

(** A connection is what was spawned, with its metadata. *)
Record SpawnedConnection := mkSpawned { sp_metadata : ConnectionMetadata; sp_framed : FramedConnection }.
Definition tcp_make_connection (runtime : bool) (address : SocketAddr) (local remote : EndpointId)
    (b : TransportBudget) : result TransportError (TcpConnection SpawnedConnection) :=
  framed ← spawn_framed_halves runtime b;
  Ok (mkTcp (mkSpawned (stream_metadata local remote) framed) address).

Record TcpListener := mkTcpListener {
  tl_local_endpoint : EndpointId;
  tl_config : TcpConfig;
}.
Definition tcp_bind (local : EndpointId) (c : TcpConfig) (bound : result IoErrorKind ())
    : result TransportError TcpListener :=
  _ ← transport_budget_validate (tcp_budget c);
  _ ← map_err tcp_error bound;
  Ok (mkTcpListener local c).

Record TcpIncoming := mkTcpIncoming {
  ti_runtime : bool;
  ti_accepted : result IoErrorKind SocketAddr;
  ti_calls : SocketCalls;
}.
Definition tcp_accept (l : TcpListener) (remote : EndpointId) (i : TcpIncoming)
    : result TransportError (TcpConnection SpawnedConnection) :=
  address ← map_err tcp_error (ti_accepted i);
  _ ← configure_stream (tl_config l) (ti_calls i);
  tcp_make_connection (ti_runtime i) address (tl_local_endpoint l) remote (tcp_budget (tl_config l)).
Definition tcp_acceptor : Acceptor TcpListener TcpIncoming (TcpConnection SpawnedConnection) := {|
  max_accepted l := max_connections (tcp_budget (tl_config l));
  accept_refused := tcp_connection_limit;
  accept_connection l remote i := Some (tcp_accept l remote i);
|}.
#[export] Existing Instance tcp_acceptor.

(** [connected] is [None] when the timeout of [attempt_timeout] elapsed. *)
Definition tcp_connect (runtime : bool) (address : SocketAddr) (local remote : EndpointId) (c : TcpConfig)
    (context : OperationContext) (now1 : N) (connected : option (result IoErrorKind ()))
    (cancelled : bool) (now2 : N) (calls : SocketCalls)
    : result TransportError (TcpConnection SpawnedConnection) :=
  _ ← transport_budget_validate (tcp_budget c);
  _ ← context_check context now1;
  connected ← ok_or (transport_error TimedOut "TCP connection timed out") connected;
  _ ← map_err tcp_error connected;
  _ ← context_check (later_context context cancelled) now2;
  _ ← configure_stream c calls;
  tcp_make_connection runtime address local remote (tcp_budget c).

(** ** Local *)

Definition local_error (e : IoErrorKind) : TransportError :=
  transport_error
    match e with
    | IoAddrInUse => AddressInUse
    | IoTimedOut => TimedOut
    | IoWouldBlock => WouldBlock
    | IoNotFound | IoConnectionRefused => Closed
    | _ => Other
    end "local transport operation failed".
Definition local_connection_limit : TransportError :=
  transport_error WouldBlock "local connection limit reached".

(** The credentials that the platform reports; a process id is an [i32]. *)
Record PeerCreds := mkPeerCreds {
  creds_pid : option Z;
  creds_euid : option N;
  creds_egid : option N;
}.
Record LocalPeerCredentials := mkCredentials {
  process_id : option N;
  effective_user_id : option N;
  effective_group_id : option N;
}.
Definition local_credentials (c : PeerCreds) : LocalPeerCredentials :=
  mkCredentials
    (pid ← creds_pid c; if (pid <? 0)%Z then None else Some (Z.to_N pid))
    (creds_euid c) (creds_egid c).

Record LocalConnection (C : Type) := mkLocal {
  local_inner : C;
  peer_credentials : option LocalPeerCredentials;
}.
#[global] Arguments mkLocal {C} _ _.
#[global] Arguments local_inner {C} _.
#[global] Arguments peer_credentials {C} _.

Definition local_connection {C W : Type} `{Connection C W} : Connection (LocalConnection C) W := {|
  metadata c := metadata (local_inner c);
  try_send c := try_send (local_inner c);
  try_receive c := try_receive (local_inner c);
  try_send_control c := try_send_control (local_inner c);
  try_receive_control c := try_receive_control (local_inner c);
  try_send_datagram _ _ := default_datagram;
  try_receive_datagram _ := default_datagram;
  close_write c := close_write (local_inner c);
  close_read c := close_read (local_inner c);
  connection_abort c := connection_abort (local_inner c);
|}.
#[export] Existing Instance local_connection.

Definition local_make_connection (runtime : bool) (creds : result IoErrorKind PeerCreds)
    (local remote : EndpointId) (b : TransportBudget)
    : result TransportError (LocalConnection SpawnedConnection) :=
  let peer_credentials := match creds with Ok c => Some (local_credentials c) | Err _ => None end in
  framed ← spawn_framed_halves runtime b;
  Ok (mkLocal (mkSpawned (stream_metadata local remote) framed) peer_credentials).

Record LocalListener := mkLocalListener {
  ll_local_endpoint : EndpointId;
  ll_budget : TransportBudget;
}.
(** [named] is the conversion of the address, [created] the call that binds it. *)
Definition local_bind (local : EndpointId) (b : TransportBudget) (named created : result IoErrorKind ())
    : result TransportError LocalListener :=
  b ← transport_budget_validate b;
  _ ← map_err local_error named;
  _ ← map_err local_error created;
  Ok (mkLocalListener local b).

Record LocalIncoming := mkLocalIncoming {
  li_runtime : bool;
  li_accepted : result IoErrorKind ();
  li_creds : result IoErrorKind PeerCreds;
}.
Definition local_accept (l : LocalListener) (remote : EndpointId) (i : LocalIncoming)
    : result TransportError (LocalConnection SpawnedConnection) :=
  _ ← map_err local_error (li_accepted i);
  local_make_connection (li_runtime i) (li_creds i) (ll_local_endpoint l) remote (ll_budget l).
Definition local_acceptor : Acceptor LocalListener LocalIncoming (LocalConnection SpawnedConnection) := {|
  max_accepted l := max_connections (ll_budget l);
  accept_refused := local_connection_limit;
  accept_connection l remote i := Some (local_accept l remote i);
|}.
#[export] Existing Instance local_acceptor.

(** The attempt is limited only by the deadline of the context: [connected] is
    [None] when there is one and it elapsed. *)
Definition local_connect (runtime : bool) (local remote : EndpointId) (b : TransportBudget)
    (context : OperationContext) (now1 : N) (named : result IoErrorKind ())
    (connected : option (result IoErrorKind ())) (cancelled : bool) (now2 : N)
    (creds : result IoErrorKind PeerCreds) : result TransportError (LocalConnection SpawnedConnection) :=
  _ ← context_check context now1;
  _ ← map_err local_error named;
  connected ← ok_or (transport_error TimedOut "local connection timed out") connected;
  _ ← map_err local_error connected;
  _ ← context_check (later_context context cancelled) now2;
  local_make_connection runtime creds local remote b.
