(* ===== verification/Quic.v ===== *)
(** * The QUIC transport

    Models [mutsuki-link-quic].  A connection has two framed streams, one for
    control and one for data, and datagrams: those it sends wait in the
    real-time queue, those that arrive wait in a bounded queue that a task
    fills.  [quinn] is a parameter: a class of what the source asks of a
    [quinn::Connection], over a world of its own which every call may change.
    A method is a step ([Step]); durations are in nanoseconds. *)

From S2P Require Export StreamTransports Liveness Step.
Local Open Scope N_scope.
Import TransportErrorKind.

Definition CONTROL_STREAM_PREFACE : list byte :=
  str "MLINK" ++ (byte_of_n <$> [0; 1; 0]) ++ str "C".
Definition DATA_STREAM_PREFACE : list byte :=
  str "MLINK" ++ (byte_of_n <$> [0; 1; 0]) ++ str "D".
Definition MAX_REALTIME_DATAGRAMS_PER_POLL : N := 64.

(** ** What is asked of quinn *)

Inductive SendDatagramError := SdUnsupportedByPeer | SdDisabled | SdTooLarge | SdConnectionLost.
(** As far as the source tells the values apart. *)
Inductive ConnectionError :=
| CeTimedOut | CeLocallyClosed | CeApplicationClosed | CeConnectionClosed | CeOther.

Record PathStats := mkPathStats {
  ps_rtt : N;
  ps_cwnd : N;
  ps_congestion_events : N;
}.

Class QuinnConnection (W : Type) := {
  max_datagram_size : W -> W * option N;
  quinn_remote_address : W -> W * SocketAddr;
  quinn_stats : W -> W * PathStats;
  datagram_send_buffer_space : W -> W * N;
  send_datagram : list byte -> W -> W * result SendDatagramError ();
  quinn_close : N -> string -> W -> W;
}.

(** ** Errors *)

Definition unsupported_datagram : TransportError :=
  transport_error Unsupported "QUIC datagrams are not available".
Definition map_datagram_error (e : SendDatagramError) : TransportError :=
  match e with
  | SdTooLarge => transport_error MessageTooLarge "QUIC datagram exceeds path limit"
  | SdUnsupportedByPeer | SdDisabled => unsupported_datagram
  | SdConnectionLost => transport_error Closed "QUIC connection is closed"
  end.
Definition quic_connection_limit : TransportError :=
  transport_error WouldBlock "QUIC connection limit reached".
Definition quic_io_error : TransportError := transport_error Other "QUIC endpoint operation failed".
Definition quic_stream_error : TransportError := transport_error Closed "QUIC stream operation failed".
Definition quic_connect_error : TransportError := transport_error Other "QUIC connection setup failed".
Definition quic_connection_error (e : ConnectionError) : TransportError :=
  transport_error
    match e with
    | CeTimedOut => TimedOut
    | CeLocallyClosed | CeApplicationClosed | CeConnectionClosed => Closed
    | CeOther => Aborted
    end "QUIC connection failed".
Definition invalid_stream_set : TransportError :=
  transport_error Other "QUIC Link control/data stream set is incomplete".

(** ** Options *)

Record QuicOptions := mkQuicOptions {
  qo_budget : TransportBudget;
  qo_connect_timeout : N;
  enable_datagrams : bool;
  realtime_queue : RealtimeQueueConfig;
  enable_zero_rtt : bool;
}.
Definition default_quic_options : QuicOptions :=
  mkQuicOptions default_transport_budget (10 * 1000000000) true default_queue_config false.

Definition quic_options_validate (o : QuicOptions) : result TransportError QuicOptions :=
  _ ← transport_budget_validate (qo_budget o);
  reject negb (queue_config_valid (realtime_queue o))
    with transport_error Other "realtime queue limits must be positive";
  reject enable_zero_rtt o
    with transport_error Unsupported "0-RTT is disabled for replay-sensitive Link control operations";
  Ok o.

(** What is set on a default [quinn::TransportConfig]; [idle_timeout_fits] is
    the conversion to [quinn::IdleTimeout]. *)
Inductive TransportSetting :=
| MaxConcurrentBidiStreams (n : N)
| DatagramReceiveBufferSize (bytes : option N)
| DatagramSendBufferSize (bytes : N)
| MaxIdleTimeout (nanos : N)
| KeepAliveInterval (nanos : N).

Definition transport_config (idle_timeout_fits : N -> bool) (o : QuicOptions)
    : result TransportError (list TransportSetting) :=
  let b := qo_budget o in
  reject max_concurrent_streams b <? 2
    with transport_error Other "QUIC requires at least two streams for independent control and data";
  reject u32_max <? max_concurrent_streams b
    with transport_error Other "QUIC stream limit exceeds protocol range";
  let buffer := N.min usize_max (TransportBase.max_frame_bytes b * receive_queue_capacity b) in
  idle ← (match idle_timeout b with
          | None => Ok []
          | Some nanos =>
            reject negb (idle_timeout_fits nanos)
              with transport_error Other "QUIC idle timeout exceeds protocol range";
            Ok [MaxIdleTimeout nanos; KeepAliveInterval (nanos / 3)]
          end);
  Ok ([MaxConcurrentBidiStreams (max_concurrent_streams b)]
      ++ (if enable_datagrams o
          then [DatagramReceiveBufferSize (Some buffer); DatagramSendBufferSize buffer]
          else [DatagramReceiveBufferSize None; DatagramSendBufferSize 0])
      ++ idle).

(** ** Datagrams that arrive *)

Record RawReceivedDatagram := mkRaw { raw_received_at : N; raw_payload : list byte }.
Record DatagramReceiveState := mkReceive {
  dr_queue : list RawReceivedDatagram;
  dr_capacity : N;
  dr_overflow : N;
  dr_flow_stats : gmap N RealtimeFlowTelemetry;
}.
Definition receive_state_new (capacity : N) : DatagramReceiveState := mkReceive [] capacity 0 ∅.

(** [flow_stats.entry(flow).or_default()], updated, when there is a flow. *)
Definition on_receive_flow (flow : option N) (f : RealtimeFlowTelemetry -> RealtimeFlowTelemetry)
    (r : DatagramReceiveState) : DatagramReceiveState :=
  match flow with
  | Some flow =>
    r <|dr_flow_stats ::= fun m => <[flow := f (default default_flow_telemetry (m !! flow))]> m|>
  | None => r
  end.

Definition receive_push (payload : list byte) (received_at : N) (r : DatagramReceiveState)
    : DatagramReceiveState :=
  let r := on_receive_flow (realtime_flow_from_wire payload) (fun s =>
    s <|ft_received := sat_add u64_max (ft_received s) 1|>
      <|ft_received_bytes :=
          sat_add u64_max (ft_received_bytes s) (len payload - REALTIME_DATAGRAM_HEADER_LEN)|>) r in
  let r :=
    if dr_capacity r <=? len (dr_queue r) then
      match dr_queue r with
      | dropped :: queue =>
        on_receive_flow (realtime_flow_from_wire (raw_payload dropped)) (fun s =>
          s <|ft_receive_queue_overflow := sat_add u64_max (ft_receive_queue_overflow s) 1|>)
          (r <|dr_queue := queue|> <|dr_overflow := sat_add u64_max (dr_overflow r) 1|>)
      | [] => r
      end
    else r in
  r <|dr_queue := dr_queue r ++ [mkRaw received_at payload]|>.
Definition receive_pop (r : DatagramReceiveState) : DatagramReceiveState * option RawReceivedDatagram :=
  match dr_queue r with
  | x :: queue => (r <|dr_queue := queue|>, Some x)
  | [] => (r, None)
  end.
Definition receive_clear (r : DatagramReceiveState) : DatagramReceiveState := r <|dr_queue := []|>.

(** ** The connection *)

(** The metadata are those of both framed connections; of the reader's task, only
    whether it has ended and whether it was asked to. *)
Record QuicConnection := mkQuic {
  qc_metadata : ConnectionMetadata;
  qc_control : FramedConnection;
  qc_data : FramedConnection;
  datagram_receive : DatagramReceiveState;
  datagram_reader_finished : bool;
  datagram_reader_aborted : bool;
  datagrams_enabled : bool;
  max_datagram_bytes : N;
  realtime_send : RealtimeSendQueue;
  realtime_events : list RealtimeEvent;
  last_remote_address : SocketAddr;
}.

(** The task that reads datagrams. *)
Inductive reader_event := DatagramArrives (payload : list byte) (now : N) | DatagramReaderEnds.
Definition reader_acts (x : reader_event) (c : QuicConnection) : QuicConnection :=
  match x with
  | DatagramArrives payload now =>
    if datagram_reader_finished c then c
    else c <|datagram_receive := receive_push payload now (datagram_receive c)|>
  | DatagramReaderEnds => c <|datagram_reader_finished := true|>
  end.
Definition reader_runs (xs : list reader_event) (c : QuicConnection) : QuicConnection :=
  fold_left (fun c x => reader_acts x c) xs c.

Abbreviation quic W := (estep TransportError (QuicConnection * W)).

Section quic.
Context {W : Type} `{QuinnConnection W}.

Definition q_get {A} (f : QuicConnection -> A) : quic W A := get_state (fun s => f s.1).
Definition q_set (f : QuicConnection -> QuicConnection) : quic W () := update (fun s => (f s.1, s.2)).
Definition quinn_call {A} (f : W -> W * A) : quic W A := fun s =>
  let '(w, a) := f s.2 in Some ((s.1, w), Ok a).
Definition on_queue {A} (f : RealtimeSendQueue -> RealtimeSendQueue * A) : quic W A := fun s =>
  let '(q, a) := f (realtime_send s.1) in Some ((s.1 <|realtime_send := q|>, s.2), Ok a).
Definition on_control {A} (f : FramedConnection -> FramedConnection * A) : quic W A := fun s =>
  let '(c, a) := f (qc_control s.1) in Some ((s.1 <|qc_control := c|>, s.2), Ok a).
Definition on_data {A} (f : FramedConnection -> FramedConnection * A) : quic W A := fun s =>
  let '(c, a) := f (qc_data s.1) in Some ((s.1 <|qc_data := c|>, s.2), Ok a).
Definition push_event (e : RealtimeEvent) : quic W () :=
  q_set (fun c => c <|realtime_events := realtime_events c ++ [e]|>).

Definition quic_quality : quic W ConnectionQuality :=
  stats ← quinn_call quinn_stats;
  mret (mkQuality (Some (N.min u32_max (ps_rtt stats / 1000000))) None None None 0 0 0 0 (Some Quic)
          LivenessState.Healthy).
Definition quic_security_level : SecurityLevel := AuthenticatedEncrypted.
Definition quic_supports_connection_migration : bool := true.

Definition current_raw_datagram_limit : quic W N :=
  size ← quinn_call max_datagram_size; max ← q_get max_datagram_bytes; mret (N.min (default 0 size) max).
Definition current_realtime_payload_limit : quic W N :=
  limit ← current_raw_datagram_limit; mret (limit - REALTIME_DATAGRAM_HEADER_LEN).

Definition note_path : quic W () :=
  remote_address ← quinn_call quinn_remote_address;
  last ← q_get last_remote_address;
  if bool_decide (remote_address = last) then mret () else
  q_set (fun c => c <|last_remote_address := remote_address|>
                    <|realtime_send := note_migration (realtime_send c)|>);;
  push_event PathMigrated.
Definition note_stats : quic W () :=
  stats ← quinn_call quinn_stats;
  let rtt_us := N.min u64_max (ps_rtt stats / 1000) in
  let rate := N.min u64_max (N.min (2 ^ 128 - 1) (ps_cwnd stats * 8000000) / rtt_us) in
  q_set (fun c => c <|realtime_send :=
    note_network_metrics rtt_us (if 0 <? rtt_us then Some rate else None) (ps_congestion_events stats)
      (realtime_send c)|>).
Definition refresh_realtime_state : quic W () :=
  enabled ← q_get datagrams_enabled;
  if negb enabled then mret () else
  payload_limit ← current_realtime_payload_limit;
  refuse (payload_limit =? 0) unsupported_datagram;;
  previous ← q_get (fun c => max_payload (realtime_send c));
  changed ← on_queue (set_max_payload payload_limit); changed ← try_with changed;
  (if (changed : bool) then push_event (DatagramPayloadChanged previous payload_limit) else mret ());;
  note_path;; note_stats.

(** [pop_raw_datagram]: the queue is polled and, when it is empty, the task
    looked at; [xs] is what the task does between the two. *)
Definition pop_raw_datagram (xs : list reader_event) : quic W (option RawReceivedDatagram) := fun s =>
  let '(r, message) := receive_pop (datagram_receive s.1) in
  let c := s.1 <|datagram_receive := r|> in
  match message with
  | Some message => Some ((c, s.2), Ok (Some message))
  | None =>
    let c := reader_runs xs c in
    Some ((c, s.2),
      Err (if datagram_reader_finished c then transport_error Closed "QUIC datagram receiver is closed"
           else transport_error WouldBlock "no QUIC datagram is ready"))
  end.

(** ** The methods of [Connection] *)

Definition quic_try_send (message : list byte) : quic W () :=
  r ← on_data (framed_try_send DataLane message); try_with r.
Definition quic_try_send_control (message : list byte) : quic W () :=
  r ← on_control (framed_try_send ControlLane message); try_with r.
Definition quic_try_receive_control : quic W (option (list byte)) :=
  r ← on_control (framed_try_receive ControlLane); try_with r.
Definition quic_try_receive : quic W (option (list byte)) :=
  r ← on_control (framed_try_receive DataLane);
  match r with
  | Ok message => mret message
  | Err e =>
    if bool_decide (te_kind e = WouldBlock)
    then r ← on_data (framed_try_receive DataLane); try_with r
    else fail_with e
  end.

Definition quic_try_send_datagram (message : list byte) : quic W () :=
  enabled ← q_get datagrams_enabled; refuse (negb enabled) unsupported_datagram;;
  limit ← current_raw_datagram_limit;
  refuse (limit <? len message) (transport_error MessageTooLarge "QUIC datagram exceeds configured limit");;
  r ← quinn_call (send_datagram message); try_with (map_err map_datagram_error r).
Definition quic_try_receive_datagram (xs : list reader_event) : quic W (option (list byte)) :=
  enabled ← q_get datagrams_enabled; refuse (negb enabled) unsupported_datagram;;
  message ← pop_raw_datagram xs; mret (raw_payload <$> message).
Definition quic_max_datagram_payload : quic W (option N) :=
  enabled ← q_get datagrams_enabled;
  if (enabled : bool)
  then limit ← current_realtime_payload_limit; mret (if 0 <? limit then Some limit else None)
  else mret None.

(** The loop of [poll_realtime]. *)
Fixpoint poll_loop (fuel : nat) (now sent : N) : quic W N :=
  match fuel with
  | O => panics
  | S fuel =>
    if MAX_REALTIME_DATAGRAMS_PER_POLL <=? sent then mret sent else
    available ← quinn_call datagram_send_buffer_space;
    datagram ← on_queue (pop_next_fitting now available);
    match datagram with
    | Some d =>
      encoded ← try_with (encode_realtime_datagram d);
      r ← quinn_call (send_datagram encoded); try_with (map_err map_datagram_error r);;
      q_set (fun c => c <|realtime_send := note_sent d (realtime_send c)|>);;
      poll_loop fuel now (sat_add usize_max sent 1)
    | None =>
      pending ← q_get (fun c => pending_datagrams (realtime_send c));
      if 0 <? pending then
        q_set (fun c => c <|realtime_send := note_transport_congestion (realtime_send c)|>);;
        dropped ← on_queue drop_disposable_for_congestion;
        if 0 <? dropped then poll_loop fuel now sent else mret sent
      else mret sent
    end
  end.
(** A turn for each datagram, one that drops what is disposable, and the last. *)
Definition poll_fuel : nat := N.to_nat MAX_REALTIME_DATAGRAMS_PER_POLL + 2.
Definition quic_poll_realtime (now : N) : quic W N :=
  enabled ← q_get datagrams_enabled; refuse (negb enabled) unsupported_datagram;;
  refresh_realtime_state;; poll_loop poll_fuel now 0.

Definition quic_try_send_latest (d : RealtimeDatagram) (now : N) : quic W SendOutcome :=
  enabled ← q_get datagrams_enabled;
  if negb enabled then mret Realtime.Unsupported else
  refresh_realtime_state;;
  drops_before ← q_get (fun c => congestion_dropped_for_flow (realtime_send c) (rd_flow d));
  outcome ← on_queue (Realtime.enqueue d now); outcome ← try_with outcome;
  quic_poll_realtime now;;
  drops_after ← q_get (fun c => congestion_dropped_for_flow (realtime_send c) (rd_flow d));
  mret (if drops_before <? drops_after then DroppedCongested else outcome).

Definition quic_try_receive_realtime (xs : list reader_event) : quic W (option ReceivedRealtimeDatagram) :=
  enabled ← q_get datagrams_enabled; refuse (negb enabled) unsupported_datagram;;
  message ← pop_raw_datagram xs;
  step_map (fun item => try_with (decode_realtime_datagram (raw_payload item) (raw_received_at item)))
    message.

(** The receiver's counts take the place of the queue's. *)
Definition merge_receive_stats (l : list (N * RealtimeFlowTelemetry)) (t : RealtimeTelemetry)
    : RealtimeTelemetry :=
  fold_left (fun t '(flow, r) =>
    on_flow flow (fun s =>
      s <|ft_received := ft_received r|> <|ft_received_bytes := ft_received_bytes r|>
        <|ft_receive_queue_overflow := ft_receive_queue_overflow r|>) t) l t.
Definition quic_realtime_telemetry (c : QuicConnection) : RealtimeTelemetry :=
  let r := datagram_receive c in
  merge_receive_stats (btree_iter (dr_flow_stats r))
    ((telemetry (realtime_send c)) <|rt_receive_queue_overflow := dr_overflow r|>).
Definition quic_take_realtime_events : quic W (list RealtimeEvent) :=
  events ← q_get realtime_events; q_set (fun c => c <|realtime_events := []|>);; mret events.

Definition quic_reset_realtime_session : quic W () :=
  q_set (fun c => c <|realtime_send := reset_for_reconnect (realtime_send c)|>
                    <|datagram_receive := receive_clear (datagram_receive c)|>);;
  push_event SessionReset.
Definition quic_close_write : quic W () :=
  q_set (fun c => c <|realtime_send := clear_pending (realtime_send c)|>
                    <|qc_control := framed_close_write (qc_control c)|>
                    <|qc_data := framed_close_write (qc_data c)|>).
Definition quic_close_read : quic W () :=
  q_set (fun c => c <|qc_control := framed_close_read (qc_control c)|>
                    <|qc_data := framed_close_read (qc_data c)|>).
(** [abort], which dropping the connection calls too. *)
Definition quic_abort : quic W () :=
  q_set (fun c => c <|realtime_send := clear_pending (realtime_send c)|>
                    <|datagram_receive := receive_clear (datagram_receive c)|>
                    <|qc_control := framed_abort (qc_control c)|>
                    <|qc_data := framed_abort (qc_data c)|>
                    <|datagram_reader_aborted := true|>);;
  update (fun s => (s.1, quinn_close 1 "link connection aborted" s.2)).

End quic.

(** ** Setting a connection up

    [Tx] and [Rx] are the two halves of a bidirectional stream of quinn.  Its
    calls are awaited and none of them has a timeout here: [None] is a call
    that never completes, and so is a step that awaits one; nothing in this
    section panics. *)

Class QuinnStreams (Tx Rx W : Type) := {
  open_bi : W -> option (W * result ConnectionError (Tx * Rx));
  accept_bi : W -> option (W * result ConnectionError (Tx * Rx));
  write_all : Tx -> list byte -> W -> option (W * result () ());
  read_exact : Rx -> N -> W -> option (W * result () (list byte));
}.

Record QuicStreams (Tx Rx : Type) := mkStreams {
  control_send : Tx;
  control_receive : Rx;
  data_send : Tx;
  data_receive : Rx;
}.
#[global] Arguments mkStreams {Tx Rx} _ _ _ _.
#[global] Arguments control_send {Tx Rx} _.
#[global] Arguments control_receive {Tx Rx} _.
#[global] Arguments data_send {Tx Rx} _.
#[global] Arguments data_receive {Tx Rx} _.

(** The halves that the tasks of the two framed connections own. *)
Record QuicBridges (Tx Rx : Type) := mkBridges {
  control_bridge : Rx * Tx;
  data_bridge : Rx * Tx;
}.
#[global] Arguments mkBridges {Tx Rx} _ _.
#[global] Arguments control_bridge {Tx Rx} _.
#[global] Arguments data_bridge {Tx Rx} _.

Inductive StreamKind := ControlKind | DataKind.
#[export] Instance StreamKind_eq_dec : EqDecision StreamKind.
Proof. solve_decision. Defined.

(** [spawn_framed_halves]: the tasks it spawns take the halves. *)
Definition spawn_over {Tx Rx} (receive : Rx) (send : Tx) (runtime : bool) (b : TransportBudget)
    : result TransportError (FramedConnection * (Rx * Tx)) :=
  framed ← spawn_framed_halves runtime b; Ok (framed, (receive, send)).

Definition quic_make_connection {Tx Rx W} `{QuinnConnection W} (runtime : bool) (streams : QuicStreams Tx Rx)
    (local remote : EndpointId) (o : QuicOptions) : estep TransportError W (QuicConnection * QuicBridges Tx Rx) :=
  enabled ← (if enable_datagrams o
             then size ← asks max_datagram_size; mret (bool_decide (is_Some size))
             else mret false);
  let metadata := mkMetadata local remote None true enabled in
  control ← try_with (spawn_over (control_receive streams) (control_send streams) runtime (qo_budget o));
  data ← try_with (spawn_over (data_receive streams) (data_send streams) runtime (qo_budget o));
  let max_bytes := TransportBase.max_frame_bytes (qo_budget o) in
  size ← asks max_datagram_size;
  let payload := N.max (N.min (default 0 size) max_bytes - REALTIME_DATAGRAM_HEADER_LEN) 1 in
  queue ← try_with (realtime_queue_new (realtime_queue o) payload);
  remote_address ← asks quinn_remote_address;
  mret (mkQuic metadata control.1 data.1 (receive_state_new (receive_queue_capacity (qo_budget o)))
          false false enabled max_bytes queue [] remote_address, mkBridges control.2 data.2).

Section setup.
Context {Tx Rx W : Type} `{QuinnConnection W} `{QuinnStreams Tx Rx W}.

Definition awaits {A} (f : W -> option (W * A)) : estep TransportError W A := fun w =>
  '(w, a) ← f w; Some (w, Ok a).

Definition open_streams : estep TransportError W (QuicStreams Tx Rx) :=
  control ← awaits open_bi; control ← try_with (map_err quic_connection_error control);
  written ← awaits (write_all control.1 CONTROL_STREAM_PREFACE);
  try_with (map_err (fun _ => quic_stream_error) written);;
  data ← awaits open_bi; data ← try_with (map_err quic_connection_error data);
  written ← awaits (write_all data.1 DATA_STREAM_PREFACE);
  try_with (map_err (fun _ => quic_stream_error) written);;
  mret (mkStreams control.1 control.2 data.1 data.2).

Definition preface_kind (preface : list byte) : result TransportError StreamKind :=
  if bool_decide (preface = CONTROL_STREAM_PREFACE) then Ok ControlKind
  else if bool_decide (preface = DATA_STREAM_PREFACE) then Ok DataKind
  else Err (transport_error Other "QUIC Link stream preface is invalid").
Definition receive_preface (receive : Rx) : estep TransportError W StreamKind :=
  preface ← awaits (read_exact receive (len CONTROL_STREAM_PREFACE));
  preface ← try_with (map_err (fun _ => quic_stream_error) preface);
  try_with (preface_kind preface).

(** The loop over the streams that are still to be accepted. *)
Fixpoint accept_loop (n : nat) (control data : option (Tx * Rx))
    : estep TransportError W (option (Tx * Rx) * option (Tx * Rx)) :=
  match n with
  | O => mret (control, data)
  | S n =>
    stream ← awaits accept_bi; stream ← try_with (map_err quic_connection_error stream);
    kind ← receive_preface stream.2;
    match kind with
    | ControlKind => accept_loop n (Some stream) data
    | DataKind => accept_loop n control (Some stream)
    end
  end.
Definition accept_streams : estep TransportError W (QuicStreams Tx Rx) :=
  streams ← accept_loop 2 None None;
  control ← try_with (ok_or invalid_stream_set streams.1);
  data ← try_with (ok_or invalid_stream_set streams.2);
  mret (mkStreams control.1 control.2 data.1 data.2).

(** [QuicListener]: its options were validated when it was bound. *)
Record QuicListener := mkQuicListener {
  ql_local_endpoint : EndpointId;
  ql_options : QuicOptions;
}.
Definition quic_bind (idle_timeout_fits : N -> bool) (local : EndpointId) (o : QuicOptions)
    (bound : result IoErrorKind ()) : result TransportError QuicListener :=
  o ← quic_options_validate o;
  _ ← transport_config idle_timeout_fits o;
  _ ← map_err (fun _ => quic_io_error) bound;
  Ok (mkQuicListener local o).

(** What comes to a listener: nothing yet, no more, or a connection, whose
    handshake may take for ever. *)
Record QuicIncoming := mkQuicIncoming {
  qi_runtime : bool;
  qi_incoming : option (option (option (result ConnectionError ())));
  qi_connection : W;
}.
(** [QuicListener::accept], once it has a permit. *)
Definition quic_accept (l : QuicListener) (remote : EndpointId) (i : QuicIncoming)
    : option (W * result TransportError (QuicConnection * QuicBridges Tx Rx)) :=
  (incoming ← awaits (fun w => incoming ← qi_incoming i; Some (w, incoming));
   handshake ← try_with (ok_or (transport_error Closed "QUIC listener is closed") incoming);
   handshake ← awaits (fun w => handshake ← handshake; Some (w, handshake));
   try_with (map_err quic_connection_error handshake);;
   streams ← accept_streams;
   quic_make_connection (qi_runtime i) streams (ql_local_endpoint l) remote (ql_options l)) (qi_connection i).

Definition quic_acceptor : Acceptor QuicListener QuicIncoming (QuicConnection * QuicBridges Tx Rx * W) := {|
  max_accepted l := max_connections (qo_budget (ql_options l));
  accept_refused := quic_connection_limit;
  accept_connection l remote i := '(w, r) ← quic_accept l remote i; Some (c ← r; Ok (c, w));
|}.

(** [QuicConnector::new]. *)
Definition quic_connector_new (idle_timeout_fits : N -> bool) (o : QuicOptions)
    (bound : result IoErrorKind ()) : result TransportError QuicOptions :=
  o ← quic_options_validate o;
  _ ← transport_config idle_timeout_fits o;
  _ ← map_err (fun _ => quic_io_error) bound;
  Ok o.
(** [started] is whether [Endpoint::connect] refuses; [connecting] is [None]
    when the timeout of [attempt_timeout] elapsed.  Opening the streams has no
    timeout. *)
Definition quic_connect (runtime : bool) (local remote : EndpointId) (o : QuicOptions)
    (context : OperationContext) (now1 : N) (started : result () ())
    (connecting : option (result ConnectionError ())) (cancelled : bool) (now2 : N)
    : estep TransportError W (QuicConnection * QuicBridges Tx Rx) :=
  try_with (context_check context now1);;
  try_with (map_err (fun _ => quic_connect_error) started);;
  connecting ← try_with (ok_or (transport_error TimedOut "QUIC connection timed out") connecting);
  try_with (map_err quic_connection_error connecting);;
  try_with (context_check (later_context context cancelled) now2);;
  streams ← open_streams;
  quic_make_connection runtime streams local remote o.
End setup.
#[export] Existing Instance quic_acceptor.
