(* ===== verification/QuicReceive.v ===== *)
(** * The queue of datagrams that arrive *)

From S2P Require Export Quic.
Local Open Scope N_scope.

(** What the reader's task and the connection do to it, and what [pop] returns. *)
Inductive receive_op := ReceivePush (payload : list byte) (now : N) | ReceivePop | ReceiveClear.
Definition receive_step (x : receive_op) (r : DatagramReceiveState)
    : DatagramReceiveState * list RawReceivedDatagram :=
  match x with
  | ReceivePush payload now => (receive_push payload now r, [])
  | ReceivePop => let '(r, o) := receive_pop r in (r, option_list o)
  | ReceiveClear => (receive_clear r, [])
  end.
Fixpoint receive_run (xs : list receive_op) (r : DatagramReceiveState)
    : DatagramReceiveState * list RawReceivedDatagram :=
  match xs with
  | [] => (r, [])
  | x :: xs =>
    let '(r, l) := receive_step x r in
    let '(r, l') := receive_run xs r in (r, l ++ l')
  end.
Definition arrival (x : receive_op) : option RawReceivedDatagram :=
  match x with ReceivePush payload now => Some (mkRaw now payload) | _ => None end.
Definition arrivals (xs : list receive_op) : list RawReceivedDatagram := omap arrival xs.

(** ** The specification: a window of the arrivals

    An arrival enters the window; when it is full, and only then, the oldest
    one leaves it and is lost.  The others are returned or forgotten. *)
Record window := mkWindow {
  w_queue : list RawReceivedDatagram;
  w_returned : list RawReceivedDatagram;
  w_forgotten : list RawReceivedDatagram;
  w_lost : list RawReceivedDatagram;
}.
Definition window_step (capacity : N) (w : window) (x : receive_op) : window :=
  let 'mkWindow queue returned forgotten lost := w in
  match x with
  | ReceivePush payload now =>
    if len queue =? capacity
    then mkWindow (drop 1 queue ++ [mkRaw now payload]) returned forgotten (lost ++ take 1 queue)
    else mkWindow (queue ++ [mkRaw now payload]) returned forgotten lost
  | ReceivePop => mkWindow (drop 1 queue) (returned ++ take 1 queue) forgotten lost
  | ReceiveClear => mkWindow [] returned (forgotten ++ queue) lost
  end.
Definition window_run (capacity : N) (xs : list receive_op) : window :=
  fold_left (window_step capacity) xs (mkWindow [] [] [] []).

(** A window is the end of what arrived, and nothing is unaccounted for. *)
Record window_ok (capacity : N) (arrived : list RawReceivedDatagram) (w : window) : Prop := {
  wo_bounded : len (w_queue w) <= capacity;
  wo_newest : w_queue w `suffix_of` arrived;
  wo_order : w_returned w ++ w_queue w `sublist_of` arrived;
  wo_all : w_returned w ++ w_forgotten w ++ w_lost w ++ w_queue w ≡ₚ arrived;
}.

Lemma window_step_ok capacity arrived w x :
  0 < capacity -> window_ok capacity arrived w ->
  window_ok capacity (arrived ++ option_list (arrival x)) (window_step capacity w x).
Proof.
  intros Hc [H1 H2 H3 H4]. destruct w as [q ret fgt lost]. cbn in *.
  destruct x as [payload now| |]; cbn [arrival option_list window_step].
  - set (d := mkRaw now payload). clearbody d. case (N.eqb_spec (len q) capacity) as [Hf|Hf].
    + destruct q as [|y q]; [cbn in Hf; lia|].
      change (drop 1 (y :: q)) with q. change (take 1 (y :: q)) with [y]. split; cbn in *.
      * rewrite length_app. cbn. lia.
      * apply suffix_app. etrans; [|exact H2]. by exists [y].
      * rewrite app_assoc. apply sublist_app; [|done]. etrans; [|exact H3].
        apply sublist_app; [done|]. by apply sublist_cons.
      * rewrite <- H4. by rewrite <- !app_assoc.
    + split; cbn.
      * rewrite length_app. cbn. lia.
      * by apply suffix_app.
      * rewrite app_assoc. by apply sublist_app.
      * rewrite <- H4. by rewrite <- !app_assoc.
  - rewrite app_nil_r. destruct q as [|y q]; cbn in *.
    + by split; cbn; rewrite ?app_nil_r in *.
    + change (take 0 q) with (@nil RawReceivedDatagram). change (drop 0 q) with q. split; cbn; [lia| | |].
      * etrans; [|exact H2]. by exists [y].
      * by rewrite <- app_assoc.
      * rewrite <- H4, <- app_assoc. f_equiv. cbn. rewrite !app_assoc. apply Permutation_middle.
  - rewrite app_nil_r. split; cbn; [lia|apply suffix_nil| |].
    + rewrite app_nil_r. etrans; [|exact H3]. by apply sublist_inserts_r.
    + rewrite app_nil_r, <- H4, <- app_assoc. do 2 f_equiv. apply Permutation_app_comm.
Qed.

(** ** The counters *)

Definition of_flow (flow : N) (x : RawReceivedDatagram) : bool :=
  bool_decide (realtime_flow_from_wire (raw_payload x) = Some flow).
Definition flow_count (flow : N) (l : list RawReceivedDatagram) : N := len (List.filter (of_flow flow) l).
(** The bytes of payload, without the headers. *)
Definition payload_len (x : RawReceivedDatagram) : N := len (raw_payload x) - REALTIME_DATAGRAM_HEADER_LEN.
Definition flow_bytes (flow : N) (l : list RawReceivedDatagram) : N :=
  N.of_nat (sum_list_with (fun x => N.to_nat (payload_len x)) (List.filter (of_flow flow) l)).
Definition flow_stats_of (flow : N) (r : DatagramReceiveState) : RealtimeFlowTelemetry :=
  default default_flow_telemetry (dr_flow_stats r !! flow).

(** The counters saturate. *)
Record receive_inv (capacity : N) (arrived : list RawReceivedDatagram) (w : window)
    (r : DatagramReceiveState) : Prop := {
  ri_capacity : dr_capacity r = capacity;
  ri_queue : dr_queue r = w_queue w;
  ri_window : window_ok capacity arrived w;
  ri_overflow : dr_overflow r = N.min u64_max (len (w_lost w));
  ri_flow flow :
    ft_received (flow_stats_of flow r) = N.min u64_max (flow_count flow arrived)
    /\ ft_received_bytes (flow_stats_of flow r) = N.min u64_max (flow_bytes flow arrived)
    /\ ft_receive_queue_overflow (flow_stats_of flow r) = N.min u64_max (flow_count flow (w_lost w));
}.

Lemma flow_count_app flow l1 l2 : flow_count flow (l1 ++ l2) = flow_count flow l1 + flow_count flow l2.
Proof. unfold flow_count. rewrite List.filter_app, length_app. lia. Qed.
Lemma flow_bytes_app flow l1 l2 : flow_bytes flow (l1 ++ l2) = flow_bytes flow l1 + flow_bytes flow l2.
Proof. unfold flow_bytes. rewrite List.filter_app, sum_list_with_app. lia. Qed.
Lemma flow_count_one flow x :
  flow_count flow [x] = if bool_decide (realtime_flow_from_wire (raw_payload x) = Some flow) then 1 else 0.
Proof. unfold flow_count, of_flow. cbn. by destruct (bool_decide _). Qed.
Lemma flow_bytes_one flow x :
  flow_bytes flow [x]
  = if bool_decide (realtime_flow_from_wire (raw_payload x) = Some flow) then payload_len x else 0.
Proof. unfold flow_bytes, of_flow. cbn. destruct (bool_decide _); cbn; lia. Qed.

Lemma on_receive_flow_frame o f r :
  dr_queue (on_receive_flow o f r) = dr_queue r /\ dr_capacity (on_receive_flow o f r) = dr_capacity r
  /\ dr_overflow (on_receive_flow o f r) = dr_overflow r.
Proof. by destruct o. Qed.
Lemma flow_stats_on o f r flow :
  flow_stats_of flow (on_receive_flow o f r)
  = if bool_decide (o = Some flow) then f (flow_stats_of flow r) else flow_stats_of flow r.
Proof.
  unfold flow_stats_of. destruct o as [flow'|]; cbn; [|done].
  case_bool_decide as E; [injection E as ->; by rewrite lookup_insert_eq|].
  by rewrite lookup_insert_ne by congruence.
Qed.

(** A push loses the oldest datagram when the queue is full, and none otherwise. *)
Lemma receive_push_spec payload now r :
  0 < dr_capacity r -> len (dr_queue r) <= dr_capacity r ->
  let d := mkRaw now payload in
  let gone := if len (dr_queue r) =? dr_capacity r then take 1 (dr_queue r) else [] in
  let r' := receive_push payload now r in
  dr_queue r' = (if len (dr_queue r) =? dr_capacity r then drop 1 (dr_queue r) else dr_queue r) ++ [d]
  /\ dr_capacity r' = dr_capacity r
  /\ dr_overflow r' = (if len (dr_queue r) =? dr_capacity r then sat_add u64_max (dr_overflow r) 1 else dr_overflow r)
  /\ forall flow, let s := flow_stats_of flow r in let s' := flow_stats_of flow r' in
       ft_received s' = (if of_flow flow d then sat_add u64_max (ft_received s) 1 else ft_received s)
       /\ ft_received_bytes s'
          = (if of_flow flow d then sat_add u64_max (ft_received_bytes s) (payload_len d) else ft_received_bytes s)
       /\ ft_receive_queue_overflow s'
          = (if existsb (of_flow flow) gone then sat_add u64_max (ft_receive_queue_overflow s) 1
             else ft_receive_queue_overflow s).
Proof.
  intros Hc Hl. cbv zeta. unfold receive_push.
  match goal with |- context [on_receive_flow (realtime_flow_from_wire payload) ?f r] =>
    pose proof (on_receive_flow_frame (realtime_flow_from_wire payload) f r) as (Hq & Hcap & Hov);
    pose proof (flow_stats_on (realtime_flow_from_wire payload) f r) as Hfl;
    set (r1 := on_receive_flow (realtime_flow_from_wire payload) f r) in * end.
  rewrite Hcap, Hq. destruct (N.leb_spec (dr_capacity r) (len (dr_queue r))) as [Hfull|Hroom].
  - rewrite (proj2 (N.eqb_eq _ _)) by lia. destruct (dr_queue r) as [|d kept] eqn:E; cbn [length] in Hfull; [lia|].
    cbn [take drop existsb]. rewrite take_0, drop_0.
    match goal with |- context [on_receive_flow ?o ?f ?r2] =>
      pose proof (on_receive_flow_frame o f r2) as (Hq2 & Hcap2 & Hov2);
      pose proof (flow_stats_on o f r2) as Hfl2; set (r3 := on_receive_flow o f r2) in * end.
    cbn in Hq2, Hcap2, Hov2. split_and!; cbn; [by rewrite Hq2|congruence|congruence|].
    intros flow. specialize (Hfl flow). specialize (Hfl2 flow).
    change (flow_stats_of flow (r3 <|dr_queue := _|>)) with (flow_stats_of flow r3).
    rewrite Hfl2. change (flow_stats_of flow (r1 <|dr_queue := _|> <|dr_overflow := _|>)) with (flow_stats_of flow r1).
    rewrite Hfl. unfold of_flow. cbn [raw_payload]. rewrite orb_false_r. by repeat case_bool_decide.
  - rewrite (proj2 (N.eqb_neq _ _)) by lia. cbn. split_and!; [by rewrite Hq|done|done|].
    intros flow. specialize (Hfl flow).
    change (flow_stats_of flow (r1 <|dr_queue := _|>)) with (flow_stats_of flow r1).
    rewrite Hfl. unfold of_flow. cbn [raw_payload]. by repeat case_bool_decide.
Qed.

Lemma receive_step_inv capacity x r arrived w :
  0 < capacity -> receive_inv capacity arrived w r ->
  receive_inv capacity (arrived ++ option_list (arrival x)) (window_step capacity w x) (receive_step x r).1
  /\ w_returned (window_step capacity w x) = w_returned w ++ (receive_step x r).2.
Proof.
  intros Hc [H1 H2 H3 H4 H5]. pose proof (window_step_ok _ _ _ x Hc H3) as Hw. pose proof (wo_bounded _ _ _ H3) as Hb.
  destruct w as [q ret fgt lost], x as [payload now| |]; cbn [receive_step arrival option_list fst snd] in *.
  - destruct (receive_push_spec payload now r ltac:(lia) ltac:(rewrite H2; cbn in *; lia)) as (Hq & Hc' & Ho & Hf).
    set (r' := receive_push payload now r) in *. clearbody r'. cbn [w_queue w_lost w_returned] in *. rewrite H1, H2 in *.
    rewrite app_nil_r. split; [|cbn; by destruct (_ =? _)].
    assert (len (take 1 q) <= 1) as Ht by (rewrite length_take; lia).
    split; [congruence|cbn; rewrite Hq; by destruct (_ =? _)|done| |].
    + rewrite Ho, H4. cbn. destruct (N.eqb_spec (len q) capacity) as [E|]; [|done]. cbn [w_lost].
      rewrite length_app. destruct q; cbn in *; [lia|]. unfold sat_add. rewrite take_0. cbn. lia.
    + intros flow. destruct (Hf flow) as (F1 & F2 & F3), (H5 flow) as (G1 & G2 & G3).
      rewrite F1, F2, F3, G1, G2, G3, (flow_count_app flow arrived), (flow_bytes_app flow arrived).
      change (option_list (Some (mkRaw now payload))) with [mkRaw now payload].
      rewrite flow_count_one, flow_bytes_one. cbn [window_step]. unfold of_flow at 1 2. cbn [raw_payload].
      split_and!; [unfold sat_add; case_bool_decide; lia..|].
      destruct (_ =? _); cbn [w_lost existsb]; [|done]. rewrite flow_count_app.
      destruct q as [|y q]; cbn [take existsb]; [by rewrite N.add_0_r|]. rewrite take_0, flow_count_one.
      cbn [existsb]. rewrite orb_false_r. unfold of_flow, sat_add. case_bool_decide; lia.
  - unfold receive_pop. cbn in H2. rewrite H2. destruct q as [|y q]; cbn in *; rewrite ?app_nil_r in *; split; try done;
      split; try done; cbn; by rewrite ?drop_0.
  - rewrite !app_nil_r in *. by split.
Qed.

(** C31: The bounded queue of received datagrams is a window of the arrivals.
    Whatever arrives, is received and is reset, the queue holds what the
    window holds and [pop] returns what it returns: a datagram is lost exactly
    when one arrives while the queue holds its capacity, and it is the oldest.
    So the queue is never longer than its capacity and is the end of what
    arrived, what is returned comes in the order of arrival and once, and
    every arrival was returned, forgotten by a reset, lost, or is in the
    queue.  The counters are those numbers, up to saturation: the losses in
    all, and of each flow the arrivals, their bytes without the headers and
    the losses. *)
Theorem receive_window capacity xs :
  0 < capacity ->
  let '(r, taken) := receive_run xs (receive_state_new capacity) in
  let w := window_run capacity xs in
  dr_queue r = w_queue w /\ taken = w_returned w
  /\ window_ok capacity (arrivals xs) w
  /\ dr_overflow r = N.min u64_max (len (w_lost w))
  /\ forall flow,
       ft_received (flow_stats_of flow r) = N.min u64_max (flow_count flow (arrivals xs))
       /\ ft_received_bytes (flow_stats_of flow r) = N.min u64_max (flow_bytes flow (arrivals xs))
       /\ ft_receive_queue_overflow (flow_stats_of flow r) = N.min u64_max (flow_count flow (w_lost w)).
Proof.
  intros Hc. enough (forall r arrived w, receive_inv capacity arrived w r ->
    receive_inv capacity (arrived ++ arrivals xs) (fold_left (window_step capacity) xs w) (receive_run xs r).1
    /\ w_returned (fold_left (window_step capacity) xs w) = w_returned w ++ (receive_run xs r).2) as H.
  { destruct (H (receive_state_new capacity) [] (mkWindow [] [] [] [])) as [[_ H1 H2 H3 H4] Ht].
    - split; try done. split; cbn; try done. lia.
    - destruct (receive_run _ _) as [r taken]. by split_and!. }
  induction xs as [|x xs IH]; intros r arrived w Hi; cbn [receive_run arrivals omap list_omap fold_left].
  { cbn. by rewrite !app_nil_r. }
  destruct (receive_step_inv _ x _ _ _ Hc Hi) as [Hi' Ht].
  destruct (receive_step x r) as [r1 l1]. cbn [fst snd] in Hi', Ht. apply IH in Hi' as [Hi' Ht'].
  destruct (receive_run xs r1) as [r2 l2]. cbn [fst snd] in *. rewrite Ht', Ht, <- app_assoc. split; [|done].
  rewrite <- !app_assoc in Hi'. by destruct (arrival x).
Qed.

Definition sample_arrivals : list receive_op :=
  (fun n => ReceivePush (REALTIME_MAGIC ++ [byte_of_n 1; byte_of_n 1] ++ be_bytes 2 5 ++ be_bytes 4 1
                         ++ be_bytes 8 n ++ [byte_of_n n]) n) <$> [0; 1; 2; 3; 4; 5; 6; 7].
Lemma receive_window_witness :
  let '(r, taken) := receive_run (sample_arrivals ++ [ReceivePop]) (receive_state_new 2) in
  (dr_overflow r, raw_received_at <$> taken, raw_received_at <$> dr_queue r,
    ft_receive_queue_overflow (flow_stats_of 5 r)) = (6, [6], [7], 6)
  /\ ft_received_bytes (flow_stats_of 5 r) = 8.
Proof.
  pose proof (receive_window 2 (sample_arrivals ++ [ReceivePop]) ltac:(reflexivity)) as H.
  assert (let '(r, taken) := receive_run (sample_arrivals ++ [ReceivePop]) (receive_state_new 2) in
    (dr_overflow r, raw_received_at <$> taken, raw_received_at <$> dr_queue r,
      ft_receive_queue_overflow (flow_stats_of 5 r)) = (6, [6], [7], 6)) as He by (vm_compute; exact eq_refl).
  assert (N.min u64_max (flow_bytes 5 (arrivals (sample_arrivals ++ [ReceivePop]))) = 8) as Hb by (vm_compute; exact eq_refl).
  destruct (receive_run _ _) as [r taken]. destruct H as (_ & _ & _ & _ & H). split; [exact He|].
  destruct (H 5) as (_ & H5 & _). rewrite Hb in H5. exact H5.
Defined.
