(* ===== verification/QuicPoll.v ===== *)
(** * Polling the real-time queue into quinn *)

From S2P Require Export Quic RealtimeWire.
Local Open Scope N_scope.

(** ** What polling leaves of the queue *)

Abbreviation disposable := (fun g => bool_decide (pg_priority g = RealtimePriority.Disposable)).

(** [g] is what is left of [g0]. *)
Definition remains (g0 g : PendingGroup) : Prop :=
  pg_generation g = pg_generation g0 /\ pg_sequence g = pg_sequence g0 /\ pg_deadline g = pg_deadline g0
  /\ pg_priority g = pg_priority g0 /\ pg_datagrams g `suffix_of` pg_datagrams g0.
Definition derives (q q' : RealtimeSendQueue) : Prop :=
  config q' = config q /\ max_payload q' = max_payload q
  /\ forall f g, groups q' !! f = Some g -> exists g0, groups q !! f = Some g0 /\ remains g0 g.
(** [d] is a live datagram of [q]. *)
Definition pending_in (now : N) (q : RealtimeSendQueue) (d : QueuedRealtimeDatagram) : Prop :=
  exists g, groups q !! rd_flow d = Some g /\ same_group d g /\ rd_deadline d = pg_deadline g
    /\ rd_priority d = pg_priority g /\ rd_payload d ∈ pg_datagrams g /\ now < pg_deadline g.
Definition best (q : RealtimeSendQueue) (g : PendingGroup) : Prop :=
  forall f' g', groups q !! f' = Some g' -> rank g <= rank g'.

Lemma remains_refl g : remains g g.
Proof. by split_and!. Qed.
Lemma derives_trans q1 q2 q3 : derives q1 q2 -> derives q2 q3 -> derives q1 q3.
Proof.
  intros (H1 & H2 & H3) (H4 & H5 & H6). split_and!; [congruence..|].
  intros f g (g1 & Hg1 & ? & ? & ? & ? & Hs)%H6. apply H3 in Hg1 as (g0 & Hg0 & ? & ? & ? & ? & Hs0).
  exists g0. split; [done|]. split_and!; [congruence..|]. by etrans.
Qed.
Lemma shrinks_derives q q' : shrinks q q' -> derives q q'.
Proof.
  intros (H1 & H2 & H3). split_and!; [done..|]. intros f g Hg. exists g. split; [by eapply lookup_weaken|].
  apply remains_refl.
Qed.
Lemma derives_same q q' : config q' = config q -> max_payload q' = max_payload q -> groups q' = groups q ->
  derives q q'.
Proof. intros ? ? E. split_and!; [done..|]. intros f g Hg. rewrite E in Hg. exists g. split; [done|]. apply remains_refl. Qed.
Lemma pending_derives now q q' d : derives q q' -> pending_in now q' d -> pending_in now q d.
Proof.
  intros (_ & _ & H) (g & Hg & [Hs1 Hs2] & Hd & Hp & Hin & Hl). apply H in Hg as (g0 & Hg0 & E1 & E2 & E3 & E4 & Hs).
  exists g0. split; [done|]. split; [split; congruence|]. split_and!; [congruence..| |congruence].
  destruct Hs as [k ->]. apply elem_of_app. by right.
Qed.

Lemma rank_least (q : RealtimeSendQueue) f g :
  min_by (fun e1 e2 => rank e1.2 <? rank e2.2) (btree_iter (groups q)) = Some (f, g) -> best q g.
Proof.
  intros Hmin f' g' Hg'.
  eapply min_by_least in Hmin; [| | |apply elem_of_btree_iter; exact Hg'].
  - by apply N.ltb_ge in Hmin.
  - intros e1 e2 e3. rewrite !N.ltb_ge. lia.
  - intros e1 e2. rewrite N.ltb_lt, N.ltb_ge. lia.
Qed.

Lemma fits_wire n g p rest : fits n g = true -> pg_datagrams g = p :: rest ->
  REALTIME_DATAGRAM_HEADER_LEN + len p <= n.
Proof.
  unfold fits, wire_len. intros Hf Hd. rewrite Hd in Hf. unfold checked_add in Hf. destruct (decide _); [|done]. by apply N.leb_le.
Qed.

Lemma pop_flow_spec f g q q' o :
  groups q !! f = Some g -> pg_datagrams g <> [] -> pop_flow f q = (q', o) ->
  derives q q' /\ exists p rest, pg_datagrams g = p :: rest
       /\ o = Some (mkDatagram f (pg_generation g) (pg_sequence g) (pg_deadline g) (pg_priority g) p).
Proof.
  unfold pop_flow. intros Hg Hne. rewrite Hg. destruct (pg_datagrams g) as [|p rest] eqn:Hd; [done|]. intros [= <- <-].
  assert (forall f' g', groups (set_groups (match rest with
      | [] => delete f (groups q)
      | _ => <[f := mkGroup (pg_generation g) (pg_sequence g) (pg_deadline g) (pg_priority g) rest (payload_bytes g)
                      (insertion_order g)]> (groups q) end) q) !! f' = Some g' ->
    (f' = f /\ remains g g') \/ groups q !! f' = Some g') as H.
  { intros f' g'. cbn [groups set_groups]. destruct rest as [|p' rest].
    - intros [_ ?]%lookup_delete_Some. by right.
    - intros [[<- <-]|[_ ?]]%lookup_insert_Some; [left|by right]. split; [done|]. split_and!; try done.
      cbn. rewrite Hd. by exists [p]. }
  split; [|by exists p, rest]. split; [done|]. split; [done|].
  intros f' g' [[-> ?]|?]%H; [by exists g|]. exists g'. split; [done|]. apply remains_refl.
Qed.

(** One pop: the datagram is live, of the best priority, and fits. *)
Lemma pop_fitting_spec now n q q' o :
  queue_inv q -> pop_next_fitting now n q = (q', o) ->
  derives q q' /\ queue_inv q' /\ (forall f g, groups q' !! f = Some g -> now < pg_deadline g)
  /\ match o with
     | Some d => pending_in now q d /\ REALTIME_DATAGRAM_HEADER_LEN + len (rd_payload d) <= n
         /\ forall d', pending_in now q d' ->
              RealtimePriority.code (rd_priority d) <= RealtimePriority.code (rd_priority d')
     | None => forall f g, groups q' !! f = Some g -> best q' g -> fits n g = false
     end.
Proof.
  intros Hi Hpop. pose proof (pop_next_fitting_took _ _ _ _ _ Hpop) as Htook.
  pose proof (expire_same now q) as (Hex & _).
  unfold pop_next_fitting in Hpop. set (q1 := (expire now q).1) in *.
  assert (shrinks q q1) as Hsh by apply shrinks_expire.
  destruct (min_by _ (btree_iter (groups q1))) as [[f0 g0]|] eqn:Hmin.
  2:{ injection Hpop as <- <-. split_and!; [by apply shrinks_derives|by eapply queue_inv_shrinks|by intros ? ? [_ ?]%Hex|].
      intros f g Hg _. exfalso. pose proof (min_by_some (fun e1 e2 : N * PendingGroup => rank e1.2 <? rank e2.2) (btree_iter (groups q1))) as [? Hs].
      { intros E. apply elem_of_btree_iter in Hg. rewrite E in Hg. by apply not_elem_of_nil in Hg. }
      rewrite Hs in Hmin. done. }
  pose proof (rank_least _ _ _ Hmin) as Hbest. apply min_by_elem, elem_of_btree_iter in Hmin.
  destruct (min_by insertion_lt _) as [[f g]|] eqn:Hm.
  - apply min_by_elem, list_elem_of_In, filter_In in Hm as [Hin%list_elem_of_In Hf%andb_true_iff].
    apply elem_of_btree_iter in Hin. destruct Hf as [Hp%bool_decide_eq_true Hf]. cbn [snd] in Hp, Hf.
    pose proof (group_nonempty _ _ _ (inv_groups _ (queue_inv_shrinks _ _ Hsh Hi) _ _ Hin)) as Hne.
    destruct (pop_flow_spec _ _ _ _ _ Hin Hne Hpop) as (Hder & p & rest & Hd & ->).
    apply Hex in Hin as [Hg Hlt].
    assert (derives q q') as Hall by (eapply derives_trans; [by apply shrinks_derives|done]).
    split_and!; [done|by eapply queue_inv_took| |by exists g; cbn; rewrite Hd; split_and!; try done; left|by eapply fits_wire|].
    + intros f1 g1 Hg1. apply Hder in Hg1 as (g2 & [_ Hl]%Hex & _ & _ & -> & _). done.
    + intros d' (g' & Hg' & _ & _ & -> & _ & Hlt'). cbn. rewrite Hp. by apply (Hbest (rd_flow d')), Hex.
  - injection Hpop as <- <-. split_and!; [by apply shrinks_derives|by eapply queue_inv_shrinks|by intros ? ? [_ ?]%Hex|].
    intros f g Hg Hb. apply not_true_iff_false. intros Hf.
    pose proof (min_by_some insertion_lt (List.filter (fun e => bool_decide (pg_priority e.2 = pg_priority g0) && fits n e.2) (btree_iter (groups q1)))) as [? Hs].
    { intros E. assert ((f, g) ∈ List.filter (fun e : N * PendingGroup => bool_decide (pg_priority e.2 = pg_priority g0) && fits n e.2) (btree_iter (groups q1))) as Hin.
      { apply list_elem_of_In, filter_In. split; [by apply list_elem_of_In, elem_of_btree_iter|]. cbn.
        rewrite Hf, andb_true_r. apply bool_decide_eq_true. pose proof (Hb _ _ Hmin). pose proof (Hbest _ _ Hg).
        unfold rank in *. destruct (pg_priority g), (pg_priority g0); cbn in *; done || lia. }
      rewrite E in Hin. by apply not_elem_of_nil in Hin. }
    rewrite Hs in Hm. done.
Qed.

Lemma drop_flow_groups_count f fs r q :
  (drop_flow_groups (f :: fs) r q).2 = 0 -> forall g, groups q !! f = Some g -> pg_datagrams g = [].
Proof.
  cbn [drop_flow_groups]. unfold drop_flow_group at 1. intros Hn g Hg. rewrite Hg in Hn.
  destruct (drop_flow_groups fs r _) as [q2 m]. cbn in Hn. apply length_zero_iff_nil. lia.
Qed.
Lemma drop_disposable_spec q q' n :
  queue_inv q -> drop_disposable_for_congestion q = (q', n) ->
  derives q q' /\ queue_inv q' /\ flows_where disposable q' = []
  /\ (n = 0 -> flows_where disposable q = [])
  /\ (account q <= u64_max -> account q' = account q).
Proof.
  unfold drop_disposable_for_congestion. intros Hi Hd.
  pose proof (drop_where_same disposable Congested q) as (Hw & _).
  pose proof (shrinks_drop_all (flows_where disposable q) Congested q) as Hs.
  pose proof (drop_flow_groups_account (flows_where disposable q) Congested q) as Ha.
  rewrite Hd in Hw, Hs, Ha. cbn in Hw, Hs, Ha.
  split_and!; [by apply shrinks_derives|by eapply queue_inv_shrinks| | |done].
  - destruct (flows_where disposable q') as [|f fs] eqn:E; [done|].
    assert (f ∈ flows_where disposable q') as (g & Hg & Hp)%elem_of_flows_where by (rewrite E; left).
    apply Hw in Hg as [_ ?]. congruence.
  - intros ->. destruct (flows_where disposable q) as [|f fs] eqn:E; [done|].
    assert (f ∈ flows_where disposable q) as (g & Hg & Hp)%elem_of_flows_where by (rewrite E; left).
    destruct (group_nonempty _ _ _ (inv_groups _ Hi _ _ Hg)).
    eapply drop_flow_groups_count; [|exact Hg]. by rewrite Hd.
Qed.
Lemma drop_none q : flows_where disposable q = [] -> drop_disposable_for_congestion q = (q, 0).
Proof. unfold drop_disposable_for_congestion. by intros ->. Qed.
Lemma no_disposable_derives q q' : derives q q' -> flows_where disposable q = [] -> flows_where disposable q' = [].
Proof.
  intros (_ & _ & H) He. destruct (flows_where disposable q') as [|f fs] eqn:E; [done|].
  assert (f ∈ flows_where disposable q') as (g & Hg & Hp)%elem_of_flows_where by (rewrite E; left).
  apply H in Hg as (g0 & Hg0 & _ & _ & _ & Hpr & _). rewrite Hpr in Hp.
  assert (f ∈ flows_where disposable q) as Hin by (apply elem_of_flows_where; eauto).
  rewrite He in Hin. by apply not_elem_of_nil in Hin.
Qed.

(** ** A world that records what it is asked *)

(** What was handed to quinn, after which report of its free space, and how it
    answered. *)
Record handed_over := mkHanded {
  ho_space : N;
  ho_bytes : list byte;
  ho_result : result SendDatagramError ();
}.
Record quinn_seen := mkSeen {
  seen_size : option N;
  seen_space : N;
  handed : list handed_over;
}.
#[export] Instance recorded {W : Type} `{QuinnConnection W} : QuinnConnection (W * quinn_seen) := {|
  max_datagram_size s := let '(w, a) := max_datagram_size s.1 in ((w, s.2 <|seen_size := a|>), a);
  quinn_remote_address s := let '(w, a) := quinn_remote_address s.1 in ((w, s.2), a);
  quinn_stats s := let '(w, a) := quinn_stats s.1 in ((w, s.2), a);
  datagram_send_buffer_space s :=
    let '(w, a) := datagram_send_buffer_space s.1 in ((w, s.2 <|seen_space := a|>), a);
  send_datagram bytes s :=
    let '(w, r) := send_datagram bytes s.1 in
    ((w, s.2 <|handed := handed s.2 ++ [mkHanded (seen_space s.2) bytes r]|>), r);
  quinn_close code reason s := (quinn_close code reason s.1, s.2);
|}.

Section poll.
Context {W : Type} `{QuinnConnection W}.

Lemma wp_q_get {A} (f : QuicConnection -> A) s (Q : _ -> result TransportError A -> Prop) :
  Q s (Ok (f s.1)) -> step_wp (q_get (W := W) f) s Q.
Proof. done. Qed.
Lemma wp_q_set f (s : QuicConnection * W) (Q : _ -> result TransportError () -> Prop) :
  Q (f s.1, s.2) (Ok ()) -> step_wp (q_set f) s Q.
Proof. done. Qed.
Lemma wp_quinn {A} (f : W -> W * A) (s : QuicConnection * W) (Q : _ -> result TransportError A -> Prop) :
  Q (s.1, (f s.2).1) (Ok (f s.2).2) -> step_wp (quinn_call f) s Q.
Proof. unfold step_wp, quinn_call. by destruct (f s.2). Qed.
Lemma wp_on_queue {A} (f : RealtimeSendQueue -> RealtimeSendQueue * A) (s : QuicConnection * W)
    (Q : _ -> result TransportError A -> Prop) :
  Q (s.1 <|realtime_send := (f (realtime_send s.1)).1|>, s.2) (Ok (f (realtime_send s.1)).2) ->
  step_wp (on_queue f) s Q.
Proof. unfold step_wp, on_queue. by destruct (f (realtime_send s.1)). Qed.
End poll.

(** ** The loop *)

(** The datagrams [ds] left [q], which is now [q']. *)
Record polled (now : N) (q : RealtimeSendQueue) (ds : list QueuedRealtimeDatagram) (q' : RealtimeSendQueue)
    : Prop := {
  po_derives : derives q q';
  po_inv : queue_inv q';
  po_live : Forall (pending_in now q) ds;
  po_order : StronglySorted
    (fun d d' => RealtimePriority.code (rd_priority d) <= RealtimePriority.code (rd_priority d')) ds;
  po_account : account q <= u64_max -> account q = account q' + len ds;
}.
(** Each is encoded, and fits the space that was free. *)
Definition handed_as (d : QueuedRealtimeDatagram) (h : handed_over) : Prop :=
  encode_realtime_datagram d = Ok (ho_bytes h) /\ len (ho_bytes h) <= ho_space h.
(** The number sent, or the refusal that ended the poll. *)
Definition poll_result (sent : N) (hs : list handed_over) (r : result TransportError N) : Prop :=
  match r with
  | Ok n => n = sent + len hs /\ Forall (fun h => ho_result h = Ok ()) hs
  | Err e => exists hs0 h x, hs = hs0 ++ [h] /\ Forall (fun h => ho_result h = Ok ()) hs0
               /\ ho_result h = Err x /\ e = map_datagram_error x
  end.
(** What waits is live and not disposable, and none of the best priority fits. *)
Definition nothing_fits (now space : N) (q : RealtimeSendQueue) : Prop :=
  forall f g, groups q !! f = Some g ->
    now < pg_deadline g /\ pg_priority g <> RealtimePriority.Disposable
    /\ (best q g -> fits space g = false).

Lemma polled_none now q q' : derives q q' -> queue_inv q' -> (account q <= u64_max -> account q' = account q) ->
  polled now q [] q'.
Proof. intros ? ? Ha. split; try done; [constructor|]. cbn. intros ?. rewrite Ha; lia. Qed.
Lemma polled_cons now q q1 d ds q' :
  derives q q1 -> pending_in now q d ->
  (forall d', pending_in now q d' ->
     RealtimePriority.code (rd_priority d) <= RealtimePriority.code (rd_priority d')) ->
  (account q <= u64_max -> account q = account q1 + 1) -> polled now q1 ds q' ->
  polled now q (d :: ds) q'.
Proof.
  intros Hd Hp Hb Ha [H1 H2 H3 H4 H5].
  assert (Forall (pending_in now q) ds) as Hds.
  { eapply Forall_impl; [done|]. intros d'. by apply pending_derives. }
  split; [by eapply derives_trans|done|by constructor| |].
  - constructor; [done|]. eapply Forall_impl; [done|]. intros d'. apply Hb.
  - intros Hm. specialize (Ha Hm). rewrite Ha, H5 by lia. cbn. lia.
Qed.
Lemma polled_before now q q1 ds q' :
  derives q q1 -> (account q <= u64_max -> account q1 = account q) -> polled now q1 ds q' -> polled now q ds q'.
Proof.
  intros Hd Ha [H1 H2 H3 H4 H5]. split; [by eapply derives_trans|done| |done|].
  - eapply Forall_impl; [done|]. intros d'. by apply pending_derives.
  - intros Hm. rewrite <- H5 by (rewrite Ha; lia). by rewrite Ha.
Qed.

Section loop.
Context {W : Type} `{QuinnConnection W}.
Implicit Types (s : QuicConnection * (W * quinn_seen)).

(** How a poll, or the rest of one, ends. *)
Definition poll_ends (now sent : N) s s' (r : result TransportError N) : Prop :=
  exists ds hs,
    s'.1 = s.1 <|realtime_send := realtime_send s'.1|>
    /\ polled now (realtime_send s.1) ds (realtime_send s'.1)
    /\ handed s'.2.2 = handed s.2.2 ++ hs /\ seen_size s'.2.2 = seen_size s.2.2
    /\ Forall2 handed_as ds hs /\ poll_result sent hs r /\ sent + len hs <= MAX_REALTIME_DATAGRAMS_PER_POLL
    /\ forall n, r = Ok n -> n < MAX_REALTIME_DATAGRAMS_PER_POLL ->
         nothing_fits now (seen_space s'.2.2) (realtime_send s'.1).

Lemma poll_ends_none now sent s s' :
  s'.1 = s.1 <|realtime_send := realtime_send s'.1|> ->
  polled now (realtime_send s.1) [] (realtime_send s'.1) ->
  handed s'.2.2 = handed s.2.2 -> seen_size s'.2.2 = seen_size s.2.2 ->
  sent <= MAX_REALTIME_DATAGRAMS_PER_POLL ->
  (sent < MAX_REALTIME_DATAGRAMS_PER_POLL -> nothing_fits now (seen_space s'.2.2) (realtime_send s'.1)) ->
  poll_ends now sent s s' (Ok sent).
Proof.
  intros H1 H2 H3 H4 H5 H6. exists [], []. cbn. rewrite app_nil_r. split_and!; try done; [lia|lia|].
  by intros n [= <-].
Qed.
Lemma poll_ends_before now sent s s1 s' r :
  s1.1 = s.1 <|realtime_send := realtime_send s1.1|> ->
  derives (realtime_send s.1) (realtime_send s1.1) ->
  (account (realtime_send s.1) <= u64_max -> account (realtime_send s1.1) = account (realtime_send s.1)) ->
  handed s1.2.2 = handed s.2.2 -> seen_size s1.2.2 = seen_size s.2.2 ->
  poll_ends now sent s1 s' r -> poll_ends now sent s s' r.
Proof.
  intros H1 H2 H3 H4 H5 (ds & hs & G1 & G2 & G3 & G4 & G5). exists ds, hs.
  split_and!; try apply G5; [|by eapply polled_before|by rewrite G3, H4|congruence].
  rewrite G1, H1 at 1. reflexivity.
Qed.
Lemma poll_ends_cons now sent s s1 s' r d h :
  s1.1 = s.1 <|realtime_send := realtime_send s1.1|> ->
  derives (realtime_send s.1) (realtime_send s1.1) -> pending_in now (realtime_send s.1) d ->
  (forall d', pending_in now (realtime_send s.1) d' ->
     RealtimePriority.code (rd_priority d) <= RealtimePriority.code (rd_priority d')) ->
  (account (realtime_send s.1) <= u64_max -> account (realtime_send s.1) = account (realtime_send s1.1) + 1) ->
  handed s1.2.2 = handed s.2.2 ++ [h] -> seen_size s1.2.2 = seen_size s.2.2 ->
  handed_as d h -> ho_result h = Ok () ->
  poll_ends now (sent + 1) s1 s' r -> poll_ends now sent s s' r.
Proof.
  intros H1 H2 Hp Hb Ha H4 H5 Hh Hr (ds & hs & G1 & G2 & G3 & G4 & G5 & G6 & G7 & G8). exists (d :: ds), (h :: hs).
  split_and!; [|by eapply polled_cons|by rewrite G3, H4, <- app_assoc|congruence|by constructor| |cbn; lia|done].
  - rewrite G1, H1 at 1. reflexivity.
  - unfold poll_result in *. destruct r as [n|e].
    + destruct G6 as [-> ?]. cbn. split; [lia|by constructor].
    + destruct G6 as (hs0 & h0 & x & -> & Hok & Hx & ->). exists (h :: hs0), h0, x. split_and!; [done|by constructor|done|done].
Qed.

(** The turns that are left: one for each datagram that may be sent, one if
    something disposable waits, and the last. *)
Definition turns_left (sent : N) (q : RealtimeSendQueue) : nat :=
  N.to_nat (MAX_REALTIME_DATAGRAMS_PER_POLL - sent)
  + (if decide (flows_where disposable q = []) then 0 else 1) + 1.
Lemma turns_left_derives sent q q' : derives q q' -> (turns_left sent q' <= turns_left sent q)%nat.
Proof.
  intros Hd. unfold turns_left. destruct (decide (flows_where disposable q = [])) as [E|]; [|case_decide; lia].
  rewrite decide_True by (by eapply no_disposable_derives). lia.
Qed.

Lemma encode_pending now q d :
  queue_inv q -> REALTIME_DATAGRAM_HEADER_LEN + max_payload q <= usize_max -> pending_in now q d ->
  len (rd_payload d) <= max_payload q
  /\ exists bytes, encode_realtime_datagram d = Ok bytes
       /\ len bytes = REALTIME_DATAGRAM_HEADER_LEN + len (rd_payload d).
Proof.
  intros Hi Hm (g & Hg & _ & _ & _ & Hin & _). apply (inv_groups _ Hi) in Hg as [_ _ Hp _ _].
  rewrite Forall_forall in Hp. specialize (Hp _ Hin). split; [done|].
  unfold encode_realtime_datagram, checked_add. rewrite decide_True by lia. eexists. split; [done|].
  rewrite !length_app, !be_bytes_length. cbn [length str REALTIME_MAGIC]. cbn. unfold REALTIME_DATAGRAM_HEADER_LEN. lia.
Qed.

(** The turn that finds no datagram that fits. *)
Lemma poll_turn_idle fuel now sent s q1 :
  (forall s1, queue_inv (realtime_send s1.1) ->
     REALTIME_DATAGRAM_HEADER_LEN + max_payload (realtime_send s1.1) <= usize_max ->
     (turns_left sent (realtime_send s1.1) <= fuel)%nat ->
     step_wp (poll_loop fuel now sent) s1 (poll_ends now sent s1)) ->
  let q := realtime_send s.1 in
  REALTIME_DATAGRAM_HEADER_LEN + max_payload q <= usize_max ->
  sent < MAX_REALTIME_DATAGRAMS_PER_POLL -> (turns_left sent q <= S fuel)%nat ->
  derives q q1 -> queue_inv q1 -> (account q <= u64_max -> account q1 = account q) ->
  (forall f g, groups q1 !! f = Some g -> now < pg_deadline g) ->
  (forall f g, groups q1 !! f = Some g -> best q1 g -> fits (seen_space s.2.2) g = false) ->
  step_wp (pending ← q_get (fun c => pending_datagrams (realtime_send c));
           if 0 <? pending then
             q_set (fun c => c <|realtime_send := note_transport_congestion (realtime_send c)|>);;
             dropped ← on_queue drop_disposable_for_congestion;
             if 0 <? dropped then poll_loop fuel now sent else mret sent
           else mret sent)
    (s.1 <|realtime_send := q1|>, s.2) (poll_ends now sent s).
Proof.
  intros IH q Hmax Hs Hf Hder Hi1 Hacc Hlive Hfit. apply wp_bind, wp_q_get. cbn [fst snd].
  apply wp_if; intros Hp.
  2:{ apply wp_ret. apply poll_ends_none; cbn; try done; [by apply polled_none|lia|].
      intros _ f g Hg. apply N.ltb_ge in Hp. unfold pending_datagrams in Hp. cbn in Hp.
      pose proof (map_total_delete (fun g => length (pg_datagrams g)) _ _ _ Hg) as Hd.
      cbn in Hd. destruct (group_nonempty _ _ _ (inv_groups _ Hi1 _ _ Hg)). apply length_zero_iff_nil. lia. }
  apply wp_bind, wp_q_set, wp_bind, wp_on_queue. cbn [fst snd].
  set (q2 := note_transport_congestion q1).
  assert (derives q q2 /\ queue_inv q2 /\ account q2 = account q1) as (Hder2 & Hi2 & Ha2).
  { split_and!; [eapply derives_trans; [done|by apply derives_same]|by apply (queue_inv_same q1)|done]. }
  match goal with |- context [drop_disposable_for_congestion ?x] => change x with q2 end.
  destruct (drop_disposable_for_congestion q2) as [q3 n] eqn:Hdrop. cbn [fst snd].
  destruct (drop_disposable_spec _ _ _ Hi2 Hdrop) as (Hder3 & Hi3 & Hnone & Hn & Ha3).
  assert (derives q q3) as Hder' by (eapply derives_trans; done).
  apply wp_if; intros Hz.
  - assert (queue_inv q3 /\ (turns_left sent q3 <= fuel)%nat) as [_ Hturn].
    { split; [done|]. unfold turns_left in *. rewrite Hnone. cbn [decide]. rewrite decide_True by done.
      destruct (decide (flows_where disposable q = [])) as [He|]; [|lia].
      rewrite (drop_none _ (no_disposable_derives _ _ Hder2 He)) in Hdrop. by simplify_eq. }
    eapply step_wp_mono; [apply IH; [done| |done]|].
    + destruct Hder' as (_ & Hm & _). cbn. by rewrite Hm.
    + intros s' r. apply poll_ends_before; cbn; try done. intros Ha. rewrite Ha3, Ha2, Hacc by (rewrite ?Ha2, ?Hacc; done). done.
  - apply N.ltb_ge in Hz. apply wp_ret, poll_ends_none; cbn; try done; [|lia|].
    + apply polled_none; [done..|]. intros Ha. rewrite Ha3, Ha2, Hacc by (rewrite ?Ha2, ?Hacc; done). done.
    + specialize (Hn ltac:(lia)). rewrite (drop_none _ Hn) in Hdrop. simplify_eq.
      intros _ f g Hg. split_and!; [exact (Hlive f g Hg)| |exact (Hfit f g Hg)]. intros Hpr.
      assert (f ∈ flows_where disposable (note_transport_congestion q1)) as Hin.
      { apply elem_of_flows_where. exists g. split; [done|]. by apply bool_decide_eq_true. }
      rewrite Hnone in Hin. by apply not_elem_of_nil in Hin.
Qed.

Lemma poll_loop_spec fuel now sent s :
  queue_inv (realtime_send s.1) ->
  REALTIME_DATAGRAM_HEADER_LEN + max_payload (realtime_send s.1) <= usize_max ->
  sent <= MAX_REALTIME_DATAGRAMS_PER_POLL -> (turns_left sent (realtime_send s.1) <= fuel)%nat ->
  step_wp (poll_loop fuel now sent) s (poll_ends now sent s).
Proof.
  revert sent s. induction fuel as [|fuel IH]; intros sent s Hi Hmax Hs Hf; [unfold turns_left in Hf; lia|].
  cbn [poll_loop]. apply wp_if; intros Hfull.
  { apply N.leb_le in Hfull. apply wp_ret, poll_ends_none; try done; [by destruct s as [[] []]|by apply polled_none; [apply derives_same..|done|done]|lia]. }
  apply N.leb_gt in Hfull. apply wp_bind, wp_quinn. cbv beta iota.
  destruct s as [c [w t]]. cbn [fst snd] in *. cbn [datagram_send_buffer_space recorded fst snd].
  destruct (datagram_send_buffer_space w) as [w1 available]. cbn [fst snd].
  apply wp_bind, wp_on_queue. cbn [fst snd].
  destruct (pop_next_fitting now available (realtime_send c)) as [q1 o] eqn:Hpop. cbn [fst snd].
  destruct (pop_fitting_spec _ _ _ _ _ Hi Hpop) as (Hder & Hi1 & Hlive & Ho).
  assert (account (realtime_send c) <= u64_max ->
    account (realtime_send c) = account q1 + match o with Some _ => 1 | None => 0 end) as Hacc
    by (intros; by eapply pop_next_fitting_account).
  destruct o as [d|].
  - destruct Ho as (Hp & Hfit & Hbest). destruct (encode_pending _ _ _ Hi Hmax Hp) as (Hlen & bytes & Henc & Hbytes).
    apply wp_bind, wp_try. rewrite Henc. cbv beta iota. apply wp_bind, wp_quinn.
    cbn [send_datagram recorded fst snd]. destruct (send_datagram bytes w1) as [w2 r]. cbn [fst snd seen_space].
    set (h := mkHanded available bytes r).
    assert (handed_as d h) as Hh by (split; [done|]; cbn; rewrite Hbytes; exact Hfit).
    apply wp_bind, wp_try. destruct r as [[]|e]; cbn [map_err].
    2:{ exists [d], [h]. cbn. split_and!; try done; [|by constructor| |lia].
        - eapply (polled_cons _ _ q1); try done. by apply polled_none; [apply derives_same..|done|done].
        - exists [], h, e. by split_and!. }
    apply wp_bind, wp_q_set. cbn [fst snd].
    assert (sat_add usize_max sent 1 = sent + 1) as ->.
    { unfold sat_add, MAX_REALTIME_DATAGRAMS_PER_POLL in *. lia. }
    eapply step_wp_mono.
    + apply IH.
      * by eapply (queue_inv_same q1).
      * destruct Hder as (_ & Hm & _). cbn. by rewrite Hm.
      * lia.
      * pose proof (turns_left_derives (sent + 1) (realtime_send c) q1 Hder).
        enough (turns_left (sent + 1) q1 <= fuel)%nat by done. unfold turns_left in *. lia.
    + intros s' r. by apply (poll_ends_cons _ _ _ _ _ _ d h).
  - eapply (step_wp_mono _ _ (poll_ends now sent (c, (w1, t <|seen_space := available|>)))).
    + eapply (poll_turn_idle fuel now sent (c, (w1, t <|seen_space := available|>))); try done.
      * intros s1 ? ? ?. by apply IH.
      * cbn. intros Ha. rewrite Hacc by done. lia.
    + intros s' r. by apply poll_ends_before; [destruct c|apply derives_same|..].
Qed.
End loop.

(** ** The path, and what a connection keeps *)

Lemma set_max_payload_spec n q q' r :
  set_max_payload n q = (q', r) ->
  match r with Ok _ => max_payload q' = n | Err _ => n = 0 /\ q' = q end
  /\ config q' = config q /\ groups q' ⊆ groups q
  /\ (account q <= u64_max -> account q' = account q).
Proof.
  unfold set_max_payload. destruct (N.eqb_spec n 0); [by intros [= <- <-]|].
  destruct (N.eqb_spec n (max_payload q)); [by intros [= <- <-]|]. destruct (n <? max_payload q).
  - intros [= <- <-]. match goal with |- context [drop_flow_groups (flows_where ?p ?q1) ?x _] =>
      pose proof (shrinks_drop_all (flows_where p q1) x q1) as (Hc & Hm & Hg);
      pose proof (drop_flow_groups_account (flows_where p q1) x q1) as Ha end.
    split_and!; try done.
  - by intros [= <- <-].
Qed.
Lemma rt_step_max_payload q op :
  max_payload (rt_step q op).1 = max_payload q \/ exists n, op = OpSetMaxPayload n /\ max_payload (rt_step q op).1 = n.
Proof.
  destruct op as [d now|now|now|now n| |n| | |d| |rtt e n|]; cbn; try by left.
  - left. destruct (enqueue d now q) as [q' r] eqn:E. by apply enqueue_cases in E as [[_ (? & ? & ?)]|(_ & _ & _ & q1 & _ & _ & ? & _)].
  - left. apply shrinks_expire.
  - left. destruct (pop_next now q) as [q' o] eqn:E. apply pop_next_took in E. cbn.
    destruct o; [by destruct E as (? & ? & ? & ? & ? & ? & ? & ? & ? & _)|apply E].
  - left. destruct (pop_next_fitting now n q) as [q' o] eqn:E. apply pop_next_fitting_took in E. cbn.
    destruct o; [by destruct E as (? & ? & ? & ? & ? & ? & ? & ? & ? & _)|apply E].
  - left. apply shrinks_drop_all.
  - destruct (set_max_payload n q) as [q' [b|e]] eqn:E; apply set_max_payload_spec in E as [E _]; cbn.
    + right. by exists n.
    + left. by destruct E as [_ ->].
Qed.

Definition path_limit (size : option N) (c : QuicConnection) : N := N.min (default 0 size) (max_datagram_bytes c).

(** What every call keeps: the queue is well formed, and a datagram that it
    admits has a length that is a [usize]. *)
Record quic_ok (c : QuicConnection) : Prop := {
  ok_queue : queue_inv (realtime_send c);
  ok_bytes : max_datagram_bytes c <= usize_max;
  ok_payload : REALTIME_DATAGRAM_HEADER_LEN + max_payload (realtime_send c) <= usize_max;
}.
Lemma quic_ok_same c c' :
  realtime_send c' = realtime_send c -> max_datagram_bytes c' = max_datagram_bytes c -> quic_ok c -> quic_ok c'.
Proof. intros E1 E2 []. split; by rewrite ?E1, ?E2. Qed.
Lemma quic_ok_op op c : quic_ok c ->
  (forall n, op = OpSetMaxPayload n -> REALTIME_DATAGRAM_HEADER_LEN + n <= usize_max) ->
  quic_ok (c <|realtime_send := (rt_step (realtime_send c) op).1|>).
Proof.
  intros [H1 H2 H3] Hop. split; cbn; [by apply rt_step_inv|done|].
  destruct (rt_step_max_payload (realtime_send c) op) as [->|(n & Hn & ->)]; [done|]. by apply Hop.
Qed.

Section calls.
Context {W : Type} `{QuinnConnection W}.
Implicit Types (s : QuicConnection * (W * quinn_seen)).

(** What looking at the path changes. *)
Record refreshed s s' : Prop := {
  re_ok : quic_ok s'.1;
  re_groups : groups (realtime_send s'.1) ⊆ groups (realtime_send s.1);
  re_account : account (realtime_send s.1) <= u64_max ->
    account (realtime_send s'.1) = account (realtime_send s.1);
  re_handed : handed s'.2.2 = handed s.2.2;
  re_enabled : datagrams_enabled s'.1 = datagrams_enabled s.1;
  re_bytes : max_datagram_bytes s'.1 = max_datagram_bytes s.1;
}.
Lemma refreshed_trans s1 s2 s3 : refreshed s1 s2 -> refreshed s2 s3 -> refreshed s1 s3.
Proof.
  intros [] []. split; try congruence; [by etrans|]. intros Ha. rewrite <- re_account0 by done.
  apply re_account1. by rewrite re_account0.
Qed.
Lemma refreshed_same s s' : quic_ok s.1 ->
  config (realtime_send s'.1) = config (realtime_send s.1) ->
  max_payload (realtime_send s'.1) = max_payload (realtime_send s.1) ->
  groups (realtime_send s'.1) = groups (realtime_send s.1) ->
  settled (realtime_send s'.1) = settled (realtime_send s.1) ->
  handed s'.2.2 = handed s.2.2 -> datagrams_enabled s'.1 = datagrams_enabled s.1 ->
  max_datagram_bytes s'.1 = max_datagram_bytes s.1 -> refreshed s s'.
Proof.
  intros [] E1 E2 E3 E4 E5 E6 E7. split; try done.
  - split; [by eapply queue_inv_same|congruence|congruence].
  - by rewrite E3.
  - intros _. unfold account, pending_datagrams. congruence.
Qed.

Lemma note_path_spec s : quic_ok s.1 ->
  step_wp note_path s (fun s' r => r = Ok () /\ refreshed s s' /\ seen_size s'.2.2 = seen_size s.2.2
    /\ max_payload (realtime_send s'.1) = max_payload (realtime_send s.1)).
Proof.
  intros Hok. unfold note_path. apply wp_bind, wp_quinn. destruct s as [c [w t]]. cbn [fst snd] in *.
  cbn [quinn_remote_address recorded fst snd]. destruct (quinn_remote_address w) as [w1 a].
  apply wp_bind, wp_q_get. apply wp_if; intros _; [apply wp_ret|apply wp_bind, wp_q_set, wp_q_set];
    (split; [done|]; split; [by apply refreshed_same|done]).
Qed.
Lemma note_stats_spec s : quic_ok s.1 ->
  step_wp note_stats s (fun s' r => r = Ok () /\ refreshed s s' /\ seen_size s'.2.2 = seen_size s.2.2
    /\ max_payload (realtime_send s'.1) = max_payload (realtime_send s.1)).
Proof.
  intros Hok. unfold note_stats. apply wp_bind, wp_quinn. destruct s as [c [w t]]. cbn [fst snd] in *.
  cbn [quinn_stats recorded fst snd]. destruct (quinn_stats w) as [w1 a]. apply wp_q_set.
  split; [done|]. split; [by apply refreshed_same|done].
Qed.

(** Afterwards the queue takes what the path takes. *)
Lemma refresh_spec s : quic_ok s.1 -> datagrams_enabled s.1 = true ->
  step_wp refresh_realtime_state s (fun s' r => refreshed s s' /\
    match r with
    | Ok _ => REALTIME_DATAGRAM_HEADER_LEN + max_payload (realtime_send s'.1) = path_limit (seen_size s'.2.2) s.1
    | Err e => e = unsupported_datagram
    end).
Proof.
  intros Hok Hen. unfold refresh_realtime_state, current_realtime_payload_limit, current_raw_datagram_limit.
  apply wp_bind, wp_q_get. rewrite Hen. cbn [negb]. cbv iota beta.
  apply wp_bind, wp_bind, wp_bind, wp_quinn. destruct s as [c [w t]]. cbn [fst snd] in *.
  cbn [max_datagram_size recorded fst snd]. destruct (max_datagram_size w) as [w1 size]. cbn [fst snd].
  apply wp_bind, wp_q_get, wp_ret, wp_ret. cbn [fst snd].
  set (t1 := t <|seen_size := size|>). set (limit := N.min (default 0 size) (max_datagram_bytes c)).
  apply wp_bind, wp_refuse; intros Hz; [split; [by apply refreshed_same|done]|].
  apply N.eqb_neq in Hz. apply wp_bind, wp_q_get, wp_bind, wp_on_queue. cbn [fst snd].
  destruct (set_max_payload (limit - REALTIME_DATAGRAM_HEADER_LEN) (realtime_send c)) as [q r] eqn:Hset. cbn [fst snd].
  pose proof (queue_inv_set_max (limit - REALTIME_DATAGRAM_HEADER_LEN) _ (ok_queue _ Hok)) as Hinv. rewrite Hset in Hinv.
  apply set_max_payload_spec in Hset as (Hm & Hc & Hg & Ha). apply wp_bind, wp_try.
  destruct r as [changed|e]; [|destruct Hm as [Hm _]; lia].
  assert (refreshed (c, (w, t)) (c <|realtime_send := q|>, (w1, t1))) as Hre.
  { split; cbn; try done. pose proof (ok_bytes _ Hok). split; cbn; [done..|]. rewrite Hm. subst limit. lia. }
  apply wp_bind, (step_wp_mono _ _ (fun s' r => r = Ok () /\ refreshed (c, (w, t)) s' /\ s'.2.2 = t1
    /\ max_payload (realtime_send s'.1) = limit - REALTIME_DATAGRAM_HEADER_LEN)).
  { destruct changed; [apply wp_q_set|apply wp_ret]; (split; [done|]; split; [|done]); [|done].
    eapply refreshed_trans; [exact Hre|]. by apply refreshed_same; [apply Hre|..]. }
  intros s2 r2 (-> & H2 & Ht & Hm2). cbv iota beta. apply wp_bind.
  eapply step_wp_mono; [apply note_path_spec, H2|]. intros s3 r3 (-> & H3 & Ht3 & Hm3). cbv iota beta.
  eapply step_wp_mono; [apply note_stats_spec, H3|]. intros s4 r4 (-> & H4 & Ht4 & Hm4).
  split; [by do 2 (eapply refreshed_trans; [done|])|]. rewrite Hm4, Hm3, Hm2, Ht4, Ht3, Ht. cbn. unfold path_limit. fold limit. lia.
Qed.
End calls.

(** ** The calls of a connection *)

(** Its methods, what its reader's task does, and what the tasks of its streams
    may do to them. *)
Inductive quic_call :=
| QcTrySend (message : list byte)
| QcTrySendControl (message : list byte)
| QcTryReceive
| QcTryReceiveControl
| QcTrySendDatagram (message : list byte)
| QcTryReceiveDatagram (xs : list reader_event)
| QcMaxDatagramPayload
| QcTrySendLatest (d : RealtimeDatagram) (now : N)
| QcPollRealtime (now : N)
| QcTryReceiveRealtime (xs : list reader_event)
| QcTakeRealtimeEvents
| QcResetRealtimeSession
| QcCloseWrite
| QcCloseRead
| QcAbort
| QcReader (x : reader_event)
| QcStreams (control data : FramedConnection).

Section run.
Context {W : Type} `{QuinnConnection W}.

Definition forget {A} (m : quic W A) : quic W () := _ ← m; mret ().
Definition quic_do (x : quic_call) : quic W () :=
  match x with
  | QcTrySend message => quic_try_send message
  | QcTrySendControl message => quic_try_send_control message
  | QcTryReceive => forget quic_try_receive
  | QcTryReceiveControl => forget quic_try_receive_control
  | QcTrySendDatagram message => quic_try_send_datagram message
  | QcTryReceiveDatagram xs => forget (quic_try_receive_datagram xs)
  | QcMaxDatagramPayload => forget quic_max_datagram_payload
  | QcTrySendLatest d now => forget (quic_try_send_latest d now)
  | QcPollRealtime now => forget (quic_poll_realtime now)
  | QcTryReceiveRealtime xs => forget (quic_try_receive_realtime xs)
  | QcTakeRealtimeEvents => forget quic_take_realtime_events
  | QcResetRealtimeSession => quic_reset_realtime_session
  | QcCloseWrite => quic_close_write
  | QcCloseRead => quic_close_read
  | QcAbort => quic_abort
  | QcReader x => q_set (reader_acts x)
  | QcStreams control data => q_set (fun c => c <|qc_control := control|> <|qc_data := data|>)
  end.
Fixpoint quic_run (xs : list quic_call) (s : QuicConnection * W) : option (QuicConnection * W) :=
  match xs with
  | [] => Some s
  | x :: xs => '(s, _) ← quic_do x s; quic_run xs s
  end.
End run.

Section keeps.
Context {W : Type} `{QuinnConnection W}.
Abbreviation ok := (fun s : QuicConnection * (W * quinn_seen) => quic_ok s.1).

Lemma keeps_quinn {A} (f : W * quinn_seen -> W * quinn_seen * A) : step_keeps ok (quinn_call f).
Proof. intros s s' r Hs. unfold quinn_call. destruct (f s.2). by intros [= <- _]. Qed.
Lemma keeps_q_set f : (forall c, quic_ok c -> quic_ok (f c)) -> step_keeps ok (q_set f).
Proof. intros Hf s s' r Hs [= <- _]. by apply Hf. Qed.
Lemma keeps_q_get {A} (f : QuicConnection -> A) : step_keeps ok (q_get f).
Proof. by intros s s' r Hs [= <- _]. Qed.
Lemma keeps_on_queue {A} (f : RealtimeSendQueue -> RealtimeSendQueue * A) :
  (forall c, quic_ok c -> quic_ok (c <|realtime_send := (f (realtime_send c)).1|>)) -> step_keeps ok (on_queue f).
Proof. intros Hf s s' r Hs. unfold on_queue. specialize (Hf _ Hs). destruct (f (realtime_send s.1)). by intros [= <- _]. Qed.
Lemma keeps_on_control {A} (f : FramedConnection -> FramedConnection * A) : step_keeps ok (on_control f).
Proof. intros s s' r Hs. unfold on_control. destruct (f (qc_control s.1)). intros [= <- _]. by apply (quic_ok_same s.1). Qed.
Lemma keeps_on_data {A} (f : FramedConnection -> FramedConnection * A) : step_keeps ok (on_data f).
Proof. intros s s' r Hs. unfold on_data. destruct (f (qc_data s.1)). intros [= <- _]. by apply (quic_ok_same s.1). Qed.
Lemma reader_acts_same x c :
  realtime_send (reader_acts x c) = realtime_send c /\ max_datagram_bytes (reader_acts x c) = max_datagram_bytes c.
Proof. destruct x; cbn; [by destruct (datagram_reader_finished c)|done]. Qed.
Lemma reader_runs_same xs c :
  realtime_send (reader_runs xs c) = realtime_send c /\ max_datagram_bytes (reader_runs xs c) = max_datagram_bytes c.
Proof.
  revert c. induction xs as [|x xs IH]; intros c; [done|].
  change (reader_runs (x :: xs) c) with (reader_runs xs (reader_acts x c)).
  destruct (reader_acts_same x c) as [E1 E2]. destruct (IH (reader_acts x c)) as [-> ->]. done.
Qed.
Lemma keeps_pop_raw xs : step_keeps ok (pop_raw_datagram xs).
Proof.
  intros s s' r Hs. unfold pop_raw_datagram. destruct (receive_pop _) as [q [m|]]; intros [= <- _].
  - by apply (quic_ok_same s.1).
  - set (c := s.1 <|datagram_receive := q|>). destruct (reader_runs_same xs c) as [E1 E2].
    exact (quic_ok_same s.1 _ E1 E2 Hs).
Qed.
End keeps.

Ltac quic_keeps :=
  repeat first
  [ lazymatch goal with
    | |- step_keeps _ (quinn_call _) => apply keeps_quinn
    | |- step_keeps _ (q_get _) => apply keeps_q_get
    | |- step_keeps _ (q_set _) => apply keeps_q_set; intros ? ?
    | |- step_keeps _ (on_control _) => apply keeps_on_control
    | |- step_keeps _ (on_data _) => apply keeps_on_data
    | |- step_keeps _ (pop_raw_datagram _) => apply keeps_pop_raw
    | |- step_keeps _ (push_event _) => unfold push_event
    | |- step_keeps _ (forget _) => unfold forget
    end
  | progress keeps ].

Section reachable.
Context {W : Type} `{QuinnConnection W}.
Abbreviation ok := (fun s : QuicConnection * (W * quinn_seen) => quic_ok s.1).

Lemma keeps_refresh : step_keeps ok refresh_realtime_state.
Proof.
  intros s s' r Hs Hr. destruct (datagrams_enabled s.1) eqn:He.
  - pose proof (refresh_spec s Hs He) as Hw. unfold step_wp in Hw. rewrite Hr in Hw. apply Hw.
  - unfold refresh_realtime_state in Hr. unfold mbind, step_bind, q_get, get_state in Hr. cbn in Hr.
    rewrite He in Hr. cbn in Hr. by injection Hr as <- _.
Qed.
Lemma keeps_poll_loop fuel now sent : step_keeps ok (poll_loop fuel now sent).
Proof.
  revert sent. induction fuel as [|fuel IH]; intros sent; cbn [poll_loop]; [apply keeps_panics|].
  destruct (_ <=? sent); [apply keeps_ret|].
  apply keeps_bind; [apply keeps_quinn|intros available].
  apply keeps_bind; [apply keeps_on_queue|intros [d|]].
  - intros c Hc. pose proof (quic_ok_op (OpPopFitting now available) c Hc) as Hop. cbn in Hop.
    destruct (pop_next_fitting now available (realtime_send c)). by apply Hop.
  - quic_keeps; [|apply IH]. by apply (quic_ok_op (OpNoteSent d)).
  - quic_keeps; [by apply (quic_ok_op OpNoteCongestion)| |apply IH].
    apply keeps_on_queue. intros. by apply (quic_ok_op OpDropDisposable).
Qed.
Lemma keeps_poll now : step_keeps ok (quic_poll_realtime now).
Proof. unfold quic_poll_realtime. quic_keeps; [apply keeps_refresh|apply keeps_poll_loop]. Qed.

Lemma quic_do_ok x : step_keeps ok (quic_do x).
Proof.
  destruct x; cbn [quic_do]; unfold quic_try_send, quic_try_send_control, quic_try_receive, quic_try_receive_control,
    quic_try_send_datagram, quic_try_receive_datagram, quic_max_datagram_payload, quic_try_send_latest,
    quic_try_receive_realtime, quic_take_realtime_events, quic_reset_realtime_session, quic_close_write,
    quic_close_read, quic_abort, current_realtime_payload_limit, current_raw_datagram_limit.
  all: quic_keeps; try apply keeps_refresh; try apply keeps_poll; try (by eapply quic_ok_same; [done|done|]);
    try (by apply (quic_ok_same c)).
  - apply keeps_on_queue. intros c Hc. pose proof (quic_ok_op (OpEnqueue d now) c Hc) as Hop. cbn in Hop.
    destruct (Realtime.enqueue d now (realtime_send c)). by apply Hop.
  - eapply quic_ok_same; [..|by apply (quic_ok_op OpReset c)]; done.
  - eapply quic_ok_same; [..|by apply (quic_ok_op OpClear c)]; done.
  - eapply quic_ok_same; [..|by apply (quic_ok_op OpClear c)]; done.
  - destruct (reader_acts_same x c) as [E1 E2]. by apply (quic_ok_same c).
Qed.

Lemma make_connection_ok {Tx Rx} runtime (streams : QuicStreams Tx Rx) local remote o (w w' : W * quinn_seen) c b :
  TransportBase.max_frame_bytes (qo_budget o) <= usize_max ->
  quic_make_connection runtime streams local remote o w = Some (w', Ok (c, b)) -> quic_ok c.
Proof.
  intros Hb. set (Q := fun (_ : W * quinn_seen) (r : result TransportError (QuicConnection * QuicBridges Tx Rx)) =>
    match r with Ok (c, _) => quic_ok c | Err _ => True end).
  enough (step_wp (quic_make_connection runtime streams local remote o) w Q) as Hwp.
  { unfold step_wp in Hwp. intros E. rewrite E in Hwp. exact Hwp. }
  unfold quic_make_connection. apply wp_bind.
  apply (step_wp_mono _ _ (fun _ r => exists b, r = Ok b)).
  { destruct (enable_datagrams o); [|by apply wp_ret; eexists]. apply wp_bind, wp_asks.
    cbv beta iota. apply wp_ret. by eexists. }
  intros w1 r [enabled ->]. cbv beta iota zeta. unfold spawn_over. apply wp_bind, wp_try.
  destruct (spawn_framed_halves runtime (qo_budget o)); [|done]. cbn [mbind result_bind]. apply wp_bind, wp_try.
  apply wp_bind, wp_asks. cbv beta iota. apply wp_bind, wp_try.
  destruct (realtime_queue_new _ _) as [q|e] eqn:Hq; [|done]. apply wp_bind, wp_asks.
  cbn. pose proof Hq as (Hi & _)%realtime_queue_new_inv.
  unfold realtime_queue_new in Hq. destruct (_ || _); [done|]. cbn in Hq. injection Hq as <-.
  split; cbn; [done|done|]. unfold REALTIME_DATAGRAM_HEADER_LEN. lia.
Qed.
Lemma quic_run_ok calls (s s' : QuicConnection * (W * quinn_seen)) :
  quic_ok s.1 -> quic_run calls s = Some s' -> quic_ok s'.1.
Proof.
  revert s. induction calls as [|x calls IH]; intros s Hok Hr; cbn [quic_run] in Hr; [by simplify_eq|].
  destruct (quic_do x s) as [[s1 r]|] eqn:Hx; [|done]. cbn in Hr. eapply IH; [|exact Hr].
  by eapply quic_do_ok.
Qed.

(** Polling from any state that satisfies the invariant. *)
Definition poll_sound now (s s' : QuicConnection * (W * quinn_seen)) (r : result TransportError N) : Prop :=
  exists ds hs,
    handed s'.2.2 = handed s.2.2 ++ hs /\ Forall2 handed_as ds hs /\ len hs <= MAX_REALTIME_DATAGRAMS_PER_POLL
    /\ Forall (fun h => len (ho_bytes h) <= path_limit (seen_size s'.2.2) s.1) hs
    /\ Forall (pending_in now (realtime_send s.1)) ds
    /\ StronglySorted
         (fun d d' => RealtimePriority.code (rd_priority d) <= RealtimePriority.code (rd_priority d')) ds
    /\ (account (realtime_send s.1) <= u64_max ->
        account (realtime_send s.1) = account (realtime_send s'.1) + len ds)
    /\ (poll_result 0 hs r \/ hs = [] /\ r = Err unsupported_datagram)
    /\ forall n, r = Ok n -> n < MAX_REALTIME_DATAGRAMS_PER_POLL ->
         nothing_fits now (seen_space s'.2.2) (realtime_send s'.1).

Lemma pending_subset now q q1 d : groups q1 ⊆ groups q -> pending_in now q1 d -> pending_in now q d.
Proof. intros Hs (g & Hg & Hd). exists g. split; [by eapply lookup_weaken|done]. Qed.
Lemma handed_within now q ds hs limit :
  queue_inv q -> REALTIME_DATAGRAM_HEADER_LEN + max_payload q <= limit -> limit <= usize_max ->
  Forall (pending_in now q) ds -> Forall2 handed_as ds hs -> Forall (fun h => len (ho_bytes h) <= limit) hs.
Proof.
  intros Hi Hm Hu Hp Hh. induction Hh as [|d h ds hs [Henc _] _ IH]; [done|].
  apply Forall_cons in Hp as [Hp Hps]. constructor; [|by apply IH].
  destruct (encode_pending now q d Hi ltac:(lia) Hp) as (Hl & bytes & Hb & Hlen).
  rewrite Hb in Henc. injection Henc as ->. lia.
Qed.
Lemma poll_fuel_enough q : (turns_left 0 q <= poll_fuel)%nat.
Proof. unfold turns_left, poll_fuel. rewrite N.sub_0_r. case_decide; lia. Qed.

Lemma poll_sound_spec now s : quic_ok s.1 -> datagrams_enabled s.1 = true ->
  step_wp (quic_poll_realtime now) s (poll_sound now s).
Proof.
  intros Hok He. unfold quic_poll_realtime. apply wp_bind, wp_q_get. rewrite He. cbn [negb]. cbv beta iota.
  apply wp_bind, wp_ret. cbv beta iota. apply wp_bind.
  eapply step_wp_mono; [by apply refresh_spec|]. intros s1 r1 [Hre Hr1]. destruct r1 as [[]|e].
  2:{ subst e. exists [], []. rewrite app_nil_r, (re_handed _ _ Hre). cbn. split_and!; try done.
      - constructor.
      - intros Ha. rewrite (re_account _ _ Hre) by done. lia.
      - by right. }
  eapply step_wp_mono; [apply poll_loop_spec; [apply Hre|apply Hre|done|apply poll_fuel_enough]|].
  intros s' r (ds & hs & H1 & [G1 G2 G3 G4 G5] & H3 & H4 & H5 & H6 & H7 & H8). exists ds, hs.
  split_and!; [by rewrite H3, (re_handed _ _ Hre)|done|done| | |done| |by left|done].
  - eapply handed_within; [apply Hre| | |done|done].
    + rewrite H4, <- Hr1. done.
    + unfold path_limit. pose proof (ok_bytes _ Hok). lia.
  - eapply Forall_impl; [done|]. intros d. apply pending_subset, Hre.
  - intros Ha. rewrite <- (re_account _ _ Hre) by done. apply G5. by rewrite (re_account _ _ Hre).
Qed.

(** C14: In every state that a connection's calls lead to, and whatever quinn
    answers, polling the real-time queue ends: it hands at most 64 datagrams
    to quinn, each live, encoded, within the free space just reported and
    within the limit of the path, the more urgent first.  It reports how many
    were sent, or the refusal that ended it; each left the queue once and what
    was dropped is counted.  Unless it stopped at 64, nothing that waits is
    expired or disposable, and nothing of the best priority fits. *)
Theorem quic_poll_sound {Tx Rx} runtime (streams : QuicStreams Tx Rx) local remote o (w0 w1 : W * quinn_seen) c0 b0
    calls s now :
  TransportBase.max_frame_bytes (qo_budget o) <= usize_max ->
  quic_make_connection runtime streams local remote o w0 = Some (w1, Ok (c0, b0)) ->
  quic_run calls (c0, w1) = Some s ->
  exists s' r, quic_poll_realtime now s = Some (s', r)
    /\ if datagrams_enabled s.1 then poll_sound now s s' r else s' = s /\ r = Err unsupported_datagram.
Proof.
  intros Hb Hm Hr. apply make_connection_ok in Hm; [|done]. apply quic_run_ok in Hr; [|done].
  destruct (datagrams_enabled s.1) eqn:He.
  - apply step_wp_iff. by apply poll_sound_spec.
  - exists s, (Err unsupported_datagram). split; [|done]. unfold quic_poll_realtime, mbind, step_bind, q_get, get_state.
    cbn. by rewrite He.
Qed.
End reachable.

(** ** Example *)

(** quinn reports its free space as a list says and takes every datagram. *)
#[local] Instance scripted : QuinnConnection (list N) := {|
  max_datagram_size w := (w, Some 1200);
  quinn_remote_address w := (w, SocketAddrV4 (vreplicate 4 Byte.x7f) 4433);
  quinn_stats w := (w, mkPathStats 20000000 12000 0);
  datagram_send_buffer_space w := match w with space :: w => (w, space) | [] => ([], 0) end;
  send_datagram _ w := (w, Ok ());
  quinn_close _ _ w := w;
|}.
Definition sample_calls : list quic_call :=
  [QcTrySendLatest (sample_datagram 1 1 100 RealtimePriority.High "head") 0;
   QcTrySendLatest (sample_datagram 2 1 100 RealtimePriority.Critical "hand") 1;
   QcTrySendLatest (sample_datagram 3 1 100 RealtimePriority.Disposable "debug") 2].
Definition sample_world : list N * quinn_seen := ([0; 0; 0; 0; 100; 76; 52], mkSeen None 0 []).
Definition sample_streams : QuicStreams () () := mkStreams () () () ().
Definition sample_made : option ((list N * quinn_seen) * result TransportError (QuicConnection * QuicBridges () ())) :=
  quic_make_connection true sample_streams (id_of EndpointKind 1) (id_of EndpointKind 2) default_quic_options sample_world.

(** The disposable datagram was dropped while nothing fitted; the critical one
    goes before the one that waited longer. *)
Lemma quic_poll_sound_witness :
  exists w1 c0 s s' r,
    (exists b0, sample_made = Some (w1, Ok (c0, b0))) /\ quic_run sample_calls (c0, w1) = Some s
    /\ quic_poll_realtime 10 s = Some (s', r) /\ r = Ok 2
    /\ (fun h => drop 20 (ho_bytes h)) <$> handed s'.2.2 = [str "hand"; str "head"]
    /\ rt_congestion_dropped (telemetry (realtime_send s'.1)) = 1 /\ poll_sound 10 s s' r.
Proof.
  destruct sample_made as [[w1 [[c0 b0]|e]]|] eqn:Hm; [|vm_compute in Hm; discriminate Hm..].
  destruct (quic_run sample_calls (c0, w1)) as [s|] eqn:Hr.
  2:{ apply (f_equal (fun m => match m with Some (w, Ok (c, _)) => quic_run sample_calls (c, w) | _ => None end)) in Hm.
      cbv beta iota in Hm. rewrite Hr in Hm. vm_compute in Hm. discriminate Hm. }
  assert (TransportBase.max_frame_bytes (qo_budget default_quic_options) <= usize_max) as Hb
    by (vm_compute; discriminate).
  pose proof (quic_poll_sound true sample_streams (id_of EndpointKind 1) (id_of EndpointKind 2) default_quic_options
    sample_world w1 c0 b0 sample_calls s 10 Hb Hm Hr) as (s' & r & Hp & Hs).
  set (outcome := match sample_made with
                  | Some (w, Ok (c, _)) => s ← quic_run sample_calls (c, w); quic_poll_realtime 10 s
                  | _ => None
                  end).
  assert (outcome = Some (s', r)) as Ho by (unfold outcome; rewrite Hm, Hr; exact Hp).
  assert (match outcome with
          | Some (s', r) => r = Ok 2 /\ (fun h => drop 20 (ho_bytes h)) <$> handed s'.2.2 = [str "hand"; str "head"]
              /\ rt_congestion_dropped (telemetry (realtime_send s'.1)) = 1
          | None => False
          end) as Hv by (vm_compute; repeat split).
  rewrite Ho in Hv. destruct Hv as (H1 & H2 & H3).
  assert (datagrams_enabled s.1 = true) as He.
  { destruct (datagrams_enabled s.1) eqn:He; [reflexivity|]. destruct Hs as [_ Hs]. rewrite H1 in Hs. discriminate Hs. }
  rewrite He in Hs. exists w1, c0, s, s', r.
  split; [exists b0; reflexivity|]. split; [exact Hr|]. split; [exact Hp|]. split; [exact H1|]. split; [exact H2|].
  split; [exact H3|exact Hs].
Defined.
