(* ===== verification/QuicLink.v ===== *)
(** * The two streams of a QUIC connection

    Two ends of a connection over its control and its data stream, each a
    framed bridge ([Framed]).  A call of an end, or a turn of a task, is a
    [link_call]; a call does one or two actions on the bridges, and the tasks
    may run between the two looks of [try_receive]. *)

From S2P Require Export Quic FramedProps.
Local Open Scope N_scope.
Import TransportErrorKind.

(** ** Calls *)

Record QuicLink := mkLink { control_world : FramedWorld; data_world : FramedWorld }.
Definition stream_of (k : StreamKind) (l : QuicLink) : FramedWorld :=
  match k with ControlKind => control_world l | DataKind => data_world l end.
Definition set_stream (k : StreamKind) (w : FramedWorld) (l : QuicLink) : QuicLink :=
  match k with
  | ControlKind => mkLink w (data_world l)
  | DataKind => mkLink (control_world l) w
  end.

(** What was done to the streams, with the links' state. *)
Definition link_log : Type := list (StreamKind * (framed_action * framed_out)).
Definition link_do (k : StreamKind) (a : framed_action) (s : QuicLink * link_log)
    : (QuicLink * link_log) * framed_out :=
  let '(w, o) := framed_act a (stream_of k s.1) in ((set_stream k w s.1, s.2 ++ [(k, (a, o))]), o).

Definition task_turn : Type := StreamKind * framed_task * task_event.
Definition link_turns (ts : list task_turn) (s : QuicLink * link_log) : QuicLink * link_log :=
  fold_left (fun s '(k, t, x) => (link_do k (FTurn t x) s).1) ts s.

Inductive link_call :=
| LkTrySend (e : pair_end) (message : list byte)
| LkTrySendControl (e : pair_end) (message : list byte)
| LkTryReceive (e : pair_end) (ts : list task_turn)
| LkTryReceiveControl (e : pair_end)
| LkCloseWrite (e : pair_end)
| LkCloseRead (e : pair_end)
| LkAbort (e : pair_end)
| LkTurns (ts : list task_turn)
| LkPipeEnds (k : StreamKind) (e : pair_end).
Inductive link_out :=
| LkSent (r : result TransportError ())
| LkReceived (r : result TransportError (option (list byte)))
| LkDone.

Definition sent_result (o : framed_out) : result TransportError () :=
  match o with OSent r => r | _ => Err write_closed_error end.
(** The look at the reader's task, after the poll. *)
Definition settled_result (k : StreamKind) (lane : FramedLane) (e : pair_end) (o : framed_out) (l : QuicLink)
    : result TransportError (option (list byte)) :=
  match o with
  | OPolled (Some p) => framed_settle lane p (framed_end e (stream_of k l))
  | _ => Err read_closed_error
  end.
Definition link_receive (e : pair_end) (ts : list task_turn) (s : QuicLink * link_log)
    : (QuicLink * link_log) * result TransportError (option (list byte)) :=
  let '(s, o) := link_do ControlKind (FPoll e DataLane) s in
  let s := link_turns ts s in
  match settled_result ControlKind DataLane e o s.1 with
  | Ok message => (s, Ok message)
  | Err x =>
    if bool_decide (te_kind x = WouldBlock) then
      let '(s, o) := link_do DataKind (FPoll e DataLane) s in (s, settled_result DataKind DataLane e o s.1)
    else (s, Err x)
  end.
Definition both_streams (a : framed_action) (s : QuicLink * link_log) : QuicLink * link_log :=
  (link_do DataKind a (link_do ControlKind a s).1).1.

Definition link_step (x : link_call) (s : QuicLink * link_log) : (QuicLink * link_log) * link_out :=
  match x with
  | LkTrySend e m => let '(s, o) := link_do DataKind (FSend e DataLane m) s in (s, LkSent (sent_result o))
  | LkTrySendControl e m =>
    let '(s, o) := link_do ControlKind (FSend e ControlLane m) s in (s, LkSent (sent_result o))
  | LkTryReceive e ts => let '(s, r) := link_receive e ts s in (s, LkReceived r)
  | LkTryReceiveControl e =>
    let '(s, o) := link_do ControlKind (FPoll e ControlLane) s in
    (s, LkReceived (settled_result ControlKind ControlLane e o s.1))
  | LkCloseWrite e => (both_streams (FCloseWrite e) s, LkDone)
  | LkCloseRead e => (both_streams (FCloseRead e) s, LkDone)
  | LkAbort e => (both_streams (FAbort e) s, LkDone)
  | LkTurns ts => (link_turns ts s, LkDone)
  | LkPipeEnds k e => ((link_do k (FPipeEnds e) s).1, LkDone)
  end.
Fixpoint link_run (xs : list link_call) (s : QuicLink * link_log)
    : (QuicLink * link_log) * list (link_call * link_out) :=
  match xs with
  | [] => (s, [])
  | x :: xs =>
    let '(s, o) := link_step x s in
    let '(s, h) := link_run xs s in (s, (x, o) :: h)
  end.

(** ** The calls are those of the connection *)

Definition halves_of (e : pair_end) (l : QuicLink) : FramedConnection * FramedConnection :=
  (framed_end e (control_world l), framed_end e (data_world l)).
Definition halves (c : QuicConnection) : FramedConnection * FramedConnection := (qc_control c, qc_data c).

Section methods.
Context {W : Type} `{QuinnConnection W}.

(** What a method returns, as the output of a call. *)
Definition answers {A} (f : result TransportError A -> link_out) (m : quic W A) : quic W link_out :=
  fun s => '(s, r) ← m s; Some (s, Ok (f r)).
Definition method (x : link_call) : option (pair_end * quic W link_out) :=
  match x with
  | LkTrySend e m => Some (e, answers LkSent (quic_try_send m))
  | LkTrySendControl e m => Some (e, answers LkSent (quic_try_send_control m))
  | LkTryReceive e [] => Some (e, answers LkReceived quic_try_receive)
  | LkTryReceiveControl e => Some (e, answers LkReceived quic_try_receive_control)
  | LkCloseWrite e => Some (e, answers (fun _ => LkDone) quic_close_write)
  | LkCloseRead e => Some (e, answers (fun _ => LkDone) quic_close_read)
  | LkAbort e => Some (e, answers (fun _ => LkDone) quic_abort)
  | _ => None
  end.

Lemma on_control_bind {A B} (f : FramedConnection -> FramedConnection * A) (k : A -> quic W B) c w :
  (a ← on_control f; k a) (c, w) = let '(c1, a) := f (qc_control c) in k a (c <|qc_control := c1|>, w).
Proof. unfold mbind, step_bind, on_control. cbn. by destruct (f (qc_control c)). Qed.
Lemma on_data_bind {A B} (f : FramedConnection -> FramedConnection * A) (k : A -> quic W B) c w :
  (a ← on_data f; k a) (c, w) = let '(c1, a) := f (qc_data c) in k a (c <|qc_data := c1|>, w).
Proof. unfold mbind, step_bind, on_data. cbn. by destruct (f (qc_data c)). Qed.

Lemma link_do_end k a s : (link_do k a s).1.1 = set_stream k (framed_act a (stream_of k s.1)).1 s.1.
Proof. unfold link_do. by destruct (framed_act _ _). Qed.
Lemma link_do_send k e lane m s :
  let '(c, r) := framed_try_send lane m (framed_end e (stream_of k s.1)) in
  let '(s', o) := link_do k (FSend e lane m) s in
  o = OSent r /\ s'.1 = set_stream k (set_framed e c (stream_of k s.1)) s.1.
Proof. unfold link_do. cbn [framed_act]. unfold at_end. by destruct (framed_try_send _ _ _). Qed.
Lemma link_do_poll k e lane s :
  let '(c, r) := framed_try_receive lane (framed_end e (stream_of k s.1)) in
  let '(s', o) := link_do k (FPoll e lane) s in
  settled_result k lane e o s'.1 = r /\ s'.1 = set_stream k (set_framed e c (stream_of k s.1)) s.1.
Proof.
  rewrite try_receive_poll. unfold link_do. cbn [framed_act]. unfold at_end.
  destruct (poll_end lane _) as [c p]. cbn [fst snd]. split; [|done].
  destruct p as [p|]; [|done]. cbn [settled_result]. by destruct k; cbn [stream_of set_stream control_world data_world];
    rewrite framed_end_same.
Qed.
Lemma halves_set k e c l :
  halves_of e (set_stream k (set_framed e c (stream_of k l)) l)
  = match k with
    | ControlKind => (c, framed_end e (data_world l))
    | DataKind => (framed_end e (control_world l), c)
    end
  /\ halves_of (other e) (set_stream k (set_framed e c (stream_of k l)) l) = halves_of (other e) l.
Proof.
  unfold halves_of. destruct k; cbn; rewrite framed_end_same, framed_end_far; done.
Qed.

Lemma both_streams_ends e a f s :
  (forall w, (framed_act a w).1 = set_framed e (f (framed_end e w)) w) ->
  halves_of e (both_streams a s).1 = (f (halves_of e s.1).1, f (halves_of e s.1).2)
  /\ halves_of (other e) (both_streams a s).1 = halves_of (other e) s.1.
Proof.
  intros Hf. unfold both_streams. rewrite !link_do_end, !Hf. unfold halves_of. cbn.
  by rewrite !framed_end_same, !framed_end_far.
Qed.

Lemma receive_is_method e s c (w : W) :
  halves c = halves_of e s.1 ->
  let '(s', r) := link_receive e [] s in
  (exists c', quic_try_receive (c, w) = Some ((c', w), r) /\ halves c' = halves_of e s'.1)
  /\ halves_of (other e) s'.1 = halves_of (other e) s.1.
Proof.
  intros Hc. injection Hc as Hctl Hdat. unfold link_receive, quic_try_receive.
  rewrite on_control_bind, Hctl. pose proof (link_do_poll ControlKind e DataLane s) as Hd. cbn in Hd.
  destruct (framed_try_receive DataLane (framed_end e (control_world s.1))) as [f r].
  destruct (link_do ControlKind _ s) as [s1 o1]. destruct Hd as [Hr Hs1].
  cbn [link_turns fold_left]. rewrite Hr.
  destruct (halves_set ControlKind e f s.1) as [Hh Ho]. cbn in Hh, Ho. rewrite <- Hs1 in Hh, Ho.
  destruct r as [message|x]; [|case_bool_decide].
  - split; [|done]. eexists. split; [done|]. rewrite Hh. unfold halves. cbn. by rewrite Hdat.
  - pose proof (link_do_poll DataKind e DataLane s1) as Hd. cbn in Hd. rewrite on_data_bind.
    injection Hh as Hf Hd1. cbn [qc_data set]. rewrite Hdat, <- Hd1.
    destruct (framed_try_receive DataLane (framed_end e (data_world s1.1))) as [f2 r2].
    destruct (link_do DataKind _ s1) as [s2 o2]. destruct Hd as [-> Hs2].
    destruct (halves_set DataKind e f2 s1.1) as [Hh2 Ho2]. cbn in Hh2, Ho2. rewrite Hs2, Hh2, Ho2.
    split; [|done]. eexists. split; [done|]. unfold halves. cbn. by rewrite Hf.
  - split; [|done]. eexists. split; [done|]. rewrite Hh. unfold halves. cbn. by rewrite Hdat.
Qed.

(** Where no task runs in between, a call does to the streams what the method
    of the connection does to its halves, and returns what it returns; the other
    end's halves stay. *)
Lemma link_call_is_method x e (m : quic W link_out) s s' o c w :
  method x = Some (e, m) -> halves c = halves_of e s.1 -> link_step x s = (s', o) ->
  (exists c' w', m (c, w) = Some ((c', w'), Ok o) /\ halves c' = halves_of e s'.1)
  /\ halves_of (other e) s'.1 = halves_of (other e) s.1.
Proof.
  intros Hm Hc Hs. injection Hc as Hctl Hdat.
  destruct x as [e' msg|e' msg|e' [|]|e'|e'|e'|e'| |]; cbn [method] in Hm; try done; injection Hm as -> <-; cbn [link_step] in Hs.
  - pose proof (link_do_send DataKind e DataLane msg s) as Hd. unfold answers, quic_try_send.
    rewrite on_data_bind, Hdat. cbn in Hd, Hs. destruct (framed_try_send _ _ _) as [f r]. destruct (link_do _ _ _) as [s1 o1].
    destruct Hd as [-> Hd]. injection Hs as <- <-. rewrite Hd. destruct (halves_set DataKind e f s.1) as [H1 H2]. cbn in H1, H2. rewrite H1, H2.
    split; [|done]. eexists _, _. split; [done|]. unfold halves. cbn. by rewrite Hctl.
  - pose proof (link_do_send ControlKind e ControlLane msg s) as Hd. unfold answers, quic_try_send_control.
    rewrite on_control_bind, Hctl. cbn in Hd, Hs. destruct (framed_try_send _ _ _) as [f r]. destruct (link_do _ _ _) as [s1 o1].
    destruct Hd as [-> Hd]. injection Hs as <- <-. rewrite Hd. destruct (halves_set ControlKind e f s.1) as [H1 H2]. cbn in H1, H2. rewrite H1, H2.
    split; [|done]. eexists _, _. split; [done|]. unfold halves. cbn. by rewrite Hdat.
  - pose proof (receive_is_method e s c w) as Hr. destruct (link_receive e [] s) as [s1 r]. injection Hs as <- <-.
    destruct Hr as [(c' & Hr & Hh) Ho]; [unfold halves, halves_of; congruence|]. split; [|done].
    exists c', w. unfold answers. by rewrite Hr.
  - pose proof (link_do_poll ControlKind e ControlLane s) as Hd. unfold answers, quic_try_receive_control.
    rewrite on_control_bind, Hctl. cbn in Hd, Hs. destruct (framed_try_receive _ _) as [f r]. destruct (link_do _ _ _) as [s1 o1].
    destruct Hd as [Hr Hd]. injection Hs as <- <-. rewrite Hr, Hd. destruct (halves_set ControlKind e f s.1) as [H1 H2]. cbn in H1, H2. rewrite H1, H2.
    split; [|done]. eexists _, _. split; [done|]. unfold halves. cbn. by rewrite Hdat.
  - injection Hs as <- <-. destruct (both_streams_ends e (FCloseWrite e) framed_close_write s ltac:(done)) as [-> ->].
    split; [|done]. eexists _, _. split; [done|]. unfold halves. cbn. by rewrite Hctl, Hdat.
  - injection Hs as <- <-. destruct (both_streams_ends e (FCloseRead e) framed_close_read s ltac:(done)) as [-> ->].
    split; [|done]. eexists _, _. split; [done|]. unfold halves. cbn. by rewrite Hctl, Hdat.
  - injection Hs as <- <-. destruct (both_streams_ends e (FAbort e) framed_abort s ltac:(done)) as [-> ->].
    split; [|done]. eexists _, _. split; [done|]. unfold halves. cbn. by rewrite Hctl, Hdat.
Qed.
End methods.

(** ** What the calls accept and return *)

Definition on_stream (k : StreamKind) (x : StreamKind * (framed_action * framed_out))
    : option (framed_action * framed_out) := if bool_decide (x.1 = k) then Some x.2 else None.
Definition stream_log (k : StreamKind) (log : link_log) : list (framed_action * framed_out) := omap (on_stream k) log.

(** What [try_send] and [try_send_control] accepted, and what the two receiving
    methods returned, at an end. *)
Definition link_accepted (k : StreamKind) (e : pair_end) (x : link_call * link_out) : option (list byte) :=
  match k, x with
  | DataKind, (LkTrySend e' m, LkSent (Ok _)) => if bool_decide (e' = e) then Some m else None
  | ControlKind, (LkTrySendControl e' m, LkSent (Ok _)) => if bool_decide (e' = e) then Some m else None
  | _, _ => None
  end.
Definition link_returned (lane : FramedLane) (e : pair_end) (x : link_call * link_out) : option (list byte) :=
  match lane, x with
  | DataLane, (LkTryReceive e' _, LkReceived (Ok (Some m))) => if bool_decide (e' = e) then Some m else None
  | ControlLane, (LkTryReceiveControl e', LkReceived (Ok (Some m))) => if bool_decide (e' = e) then Some m else None
  | _, _ => None
  end.
(** Each message that came out of a data lane, with its stream. *)
Definition came_from (e : pair_end) (x : StreamKind * (framed_action * framed_out)) : option (StreamKind * list byte) :=
  pair x.1 <$> received_by e DataLane x.2.

Lemma stream_log_app k l1 l2 : stream_log k (l1 ++ l2) = stream_log k l1 ++ stream_log k l2.
Proof. apply omap_app. Qed.
Lemma came_from_stream k e log :
  (filter (fun z => z.1 = k) (omap (came_from e) log)).*2 = received e (stream_log k log) DataLane.
Proof.
  unfold received, stream_log. induction log as [|[k' x] log IH]; [done|]. cbn [omap list_omap].
  unfold came_from at 1, on_stream at 1. cbn [fst snd].
  destruct (received_by e DataLane x) as [m|] eqn:Hx; cbn [fmap option_fmap option_map]; case_bool_decide as E; subst.
  - rewrite filter_cons_True by done. cbn [omap list_omap]. rewrite Hx. cbn [fmap list_fmap snd]. by rewrite <- IH.
  - rewrite filter_cons_False by done. exact IH.
  - cbn [omap list_omap]. rewrite Hx. exact IH.
  - exact IH.
Qed.

(** What a stretch of the log says was accepted and came out. *)
Record shows (log : link_log) (acc : StreamKind -> FramedLane -> pair_end -> list (list byte))
    (ctl dat : pair_end -> list (list byte)) : Prop := {
  sh_accepted k lane e : accepted e (stream_log k log) lane = acc k lane e;
  sh_control e : received e (stream_log ControlKind log) ControlLane = ctl e;
  sh_data e : (omap (came_from e) log).*2 = dat e;
}.
Lemma shows_app l1 l2 a1 a2 c1 c2 d1 d2 :
  shows l1 a1 c1 d1 -> shows l2 a2 c2 d2 ->
  shows (l1 ++ l2) (fun k lane e => a1 k lane e ++ a2 k lane e) (fun e => c1 e ++ c2 e) (fun e => d1 e ++ d2 e).
Proof.
  intros [A1 C1 D1] [A2 C2 D2]. split; intros.
  - unfold accepted. rewrite stream_log_app, omap_app. f_equal; [apply A1|apply A2].
  - unfold received. rewrite stream_log_app, omap_app. f_equal; [apply C1|apply C2].
  - rewrite omap_app, fmap_app. f_equal; [apply D1|apply D2].
Qed.
Lemma shows_nil : shows [] (fun _ _ _ => []) (fun _ => []) (fun _ => []).
Proof. by split. Qed.
Lemma shows_ext log a a' c c' d d' :
  shows log a c d -> (forall k lane e, a k lane e = a' k lane e) -> (forall e, c e = c' e) -> (forall e, d e = d' e) ->
  shows log a' c' d'.
Proof. intros [] Ha Hc Hd. split; intros; by rewrite <- ?Ha, <- ?Hc, <- ?Hd. Qed.

Lemma shows_silent k a : shows [(k, (a, ONone))] (fun _ _ _ => []) (fun _ => []) (fun _ => []).
Proof. split; intros; unfold stream_log, accepted, received, on_stream, came_from; cbn; destruct a; cbn; by repeat (case_bool_decide; cbn). Qed.
Lemma shows_send k e lane m r :
  shows [(k, (FSend e lane m, OSent r))]
    (fun k' lane' e' => if bool_decide (k' = k /\ lane' = lane /\ e' = e)
                        then option_list (match r with Ok _ => Some m | Err _ => None end) else [])
    (fun _ => []) (fun _ => []).
Proof.
  split; intros; destruct r; unfold stream_log, accepted, received, on_stream, came_from; cbn;
    repeat (case_bool_decide; cbn); naive_solver.
Qed.
Definition polled_message (o : framed_out) : option (list byte) :=
  match o with OPolled (Some (PolledMessage m)) => Some m | _ => None end.
Lemma shows_poll k e lane o :
  shows [(k, (FPoll e lane, o))] (fun _ _ _ => [])
    (fun e' => if bool_decide (k = ControlKind /\ lane = ControlLane /\ e' = e) then option_list (polled_message o) else [])
    (fun e' => if bool_decide (lane = DataLane /\ e' = e) then option_list (polled_message o) else []).
Proof.
  split; intros; unfold stream_log, accepted, received, on_stream, came_from; cbn; destruct o as [r|[[m| |]|]|]; cbn;
    repeat (case_bool_decide; cbn); naive_solver.
Qed.

(** The turns of tasks, and closing, answer nothing. *)
Definition silent (a : framed_action) : bool := match a with FSend _ _ _ | FPoll _ _ => false | _ => true end.
Lemma link_do_log k a s : exists o, (link_do k a s).1.2 = s.2 ++ [(k, (a, o))] /\ (link_do k a s).2 = o
  /\ framed_act a (stream_of k s.1) = (stream_of k (link_do k a s).1.1, o).
Proof.
  unfold link_do. destruct (framed_act a (stream_of k s.1)) as [w o]. exists o. cbn. split_and!; try done. by destruct k.
Qed.
Lemma settled_polled k lane e o l :
  match settled_result k lane e o l with
  | Ok r => r = polled_message o /\ is_Some r
  | Err _ => polled_message o = None
  end.
Proof. destruct o as [r|[[m| |]|]|]; cbn; try done. by case_bool_decide. Qed.
Lemma link_do_silent k a s : silent a = true ->
  exists log, (link_do k a s).1.2 = s.2 ++ log /\ shows log (fun _ _ _ => []) (fun _ => []) (fun _ => []).
Proof.
  intros Ha. exists [(k, (a, ONone))]. split; [|apply shows_silent]. unfold link_do. by destruct a.
Qed.
Lemma link_turns_shows ts s :
  exists log, (link_turns ts s).2 = s.2 ++ log /\ shows log (fun _ _ _ => []) (fun _ => []) (fun _ => []).
Proof.
  revert s. induction ts as [|[[k t] x] ts IH]; intros s; [exists []; split; [by rewrite app_nil_r|apply shows_nil]|].
  destruct (link_do_silent k (FTurn t x) s eq_refl) as (l1 & E1 & H1).
  destruct (IH (link_do k (FTurn t x) s).1) as (l2 & E2 & H2). exists (l1 ++ l2).
  split; [cbn; etrans; [exact E2|]; by rewrite E1, app_assoc|].
  eapply shows_ext; [by apply shows_app|done..].
Qed.
Lemma both_streams_shows a s : silent a = true ->
  exists log, (both_streams a s).2 = s.2 ++ log /\ shows log (fun _ _ _ => []) (fun _ => []) (fun _ => []).
Proof.
  intros Ha. unfold both_streams. destruct (link_do_silent ControlKind a s Ha) as (l1 & E1 & H1).
  destruct (link_do_silent DataKind a (link_do ControlKind a s).1 Ha) as (l2 & E2 & H2). exists (l1 ++ l2).
  split; [by rewrite E2, E1, app_assoc|]. eapply shows_ext; [by apply shows_app|done..].
Qed.

Lemma link_receive_shows e ts s s' r : link_receive e ts s = (s', r) ->
  exists log, s'.2 = s.2 ++ log
    /\ shows log (fun _ _ _ => []) (fun _ => [])
         (fun e' => if bool_decide (e' = e) then match r with Ok (Some m) => [m] | _ => [] end else []).
Proof.
  unfold link_receive. intros Hr. destruct (link_do_log ControlKind (FPoll e DataLane) s) as (o & E1 & Eo & _).
  destruct (link_do ControlKind (FPoll e DataLane) s) as [s1 o1]. cbn [fst snd] in *. subst o1.
  destruct (link_turns_shows ts s1) as (l2 & E2 & H2). set (s2 := link_turns ts s1) in *.
  pose proof (settled_polled ControlKind DataLane e o s2.1) as Hset.
  destruct (settled_result ControlKind DataLane e o s2.1) as [m|x].
  - destruct Hset as [Hm [m' ->]]. simplify_eq. exists ([(ControlKind, (FPoll e DataLane, o))] ++ l2).
    split; [by rewrite E2, E1, app_assoc|]. eapply shows_ext; [apply shows_app; [apply shows_poll|exact H2]|..]; cbn; try done.
    intros e'. rewrite <- Hm. repeat case_bool_decide; naive_solver.
  - destruct (bool_decide (te_kind x = WouldBlock)).
    + destruct (link_do_log DataKind (FPoll e DataLane) s2) as (o2 & E3 & Eo2 & _).
      destruct (link_do DataKind (FPoll e DataLane) s2) as [s3 o3]. cbn [fst snd] in *. subst o3. simplify_eq.
      exists ([(ControlKind, (FPoll e DataLane, o))] ++ l2 ++ [(DataKind, (FPoll e DataLane, o2))]).
      split; [by rewrite E3, E2, E1, <- !app_assoc|].
      eapply shows_ext; [apply shows_app; [apply shows_poll|apply shows_app; [exact H2|apply shows_poll]]|..]; cbn; try done.
      intros e'. rewrite Hset. pose proof (settled_polled DataKind DataLane e o2 s'.1) as Hset2.
      destruct (settled_result _ _ _ _ _) as [m|y]; [destruct Hset2 as [-> [m2 Hm2]]; rewrite Hm2|rewrite Hset2];
        repeat case_bool_decide; naive_solver.
    + simplify_eq. exists ([(ControlKind, (FPoll e DataLane, o))] ++ l2). split; [by rewrite E2, E1, app_assoc|].
      eapply shows_ext; [apply shows_app; [apply shows_poll|exact H2]|..]; cbn; try done.
      intros e'. rewrite Hset. repeat case_bool_decide; naive_solver.
Qed.

Definition lane_for (k : StreamKind) : FramedLane :=
  match k with ControlKind => ControlLane | DataKind => DataLane end.
Lemma link_step_shows x s s' o : link_step x s = (s', o) ->
  exists log, s'.2 = s.2 ++ log
    /\ shows log (fun k lane e => if bool_decide (lane = lane_for k) then option_list (link_accepted k e (x, o)) else [])
         (fun e => option_list (link_returned ControlLane e (x, o)))
         (fun e => option_list (link_returned DataLane e (x, o))).
Proof.
  assert (forall k e m, exists r, (link_do k (FSend e (lane_for k) m) s).2 = OSent r
    /\ (link_do k (FSend e (lane_for k) m) s).1.2 = s.2 ++ [(k, (FSend e (lane_for k) m, OSent r))]) as Hsend.
  { intros k e m. unfold link_do. cbn [framed_act]. destruct (at_end _ _ _) as [w r]. by exists r. }
  destruct x as [e m|e m|e ts|e|e|e|e|ts|k e]; cbn [link_step]; intros Hs.
  - destruct (Hsend DataKind e m) as (r & Eo & El). cbn [lane_for] in *.
    destruct (link_do DataKind _ s) as [s1 o1]. cbn in Eo, El. simplify_eq. eexists. split; [exact El|].
    eapply shows_ext; [apply shows_send|..]; [|intros; by destruct r..].
    intros k lane e'. destruct k, r; cbn; repeat case_bool_decide; naive_solver.
  - destruct (Hsend ControlKind e m) as (r & Eo & El). cbn [lane_for] in *.
    destruct (link_do ControlKind _ s) as [s1 o1]. cbn in Eo, El. simplify_eq. eexists. split; [exact El|].
    eapply shows_ext; [apply shows_send|..]; [|intros; by destruct r..].
    intros k lane e'. destruct k, r; cbn; repeat case_bool_decide; naive_solver.
  - destruct (link_receive e ts s) as [s1 r] eqn:Hr. simplify_eq. apply link_receive_shows in Hr as (log & El & Hl).
    exists log. split; [done|]. eapply shows_ext; [exact Hl|..].
    + intros k lane e'. destruct k; cbn; by case_bool_decide.
    + done.
    + intros e'. cbn. destruct r as [[m|]|x]; repeat case_bool_decide; naive_solver.
  - destruct (link_do_log ControlKind (FPoll e ControlLane) s) as (o1 & E1 & Eo & _).
    destruct (link_do ControlKind _ s) as [s1 o2]. cbn in *. simplify_eq. eexists. split; [exact E1|].
    pose proof (settled_polled ControlKind ControlLane e o1 s'.1) as Hset. cbn in Hset.
    eapply shows_ext; [apply shows_poll|..]; cbn.
    + intros k lane e'. by destruct k; case_bool_decide.
    + intros e'. destruct (settled_result _ _ _ _ _) as [m|y]; [destruct Hset as [-> [m2 Hm2]]; rewrite Hm2|rewrite Hset];
        repeat case_bool_decide; naive_solver.
    + intros e'. destruct (settled_result _ _ _ _ _); repeat case_bool_decide; naive_solver.
  - simplify_eq. destruct (both_streams_shows (FCloseWrite e) s eq_refl) as (log & ? & Hl). exists log. split; [done|].
    eapply shows_ext; [exact Hl|..]; [intros [] ? ?; by case_bool_decide|done..].
  - simplify_eq. destruct (both_streams_shows (FCloseRead e) s eq_refl) as (log & ? & Hl). exists log. split; [done|].
    eapply shows_ext; [exact Hl|..]; [intros [] ? ?; by case_bool_decide|done..].
  - simplify_eq. destruct (both_streams_shows (FAbort e) s eq_refl) as (log & ? & Hl). exists log. split; [done|].
    eapply shows_ext; [exact Hl|..]; [intros [] ? ?; by case_bool_decide|done..].
  - simplify_eq. destruct (link_turns_shows ts s) as (log & ? & Hl). exists log. split; [done|].
    eapply shows_ext; [exact Hl|..]; [intros [] ? ?; by case_bool_decide|done..].
  - simplify_eq. destruct (link_do_silent k (FPipeEnds e) s eq_refl) as (log & ? & Hl). exists log. split; [done|].
    eapply shows_ext; [exact Hl|..]; [intros [] ? ?; by case_bool_decide|done..].
Qed.

(** ** Order *)

Lemma framed_run_snoc w acts a :
  framed_run w (acts ++ [a])
  = let '(w1, h) := framed_run w acts in let '(w2, o) := framed_act a w1 in (w2, h ++ [(a, o)]).
Proof.
  revert w. induction acts as [|b acts IH]; intros w; cbn; [by destruct (framed_act a w)|].
  destruct (framed_act b w) as [w1 o1]. rewrite IH. destruct (framed_run w1 acts) as [w2 h].
  by destruct (framed_act a w2).
Qed.

(** Each stream of [s] is what its part of the log made of that of [l0]. *)
Definition tracks (l0 : QuicLink) (s : QuicLink * link_log) : Prop :=
  forall k, framed_run (stream_of k l0) (stream_log k s.2).*1 = (stream_of k s.1, stream_log k s.2).
Lemma tracks_do l0 k a s : tracks l0 s -> tracks l0 (link_do k a s).1.
Proof.
  intros Ht k'. destruct (link_do_log k a s) as (o & -> & _ & Ha). rewrite stream_log_app.
  pose proof (link_do_end k a s) as Hend. unfold stream_log at 2 4, on_stream. cbn. case_bool_decide as E.
  - subst k'. cbn. rewrite fmap_app. cbn. rewrite framed_run_snoc, (Ht k), Ha. done.
  - cbn. rewrite app_nil_r, (Ht k'), Hend. by destruct k, k'.
Qed.
Lemma tracks_turns l0 ts s : tracks l0 s -> tracks l0 (link_turns ts s).
Proof.
  revert s. induction ts as [|[[k t] x] ts IH]; intros s Ht; [done|].
  apply (IH (link_do k (FTurn t x) s).1). by apply tracks_do.
Qed.
Lemma tracks_step l0 x s s' o : link_step x s = (s', o) -> tracks l0 s -> tracks l0 s'.
Proof.
  intros Hs Ht. destruct x as [e m|e m|e ts|e|e|e|e|ts|k e]; cbn [link_step] in Hs.
  - pose proof (tracks_do l0 DataKind (FSend e DataLane m) s Ht) as H. destruct (link_do _ _ s). by simplify_eq.
  - pose proof (tracks_do l0 ControlKind (FSend e ControlLane m) s Ht) as H. destruct (link_do _ _ s). by simplify_eq.
  - unfold link_receive in Hs. pose proof (tracks_do l0 ControlKind (FPoll e DataLane) s Ht) as H.
    destruct (link_do _ _ s) as [s1 o1]. cbn [fst] in H. apply (tracks_turns _ ts) in H.
    set (s2 := link_turns ts s1) in *. destruct (settled_result _ _ _ _ _) as [m|y]; [by simplify_eq|].
    destruct (bool_decide _); [|by simplify_eq].
    pose proof (tracks_do l0 DataKind (FPoll e DataLane) s2 H) as H2. destruct (link_do _ _ s2). by simplify_eq.
  - pose proof (tracks_do l0 ControlKind (FPoll e ControlLane) s Ht) as H. destruct (link_do _ _ s). by simplify_eq.
  - simplify_eq. unfold both_streams. by do 2 apply tracks_do.
  - simplify_eq. unfold both_streams. by do 2 apply tracks_do.
  - simplify_eq. unfold both_streams. by do 2 apply tracks_do.
  - simplify_eq. by apply tracks_turns.
  - simplify_eq. by apply tracks_do.
Qed.

(** What a run's calls accepted and returned is what the log says. *)
Lemma link_run_shows l0 xs s s' h : link_run xs s = (s', h) -> tracks l0 s ->
  tracks l0 s' /\ exists log, s'.2 = s.2 ++ log
    /\ shows log (fun k lane e => if bool_decide (lane = lane_for k) then omap (link_accepted k e) h else [])
         (fun e => omap (link_returned ControlLane e) h) (fun e => omap (link_returned DataLane e) h).
Proof.
  revert s h. induction xs as [|x xs IH]; intros s h Hr Ht; cbn [link_run] in Hr.
  { simplify_eq. split; [done|]. exists []. split; [by rewrite app_nil_r|].
    eapply shows_ext; [apply shows_nil|..]; [|done..]. intros. by case_bool_decide. }
  destruct (link_step x s) as [s1 o] eqn:Hs. destruct (link_run xs s1) as [s2 h2] eqn:Hr2. simplify_eq.
  apply (tracks_step l0 _ _ _ _ Hs) in Ht. apply link_step_shows in Hs as (l1 & E1 & H1).
  apply IH in Hr2 as (Ht2 & l2 & E2 & H2); [|done]. split; [done|]. exists (l1 ++ l2).
  split; [by rewrite E2, E1, app_assoc|]. eapply shows_ext; [by apply shows_app|..].
  - intros k lane e. cbn [omap list_omap]. case_bool_decide; [|done]. by destruct (link_accepted k e (x, o)).
  - intros e. cbn [omap list_omap]. by destruct (link_returned ControlLane e (x, o)).
  - intros e. cbn [omap list_omap]. by destruct (link_returned DataLane e (x, o)).
Qed.

Lemma prefix_filter {A} (P : A -> Prop) `{forall x, Decision (P x)} l1 l2 :
  l1 `prefix_of` l2 -> filter P l1 `prefix_of` filter P l2.
Proof. intros [k ->]. rewrite filter_app. by apply prefix_app_r. Qed.
Lemma one_lane (l : FramedLane) (taken : list (FramedLane * list byte)) :
  (forall l', l' <> l -> lane_messages l' taken = []) -> lane_messages l taken = taken.*2.
Proof.
  unfold lane_messages. induction taken as [|[l' m] taken IH]; intros Hn; [done|]. rewrite filter_cons. cbn.
  destruct (decide (l' = l)) as [->|Hl]; cbn.
  - rewrite IH; [done|]. intros l' Hl. specialize (Hn l' Hl). rewrite filter_cons in Hn. cbn in Hn.
    by rewrite decide_False in Hn by congruence.
  - specialize (Hn l' Hl). rewrite filter_cons in Hn. cbn in Hn. by rewrite decide_True in Hn.
Qed.

(** C13: Whatever the calls, the tasks and the streams do, [try_receive_control]
    returns, in order, a prefix of the messages with the control prefix that
    the other end's [try_send_control] accepted, and what [try_receive]
    returns are two such prefixes, merged: of the messages without that prefix
    that [try_send_control] accepted, and of those that [try_send] accepted.
    The calls of such a run are the methods of the connection: at any state, a
    call does to the framed halves of its end what the method does, answers
    what the method returns, and leaves the other end alone. *)
Theorem quic_streams_in_order bl br left right xs s h e :
  spawn_framed_halves true bl = Ok left -> spawn_framed_halves true br = Ok right ->
  link_run xs (mkLink (framed_pair left right) (framed_pair left right), []) = (s, h) ->
  let accepted k := omap (link_accepted k e) h in
  omap (link_returned ControlLane (other e)) h
    `prefix_of` filter (fun m => lane_of m = ControlLane) (accepted ControlKind)
  /\ (exists zs : list (StreamKind * list byte),
       zs.*2 = omap (link_returned DataLane (other e)) h
       /\ (forall k, (filter (fun z => z.1 = k) zs).*2 `prefix_of` filter (fun m => lane_of m = DataLane) (accepted k)))
  /\ forall (W : Type) (Q : QuinnConnection W) x e' (m : quic W link_out) s1 s2 o c w,
       method x = Some (e', m) -> halves c = halves_of e' s1.1 -> link_step x s1 = (s2, o) ->
       exists c' w', m (c, w) = Some ((c', w'), Ok o) /\ halves c' = halves_of e' s2.1
         /\ halves_of (other e') s2.1 = halves_of (other e') s1.1.
Proof.
  intros Hl Hr Hrun accepted. set (l0 := mkLink (framed_pair left right) (framed_pair left right)) in *.
  apply (link_run_shows l0) in Hrun as (Ht & log & Elog & [Hacc Hctl Hdat]); [|intros []; done].
  cbn in Elog.
  assert (forall k lane, received (other e) (stream_log k log) lane
    `prefix_of` filter (fun m => lane_of m = lane) (accepted k)) as Hall.
  { intros k lane. specialize (Ht k). cbn in Ht. rewrite Elog in Ht.
    eapply (direction_run false e _ _ _ _ (fun _ => []) (fun _ => [])) in Ht; [|done|].
    2:{ destruct k; by eapply framed_pair_inv. }
    apply direction_prefix in Ht as (taken & Htak & Hrcv). cbn in Htak, Hrcv.
    etrans; [apply Hrcv|]. apply prefix_filter. rewrite <- (one_lane (lane_for k)).
    - etrans; [apply Htak|]. by rewrite Hacc, bool_decide_eq_true_2.
    - intros l' Hne. specialize (Htak l'). rewrite Hacc, bool_decide_eq_false_2 in Htak by done.
      by apply prefix_nil_inv in Htak. }
  split; [rewrite <- Hctl; apply Hall|]. split.
  2:{ intros W Q x e' m s1 s2 o c w Hm Hc Hs. destruct (link_call_is_method x e' m s1 s2 o c w Hm Hc Hs) as [(c' & w' & E & Hc') Ho].
      by exists c', w'. }
  exists (omap (came_from (other e)) log). split; [apply Hdat|].
  intros k. rewrite came_from_stream. apply Hall.
Qed.

(** ** Examples *)

Definition fresh_link (b : TransportBudget) : QuicLink * link_log :=
  (mkLink (framed_pair (fresh b) (fresh b)) (framed_pair (fresh b) (fresh b)), []).
(** The tasks of both streams, from the left end to the right, [n] times. *)
Definition tasks_run (n : nat) : list task_turn :=
  concat (replicate n (k ← [ControlKind; DataKind];
                       [(k, WriterOf LeftEnd, Run 64); (k, ReaderOf RightEnd, Run 64)])).
Definition sample_link_calls : list link_call :=
  [LkTrySend LeftEnd (str "data"); LkTrySendControl LeftEnd sample_control; LkTurns (tasks_run 8);
   LkTryReceive RightEnd []; LkTryReceiveControl RightEnd].

Lemma quic_streams_in_order_witness :
  let h := (link_run sample_link_calls (fresh_link default_transport_budget)).2 in
  omap (link_returned ControlLane RightEnd) h = [sample_control]
  /\ omap (link_returned DataLane RightEnd) h = [str "data"]
  /\ omap (link_returned ControlLane RightEnd) h
       `prefix_of` filter (fun m => lane_of m = ControlLane) (omap (link_accepted ControlKind LeftEnd) h).
Proof.
  destruct (link_run sample_link_calls (fresh_link default_transport_budget)) as [s h] eqn:Hr.
  assert (omap (link_returned ControlLane RightEnd) h = [sample_control]
    /\ omap (link_returned DataLane RightEnd) h = [str "data"]) as [H1 H2].
  { apply (f_equal snd) in Hr. cbn [snd] in Hr. rewrite <- Hr. split; vm_compute; reflexivity. }
  split; [exact H1|]. split; [exact H2|].
  exact (proj1 (quic_streams_in_order default_transport_budget default_transport_budget
    (fresh default_transport_budget) (fresh default_transport_budget) sample_link_calls s h LeftEnd eq_refl eq_refl Hr)).
Defined.

(** A half-close hides data.  When the control stream of the other end has
    ended, [try_receive] reports its end without looking at the data stream:
    what waits there is never returned, however often it is called. *)
Lemma ended_control_hides_data {W} `{QuinnConnection W} c (w : W) :
  fc_read_closed (receive_half (qc_control c)) = false ->
  reader (receive_half (qc_control c)) = ReaderEnded ->
  data_receive_queue (receive_half (qc_control c)) = [] ->
  te_kind (terminal_or read_closed_error (qc_control c)) <> WouldBlock ->
  quic_try_receive (c, w) = Some ((c, w), Err (terminal_or read_closed_error (qc_control c))).
Proof.
  intros H1 H2 H3 H4. unfold quic_try_receive. rewrite on_control_bind.
  unfold framed_try_receive, framed_poll. cbn [receive_queue]. rewrite H1, H3, H2.
  cbn [framed_settle bool_decide]. rewrite bool_decide_eq_true_2 by done. cbn [framed_settle].
  rewrite bool_decide_eq_false_2 by done. by destruct c.
Qed.
Lemma half_close_hides_data :
  let '(s, h) := link_run ([LkTrySend LeftEnd (str "data"); LkCloseWrite LeftEnd; LkTurns (tasks_run 16)]
                           ++ replicate 3 (LkTryReceive RightEnd [])) (fresh_link default_transport_budget) in
  omap (link_accepted DataKind LeftEnd) h = [str "data"]
  /\ drop 3 h.*2 = replicate 3 (LkReceived (Err read_closed_error))
  /\ data_receive_queue (receive_half (right_end (data_world s.1))) = [str "data"].
Proof. vm_compute. done. Qed.

(** Data with the control prefix blocks the data stream.  It goes to a queue
    that no method reads; when that is full the reader's task waits for ever,
    and later data is never returned. *)
Definition narrow_budget : TransportBudget :=
  mkTransportBudget 1 2 1 8 8 64 None None None None.
Lemma full_lane_blocks message c inp n :
  reader (receive_half c) = AtDeliver message ->
  match lane_of message with
  | ControlLane => control_queue_capacity (fc_budget c)
  | DataLane => receive_queue_capacity (fc_budget c)
  end <= len (receive_queue (lane_of message) (receive_half c)) ->
  reader_step (Run n) c inp = (c, inp).
Proof.
  intros H1 H2. unfold reader_step. rewrite H1. unfold deliver_message. by rewrite (proj2 (N.leb_le _ _) H2).
Qed.
Lemma tagged_data_blocks :
  let '(s, h) := link_run ([LkTrySend LeftEnd sample_control; LkTrySend LeftEnd sample_control;
                            LkTrySend LeftEnd (str "data"); LkTurns (tasks_run 32)]
                           ++ replicate 3 (LkTryReceive RightEnd []) ++ [LkTurns (tasks_run 8)])
                   (fresh_link narrow_budget) in
  len (omap (link_accepted DataKind LeftEnd) h) = 3
  /\ omap (link_returned DataLane RightEnd) h = []
  /\ reader (receive_half (right_end (data_world s.1))) = AtDeliver sample_control
  /\ control_receive_queue (receive_half (right_end (data_world s.1))) = [sample_control].
Proof. vm_compute. done. Qed.
(** In a framed bridge, likewise, data that is not received keeps control
    messages behind it from being read. *)
Definition one_message_budget : TransportBudget := mkTransportBudget 1 2 8 8 1 64 None None None None.
Lemma full_data_blocks_control :
  let '(w, h) := framed_run (framed_pair (fresh one_message_budget) (fresh one_message_budget))
                   ([FSend LeftEnd DataLane (str "one"); FSend LeftEnd DataLane (str "two")]
                    ++ concat (replicate 4 (write_turns ++ read_turns))
                    ++ [FSend LeftEnd ControlLane sample_control]
                    ++ concat (replicate 4 (write_turns ++ read_turns)) ++ [FPoll RightEnd ControlLane]) in
  accepted LeftEnd h ControlLane = [sample_control] /\ received RightEnd h ControlLane = []
  /\ send_queue ControlLane (send_half (left_end w)) = []
  /\ reader (receive_half (right_end w)) = AtDeliver (str "two").
Proof. vm_compute. done. Qed.
