(* ===== verification/ListenerFacts.v ===== *)
(** * Listeners keep to their limit, and accept whole QUIC connections *)

From S2P Require Export Quic FramedFacts.
Local Open Scope N_scope.

(** ** Permits *)

Section listener.
Context {L Incoming Conn : Type} `{Acceptor L Incoming Conn} (listener : L).

Record listening_inv (s : Listening Conn) : Prop := {
  li_permits : permits s = accepting s + len (accepted_connections s);
  li_bounded : permits s <= max_accepted listener;
}.

Lemma drop_permit_pos n : 0 < n -> n <= usize_max -> drop_permit n = n - 1.
Proof.
  intros H1 H2. unfold drop_permit. replace (n + usize_max) with (n - 1 + 1 * (usize_max + 1)) by lia.
  rewrite N.Div0.mod_add. apply N.mod_small. lia.
Qed.
Lemma listener_step_inv x s s' o : max_accepted listener <= usize_max ->
  listening_inv s -> listener_step listener x s = (s', o) -> listening_inv s'.
Proof.
  intros Hm [H1 H2] Hs. destruct x as [|remote incoming| |i]; cbn in Hs.
  - unfold try_acquire in Hs. destruct (N.ltb_spec (permits s) (max_accepted listener)); simplify_eq; split; cbn; lia.
  - destruct (N.eqb_spec (accepting s) 0); [by simplify_eq|].
    destruct (accept_connection listener remote incoming) as [[]|]; simplify_eq; [| |done]; split; cbn; rewrite ?length_app; cbn;
      rewrite ?drop_permit_pos by lia; lia.
  - destruct (N.eqb_spec (accepting s) 0); [by simplify_eq|]. simplify_eq.
    split; cbn; rewrite drop_permit_pos by lia; lia.
  - destruct (accepted_connections s !! i) as [c|] eqn:Hi; [|by simplify_eq]. simplify_eq.
    pose proof (lookup_lt_Some _ _ _ Hi). pose proof (length_delete _ _ (mk_is_Some _ _ Hi)).
    split; cbn; rewrite drop_permit_pos by lia; lia.
Qed.

(** C33: However accepts, failures, dropped futures and dropped connections
    follow each other, a listener's count is the number of accepts that wait
    and of connections that live; it never exceeds the configured limit, and
    an accept is refused exactly when the limit is reached.  So every permit
    is given back. *)
Theorem listener_bounded xs :
  max_accepted listener <= usize_max ->
  let s := (listener_run listener xs listening_new).1 in
  active_connections s = accepting s + len (accepted_connections s)
  /\ active_connections s <= max_accepted listener
  /\ (listener_step listener AcceptCalled s).2
     = if active_connections s =? max_accepted listener then Returns (Err accept_refused) else Waits.
Proof.
  intros Hm. assert (forall s, listening_inv s -> listening_inv (listener_run listener xs s).1) as Hrun.
  { induction xs as [|x xs IH]; intros s Hi; [done|]. cbn [listener_run].
    destruct (listener_step listener x s) as [s1 o] eqn:Hs. eapply listener_step_inv in Hi; [|done..].
    apply IH in Hi. by destruct (listener_run listener xs s1). }
  destruct (Hrun listening_new) as [H1 H2]; [split; cbn; lia|]. set (s := (listener_run _ _ _).1) in *.
  split_and!; [done|done|]. unfold active_connections. cbn. unfold try_acquire.
  destruct (N.ltb_spec (permits s) (max_accepted listener)), (N.eqb_spec (permits s) (max_accepted listener)); done || lia.
Qed.
End listener.

Definition sample_tcp_listener : TcpListener :=
  mkTcpListener (id_of EndpointKind 2)
    (mkTcpConfig (mkTransportBudget 2 2 8 8 8 64 None None None None) (10 * 1000000000) None true).
Definition sample_incoming (accepted : result IoErrorKind SocketAddr) : TcpIncoming :=
  mkTcpIncoming true accepted (mkSocketCalls (Ok ()) (Ok ())).
Definition sample_address : SocketAddr := SocketAddrV4 (vreplicate 4 Byte.x7f) 9000.
(** Two accepts wait; a third is refused; one succeeds, one fails. *)
Definition sample_accepts : list (listener_event TcpIncoming) :=
  [AcceptCalled; AcceptCalled; AcceptCalled;
   AcceptResumes (id_of EndpointKind 1) (sample_incoming (Ok sample_address));
   AcceptResumes (id_of EndpointKind 1) (sample_incoming (Err IoConnectionReset))].
Lemma listener_bounded_witness :
  let s := (listener_run sample_tcp_listener sample_accepts listening_new).1 in
  (active_connections s, accepting s, len (accepted_connections s)) = (1, 0, 1)
  /\ active_connections s <= max_accepted sample_tcp_listener
  /\ (listener_step sample_tcp_listener AcceptCalled s).2 = Waits.
Proof.
  assert (max_accepted (Conn := TcpConnection SpawnedConnection) sample_tcp_listener <= usize_max) as Hm
    by (vm_compute; discriminate).
  pose proof (listener_bounded (Conn := TcpConnection SpawnedConnection) sample_tcp_listener sample_accepts Hm)
    as (_ & H2 & H3).
  cbv zeta in *. split; [vm_compute; exact eq_refl|]. split; [exact H2|]. rewrite H3. vm_compute. exact eq_refl.
Defined.

(** ** Setting up a QUIC connection *)

Section accept.
Context {Tx Rx W : Type} `{QuinnConnection W} `{QuinnStreams Tx Rx W}.
Abbreviation setup := (estep TransportError W).

Definition preface_of (k : StreamKind) : list byte :=
  match k with ControlKind => CONTROL_STREAM_PREFACE | DataKind => DATA_STREAM_PREFACE end.
Lemma preface_kind_of p k : preface_kind p = Ok k -> p = preface_of k.
Proof. unfold preface_kind. repeat case_bool_decide; [by intros [= <-]..|done]. Qed.
Lemma preface_kind_preface k : preface_kind (preface_of k) = Ok k.
Proof. by destruct k. Qed.

(** The peer opened the stream [s] next, and announced it as of kind [k]. *)
Definition presented (w : W) (s : Tx * Rx) (k : StreamKind) (w2 : W) : Prop :=
  exists w1, accept_bi w = Some (w1, Ok s)
    /\ read_exact s.2 (len CONTROL_STREAM_PREFACE) w1 = Some (w2, Ok (preface_of k)).
(** The peer opens no more stream, or does not announce the one it opened. *)
Definition unpresented (w : W) : Prop :=
  accept_bi w = None
  \/ exists w1 s, accept_bi w = Some (w1, Ok s) /\ read_exact s.2 (len CONTROL_STREAM_PREFACE) w1 = None.

Lemma presented_fun w s k w1 s' k' w1' : presented w s k w1 -> presented w s' k' w1' -> s = s' /\ k = k' /\ w1 = w1'.
Proof.
  intros (v & Ha & Hr) (v' & Ha' & Hr'). simplify_eq. split; [done|]. split; [|done].
  by destruct k, k'.
Qed.

(** A step that ends as [Q] says, or waits for ever, and then [P]. *)
Definition ends_or {A} (m : setup A) (w : W) (P : Prop) (Q : W -> result TransportError A -> Prop) : Prop :=
  match m w with Some (w', r) => Q w' r | None => P end.
Lemma ends_bind {A B} (m : setup A) (f : A -> setup B) w P Q :
  ends_or m w P (fun w' r => match r with Ok a => ends_or (f a) w' P Q | Err e => Q w' (Err e) end) ->
  ends_or (m ≫= f) w P Q.
Proof. unfold ends_or, mbind, step_bind. destruct (m w) as [[w' [a|e]]|]; done. Qed.
Lemma ends_try {A} (r : result TransportError A) w P Q : Q w r -> ends_or (try_with r) w P Q.
Proof. done. Qed.
Lemma ends_awaits {A} (f : W -> option (W * A)) w (P : Prop) Q :
  (f w = None -> P) -> (forall w' a, f w = Some (w', a) -> Q w' (Ok a)) -> ends_or (awaits f) w P Q.
Proof. unfold ends_or, awaits. destruct (f w) as [[w' a]|]; cbn; eauto. Qed.
Lemma ends_mono {A} (m : setup A) w (P P' : Prop) (Q Q' : W -> result TransportError A -> Prop) :
  ends_or m w P Q -> (P -> P') -> (forall w' r, Q w' r -> Q' w' r) -> ends_or m w P' Q'.
Proof. unfold ends_or. destruct (m w) as [[w' r]|]; auto. Qed.
Lemma ends_wp {A} (m : setup A) w P Q : step_wp m w Q -> ends_or m w P Q.
Proof. unfold ends_or, step_wp. by destruct (m w) as [[w' r]|]. Qed.

(** The control and the data stream, from the streams presented so far. *)
Definition assigned (k : StreamKind) (s : Tx * Rx) (p : option (Tx * Rx) * option (Tx * Rx))
    : option (Tx * Rx) * option (Tx * Rx) :=
  match k with ControlKind => (Some s, p.2) | DataKind => (p.1, Some s) end.
Lemma accept_loop_spec n control data w (P : Prop) (Q : W -> result TransportError _ -> Prop) :
  (unpresented w -> P) ->
  (forall s k w2, presented w s k w2 ->
     let p := assigned k s (control, data) in ends_or (accept_loop n p.1 p.2) w2 P Q) ->
  (forall w2 e, (forall s k w1, ~ presented w s k w1) -> Q w2 (Err e)) ->
  ends_or (accept_loop (S n) control data) w P Q.
Proof.
  intros Hwait Hok Herr. cbn [accept_loop]. apply ends_bind, ends_awaits.
  { intros Hn. apply Hwait. by left. }
  intros w1 [s|e] Ha; apply ends_bind, ends_try; cbn [map_err]; [|apply Herr; intros ? ? ? (? & ? & _); congruence].
  apply ends_bind. unfold receive_preface. apply ends_bind, ends_awaits.
  { intros Hn. apply Hwait. right. by exists w1, s. }
  intros w2 r Hr.
  assert (forall s' k w1', presented w s' k w1' -> r = Ok (preface_of k)) as Hpre.
  { intros s' k w1' (v & Ha' & Hr'). congruence. }
  destruct r as [preface|e]; apply ends_bind, ends_try; cbn [map_err]; [|by apply Herr; intros ? ? ? ?%Hpre].
  apply ends_try. destruct (preface_kind preface) as [k|e] eqn:Hk.
  2:{ apply Herr. intros ? k ? [= ->]%Hpre. by rewrite preface_kind_preface in Hk. }
  apply preface_kind_of in Hk as ->. specialize (Hok s k w2 ltac:(by exists w1)). by destruct k.
Qed.

(** The streams of a connection, from the two that were presented. *)
Definition streams_of (k1 : StreamKind) (s1 s2 : Tx * Rx) : QuicStreams Tx Rx :=
  match k1 with
  | ControlKind => mkStreams s1.1 s1.2 s2.1 s2.2
  | DataKind => mkStreams s2.1 s2.2 s1.1 s1.2
  end.
(** What was accepted: one control stream and one data stream, in either order. *)
Lemma accept_streams_spec w :
  ends_or accept_streams w (unpresented w \/ exists s k w1, presented w s k w1 /\ unpresented w1)
    (fun w' r =>
       (forall st, r = Ok st -> exists w1 s1 s2 k1 k2, presented w s1 k1 w1 /\ presented w1 s2 k2 w' /\ k1 <> k2
          /\ st = streams_of k1 s1 s2)
       /\ (forall s1 s2 k w1 w2, presented w s1 k w1 -> presented w1 s2 k w2 -> r = Err invalid_stream_set)).
Proof.
  unfold accept_streams. apply ends_bind, accept_loop_spec.
  - by left.
  - intros s1 k1 w1 H1. cbv zeta. apply accept_loop_spec.
    + intros Hu. right. by exists s1, k1, w1.
    + intros s2 k2 w2 H2. cbv zeta. cbn [accept_loop]. apply ends_wp, wp_ret.
      assert (forall t1 t2 k v1 v2, presented w t1 k v1 -> presented v1 t2 k v2 -> k1 = k2) as Hsame.
      { intros t1 t2 k v1 v2 P1 P2. destruct (presented_fun _ _ _ _ _ _ _ P1 H1) as (-> & -> & ->).
        by destruct (presented_fun _ _ _ _ _ _ _ P2 H2) as (_ & -> & _). }
      apply ends_bind, ends_try. destruct k1, k2; cbn [assigned fst snd ok_or]; try (apply ends_bind, ends_try);
        cbn [ok_or]; (split; [|first [done|intros t1 t2 k v1 v2 P1 P2; by specialize (Hsame _ _ _ _ _ P1 P2)]]); try done;
        intros st [= <-].
      * by exists w1, s1, s2, ControlKind, DataKind.
      * by exists w1, s1, s2, DataKind, ControlKind.
    + intros w2 e Hno. split; [done|]. intros t1 t2 k v1 v2 P1 P2.
      destruct (presented_fun _ _ _ _ _ _ _ P1 H1) as (_ & _ & ->). by apply Hno in P2.
  - intros w2 e Hno. split; [done|]. intros t1 t2 k v1 v2 P1 _. by apply Hno in P1.
Qed.

(** The bridges run over the streams they are named after. *)
Definition bridged (st : QuicStreams Tx Rx) (b : QuicBridges Tx Rx) : Prop :=
  control_bridge b = (control_receive st, control_send st) /\ data_bridge b = (data_receive st, data_send st).
Lemma make_connection_spec runtime (st : QuicStreams Tx Rx) local remote o w :
  step_wp (quic_make_connection runtime st local remote o) w (fun _ r => match r with
    | Ok (c, b) => bridged st b /\ qc_metadata c = mkMetadata local remote None true (datagrams_enabled c)
        /\ (datagrams_enabled c = true -> enable_datagrams o = true)
        /\ spawn_framed_halves true (qo_budget o) = Ok (qc_control c) /\ qc_data c = qc_control c
        /\ groups (realtime_send c) = ∅ /\ dr_queue (datagram_receive c) = []
    | Err _ => True
    end).
Proof.
  unfold quic_make_connection. apply wp_bind.
  apply (step_wp_mono _ _ (fun _ r => exists b, r = Ok b /\ (b = true -> enable_datagrams o = true))).
  { destruct (enable_datagrams o); [|by apply wp_ret; exists false]. apply wp_bind, wp_asks. cbv beta iota.
    apply wp_ret. by eexists. }
  intros w1 r (enabled & -> & Hen). cbv beta iota zeta. unfold spawn_over. apply wp_bind, wp_try.
  destruct (spawn_framed_halves runtime (qo_budget o)) as [f|e] eqn:Hf; [|done]. cbn [mbind result_bind].
  apply wp_bind, wp_try. apply wp_bind, wp_asks. cbv beta iota. apply wp_bind, wp_try.
  destruct (realtime_queue_new _ _) as [q|e] eqn:Hq; [|done]. apply wp_bind, wp_asks. apply wp_ret. cbn.
  assert (runtime = true) as ->.
  { unfold spawn_framed_halves in Hf. inv_ok. guards. by destruct runtime. }
  unfold realtime_queue_new in Hq. destruct (_ || _); [done|]. cbn in Hq. by injection Hq as <-.
Qed.

(** The peer opened two streams, one that it announced for control and one for
    data, in either order. *)
Definition accepted_streams (w : W) (st : QuicStreams Tx Rx) : Prop :=
  exists w1 w2 s1 s2 k1 k2, presented w s1 k1 w1 /\ presented w1 s2 k2 w2 /\ k1 <> k2 /\ st = streams_of k1 s1 s2.
(** A connection as [accept] should return it. *)
Definition accepted_whole (local remote : EndpointId) (o : QuicOptions) (i : QuicIncoming (W := W))
    (c : QuicConnection) (b : QuicBridges Tx Rx) : Prop :=
  qi_incoming i = Some (Some (Some (Ok ())))
  /\ (exists st, accepted_streams (qi_connection i) st /\ bridged st b)
  /\ qc_metadata c = mkMetadata local remote None true (datagrams_enabled c)
  /\ (datagrams_enabled c = true -> enable_datagrams o = true)
  /\ spawn_framed_halves true (qo_budget o) = Ok (qc_control c) /\ qc_data c = qc_control c
  /\ groups (realtime_send c) = ∅ /\ dr_queue (datagram_receive c) = [].
(** What [accept] waits for: a connection, the end of its handshake, and the
    first or the second stream and its announcement. *)
Definition accept_waits (i : QuicIncoming (W := W)) : Prop :=
  qi_incoming i = None \/ qi_incoming i = Some (Some None)
  \/ unpresented (qi_connection i) \/ exists s k w1, presented (qi_connection i) s k w1 /\ unpresented w1.
Lemma quic_accept_spec l remote (i : QuicIncoming (W := W)) :
  match quic_accept l remote i with
  | Some (_, Ok (c, b)) => accepted_whole (ql_local_endpoint l) remote (ql_options l) i c b
  | Some (_, Err e) => forall s1 s2 k w1 w2, qi_incoming i = Some (Some (Some (Ok ()))) ->
      presented (qi_connection i) s1 k w1 -> presented w1 s2 k w2 -> e = invalid_stream_set
  | None => accept_waits i
  end.
Proof.
  set (Q := fun (_ : W) (r : result TransportError (QuicConnection * QuicBridges Tx Rx)) => match r with
    | Ok (c, b) => accepted_whole (ql_local_endpoint l) remote (ql_options l) i c b
    | Err e => forall s1 s2 k w1 w2, qi_incoming i = Some (Some (Some (Ok ()))) ->
        presented (qi_connection i) s1 k w1 -> presented w1 s2 k w2 -> e = invalid_stream_set
    end).
  enough (match quic_accept l remote i with Some (w, r) => Q w r | None => accept_waits i end) as Hq.
  { destruct (quic_accept l remote i) as [[w [[c b]|e]]|]; exact Hq. }
  unfold quic_accept. match goal with |- match ?m ?w with _ => _ end => change (ends_or m w (accept_waits i) Q) end.
  apply ends_bind, ends_awaits; [intros Hn; left; by destruct (qi_incoming i)|].
  intros w0 incoming Hin. destruct (qi_incoming i) as [x|] eqn:Hi; [|done]. cbn in Hin. injection Hin as <- <-.
  apply ends_bind, ends_try. destruct x as [h|]; cbn [ok_or]; [|done].
  apply ends_bind, ends_awaits; [intros Hn; right; left; by destruct h|].
  intros w0 handshake Hh. destruct h as [h|]; [|done]. cbn in Hh. injection Hh as <- <-.
  apply ends_bind, ends_try. destruct h as [[]|e]; cbn [map_err]; [|done].
  apply ends_bind. eapply ends_mono; [apply accept_streams_spec|by right; right|].
  intros w2 [st|e]; intros [Hok Herr].
  2:{ intros s1 s2 k w1 w2' _ H1 H2. specialize (Herr _ _ _ _ _ H1 H2). by injection Herr. }
  apply ends_wp. eapply step_wp_mono; [apply make_connection_spec|]. intros w3 [[c b]|e].
  - intros (Hb & Hc). split; [done|]. split; [|exact Hc]. exists st. split; [|done].
    destruct (Hok st eq_refl) as (w1 & s1 & s2 & k1 & k2 & Hp). by exists w1, w2, s1, s2, k1, k2.
  - intros _ s1 s2 k w1 w2' _ H1 H2. by specialize (Herr _ _ _ _ _ H1 H2).
Qed.

(** C32: A bound QUIC listener was not asked for 0-RTT and allows two streams
    at once.  A connection that [accept] returns comes from a handshake that
    has ended, after which the peer opened two streams, one that it announced
    for control and one for data, in either order; the control bridge runs
    over the halves of the one and the data bridge over those of the other.
    It names the two endpoints, starts with fresh framed bridges and an empty
    real-time queue, and has datagrams only if they were enabled.  Two streams
    announced alike are refused as an incomplete set.  [accept] waits for ever
    only while no connection comes, the handshake does not end, or the peer
    does not open and announce its two streams: for these it has no timeout. *)
Theorem quic_accept_sound fits local o bound l remote (i : QuicIncoming (W := W)) :
  quic_bind fits local o bound = Ok l ->
  enable_zero_rtt o = false /\ 2 <= max_concurrent_streams (qo_budget o)
  /\ match quic_accept l remote i with
     | Some (_, Ok (c, b)) => accepted_whole local remote o i c b
     | Some (_, Err e) => forall s1 s2 k w1 w2, qi_incoming i = Some (Some (Some (Ok ()))) ->
         presented (qi_connection i) s1 k w1 -> presented w1 s2 k w2 -> e = invalid_stream_set
     | None => accept_waits i
     end.
Proof.
  intros Hb. unfold quic_bind in Hb. inv_ok.
  match goal with H : quic_options_validate o = _ |- _ => unfold quic_options_validate in H end. inv_ok. guards.
  match goal with H : transport_config fits _ = _ |- _ => unfold transport_config in H end. inv_ok. guards.
  split; [done|]. split; [lia|]. apply (quic_accept_spec (mkQuicListener local _)).
Qed.

(** The peer's side: [connect] opens the control stream first and announces
    it, then the data stream, and its bridges run over them alike. *)
Lemma open_streams_spec w :
  match open_streams w with
  | Some (w', Ok st) => exists w1 w2 w3 control data,
      open_bi w = Some (w1, Ok control) /\ write_all control.1 CONTROL_STREAM_PREFACE w1 = Some (w2, Ok ())
      /\ open_bi w2 = Some (w3, Ok data) /\ write_all data.1 DATA_STREAM_PREFACE w3 = Some (w', Ok ())
      /\ st = streams_of ControlKind control data
  | _ => True
  end.
Proof.
  unfold open_streams, awaits, mbind, step_bind, option_bind, try_with.
  destruct (open_bi w) as [[w1 [control|]]|] eqn:H1; cbn; try done.
  destruct (write_all _ _ w1) as [[w2 [[]|]]|] eqn:H2; cbn; try done.
  destruct (open_bi w2) as [[w3 [data|]]|] eqn:H3; cbn; try done.
  destruct (write_all _ _ w3) as [[w4 [[]|]]|] eqn:H4; cbn; try done.
  by exists w1, w2, w3, control, data.
Qed.
End accept.

(** The streams that the peer opens are a list of the bytes it wrote on them. *)
#[local] Instance dialled : QuinnConnection (list (list byte)) := {|
  max_datagram_size w := (w, Some 1200);
  quinn_remote_address w := (w, sample_address);
  quinn_stats w := (w, mkPathStats 20000000 12000 0);
  datagram_send_buffer_space w := (w, 0);
  send_datagram _ w := (w, Ok ());
  quinn_close _ _ w := w;
|}.
#[local] Instance dialled_streams : QuinnStreams N N (list (list byte)) := {|
  open_bi w := Some (w, Ok (0, 0));
  accept_bi w := match w with [] => None | _ => Some (w, Ok (len w, len w)) end;
  write_all _ _ w := Some (w, Ok ());
  read_exact _ n w :=
    match w with p :: w => Some (w, if len p =? n then Ok p else Err ()) | [] => None end;
|}.
Definition sample_dial (streams : list (list byte)) : QuicIncoming (W := list (list byte)) :=
  mkQuicIncoming true (Some (Some (Some (Ok ())))) streams.
Definition sample_quic_listener : QuicListener := mkQuicListener (id_of EndpointKind 2) default_quic_options.

(** The streams may come in either order: the second is the control stream
    here.  Twice the same kind is refused, and a peer that opens one stream
    only keeps the accept waiting. *)
Lemma quic_accept_sound_witness :
  (exists w c b, quic_accept sample_quic_listener (id_of EndpointKind 1)
                 (sample_dial [DATA_STREAM_PREFACE; CONTROL_STREAM_PREFACE]) = Some (w, Ok (c, b))
     /\ b = mkBridges (1, 1) (2, 2)
     /\ accepted_whole (id_of EndpointKind 2) (id_of EndpointKind 1) default_quic_options
          (sample_dial [DATA_STREAM_PREFACE; CONTROL_STREAM_PREFACE]) c b)
  /\ (exists w, quic_accept sample_quic_listener (id_of EndpointKind 1)
                 (sample_dial [DATA_STREAM_PREFACE; DATA_STREAM_PREFACE]) = Some (w, Err invalid_stream_set))
  /\ quic_accept sample_quic_listener (id_of EndpointKind 1) (sample_dial [CONTROL_STREAM_PREFACE]) = None.
Proof.
  split; [|split; [eexists; vm_compute; exact eq_refl|vm_compute; exact eq_refl]].
  destruct (quic_accept_sound (fun _ => true) (id_of EndpointKind 2) default_quic_options (Ok ()) sample_quic_listener
    (id_of EndpointKind 1) (sample_dial [DATA_STREAM_PREFACE; CONTROL_STREAM_PREFACE]) ltac:(vm_compute; exact eq_refl))
    as (_ & _ & Hr).
  assert ((fun x => match x with (_, Ok (_, b)) => Some b | _ => None end)
    <$> quic_accept sample_quic_listener (id_of EndpointKind 1) (sample_dial [DATA_STREAM_PREFACE; CONTROL_STREAM_PREFACE])
    = Some (Some (mkBridges (1, 1) (2, 2)))) as He by (vm_compute; exact eq_refl).
  destruct (quic_accept _ _ _) as [[w [[c b]|e]]|]; [|discriminate He..].
  exists w, c, b. split; [exact eq_refl|]. split; [|exact Hr]. injection He as He. exact He.
Defined.
