(* ===== verification/QuicTransfer.v ===== *)
(** * Real-time datagrams from one QUIC connection to another

    Two connections over worlds of their own; what the reader of the second
    takes from quinn is what the first handed to it, in any order, any number
    of times or never.  What the second's application receives, the first's
    sent. *)

From S2P Require Export QuicPoll ListenerFacts.
Local Open Scope N_scope.

(** [sends] has a call that sends such a datagram. *)
Definition sent_as (sends : list quic_call) (flow generation sequence : N) (payload : list byte) : Prop :=
  exists d now, QcTrySendLatest d now ∈ sends /\ rd_flow d = flow /\ rd_generation d = generation
    /\ rd_sequence d = sequence /\ rd_payload d = payload.
Definition sent_datagram (sends : list quic_call) (d : QueuedRealtimeDatagram) : Prop :=
  sent_as sends (rd_flow d) (rd_generation d) (rd_sequence d) (rd_payload d).
(** The bytes are those of a datagram that was sent, or were sent as they are. *)
Definition bytes_sent (sends : list quic_call) (bytes : list byte) : Prop :=
  (exists d, encode_realtime_datagram d = Ok bytes /\ sent_datagram sends d)
  \/ QcTrySendDatagram bytes ∈ sends.

(** ** The sender *)

Section sender.
Context {W : Type} `{QuinnConnection W} (sends : list quic_call).
Implicit Types (s : QuicConnection * (W * quinn_seen)).

Definition queue_from (q : RealtimeSendQueue) : Prop :=
  forall f g p, groups q !! f = Some g -> p ∈ pg_datagrams g ->
    sent_as sends f (pg_generation g) (pg_sequence g) p.
(** What waits and what was handed over comes from the calls. *)
Record sender_ok s : Prop := {
  so_ok : quic_ok s.1;
  so_queue : queue_from (realtime_send s.1);
  so_handed : Forall (fun h => bytes_sent sends (ho_bytes h)) (handed s.2.2);
}.

Lemma queue_from_subset q q' : groups q' ⊆ groups q -> queue_from q -> queue_from q'.
Proof. intros Hs Hq f g p Hg. apply Hq. by eapply lookup_weaken. Qed.
Lemma queue_from_derives q q' : derives q q' -> queue_from q -> queue_from q'.
Proof.
  intros (_ & _ & Hd) Hq f g p Hg Hp. apply Hd in Hg as (g0 & Hg0 & E1 & E2 & _ & _ & [k Hk]).
  rewrite E1, E2. apply (Hq f g0 p Hg0). rewrite Hk. apply elem_of_app. by right.
Qed.
Lemma queue_from_enqueue d now q : QcTrySendLatest d now ∈ sends ->
  queue_from q -> queue_from (Realtime.enqueue d now q).1.
Proof.
  intros Hin Hq. destruct (Realtime.enqueue d now q) as [q' r] eqn:E. cbn.
  apply enqueue_cases in E as [(_ & _ & _ & Hs)|(_ & _ & _ & q1 & (_ & _ & Hs) & _ & _ & g' & Hg & [Eg Es] & Hcase)];
    [by eapply queue_from_subset|].
  assert (sent_as sends (rd_flow d) (pg_generation g') (pg_sequence g') (rd_payload d)) as Hnew
    by (exists d, now; split_and!; congruence).
  intros f g p. rewrite Hg. intros [[<- <-]|[_ Hl]]%lookup_insert_Some Hp; [|by apply (Hq f g p); [eapply lookup_weaken|]].
  destruct Hcase as [(_ & (Hd & _) & _)|(g0 & Hl & [Eg0 Es0] & (Hd & _))]; rewrite Hd in Hp.
  - by apply list_elem_of_singleton in Hp as ->.
  - apply elem_of_app in Hp as [Hp| ->%list_elem_of_singleton]; [|done]. rewrite Eg, Es, <- Eg0, <- Es0.
    by apply (Hq (rd_flow d) g0 p); [eapply lookup_weaken|].
Qed.
Lemma pending_sent now q d : queue_from q -> pending_in now q d -> sent_datagram sends d.
Proof. intros Hq (g & Hg & [E1 E2] & _ & _ & Hp & _). unfold sent_datagram. rewrite <- E1, <- E2. by apply (Hq _ g). Qed.

Lemma sender_ok_same s s' : realtime_send s'.1 = realtime_send s.1 -> max_datagram_bytes s'.1 = max_datagram_bytes s.1 ->
  handed s'.2.2 = handed s.2.2 -> sender_ok s -> sender_ok s'.
Proof. intros E1 E2 E3 []. split; [by eapply quic_ok_same|by rewrite E1|by rewrite E3]. Qed.
Lemma sender_ok_refreshed s s' : refreshed s s' -> sender_ok s -> sender_ok s'.
Proof. intros [] []. split; [done|by eapply queue_from_subset|congruence]. Qed.
Lemma sender_ok_polled now sent s s' r : sender_ok s -> poll_ends now sent s s' r -> sender_ok s'.
Proof.
  intros [[Hi Hb Hp] Hq Hh] (ds & hs & E & [Hd Hi' Hl _ _] & Hs & _ & Has & _). split.
  - split; [done|by rewrite E|]. destruct Hd as (_ & -> & _). done.
  - by eapply queue_from_derives.
  - rewrite Hs. apply Forall_app. split; [done|]. clear Hs. induction Has as [|d h ds hs [He _] _ IH]; [done|].
    apply Forall_cons in Hl as [Hd0 Hl]. constructor; [|by apply IH]. left. exists d. split; [done|]. by eapply pending_sent.
Qed.

Lemma keeps_query {A} (f : W * quinn_seen -> W * quinn_seen * A) :
  (forall w, handed (f w).1.2 = handed w.2) -> step_keeps sender_ok (quinn_call f).
Proof.
  intros Hf s s' r Hs. unfold quinn_call. specialize (Hf s.2). destruct (f s.2) as [w a]. intros [= <- _].
  by apply (sender_ok_same s).
Qed.
Lemma keeps_same f : (forall c, realtime_send (f c) = realtime_send c /\ max_datagram_bytes (f c) = max_datagram_bytes c) ->
  step_keeps sender_ok (q_set f).
Proof. intros Hf s s' r Hs [= <- _]. destruct (Hf s.1). by apply (sender_ok_same s). Qed.
Lemma keeps_get_any {A} (f : QuicConnection -> A) : step_keeps sender_ok (q_get f).
Proof. by intros s s' r Hs [= <- _]. Qed.
Lemma keeps_lane {A} (f : FramedConnection -> FramedConnection * A) :
  step_keeps sender_ok (on_control f) /\ step_keeps sender_ok (on_data f).
Proof.
  split; intros s s' r Hs; [unfold on_control; destruct (f (qc_control s.1))|unfold on_data; destruct (f (qc_data s.1))];
    intros [= <- _]; by apply (sender_ok_same s).
Qed.
Lemma keeps_pop xs : step_keeps sender_ok (pop_raw_datagram xs).
Proof.
  intros s s' r Hs. unfold pop_raw_datagram. destruct (receive_pop _) as [q [m|]]; intros [= <- _].
  - by apply (sender_ok_same s).
  - set (c := s.1 <|datagram_receive := q|>). destruct (reader_runs_same xs c) as [E1 E2]. by apply (sender_ok_same s).
Qed.
Lemma keeps_cleared op f : (forall q, groups (rt_step q op).1 = ∅) -> (forall n, op <> OpSetMaxPayload n) ->
  (forall c, realtime_send (f c) = (rt_step (realtime_send c) op).1 /\ max_datagram_bytes (f c) = max_datagram_bytes c) ->
  step_keeps sender_ok (q_set f).
Proof.
  intros Hg Hop Hf s s' r [Ho Hq Hh] [= <- _]. destruct (Hf s.1) as [E1 E2]. split; cbn; [|by rewrite E1; intros ?? ?; rewrite Hg|done].
  apply (quic_ok_same (s.1 <|realtime_send := (rt_step (realtime_send s.1) op).1|>)); [done..|].
  apply quic_ok_op; [done|]. intros n ->. by destruct (Hop n).
Qed.

Lemma keeps_refreshing : step_keeps sender_ok refresh_realtime_state.
Proof.
  intros s s' r Hs Hr. destruct (datagrams_enabled s.1) eqn:He.
  - destruct (step_wp_result _ _ _ _ _ (refresh_spec s (so_ok _ Hs) He) Hr) as [Hw _]. by eapply sender_ok_refreshed.
  - unfold refresh_realtime_state in Hr. unfold mbind, step_bind, q_get, get_state in Hr. cbn in Hr.
    rewrite He in Hr. cbn in Hr. by injection Hr as <- _.
Qed.
Lemma keeps_polling now : step_keeps sender_ok (quic_poll_realtime now).
Proof.
  unfold quic_poll_realtime. apply keeps_bind; [apply keeps_get_any|intros enabled].
  apply keeps_bind; [apply keeps_refuse|intros _]. apply keeps_bind; [apply keeps_refreshing|intros _].
  intros s s' r Hs Hr. apply (sender_ok_polled now 0 s s' r Hs).
  refine (step_wp_result _ _ _ _ _ _ Hr).
  apply poll_loop_spec; [apply Hs|apply Hs|apply N.le_0_l|apply poll_fuel_enough].
Qed.
Lemma keeps_sending d now : QcTrySendLatest d now ∈ sends ->
  step_keeps sender_ok (on_queue (Realtime.enqueue d now)).
Proof.
  intros Hin s s' r [Ho Hq Hh]. unfold on_queue.
  pose proof (quic_ok_op (OpEnqueue d now) s.1 Ho) as Hop. pose proof (queue_from_enqueue d now _ Hin Hq) as Hq'.
  cbn in Hop. destruct (Realtime.enqueue d now (realtime_send s.1)). intros [= <- _]. split; [by apply Hop|done|done].
Qed.
Lemma keeps_raw message : QcTrySendDatagram message ∈ sends -> step_keeps sender_ok (quinn_call (send_datagram message)).
Proof.
  intros Hin s s' r [Ho Hq Hh]. unfold quinn_call. destruct s as [c [w t]]. cbn in *. destruct (send_datagram message w) as [w' a].
  intros [= <- _]. split; [done|done|]. cbn. apply Forall_app. split; [done|]. constructor; [by right|done].
Qed.

Ltac sender_keeps :=
  repeat first
  [ lazymatch goal with
    | |- step_keeps _ (quinn_call (send_datagram _)) => by apply keeps_raw
    | |- step_keeps _ (quinn_call _) => apply keeps_query; intros [w t]; cbn; by destruct (max_datagram_size w)
    | |- step_keeps _ (q_get _) => apply keeps_get_any
    | |- step_keeps _ (on_control _) => apply keeps_lane
    | |- step_keeps _ (on_data _) => apply keeps_lane
    | |- step_keeps _ (pop_raw_datagram _) => apply keeps_pop
    | |- step_keeps _ refresh_realtime_state => apply keeps_refreshing
    | |- step_keeps _ (quic_poll_realtime _) => apply keeps_polling
    | |- step_keeps _ (on_queue (Realtime.enqueue _ _)) => by apply keeps_sending
    | |- step_keeps _ (push_event _) => unfold push_event
    | |- step_keeps _ (forget _) => unfold forget
    end
  | progress keeps ].

Lemma sender_call x : x ∈ sends -> step_keeps sender_ok (quic_do x).
Proof.
  intros Hin.
  destruct x; cbn [quic_do]; unfold quic_try_send, quic_try_send_control, quic_try_receive, quic_try_receive_control,
    quic_try_send_datagram, quic_try_receive_datagram, quic_max_datagram_payload, quic_try_send_latest,
    quic_try_receive_realtime, quic_take_realtime_events, quic_reset_realtime_session, quic_close_write,
    quic_close_read, quic_abort, current_realtime_payload_limit, current_raw_datagram_limit.
  all: sender_keeps; try by apply keeps_same.
  - by apply (keeps_cleared OpReset).
  - by apply (keeps_cleared OpClear).
  - by apply (keeps_cleared OpClear).
  - eapply sender_ok_same; [..|eassumption]; done.
  - apply keeps_same, reader_acts_same.
Qed.
Lemma sender_run calls s s' : (forall x, x ∈ calls -> x ∈ sends) ->
  sender_ok s -> quic_run calls s = Some s' -> sender_ok s'.
Proof.
  revert s. induction calls as [|x calls IH]; intros s Hin Hs Hr; cbn [quic_run] in Hr; [by simplify_eq|].
  destruct (quic_do x s) as [[s1 r]|] eqn:Hx; [|done]. cbn in Hr.
  apply (IH s1); [intros y Hy; apply Hin; by right| |exact Hr].
  eapply sender_call; [apply Hin; by left|exact Hs|exact Hx].
Qed.
End sender.

(** ** The receiver *)

(** What its reader takes from quinn during a call. *)
Definition read_datagram (x : reader_event) : option (list byte) :=
  match x with DatagramArrives payload _ => Some payload | DatagramReaderEnds => None end.
Definition call_arrivals (x : quic_call) : list (list byte) :=
  match x with
  | QcReader x => omap read_datagram [x]
  | QcTryReceiveDatagram xs | QcTryReceiveRealtime xs => omap read_datagram xs
  | _ => []
  end.
Definition arrivals_of (xs : list quic_call) : list (list byte) := xs ≫= call_arrivals.

Section receiver.
Context {W : Type} `{QuinnConnection W} (came : list (list byte)).

Definition waiting_ok (c : QuicConnection) : Prop :=
  forall x, x ∈ dr_queue (datagram_receive c) -> raw_payload x ∈ came.
Abbreviation fed := (fun s : QuicConnection * W => waiting_ok s.1).

Lemma on_receive_flow_queue flow f r : dr_queue (on_receive_flow flow f r) = dr_queue r.
Proof. by destruct flow. Qed.
Lemma push_waiting payload now r x :
  x ∈ dr_queue (receive_push payload now r) -> x ∈ dr_queue r \/ x = mkRaw now payload.
Proof.
  unfold receive_push. cbv zeta. set (r1 := on_receive_flow _ _ r).
  assert (dr_queue r1 = dr_queue r) as E by apply on_receive_flow_queue. clearbody r1. cbn.
  intros [Hx| ->%list_elem_of_singleton]%elem_of_app; [left|by right]. revert Hx. destruct (_ <=? _); [|by rewrite E].
  destruct (dr_queue r1) as [|y l] eqn:E1; [by rewrite <- E, E1|]. rewrite on_receive_flow_queue. cbn.
  rewrite <- E. by right.
Qed.
Lemma reader_waiting x c : (forall p, read_datagram x = Some p -> p ∈ came) -> waiting_ok c -> waiting_ok (reader_acts x c).
Proof.
  intros Hp Hc. destruct x as [payload now|]; cbn; [|done]. destruct (datagram_reader_finished c); [done|].
  intros y [Hy| ->]%push_waiting; [by apply Hc|by apply Hp].
Qed.
Lemma readers_waiting xs c : (forall p, p ∈ omap read_datagram xs -> p ∈ came) -> waiting_ok c -> waiting_ok (reader_runs xs c).
Proof.
  revert c. induction xs as [|x xs IH]; intros c Hp Hc; [done|]. unfold reader_runs. cbn [fold_left].
  apply IH; [|apply reader_waiting; [|done]]; intros p; cbn in Hp.
  - intros Hin. apply Hp. destruct (read_datagram x); [by right|done].
  - intros E. apply Hp. rewrite E. by left.
Qed.

Lemma fed_query {A} (f : W -> W * A) : step_keeps fed (quinn_call f).
Proof. intros s s' r Hs. unfold quinn_call. destruct (f s.2). by intros [= <- _]. Qed.
Lemma fed_get {A} (f : QuicConnection -> A) : step_keeps fed (q_get f).
Proof. by intros s s' r Hs [= <- _]. Qed.
Lemma fed_set f : (forall c, datagram_receive (f c) = datagram_receive c) -> step_keeps fed (q_set f).
Proof. intros Hf s s' r Hs [= <- _] x. cbn. rewrite Hf. apply Hs. Qed.
Lemma fed_clear f : (forall c, dr_queue (datagram_receive (f c)) = []) -> step_keeps fed (q_set f).
Proof. intros Hf s s' r Hs [= <- _] x. cbn. rewrite Hf. by intros ?%not_elem_of_nil. Qed.
Lemma fed_control {A} (f : FramedConnection -> FramedConnection * A) : step_keeps fed (on_control f).
Proof. intros s s' r Hs. unfold on_control. destruct (f (qc_control s.1)). by intros [= <- _]. Qed.
Lemma fed_data {A} (f : FramedConnection -> FramedConnection * A) : step_keeps fed (on_data f).
Proof. intros s s' r Hs. unfold on_data. destruct (f (qc_data s.1)). by intros [= <- _]. Qed.
Lemma fed_queue {A} (f : RealtimeSendQueue -> RealtimeSendQueue * A) : step_keeps fed (on_queue f).
Proof. intros s s' r Hs. unfold on_queue. destruct (f (realtime_send s.1)). by intros [= <- _]. Qed.
(** What is popped had arrived. *)
Lemma pop_fed xs s s' r : (forall p, p ∈ omap read_datagram xs -> p ∈ came) -> fed s -> pop_raw_datagram xs s = Some (s', r) ->
  fed s' /\ forall x, r = Ok (Some x) -> raw_payload x ∈ came.
Proof.
  intros Hxs Hs. unfold pop_raw_datagram, receive_pop. destruct (dr_queue (datagram_receive s.1)) as [|x l] eqn:E.
  - intros [= <- <-]. split; [|done]. apply readers_waiting; [done|]. intros y. cbn. rewrite E. by intros ?%not_elem_of_nil.
  - intros [= <- <-]. split; [intros y Hy; apply Hs; rewrite E; by right|]. intros y [= <-]. apply Hs. rewrite E. by left.
Qed.
Lemma fed_pop xs : (forall p, p ∈ omap read_datagram xs -> p ∈ came) -> step_keeps fed (pop_raw_datagram xs).
Proof. intros Hxs s s' r Hs Hr. by destruct (pop_fed xs s s' r Hxs Hs Hr). Qed.

Ltac receiver_keeps :=
  repeat first
  [ lazymatch goal with
    | |- step_keeps _ (quinn_call _) => apply fed_query
    | |- step_keeps _ (q_get _) => apply fed_get
    | |- step_keeps _ (q_set _) => first [by apply fed_set | by apply fed_clear]
    | |- step_keeps _ (on_control _) => apply fed_control
    | |- step_keeps _ (on_data _) => apply fed_data
    | |- step_keeps _ (on_queue _) => apply fed_queue
    | |- step_keeps _ (pop_raw_datagram _) => by apply fed_pop
    | |- step_keeps _ (push_event _) => unfold push_event
    | |- step_keeps _ (forget _) => unfold forget
    end
  | progress keeps ].
Lemma fed_refresh : step_keeps fed refresh_realtime_state.
Proof.
  unfold refresh_realtime_state, current_realtime_payload_limit, current_raw_datagram_limit, note_path, note_stats.
  receiver_keeps.
Qed.
Lemma fed_poll now : step_keeps fed (quic_poll_realtime now).
Proof.
  unfold quic_poll_realtime. receiver_keeps; [apply fed_refresh|]. generalize 0 as sent, poll_fuel as fuel.
  intros sent fuel. revert sent. induction fuel as [|fuel IH]; intros sent; cbn [poll_loop]; receiver_keeps; apply IH.
Qed.
Lemma receiver_call x : (forall p, p ∈ call_arrivals x -> p ∈ came) -> step_keeps fed (quic_do x).
Proof.
  intros Hx.
  destruct x; cbn [quic_do call_arrivals] in *; unfold quic_try_send, quic_try_send_control, quic_try_receive,
    quic_try_receive_control, quic_try_send_datagram, quic_try_receive_datagram, quic_max_datagram_payload,
    quic_try_send_latest, quic_try_receive_realtime, quic_take_realtime_events, quic_reset_realtime_session,
    quic_close_write, quic_close_read, quic_abort, current_realtime_payload_limit, current_raw_datagram_limit.
  all: receiver_keeps; try apply fed_refresh; try apply fed_poll; try done.
  intros s s' r Hs [= <- _]. apply reader_waiting; [|exact Hs]. intros p E. apply Hx. cbn. rewrite E. by left.
Qed.
Lemma receiver_run calls s s' : (forall p, p ∈ arrivals_of calls -> p ∈ came) ->
  fed s -> quic_run calls s = Some s' -> fed s'.
Proof.
  revert s. induction calls as [|x calls IH]; intros s Hin Hs Hr; cbn [quic_run] in Hr; [by simplify_eq|].
  destruct (quic_do x s) as [[s1 r]|] eqn:Hx; [|done]. cbn in Hr. cbn [arrivals_of mbind list_bind] in Hin.
  apply (IH s1); [intros p Hp; apply Hin, elem_of_app; by right| |exact Hr].
  eapply receiver_call; [intros p Hp; apply Hin, elem_of_app; by left|exact Hs|exact Hx].
Qed.
Lemma received_fed xs s s' r : (forall p, p ∈ omap read_datagram xs -> p ∈ came) -> fed s ->
  quic_try_receive_realtime xs s = Some (s', Ok (Some r)) ->
  exists bytes, bytes ∈ came /\ decode_realtime_datagram bytes (received_at r) = Ok r.
Proof.
  intros Hxs Hs Hr. unfold quic_try_receive_realtime, mbind, step_bind, q_get, get_state, refuse in Hr. cbn in Hr.
  destruct (datagrams_enabled s.1); [|done]. cbn in Hr. destruct (pop_raw_datagram xs s) as [[s1 [[x|]|e]]|] eqn:Hp; try done.
  destruct (pop_fed xs s s1 _ Hxs Hs Hp) as [_ Hc]. specialize (Hc x eq_refl). cbn in Hr.
  unfold try_with in Hr. destruct (decode_realtime_datagram (raw_payload x) (raw_received_at x)) as [y|e] eqn:Hd; [|done].
  cbn in Hr. injection Hr as _ <-. exists (raw_payload x). split; [done|].
  assert (received_at y = raw_received_at x) as -> by (unfold decode_realtime_datagram in Hd; inv_ok; by cbn). done.
Qed.
End receiver.

(** ** From one to the other *)

Lemma make_connection_handed {Tx Rx W} `{QuinnConnection W} runtime (streams : QuicStreams Tx Rx) local remote o
    (w w' : W * quinn_seen) r :
  quic_make_connection runtime streams local remote o w = Some (w', r) -> handed w'.2 = handed w.2.
Proof.
  assert (step_keeps (fun w1 : W * quinn_seen => handed w1.2 = handed w.2)
            (quic_make_connection runtime streams local remote o)) as Hk.
  { unfold quic_make_connection. keeps; apply keeps_asks; intros [w1 t] <-; cbn;
      [by destruct (max_datagram_size w1)..|by destruct (quinn_remote_address w1)]. }
  intros E. by eapply Hk.
Qed.
(** A new connection has sent nothing and holds nothing. *)
Lemma made_sender_ok {Tx Rx W} `{QuinnConnection W} sends rt (streams : QuicStreams Tx Rx) local remote o
    (w0 w1 : W * quinn_seen) c b :
  TransportBase.max_frame_bytes (qo_budget o) <= usize_max -> handed w0.2 = [] ->
  quic_make_connection rt streams local remote o w0 = Some (w1, Ok (c, b)) -> sender_ok sends (c, w1).
Proof.
  intros Hb Hh Hm. split; cbn; [exact (make_connection_ok _ _ _ _ _ _ _ _ _ Hb Hm)| |].
  - pose proof (step_wp_result _ _ _ _ _ (make_connection_spec _ _ _ _ _ _) Hm) as (_ & _ & _ & _ & _ & Hg & _).
    intros f g p. by rewrite Hg.
  - apply make_connection_handed in Hm. rewrite Hm, Hh. constructor.
Qed.
Lemma made_waiting_ok {Tx Rx W} `{QuinnConnection W} came rt (streams : QuicStreams Tx Rx) local remote o (w0 w1 : W) c b :
  quic_make_connection rt streams local remote o w0 = Some (w1, Ok (c, b)) -> waiting_ok came c.
Proof.
  intros Hm. pose proof (step_wp_result _ _ _ _ _ (make_connection_spec _ _ _ _ _ _) Hm) as (_ & _ & _ & _ & _ & _ & Hq).
  intros x. rewrite Hq. by intros ?%not_elem_of_nil.
Qed.
(** The numbers of a datagram are of their types. *)
Definition fields_typed (d : RealtimeDatagram) : Prop :=
  rd_flow d <= u16_max /\ rd_generation d <= u32_max /\ rd_sequence d <= u64_max.
Lemma encode_room d bytes : encode_realtime_datagram d = Ok bytes -> len (rd_payload d) + 20 <= usize_max.
Proof.
  unfold encode_realtime_datagram, checked_add. case_decide as Hl; [|done]. intros _.
  unfold REALTIME_DATAGRAM_HEADER_LEN in Hl. lia.
Qed.
Lemma sent_decodes sends bytes t r : (forall d now, QcTrySendLatest d now ∈ sends -> fields_typed d) ->
  bytes_sent sends bytes -> decode_realtime_datagram bytes t = Ok r ->
  sent_as sends (rx_flow r) (rx_generation r) (rx_sequence r) (rx_payload r)
  \/ QcTrySendDatagram bytes ∈ sends.
Proof.
  intros Hwf [(d & He & Hs)|Hraw] Hd; [|by right]. left. destruct Hs as (d0 & now & Hin & E1 & E2 & E3 & E4).
  assert (datagram_wf d) as Hd0.
  { destruct (Hwf d0 now Hin) as (H1 & H2 & H3). apply encode_room in He. unfold datagram_wf.
    rewrite <- E1, <- E2, <- E3. split_and!; [done..|lia]. }
  destruct (datagram_decodes d t Hd0) as (bs & Hb & Hdec & _). rewrite He in Hb. injection Hb as <-.
  rewrite Hdec in Hd. injection Hd as <-. by exists d0, now.
Qed.

(** C15: real-time datagrams cross QUIC unaltered. However the calls of a sending
    and of a receiving connection go and whatever quinn answers, as long as the
    receiver's quinn gives out only what the sender's was handed - in any order,
    repeated or never - each datagram that [try_receive_realtime] returns has
    the flow, the generation, the sequence and the payload of one that the
    sender's application passed to [try_send_latest], or its bytes are those of
    a raw datagram that it passed to [try_send_datagram]. *)
Theorem quic_realtime_transfer {Tx1 Rx1 Tx2 Rx2 W1 W2} `{QuinnConnection W1} `{QuinnConnection W2}
    rt1 (streams1 : QuicStreams Tx1 Rx1) local1 remote1 o1 (w0 w1 : W1 * quinn_seen) c0 b0 sends s
    rt2 (streams2 : QuicStreams Tx2 Rx2) local2 remote2 o2 (v0 v1 : W2) e0 b1 receives t xs t' r :
  TransportBase.max_frame_bytes (qo_budget o1) <= usize_max ->
  (forall d now, QcTrySendLatest d now ∈ sends -> fields_typed d) ->
  handed w0.2 = [] -> quic_make_connection rt1 streams1 local1 remote1 o1 w0 = Some (w1, Ok (c0, b0)) ->
  quic_run sends (c0, w1) = Some s ->
  quic_make_connection rt2 streams2 local2 remote2 o2 v0 = Some (v1, Ok (e0, b1)) ->
  quic_run receives (e0, v1) = Some t ->
  (forall bytes, bytes ∈ arrivals_of (receives ++ [QcTryReceiveRealtime xs]) -> bytes ∈ ho_bytes <$> handed s.2.2) ->
  quic_try_receive_realtime xs t = Some (t', Ok (Some r)) ->
  sent_as sends (rx_flow r) (rx_generation r) (rx_sequence r) (rx_payload r)
  \/ exists bytes, QcTrySendDatagram bytes ∈ sends /\ decode_realtime_datagram bytes (received_at r) = Ok r.
Proof.
  intros Hb Hwf Hh Hm1 Hr1 Hm2 Hr2 Hnet Hrecv.
  pose proof (made_sender_ok sends _ _ _ _ _ _ _ _ _ Hb Hh Hm1) as Hs0.
  assert (sender_ok sends s) as [_ _ Hsent] by (by eapply sender_run).
  set (came := ho_bytes <$> handed s.2.2) in *.
  assert (waiting_ok came t.1) as Hfed.
  { eapply (receiver_run came receives); [intros p Hp; apply Hnet; unfold arrivals_of; rewrite bind_app; apply elem_of_app; by left| |exact Hr2].
    by eapply made_waiting_ok. }
  apply (received_fed came xs t t' r) in Hrecv as (bytes & Hin & Hd); [|intros p Hp; apply Hnet|exact Hfed].
  2:{ unfold arrivals_of. rewrite bind_app. apply elem_of_app. right. cbn. by rewrite app_nil_r. }
  apply list_elem_of_fmap in Hin as (h & -> & Hin). rewrite Forall_forall in Hsent. specialize (Hsent h Hin).
  destruct (sent_decodes sends _ _ r Hwf Hsent Hd) as [Hok|Hraw]; [by left|right; by exists (ho_bytes h)].
Qed.

(** Two datagrams were handed over; the second comes first, and twice. *)
Definition transfer_sends : list quic_call := sample_calls ++ [QcPollRealtime 10].
Definition wire_of (d : QueuedRealtimeDatagram) : list byte :=
  match encode_realtime_datagram d with Ok bytes => bytes | Err _ => [] end.
Definition transfer_wire : list (list byte) :=
  wire_of <$> [sample_datagram 2 1 100 RealtimePriority.Critical "hand"; sample_datagram 1 1 100 RealtimePriority.High "head"].
Definition transfer_receives : list quic_call :=
  [QcReader (DatagramArrives (wire_of (sample_datagram 1 1 100 RealtimePriority.High "head")) 20);
   QcReader (DatagramArrives (wire_of (sample_datagram 1 1 100 RealtimePriority.High "head")) 21);
   QcTryReceiveRealtime [];
   QcReader (DatagramArrives (wire_of (sample_datagram 2 1 100 RealtimePriority.Critical "hand")) 22)].
Definition sample_receiver : option (list N * result TransportError (QuicConnection * QuicBridges () ())) :=
  quic_make_connection (H := scripted) true sample_streams (id_of EndpointKind 2) (id_of EndpointKind 1) default_quic_options [].
Definition received_then (m : option (list N * result TransportError (QuicConnection * QuicBridges () ())))
    : option (option ReceivedRealtimeDatagram) :=
  match m with
  | Some (v1, Ok (e0, _)) =>
    match quic_run (H := scripted) transfer_receives (e0, v1) with
    | Some t =>
      match quic_try_receive_realtime [] t with Some (_, Ok r) => Some r | _ => None end
    | None => None
    end
  | _ => None
  end.
Definition handed_then (m : option ((list N * quinn_seen) * result TransportError (QuicConnection * QuicBridges () ())))
    : option (list (list byte)) :=
  match m with
  | Some (w1, Ok (c0, _)) =>
    match quic_run (H := recorded (H := scripted)) transfer_sends (c0, w1) with
    | Some s => Some (ho_bytes <$> handed s.2.2)
    | None => None
    end
  | _ => None
  end.
Lemma transfer_example : handed_then sample_made = Some transfer_wire
  /\ received_then sample_receiver = Some (Some (mkReceived 1 1 1 RealtimePriority.High 21 (str "head"))).
Proof. split; vm_compute; reflexivity. Qed.
Lemma quic_realtime_transfer_witness : exists r,
  received_then sample_receiver = Some (Some r) /\ rx_payload r = str "head"
  /\ (sent_as transfer_sends (rx_flow r) (rx_generation r) (rx_sequence r) (rx_payload r)
      \/ exists bytes, QcTrySendDatagram bytes ∈ transfer_sends /\ decode_realtime_datagram bytes (received_at r) = Ok r).
Proof.
  destruct transfer_example as [Hw Hr]. eexists. split; [exact Hr|]. split; [reflexivity|].
  unfold handed_then in Hw. destruct sample_made as [[w1 [[c0 b0]|e]]|] eqn:Hm1; [|discriminate Hw..].
  destruct (quic_run (H := recorded (H := scripted)) transfer_sends (c0, w1)) as [s|] eqn:Hr1; [|discriminate Hw].
  unfold received_then in Hr. destruct sample_receiver as [[v1 [[e0 b1]|e]]|] eqn:Hm2; [|discriminate Hr..].
  destruct (quic_run (H := scripted) transfer_receives (e0, v1)) as [t|] eqn:Hr2; [|discriminate Hr].
  destruct (quic_try_receive_realtime [] t) as [[t' [r|e]]|] eqn:Hq; [|discriminate Hr..]. injection Hr as ->.
  refine (quic_realtime_transfer (H := scripted) (H0 := scripted) true sample_streams (id_of EndpointKind 1) (id_of EndpointKind 2)
    default_quic_options sample_world w1 c0 b0 transfer_sends s true sample_streams (id_of EndpointKind 2) (id_of EndpointKind 1)
    default_quic_options [] v1 e0 b1 transfer_receives t [] t' _ _ _ eq_refl Hm1 Hr1 Hm2 Hr2 _ Hq).
  - vm_compute. discriminate.
  - assert (Forall (fun x => match x with QcTrySendLatest d _ => fields_typed d | _ => True end) transfer_sends) as Hwf
      by (repeat constructor; vm_compute; discriminate).
    rewrite Forall_forall in Hwf. intros d now Hin. exact (Hwf _ Hin).
  - injection Hw as ->.
    assert (Forall (fun p => p ∈ transfer_wire) (arrivals_of (transfer_receives ++ [QcTryReceiveRealtime []]))) as Hall
      by (apply (bool_decide_unpack _); vm_compute; reflexivity).
    rewrite Forall_forall in Hall. exact Hall.
Defined.
