(* ===== verification/QuicResults.v ===== *)
(** * NTP results over QUIC

    The binding's [send_fragmented] over the real-time methods of a QUIC
    connection, and the reassembler fed by those of another: what is put
    together is a result that was sent. *)

From S2P Require Export QuicTransfer FragmentRoundtrip.
Local Open Scope N_scope.
Import TransportErrorKind.

(** ** The real-time methods of a QUIC connection *)

(** What a call meets: quinn's answer about the size of datagrams, the clock,
    and what the datagram reader does meanwhile. *)
Record Moment := mkMoment { mo_size : option N; mo_now : N; mo_reader : list reader_event }.
Record QuicWorld (W : Type) := mkQuicWorld { qw_state : QuicConnection * W; qw_time : nat }.
#[global] Arguments mkQuicWorld {W} _ _.
#[global] Arguments qw_state {W} _.
#[global] Arguments qw_time {W} _.

Section realtime.
Context {W : Type} `{QuinnConnection W} (moments : nat -> Moment).

(** [max_datagram_payload], when quinn answers [size]. *)
Definition datagram_payload_for (size : option N) (c : QuicConnection) : option N :=
  let limit := path_limit size c - REALTIME_DATAGRAM_HEADER_LEN in
  if datagrams_enabled c && (0 <? limit) then Some limit else None.
(** A call takes the next moment; no call panics
    ([realtime_total], [receive_total]). *)
Definition quic_realtime : RealtimeConnection () (QuicWorld W) := {|
  max_datagram_payload _ s := datagram_payload_for (mo_size (moments (qw_time s))) (qw_state s).1;
  try_send_latest _ d s :=
    match quic_try_send_latest d (mo_now (moments (qw_time s))) (qw_state s) with
    | Some (t, r) => (mkQuicWorld t (S (qw_time s)), r)
    | None => (s, Err (transport_error Other "panic"))
    end;
  try_receive_realtime _ s :=
    match quic_try_receive_realtime (mo_reader (moments (qw_time s))) (qw_state s) with
    | Some (t, r) => (mkQuicWorld t (S (qw_time s)), r)
    | None => (s, Err (transport_error Other "panic"))
    end;
|}.

(** The query is the method, at a moment when quinn answers so. *)
Lemma datagram_payload_method (c : QuicConnection) (w w' : W) size : Quic.max_datagram_size w = (w', size) ->
  exists w2, quic_max_datagram_payload (c, w) = Some ((c, w2), Ok (datagram_payload_for size c)).
Proof.
  intros Hs. unfold quic_max_datagram_payload, datagram_payload_for, path_limit, current_realtime_payload_limit,
    current_raw_datagram_limit, quinn_call, q_get, get_state, mbind, step_bind. cbn.
  destruct (datagrams_enabled c); [|by eexists]. cbn. rewrite Hs. cbn. by eexists.
Qed.
End realtime.

Section total.
Context {W : Type} `{QuinnConnection W}.
Implicit Types (s : QuicConnection * (W * quinn_seen)).

Lemma poll_total now s : quic_ok s.1 -> step_wp (quic_poll_realtime now) s (fun _ _ => True).
Proof.
  intros Hok. destruct (datagrams_enabled s.1) eqn:He.
  - eapply step_wp_mono; [by apply poll_sound_spec|done].
  - unfold quic_poll_realtime. apply wp_bind, wp_q_get. rewrite He. cbn [negb]. cbv beta iota. by apply wp_bind.
Qed.
Lemma realtime_total d now s : quic_ok s.1 -> exists s' r, quic_try_send_latest d now s = Some (s', r).
Proof.
  intros Hok. destruct (proj1 (step_wp_iff (quic_try_send_latest d now) s (fun _ _ => True))) as (s' & r & E & _); [|by eauto].
  unfold quic_try_send_latest. apply wp_bind, wp_q_get. apply wp_if; intros He; [by apply wp_ret|].
  apply wp_bind. eapply step_wp_mono; [apply refresh_spec; [done|by destruct (datagrams_enabled s.1)]|].
  intros s1 r1 [Hre _]. destruct r1; [|done]. apply wp_bind, wp_q_get. cbv beta iota. apply wp_bind, wp_on_queue.
  cbv beta iota. apply wp_bind, wp_try. destruct (Realtime.enqueue d now (realtime_send s1.1)).2 eqn:Eq; [|done].
  apply wp_bind. eapply step_wp_mono; [apply poll_total|].
  - cbn. pose proof (quic_ok_op (OpEnqueue d now) s1.1 (re_ok _ _ Hre)) as Hop. cbn in Hop.
    destruct (Realtime.enqueue d now (realtime_send s1.1)). by apply Hop.
  - intros s2 [n|e] _; [|done]. apply wp_bind, wp_q_get. cbv beta iota. by apply wp_ret.
Qed.
Lemma receive_total xs s : exists s' r, quic_try_receive_realtime xs s = Some (s', r).
Proof.
  unfold quic_try_receive_realtime, mbind, step_bind, q_get, get_state, refuse. cbn.
  destruct (datagrams_enabled s.1); [|by do 2 eexists]. cbn. unfold pop_raw_datagram.
  destruct (receive_pop _) as [q [x|]]; cbn; [|by do 2 eexists]. unfold try_with.
  destruct (decode_realtime_datagram _ _); cbn; by do 2 eexists.
Qed.
End total.

(** ** Fragments are slices of their result *)

(** Whoever decodes the wire, its fragment is a slice of the payload. *)
Definition slice_wire `{NanaTracking} (payload wire : list byte) : Prop :=
  forall config f, fragment_decode wire config = Ok f ->
    holds (fg_offset f) (fg_payload f) payload /\ fg_total_len f = len payload.

Section slices.
Context `{NanaTracking}.

Lemma fragment_wire_fields i count n total chunk wire config f :
  fragment_wire i count n total chunk = Ok wire -> fragment_decode wire config = Ok f ->
  fg_offset f = i * n /\ fg_total_len f = total /\ fg_payload f = chunk.
Proof.
  unfold fragment_wire. intros Hw Hd. inv_ok. guards.
  match type of Hd with fragment_decode ?b _ = _ => set (bs := b) in Hd end. unfold fragment_decode in Hd. inv_ok.
  cbn [fg_offset fg_total_len fg_payload].
  change (field 10 14 bs) with (be_bytes 4 (i * n)). change (field 14 18 bs) with (be_bytes 4 total).
  rewrite !from_be_bytes_small by (cbn; lia). done.
Qed.
Lemma chained_holds fs cursor l : chained cursor fs ->
  len l = cursor ->
  Forall (fun f => holds (fg_offset f) (fg_payload f) (l ++ payloads fs)) fs.
Proof.
  revert cursor l. induction fs as [|f fs IH]; intros cursor l Hc Hl; [constructor|]. destruct Hc as [Ho Hc].
  cbn [payloads]. constructor; [apply holds_split; exists l, (payloads fs); by rewrite Ho|].
  rewrite app_assoc. apply (IH (cursor + len (fg_payload f))); [done|]. rewrite length_app. lia.
Qed.
(** The chunks of a payload, at their offsets. *)
Lemma chunk_holds n l : 0 < n ->
  forall count total, Forall (fun f => holds (fg_offset f) (fg_payload f) l) (frags count n total 0 (chunks n l)).
Proof.
  intros Hn count total. destruct (frags_chained count n total Hn _ l 0 (le_n _)) as [Hc Hp].
  apply (chained_holds _ 0 []) in Hc; [|done]. unfold chunks. cbn [app] in Hc. rewrite Hp in Hc. exact Hc.
Qed.
End slices.

(** ** The publisher *)

Section publisher.
Context `{NanaTracking} {W : Type} `{QuinnConnection W} (moments : nat -> Moment).
#[local] Existing Instance quic_realtime.

(** A result to send in fragments, or another call of the connection. *)
Inductive publish_call := PubResult (r : FragmentSend) | PubCall (x : quic_call).
Definition publish_do (x : publish_call) (s : QuicWorld W) : option (QuicWorld W) :=
  match x with
  | PubResult r => Some (send_fragmented (H0 := quic_realtime moments) () r s).1
  | PubCall x => '(t, _) ← quic_do x (qw_state s); Some (mkQuicWorld t (qw_time s))
  end.
Fixpoint publish_run (xs : list publish_call) (s : QuicWorld W) : option (QuicWorld W) :=
  match xs with
  | [] => Some s
  | x :: xs => s ← publish_do x s; publish_run xs s
  end.

(** The call sends a fragment of [r]. *)
Definition sends_fragment (r : FragmentSend) (x : quic_call) : Prop :=
  exists wire now, x = QcTrySendLatest (fragment_datagram r wire) now /\ slice_wire (fr_payload r) wire.

Lemma quic_run_app xs ys s : quic_run (xs ++ ys) s = (s ← quic_run xs s; quic_run ys s).
Proof.
  revert s. induction xs as [|x xs IH]; intros s; [done|]. cbn [app quic_run].
  destruct (quic_do x s) as [[t r]|]; [apply IH|done].
Qed.
Lemma quic_run_sends d now (s t : QuicConnection * W) r : quic_try_send_latest d now s = Some (t, r) ->
  quic_run [QcTrySendLatest d now] s = Some t.
Proof. intros E. cbn. unfold forget, mbind, step_bind. rewrite E. by destruct r. Qed.

Lemma send_chunks_calls r count n l : forall index a s s' o,
  Forall (fun f => holds (fg_offset f) (fg_payload f) (fr_payload r)) (frags count n (len (fr_payload r)) index l) ->
  send_chunks (H0 := quic_realtime moments) r count n index l a () s = (s', o) ->
  exists calls, quic_run calls (qw_state s) = Some (qw_state s') /\ Forall (sends_fragment r) calls.
Proof.
  induction l as [|c l IH]; intros index a s s' o Hh Hs; cbn [send_chunks] in Hs; [injection Hs as <- _; by exists []|].
  cbn [frags] in Hh. apply Forall_cons in Hh as [Hc Hl]. cbn in Hc.
  destruct (fragment_wire _ _ _ _ c) as [wire|e] eqn:Hw; [|injection Hs as <- _; by exists []].
  assert (slice_wire (fr_payload r) wire) as Hslice.
  { intros config f Hd. destruct (fragment_wire_fields _ _ _ _ _ _ _ _ Hw Hd) as (E1 & E2 & E3).
    rewrite E1, E2, E3. by split. }
  cbn [try_send_latest quic_realtime] in Hs. set (now := mo_now _) in Hs. fold (fragment_datagram r wire) in Hs.
  destruct (quic_try_send_latest (fragment_datagram r wire) now (qw_state s)) as [[t x]|] eqn:Hq;
    [|injection Hs as <- _; by exists []].
  apply quic_run_sends in Hq.
  assert (sends_fragment r (QcTrySendLatest (fragment_datagram r wire) now)) as Hf by (by exists wire, now).
  destruct x as [[]|e]; try (injection Hs as <- _; exists [QcTrySendLatest (fragment_datagram r wire) now];
    split; [exact Hq|by constructor]).
  all: apply IH in Hs as (calls & Hr & Hcalls); [|exact Hl];
    exists (QcTrySendLatest (fragment_datagram r wire) now :: calls); (split; [|by constructor]);
    change (?x :: calls) with ([x] ++ calls); rewrite quic_run_app, Hq; exact Hr.
Qed.
Lemma send_fragmented_calls r s : exists calls,
  quic_run calls (qw_state s) = Some (qw_state (send_fragmented (H0 := quic_realtime moments) () r s).1)
  /\ Forall (sends_fragment r) calls.
Proof.
  unfold send_fragmented. destruct (_ || _); [by exists []|]. destruct (max_datagram_payload _ _) as [mp|]; [|by exists []].
  destruct (N.leb_spec mp FRAGMENT_HEADER_LEN); [by exists []|]. destruct (_ || _); [by exists []|].
  destruct (send_chunks _ _ _ _ _ _ _ _) as [s' o] eqn:Hs. apply (send_chunks_calls r) in Hs; [exact Hs|].
  apply chunk_holds. lia.
Qed.
(** The run of a publisher is a run of the connection. *)
Lemma publish_run_calls xs : forall s s', publish_run xs s = Some s' ->
  exists calls, quic_run calls (qw_state s) = Some (qw_state s')
    /\ forall x, x ∈ calls -> PubCall x ∈ xs \/ exists r, PubResult r ∈ xs /\ sends_fragment r x.
Proof.
  induction xs as [|x xs IH]; intros s s' Hr; cbn [publish_run] in Hr; [exists []; simplify_eq; split; [done|set_solver]|].
  destruct (publish_do x s) as [s1|] eqn:Hx; [|done]. cbn in Hr. apply IH in Hr as (calls & Hr & Hc).
  assert (exists calls1, quic_run calls1 (qw_state s) = Some (qw_state s1)
    /\ forall y, y ∈ calls1 -> x = PubCall y \/ exists r, x = PubResult r /\ sends_fragment r y) as (calls1 & Hr1 & Hc1).
  { destruct x as [r|y]; cbn [publish_do] in Hx.
    - injection Hx as <-. destruct (send_fragmented_calls r s) as (calls1 & Hr1 & Hf). exists calls1. split; [done|].
      rewrite Forall_forall in Hf. intros y Hy. right. eauto.
    - destruct (quic_do y (qw_state s)) as [[t o]|] eqn:Hy; [|done]. injection Hx as <-. exists [y]. cbn. rewrite Hy.
      split; [done|]. intros z ->%list_elem_of_singleton. by left. }
  exists (calls1 ++ calls). rewrite quic_run_app, Hr1. split; [done|].
  intros y [Hy|Hy]%elem_of_app; [destruct (Hc1 y Hy) as [->|(r & -> & Hf)]|destruct (Hc y Hy) as [?|(r & ? & Hf)]];
    [left; by left|right; exists r; split; [by left|done]|left; by right|right; exists r; split; [by right|done]].
Qed.
End publisher.

(** ** The subscriber *)

Section subscriber.
Context `{NanaTracking} {W : Type} `{QuinnConnection W} (flow : N) (config : BindingConfig).

(** The connection, the reassembler of the flow and the results completed. *)
Record Collector := mkCollector {
  co_state : QuicConnection * W;
  co_reassembler : Reassembler;
  co_results : list (N * N * list byte);
}.
(** The next datagram goes to the reassembler when it is of the flow; the
    reassembler is cleared for a new session; or another call of the
    connection. *)
Inductive collect_call := CollectNext (xs : list reader_event) | CollectClear | CollectCall (x : quic_call).
Definition collect_datagram (rx : ReceivedRealtimeDatagram) (k : Collector) : option Collector :=
  if rx_flow rx =? flow then
    '(r, outcome) ← reassembler_push (rx_generation rx) (rx_sequence rx) (rx_payload rx) config (co_reassembler k);
    let results :=
      match outcome with Ok (ReComplete g q payload _) => [(g, q, payload)] | _ => [] end in
    Some (mkCollector (co_state k) r (co_results k ++ results))
  else Some k.
Definition collect_do (x : collect_call) (k : Collector) : option Collector :=
  match x with
  | CollectNext xs =>
    '(s, rx) ← quic_try_receive_realtime xs (co_state k);
    let k := mkCollector s (co_reassembler k) (co_results k) in
    match rx with Ok (Some rx) => collect_datagram rx k | _ => Some k end
  | CollectClear => Some (mkCollector (co_state k) (reassembler_clear (co_reassembler k)) (co_results k))
  | CollectCall x =>
    '(s, _) ← quic_do x (co_state k); Some (mkCollector s (co_reassembler k) (co_results k))
  end.
Fixpoint collect_run (xs : list collect_call) (k : Collector) : option Collector :=
  match xs with
  | [] => Some k
  | x :: xs => k ← collect_do x k; collect_run xs k
  end.
Definition collect_arrivals (x : collect_call) : list (list byte) :=
  match x with
  | CollectNext xs => call_arrivals (QcTryReceiveRealtime xs)
  | CollectClear => []
  | CollectCall x => call_arrivals x
  end.

(** What holds while a collector runs: the datagrams that wait came, and what
    the reassembler was fed has the property [fits] that such datagrams have. *)
Context (came : list (list byte)) (fits : N -> N -> list byte -> Prop).
Hypothesis came_fits : forall bytes t rx, bytes ∈ came -> decode_realtime_datagram bytes t = Ok rx ->
  rx_flow rx = flow -> fits (rx_generation rx) (rx_sequence rx) (rx_payload rx).
(** The payload is put together from fragments that fit. *)
Definition assembled_from (g q : N) (p : list byte) : Prop :=
  p <> [] /\ exists fs, chained 0 fs /\ p = payloads fs
    /\ Forall (fun f => fg_total_len f = len p
         /\ exists bytes, fits g q bytes /\ fragment_decode bytes config = Ok f) fs.
Record collector_ok (k : Collector) : Prop := {
  ck_waiting : waiting_ok came (co_state k).1;
  ck_reaches : exists h, reassembler_ok config h (co_reassembler k)
    /\ Forall (fun e => fits (pu_generation e) (pu_sequence e) (pu_bytes e)) h;
  ck_results : Forall (fun '(g, q, p) => assembled_from g q p) (co_results k);
}.

Lemma outcome_assembled h g q g' q' p x :
  Forall (fun e => fits (pu_generation e) (pu_sequence e) (pu_bytes e)) h ->
  outcome_ok config h g q (Ok (ReComplete g' q' p x)) -> assembled_from g' q' p.
Proof.
  intros Hh (_ & _ & (fs & Hc & Hp & Ha & Ht) & Hl & _). split; [intros ->; cbn in Hl; lia|].
  exists fs. split_and!; [done..|]. apply Forall_forall. intros f Hf.
  rewrite Forall_forall in Ha. rewrite Forall_forall in Ht.
  split; [by apply Ht|]. destruct (Ha f Hf) as (e & He & E1 & E2 & Hd).
  exists (pu_bytes e). split; [|done]. rewrite <- E1, <- E2.
  by apply (proj1 (Forall_forall _ _) Hh).
Qed.
Lemma collect_datagram_ok rx bytes t k : bytes ∈ came -> decode_realtime_datagram bytes t = Ok rx ->
  collector_ok k -> exists k', collect_datagram rx k = Some k' /\ collector_ok k'.
Proof.
  intros Hc Hd Hk. unfold collect_datagram. destruct (N.eqb_spec (rx_flow rx) flow) as [Hf|]; [|by exists k].
  pose proof (came_fits _ _ _ Hc Hd Hf) as Hfit. destruct Hk as [Hw (h & Hr & Hh) Hres].
  destruct (push_ok config h _ (rx_generation rx) (rx_sequence rx) (rx_payload rx) Hr) as (r' & out & -> & Ho & Hr' & _).
  cbn. eexists. split; [done|]. split; [done| |].
  - eexists. split; [exact Hr'|]. by constructor.
  - cbn. apply Forall_app. split; [done|]. destruct out as [[|g q p b|]|]; [by constructor| |by constructor..].
    constructor; [|constructor]. eapply outcome_assembled; [|exact Ho]. by constructor.
Qed.
Lemma collect_do_ok x k k' : (forall p, p ∈ collect_arrivals x -> p ∈ came) ->
  collector_ok k -> collect_do x k = Some k' -> collector_ok k'.
Proof.
  intros Hx Hk. destruct x as [xs| |x]; cbn [collect_do collect_arrivals] in *.
  - destruct (quic_try_receive_realtime xs (co_state k)) as [[s rx]|] eqn:Hq; [|done].
    assert (collector_ok (mkCollector s (co_reassembler k) (co_results k))) as Hk1.
    { destruct Hk as [Hw Hr Hres]. split; [|done..]. cbn.
      assert (exists r, quic_do (QcTryReceiveRealtime xs) (co_state k) = Some (s, r)) as [r Hr'].
      { cbn. unfold forget, mbind, step_bind. rewrite Hq. destruct rx; by eexists. }
      exact (receiver_call came (QcTryReceiveRealtime xs) Hx _ _ _ Hw Hr'). }
    cbn. destruct rx as [[rx|]|e]; [|by intros [= <-]..]. intros Hc.
    apply (received_fed came) in Hq as (bytes & Hin & Hd); [|exact Hx|apply Hk].
    destruct (collect_datagram_ok rx bytes _ _ Hin Hd Hk1) as (k2 & E & Hk2). congruence.
  - intros [= <-]. destruct Hk as [Hw _ Hres]. split; [done| |done]. exists []. split; [|constructor].
    split; [done|]. by intros ? ?%not_elem_of_nil.
  - destruct (quic_do x (co_state k)) as [[s r]|] eqn:Hq; [|done]. cbn. intros [= <-].
    destruct Hk as [Hw Hr Hres]. split; [|done..]. cbn. by eapply receiver_call.
Qed.
Lemma collect_run_ok xs : forall k k', (forall p, p ∈ xs ≫= collect_arrivals -> p ∈ came) ->
  collector_ok k -> collect_run xs k = Some k' -> collector_ok k'.
Proof.
  induction xs as [|x xs IH]; intros k k' Hx Hk Hr; cbn [collect_run] in Hr; [by simplify_eq|].
  destruct (collect_do x k) as [k1|] eqn:E; [|done]. cbn in Hr. cbn [mbind list_bind] in Hx.
  apply (IH k1); [intros p Hp; apply Hx, elem_of_app; by right| |done].
  eapply collect_do_ok; [|exact Hk|exact E]. intros p Hp. apply Hx, elem_of_app. by left.
Qed.
End subscriber.

(** ** From the publisher to the subscriber *)

Section integrity.
Context `{NanaTracking} (flow : N) (pubs : list publish_call).

(** The flow carries results alone, of numbers of their types, and no two of
    its results that differ share a generation and a sequence. *)
Record flow_of_results : Prop := {
  fl_typed r : PubResult r ∈ pubs -> fr_flow r <= u16_max /\ fr_generation r <= u32_max /\ fr_sequence r <= u64_max;
  fl_unique r r' : PubResult r ∈ pubs -> PubResult r' ∈ pubs -> fr_flow r = flow -> fr_flow r' = flow ->
    fr_generation r = fr_generation r' -> fr_sequence r = fr_sequence r' -> fr_payload r = fr_payload r';
  fl_other d now : PubCall (QcTrySendLatest d now) ∈ pubs -> fields_typed d /\ rd_flow d <> flow;
  fl_raw bytes : PubCall (QcTrySendDatagram bytes) ∉ pubs;
}.
Definition published (generation sequence : N) (r : FragmentSend) : Prop :=
  PubResult r ∈ pubs /\ fr_flow r = flow /\ fr_generation r = generation /\ fr_sequence r = sequence.
Definition fits_published (generation sequence : N) (bytes : list byte) : Prop :=
  exists r, published generation sequence r /\ slice_wire (fr_payload r) bytes.

Lemma sent_fits (calls : list quic_call) bytes t rx : flow_of_results ->
  (forall x, x ∈ calls -> PubCall x ∈ pubs \/ exists r, PubResult r ∈ pubs /\ sends_fragment r x) ->
  bytes_sent calls bytes -> decode_realtime_datagram bytes t = Ok rx -> rx_flow rx = flow ->
  fits_published (rx_generation rx) (rx_sequence rx) (rx_payload rx).
Proof.
  intros [Ht _ Hother Hraw] Hc Hb Hd Hf. destruct (sent_decodes calls bytes t rx) as [(d & now & Hin & E)|Hin]; [|done..| |].
  - intros d now [Hp|(r & Hr & wire & n & [= -> _] & _)]%Hc; [by apply Hother in Hp as []|by apply Ht in Hr].
  - apply Hc in Hin as [Hp|(r & Hr & wire & n & [= -> _] & Hs)]; [apply Hother in Hp as [_ Hp]; destruct E; congruence|].
    destruct E as (E1 & E2 & E3 & E4). cbn in *. exists r. split; [|by rewrite <- E4]. split_and!; [done|congruence..].
  - apply Hc in Hin as [Hp|(r & _ & wire & n & [=] & _)]. by destruct (Hraw bytes).
Qed.
(** Put together from what fits, a payload is a result's. *)
Lemma assembled_published config g q p : flow_of_results -> assembled_from config fits_published g q p ->
  exists r, published g q r /\ p = fr_payload r.
Proof.
  intros [_ Hu _ _] (Hne & fs & Hc & Hp & Hfs). destruct fs as [|f0 fs0]; [done|].
  pose proof Hfs as [(_ & b0 & (r & Hr & Hs0) & Hd0) _]%Forall_cons. exists r. split; [done|].
  assert (Forall (fun f => holds (fg_offset f) (fg_payload f) (fr_payload r) /\ len p = len (fr_payload r)) (f0 :: fs0)) as Hall.
  { eapply Forall_impl; [exact Hfs|]. intros f (Ht & b & (r' & Hr' & Hs) & Hd).
    destruct Hr as (Hi & E1 & E2 & E3), Hr' as (Hi' & E1' & E2' & E3').
    rewrite (Hu r r') by congruence. destruct (Hs _ _ Hd) as [? E]. split; [done|congruence]. }
  pose proof Hall as [[_ Hl] _]%Forall_cons. rewrite Hp in Hl |- *.
  rewrite <- (chained_concat _ 0 (fr_payload r) Hc); [by rewrite drop_0| |lia].
  eapply Forall_impl; [exact Hall|]. by intros f [].
Qed.
End integrity.

(** C6: results cross QUIC whole.  One connection's application publishes
    results with the binding's [send_fragmented], among other calls; another's
    feeds the reassembler with the datagrams of the flow that it receives, and
    clears it at will.  The receiver's quinn gives out only datagrams that the
    sender's was handed, in any order, repeated or never; the sender had none
    handed over before.  The flow is one of results ([flow_of_results]): their
    numbers fit their types, no two results of the flow that share generation
    and sequence have different payloads, nothing else is sent on the flow, and
    the sender's application sends no raw datagrams.  Then every result that
    the reassembler completes is, byte for byte, one that was published on the
    flow with that generation and sequence. *)
Theorem quic_result_integrity `{NanaTracking} {Tx1 Rx1 Tx2 Rx2 W1 W2} `{QuinnConnection W1} `{QuinnConnection W2} moments flow config
    rt1 (streams1 : QuicStreams Tx1 Rx1) local1 remote1 o1 (w0 w1 : W1 * quinn_seen) c0 b0 pubs (s : QuicWorld (W1 * quinn_seen))
    rt2 (streams2 : QuicStreams Tx2 Rx2) local2 remote2 o2 (v0 v1 : W2) e0 b1 collects k g q p :
  TransportBase.max_frame_bytes (qo_budget o1) <= usize_max -> flow_of_results flow pubs ->
  handed w0.2 = [] -> quic_make_connection rt1 streams1 local1 remote1 o1 w0 = Some (w1, Ok (c0, b0)) ->
  publish_run moments pubs (mkQuicWorld (c0, w1) 0) = Some s ->
  quic_make_connection rt2 streams2 local2 remote2 o2 v0 = Some (v1, Ok (e0, b1)) ->
  collect_run flow config collects (mkCollector (e0, v1) reassembler_new []) = Some k ->
  (forall bytes, bytes ∈ collects ≫= collect_arrivals -> bytes ∈ ho_bytes <$> handed (qw_state s).2.2) ->
  (g, q, p) ∈ co_results k ->
  exists r, published flow pubs g q r /\ p = fr_payload r.
Proof.
  intros Hb Hfl Hh Hm1 Hr1 Hm2 Hr2 Hnet Hin.
  apply publish_run_calls in Hr1 as (calls & Hr1 & Hcalls).
  assert (sender_ok calls (qw_state s)) as [_ _ Hsent].
  { eapply sender_run; [|by eapply made_sender_ok|exact Hr1]. done. }
  set (came := ho_bytes <$> handed (qw_state s).2.2) in *.
  assert (collector_ok config came (fits_published flow pubs) k) as [_ _ Hres].
  { eapply (collect_run_ok flow config came); [|exact Hnet| |exact Hr2].
    - intros bytes t rx (h & -> & Hi)%list_elem_of_fmap. rewrite Forall_forall in Hsent.
      refine (sent_fits flow pubs calls _ t rx Hfl Hcalls (Hsent _ Hi)).
    - split; [by eapply made_waiting_ok| |by constructor]. exists []. split; [|constructor]. by apply reaches_ok, reaches_new. }
  rewrite Forall_forall in Hres. specialize (Hres _ Hin). exact (assembled_published flow pubs config g q p Hfl Hres).
Qed.

(** A result in two fragments; the second comes first, and twice. *)
Definition results_config : BindingConfig := default_binding_config (H := unit_tracking) ().
Definition results_sent : FragmentSend :=
  mkFragmentSend CORE_RESULT_FLOW 1 7 50 RealtimePriority.High (str "left hand, right hand") results_config.
Definition results_moments (n : nat) : Moment := mkMoment (Some 50) 10 [].
Definition results_pubs : list publish_call := [PubResult results_sent; PubCall (QcPollRealtime 11)].
Definition results_world : list N * quinn_seen := (replicate 20 5000, mkSeen None 0 []).
Definition results_made : option ((list N * quinn_seen) * result TransportError (QuicConnection * QuicBridges () ())) :=
  quic_make_connection (H := recorded (H := scripted)) true sample_streams (id_of EndpointKind 1) (id_of EndpointKind 2)
    default_quic_options results_world.
Definition published_then (m : option ((list N * quinn_seen) * result TransportError (QuicConnection * QuicBridges () ())))
    : option (list (list byte)) :=
  match m with
  | Some (w1, Ok (c0, _)) =>
    match publish_run (H := unit_tracking) (H0 := recorded (H := scripted)) results_moments results_pubs
            (mkQuicWorld (c0, w1) 0) with
    | Some s => Some (ho_bytes <$> handed (qw_state s).2.2)
    | None => None
    end
  | _ => None
  end.
Definition collected_then (wire : list (list byte)) (m : option (list N * result TransportError (QuicConnection * QuicBridges () ())))
    : option (list (N * N * list byte)) :=
  match m with
  | Some (v1, Ok (e0, _)) =>
    match collect_run (H := unit_tracking) (H0 := scripted) CORE_RESULT_FLOW results_config
            (wire ≫= fun b => [CollectCall (QcReader (DatagramArrives b 20)); CollectNext []])
            (mkCollector (e0, v1) reassembler_new []) with
    | Some k => Some (co_results k)
    | None => None
    end
  | _ => None
  end.
Definition results_wire : list (list byte) :=
  match published_then results_made with Some [a; b] => [b; b; a] | _ => [] end.
Definition results_collects : list collect_call :=
  results_wire ≫= fun b => [CollectCall (QcReader (DatagramArrives b 20)); CollectNext []].
Lemma results_example :
  (exists a b, published_then results_made = Some [a; b] /\ results_wire = [b; b; a])
  /\ collected_then results_wire sample_receiver = Some [(1, 7, str "left hand, right hand")].
Proof. split; [eexists _, _; split|]; vm_compute; reflexivity. Qed.
Lemma results_only : flow_of_results CORE_RESULT_FLOW results_pubs.
Proof.
  assert (forall x, x ∈ results_pubs -> x = PubResult results_sent \/ x = PubCall (QcPollRealtime 11)) as Hx
    by (unfold results_pubs; intros x; rewrite elem_of_cons, list_elem_of_singleton; tauto).
  split.
  - intros r [[= ->]|[=]]%Hx. split_and!; vm_compute; discriminate.
  - by intros r r' [[= ->]|[=]]%Hx [[= ->]|[=]]%Hx.
  - by intros d now [[=]|[=]]%Hx.
  - by intros bytes [[=]|[=]]%Hx.
Qed.
Lemma quic_result_integrity_witness : exists g q p,
  collected_then results_wire sample_receiver = Some [(g, q, p)]
  /\ exists r, published CORE_RESULT_FLOW results_pubs g q r /\ p = fr_payload r.
Proof.
  destruct results_example as [(a & b & Hw & Hwire) Hr]. eexists _, _, _. split; [exact Hr|].
  unfold published_then in Hw. destruct results_made as [[w1 [[c0 b0]|e]]|] eqn:Hm1; [|discriminate Hw..].
  destruct (publish_run (H := unit_tracking) (H0 := recorded (H := scripted)) results_moments results_pubs
    (mkQuicWorld (c0, w1) 0)) as [s|] eqn:Hr1; [|discriminate Hw].
  unfold collected_then in Hr. destruct sample_receiver as [[v1 [[e0 b1]|e]]|] eqn:Hm2; [|discriminate Hr..].
  fold results_collects in Hr. destruct (collect_run (H := unit_tracking) (H0 := scripted) CORE_RESULT_FLOW results_config
    results_collects (mkCollector (e0, v1) reassembler_new [])) as [k|] eqn:Hr2; [|discriminate Hr].
  injection Hr as Hr. injection Hw as Hw.
  refine (quic_result_integrity (H := unit_tracking) (H0 := scripted) (H1 := scripted) results_moments
    CORE_RESULT_FLOW results_config true sample_streams (id_of EndpointKind 1) (id_of EndpointKind 2) default_quic_options
    results_world w1 c0 b0 results_pubs s true sample_streams (id_of EndpointKind 2) (id_of EndpointKind 1) default_quic_options
    [] v1 e0 b1 results_collects k _ _ _ _ results_only eq_refl Hm1 Hr1 Hm2 Hr2 _ _).
  - vm_compute. discriminate.
  - unfold results_collects. rewrite Hw, Hwire. clear. intros bytes. cbn. rewrite !elem_of_cons. tauto.
  - rewrite Hr. apply list_elem_of_singleton. reflexivity.
Defined.
