(* ===== verification/AppEndpoint.v ===== *)
(** * Stable local endpoints of applications

    Models [app_endpoint.rs] of [mutsuki-link-local]: application ids, the
    address and the endpoint id that are derived from them, capabilities, and
    the lease files by which one process owns an endpoint.  The lease
    directory is a map from file names to contents; what a file system call
    answers, whether a process exists and the clock are arguments. *)

From S2P Require Export Control Trust.
Local Open Scope N_scope.

(** ** Texts *)

Definition is_ascii_alphanumeric (b : byte) : bool :=
  is_ascii_digit b || in_range 65 90 b || is_ascii_lowercase b.

(** [format!("{}")] and [str::parse] of an unsigned integer at most [max]. *)
Definition digit (n : N) : byte := byte_of_n (48 + n).
Fixpoint decimal_digits (fuel : nat) (n : N) (l : list byte) : list byte :=
  match fuel with
  | O => l
  | S fuel => let l := digit (n mod 10) :: l in if n <? 10 then l else decimal_digits fuel (n / 10) l
  end.
Definition decimal (n : N) : list byte := decimal_digits (S (N.to_nat (N.size n))) n [].
Fixpoint parse_digits (max acc : N) (l : list byte) : option N :=
  match l with
  | [] => Some acc
  | b :: l =>
    if is_ascii_digit b then
      let acc := 10 * acc + (n_of_byte b - 48) in if acc <=? max then parse_digits max acc l else None
    else None
  end.
Definition parse_uint (max : N) (l : list byte) : option N :=
  match l with
  | [] => None
  | b :: rest =>
    if bool_decide (b = chr "+") then if bool_decide (rest = []) then None else parse_digits max 0 rest
    else parse_digits max 0 l
  end.

(** [str::lines]: a line ends with a line feed, or a carriage return and a line
    feed; the last may end without. *)
Definition LF : byte := byte_of_n 10.
Definition CR : byte := byte_of_n 13.
Definition strip_cr (l : list byte) : list byte :=
  match last l with Some b => if bool_decide (b = CR) then removelast l else l | None => l end.
Fixpoint lines_of (parts : list (list byte)) : list (list byte) :=
  match parts with
  | [] => []
  | [rest] => if bool_decide (rest = []) then [] else [rest]
  | line :: parts => strip_cr line :: lines_of parts
  end.
Definition str_lines (l : list byte) : list (list byte) := lines_of (split_on LF l).

(** ** Applications and sessions *)

Inductive AppEndpointError := InvalidAppId | InvalidCapability | LeaseIo.
#[export] Instance AppEndpointError_eq_dec : EqDecision AppEndpointError.
Proof. solve_decision. Defined.

(** [AppId], always made by [app_id_new]. *)
Record AppId := mkAppId { app_text : list byte }.
#[export] Instance AppId_eq_dec : EqDecision AppId.
Proof. solve_decision. Defined.
Definition app_char (b : byte) : bool :=
  is_ascii_alphanumeric b || bool_decide (b = chr ".") || bool_decide (b = chr "-") || bool_decide (b = chr "_").
Definition app_id_new (value : list byte) : result AppEndpointError AppId :=
  reject bool_decide (value = []) || negb (forallb app_char value) with InvalidAppId;
  Ok (mkAppId value).

Record SessionIdentity := mkSessionIdentity { user_key : list byte; session_key : list byte }.
#[export] Instance SessionIdentity_eq_dec : EqDecision SessionIdentity.
Proof. solve_decision. Defined.
Definition or_else {A} (o1 o2 : option A) : option A := match o1 with Some _ => o1 | None => o2 end.
(** [SessionIdentity::current]; [env] is [std::env::var]. *)
Definition current_session (env : string -> option (list byte)) (pid : N) : SessionIdentity :=
  mkSessionIdentity
    (default (str "local-user") (or_else (env "USER") (env "USERNAME")))
    (default (str "pid-" ++ decimal pid) (or_else (env "XDG_SESSION_ID") (env "SESSIONNAME"))).

Record CapabilityOffer := mkCapability {
  cap_name : list byte;
  cap_protocol_version : N;
  cap_schema_version : N;
  cap_ready : bool;
}.
Definition capability_new (name : list byte) (protocol_version schema_version : N) (ready : bool)
    : result AppEndpointError CapabilityOffer :=
  reject bool_decide (name = []) with InvalidCapability;
  Ok (mkCapability name protocol_version schema_version ready).

(** [LocalAddress] is its text. *)
Record AppEndpointDescriptor := mkAppDescriptor {
  ad_app_id : AppId;
  ad_instance_id : list byte;
  ad_host_protocol_version : N;
  ad_endpoint_id : EndpointId;
  ad_address : list byte;
  ad_capabilities : list CapabilityOffer;
}.
Definition capability_ready (name : list byte) (protocol_version schema_version : N) (d : AppEndpointDescriptor)
    : bool :=
  existsb (fun c => bool_decide (cap_name c = name) && (cap_protocol_version c =? protocol_version)
                    && (cap_schema_version c =? schema_version) && cap_ready c) (ad_capabilities d).

(** ** Addresses *)

Definition NUL : byte := Byte.x00.
Definition sanitized (a : AppId) : list byte :=
  (fun b => if bool_decide (b = chr ".") then chr "-" else b) <$> app_text a.
(** The text that is hashed, in a domain. *)
Definition endpoint_text (domain : string) (a : AppId) (s : SessionIdentity) : list byte :=
  str domain ++ [NUL] ++ app_text a ++ [NUL] ++ user_key s ++ [NUL] ++ session_key s.

Definition first_half (l : vec byte 32) : vec byte 16 := (Vector.splitat 16 (l : vec byte (16 + 16))).1.

Section derived.
Context `{Sha256}.

Definition local_address_for_app (a : AppId) (s : SessionIdentity) : list byte :=
  let digest := vec_to_list (sha256 (endpoint_text "mutsuki.link.app.v1" a s)) in
  str "mutsuki.app." ++ sanitized a ++ str "." ++ hex_encode (take 8 digest).
Definition endpoint_id_for_app (a : AppId) (s : SessionIdentity) : EndpointId :=
  from_bytes (k := EndpointKind) (first_half (sha256 (endpoint_text "mutsuki.link.endpoint.v1" a s))).
End derived.

(** ** Leases *)

(** The lease directory, by file name. *)
Abbreviation LeaseDirectory := (gmap (list byte) (list byte)).
Definition lease_path (a : AppId) : list byte := sanitized a ++ str ".lease".
Definition pending_path (a : AppId) : list byte := sanitized a ++ str ".lease.pending".

Record EndpointLease := mkLease {
  el_app_id : AppId;
  el_instance_id : list byte;
  el_pid : N;
  el_created_unix_ms : N;
}.
Definition lease_text (l : EndpointLease) : list byte :=
  app_text (el_app_id l) ++ [LF] ++ el_instance_id l ++ [LF] ++ decimal (el_pid l) ++ [LF]
  ++ decimal (el_created_unix_ms l) ++ [LF].

(** How the calls of [create] end: a write that fails leaves what it says. *)
Record CreateCalls := mkCreateCalls {
  directory_created : bool;
  pending_written : option (option (list byte));
  pending_renamed : bool;
}.
(** A write succeeds ([None]), or fails and leaves a file or none. *)
Definition lease_create (calls : CreateCalls) (a : AppId) (instance : list byte) (pid now_ms : N)
    (d : LeaseDirectory) : LeaseDirectory * result AppEndpointError EndpointLease :=
  let lease := mkLease a instance pid now_ms in
  if negb (directory_created calls) then (d, Err LeaseIo)
  else
    match pending_written calls with
    | Some (Some partial) => (<[pending_path a := partial]> d, Err LeaseIo)
    | Some None => (d, Err LeaseIo)
    | None =>
      if pending_renamed calls then (<[lease_path a := lease_text lease]> (delete (pending_path a) d), Ok lease)
      else (<[pending_path a := lease_text lease]> d, Err LeaseIo)
    end.

(** [readable] is whether [read_to_string] can read the file. *)
Definition lease_parse (a : AppId) (payload : list byte) : option EndpointLease :=
  match str_lines payload with
  | app :: instance :: pid :: created :: _ =>
    pid ← parse_uint u32_max pid; created ← parse_uint u64_max created;
    if bool_decide (app = app_text a) then Some (mkLease a instance pid created) else None
  | _ => None
  end.
Definition lease_read (readable : bool) (a : AppId) (d : LeaseDirectory)
    : result AppEndpointError (option EndpointLease) :=
  match d !! lease_path a with
  | None => Ok None
  | Some payload =>
    reject negb readable || negb (utf8_valid payload) with LeaseIo;
    Ok (lease_parse a payload)
  end.

(** [exists_process] is what the platform says of a process id. *)
Definition process_exists (exists_process : N -> bool) (pid : N) : bool :=
  if pid =? 0 then false else exists_process pid.
Definition is_stale (exists_process : N -> bool) (l : EndpointLease) : bool :=
  negb (process_exists exists_process (el_pid l)).
(** [removed] is whether [remove_file] can remove a file that is there. *)
Definition lease_clear (removed : bool) (l : EndpointLease) (d : LeaseDirectory)
    : LeaseDirectory * result AppEndpointError () :=
  match d !! lease_path (el_app_id l) with
  | None => (d, Ok ())
  | Some _ =>
    if removed then (delete (lease_path (el_app_id l)) d, Ok ()) else (d, Err LeaseIo)
  end.
Definition reclaim_stale_lease (readable removed : bool) (exists_process : N -> bool) (a : AppId)
    (d : LeaseDirectory) : LeaseDirectory * result AppEndpointError bool :=
  match lease_read readable a d with
  | Err e => (d, Err e)
  | Ok None => (d, Ok false)
  | Ok (Some lease) =>
    if is_stale exists_process lease then
      let '(d, r) := lease_clear removed lease d in (d, _ ← r; Ok true)
    else (d, Ok false)
  end.
