(* ===== verification/AppEndpointFacts.v ===== *)
(** * Leases round trip and are reclaimed only from the dead; addresses identify *)

From S2P Require Export AppEndpoint KeyringFacts.
Local Open Scope N_scope.

(** ** Numbers in decimal *)

Lemma parse_digits_app max acc l1 l2 :
  parse_digits max acc (l1 ++ l2) = (acc ← parse_digits max acc l1; parse_digits max acc l2).
Proof.
  revert acc. induction l1 as [|b l1 IH]; intros acc; [done|]. cbn.
  destruct (is_ascii_digit b); [|done]. destruct (_ <=? max); [apply IH|done].
Qed.
Lemma digit_value n : n < 10 -> is_ascii_digit (digit n) = true /\ n_of_byte (digit n) = 48 + n.
Proof.
  intros Hn. unfold is_ascii_digit, in_range, digit. rewrite n_of_byte_of_n, N.mod_small by lia.
  split; [|done]. apply andb_true_iff. rewrite !N.leb_le. lia.
Qed.
Lemma parse_digit max acc n : n < 10 -> 10 * acc + n <= max -> parse_digits max acc [digit n] = Some (10 * acc + n).
Proof.
  intros Hn Hm. destruct (digit_value n Hn) as [Hd Hv]. cbn [parse_digits]. rewrite Hd, Hv.
  replace (10 * acc + (48 + n - 48)) with (10 * acc + n) by lia. by rewrite (proj2 (N.leb_le _ _)).
Qed.
(** The digits of [n], in front of [l]. *)
Lemma decimal_digits_spec fuel n l : n < 2 ^ N.of_nat fuel ->
  exists ds, decimal_digits (S fuel) n l = ds ++ l /\ ds <> [] /\ Forall (fun b => is_ascii_digit b = true) ds
    /\ forall max, n <= max -> parse_digits max 0 ds = Some n.
Proof.
  revert n l. induction fuel as [|fuel IH]; intros n l Hn; cbn [decimal_digits].
  - assert (n = 0) as -> by (cbn in Hn; lia). exists [digit 0]. split; [done|]. split; [done|].
    split; [by repeat constructor|]. intros max _. apply (parse_digit max 0 0); lia.
  - destruct (N.ltb_spec n 10) as [Hs|Hb].
    + exists [digit n]. rewrite N.mod_small by done. split; [done|]. split; [done|].
      split; [constructor; [by apply digit_value|constructor]|]. intros max Hm. apply (parse_digit max 0 n); lia.
    + assert (n / 10 < 2 ^ N.of_nat fuel) as Hq.
      { rewrite Nat2N.inj_succ, N.pow_succ_r' in Hn. apply N.Div0.div_lt_upper_bound. lia. }
      destruct (IH (n / 10) (digit (n mod 10) :: l) Hq) as (ds & E & Hne & Hds & Hp). cbn [decimal_digits] in E.
      assert (n mod 10 < 10) as Hr by (by apply N.mod_lt). 
      assert (10 * (n / 10) + n mod 10 = n) as Hqr by (by rewrite <- N.div_mod). clear Hn Hq.
      exists (ds ++ [digit (n mod 10)]). split; [rewrite <- app_assoc; exact E|]. split; [by destruct ds|].
      split; [apply Forall_app; split; [done|constructor; [by apply digit_value|constructor]]|].
      intros max Hm. assert (n / 10 <= max) by (revert Hqr Hm; generalize (n / 10) (n mod 10); lia).
      rewrite parse_digits_app, Hp by done. cbn [mbind option_bind]. rewrite parse_digit, Hqr; [done|done|by rewrite Hqr].
Qed.
Lemma decimal_spec n : decimal n <> [] /\ Forall (fun b => is_ascii_digit b = true) (decimal n)
  /\ forall max, n <= max -> parse_digits max 0 (decimal n) = Some n.
Proof.
  unfold decimal. destruct (decimal_digits_spec (N.to_nat (N.size n)) n []) as (ds & E & H).
  { rewrite N2Nat.id. apply N.size_gt. }
  by rewrite E, app_nil_r.
Qed.
Lemma parse_decimal max n : n <= max -> parse_uint max (decimal n) = Some n.
Proof.
  intros Hn. destruct (decimal_spec n) as (Hne & Hd & Hp). specialize (Hp max Hn). unfold parse_uint.
  destruct (decimal n) as [|b l]; [done|]. apply Forall_inv in Hd. case_bool_decide as E; [|done].
  rewrite E in Hd. vm_compute in Hd. discriminate.
Qed.

#[local] Arguments decimal : simpl never.

(** ** Lines *)

Lemma split_on_app c l1 l2 : c ∉ l1 -> split_on c (l1 ++ c :: l2) = l1 :: split_on c l2.
Proof.
  induction l1 as [|b l1 IH]; cbn [app split_on]; [by rewrite decide_True by done|].
  intros Hc. apply not_elem_of_cons in Hc as [Hb Hc]. rewrite decide_False by (by intros ->). by rewrite IH.
Qed.
Lemma utf8_valid_app l1 l2 : utf8_valid l1 = true -> utf8_valid (l1 ++ l2) = utf8_valid l2.
Proof.
  remember (length l1) as n eqn:En. assert (length l1 <= n)%nat as Hn by lia. clear En. revert l1 Hn.
  induction n as [|n IH]; intros [|b0 l0] Hn; cbn [length] in Hn; try done; try lia. cbn [app utf8_valid].
  destruct (in_range 0 127 b0); [apply IH; lia|].
  destruct l0 as [|b1 l1]; [done|]; cbn [length app] in *.
  destruct (in_range 194 223 b0); [intros [-> H]%andb_true_iff; apply IH; [lia|done]|].
  destruct l1 as [|b2 l1]; [done|]; cbn [length app] in *.
  repeat match goal with
  | |- context [in_range _ _ b0] => destruct (in_range _ _ b0)
  end; try (intros [[-> ->]%andb_true_iff H]%andb_true_iff; apply IH; [lia|done]);
  (destruct l1 as [|b3 l1]; [done|]; cbn [length app] in *); try done;
  intros [[[-> ->]%andb_true_iff ->]%andb_true_iff H]%andb_true_iff; (apply IH; [lia|done]).
Qed.
Lemma utf8_line l1 l2 : utf8_valid l1 = true -> utf8_valid (l1 ++ LF :: l2) = utf8_valid l2.
Proof. intros H. by rewrite utf8_valid_app. Qed.
Lemma strip_cr_id l : last l <> Some CR -> strip_cr l = l.
Proof. unfold strip_cr. destruct (last l) as [b|]; [|done]. case_bool_decide; [congruence|done]. Qed.

(** ** Application ids *)

Lemma app_char_not b c : app_char b = true -> app_char c = false -> b <> c.
Proof. intros Hb Hc ->. congruence. Qed.
Lemma app_id_chars v a : app_id_new v = Ok a ->
  app_text a = v /\ v <> [] /\ Forall (fun b => app_char b = true) v.
Proof.
  unfold app_id_new. case_bool_decide; [done|]. cbn [orb]. destruct (forallb app_char v) eqn:E; [|done].
  intros [= <-]. split_and!; [done..|]. rewrite forallb_forall in E.
  apply Forall_forall. intros b Hb. by apply E, list_elem_of_In.
Qed.
Lemma chars_without c l : Forall (fun b => app_char b = true) l -> app_char c = false -> c ∉ l.
Proof. intros Hl Hc Hin. rewrite Forall_forall in Hl. by apply (app_char_not c c (Hl c Hin) Hc). Qed.
Lemma digits_without c n : is_ascii_digit c = false -> c ∉ decimal n.
Proof.
  intros Hc Hin. destruct (decimal_spec n) as (_ & Hd & _). rewrite Forall_forall in Hd.
  specialize (Hd c Hin). cbn in Hd. congruence.
Qed.
Lemma not_last {A} (c : A) l : c ∉ l -> last l <> Some c.
Proof. intros Hc E. apply Hc. apply last_Some in E as [l' ->]. set_solver. Qed.
Lemma chars_ascii l : Forall (fun b => app_char b = true) l -> utf8_valid l = true.
Proof.
  intros Hl. apply utf8_valid_ascii, forallb_forall. intros b Hb. rewrite Forall_forall in Hl.
  specialize (Hl b ltac:(by apply list_elem_of_In)). cbn in Hl. revert Hl. clear. by destruct b.
Qed.
Lemma decimal_ascii n : utf8_valid (decimal n) = true.
Proof.
  destruct (decimal_spec n) as (_ & Hd & _). apply utf8_valid_ascii, forallb_forall. intros b Hb.
  rewrite Forall_forall in Hd. specialize (Hd b ltac:(by apply list_elem_of_In)). cbn in Hd. revert Hd. clear. by destruct b.
Qed.

(** A lease and a pending file never share a name. *)
Lemma lease_not_pending a b : lease_path a <> pending_path b.
Proof.
  unfold lease_path, pending_path. intros E. apply (f_equal last) in E. rewrite !last_app in E. vm_compute in E. discriminate.
Qed.

(** ** Leases *)

(** An instance id that a lease can hold. *)
Definition instance_ok (i : list byte) : Prop := (LF ∉ i) /\ (last i <> Some CR) /\ utf8_valid i = true.

Lemma lease_parse_text l v : app_id_new v = Ok (el_app_id l) -> instance_ok (el_instance_id l) ->
  el_pid l <= u32_max -> el_created_unix_ms l <= u64_max ->
  utf8_valid (lease_text l) = true /\ lease_parse (el_app_id l) (lease_text l) = Some l.
Proof.
  destruct l as [a i pid created]. cbn. intros Ha (Hlf & Hcr & Hu) Hp Hc.
  destruct (app_id_chars _ _ Ha) as (Et & _ & Hv). rewrite <- Et in Hv. unfold lease_text. cbn. split.
  - cbn [app]. by rewrite !utf8_line by (done || (by apply chars_ascii) || apply decimal_ascii).
  - unfold lease_parse, str_lines. cbn [app].
    rewrite !split_on_app by (done || (by apply chars_without) || by apply digits_without). cbn [split_on lines_of].
    rewrite !strip_cr_id by (done || (by apply not_last, chars_without) || by apply not_last, digits_without).
    rewrite !parse_decimal by done. cbn [mbind option_bind]. by rewrite bool_decide_true.
Qed.

Lemma lease_path_sanitized a b : sanitized a <> sanitized b -> lease_path a <> lease_path b.
Proof. intros H E. by apply app_inv_tail in E. Qed.
Lemma lease_read_put a b rd text d :
  lease_read rd b (<[pending_path a := text]> d) = lease_read rd b d
  /\ lease_read rd b (delete (pending_path a) d) = lease_read rd b d.
Proof.
  unfold lease_read. pose proof (not_eq_sym (lease_not_pending b a)).
  by rewrite lookup_insert_ne, lookup_delete_ne by done.
Qed.
Lemma reclaim_read a l alive d : lease_read true a d = Ok (Some l) -> el_app_id l = a ->
  reclaim_stale_lease true true alive a d
    = if process_exists alive (el_pid l) then (d, Ok false) else (delete (lease_path a) d, Ok true).
Proof.
  intros E <-. unfold reclaim_stale_lease, is_stale. rewrite E. destruct (process_exists _ _); [done|]. cbn [negb].
  unfold lease_clear, lease_read in *. by destruct (d !! _).
Qed.

(** C40: a lease is published whole or not at all.  Take an accepted application
    name, and an instance identity that is UTF-8, has no line feed and does not
    end in a carriage return ([instance_ok]; [newline_lease_reclaimed] shows
    what a line feed does).  Whatever the file system calls of
    [EndpointLease::create] answer: when it fails, every read of every lease of
    the directory answers as before; when it succeeds, [read] gives back exactly
    the lease that was made, [reclaim_stale_lease] leaves it alone while its
    process exists and removes exactly its file once the process is gone.  The
    leases of other applications are not touched, provided that their file name
    differs ([dotted_lease_replaced] shows two names with one file). *)
Theorem lease_roundtrip calls v a instance pid now d d' r :
  app_id_new v = Ok a -> instance_ok instance -> pid <= u32_max -> now <= u64_max ->
  lease_create calls a instance pid now d = (d', r) ->
  (forall b readable, sanitized b <> sanitized a -> lease_read readable b d' = lease_read readable b d)
  /\ match r with
     | Err e => e = LeaseIo /\ forall b readable, lease_read readable b d' = lease_read readable b d
     | Ok l => l = mkLease a instance pid now /\ lease_read true a d' = Ok (Some l)
         /\ forall alive, reclaim_stale_lease true true alive a d'
              = if process_exists alive pid then (d', Ok false) else (delete (lease_path a) d', Ok true)
     end.
Proof.
  intros Ha Hi Hp Hn. unfold lease_create. pose proof (lease_parse_text (mkLease a instance pid now) v Ha Hi Hp Hn) as [Hu Ht].
  assert (forall t b rd, lease_read rd b (<[pending_path a := t]> d) = lease_read rd b d) as Hput
    by (intros; apply lease_read_put).
  destruct (directory_created calls); [|by intros [= <- <-]]. cbn [negb].
  destruct (pending_written calls) as [[t|]|]; [by intros [= <- <-]; auto..|].
  destruct (pending_renamed calls); [|by intros [= <- <-]; auto]. intros [= <- <-].
  assert (lease_read true a (<[lease_path a := lease_text (mkLease a instance pid now)]> (delete (pending_path a) d))
          = Ok (Some (mkLease a instance pid now))) as Hread.
  { unfold lease_read. rewrite lookup_insert_eq, Hu. cbn [negb orb]. by rewrite <- Ht. }
  split_and!; [|done|done|intros alive; exact (reclaim_read a (mkLease a instance pid now) alive _ Hread eq_refl)].
  intros b rd Hb. rewrite <- (proj2 (lease_read_put a b rd [] d)). unfold lease_read at 1 2.
  by rewrite lookup_insert_ne by (apply lease_path_sanitized; congruence).
Qed.

(** Process 7 takes an endpoint in a directory with another's lease. *)
Definition example_app (s : string) : AppId := mkAppId (str s).
Definition example_leases : LeaseDirectory :=
  (lease_create (mkCreateCalls true None true) (example_app "other") (str "o") 3 4 ∅).1.
Lemma lease_roundtrip_witness :
  let '(d', r) := lease_create (mkCreateCalls true None true) (example_app "demo.app") (str "run-1") 7 1700000000000 example_leases in
  lease_read true (example_app "demo.app") d' = Ok (Some (mkLease (example_app "demo.app") (str "run-1") 7 1700000000000))
  /\ reclaim_stale_lease true true (fun p => p =? 7) (example_app "demo.app") d' = (d', Ok false).
Proof.
  assert (instance_ok (str "run-1")) as Hi by (split; [|split]; [exact (chars_without LF _ (proj2 (proj2 (app_id_chars (str "run-1") _ eq_refl))) eq_refl)|vm_compute; discriminate|reflexivity]).
  destruct (lease_create (mkCreateCalls true None true) (example_app "demo.app") (str "run-1") 7 1700000000000 example_leases)
    as [d' r] eqn:E.
  pose proof (lease_roundtrip (mkCreateCalls true None true) (str "demo.app") (example_app "demo.app") (str "run-1") 7
    1700000000000 example_leases d' r eq_refl Hi ltac:(vm_compute; discriminate) ltac:(vm_compute; discriminate) E) as [_ H].
  assert (r = Ok (mkLease (example_app "demo.app") (str "run-1") 7 1700000000000)) as ->
    by (apply (f_equal snd) in E; exact (eq_sym E)).
  destruct H as (_ & Hr & Hc). split; [exact Hr|exact (Hc (fun p => p =? 7))].
Defined.

(** A lease is removed only when it could be read and its process is gone;
    nothing else of the directory changes. *)
Lemma reclaim_sound readable removed alive a d d' r : reclaim_stale_lease readable removed alive a d = (d', r) ->
  (d' = d /\ r <> Ok true) \/
  exists l, lease_read readable a d = Ok (Some l) /\ process_exists alive (el_pid l) = false
    /\ ((d' = delete (lease_path a) d /\ r = Ok true) \/ (d' = d /\ r = Err LeaseIo)).
Proof.
  unfold reclaim_stale_lease, is_stale. destruct (lease_read _ _ _) as [[l|]|e] eqn:El; [|by intros [= <- <-]; auto..].
  assert (el_app_id l = a) as Ha.
  { revert El. unfold lease_read. destruct (d !! _) as [t|]; [|done]. destruct (_ || _); [done|]. intros [= E].
    unfold lease_parse in E. destruct (str_lines t) as [|x [|y [|z [|w l']]]]; try done.
    destruct (parse_uint _ z); [|done]. destruct (parse_uint _ w); [|done]. cbn in E. case_bool_decide; [|done].
    by injection E as <-. }
  destruct (process_exists _ _) eqn:Ep; [by intros [= <- <-]; auto|]. cbn [negb]. unfold lease_clear. rewrite Ha.
  assert (exists t, d !! lease_path a = Some t) as [t Et].
  { unfold lease_read in El. destruct (d !! _); [eauto|done]. }
  rewrite Et. destruct removed; intros [= <- <-]; right; exists l; auto.
Qed.

(** An instance id with a line feed shifts the fields: the process that is
    recorded is another one, and the lease of a process that lives is
    reclaimed. *)
Lemma newline_lease_reclaimed :
  let app := example_app "demo" in
  let '(d, r) := lease_create (mkCreateCalls true None true) app (str "x" ++ [LF] ++ str "0") 7 9 ∅ in
  r = Ok (mkLease app (str "x" ++ [LF] ++ str "0") 7 9)
  /\ lease_read true app d = Ok (Some (mkLease app (str "x") 0 7))
  /\ (reclaim_stale_lease true true (fun p => p =? 7) app d).2 = Ok true.
Proof. vm_compute. auto. Qed.

(** Two applications whose ids differ only in a dot and a dash share one file:
    the second takes the lease of the first from under it. *)
Lemma dotted_lease_replaced :
  let calls := mkCreateCalls true None true in
  let d1 := (lease_create calls (example_app "a.b") (str "one") 7 9 ∅).1 in
  let d2 := (lease_create calls (example_app "a-b") (str "two") 8 9 d1).1 in
  lease_read true (example_app "a.b") d1 = Ok (Some (mkLease (example_app "a.b") (str "one") 7 9))
  /\ lease_read true (example_app "a.b") d2 = Ok None.
Proof. vm_compute. auto. Qed.

(** ** Identities *)

Lemma split_unique (c : byte) l1 l2 m1 m2 : c ∉ l1 -> c ∉ l2 -> l1 ++ c :: m1 = l2 ++ c :: m2 -> l1 = l2 /\ m1 = m2.
Proof.
  revert l2. induction l1 as [|x l1 IH]; intros [|y l2] H1 H2 E; cbn in E.
  - by injection E as ->.
  - injection E as <- _. set_solver.
  - injection E as -> _. set_solver.
  - injection E as <- E. destruct (IH l2) as [-> ->]; [set_solver..|done].
Qed.
Lemma endpoint_text_inj domain v1 v2 a1 a2 s1 s2 :
  app_id_new v1 = Ok a1 -> app_id_new v2 = Ok a2 -> NUL ∉ user_key s1 -> NUL ∉ user_key s2 ->
  endpoint_text domain a1 s1 = endpoint_text domain a2 s2 -> a1 = a2 /\ s1 = s2.
Proof.
  intros (E1 & _ & H1)%app_id_chars (E2 & _ & H2)%app_id_chars U1 U2 E. unfold endpoint_text in E. cbn [app] in E.
  apply app_inv_head in E. injection E as E.
  apply split_unique in E as [Ea E]; [|rewrite E1; by apply chars_without|rewrite E2; by apply chars_without].
  apply split_unique in E as [Eu Es]; [|done|done]. destruct a1, a2, s1, s2; cbn in *. by subst.
Qed.

Lemma sanitized_chars a : Forall (fun b => app_char b = true) (app_text a) ->
  Forall (fun b => app_char b = true /\ b <> chr ".") (sanitized a).
Proof.
  intros H. unfold sanitized. rewrite Forall_fmap. eapply Forall_impl; [exact H|]. intros b Hb. cbn.
  case_bool_decide; [by split|done].
Qed.
Lemma sanitized_no_dot a : Forall (fun b => app_char b = true) (app_text a) -> chr "." ∉ sanitized a.
Proof. intros H%sanitized_chars Hin. rewrite Forall_forall in H. by destruct (H _ Hin). Qed.
Lemma hex_app_chars l : Forall (fun b => app_char b = true) (hex_encode l).
Proof.
  eapply Forall_impl; [apply hex_encode_chars|]. intros b (n & Hn & ->).
  assert (Forall (fun n => app_char (hex_digit n) = true) (N.of_nat <$> seq 0 16)) as H by (by repeat constructor).
  rewrite Forall_forall in H. apply H. apply list_elem_of_fmap. exists (N.to_nat n). rewrite elem_of_seq. lia.
Qed.
Lemma hex_encode_inj l1 l2 : hex_encode l1 = hex_encode l2 -> l1 = l2.
Proof.
  intros E. pose proof (f_equal length E) as El. rewrite !hex_encode_length in El.
  pose proof (decode_hex_encode l1) as H1. rewrite E in H1. replace (length l1) with (length l2) in H1 by lia.
  rewrite decode_hex_encode in H1. congruence.
Qed.

(** the endpoint id that [endpoint_id_for_app] derives tells applications
    and sessions apart: two of them have the same id only when application and
    session are the same, or when the 128-bit prefixes of SHA-256 collide on
    their two texts. And the address of [local_address_for_app] is one path
    segment of characters that application ids may have, whose length depends
    on the application alone; equal addresses have the same application up to
    dots and dashes, and the same 64-bit prefix. *)
Theorem app_endpoint_identity `{Sha256} v1 v2 a1 a2 s1 s2 :
  app_id_new v1 = Ok a1 -> app_id_new v2 = Ok a2 -> NUL ∉ user_key s1 -> NUL ∉ user_key s2 ->
  (endpoint_id_for_app a1 s1 = endpoint_id_for_app a2 s2 ->
     (a1 = a2 /\ s1 = s2) \/
     (endpoint_text "mutsuki.link.endpoint.v1" a1 s1 <> endpoint_text "mutsuki.link.endpoint.v1" a2 s2
      /\ first_half (sha256 (endpoint_text "mutsuki.link.endpoint.v1" a1 s1))
         = first_half (sha256 (endpoint_text "mutsuki.link.endpoint.v1" a2 s2))))
  /\ Forall (fun b => app_char b = true) (local_address_for_app a1 s1)
  /\ length (local_address_for_app a1 s1) = (29 + length v1)%nat
  /\ (local_address_for_app a1 s1 = local_address_for_app a2 s2 ->
      sanitized a1 = sanitized a2
      /\ take 8 (vec_to_list (sha256 (endpoint_text "mutsuki.link.app.v1" a1 s1)))
         = take 8 (vec_to_list (sha256 (endpoint_text "mutsuki.link.app.v1" a2 s2)))).
Proof.
  intros Ha1 Ha2 U1 U2. split.
  { intros E. apply (f_equal (fun i : EndpointId => (as_bytes i : vec byte 16))) in E.
    destruct (decide (endpoint_text "mutsuki.link.endpoint.v1" a1 s1 = endpoint_text "mutsuki.link.endpoint.v1" a2 s2)) as [Et|Hne].
    - left. exact (endpoint_text_inj _ _ _ _ _ _ _ Ha1 Ha2 U1 U2 Et).
    - right. split; [exact Hne|exact E]. }
  destruct (app_id_chars _ _ Ha1) as (E1 & _ & H1), (app_id_chars _ _ Ha2) as (E2 & _ & H2). rewrite <- E1 in *.
  rewrite <- E2 in *. unfold local_address_for_app. split_and!.
  - rewrite !Forall_app. split_and!; [by repeat constructor| |by repeat constructor|apply hex_app_chars].
    eapply Forall_impl; [by apply sanitized_chars|]. by intros b [? _].
  - rewrite !length_app, hex_encode_length, length_take, length_vec_to_list. unfold sanitized. rewrite length_fmap. cbn. lia.
  - intros E%app_inv_head. apply split_unique in E as [Es Eh]; [|by apply sanitized_no_dot..].
    split; [done|]. by apply hex_encode_inj.
Qed.
Lemma app_endpoint_identity_witness : let H : Sha256 := fun l => Vector.const (byte_of_n (len l)) 32 in
  let s := mkSessionIdentity (str "alice") (str "1") in
  sanitized (example_app "a.b") = sanitized (example_app "a-b")
  /\ length (local_address_for_app (example_app "a.b") s) = 32%nat.
Proof.
  intros H s. assert (NUL ∉ user_key s) as U
    by exact (chars_without NUL _ (proj2 (proj2 (app_id_chars (str "alice") _ eq_refl))) eq_refl).
  destruct (app_endpoint_identity (str "a.b") (str "a-b") (example_app "a.b") (example_app "a-b") s s eq_refl eq_refl U U)
    as (_ & _ & Hl & Hs).
  split; [apply Hs; vm_compute; reflexivity|exact Hl].
Defined.
