(* ===== verification/Mdns.v ===== *)
(** * The mDNS discovery provider

    Models [MdnsDiscovery] of [mutsuki-link-discovery].  The crate [mdns_sd] is
    a parameter: a class of what the source asks of its daemon, over a world
    [W] that every call may change; the events a poll can take from the
    receiver are an argument.  Instants are points of a monotonic clock. *)

From S2P Require Export DiscoveryFacts AppEndpoint Step.
Local Open Scope N_scope.

(** ** What is asked of mdns_sd *)

(** Of a resolved service, what the source reads: [rs_addresses] are the texts
    of its addresses, [rs_transport] the value of its property [t]. *)
Record ResolvedService := mkResolved {
  rs_fullname : list byte;
  rs_ty_domain : list byte;
  rs_port : N;
  rs_addresses : list (list byte);
  rs_transport : option (list byte);
}.
Inductive ServiceEvent :=
| ServiceResolved (info : ResolvedService)
| ServiceRemoved (ty_domain fullname : list byte)
| SearchStopped (ty_domain : list byte)
| OtherServiceEvent.

Class ServiceDaemon (Info W : Type) := {
  service_info_new : list byte -> list byte -> list byte -> list byte -> N -> list (list byte * list byte)
                     -> result () Info;
  enable_addr_auto : Info -> Info;
  get_fullname : Info -> list byte;
  daemon_register : Info -> W -> W * result () ();
  daemon_unregister : list byte -> W -> W * result () ();
  daemon_browse : list byte -> W -> W * result () ();
  daemon_stop_browse : list byte -> W -> W * result () ();
  daemon_shutdown : W -> W;
}.

(** ** Candidate ids *)

Definition FNV_PRIME : N := 1099511628211.
Definition rotate_left_1 (b : byte) : N := (2 * n_of_byte b) mod 256 + n_of_byte b / 128.
(** [(lane ^ byte).wrapping_mul(prime)] *)
Definition fnv_step (lane b : N) : N := N.lxor lane b * FNV_PRIME mod 2 ^ 64.
Definition id_lanes (name : list byte) : N * N :=
  fold_left (fun p b => (fnv_step p.1 (n_of_byte b), fnv_step p.2 (rotate_left_1 b))) name
    (14695981039346656037, 9521211207457086692).
Definition u64_be_bytes (x : N) : vec byte 8 :=
  vmap (fun k => byte_of_n (x / 256 ^ k)) [# 7; 6; 5; 4; 3; 2; 1; 0].
Definition id_from_name (name : list byte) : DiscoveryId :=
  let lanes := id_lanes name in
  mkDiscoveryId (Vector.append (u64_be_bytes lanes.1) (u64_be_bytes lanes.2)).

(** ** The provider *)

Definition provider_error : DiscoveryError := mkDiscoveryError ProviderFailure "mDNS provider operation failed".
Definition mdns_not_running : DiscoveryError := mkDiscoveryError NotRunning "mDNS discovery is not running".

(** Of the receiver, only whether there is one. *)
Record MdnsDiscovery := mkMdns {
  mn_receiver : bool;
  mn_request : option DiscoveryRequest;
  mn_ttl : N;
  mn_limiter : AttemptRateLimiter;
  mn_resolved : gmap (list byte) DiscoveryId;
}.
(** [daemon] is whether [ServiceDaemon::new] succeeds. *)
Definition mdns_new (ttl : N) (limit : RateLimit) (daemon : bool) : result DiscoveryError MdnsDiscovery :=
  reject ttl =? 0 with mkDiscoveryError DiInvalidInput "mDNS TTL must be positive";
  reject negb daemon with provider_error;
  limiter ← attempt_limiter_new limit;
  Ok (mkMdns false None ttl limiter ∅).

Definition QUIC_CLASS : list byte := str "quic".
Definition mdns_endpoint (transport : list byte) (port : N) (address : list byte) : DiscoveredEndpoint :=
  mkDiscoveredEndpoint (mkEndpoint transport (address ++ str ":" ++ decimal port)) 100
    (if bool_decide (transport = QUIC_CLASS) then AuthenticatedEncrypted else Plaintext).
(** What is announced of a resolved service. *)
Definition mdns_candidate (expires_at : N) (info : ResolvedService) : DiscoveredPeer :=
  let transport := default (str "tcp") (rs_transport info) in
  mkDiscoveredPeer (id_from_name (rs_fullname info)) (rs_ty_domain info)
    (mdns_endpoint transport (rs_port info) <$> rs_addresses info) expires_at.

(** One event of the receiver. *)
Definition mdns_take (expires_at : N) (x : ServiceEvent) (resolved : gmap (list byte) DiscoveryId)
    : gmap (list byte) DiscoveryId * list DiscoveryEvent :=
  match x with
  | ServiceResolved info =>
    (<[rs_fullname info := id_from_name (rs_fullname info)]> resolved, [DeFound (mdns_candidate expires_at info)])
  | ServiceRemoved _ fullname =>
    match resolved !! fullname with
    | Some id => (delete fullname resolved, [DeExpired id])
    | None => (resolved, [])
    end
  | SearchStopped _ => (resolved, [DeStopped])
  | OtherServiceEvent => (resolved, [])
  end.
(** The loop of [poll]: what is left of the receiver's events, and its results. *)
Fixpoint mdns_loop (max expires_at : N) (ready : list ServiceEvent) (resolved : gmap (list byte) DiscoveryId)
    (events : list DiscoveryEvent)
    : gmap (list byte) DiscoveryId * list ServiceEvent * list DiscoveryEvent :=
  if len events <? max then
    match ready with
    | [] => (resolved, [], events)
    | x :: ready =>
      let '(resolved, new) := mdns_take expires_at x resolved in
      mdns_loop max expires_at ready resolved (events ++ new)
    end
  else (resolved, ready, events).

Definition is_candidate (e : DiscoveryEvent) : bool := match e with DeFound _ => true | _ => false end.

Section mdns.
Context {Info W : Type} `{ServiceDaemon Info W}.
Abbreviation mdns := (estep DiscoveryError (MdnsDiscovery * W)).

Definition mn_get {A} (f : MdnsDiscovery -> A) : mdns A := get_state (fun s => f s.1).
Definition mn_set (f : MdnsDiscovery -> MdnsDiscovery) : mdns () := update (fun s => (f s.1, s.2)).
(** A call of the daemon, with [.map_err(provider_error)?]. *)
Definition daemon_call (f : W -> W * result () ()) : mdns () := fun s =>
  let '(w, r) := f s.2 in Some ((s.1, w), map_err (fun _ => provider_error) r).

Definition advertise (service_type instance_token host_token : list byte) (port protocol_major : N)
    (transport : list byte) : mdns (list byte) :=
  service ← try_with (map_err (fun _ => provider_error)
    (service_info_new service_type instance_token host_token [] port
       [(str "v", decimal protocol_major); (str "t", transport)]));
  let service := enable_addr_auto service in
  let fullname := get_fullname service in
  daemon_call (daemon_register service);; mret fullname.
Definition mdns_unregister (fullname : list byte) : mdns () := daemon_call (daemon_unregister fullname).

Definition mdns_start (r : DiscoveryRequest) (now : N) : mdns () :=
  request ← mn_get mn_request;
  refuse (bool_decide (is_Some request)) (mkDiscoveryError AlreadyRunning "mDNS discovery is already running");;
  try_with (discovery_validate_request r);;
  allowed ← mn_get (fun d => allow (dr_service_type r) now (mn_limiter d));
  mn_set (fun d => d <|mn_limiter := allowed.1|>);;
  refuse (negb allowed.2) (mkDiscoveryError DiRateLimited "mDNS discovery request was rate limited");;
  daemon_call (daemon_browse (dr_service_type r));;
  mn_set (fun d => d <|mn_receiver := true|> <|mn_request := Some r|>).

(** [ready]: what the receiver gives during the poll; what is left of it is
    returned too.  The instant of expiry is computed for each candidate, and
    panics when it overflows. *)
Definition mdns_poll (now : N) (ready : list ServiceEvent) : mdns (list DiscoveryEvent * list ServiceEvent) :=
  request ← mn_get mn_request; request ← try_with (ok_or mdns_not_running request);
  receiver ← mn_get mn_receiver;
  if negb receiver then panics else
  looped ← mn_get (fun d =>
    mdns_loop (max_results_per_poll request) (now + mn_ttl d) ready (mn_resolved d) []);
  ttl ← mn_get mn_ttl;
  if bool_decide (instant_add now ttl = None) && existsb is_candidate looped.2 then panics else
  mn_set (fun d => d <|mn_resolved := looped.1.1|>);;
  mret (looped.2, looped.1.2).

Definition mdns_stop : mdns () :=
  request ← mn_get mn_request;
  mn_set (fun d => d <|mn_request := None|>);;
  request ← try_with (ok_or mdns_not_running request);
  daemon_call (daemon_stop_browse (dr_service_type request));;
  mn_set (fun d => d <|mn_receiver := false|> <|mn_resolved := ∅|>).
(** Dropping the provider; how the calls end is ignored. *)
Definition mdns_drop : mdns () :=
  request ← mn_get mn_request;
  mn_set (fun d => d <|mn_request := None|>);;
  match request with
  | Some request => update (fun s => (s.1, (daemon_stop_browse (dr_service_type request) s.2).1))
  | None => mret ()
  end;;
  update (fun s => (s.1, daemon_shutdown s.2)).

(** ** Runs *)

Inductive mdns_call :=
| MnStart (r : DiscoveryRequest) (now : N)
| MnPoll (now : N) (ready : list ServiceEvent)
| MnStop
| MnAdvertise (service_type instance_token host_token : list byte) (port protocol_major : N) (transport : list byte)
| MnUnregister (fullname : list byte).
Definition mdns_do (x : mdns_call) : mdns (list DiscoveryEvent) :=
  match x with
  | MnStart r now => mdns_start r now;; mret []
  | MnPoll now ready => p ← mdns_poll now ready; mret p.1
  | MnStop => mdns_stop;; mret []
  | MnAdvertise t i h p v c => _ ← advertise t i h p v c; mret []
  | MnUnregister n => mdns_unregister n;; mret []
  end.
(** The calls, each with the request that was running and what it reports; an
    error reports nothing. *)
Fixpoint mdns_run (xs : list mdns_call) (s : MdnsDiscovery * W)
    : option (MdnsDiscovery * W * list (option DiscoveryRequest * mdns_call * list DiscoveryEvent)) :=
  match xs with
  | [] => Some (s, [])
  | x :: xs =>
    let request := mn_request s.1 in
    '(s, r) ← mdns_do x s;
    '(s, h) ← mdns_run xs s;
    Some (s, (request, x, match r with Ok events => events | Err _ => [] end) :: h)
  end.
End mdns.

(** ** What the provider reports was found, and polls are bounded *)

(** The ids found, and that an id is reported as expired only after it was. *)
Definition noted (e : DiscoveryEvent) (F : gset DiscoveryId) : gset DiscoveryId :=
  match e with DeFound p => {[dp_discovery_id p]} ∪ F | _ => F end.
Definition noted_all (es : list DiscoveryEvent) (F : gset DiscoveryId) : gset DiscoveryId :=
  fold_left (fun F e => noted e F) es F.
Fixpoint justified (F : gset DiscoveryId) (es : list DiscoveryEvent) : Prop :=
  match es with
  | [] => True
  | e :: es => match e with DeExpired id => id ∈ F | _ => True end /\ justified (noted e F) es
  end.
Lemma justified_app F es1 es2 : justified F (es1 ++ es2) <-> justified F es1 /\ justified (noted_all es1 F) es2.
Proof.
  revert F. induction es1 as [|e es1 IH]; intros F; cbn [app justified]; [by split; [|intros [_ ?]]|].
  rewrite IH. unfold noted_all. cbn [fold_left]. tauto.
Qed.
Lemma noted_all_app es1 es2 F : noted_all (es1 ++ es2) F = noted_all es2 (noted_all es1 F).
Proof. apply fold_left_app. Qed.

Definition known (F : gset DiscoveryId) (resolved : gmap (list byte) DiscoveryId) : Prop :=
  forall name id, resolved !! name = Some id -> id ∈ F.
(** A candidate is one of a service resolved in the poll. *)
Definition of_services (expires_at : N) (ready : list ServiceEvent) (e : DiscoveryEvent) : Prop :=
  match e with
  | DeFound p => exists info, ServiceResolved info ∈ ready /\ p = mdns_candidate expires_at info
  | _ => True
  end.

Lemma take_sound F expires_at x resolved : known F resolved ->
  let '(resolved', new) := mdns_take expires_at x resolved in
  known (noted_all new F) resolved' /\ justified F new /\ len new <= 1
  /\ Forall (of_services expires_at [x]) new.
Proof.
  intros Hk. destruct x as [info|ty name|ty|]; cbn [mdns_take].
  - split_and!; [|done|done|].
    + intros n id [[<- <-]|[_ Hn]]%lookup_insert_Some; cbn; [set_solver|]. apply Hk in Hn. set_solver.
    + constructor; [|done]. cbn. exists info. set_solver.
  - destruct (resolved !! name) as [id|] eqn:E; [|by split_and!].
    split_and!; [|by split; [exact (Hk name id E)|]|done|by repeat constructor].
    intros n i [_ Hn]%lookup_delete_Some. exact (Hk n i Hn).
  - split_and!; [done..|by repeat constructor].
  - by split_and!.
Qed.
Lemma loop_sound F max expires_at ready : forall resolved es, known (noted_all es F) resolved -> justified F es ->
  len es <= max ->
  let '(resolved', rest, es') := mdns_loop max expires_at ready resolved es in
  exists taken new, ready = taken ++ rest /\ es' = es ++ new /\ known (noted_all es' F) resolved' /\ justified F es'
    /\ len es' <= max /\ (rest = [] \/ len es' = max) /\ Forall (of_services expires_at taken) new.
Proof.
  induction ready as [|x ready IH]; intros resolved es Hk Hj Hm; cbn [mdns_loop]; destruct (N.ltb_spec (len es) max).
  - exists [], []. rewrite !app_nil_r. split_and!; auto.
  - exists [], []. rewrite !app_nil_r. split_and!; auto.
  - pose proof (take_sound (noted_all es F) expires_at x resolved Hk) as Ht. destruct (mdns_take _ _ _) as [resolved' new].
    destruct Ht as (Hk' & Hj' & Hl & Hf).
    specialize (IH resolved' (es ++ new)). destruct (mdns_loop _ _ _ _ _) as [[r2 rest] es2].
    destruct IH as (taken & new2 & -> & -> & H1 & H2 & H3 & H4 & H5).
    { by rewrite noted_all_app. } { by apply justified_app. } { rewrite length_app. lia. }
    exists (x :: taken), (new ++ new2). rewrite app_assoc. split_and!; try done.
    apply Forall_app. split; (eapply Forall_impl; [eassumption|]); intros [p| |]; try done; intros (i & Hi & ->); exists i; set_solver.
  - exists [], []. rewrite !app_nil_r. split_and!; auto. right. lia.
Qed.

Section facts.
Context {Info W : Type} `{ServiceDaemon Info W}.

(** What holds between calls, when the ids in [F] were found. *)
Definition mdns_ok (ttl : N) (F : gset DiscoveryId) (s : MdnsDiscovery * W) : Prop :=
  known F (mn_resolved s.1) /\ mn_ttl s.1 = ttl /\ (is_Some (mn_request s.1) -> mn_receiver s.1 = true).
(** A call reports what it may: candidates of its services, at most as many
    events as were asked for; the other calls, and polls while no discovery
    runs, report nothing. *)
Definition reported (ttl : N) (request : option DiscoveryRequest) (x : mdns_call) (es : list DiscoveryEvent) : Prop :=
  match x with
  | MnPoll now ready =>
    match request with
    | Some r => Forall (of_services (now + ttl) ready) es /\ len es <= max_results_per_poll r
    | None => es = []
    end
  | _ => es = []
  end.
Definition events_of (r : result DiscoveryError (list DiscoveryEvent)) : list DiscoveryEvent :=
  match r with Ok es => es | Err _ => [] end.

Lemma wp_daemon_call f s (Q : MdnsDiscovery * W -> result DiscoveryError () -> Prop) :
  (forall w r, Q (s.1, w) r) -> step_wp (daemon_call f) s Q.
Proof. intros HQ. unfold step_wp, daemon_call. destruct (f s.2) as [w r]. apply HQ. Qed.

(** The calls but [poll] find and report nothing. *)
Lemma quiet_sound ttl F x s : mdns_ok ttl F s -> (forall now ready, x <> MnPoll now ready) ->
  step_wp (mdns_do x) s (fun s' r => mdns_ok ttl F s' /\ events_of r = []).
Proof.
  unfold mdns_ok. intros (Hk & Ht & Hr) Hx.
  destruct x as [r now|now ready| |t i h p v c|n]; cbn [mdns_do]; [|by destruct (Hx now ready)|..].
  - apply wp_bind. unfold mdns_start, mn_get, mn_set. do 2 wp_split. wp_split. wp_split; [by split|].
    apply wp_bind, wp_try. destruct (discovery_validate_request r); [|by split].
    do 2 wp_split. do 2 wp_split. wp_split. wp_split; [by split_and!|].
    wp_split. apply wp_daemon_call. intros w [[]|e]; [|by split_and!]. wp_split. wp_split. by split_and!.
  - apply wp_bind. unfold mdns_stop, mn_get, mn_set. do 2 wp_split. do 2 wp_split. apply wp_bind, wp_try.
    destruct (mn_request s.1) as [r|]; cbn [ok_or]; [|split_and!; (done || by intros [? [=]])].
    wp_split. apply wp_daemon_call. intros w [[]|e]; cbv beta iota; [|split_and!; (done || by intros [? [=]])].
    wp_split. wp_split. split_and!; (done || by intros [? [=]]).
  - apply wp_bind. unfold advertise. apply wp_bind, wp_try.
    destruct (service_info_new _ _ _ _ _ _); cbn [map_err]; [|by split]. wp_split. apply wp_daemon_call.
    intros w [[]|e]; [wp_split; wp_split|]; by split_and!.
  - apply wp_bind. unfold mdns_unregister. apply wp_daemon_call. intros w [[]|e]; [wp_split|]; by split_and!.
Qed.
(** The candidates of a poll expire at instants that exist. *)
Definition expiry_fits (ttl : N) (x : mdns_call) : Prop :=
  match x with MnPoll now _ => is_Some (instant_add now ttl) | _ => True end.
Lemma do_sound ttl F x s : mdns_ok ttl F s -> expiry_fits ttl x ->
  step_wp (mdns_do x) s (fun s' r => mdns_ok ttl (noted_all (events_of r) F) s' /\ justified F (events_of r)
    /\ reported ttl (mn_request s.1) x (events_of r)).
Proof.
  intros Hok Hfit. destruct x as [r now|now ready| | |].
  2:{ unfold mdns_ok. destruct Hok as (Hk & Ht & Hr). cbn [mdns_do]. apply wp_bind. unfold mdns_poll, mn_get, mn_set.
      do 2 wp_split. apply wp_bind, wp_try. destruct (mn_request s.1) as [r|] eqn:E; cbn [ok_or].
      2:{ split_and!; (done || (rewrite E; by intros [? [=]])). }
      do 2 wp_split. rewrite Hr by eauto. cbn [negb]. do 2 wp_split.
      pose proof (loop_sound F (max_results_per_poll r) (now + mn_ttl s.1) ready (mn_resolved s.1) [] Hk I) as Hl.
      destruct (mdns_loop _ _ _ _ _) as [[resolved rest] es].
      destruct Hl as (taken & new & -> & -> & H1 & H2 & H3 & H4 & H5); [cbn; lia|].
      do 2 wp_split. destruct Hfit as [t Hfit]. rewrite Ht, Hfit, bool_decide_eq_false_2 by done.
      cbn [andb]. do 2 wp_split. wp_split. cbn. rewrite E, <- ?Ht. split; [by split_and!; [..|intros _; rewrite Hr; eauto]|].
      split; [done|]. split; [|done]. eapply Forall_impl; [exact H5|]. intros [p| |]; try done.
      intros (info & Hi & ->). exists info. set_solver. }
  all: (eapply step_wp_mono; [by apply quiet_sound|]); intros s' r' [Ho ->]; by split_and!.
Qed.

(** Every report of a run is as it may be, for the request that was running. *)
Lemma run_sound ttl xs : forall F s, mdns_ok ttl F s -> Forall (expiry_fits ttl) xs -> exists s' h, mdns_run xs s = Some (s', h)
  /\ justified F (concat h.*2)
  /\ Forall (fun '(request, x, es) => reported ttl request x es) h.
Proof.
  induction xs as [|x xs IH]; intros F s Hok Hf; cbn [mdns_run]; [by exists s, []|].
  apply Forall_cons in Hf as [Hfit Hf]. pose proof (do_sound ttl F x s Hok Hfit) as (s1 & r & E & Hok1 & Hj & Hrep)%step_wp_iff.
  destruct (IH _ s1 Hok1 Hf) as (s' & h & E' & Hjs & Hreps). rewrite E. cbn. rewrite E'. cbn. fold (events_of r).
  exists s', ((mn_request s.1, x, events_of r) :: h). split; [done|]. cbn. split; [by apply justified_app|].
  by constructor.
Qed.

(** As long as the candidates of its polls expire at instants that exist, no
    call of an mDNS provider panics. Whatever its daemon answers, an id is
    reported as expired only after a candidate with that id was found; every
    candidate is one of a service that the poll took from the daemon, with the
    id of its name and an expiry [ttl] after the poll; and a poll reports at
    most as many events as the running request admits. *)
Theorem mdns_reports_sound limit ttl d xs (w : W) :
  mdns_new ttl limit true = Ok d -> Forall (expiry_fits ttl) xs ->
  exists s h, mdns_run xs (d, w) = Some (s, h) /\ justified ∅ (concat h.*2)
    /\ Forall (fun '(request, x, es) => reported ttl request x es) h.
Proof.
  unfold mdns_new. intros Hn Hf. inv_ok. guards. apply run_sound; [|done]. unfold mdns_ok. split_and!; (done || by intros [? [=]]).
Qed.
End facts.

(** An IPv6 address is joined to the port without brackets: the text of the
    address [::1] at port 9000 is that of the address [::1:9000]. *)
Lemma ipv6_candidate_ambiguous :
  ep_address (de_address (mdns_endpoint (str "tcp") 9000 (str "::1"))) = str "::1:9000".
Proof. reflexivity. Qed.
