(* ===== verification/TransportSuite.v ===== *)
(** * The behavioural suite of the transports

    Models [mutsuki-link-transport-testkit]: a handshake, a session with two
    channels and the end of the session, over the two connections of a
    transport.  An assertion that fails, an [unwrap] of an error and any other
    panic are [None].  The suite passes over every transport that carries
    messages; that of the in-memory transport is not one. *)

From S2P Require Import ControlCodecFacts.
From S2P Require Export Session FramedProps.
Local Open Scope N_scope.

Definition unwrap {E A} (r : result E A) : option A :=
  match r with Ok x => Some x | Err _ => None end.
(** A method that changes its receiver, unwrapped. *)
Definition unwrap_with {S E A} (r : S * result E A) : option (S * A) :=
  x ← unwrap r.2; Some (r.1, x).

(** ** Fixtures *)

Section fixtures.
Context `{Sha256}.

Definition kit_identity (value : N) : Identity :=
  mkIdentity (id_of PeerKind value) (id_of EndpointKind value) (id_of ConnectionKind value).
Definition kit_offer (namespace : list byte) : ProtocolOffer :=
  from_debug_namespace namespace (mkRange (mkVersion 1 0) (mkVersion 1 3)).
Definition kit_config (value session : N) (protocols : list ProtocolOffer) : HandshakeConfig :=
  mkHsConfig (kit_identity value)
    (mkPolicy (mkRange (mkVersion 1 0) (mkVersion 1 2))
       (caps_bitor (caps_bitor CAP_COMPACT_CHANNEL_ID CAP_DATAGRAMS) CAP_TYPED_CONTROL)
       protocols protocols true ∅ 8 128)
    (vreplicate 32 (byte_of_n value)) (mkProof (replicate 32 (byte_of_n value))) (id_of SessionKind session).
Definition kit_envelope (session : NegotiatedSession) (channel : ChannelConfig) (payload : list byte) : Envelope :=
  mkEnv (ns_session_id session) (cfg_id channel) (cfg_generation channel) 1 0 (mkEnvFlags false false) payload.

Definition kit_descriptor (o : ProtocolOffer) : ProtocolDescriptor :=
  let is_stream := match offer_debug_identity o with
                   | Some identity => bool_decide (name identity = str "lilia")
                   | None => false
                   end in
  mkDescriptor (offer_stable_id o) (offer_debug_identity o) (offer_versions o) (offer_schema o)
    (offer_capabilities o)
    [mkChannelDescriptor 1 None (if is_stream then Stream else RequestResponse) (if is_stream then 1 else 10)
       64 (if is_stream then Some 1024 else None) 1 false].
Fixpoint kit_register (offers : list ProtocolOffer) (r : ProtocolRegistry) : option ProtocolRegistry :=
  match offers with
  | [] => Some r
  | o :: offers => '(r, _) ← unwrap_with (register r (kit_descriptor o)); kit_register offers r
  end.
Definition kit_registry (offers : list ProtocolOffer) : option FrozenProtocolRegistry :=
  r ← unwrap (registry_new default_registry_limits); r ← kit_register offers r; Some (freeze r).
End fixtures.

(** [sent] and [established]. *)
Definition sent (outputs : list HandshakeOutput) : option HandshakeFrame :=
  head (omap (fun o => match o with Send frame => Some frame | _ => None end) outputs).
Definition established (outputs : list HandshakeOutput) : option NegotiatedSession :=
  head (omap (fun o => match o with OutEstablished session => Some session | _ => None end) outputs).

(** ** The suite

    [T] is what lies between the client, the left end, and the server:
    [transmit] brings a frame of the handshake from an end to the other,
    [carry] a message from the client to the server, sent as control or not. *)

Section suite.
Context `{Sha256} {T : Type}
  (transmit : pair_end -> HandshakeFrame -> T -> option (T * HandshakeFrame))
  (carry : bool -> list byte -> T -> option (T * list byte)).

Definition kit_receive_frame (m : HandshakeMachine) (frame : HandshakeFrame)
    : option (HandshakeMachine * list HandshakeOutput) :=
  r ← receive m frame; unwrap_with r.

Definition suite_handshake (offers : list ProtocolOffer) (t : T) : option (T * NegotiatedSession) :=
  '(i, hello) ← unwrap_with (start (initiator (kit_config 1 0 offers)) FirstPairing);
  let r := responder (kit_config 2 9 offers) in
  '(t, hello) ← transmit LeftEnd hello t;
  '(r, out) ← kit_receive_frame r hello;
  challenge ← sent out;
  '(t, challenge) ← transmit RightEnd challenge t;
  '(i, out) ← kit_receive_frame i challenge;
  proof ← sent out;
  '(t, proof) ← transmit LeftEnd proof t;
  '(r, out) ← kit_receive_frame r proof;
  _ ← match out with VerifyIdentity _ :: _ => Some () | _ => None end;
  '(r, out) ← unwrap_with (decide_identity r Accept);
  selection ← sent out;
  '(t, selection) ← transmit RightEnd selection t;
  '(i, out) ← kit_receive_frame i selection;
  confirmation ← sent out;
  '(t, confirmation) ← transmit LeftEnd confirmation t;
  '(r, responder_outputs) ← kit_receive_frame r confirmation;
  confirmed ← sent responder_outputs;
  '(t, confirmed) ← transmit RightEnd confirmed t;
  '(i, initiator_outputs) ← kit_receive_frame i confirmed;
  negotiated ← established initiator_outputs;
  other_side ← established responder_outputs;
  if bool_decide (ns_session_id other_side = ns_session_id negotiated) then Some (t, negotiated) else None.

Definition kit_mux_limits : MultiplexerLimits := mkMuxLimits 64 4 4 2 2.

(** [while let Some(frame) = next_outbound()]. *)
Fixpoint suite_drain (fuel : nat) (s : Session) (t : T) : option (T * Session) :=
  match fuel with
  | O => None
  | S fuel =>
    match plane_next_outbound s with
    | (s, None) => Some (t, s)
    | (s, Some frame) =>
      let payload := match frame with ControlFrame p => p | DataFrame e => env_payload e end in
      '(t, got) ← carry false payload t;
      if bool_decide (got = payload) then suite_drain fuel s t else None
    end
  end.

(** The session that carries a frame of each kind, then drains. *)
Definition suite_session (negotiated : NegotiatedSession) (s : Session) (data control : ValidatedChannel) (t : T)
    : option (T * ()) :=
  '(s, _) ← unwrap_with (open_validated_channel s data);
  '(s, _) ← unwrap_with (open_validated_channel s control);
  '(s, _) ← unwrap_with (plane_enqueue s (kit_envelope negotiated (vc_config data) (str "bulk")));
  '(s, _) ← unwrap_with (plane_enqueue s (kit_envelope negotiated (vc_config control) (str "status")));
  '(s, _) ← unwrap_with (plane_enqueue_control s (str "ping"));
  let '(s, first) := plane_next_outbound s in
  _ ← (if bool_decide (first = Some (ControlFrame (str "ping"))) then Some () else None);
  '(t, got) ← carry true (str "ping") t;
  _ ← (if bool_decide (got = str "ping") then Some () else None);
  '(t, s) ← suite_drain (S (N.to_nat (plane_pending_frames s))) s t;
  '(s, _) ← unwrap_with (begin_drain s);
  '(s, _) ← unwrap_with (finish_drain s);
  if bool_decide (close_reason (info s) = Some Graceful) then Some (t, ()) else None.

(** The session that is aborted with a frame in its queue. *)
Definition suite_abort (negotiated : NegotiatedSession) (data : ValidatedChannel) : option () :=
  s ← unwrap (session_established negotiated kit_mux_limits 1);
  '(s, _) ← unwrap_with (open_validated_channel s data);
  let channel := vc_config data in
  '(s, _) ← unwrap_with (plane_enqueue s
    (mkEnv (info_session_id (info s)) (cfg_id channel) (cfg_generation channel) 2 0 (mkEnvFlags false false)
       (str "discard")));
  let s := abort s in
  if bool_decide (plane_pending_frames s = 0) && bool_decide (close_reason (info s) = Some LocalAbort)
  then Some () else None.

Definition suite_over (t : T) : option (T * ()) :=
  let offers := [kit_offer (str "mutsuki.lilia"); kit_offer (str "mutsuki.distributed")] in
  registry ← kit_registry offers;
  '(t, negotiated) ← suite_handshake offers t;
  s ← unwrap (session_established negotiated kit_mux_limits 2);
  active ← unwrap (activate registry (ns_protocols negotiated));
  data ← unwrap (active_open_channel active
    (mkOpenRequest (stable_id_derive (str "mutsuki") (str "lilia")) 1 1 1));
  control ← unwrap (active_open_channel active
    (mkOpenRequest (stable_id_derive (str "mutsuki") (str "distributed")) 1 2 1));
  '(t, _) ← suite_session negotiated s data control t;
  _ ← suite_abort negotiated data;
  Some (t, ()).
End suite.

(** The suite with nothing in between: frames and messages arrive at once. *)
Definition SUITE_MESSAGE_BYTES : N := 64.
(** The messages that a transport has to carry: short ones, which do not look
    like a control stream's. *)
Definition suite_message (m : list byte) : bool :=
  (len m <=? SUITE_MESSAGE_BYTES) && bool_decide (lane_of m = DataLane).
Definition direct_transmit (e : pair_end) (frame : HandshakeFrame) (t : ()) : option (() * HandshakeFrame) :=
  Some (t, frame).
Definition direct_carry (as_control : bool) (message : list byte) (t : ()) : option (() * list byte) :=
  if suite_message message then Some (t, message) else None.
Definition suite_direct `{Sha256} : option (() * ()) := suite_over direct_transmit direct_carry ().

(** ** Over two connections *)

(** The codec of the harness: a frame stays here, its number crosses. *)
Record HarnessCodec := mkCodec { codec_next : N; codec_frames : gmap N HandshakeFrame }.
Definition codec_new : HarnessCodec := mkCodec 1 ∅.

Section connections.
Context {C W : Type} `{Connection C W} (client server : C) (yields : W -> W) (polls : nat).

Definition connection_of (e : pair_end) : C := match e with LeftEnd => client | RightEnd => server end.

(** [receive]: while nothing is there the other tasks run, until the deadline
    after [polls] attempts. *)
Fixpoint kit_receive (polls : nat) (c : C) (w : W) : option (W * list byte) :=
  match try_receive c w with
  | (w, Ok (Some message)) => Some (w, message)
  | (w, Err e) =>
    if bool_decide (te_kind e = TransportErrorKind.WouldBlock)
    then match polls with O => None | S polls => kit_receive polls c (yields w) end
    else None
  | (_, Ok None) => None
  end.

Definition kit_transmit (e : pair_end) (frame : HandshakeFrame) (s : HarnessCodec * W)
    : option (HarnessCodec * W * HandshakeFrame) :=
  let '(codec, w) := s in
  let id := codec_next codec in
  next ← checked_add u64_max id 1;
  let frames := <[id := frame]> (codec_frames codec) in
  '(w, _) ← unwrap_with (try_send (connection_of e) (be_bytes 8 id) w);
  '(w, wire) ← kit_receive polls (connection_of (other e)) w;
  if bool_decide (length wire = 8%nat) then
    let id := from_be_bytes wire in
    frame ← frames !! id;
    Some (mkCodec next (delete id frames), w, frame)
  else None.
Definition kit_carry (as_control : bool) (message : list byte) (s : HarnessCodec * W)
    : option (HarnessCodec * W * list byte) :=
  let '(codec, w) := s in
  '(w, _) ← unwrap_with ((if as_control then try_send_control else try_send) client message w);
  '(w, got) ← kit_receive polls server w;
  Some (codec, w, got).

Definition run_session_transport_suite `{Sha256} (w : W) : option W :=
  '(s, _) ← suite_over kit_transmit kit_carry (codec_new, w); Some s.2.
End connections.

(** ** The suite depends on nothing else *)

(** What an idle transport owes the suite: a message sent at either end, or
    sent as control at the client, is the next that the other end receives
    before the deadline, and the transport is idle again. *)
Class CarriesMessages {C W} `{Connection C W} (client server : C) (yields : W -> W) (polls : nat)
    (idle : W -> Prop) : Prop := {
  carries_message e m w : idle w -> suite_message m = true ->
    exists w1 w2, try_send (connection_of client server e) m w = (w1, Ok ())
      /\ kit_receive yields polls (connection_of client server (other e)) w1 = Some (w2, m) /\ idle w2;
  carries_control m w : idle w -> suite_message m = true ->
    exists w1 w2, try_send_control client m w = (w1, Ok ())
      /\ kit_receive yields polls server w1 = Some (w2, m) /\ idle w2;
}.

Section simulation.
Context `{Sha256} {T : Type} (transmit : pair_end -> HandshakeFrame -> T -> option (T * HandshakeFrame))
  (carry : bool -> list byte -> T -> option (T * list byte)).
Context (R : nat -> T -> Prop).
Hypothesis transmits : forall n e frame t, R (S n) t -> exists t', transmit e frame t = Some (t', frame) /\ R n t'.
Hypothesis carried : forall n c m t, R n t -> suite_message m = true -> exists t', carry c m t = Some (t', m) /\ R n t'.

(** The run does as well as the direct one, and [n] transmissions are left. *)
Definition follows {A} (n : nat) (m : option (T * A)) (d : option (() * A)) : Prop :=
  match d with Some (_, a) => exists t, m = Some (t, a) /\ R n t | None => True end.

Lemma follows_pure {A B} n (x : option B) (f : B -> option (T * A)) (g : B -> option (() * A)) :
  (forall b, follows n (f b) (g b)) -> follows n (x ≫= f) (x ≫= g).
Proof. intros Hf. destruct x; [apply Hf|done]. Qed.
Lemma follows_bind {A B} n k (m : option (T * B)) d (f : T * B -> option (T * A)) (g : () * B -> option (() * A)) :
  follows n m d -> (forall t b, R n t -> follows k (f (t, b)) (g ((), b))) -> follows k (m ≫= f) (d ≫= g).
Proof. destruct d as [[[] b]|]; [|done]. intros (t & -> & Ht) Hf. by apply Hf. Qed.
Lemma follows_transmit n e frame t : R (S n) t -> follows n (transmit e frame t) (direct_transmit e frame ()).
Proof. apply transmits. Qed.
Lemma follows_carry n c m t : R n t -> follows n (carry c m t) (direct_carry c m ()).
Proof. intros Ht. unfold direct_carry. destruct (suite_message m) eqn:Hm; [by apply carried|done]. Qed.
Lemma follows_some {A} n t (a : A) : R n t -> follows n (Some (t, a)) (Some ((), a)).
Proof. intros Ht. by exists t. Qed.
Lemma follows_if {A} n (c : bool) (m1 m2 : option (T * A)) d1 d2 :
  follows n m1 d1 -> follows n m2 d2 -> follows n (if c then m1 else m2) (if c then d1 else d2).
Proof. by destruct c. Qed.
Lemma follows_none {A} n (m : option (T * A)) : follows n m None.
Proof. done. Qed.

Ltac follow :=
  repeat first
  [ apply follows_none
  | apply follows_some; eassumption
  | apply follows_if
  | eapply follows_bind; [eapply follows_transmit; eassumption|]; intros ? ? ?; cbv beta iota
  | eapply follows_bind; [eapply follows_carry; eassumption|]; intros ? ? ?; cbv beta iota
  | apply follows_pure; let b := fresh "b" in intros b; lazymatch type of b with (_ * _)%type => destruct b | _ => idtac end; cbv beta iota ].

Lemma handshake_follows offers n t : R (6 + n) t ->
  follows n (suite_handshake transmit offers t) (suite_handshake direct_transmit offers ()).
Proof. intros Ht. unfold suite_handshake. cbv zeta. follow. Qed.

Lemma drain_follows n fuel : forall s t, R n t ->
  follows n (suite_drain carry fuel s t) (suite_drain direct_carry fuel s ()).
Proof.
  induction fuel as [|fuel IH]; intros s t Ht; cbn [suite_drain]; [done|].
  destruct (plane_next_outbound s) as [s1 [frame|]]; [|by apply follows_some]. cbv zeta.
  follow. by apply IH.
Qed.
Lemma session_follows negotiated s data control n t : R n t ->
  follows n (suite_session carry negotiated s data control t) (suite_session direct_carry negotiated s data control ()).
Proof.
  intros Ht. unfold suite_session. follow. destruct (plane_next_outbound _). follow.
  eapply follows_bind; [by apply drain_follows|]. intros ? ? ?. cbv beta iota. follow.
Qed.
Lemma suite_follows n t : R (6 + n) t -> follows n (suite_over transmit carry t) (suite_over direct_transmit direct_carry ()).
Proof.
  intros Ht. unfold suite_over. cbv zeta. follow. eapply follows_bind; [by apply handshake_follows|].
  intros ? ? ?. cbv beta iota. follow. eapply follows_bind; [by apply session_follows|].
  intros ? [] ?. cbv beta iota. follow.
Qed.
End simulation.

Section carrying.
Context {C W : Type} `{Connection C W} (client server : C) (yields : W -> W) (polls : nat) (idle : W -> Prop)
  `{Hcarries : !CarriesMessages client server yields polls idle}.

(** Between the steps of the suite: the transport is idle, the codec holds no
    frame, and its number does not run out in [n] transmissions. *)
Definition kit_between (n : nat) (s : HarnessCodec * W) : Prop :=
  idle s.2 /\ codec_frames s.1 = ∅ /\ codec_next s.1 + N.of_nat n < 256.

Lemma number_carried id : id < 256 -> suite_message (be_bytes 8 id) = true.
Proof.
  intros Hid. assert (Forall (fun id => suite_message (be_bytes 8 id) = true) (N.of_nat <$> seq 0 256)) as Hall
    by (apply (bool_decide_unpack _); vm_compute; reflexivity).
  rewrite Forall_forall in Hall. apply Hall, list_elem_of_fmap.
  exists (N.to_nat id). split; [lia|]. apply elem_of_seq. lia.
Qed.
Lemma kit_transmits n e frame s : kit_between (S n) s -> exists s',
  kit_transmit client server yields polls e frame s = Some (s', frame) /\ kit_between n s'.
Proof.
  destruct s as [codec w]. intros (Hw & Hf & Hn). cbn in Hw, Hf, Hn. unfold kit_transmit, checked_add.
  rewrite decide_True by lia. cbn [mbind option_bind].
  destruct (carries_message e (be_bytes 8 (codec_next codec)) w Hw) as (w1 & w2 & -> & Hr & Hw2);
    [apply number_carried; lia|].
  unfold unwrap_with. cbn [unwrap fst snd mbind option_bind]. rewrite Hr. cbn [mbind option_bind].
  rewrite bool_decide_eq_true_2 by apply be_bytes_length.
  rewrite from_be_bytes_small by (cbn; lia). rewrite Hf, lookup_insert_eq. cbn [mbind option_bind].
  eexists. split; [done|]. split_and!; cbn; [done|by rewrite delete_insert_eq, delete_empty|lia].
Qed.
Lemma kit_carries n as_control m s : kit_between n s -> suite_message m = true -> exists s',
  kit_carry client server yields polls as_control m s = Some (s', m) /\ kit_between n s'.
Proof.
  destruct s as [codec w]. intros (Hw & Hrest) Hm. cbn in Hw, Hrest. unfold kit_carry, unwrap_with.
  assert (exists w1 w2, (if as_control then try_send_control else try_send) client m w = (w1, Ok ())
    /\ kit_receive yields polls server w1 = Some (w2, m) /\ idle w2) as (w1 & w2 & -> & Hr & Hw2)
    by (destruct as_control; [by apply carries_control|by apply (carries_message LeftEnd)]).
  cbn [unwrap fst snd mbind option_bind]. rewrite Hr. cbn [mbind option_bind]. eexists. split; [done|]. by split.
Qed.
End carrying.

(** the suite asks nothing of a transport but that it carries messages.  When
    it passes with nothing between client and server - handshake, activation,
    channels, frames of every kind, drain and abort all do what it asserts - it
    passes over any two connections that bring each short message to the other
    end before the deadline, and leaves them idle. *)
Theorem transport_suite_passes `{Sha256} {C W} `{Connection C W} (client server : C) (yields : W -> W) polls idle
    `{!CarriesMessages client server yields polls idle} (w : W) :
  suite_direct = Some ((), ()) -> idle w ->
  exists w', run_session_transport_suite client server yields polls w = Some w' /\ idle w'.
Proof.
  intros Hd Hw.
  pose proof (suite_follows (kit_transmit client server yields polls) (kit_carry client server yields polls)
    (kit_between idle) (kit_transmits client server yields polls idle)
    (kit_carries client server yields polls idle) 0 (codec_new, w)) as Hf.
  unfold follows in Hf. change (suite_over direct_transmit direct_carry ()) with suite_direct in Hf. rewrite Hd in Hf.
  destruct Hf as (s & Hs & Hi & _); [by split_and!|]. exists s.2. unfold run_session_transport_suite. by rewrite Hs.
Qed.

(** ** Framed connections carry messages

    The connections of the TCP and of the local transport, over one stream,
    when every task gets a turn while the suite waits. *)

Definition one_turn_each (w : FramedWorld) : FramedWorld :=
  fold_left (fun w t => task_step t (Run 128) w)
    [WriterOf LeftEnd; WriterOf RightEnd; ReaderOf LeftEnd; ReaderOf RightEnd] w.
Definition suite_metadata (l r : N) : ConnectionMetadata :=
  mkMetadata (id_of EndpointKind l) (id_of EndpointKind r) None true false.
Definition framed_client : FramedHandle := mkFramedHandle (suite_metadata 1 2) LeftEnd.
Definition framed_server : FramedHandle := mkFramedHandle (suite_metadata 2 1) RightEnd.

Section framed.
Definition framed_at (control data : list (list byte)) (x : writer_at) (came : list (list byte)) (y : reader_at)
    : FramedConnection :=
  mkFramed default_transport_budget (mkSendHalf true true control data true true x false false)
    (mkReceiveHalf [] came y false false) None.
#[local] Abbreviation quiet := (mkPipe [] false).

Lemma writer_idles came y p : writer_step (Run 128) (framed_at [] [] AtSelect came y) p = (framed_at [] [] AtSelect came y, p).
Proof. reflexivity. Qed.
Lemma reader_idles control data x : reader_step (Run 128) (framed_at control data x [] (AtLength [])) quiet
  = (framed_at control data x [] (AtLength []), quiet).
Proof. reflexivity. Qed.
Context (m : list byte).
Hypothesis Hm : suite_message m = true.
Lemma suite_message_spec : len m <= 64 /\ lane_of m = DataLane.
Proof. unfold suite_message, SUITE_MESSAGE_BYTES in Hm. by guards. Qed.

Lemma writer_takes l came y p :
  writer_step (Run 128) (framed_at (match l with ControlLane => [m] | DataLane => [] end)
    (match l with ControlLane => [] | DataLane => [m] end) AtSelect came y) p
  = (framed_at [] [] (AtWrite (frame_of m)) came y, p).
Proof.
  destruct suite_message_spec as [Hl _]. destruct l; cbn -[be_bytes]; unfold start_frame;
    rewrite (proj2 (N.ltb_ge _ _)) by lia; reflexivity.
Qed.
Lemma writer_writes came y : writer_step (Run 128) (framed_at [] [] (AtWrite (frame_of m)) came y) quiet
  = (framed_at [] [] (AtWrite []) came y, mkPipe (frame_of m) false).
Proof.
  destruct suite_message_spec as [Hl _]. unfold writer_step. cbn [send_half framed_at writer].
  assert (length (frame_of m) <= 128)%nat by (unfold frame_of; rewrite length_app, be_bytes_length; lia).
  destruct (frame_of m) as [|b l] eqn:E; [done|]. rewrite take_ge, drop_ge by done. reflexivity.
Qed.
Lemma writer_flushes came y p : writer_step (Run 128) (framed_at [] [] (AtWrite []) came y) p
  = (framed_at [] [] AtSelect came y, p).
Proof. reflexivity. Qed.
Lemma reader_gets_length control data x :
  reader_step (Run 128) (framed_at control data x [] (AtLength [])) (mkPipe (frame_of m) false)
  = (framed_at control data x [] (AtMessage (len m) []), mkPipe m false).
Proof.
  destruct suite_message_spec as [Hl _]. unfold reader_step. cbn [receive_half framed_at reader pipe_bytes pipe_ended].
  rewrite andb_false_r. unfold read_pipe. cbn [length Nat.min Nat.sub pipe_bytes pipe_ended app].
  unfold frame_of. rewrite take_app_length', drop_app_length' by (by rewrite be_bytes_length).
  rewrite be_bytes_length. cbn [N.eqb N.of_nat]. unfold got_length. rewrite from_be_bytes_small by (cbn; lia).
  cbn [fc_budget framed_at max_frame_bytes default_transport_budget]. 
  rewrite (proj2 (N.ltb_ge _ _)) by (cbn; lia). reflexivity.
Qed.
Lemma reader_gets_message control data x :
  reader_step (Run 128) (framed_at control data x [] (AtMessage (len m) [])) (mkPipe m false)
  = (framed_at control data x [] (AtDeliver m), quiet).
Proof.
  destruct suite_message_spec as [Hl _]. unfold reader_step. cbn [receive_half framed_at reader pipe_bytes pipe_ended].
  rewrite andb_false_r. unfold read_pipe. cbn [pipe_bytes pipe_ended app length].
  rewrite take_ge, drop_ge by lia. rewrite N.eqb_refl. reflexivity.
Qed.
Lemma reader_delivers control data x p :
  reader_step (Run 128) (framed_at control data x [] (AtDeliver m)) p
  = (framed_at control data x [m] (AtLength []), p).
Proof.
  destruct suite_message_spec as [_ Hl]. unfold reader_step. cbn [receive_half framed_at reader].
  unfold deliver_message. rewrite Hl. reflexivity.
Qed.

#[local] Abbreviation at_rest := (framed_at [] [] AtSelect [] (AtLength [])).
Lemma turn_of l r p q l1 p1 r1 q1 l2 q2 r2 p2 :
  writer_step (Run 128) l p = (l1, p1) -> writer_step (Run 128) r q = (r1, q1) ->
  reader_step (Run 128) l1 q1 = (l2, q2) -> reader_step (Run 128) r1 p1 = (r2, p2) ->
  one_turn_each (mkFramedWorld l r p q) = mkFramedWorld l2 r2 p2 q2.
Proof.
  intros E1 E2 E3 E4. unfold one_turn_each, task_step.
  cbn [fold_left framed_end pipe_from left_end right_end from_left from_right other]. rewrite E1.
  cbn [set_framed set_pipe left_end right_end from_left from_right]. rewrite E2.
  cbn [set_framed set_pipe left_end right_end from_left from_right]. rewrite E3.
  cbn [set_framed set_pipe left_end right_end from_left from_right]. by rewrite E4.
Qed.
(** The world while the message is on its way from [e]. *)
Definition pair_from (e : pair_end) (sender receiver : FramedConnection) (p : pipe) : FramedWorld :=
  match e with
  | LeftEnd => mkFramedWorld sender receiver p quiet
  | RightEnd => mkFramedWorld receiver sender quiet p
  end.
Definition framed_of (e : pair_end) : FramedHandle := connection_of framed_client framed_server e.
Lemma kit_waits e n sender x y p : y <> ReaderEnded ->
  kit_receive one_turn_each (S n) (framed_of (other e)) (pair_from e sender (framed_at [] [] x [] y) p)
  = kit_receive one_turn_each n (framed_of (other e)) (one_turn_each (pair_from e sender (framed_at [] [] x [] y) p)).
Proof. intros Hy. destruct e, y; done || reflexivity. Qed.
Lemma kit_gets e n :
  kit_receive one_turn_each n (framed_of (other e)) (pair_from e at_rest (framed_at [] [] AtSelect [m] (AtLength [])) quiet)
  = Some (pair_from e at_rest at_rest quiet, m).
Proof. destruct e, n; reflexivity. Qed.
Lemma turn_from e sender sender' receiver receiver' p p' q :
  writer_step (Run 128) sender p = (sender', p') -> reader_step (Run 128) receiver p' = (receiver', q) ->
  writer_step (Run 128) receiver quiet = (receiver, quiet) -> reader_step (Run 128) sender' quiet = (sender', quiet) ->
  one_turn_each (pair_from e sender receiver p) = pair_from e sender' receiver' q.
Proof. intros E1 E2 E3 E4. destruct e; by eapply turn_of. Qed.

Lemma framed_carries_one e l :
  kit_receive one_turn_each 8 (framed_of (other e))
    (pair_from e (framed_at (match l with ControlLane => [m] | DataLane => [] end)
                   (match l with ControlLane => [] | DataLane => [m] end) AtSelect [] (AtLength [])) at_rest quiet)
  = Some (pair_from e at_rest at_rest quiet, m).
Proof.
  rewrite kit_waits by done.
  erewrite turn_from by (apply writer_takes || apply reader_idles || apply writer_idles).
  rewrite kit_waits by done.
  erewrite turn_from by (apply writer_writes || apply reader_gets_length || apply reader_idles || apply writer_idles).
  rewrite kit_waits by done.
  erewrite turn_from by (apply writer_flushes || apply reader_gets_message || apply reader_idles || apply writer_idles).
  rewrite kit_waits by done.
  erewrite turn_from by (apply writer_idles || apply reader_delivers || apply reader_idles).
  apply kit_gets.
Qed.
End framed.

Definition suite_pair : FramedWorld :=
  mkFramedWorld (fresh default_transport_budget) (fresh default_transport_budget) (mkPipe [] false) (mkPipe [] false).
Lemma framed_accepts e l m : suite_message m = true ->
  at_end e (framed_try_send l m) suite_pair
  = (pair_from e (framed_at (match l with ControlLane => [m] | DataLane => [] end)
                   (match l with ControlLane => [] | DataLane => [m] end) AtSelect [] (AtLength []))
       (framed_at [] [] AtSelect [] (AtLength [])) (mkPipe [] false), Ok ()).
Proof.
  intros [Hl _]%suite_message_spec. unfold at_end, framed_try_send, framed_enqueue.
  destruct e, l; cbn -[N.ltb]; rewrite (proj2 (N.ltb_ge _ _)) by lia; reflexivity.
Qed.
#[export] Instance framed_carries :
  CarriesMessages framed_client framed_server one_turn_each 8 (fun w => w = suite_pair).
Proof.
  split.
  - intros e m w -> Hm. eexists _, suite_pair. split; [|split; [|done]].
    + cbn. replace (fh_end _) with e by (by destruct e). by apply (framed_accepts e DataLane).
    + pose proof (framed_carries_one m Hm e DataLane) as Hc. by destruct e.
  - intros m w -> Hm. eexists _, suite_pair. split; [|split; [|done]].
    + by apply (framed_accepts LeftEnd ControlLane).
    + exact (framed_carries_one m Hm LeftEnd ControlLane).
Qed.

Lemma suite_direct_passes : suite_direct (H := toy_sha256) = Some ((), ()).
Proof. vm_compute. reflexivity. Qed.
Lemma transport_suite_passes_witness : exists w',
  run_session_transport_suite (H0 := toy_sha256) framed_client framed_server one_turn_each 8 suite_pair = Some w'
  /\ w' = suite_pair.
Proof.
  apply (transport_suite_passes (H := toy_sha256) framed_client framed_server one_turn_each 8 (fun w => w = suite_pair)
    suite_pair suite_direct_passes eq_refl).
Defined.

(** ** The in-memory transport does not pass

    [try_receive] of the other transports returns what was sent as control
    when it does not look like a control stream; that of a memory connection
    looks at its reliable queue alone, however often it is asked. *)
Definition suite_memory : option (MemoryConnection * MemoryConnection * MemoryPair) :=
  memory_transport_pair (id_of EndpointKind 1) (id_of EndpointKind 2) default_memory_config.
Lemma memory_fails_suite : exists client server w w1,
  suite_memory = Some (client, server, w)
  /\ try_send_control client (str "ping") w = (w1, Ok ())
  /\ (forall n, kit_receive (fun w => w) n server w1 = None)
  /\ run_session_transport_suite (H0 := toy_sha256) client server (fun w => w) 8 w = None.
Proof.
  destruct suite_memory as [[[client server] w]|] eqn:E; [|discriminate E]. injection E as <- <- <-.
  eexists _, _, _, _. split; [reflexivity|]. split; [reflexivity|]. split.
  - intros n. induction n as [|n IH]; [reflexivity|exact IH].
  - vm_compute. reflexivity.
Qed.
